(* ===== verification/_CoqProject ===== *)
-Q . S2P
Prelude.v
Params.v
ParamsFacts.v
PayloadData.v
ParamValues.v
Nested.v
ParamsTheory.v
Header.v
Codec.v
MsgData.v
MsgSsnm.v
MsgAspsm.v
MsgAsptm.v
MsgRkm.v
MsgMgmt.v
Message.v
MessageTheory.v
Compat.v
Inventory.v
AppServer.v
RoutingKey.v
RoutingKeyTheory.v
MapSum.v
Ssnm.v
SsnmInvariant.v
SsnmDelta.v
SsnmTheory.v
AppServerInvariant.v
AppServerTheory.v
Distribution.v
DistributionInvariant.v
DistributionTheory.v
DeliveryTheory.v
RkmRegistry.v
RkmInvariant.v
RkmTheory.v
Tack.v
Association.v
AspProcedures.v
AspMachine.v
AssociationFacts.v
AspTheory.v
AspStates.v
TackTheory.v
AspProperties.v
AspHandshake.v
Destinations.v
DestinationsTheory.v
DestinationsLog.v
Mtp3Restart.v
SsnmEndpoint.v
RestartTheory.v
StatementTheory.v
SsnmProcedures.v
SsnmProcedureTheory.v
AuditTheory.v
