(* ===== verification/Prelude.v ===== *)
(** * go-m3ua: verification development

    go-m3ua implements MTP3 User Adaptation (M3UA, RFC 4666): an SS7
    application or signalling gateway exchanges SS7 traffic and management
    messages with its peers over SCTP.  This library models the program's
    codecs, its bounded stores, the state machines of an Application Server and
    of an Association, the distribution of traffic and the registry of Routing
    Keys, and proves what makes them correct.

    ** The program

    - Package [src/messages/params] encodes and decodes parameters: a tag, a
      length, a value, padding to a multiple of four octets.  Some values are
      constrained by their tag; three tags (Routing Key, Registration Result,
      Deregistration Result) hold parameters again.
    - Package [src/messages] encodes and decodes messages: a common header
      of eight octets followed by parameters.  One Go file per message type
      has its record, constructor, encoder and decoder; [message.go]
      dispatches on class and type, [generic.go] keeps messages the package
      does not know, [compatibility.go] lets a caller tolerate one violation.
    - Package [m3ua] (the files directly under [src/]) runs an Endpoint with
      Associations.  The dispatcher of an Association handles received messages
      in order, commits the state each leads to and publishes it to the monitor,
      which runs the entry action of the state (fsm.go, aspsm.go, asptm.go);
      requests wait for their Ack under T(ack) (tack.go).  At an SGP and an IPSP
      the states of the peers make the state of each Application Server (as.go),
      which announces it and distributes DATA over its active ASPs, retaining it
      while T(r) runs (distribution.go).  Routing Keys are registered in one
      registry (rkm.go, rkm_registry.go).  What peers report about destinations
      goes into one bounded store (ssnm_state.go), which publishes every change
      to subscriptions (ssnm_subscription.go), and into the destination table of
      the Association (ssnm.go).  An SGP keeps one such table of what it states
      itself (ssnm_operations.go); from it audits are answered, while an MTP3
      restart (mtp3restart.go) holds statements back until it completes.

    ** The files

    - [Prelude]: results of Go functions ([result], with its monad notation),
      slices of octets, big-endian integers, overflow predicates, and the
      tactics and hints the other files share.
    - [Params]: src/messages/params.  The record [Param], [MarshalTo],
      [ParseMultiParams], the value rules, the containers, accessors and
      constructors.  [ParamsFacts] has its lemmas, [Nested] those of the
      containers, [ParamsTheory] its theorems.  [PayloadData] models
      protocol-data.go, the routing label inside a DATA message; [ParamValues]
      the constructor and the accessor of each remaining tag.
    - [Header]: header.go and codec.go.  The per-message code repeats a few
      patterns (validate, encode a list of named parameters, assign a
      parameter at most once); they are definitions of [Header], and every
      message file is written with them.  [Codec] proves what they do and
      states the class [Message], the laws every message type obeys.
    - [MsgData], [MsgSsnm], [MsgAspsm], [MsgAsptm], [MsgRkm], [MsgMgmt]: the
      message types by class, one Module each, each with its [Instance] of
      [Message].
    - [Message]: message.go and generic.go.  [MessageTheory] has the theorems
      on [Parse] and [MarshalBinary], proved from the laws of [Message] for
      all types at once.  [Compat]: compatibility.go.
    - [Inventory]: askey.go, applicationservers.go and trafficmode.go, the keys
      of Application Servers, what is configured about them, and the mode each
      has agreed on.
    - [AppServer]: as.go, one Application Server: its ASPs, its state and T(r),
      the order of distribution, the queue of Notify messages with their
      releases, the Override procedure.  [AppServerInvariant] and
      [AppServerTheory] prove what holds after any run of its operations.
    - [Distribution]: distribution.go, the acceptance of a DATA message, its
      retention, each attempt to write it and the drain of the queue, as the
      critical sections of the code; [world] interleaves senders, drain and
      state changes.  [DistributionInvariant], [DistributionTheory] and
      [DeliveryTheory] are its lemmas and theorems.
    - [RoutingKey]: rkm.go, the canonical form of a Routing Key, the traffic it
      matches and when two overlap; theorems in [RoutingKeyTheory].
      [RkmRegistry]: rkm_registry.go, registration and deregistration as an
      optimistic transaction on a copy; [RkmInvariant] and [RkmTheory].
    - [MapSum]: sums over finite maps.  [Ssnm]: ssnm_state.go and
      ssnm_subscription.go, one function per operation, from the state to the
      state and the error.  [SsnmInvariant] proves the accounting,
      [SsnmDelta] the refinement of the published events, [SsnmTheory] the
      theorems.
    - [Tack]: tack.go, the requests that await an Ack; theorems in [TackTheory].
    - [Association]: the control state of an Association and the operations its
      procedures share (association.go, parts of fsm.go and asptm.go), in the
      state monad [M] with the record [environment] of the answers of everything
      outside and the list [a_out] of what was done there.  [AspProcedures]: the
      handlers of aspsm.go and asptm.go.  [AspMachine]: dispatcher, monitor,
      Error answers, timer, restart, explicit procedures and end, joined by
      [step].  [AssociationFacts] is a calculus of postconditions ([wp]) for
      [M]; [AspTheory] proves the handlers, [AspStates] what a run of [step] can
      do to the peer's state, [AspProperties] order and termination.
      [AspHandshake] is the product of two Associations and explores it.

    - [Destinations]: the destination table of ssnm.go; [DestinationsTheory]
      relates it to a log in which a report restates what was last said of its
      range, [DestinationsLog] that log to the reports as they were made.  [Mtp3Restart]: mtp3restart.go, over a
      target with an operation to publish; [SsnmEndpoint]: the calls of an SGP in
      ssnm_operations.go, their scopes and fan-outs (as.go), and the target of
      its restarts.  [RestartTheory] runs the calls of an SGP and proves what
      holds of its restarts, [StatementTheory] what is sent of a statement.
    - [SsnmProcedures]: SSNM at an Association (ssnm.go, ssnm_binding.go, the
      requests in ssnm_operations.go, the barrier of a write in association.go).
      It joins [Ssnm], [Destinations] and the control state of [Association]: a
      handler reads the last and changes the record [side] of the others, in the
      error monad [P].  [SsnmProcedureTheory] is a calculus of what a handler
      may change ([ensures]) and its theorems; [AuditTheory] composes an SGP
      with the ASP that audits it.

    ** What the theorems show

    - Codec.  Encoding then decoding, and decoding then encoding, are the
      identity, for parameter lists and messages of every type whose parameters
      stand in the fields of their tags
      ([MultiParams_roundtrip], [Parse_MarshalBinary], [Parse_reencode]).  The
      decoder returns on any octets, without a panic ([Parse_safe]).  A decoded
      message has the class and type the octets name, its mandatory parameters,
      and each named parameter once ([Parse_parameters]).
    - Store and subscriptions.  In every reachable state the counters are exact
      and every configured bound holds ([reachable_bounds]); a report is written
      whole or refused whole ([apply_all_or_nothing]).  A subscription promises
      a view of the store; the queue of events implements it
      ([subscription_exact]), with consecutive revisions ([deltas_in_order]),
      within its bounds ([subscription_bounds]).
    - Application Server.  Its state agrees with its ASPs ([as_state_sound]) and
      moves, but for its closing, only along Figure 4 of RFC 4666 and, when an ASP
      enters as ASP-ACTIVE, from AS-DOWN to AS-ACTIVE ([as_transition]); each
      change is announced first and to every ASP that is up ([as_announces]); an Override
      leaves the challenger alone ([activateOverride_exclusive]).
    - Distribution.  As long as T(r) does not expire while a message is in flight,
      which all of these suppose, it refines a FIFO
      ([distribution_refines_fifo]): no message is lost, duplicated or overtaken ([messages_conserved], [at_most_once]), the
      shared budget is exact ([accounting_exact], and [untimely_expiry_panics]
      for the schedule that breaks it), a drain ends ([drain_completes]), a
      Broadcast flow starts with its marker ([broadcast_marker_first]) and a
      withdrawn ASP gets nothing ([withdrawal_stops_traffic]).
    - Routing Keys.  Canonical forms mean what the keys mean
      ([canonical_key_meaning]), the overlap test is exact
      ([overlap_is_common_traffic]).  Concurrent registrations are atomic
      ([calls_take_effect_atomically]); entries never share traffic
      ([routing_keys_stay_disjoint], [traffic_has_one_routing_key]); answers are
      true, repeatable and end with the Association
      ([answers_mean_membership], [retransmission_is_answered_again],
      [forgotten_association_stays_out]); a call alone, of new identifiers, ends
      ([undisturbed_registration_ends], and [replayed_conflict_never_ends] where
      it does not).
    - Association.  What an SGP believes of its peer follows Figure 3 of
      RFC 4666 under any interleaving in which overrides are timely
      ([sgp_follows_figure3], and [late_displacement_activates] for the override
      that is not); but for the Double Exchange model, an Ack comes after the
      peer has stood down in what it names and the traffic barrier, and before
      the Notify ([ack_between_barrier_and_notify]); a request waits for all its contexts
      ([request_waits_for_all_contexts]) and gives up after its retries
      ([retransmission_ends]).  Two ends bring each other up, in nine
      configurations explored ([traffic_comes_up], and [restart_race_stalls] for the restart they do not
      survive).
    - Destinations.  The table answers from the statements as they were made,
      by the range mentioned last ([table_refines_log]); [pause] leaves nothing available
      ([isolation_is_complete]); [report_takes_effect] for a single report, and
      [stale_statements_resurface] for the reports that come back.
    - Restarts and statements of an SGP.  Restarts in progress never meet
      ([restarts_are_disjoint]); a destination stays isolated until its recovery
      is delivered ([isolation_ends_by_completion]); a completion settles each
      destination on its own ([completion_settles_each_destination]); what a
      statement that names Routing Contexts sends is what an audit answers
      ([statement_is_retained_before_it_is_sent]).  A statement about more than
      what is isolated breaks the isolation
      ([wider_statement_breaks_isolation]).
    - SSNM at an Association.  Only the word of a peer entitled to it becomes
      knowledge ([received_ssnm_needs_entitlement]), a handler or a request of an
      ASP writes nothing about a Routing Context without traffic
      ([written_ssnm_needs_activity]), the store binds the Association where it is
      entitled unless it is full ([bindings_follow_entitlement]), and an audit
      teaches the ASP the availability the SGP knows and the congestion it
      answers ([audit_teaches_availability]).

    ** Modelling choices

    - Integers of the code are [Z] with the width written in a predicate
      ([is_u8], [is_u16], [is_u32]) where it matters and wrap-around written
      in the encoders; 64-bit counters that advance by one per operation are
      unbounded, or wrap where the code looks at the wrap.  A Go slice of octets
      is [list byte]; aliasing of slices is not modelled, and no modelled
      function writes to a slice it was given except its destination buffer,
      which it returns.
    - [Panic] is a run-time panic and [OutOfFuel] a recursion cut short; both
      are excluded by the safety theorems.
    - Fuel.  Validation of nested parameters descends at most [64] containers
      and the model gives it fuel 66, one step per level and one for the
      refusal beyond the limit; the loops over octets get as much fuel as
      there are octets, and each step consumes at least four.  The safety
      theorems prove both sufficient.  The exploration of [AspHandshake] has
      fuel 100, and its answer [true] means that it was enough.
    - Operations that run under a mutex are atomic steps; a run is a list of
      them.  An Association of a registry, a goroutine and a pending request are
      numbers.  Callbacks of the application answer anything, anew at each
      attempt.  Values that the code copies under a lock are copied.
    - A handler of an Association runs as one function, while retransmissions,
      the monitor and other Associations act before or after it; the outcome of
      each write is the environment's, and a full queue of mandatory control
      messages is a write that failed.  A timer of T(ack) may fire at any time,
      also one that has been stopped.
    - The shared recovery budget of Distribution is always present; a nil
      Association, registry or configuration, which only tests have, is left
      out.
    ** Not modelled

    Goroutines, sockets, channels and logging (endpoint.go, listener.go,
    dial.go, the writer and reader of association.go), the texts of errors and
    the [String] methods, the backing arrays that slices and queues reuse: their
    behaviour is that of the run-time system and of the kernel's SCTP, which the
    models above take as an environment.  The views of the store a user reads
    (ssnm_projection.go), the registry that spans several Application Servers
    (as.go, apart from the targets of a statement), the routes of an ASP
    (asp_routes.go), the procedures around the registry of Routing Keys
    (rkm_procedure.go), MTP-TRANSFER (mtp_transfer.go), the data path and the
    management indications of an Association, the validation of configurations
    (config.go, asp_config.go), and the tools under src/tools. *)

From Stdlib Require Export ZArith Lia.
From Stdlib.Strings Require Byte.
From stdpp Require Export prelude list gmap strings.

#[global] Open Scope Z_scope.
#[global] Set Default Goal Selector "!".
#[global] Set Warnings "-clear-no-such-hyp".

(** ** Results of Go functions

    A Go function that returns [(T, error)] is modelled by [result E T].  The
    two extra constructors are not error values of the program: [Panic] is a
    run-time panic (an index or a slice bound out of range) and [OutOfFuel] is
    a recursion that used up the fuel of its definition.  A theorem that a
    function is [safe] rules both out. *)

Inductive result (E A : Type) : Type :=
| Ok (a : A)
| Err (e : E)
| Panic
| OutOfFuel.
Arguments Ok {E A} a.
Arguments Err {E A} e.
Arguments Panic {E A}.
Arguments OutOfFuel {E A}.

#[export] Instance result_ret E : MRet (result E) := fun A a => Ok a.
#[export] Instance result_bind E : MBind (result E) := fun A B f m =>
  match m with
  | Ok a => f a
  | Err e => Err e
  | Panic => Panic
  | OutOfFuel => OutOfFuel
  end.
#[export] Instance result_fmap E : FMap (result E) := fun A B f m =>
  match m with
  | Ok a => Ok (f a)
  | Err e => Err e
  | Panic => Panic
  | OutOfFuel => OutOfFuel
  end.

(** The error of a callee seen through the error type of its caller. *)
Definition map_err {E F A} (f : E → F) (m : result E A) : result F A :=
  match m with
  | Ok a => Ok a
  | Err e => Err (f e)
  | Panic => Panic
  | OutOfFuel => OutOfFuel
  end.

(** [safe m]: the call returns to its caller, with a value or an error. *)
Definition safe {E A} (m : result E A) : Prop :=
  match m with Ok _ | Err _ => True | _ => False end.

(** [if !c { return err }]. *)
Definition ensure {E} (c : bool) (e : E) : result E () :=
  if c then Ok tt else Err e.

(** A [for] loop over a slice that may return early with an error. *)
Fixpoint foldM {E S A} (f : S → A → result E S) (s : S) (l : list A) : result E S :=
  match l with
  | [] => Ok s
  | a :: l => s' ← f s a; foldM f s' l
  end.

Section results.
Context {E A B : Type}.
Implicit Types (m : result E A).

Lemma bind_Ok m (f : A → result E B) b :
  m ≫= f = Ok b ↔ ∃ a, m = Ok a ∧ f a = Ok b.
Proof.
  split.
  - destruct m; [intros ?; eauto|done..].
  - by intros (? & -> & ?).
Qed.

Lemma Ok_bind (a : A) (f : A → result E B) : Ok a ≫= f = f a.
Proof. done. Qed.

Lemma safe_bind m (f : A → result E B) :
  safe m → (∀ a, m = Ok a → safe (f a)) → safe (m ≫= f).
Proof. destruct m; cbn; naive_solver. Qed.

Lemma safe_fmap m (f : A → B) : safe m → safe (f <$> m).
Proof. by destruct m. Qed.

Lemma safe_map_err {F} m (f : E → F) : safe m → safe (map_err f m).
Proof. by destruct m. Qed.

Lemma map_err_Ok {F} m (f : E → F) a : map_err f m = Ok a ↔ m = Ok a.
Proof. destruct m; cbn; naive_solver. Qed.

Lemma ensure_Ok c (e : E) : ensure c e = Ok tt ↔ c = true.
Proof. destruct c; cbn; naive_solver. Qed.

Lemma safe_ensure c (e : E) : safe (ensure c e).
Proof. by destruct c. Qed.
End results.

Section foldM.
Context {E S A : Type}.
Implicit Types (f : S → A → result E S).

Lemma foldM_app f s l k : foldM f s (l ++ k) = s' ← foldM f s l; foldM f s' k.
Proof.
  revert s; induction l as [|a l IH]; intros s; [done|].
  cbn. destruct (f s a); cbn; auto.
Qed.

Lemma safe_foldM f s l : (∀ s a, a ∈ l → safe (f s a)) → safe (foldM f s l).
Proof.
  revert s; induction l as [|a l IH]; intros s Hf; [done|].
  cbn; apply safe_bind; [apply Hf; set_solver|].
  intros s' _; apply IH; intros; apply Hf; set_solver.
Qed.

(** Invariant rule for a loop that runs to its end. *)
Lemma foldM_inv (I : S → Prop) f s l s' :
  (∀ s a s', a ∈ l → I s → f s a = Ok s' → I s') →
  I s → foldM f s l = Ok s' → I s'.
Proof.
  revert s; induction l as [|a l IH]; intros s Hf Hs; cbn; [by intros [= <-]|].
  rewrite bind_Ok; intros (s1 & H1 & H2).
  eapply IH, H2; [intros; eapply Hf; eauto; set_solver|].
  eapply Hf; eauto; set_solver.
Qed.

(** Every element of a loop that ran to its end was processed. *)
Lemma foldM_elem f s l s' a :
  foldM f s l = Ok s' → a ∈ l → ∃ s1 s2, f s1 a = Ok s2.
Proof.
  revert s; induction l as [|b l IH]; intros s H Ha; [by apply elem_of_nil in Ha|].
  cbn in H. apply bind_Ok in H as (s1 & H1 & H).
  apply elem_of_cons in Ha as [->|Ha]; [by eauto|by eapply IH].
Qed.
End foldM.

Create HintDb safety.
#[export] Hint Resolve safe_fmap safe_map_err safe_ensure : safety.
#[export] Hint Extern 1 (safe (Ok _)) => exact I : safety.
#[export] Hint Extern 1 (safe (Err _)) => exact I : safety.

(** [inv_ok H] takes apart a hypothesis that a sequence of calls returned
    [Ok], one call at a time. *)
Ltac inv_ok H :=
  repeat match type of H with
  | Ok _ = Ok _ => injection H; clear H; intros; subst
  | Err _ = Ok _ => discriminate H
  | Panic = Ok _ => discriminate H
  | OutOfFuel = Ok _ => discriminate H
  | (_ ≫= _) = Ok _ =>
      let a := fresh "a" in let Ha := fresh "Ha" in
      apply bind_Ok in H; destruct H as (a & Ha & H)
  | (if ?c then _ else _) = Ok _ =>
      let Hc := fresh "Hc" in destruct c eqn:Hc;
      try match type of H with Err _ = Ok _ => discriminate H end
  | (let '(_, _) := ?x in _) = Ok _ => destruct x
  end.

(** A loop [for i, a := range l]. *)
Fixpoint foldMi {E S A} (f : nat → S → A → result E S) (i : nat) (s : S) (l : list A)
    : result E S :=
  match l with
  | [] => Ok s
  | a :: l => s' ← f i s a; foldMi f (Datatypes.S i) s' l
  end.

Lemma foldMi_const {E S A} (f : S → A → result E S) i s l :
  foldMi (λ _, f) i s l = foldM f s l.
Proof.
  revert i s; induction l as [|a l IH]; intros i s; cbn; [done|].
  destruct (f s a); cbn; auto.
Qed.

(** A step that uses the position on none of the elements. *)
Lemma foldMi_ext {E S A} (f : nat → S → A → result E S) g i s l :
  (∀ j s a, a ∈ l → f j s a = g s a) → foldMi f i s l = foldM g s l.
Proof.
  revert i s; induction l as [|a l IH]; intros i s Hfg; cbn; [done|].
  rewrite Hfg by by constructor. destruct (g s a); cbn; auto.
  apply IH. intros j s' a' Ha. apply Hfg. by constructor.
Qed.

Lemma safe_foldMi {E S A} (f : nat → S → A → result E S) i s l :
  (∀ i s a, safe (f i s a)) → safe (foldMi f i s l).
Proof.
  intros Hf. revert i s; induction l as [|a l IH]; intros i s; [done|].
  cbn. apply safe_bind; auto.
Qed.

(** Invariant rule that also records the elements processed so far. *)
Lemma foldMi_inv {E S A} (f : nat → S → A → result E S) (I : S → list A → Prop) i s l k s' :
  (∀ s a k s', a ∈ l → I s k → f (length k) s a = Ok s' → I s' (k ++ [a])) →
  I s k → i = length k → foldMi f i s l = Ok s' → I s' (k ++ l).
Proof.
  revert i s k; induction l as [|a l IH]; intros i s k Hf Hs ->; cbn.
  { intros [= <-]. by rewrite app_nil_r. }
  rewrite bind_Ok; intros (s1 & H1 & H2).
  replace (k ++ a :: l) with ((k ++ [a]) ++ l) by by rewrite <-app_assoc.
  eapply IH, H2.
  - intros. eapply Hf; eauto. by constructor.
  - eapply Hf; eauto. by constructor.
  - rewrite length_app; cbn. lia.
Qed.

(** Boolean tests of the code as propositions. *)
Ltac to_prop :=
  repeat match goal with
  | H : (_ =? _) = true |- _ => apply Z.eqb_eq in H
  | H : (_ =? _) = false |- _ => apply Z.eqb_neq in H
  | H : (_ <? _) = true |- _ => apply Z.ltb_lt in H
  | H : (_ <? _) = false |- _ => apply Z.ltb_ge in H
  | H : (_ <=? _) = true |- _ => apply Z.leb_le in H
  | H : (_ <=? _) = false |- _ => apply Z.leb_gt in H
  | H : _ && _ = true |- _ => apply andb_true_iff in H; destruct H
  | H : _ || _ = false |- _ => apply orb_false_iff in H; destruct H
  | H : negb _ = true |- _ => apply negb_true_iff in H
  | H : negb _ = false |- _ => apply negb_false_iff in H
  end.

(** ** Machine integers

    A w-bit unsigned integer of the code is a [Z]; conversions wrap. *)

Definition u8 (z : Z) : Z := z mod 2 ^ 8.
Definition u16 (z : Z) : Z := z mod 2 ^ 16.
Definition u32 (z : Z) : Z := z mod 2 ^ 32.
Definition u64 (z : Z) : Z := z mod 2 ^ 64.

Definition is_u8 (z : Z) : Prop := 0 ≤ z < 2 ^ 8.
Definition is_u16 (z : Z) : Prop := 0 ≤ z < 2 ^ 16.
Definition is_u32 (z : Z) : Prop := 0 ≤ z < 2 ^ 32.
Definition is_u64 (z : Z) : Prop := 0 ≤ z < 2 ^ 64.

Lemma u16_id z : is_u16 z → u16 z = z.
Proof. apply Z.mod_small. Qed.
Lemma u32_id z : is_u32 z → u32 z = z.
Proof. apply Z.mod_small. Qed.
Lemma is_u16_u16 z : is_u16 (u16 z).
Proof. by apply Z.mod_pos_bound. Qed.
Lemma is_u32_u32 z : is_u32 (u32 z).
Proof. by apply Z.mod_pos_bound. Qed.
#[export] Hint Resolve is_u16_u16 is_u32_u32 : safety.

(** ** Bytes and slices *)

Abbreviation byte := Byte.byte.
Abbreviation bytes := (list Byte.byte).

#[export] Instance byte_eq_dec : EqDecision byte := Byte.byte_eq_dec.

Definition byte_to_Z (b : byte) : Z := Z.of_N (Byte.to_N b).
Definition byte_of_Z (z : Z) : byte :=
  match Byte.of_N (Z.to_N (u8 z)) with Some b => b | None => Byte.x00 end.

Lemma byte_to_Z_range b : 0 ≤ byte_to_Z b < 256.
Proof. unfold byte_to_Z. pose proof (Byte.to_N_bounded b). lia. Qed.

Lemma byte_to_of_Z z : byte_to_Z (byte_of_Z z) = z mod 256.
Proof.
  unfold byte_of_Z, byte_to_Z, u8.
  pose proof (Z.mod_pos_bound z (2 ^ 8) ltac:(done)).
  destruct (Byte.of_N _) eqn:Hb.
  - apply Byte.to_of_N in Hb. rewrite Hb. change 256 with (2 ^ 8). lia.
  - apply Byte.of_N_None_iff in Hb. lia.
Qed.

Lemma byte_of_to_Z b : byte_of_Z (byte_to_Z b) = b.
Proof.
  unfold byte_of_Z, byte_to_Z, u8.
  pose proof (Byte.to_N_bounded b).
  rewrite Z.mod_small by lia. rewrite N2Z.id. by rewrite Byte.of_to_N.
Qed.

(** [len(b)]. *)
Definition len {A} (b : list A) : Z := Z.of_nat (length b).
#[global] Arguments len : simpl never.

Lemma len_nil {A} : len (@nil A) = 0.
Proof. done. Qed.
Lemma len_cons {A} (a : A) l : len (a :: l) = 1 + len l.
Proof. unfold len; cbn; lia. Qed.
Lemma len_app {A} (l k : list A) : len (l ++ k) = len l + len k.
Proof. unfold len; rewrite length_app; lia. Qed.
Lemma len_nonneg {A} (l : list A) : 0 ≤ len l.
Proof. unfold len; lia. Qed.
Lemma len_replicate {A} n (a : A) : len (replicate n a) = Z.of_nat n.
Proof. unfold len; by rewrite length_replicate. Qed.
Lemma len_0_nil {A} (l : list A) : len l = 0 → l = [].
Proof. destruct l; [done|rewrite len_cons; pose proof (len_nonneg l); lia]. Qed.

Create Rewrite HintDb len.
#[export] Hint Rewrite @len_nil @len_cons @len_app @len_replicate : len.

(** [b[lo:hi]].  Go bounds [hi] by the capacity of [b]; no slice expression of
    the modelled code passes [len(b)], and the model panics there. *)
Definition slice {E} (lo hi : Z) (b : bytes) : result E bytes :=
  if (0 <=? lo) && (lo <=? hi) && (hi <=? len b)
  then Ok (take (Z.to_nat (hi - lo)) (drop (Z.to_nat lo) b))
  else Panic.

(** [b[lo:]]. *)
Definition slice_from {E} (lo : Z) (b : bytes) : result E bytes := slice lo (len b) b.

(** [b[i]]. *)
Definition index {E} (i : Z) (b : bytes) : result E Z :=
  if 0 <=? i then
    match b !! Z.to_nat i with Some x => Ok (byte_to_Z x) | None => Panic end
  else Panic.

(** [make([]byte, n)] for [0 <= n]. *)
Definition make_bytes (n : Z) : bytes := replicate (Z.to_nat n) Byte.x00.

(** [copy(b, w)] into the front of a buffer at least as long as [w]. *)
Definition overwrite (w b : bytes) : bytes := w ++ drop (length w) b.

Section slices.
Context {E : Type}.

Lemma slice_app (p q r : bytes) :
  @slice E (len p) (len p + len q) (p ++ q ++ r) = Ok q.
Proof.
  unfold slice. rewrite !len_app.
  pose proof (len_nonneg p); pose proof (len_nonneg q); pose proof (len_nonneg r).
  rewrite !(proj2 (Z.leb_le _ _)) by lia. cbn.
  replace (len p + len q - len p) with (len q) by lia.
  unfold len; rewrite !Nat2Z.id, drop_app_length, take_app_length. done.
Qed.

Lemma slice_prefix (q r : bytes) : @slice E 0 (len q) (q ++ r) = Ok q.
Proof. apply (slice_app [] q r). Qed.

Lemma slice_from_app (p q : bytes) : @slice_from E (len p) (p ++ q) = Ok q.
Proof.
  unfold slice_from. rewrite len_app.
  pose proof (slice_app p q []) as H. by rewrite app_nil_r in H.
Qed.

Lemma slice_Ok lo hi (b c : bytes) :
  @slice E lo hi b = Ok c →
  0 ≤ lo ≤ hi ∧ hi ≤ len b ∧ len c = hi - lo ∧
  ∃ p r, b = p ++ c ++ r ∧ len p = lo.
Proof.
  unfold slice. intros H. inv_ok H. to_prop. split_and!; try lia.
  - unfold len in *. rewrite length_take, length_drop. lia.
  - exists (take (Z.to_nat lo) b), (drop (Z.to_nat hi) b).
    replace (Z.to_nat hi) with (Z.to_nat lo + Z.to_nat (hi - lo))%nat by lia.
    rewrite <-drop_drop, !take_drop. split; [done|].
    unfold len in *. rewrite length_take. lia.
Qed.

Lemma safe_slice lo hi (b : bytes) :
  0 ≤ lo ≤ hi → hi ≤ len b → safe (@slice E lo hi b).
Proof. intros. unfold slice. by rewrite !(proj2 (Z.leb_le _ _)) by lia. Qed.

Lemma slice_total lo hi (b : bytes) :
  0 ≤ lo ≤ hi → hi ≤ len b → ∃ c, @slice E lo hi b = Ok c.
Proof.
  intros. unfold slice. rewrite !(proj2 (Z.leb_le _ _)) by lia. cbn. eauto.
Qed.

Lemma safe_index i (b : bytes) : 0 ≤ i < len b → safe (@index E i b).
Proof.
  intros Hi. unfold index. rewrite (proj2 (Z.leb_le _ _)) by lia.
  destruct (lookup_lt_is_Some_2 b (Z.to_nat i)) as [x ->]; [|done].
  unfold len in Hi; lia.
Qed.

Lemma overwrite_self (w b : bytes) : len b = len w → overwrite w b = w.
Proof.
  intros H. unfold overwrite. unfold len in H. rewrite drop_ge by lia. apply app_nil_r.
Qed.

Lemma len_overwrite (w b : bytes) : len w ≤ len b → len (overwrite w b) = len b.
Proof.
  intros H. unfold overwrite, len in *. rewrite length_app, length_drop. lia.
Qed.

Lemma len_make_bytes n : 0 ≤ n → len (make_bytes n) = n.
Proof. intros. unfold make_bytes. rewrite len_replicate. lia. Qed.
End slices.

(** ** Package encoding/binary: [binary.BigEndian] *)

Definition PutUint16 (v : Z) : bytes := [byte_of_Z (Z.shiftr v 8); byte_of_Z v].

Definition PutUint32 (v : Z) : bytes :=
  [byte_of_Z (Z.shiftr v 24); byte_of_Z (Z.shiftr v 16);
   byte_of_Z (Z.shiftr v 8); byte_of_Z v].

Definition Uint16 {E} (b : bytes) : result E Z :=
  match b with
  | b0 :: b1 :: _ => Ok (byte_to_Z b0 * 2 ^ 8 + byte_to_Z b1)
  | _ => Panic
  end.

Definition Uint32 {E} (b : bytes) : result E Z :=
  match b with
  | b0 :: b1 :: b2 :: b3 :: _ =>
      Ok (byte_to_Z b0 * 2 ^ 24 + byte_to_Z b1 * 2 ^ 16 +
          byte_to_Z b2 * 2 ^ 8 + byte_to_Z b3)
  | _ => Panic
  end.

Lemma split_le {A} (l : list A) n :
  n ≤ len l → ∃ p r, l = p ++ r ∧ len p = Z.max 0 n.
Proof.
  intros H. exists (take (Z.to_nat n) l), (drop (Z.to_nat n) l).
  rewrite take_drop. split; [done|]. unfold len in *. rewrite length_take. lia.
Qed.

Section binary.
Context {E : Type}.

Lemma len_PutUint16 v : len (PutUint16 v) = 2.
Proof. done. Qed.
Lemma len_PutUint32 v : len (PutUint32 v) = 4.
Proof. done. Qed.

Lemma Uint16_PutUint16 v r : is_u16 v → @Uint16 E (PutUint16 v ++ r) = Ok v.
Proof.
  intros [H0 H1]. cbn [Uint16 PutUint16 app]. f_equal.
  rewrite !byte_to_of_Z, Z.shiftr_div_pow2 by lia.
  change (2 ^ 8) with 256 in *. change (2 ^ 16) with 65536 in *.
  pose proof (Z.div_mod v 256 ltac:(lia)).
  rewrite (Z.mod_small (v / 256)); [lia|].
  split; [apply Z.div_pos; lia|apply Z.div_lt_upper_bound; lia].
Qed.

Lemma Uint32_PutUint32 v r : is_u32 v → @Uint32 E (PutUint32 v ++ r) = Ok v.
Proof.
  intros [H0 H1]. cbn [Uint32 PutUint32 app]. f_equal.
  rewrite !byte_to_of_Z, !Z.shiftr_div_pow2 by lia.
  change (2 ^ 8) with 256 in *. change (2 ^ 16) with 65536 in *.
  change (2 ^ 24) with 16777216 in *. change (2 ^ 32) with 4294967296 in *.
  pose proof (Z.div_mod v 256 ltac:(lia)).
  pose proof (Z.div_mod (v / 256) 256 ltac:(lia)).
  pose proof (Z.div_mod (v / 65536) 256 ltac:(lia)).
  rewrite (Z.div_div v 256 256) in * by lia.
  rewrite (Z.div_div v 65536 256) in * by lia.
  change (256 * 256) with 65536 in *. change (65536 * 256) with 16777216 in *.
  rewrite (Z.mod_small (v / 16777216)); [lia|].
  split; [apply Z.div_pos; lia|apply Z.div_lt_upper_bound; lia].
Qed.

Lemma Uint16_Put v : is_u16 v → @Uint16 E (PutUint16 v) = Ok v.
Proof. apply (Uint16_PutUint16 v []). Qed.
Lemma Uint32_Put v : is_u32 v → @Uint32 E (PutUint32 v) = Ok v.
Proof. apply (Uint32_PutUint32 v []). Qed.

Lemma safe_Uint16 b : 2 ≤ len b → safe (@Uint16 E b).
Proof. by destruct b as [|? [|? ?]]. Qed.
Lemma safe_Uint32 b : 4 ≤ len b → safe (@Uint32 E b).
Proof. by destruct b as [|? [|? [|? [|? ?]]]]. Qed.

Lemma Uint16_range b v : @Uint16 E b = Ok v → is_u16 v.
Proof.
  destruct b as [|b0 [|b1 ?]]; cbn; try done. intros [= <-].
  pose proof (byte_to_Z_range b0); pose proof (byte_to_Z_range b1).
  unfold is_u16; lia.
Qed.
Lemma Uint32_range b v : @Uint32 E b = Ok v → is_u32 v.
Proof.
  destruct b as [|b0 [|b1 [|b2 [|b3 ?]]]]; cbn; try done. intros [= <-].
  pose proof (byte_to_Z_range b0); pose proof (byte_to_Z_range b1).
  pose proof (byte_to_Z_range b2); pose proof (byte_to_Z_range b3).
  unfold is_u32; lia.
Qed.

(** Decoding then encoding gives the same octets. *)
Lemma byte_of_Z_mod x b : x mod 256 = byte_to_Z b → byte_of_Z x = b.
Proof.
  intros H. rewrite <-(byte_of_to_Z b), <-H. unfold byte_of_Z, u8.
  change (2 ^ 8) with 256. by rewrite Z.mod_mod.
Qed.

Lemma PutUint16_Uint16 b0 b1 v :
  @Uint16 E [b0; b1] = Ok v → PutUint16 v = [b0; b1].
Proof.
  cbn. intros [= <-]. unfold PutUint16.
  pose proof (byte_to_Z_range b0); pose proof (byte_to_Z_range b1).
  rewrite Z.shiftr_div_pow2 by lia. change (2 ^ 8) with 256.
  rewrite (byte_of_Z_mod _ b0), (byte_of_Z_mod _ b1); [done|..];
    Z.to_euclidean_division_equations; lia.
Qed.

Lemma PutUint32_Uint32 b0 b1 b2 b3 v :
  @Uint32 E [b0; b1; b2; b3] = Ok v → PutUint32 v = [b0; b1; b2; b3].
Proof.
  cbn. intros [= <-]. unfold PutUint32.
  pose proof (byte_to_Z_range b0); pose proof (byte_to_Z_range b1).
  pose proof (byte_to_Z_range b2); pose proof (byte_to_Z_range b3).
  rewrite !Z.shiftr_div_pow2 by lia. change (2 ^ 8) with 256.
  change (2 ^ 16) with 65536. change (2 ^ 24) with 16777216.
  rewrite (byte_of_Z_mod _ b0), (byte_of_Z_mod _ b1), (byte_of_Z_mod _ b2),
    (byte_of_Z_mod _ b3); [done|..]; Z.to_euclidean_division_equations; lia.
Qed.
End binary.

#[export] Hint Resolve safe_Uint16 safe_Uint32 safe_slice safe_index : safety.

(** ** Package unicode/utf8: [utf8.Valid]

    The well-formed byte sequences of Unicode Table 3-7, which is what
    [utf8.Valid] accepts. *)

Definition in_range (lo hi : Z) (b : byte) : bool :=
  (lo <=? byte_to_Z b) && (byte_to_Z b <=? hi).

Fixpoint utf8_Valid (p : bytes) : bool :=
  match p with
  | [] => true
  | b0 :: p1 =>
      if in_range 0 0x7F b0 then utf8_Valid p1 else
      match p1 with
      | [] => false
      | b1 :: p2 =>
          if in_range 0xC2 0xDF b0 then in_range 0x80 0xBF b1 && utf8_Valid p2 else
          match p2 with
          | [] => false
          | b2 :: p3 =>
              let lo := if byte_to_Z b0 =? 0xE0 then 0xA0 else 0x80 in
              let hi := if byte_to_Z b0 =? 0xED then 0x9F else 0xBF in
              if in_range 0xE0 0xEF b0
              then in_range lo hi b1 && in_range 0x80 0xBF b2 && utf8_Valid p3 else
              match p3 with
              | [] => false
              | b3 :: p4 =>
                  let lo := if byte_to_Z b0 =? 0xF0 then 0x90 else 0x80 in
                  let hi := if byte_to_Z b0 =? 0xF4 then 0x8F else 0xBF in
                  in_range 0xF0 0xF4 b0 && in_range lo hi b1 &&
                  in_range 0x80 0xBF b2 && in_range 0x80 0xBF b3 && utf8_Valid p4
              end
          end
      end
  end.
