(* ===== verification/Params.v ===== *)
(** * Parameters (package messages/params)

    The type-length-value codec of RFC 4666 Section 3.2: tags, the [Param]
    record, the length and value rules per tag, encoding, decoding, lists of
    parameters, and the accessors and constructors of the individual
    parameters.  The three container parameters (Routing Key, Registration
    Result, Deregistration Result) and the round-trip theorems are in
    Nested.v and ParamsFacts.v. *)

From S2P Require Import Prelude.


(** ** Tags *)

Definition InfoString : Z := 4.
Definition RoutingContext : Z := 6.
Definition DiagnosticInformation : Z := 7.
Definition HeartbeatData : Z := 9.
Definition TrafficModeType : Z := 11.
Definition ErrorCode : Z := 12.
Definition Status : Z := 13.
Definition AspIdentifier : Z := 17.
Definition AffectedPointCode : Z := 18.
Definition CorrelationID : Z := 19.

Definition NetworkAppearance : Z := 0x200.
Definition UserCause : Z := 0x204.
Definition CongestionIndications : Z := 0x205.
Definition ConcernedDestination : Z := 0x206.
Definition RoutingKey : Z := 0x207.
Definition RegistrationResult : Z := 0x208.
Definition DeregistrationResult : Z := 0x209.
Definition LocalRoutingKeyIdentifier : Z := 0x20a.
Definition DestinationPointCode : Z := 0x20b.
Definition ServiceIndicators : Z := 0x20c.
Definition OriginatingPointCodeList : Z := 0x20e.
Definition ProtocolData : Z := 0x210.
Definition RegistrationStatus : Z := 0x212.
Definition DeregistrationStatus : Z := 0x213.

Definition IsKnownM3UAParameterTag (tag : Z) : bool :=
  (tag <=? CorrelationID) || (NetworkAppearance <=? tag) && (tag <=? DeregistrationStatus).

Definition maxParamValueLength : Z := (2 ^ 16 - 1) - 4.
Definition maxNestedContainerDepth : nat := 64.

(** ** Values *)

Definition TrafficModeOverride : Z := 1.
Definition TrafficModeLoadshare : Z := 2.
Definition TrafficModeBroadcast : Z := 3.

Definition AsStateInactive : Z := 0x10002.
Definition AsStateActive : Z := 0x10003.
Definition AsStatePending : Z := 0x10004.
Definition InsufficientAspResources : Z := 0x20001.
Definition AlternateAspActive : Z := 0x20002.
Definition AspFailure : Z := 0x20003.

Definition InvalidVersionError : Z := 1.
Definition UnsupportedMessageErrorClass : Z := 3.
Definition UnsupportedMessageErrorType : Z := 4.
Definition ErrUnsupportedTrafficModeType : Z := 5.
Definition UnexpectedMessageError : Z := 6.
Definition ErrProtocolError : Z := 7.
Definition ErrInvalidStreamIdentifier : Z := 9.
Definition ErrRefusedManagementBlocking : Z := 13.
Definition ErrAspIdentifierRequired : Z := 14.
Definition ErrInvalidAspIdentifier : Z := 15.
Definition ErrInvalidParameterValue : Z := 17.
Definition ErrParameterFieldError : Z := 18.
Definition ErrUnexpectedParameter : Z := 19.
Definition ErrDestinationStatusUnknown : Z := 20.
Definition ErrInvalidNetworkAppearance : Z := 21.
Definition ErrMissingParameterCode : Z := 22.
Definition ErrInvalidRoutingContext : Z := 25.
Definition ErrNoConfiguredAsForAsp : Z := 26.

Definition SuccessfullyRegistered : Z := 0.
Definition RoutingKeyAlreadyRegistered : Z := 12.
Definition DeregASPActiveForRoutingContext : Z := 5.

(** ** Errors

    The sentinel an error of the package wraps (what [errors.Is] sees); the
    message text around it is not modelled. *)

Inductive error : Set :=
| ErrInvalidType
| ErrInvalidLength
| ErrInvalidValue
| ErrTooShortToMarshalBinary
| ErrTooShortToParse.

#[export] Instance error_eq_dec : EqDecision error.
Proof. solve_decision. Defined.

(** ** Param *)

Record Param : Set := mkParam { Tag : Z; Length : Z; Data : bytes }.

#[export] Instance Param_eq_dec : EqDecision Param.
Proof. solve_decision. Defined.

Definition Padding (p : Param) : Z :=
  let x := len (Data p) mod 4 in
  if x =? 0 then 0 else 4 - x.

Definition MarshalLen (p : Param) : Z := 4 + len (Data p) + Padding p.

Definition SetLength (p : Param) : Param :=
  if maxParamValueLength <? len (Data p)
  then mkParam (Tag p) 0 (Data p)
  else mkParam (Tag p) (u16 (4 + len (Data p))) (Data p).

(** [func (p *Param) Copy]: a deep copy; a slice is a value here, so the copy
    has the same contents. *)
Definition Copy (p : option Param) : option Param :=
  match p with
  | None => None
  | Some p => Some (mkParam (Tag p) (Length p) (Data p))
  end.

(** ** Length and value rules *)

Definition validateValueLength (tag valueLength : Z) : result error () :=
  let valid :=
    if (tag =? TrafficModeType) || (tag =? ErrorCode) || (tag =? Status) ||
       (tag =? AspIdentifier) || (tag =? CorrelationID) ||
       (tag =? NetworkAppearance) || (tag =? UserCause) ||
       (tag =? CongestionIndications) || (tag =? ConcernedDestination) ||
       (tag =? LocalRoutingKeyIdentifier) || (tag =? DestinationPointCode) ||
       (tag =? RegistrationStatus) || (tag =? DeregistrationStatus)
    then valueLength =? 4
    else if (tag =? RoutingContext) || (tag =? AffectedPointCode) ||
            (tag =? OriginatingPointCodeList)
    then (0 <? valueLength) && (valueLength mod 4 =? 0)
    else if tag =? ServiceIndicators then 0 <? valueLength
    else if tag =? ProtocolData then 12 <=? valueLength
    else true in
  ensure valid ErrInvalidLength.

Definition isDefinedErrorCode (errorCode : Z) : bool :=
  existsb (Z.eqb errorCode)
    [InvalidVersionError; UnsupportedMessageErrorClass; UnsupportedMessageErrorType;
     ErrUnsupportedTrafficModeType; UnexpectedMessageError; ErrProtocolError;
     ErrInvalidStreamIdentifier; ErrRefusedManagementBlocking;
     ErrAspIdentifierRequired; ErrInvalidAspIdentifier; ErrInvalidParameterValue;
     ErrParameterFieldError; ErrUnexpectedParameter; ErrDestinationStatusUnknown;
     ErrInvalidNetworkAppearance; ErrMissingParameterCode; ErrInvalidRoutingContext;
     ErrNoConfiguredAsForAsp].

Definition isDefinedStatus (status : Z) : bool :=
  existsb (Z.eqb status)
    [AsStateInactive; AsStateActive; AsStatePending; InsufficientAspResources;
     AlternateAspActive; AspFailure].

(** ** Decoding

    [validateValueAtDepth] and the decoders call each other: a container's
    value is a list of parameters, each validated one level deeper.  The
    decoders below take the validator as an argument; Nested.v ties the knot
    on fuel and shows that the nesting bound of the code makes the fuel
    enough. *)

Definition unmarshalBinaryAtDepth (validate : Z → bytes → nat → result error ())
    (b : bytes) (depth : nat) : result error Param :=
  let l := len b in
  if l <? 4 then Err ErrTooShortToParse else
  hd ← slice 0 2 b;
  tag ← Uint16 hd;
  hd ← slice 2 4 b;
  parameterLength ← Uint16 hd;
  if (l <? parameterLength) || (parameterLength <? 4) then Err ErrInvalidLength else
  data ← slice 4 parameterLength b;
  _ ← validateValueLength tag (len data);
  _ ← validate tag data depth;
  Ok (mkParam tag parameterLength data).

(** The loop of [parseMultiParamsAtDepth]; every round consumes at least the
    four header octets, so the length of [b] is fuel enough. *)
Fixpoint parseMultiParamsLoop (validate : Z → bytes → nat → result error ())
    (fuel : nat) (b : bytes) (depth : nat) (prms : list Param)
    : result error (list Param) :=
  if len b =? 0 then Ok prms else
  match fuel with
  | O => OutOfFuel
  | S fuel =>
      p ← unmarshalBinaryAtDepth validate b depth;
      let prms := prms ++ [p] in
      let parameterLength := Length p in
      if len b =? parameterLength then Ok prms else
      let paddedLength := parameterLength + Padding p in
      if len b <? paddedLength then Err ErrInvalidLength else
      b' ← slice_from paddedLength b;
      parseMultiParamsLoop validate fuel b' depth prms
  end.

Definition parseMultiParamsAtDepth (validate : Z → bytes → nat → result error ())
    (b : bytes) (depth : nat) : result error (list Param) :=
  parseMultiParamsLoop validate (length b) b depth [].

(** ** Containers *)

Record RoutingKeyGroup : Set := mkGroup {
  Group_DestinationPointCode : option Param;
  Group_ServiceIndicators : option Param;
  Group_OriginatingPointCodeList : option Param;
}.

Record RoutingKeyPayload : Set := mkRoutingKey {
  RK_LocalRoutingKeyIdentifier : option Param;
  RK_RoutingContext : option Param;
  RK_TrafficModeType : option Param;
  RK_NetworkAppearance : option Param;
  RK_Groups : list RoutingKeyGroup;
  RK_Others : list (option Param);
}.

Record RegistrationResultPayload : Set := mkRegResult {
  RR_LocalRoutingKeyIdentifier : option Param;
  RR_RegistrationStatus : option Param;
  RR_RoutingContext : option Param;
  RR_Others : list (option Param);
}.

Record DeregResultPayload : Set := mkDeregResult {
  DR_RoutingContext : option Param;
  DR_DeregistrationStatus : option Param;
  DR_Others : list (option Param);
}.

(** [if field != nil { return duplicate... }; field = p]. *)
Definition set_once (field : option Param) (p : Param) : result error (option Param) :=
  match field with
  | Some _ => Err ErrInvalidValue
  | None => Ok (Some p)
  end.

(** [&decoded.Groups[len(decoded.Groups)-1]], assigned through the pointer. *)
Fixpoint update_last (f : RoutingKeyGroup → result error RoutingKeyGroup)
    (l : list RoutingKeyGroup) : result error (list RoutingKeyGroup) :=
  match l with
  | [] => Err ErrInvalidValue
  | [g] => g' ← f g; Ok [g']
  | g :: l => l' ← update_last f l; Ok (g :: l')
  end.

Definition bytesContain (value : bytes) (target : Z) : bool :=
  existsb (λ octet, byte_to_Z octet =? target) value.

(** The body of the [for _, p := range ps] loop of
    [RoutingKeyPayload.unmarshalBinaryAtDepth].  A parameter that must follow
    a Destination Point Code is refused by [update_last] on no groups. *)
Definition routingKeyStep (d : RoutingKeyPayload) (p : Param)
    : result error RoutingKeyPayload :=
  let '(mkRoutingKey rk rc tm na groups others) := d in
  if Tag p =? LocalRoutingKeyIdentifier then
    rk ← set_once rk p; Ok (mkRoutingKey rk rc tm na groups others)
  else if Tag p =? RoutingContext then
    rc ← set_once rc p; Ok (mkRoutingKey rk rc tm na groups others)
  else if Tag p =? TrafficModeType then
    tm ← set_once tm p; Ok (mkRoutingKey rk rc tm na groups others)
  else if Tag p =? DestinationPointCode then
    Ok (mkRoutingKey rk rc tm na (groups ++ [mkGroup (Some p) None None]) others)
  else if Tag p =? NetworkAppearance then
    na ← set_once na p; Ok (mkRoutingKey rk rc tm na groups others)
  else if Tag p =? ServiceIndicators then
    groups ← update_last (λ '(mkGroup dpc si opcs),
      si ← set_once si p;
      if bytesContain (Data p) 0 then Err ErrInvalidValue else
      Ok (mkGroup dpc si opcs)) groups;
    Ok (mkRoutingKey rk rc tm na groups others)
  else if Tag p =? OriginatingPointCodeList then
    groups ← update_last (λ '(mkGroup dpc si opcs),
      opcs ← set_once opcs p; Ok (mkGroup dpc si opcs)) groups;
    Ok (mkRoutingKey rk rc tm na groups others)
  else if IsKnownM3UAParameterTag (Tag p) then Err ErrInvalidValue
  else Ok (mkRoutingKey rk rc tm na groups (others ++ [Some p])).

Definition parseRoutingKeyPayloadAtDepth (validate : Z → bytes → nat → result error ())
    (b : bytes) (depth : nat) : result error RoutingKeyPayload :=
  ps ← parseMultiParamsAtDepth validate b (depth + 1);
  decoded ← foldM routingKeyStep (mkRoutingKey None None None None [] []) ps;
  _ ← ensure (bool_decide (is_Some (RK_LocalRoutingKeyIdentifier decoded))) ErrInvalidValue;
  _ ← ensure (negb (len (RK_Groups decoded) =? 0)) ErrInvalidValue;
  _ ← match RK_RoutingContext decoded with
      | Some rc => ensure (len (Data rc) =? 4) ErrInvalidLength
      | None => Ok tt
      end;
  Ok decoded.

(** ** Accessors of single values *)

Definition decodeUint32ValData (p : Param) : result error Z :=
  if len (Data p) =? 4 then Uint32 (Data p) else Ok 0.

(** The loop reads [p.Data[i*4:(i+1)*4]] for every [i < l/4]. *)
Fixpoint decode_words (n : nat) (i : Z) (b : bytes) : result error (list Z) :=
  match n with
  | O => Ok []
  | S n =>
      w ← slice (i * 4) ((i + 1) * 4) b;
      u ← Uint32 w;
      us ← decode_words n (i + 1) b;
      Ok (u :: us)
  end.

Definition decodeMultiUint32ValData (p : Param) : result error (list Z) :=
  let l := len (Data p) in
  if l mod 4 =? 0 then decode_words (Z.to_nat (l / 4)) 0 (Data p) else Ok [].

(** An accessor [func (p *Param) X() uint32]: zero for another tag. *)
Definition uint32_accessor (tag : Z) (p : Param) : result error Z :=
  if Tag p =? tag then decodeUint32ValData p else Ok 0.

Definition get_RegistrationStatus := uint32_accessor RegistrationStatus.
Definition get_DeregistrationStatus := uint32_accessor DeregistrationStatus.
Definition get_TrafficModeType := uint32_accessor TrafficModeType.
Definition get_ErrorCode := uint32_accessor ErrorCode.
Definition get_Status := uint32_accessor Status.
Definition get_AspIdentifier := uint32_accessor AspIdentifier.
Definition get_NetworkAppearance := uint32_accessor NetworkAppearance.
Definition get_UserCause := uint32_accessor UserCause.
Definition get_CorrelationID := uint32_accessor CorrelationID.

Definition get_RoutingContexts (p : option Param) : result error (list Z) :=
  match p with
  | None => Ok []
  | Some p => if Tag p =? RoutingContext then decodeMultiUint32ValData p else Ok []
  end.

Definition get_RoutingContext (p : option Param) : result error Z :=
  rcs ← get_RoutingContexts p;
  Ok (default 0 (head rcs)).

(** ** Registration and Deregistration Result *)

Definition registrationResultStep (d : RegistrationResultPayload) (p : Param)
    : result error RegistrationResultPayload :=
  let '(mkRegResult rk st rc others) := d in
  if Tag p =? LocalRoutingKeyIdentifier then
    rk ← set_once rk p; Ok (mkRegResult rk st rc others)
  else if Tag p =? RegistrationStatus then
    st ← set_once st p; Ok (mkRegResult rk st rc others)
  else if Tag p =? RoutingContext then
    rc ← set_once rc p; Ok (mkRegResult rk st rc others)
  else if IsKnownM3UAParameterTag (Tag p) then Err ErrInvalidValue
  else Ok (mkRegResult rk st rc (others ++ [Some p])).

Definition parseRegistrationResultPayloadAtDepth
    (validate : Z → bytes → nat → result error ())
    (b : bytes) (depth : nat) : result error RegistrationResultPayload :=
  ps ← parseMultiParamsAtDepth validate b (depth + 1);
  decoded ← foldM registrationResultStep (mkRegResult None None None []) ps;
  match RR_LocalRoutingKeyIdentifier decoded, RR_RegistrationStatus decoded,
        RR_RoutingContext decoded with
  | Some _, Some st, Some rc =>
      _ ← ensure (len (Data rc) =? 4) ErrInvalidLength;
      status ← get_RegistrationStatus st;
      routingContext ← get_RoutingContext (Some rc);
      let registered :=
        (status =? SuccessfullyRegistered) || (status =? RoutingKeyAlreadyRegistered) in
      _ ← ensure (negb (registered && (routingContext =? 0))) ErrInvalidValue;
      _ ← ensure (negb (negb registered && negb (routingContext =? 0))) ErrInvalidValue;
      Ok decoded
  | _, _, _ => Err ErrInvalidValue
  end.

Definition deregResultStep (d : DeregResultPayload) (p : Param)
    : result error DeregResultPayload :=
  let '(mkDeregResult rc st others) := d in
  if Tag p =? RoutingContext then
    rc ← set_once rc p; Ok (mkDeregResult rc st others)
  else if Tag p =? DeregistrationStatus then
    st ← set_once st p; Ok (mkDeregResult rc st others)
  else if IsKnownM3UAParameterTag (Tag p) then Err ErrInvalidValue
  else Ok (mkDeregResult rc st (others ++ [Some p])).

Definition parseDeregResultPayloadAtDepth (validate : Z → bytes → nat → result error ())
    (b : bytes) (depth : nat) : result error DeregResultPayload :=
  ps ← parseMultiParamsAtDepth validate b (depth + 1);
  decoded ← foldM deregResultStep (mkDeregResult None None []) ps;
  match DR_RoutingContext decoded, DR_DeregistrationStatus decoded with
  | Some rc, Some _ =>
      _ ← ensure (len (Data rc) =? 4) ErrInvalidLength;
      Ok decoded
  | _, _ => Err ErrInvalidValue
  end.

(** ** Value validation *)

(** The container case of [validateValueAtDepth], on a decoder for the
    container's payload. *)
Definition validate_container {A} (parse : bytes → nat → result error A)
    (value : bytes) (depth : nat) : result error () :=
  if bool_decide (maxNestedContainerDepth < depth)%nat then Err ErrInvalidValue else
  _ ← parse value depth; Ok tt.

Fixpoint validateValueAtDepth (fuel : nat) (tag : Z) (value : bytes) (depth : nat)
    : result error () :=
  if tag =? InfoString then
    if 255 <? len value then Err ErrInvalidValue
    else ensure (utf8_Valid value) ErrInvalidValue
  else if tag =? TrafficModeType then
    trafficMode ← Uint32 value;
    ensure (negb ((trafficMode <? TrafficModeOverride) ||
                  (TrafficModeBroadcast <? trafficMode))) ErrInvalidValue
  else if tag =? ErrorCode then
    errorCode ← Uint32 value; ensure (isDefinedErrorCode errorCode) ErrInvalidValue
  else if tag =? Status then
    status ← Uint32 value; ensure (isDefinedStatus status) ErrInvalidValue
  else if tag =? CongestionIndications then
    congestionLevel ← index 3 value;
    ensure (negb (3 <? congestionLevel)) ErrInvalidValue
  else if tag =? RegistrationStatus then
    status ← Uint32 value;
    ensure (negb (RoutingKeyAlreadyRegistered <? status)) ErrInvalidValue
  else if tag =? DeregistrationStatus then
    status ← Uint32 value;
    ensure (negb (DeregASPActiveForRoutingContext <? status)) ErrInvalidValue
  else if tag =? DestinationPointCode then
    mask ← index 0 value; ensure (mask =? 0) ErrInvalidValue
  else if (tag =? RoutingKey) || (tag =? RegistrationResult) ||
          (tag =? DeregistrationResult) then
    match fuel with
    | O => OutOfFuel
    | S fuel =>
        let validate := validateValueAtDepth fuel in
        if tag =? RoutingKey then
          validate_container (parseRoutingKeyPayloadAtDepth validate) value depth
        else if tag =? RegistrationResult then
          validate_container (parseRegistrationResultPayloadAtDepth validate) value depth
        else
          validate_container (parseDeregResultPayloadAtDepth validate) value depth
    end
  else Ok tt.

(** Depth 65 is refused before it recurses, so 66 levels of fuel are enough. *)
Definition validation_fuel : nat := maxNestedContainerDepth + 2.
Definition validateValue : Z → bytes → nat → result error () :=
  validateValueAtDepth validation_fuel.

Definition Parse (b : bytes) : result error Param :=
  unmarshalBinaryAtDepth validateValue b 0.
Definition ParseMultiParams (b : bytes) : result error (list Param) :=
  parseMultiParamsAtDepth validateValue b 0.
Definition ParseRoutingKeyPayload (b : bytes) : result error RoutingKeyPayload :=
  parseRoutingKeyPayloadAtDepth validateValue b 0.
Definition ParseRegistrationResultPayload (b : bytes)
    : result error RegistrationResultPayload :=
  parseRegistrationResultPayloadAtDepth validateValue b 0.
Definition ParseDeregResultPayload (b : bytes) : result error DeregResultPayload :=
  parseDeregResultPayloadAtDepth validateValue b 0.

(** ** Encoding *)

Definition currentLengths (p : Param) : result error (Z * Z) :=
  if maxParamValueLength <? len (Data p) then Err ErrInvalidLength else
  _ ← validateValueLength (Tag p) (len (Data p));
  _ ← validateValue (Tag p) (Data p) 0;
  Ok (u16 (4 + len (Data p)), MarshalLen p).

(** Returns the parameter, whose [Length] the code sets, and the buffer. *)
Definition MarshalTo (p : Param) (b : bytes) : result error (Param * bytes) :=
  '(parameterLength, marshalLength) ← currentLengths p;
  if len b <? marshalLength then Err ErrTooShortToMarshalBinary else
  let dataEnd := 4 + len (Data p) in
  let wire := PutUint16 (Tag p) ++ PutUint16 parameterLength ++ Data p ++
              make_bytes (marshalLength - dataEnd) in
  Ok (mkParam (Tag p) parameterLength (Data p), overwrite wire b).

Definition MarshalBinary (p : Param) : result error (Param * bytes) :=
  '(_, marshalLength) ← currentLengths p;
  MarshalTo p (make_bytes marshalLength).

Fixpoint MarshalMultiParams (params : list Param) : result error (list Param * bytes) :=
  match params with
  | [] => Ok ([], [])
  | param :: params =>
      '(param, c) ← MarshalBinary param;
      '(params, b) ← MarshalMultiParams params;
      Ok (param :: params, c ++ b)
  end.

Definition marshalUncheckedParam (p : Param) : bytes :=
  if maxParamValueLength <? len (Data p) then PutUint16 (Tag p) ++ make_bytes 2 else
  let parameterLength := 4 + len (Data p) in
  let marshalLength := parameterLength + (4 - parameterLength mod 4) mod 4 in
  PutUint16 (Tag p) ++ PutUint16 (u16 parameterLength) ++ Data p ++
  make_bytes (marshalLength - parameterLength).

(** ** Constructors *)

Definition newUint32ValParam (t u : Z) : Param := mkParam t 8 (PutUint32 u).
Definition newUint8ValParam (t u : Z) : Param :=
  mkParam t 8 [Byte.x00; Byte.x00; Byte.x00; byte_of_Z u].
Definition newMultiUint32ValParam (t : Z) (ux : list Z) : Param :=
  SetLength (mkParam t 0 (ux ≫= PutUint32)).
Definition newMultiUint8ValParam (t : Z) (ux : list Z) : Param :=
  SetLength (mkParam t 0 (byte_of_Z <$> ux)).
Definition newVariableLenValParam (t : Z) (b : bytes) : Param :=
  SetLength (mkParam t 0 b).
Definition NewParam (tag : Z) (data : bytes) : Param :=
  SetLength (mkParam (u16 tag) 0 data).

(** The loop of [newNestedParam]; [data] is [p.Data] so far. *)
Fixpoint nestedData (data : bytes) (ps : list (option Param)) : result error bytes :=
  match ps with
  | [] => Ok data
  | None :: ps => nestedData data ps
  | Some pr :: ps =>
      match MarshalBinary pr with
      | Ok (_, x) => nestedData (data ++ x) ps
      | Err _ => Ok (data ++ marshalUncheckedParam pr)
      | Panic => Panic
      | OutOfFuel => OutOfFuel
      end
  end.

Definition newNestedParam (t : Z) (ps : list (option Param)) : result error Param :=
  data ← nestedData [] ps;
  Ok (SetLength (mkParam t 0 data)).

Definition invalidNestedParam (tag : Z) : Param := mkParam tag 0 [].

Definition routingKeyGroupParams (nwApr : option Param) (groupIndex : nat)
    (group : RoutingKeyGroup) : list (option Param) :=
  Group_DestinationPointCode group ::
  (if bool_decide (groupIndex = 0%nat) then [nwApr] else []) ++
  [Group_ServiceIndicators group; Group_OriginatingPointCodeList group].

Definition routingKeyParams (rk : RoutingKeyPayload) : list (option Param) :=
  [RK_LocalRoutingKeyIdentifier rk; RK_RoutingContext rk; RK_TrafficModeType rk] ++
  concat (imap (routingKeyGroupParams (RK_NetworkAppearance rk)) (RK_Groups rk)) ++
  RK_Others rk.

Definition NewRoutingKey (rk : option RoutingKeyPayload) : result error Param :=
  match rk with
  | None => Ok (invalidNestedParam RoutingKey)
  | Some rk =>
      if len (RK_Groups rk) =? 0 then Ok (invalidNestedParam RoutingKey) else
      if existsb (λ g, negb (bool_decide (is_Some (Group_DestinationPointCode g))))
           (RK_Groups rk)
      then Ok (invalidNestedParam RoutingKey)
      else newNestedParam RoutingKey (routingKeyParams rk)
  end.

Definition NewRegistrationResult (rr : option RegistrationResultPayload)
    : result error Param :=
  match rr with
  | None => Ok (invalidNestedParam RegistrationResult)
  | Some rr =>
      newNestedParam RegistrationResult
        ([RR_LocalRoutingKeyIdentifier rr; RR_RegistrationStatus rr;
          RR_RoutingContext rr] ++ RR_Others rr)
  end.

Definition NewDeregistrationResult (dr : option DeregResultPayload) : result error Param :=
  match dr with
  | None => Ok (invalidNestedParam DeregistrationResult)
  | Some dr =>
      newNestedParam DeregistrationResult
        ([DR_RoutingContext dr; DR_DeregistrationStatus dr] ++ DR_Others dr)
  end.

Definition get_RoutingKey (p : Param) : result error RoutingKeyPayload :=
  if Tag p =? RoutingKey then ParseRoutingKeyPayload (Data p) else Err ErrInvalidType.
Definition get_RegistrationResult (p : Param) : result error RegistrationResultPayload :=
  if Tag p =? RegistrationResult then ParseRegistrationResultPayload (Data p)
  else Err ErrInvalidType.
Definition get_DeregistrationResult (p : Param) : result error DeregResultPayload :=
  if Tag p =? DeregistrationResult then ParseDeregResultPayload (Data p)
  else Err ErrInvalidType.
