(* ===== verification/ParamsFacts.v ===== *)
(** * Properties of the parameter codec

    Safety of decoding on arbitrary octets, the fuel bound, what the decoder
    accepts, and the round trips of single parameters and parameter lists. *)

From S2P Require Import Prelude Params.

(** ** What a decoded or encodable parameter satisfies *)

Definition isContainer (tag : Z) : bool :=
  (tag =? RoutingKey) || (tag =? RegistrationResult) || (tag =? DeregistrationResult).

(** A parameter the encoder accepts; [is_u16 (Tag p)] is its Go type. *)
Record encodable (p : Param) : Prop := {
  enc_tag : is_u16 (Tag p);
  enc_len : len (Data p) ≤ maxParamValueLength;
  enc_vlen : validateValueLength (Tag p) (len (Data p)) = Ok tt;
  enc_value : validateValue (Tag p) (Data p) 0 = Ok tt;
}.

(** The octets of a parameter, padding included. *)
Definition wire (p : Param) : bytes :=
  PutUint16 (Tag p) ++ PutUint16 (4 + len (Data p)) ++ Data p ++ make_bytes (Padding p).

#[global] Arguments wire : simpl never.

Lemma Padding_range p : 0 ≤ Padding p < 4.
Proof. unfold Padding. pose proof (Z.mod_pos_bound (len (Data p)) 4). case_match; to_prop; lia. Qed.

Lemma Padding_SetLength p : Padding (SetLength p) = Padding p.
Proof. unfold SetLength. by case_match. Qed.
Lemma Tag_SetLength p : Tag (SetLength p) = Tag p.
Proof. unfold SetLength. by case_match. Qed.
Lemma Data_SetLength p : Data (SetLength p) = Data p.
Proof. unfold SetLength. by case_match. Qed.
Lemma MarshalLen_SetLength p : MarshalLen (SetLength p) = MarshalLen p.
Proof. unfold MarshalLen. by rewrite Padding_SetLength, Data_SetLength. Qed.
Lemma SetLength_idemp p : SetLength (SetLength p) = SetLength p.
Proof.
  unfold SetLength at 1. rewrite Data_SetLength, Tag_SetLength.
  unfold SetLength. by case_match.
Qed.

Lemma SetLength_encodable p :
  len (Data p) ≤ maxParamValueLength →
  SetLength p = mkParam (Tag p) (4 + len (Data p)) (Data p).
Proof.
  intros H. unfold SetLength. rewrite (proj2 (Z.ltb_ge _ _)) by lia.
  f_equal. apply u16_id. unfold is_u16, maxParamValueLength in *.
  pose proof (len_nonneg (Data p)). lia.
Qed.

Lemma Length_SetLength p :
  len (Data p) ≤ maxParamValueLength → Length (SetLength p) = 4 + len (Data p).
Proof. intros H. by rewrite SetLength_encodable. Qed.

Lemma encodable_SetLength p : encodable (SetLength p) ↔ encodable p.
Proof.
  split; intros [H1 H2 H3 H4]; constructor;
    rewrite ?Tag_SetLength, ?Data_SetLength in *; done.
Qed.

Lemma len_wire p : len (wire p) = MarshalLen p.
Proof.
  unfold wire, MarshalLen. pose proof (Padding_range p).
  rewrite !len_app, !len_PutUint16, len_make_bytes by lia. lia.
Qed.
Lemma wire_SetLength p : wire (SetLength p) = wire p.
Proof. unfold wire. by rewrite Tag_SetLength, Data_SetLength, Padding_SetLength. Qed.
#[export] Hint Rewrite @len_wire : len.

(** ** The shape of one decoded parameter *)

Section decode.
Context (validate : Z → bytes → nat → result error ()) (depth : nat).

(** The value checks decoding makes. *)
Definition accepted (p : Param) : Prop :=
  is_u16 (Tag p) ∧ is_u16 (Length p) ∧ Length p = 4 + len (Data p) ∧
  validateValueLength (Tag p) (len (Data p)) = Ok tt ∧
  validate (Tag p) (Data p) depth = Ok tt.

(** What [unmarshalBinaryAtDepth] does once the header octets are split off. *)
Definition unmarshal_body (tag parameterLength : Z) (r : bytes) : result error Param :=
  if (4 + len r <? parameterLength) || (parameterLength <? 4) then Err ErrInvalidLength else
  let data := take (Z.to_nat (parameterLength - 4)) r in
  _ ← validateValueLength tag (len data);
  _ ← validate tag data depth;
  Ok (mkParam tag parameterLength data).

Lemma unmarshal_split tag pl r :
  is_u16 tag → is_u16 pl →
  unmarshalBinaryAtDepth validate (PutUint16 tag ++ PutUint16 pl ++ r) depth =
  unmarshal_body tag pl r.
Proof.
  intros Ht Hp. unfold unmarshalBinaryAtDepth, unmarshal_body.
  pose proof (len_nonneg r).
  rewrite !len_app, !len_PutUint16.
  rewrite (proj2 (Z.ltb_ge _ _)) by lia.
  rewrite (slice_prefix (PutUint16 tag)). cbn [mbind result_bind].
  rewrite (Uint16_Put tag Ht).
  cbn [mbind result_bind].
  rewrite (slice_app (PutUint16 tag) (PutUint16 pl) r). cbn [mbind result_bind].
  rewrite (Uint16_Put pl Hp).
  cbn [mbind result_bind].
  replace (2 + (2 + len r)) with (4 + len r) by lia.
  destruct (_ || _) eqn:Hc; [done|]. to_prop.
  unfold slice. rewrite !len_app, !len_PutUint16.
  rewrite !(proj2 (Z.leb_le _ _)) by lia. done.
Qed.

Lemma bytes_split4 (b : bytes) :
  4 ≤ len b → ∃ tag pl r, is_u16 tag ∧ is_u16 pl ∧
    b = PutUint16 tag ++ PutUint16 pl ++ r.
Proof.
  destruct b as [|b0 [|b1 [|b2 [|b3 r]]]]; rewrite ?len_cons, ?len_nil; try lia.
  intros _.
  destruct (@Uint16 error [b0; b1]) as [tag| | |] eqn:Ht; try done.
  destruct (@Uint16 error [b2; b3]) as [pl| | |] eqn:Hp; try done.
  exists tag, pl, r. split_and!; [by eapply Uint16_range..|].
  by rewrite (PutUint16_Uint16 _ _ _ Ht), (PutUint16_Uint16 _ _ _ Hp).
Qed.

Lemma unmarshal_Ok b p :
  unmarshalBinaryAtDepth validate b depth = Ok p ↔
  accepted p ∧ ∃ r, b = PutUint16 (Tag p) ++ PutUint16 (Length p) ++ Data p ++ r.
Proof.
  split.
  - intros H. assert (Hl : 4 ≤ len b).
    { unfold unmarshalBinaryAtDepth in H. destruct (len b <? 4) eqn:?; [done|].
      to_prop; lia. }
    destruct (bytes_split4 b Hl) as (tag & pl & r & Ht & Hp & ->).
    rewrite unmarshal_split in H by done. unfold unmarshal_body in H.
    inv_ok H. to_prop. destruct a, a0. cbn.
    assert (len (take (Z.to_nat (pl - 4)) r) = pl - 4) as Hlt.
    { unfold len in *. rewrite length_take. lia. }
    split; [split_and!; cbn; try done; lia|].
    exists (drop (Z.to_nat (pl - 4)) r). by rewrite take_drop.
  - intros ((Ht & Hp & HL & Hv & Hval) & r & ->).
    rewrite unmarshal_split by done. unfold unmarshal_body.
    pose proof (len_nonneg r); pose proof (len_nonneg (Data p)).
    rewrite len_app.
    rewrite (proj2 (orb_false_iff _ _)) by (split; apply Z.ltb_ge; lia).
    replace (take _ _) with (Data p).
    + rewrite Hv. cbn. rewrite Hval. by destruct p.
    + replace (Z.to_nat (Length p - 4)) with (length (Data p)); [|unfold len in *; lia].
      by rewrite take_app_length.
Qed.

(** [validate] returns on every value whose length it may rely on. *)
Definition validator_safe : Prop :=
  ∀ tag v, validateValueLength tag (len v) = Ok tt → safe (validate tag v depth).

Lemma safe_unmarshal b :
  validator_safe → safe (unmarshalBinaryAtDepth validate b depth).
Proof.
  intros Hs. destruct (Z.lt_ge_cases (len b) 4) as [Hl|Hl].
  { unfold unmarshalBinaryAtDepth. by rewrite (proj2 (Z.ltb_lt _ _)) by lia. }
  destruct (bytes_split4 b Hl) as (tag & pl & r & Ht & Hp & ->).
  rewrite unmarshal_split by done. unfold unmarshal_body. case_match; [done|].
  apply safe_bind; [apply safe_ensure|]. intros [] Hv.
  apply safe_bind; [by apply Hs|]. done.
Qed.

(** *** Parameter lists *)

Lemma loop_acc fuel b prms :
  parseMultiParamsLoop validate fuel b depth prms =
  (λ l, prms ++ l) <$> parseMultiParamsLoop validate fuel b depth [].
Proof.
  revert b prms; induction fuel as [|fuel IH]; intros b prms; cbn;
    (case_match; [cbn; by rewrite app_nil_r|]); [done|].
  destruct (unmarshalBinaryAtDepth validate b depth) as [p| | |]; cbn; try done.
  case_match; [done|]. case_match; [done|].
  destruct (slice_from _ b) as [b'| | |]; cbn; try done.
  rewrite (IH b' (prms ++ [p])), (IH b' [p]).
  destruct (parseMultiParamsLoop validate fuel b' depth []); cbn; try done.
  by rewrite <-app_assoc.
Qed.

Lemma parseMulti_nil fuel : parseMultiParamsLoop validate fuel [] depth [] = Ok [].
Proof. by destruct fuel. Qed.

Lemma safe_loop fuel b prms :
  validator_safe → (length b ≤ fuel)%nat →
  safe (parseMultiParamsLoop validate fuel b depth prms).
Proof.
  intros Hs. revert b prms; induction fuel as [|fuel IH]; intros b prms Hf.
  { by destruct b; cbn in Hf; [|lia]. }
  cbn [parseMultiParamsLoop]. case_match; [done|].
  apply safe_bind; [by apply safe_unmarshal|]. intros p Hp.
  case_match; [done|]. case_match; [done|]. to_prop.
  apply unmarshal_Ok in Hp as [(_ & _ & HL & _ & _) _].
  pose proof (Padding_range p); pose proof (len_nonneg (Data p)).
  apply safe_bind; [unfold slice_from; apply safe_slice; lia|].
  intros b' Hb'. apply IH. unfold slice_from in Hb'.
  apply slice_Ok in Hb' as (_ & _ & Hlen & _). unfold len in *. lia.
Qed.

Lemma safe_parseMulti b :
  validator_safe → safe (parseMultiParamsAtDepth validate b depth).
Proof. intros Hs. by apply safe_loop. Qed.

(** Every parameter of a decoded list passed the checks. *)
Lemma loop_accepted fuel b ps :
  parseMultiParamsLoop validate fuel b depth [] = Ok ps → Forall accepted ps.
Proof.
  revert b ps; induction fuel as [|fuel IH]; intros b ps H; cbn in H.
  { case_match; [injection H as <-; constructor|done]. }
  case_match; [injection H as <-; constructor|].
  apply bind_Ok in H as (p & Hp & H). apply unmarshal_Ok in Hp as [Hp _].
  case_match; [injection H as <-; by constructor|].
  case_match; [done|].
  apply bind_Ok in H as (b' & Hb' & H). rewrite loop_acc in H.
  destruct (parseMultiParamsLoop _ _ _ _ _) as [l| | |] eqn:Hl; try done.
  injection H as <-. constructor; [done|]. by eapply IH.
Qed.

Lemma parseMulti_accepted b ps :
  parseMultiParamsAtDepth validate b depth = Ok ps → Forall accepted ps.
Proof. apply loop_accepted. Qed.

(** Encoded again, a decoded list is at most the padding of its last
    parameter longer. *)
Lemma loop_size fuel b ps :
  parseMultiParamsLoop validate fuel b depth [] = Ok ps →
  len (concat (wire <$> ps)) ≤ len b + 3.
Proof.
  revert b ps; induction fuel as [|fuel IH]; intros b ps H; cbn in H;
    pose proof (len_nonneg b).
  { case_match; [injection H as <-; cbn; rewrite len_nil; lia|done]. }
  case_match; [injection H as <-; cbn; rewrite len_nil; lia|].
  apply bind_Ok in H as (p & Hp & H). apply unmarshal_Ok in Hp as [(_ & _ & HL & _) _].
  pose proof (len_wire p) as Hw. unfold MarshalLen in Hw. pose proof (Padding_range p).
  case_match; to_prop.
  { injection H as <-. cbn. rewrite app_nil_r. lia. }
  case_match; [done|]. to_prop. pose proof (len_nonneg (Data p)).
  apply bind_Ok in H as (b' & Hb' & H). rewrite loop_acc in H.
  destruct (parseMultiParamsLoop _ _ _ _ _) as [l| | |] eqn:Hl; try done.
  injection H as <-. apply IH in Hl. cbn [app fmap list_fmap concat]. rewrite len_app.
  unfold slice_from in Hb'. apply slice_Ok in Hb' as (_ & _ & Hlen & _). lia.
Qed.

Lemma parseMulti_size b ps :
  parseMultiParamsAtDepth validate b depth = Ok ps →
  len (concat (wire <$> ps)) ≤ len b + 3.
Proof. apply loop_size. Qed.

(** The encoding of a list decodes to the list, with the lengths set. *)
Lemma loop_wire fuel ps :
  Forall (λ p, is_u16 (Tag p) ∧ len (Data p) ≤ maxParamValueLength ∧
               accepted (SetLength p)) ps →
  (length (concat (wire <$> ps)) ≤ fuel)%nat →
  parseMultiParamsLoop validate fuel (concat (wire <$> ps)) depth [] =
  Ok (SetLength <$> ps).
Proof.
  revert ps; induction fuel as [|fuel IH]; intros ps Hps Hf.
  { destruct ps as [|p ps]; [done|]. cbn in Hf. rewrite length_app in Hf.
    pose proof (len_wire p) as Hw. unfold MarshalLen, len in Hw.
    pose proof (Padding_range p). lia. }
  destruct Hps as [|p ps (Ht & Hl & Ha) Hps]; [done|].
  cbn [fmap list_fmap concat] in *. cbn [parseMultiParamsLoop].
  set (rest := concat (wire <$> ps)) in *.
  pose proof (Padding_range p); pose proof (len_nonneg (Data p));
    pose proof (len_nonneg rest).
  pose proof (len_wire p) as Hw. unfold MarshalLen in Hw.
  rewrite (proj2 (Z.eqb_neq _ _)) by (rewrite len_app; lia).
  assert (unmarshalBinaryAtDepth validate (wire p ++ rest) depth = Ok (SetLength p)) as ->.
  { apply unmarshal_Ok. split; [done|].
    exists (make_bytes (Padding p) ++ rest).
    unfold wire. rewrite SetLength_encodable by done. cbn [Tag Length Data].
    by rewrite <-!app_assoc. }
  cbn [mbind result_bind app].
  rewrite Padding_SetLength, !Length_SetLength by done.
  case_match eqn:Heq; to_prop.
  { rewrite len_app, Hw in Heq.
    assert (len rest = 0) as Hr by lia. apply len_0_nil in Hr.
    destruct ps as [|q ps]; [done|].
    apply (f_equal len) in Hr. unfold rest in Hr. cbn [fmap list_fmap concat] in Hr.
    rewrite len_app, len_wire in Hr. unfold MarshalLen in Hr.
    pose proof (Padding_range q); pose proof (len_nonneg (Data q)).
    pose proof (len_nonneg (concat (wire <$> ps))). rewrite len_nil in Hr. lia. }
  rewrite (proj2 (Z.ltb_ge _ _)) by (rewrite len_app; lia).
  replace (4 + len (Data p) + Padding p) with (len (wire p)) by lia.
  rewrite slice_from_app. cbn [mbind result_bind].
  rewrite loop_acc. unfold rest. rewrite IH; [done|done|].
  rewrite length_app in Hf. subst rest. unfold len in *. lia.
Qed.

Lemma parseMulti_wire ps :
  Forall (λ p, is_u16 (Tag p) ∧ len (Data p) ≤ maxParamValueLength ∧
               accepted (SetLength p)) ps →
  parseMultiParamsAtDepth validate (concat (wire <$> ps)) depth = Ok (SetLength <$> ps).
Proof. intros H. by apply loop_wire. Qed.
End decode.

(** ** The validator, with its fuel *)

Lemma value_length_4 tag n :
  tag ∈ [TrafficModeType; ErrorCode; Status; CongestionIndications;
         RegistrationStatus; DeregistrationStatus; DestinationPointCode] →
  validateValueLength tag n = Ok tt → n = 4.
Proof.
  intros Ht H.
  repeat (apply elem_of_cons in Ht as [->|Ht];
          [cbn in H; by apply ensure_Ok, Z.eqb_eq in H|]).
  by apply elem_of_nil in Ht.
Qed.

Lemma validate_scalar f f' tag v d d' :
  isContainer tag = false →
  validateValueAtDepth f tag v d = validateValueAtDepth f' tag v d'.
Proof.
  unfold isContainer. intros H. destruct f, f'; cbn [validateValueAtDepth];
    rewrite H; done.
Qed.

(** ** Accessors *)

Lemma safe_decode_words n i b :
  0 ≤ i → (i + Z.of_nat n) * 4 ≤ len b → safe (decode_words n i b).
Proof.
  revert i; induction n as [|n IH]; intros i Hi Hl; [done|]. cbn [decode_words].
  apply safe_bind; [apply safe_slice; lia|]. intros w Hw.
  apply slice_Ok in Hw as (_ & _ & Hw & _).
  apply safe_bind; [apply safe_Uint32; lia|]. intros u _.
  apply safe_bind; [apply IH; lia|done].
Qed.

Lemma safe_decodeMultiUint32ValData p : safe (decodeMultiUint32ValData p).
Proof.
  unfold decodeMultiUint32ValData. case_match; [|done]. to_prop.
  apply safe_decode_words; [lia|].
  pose proof (Z.div_mod (len (Data p)) 4). pose proof (len_nonneg (Data p)). lia.
Qed.

Lemma safe_get_RoutingContexts p : safe (get_RoutingContexts p).
Proof.
  destruct p as [p|]; [|done]. cbn. case_match; [|done].
  apply safe_decodeMultiUint32ValData.
Qed.
Lemma safe_get_RoutingContext p : safe (get_RoutingContext p).
Proof. apply safe_bind; [apply safe_get_RoutingContexts|done]. Qed.

Lemma safe_uint32_accessor t p : safe (uint32_accessor t p).
Proof.
  unfold uint32_accessor, decodeUint32ValData. repeat case_match; try done.
  to_prop. apply safe_Uint32; lia.
Qed.
#[export] Hint Resolve safe_get_RoutingContext safe_uint32_accessor : safety.
#[export] Hint Extern 1 (safe (get_RegistrationStatus _)) =>
  apply safe_uint32_accessor : safety.

Section containers.
Context (validate : Z → bytes → nat → result error ()) (d : nat).

Lemma safe_set_once o p : safe (set_once o p).
Proof. by destruct o. Qed.
Lemma safe_update_last f l : (∀ g, safe (f g)) → safe (update_last f l).
Proof.
  intros Hf. induction l as [|g [|g' l] IH]; [done|..]; cbn.
  - by apply safe_bind.
  - by apply safe_bind.
Qed.

Ltac step_safe :=
  repeat match goal with
  | |- safe (if ?c then _ else _) => destruct c
  | |- safe (_ ≫= _) => apply safe_bind; [|intros ? _]
  | |- safe (set_once _ _) => apply safe_set_once
  | |- safe (update_last _ _) => apply safe_update_last; intros []
  | |- safe (Ok _) => exact I
  | |- safe (Err _) => exact I
  end.

Lemma safe_routingKeyStep s p : safe (routingKeyStep s p).
Proof. destruct s; unfold routingKeyStep; step_safe. Qed.
Lemma safe_registrationResultStep s p : safe (registrationResultStep s p).
Proof. destruct s; unfold registrationResultStep; step_safe. Qed.
Lemma safe_deregResultStep s p : safe (deregResultStep s p).
Proof. destruct s; unfold deregResultStep; step_safe. Qed.

Hypothesis Hsafe : validator_safe validate (d + 1).

Lemma safe_parseRoutingKey b : safe (parseRoutingKeyPayloadAtDepth validate b d).
Proof.
  unfold parseRoutingKeyPayloadAtDepth.
  apply safe_bind; [by apply safe_parseMulti|intros ps _].
  apply safe_bind; [apply safe_foldM; intros; apply safe_routingKeyStep|intros r _].
  repeat (apply safe_bind; [|intros ? _]); try case_match; auto with safety.
Qed.

Lemma safe_parseRegistration b :
  safe (parseRegistrationResultPayloadAtDepth validate b d).
Proof.
  unfold parseRegistrationResultPayloadAtDepth.
  apply safe_bind; [by apply safe_parseMulti|intros ps _].
  apply safe_bind; [apply safe_foldM; intros; apply safe_registrationResultStep|intros r _].
  do 3 (case_match; [|done]).
  repeat (apply safe_bind; [solve [auto with safety]|intros ? _]). done.
Qed.

Lemma safe_parseDereg b : safe (parseDeregResultPayloadAtDepth validate b d).
Proof.
  unfold parseDeregResultPayloadAtDepth.
  apply safe_bind; [by apply safe_parseMulti|intros ps _].
  apply safe_bind; [apply safe_foldM; intros; apply safe_deregResultStep|intros r _].
  repeat case_match; try done. by apply safe_bind; auto with safety.
Qed.
End containers.

#[local] Hint Resolve safe_ensure : core.

Lemma safe_validate_container {A} (parse : bytes → nat → result error A) v d :
  ((d ≤ maxNestedContainerDepth)%nat → safe (parse v d)) →
  safe (validate_container parse v d).
Proof.
  intros H. unfold validate_container. case_bool_decide; [done|].
  apply safe_bind; [apply H; lia|done].
Qed.

Lemma safe_validate_scalar f tag v d :
  isContainer tag = false → validateValueLength tag (len v) = Ok tt →
  safe (validateValueAtDepth f tag v d).
Proof.
  intros Hc Hv. rewrite (validate_scalar f 0 tag v d d Hc). cbn [validateValueAtDepth].
  unfold isContainer in Hc. rewrite Hc.
  repeat match goal with
  | |- safe (if ?c then _ else _) => destruct c eqn:?
  end; to_prop; subst; try done;
  try (apply value_length_4 in Hv; [|by set_unfold; tauto]);
  (apply safe_bind; [first [apply safe_Uint32|apply safe_index]; lia|auto]).
Qed.

(** Containers are refused from depth 65 on, so at depth [d <= 65] the
    validator needs [66 - d] levels of fuel. *)
Lemma safe_validateValueAtDepth f d :
  (d ≤ maxNestedContainerDepth + 1)%nat → (validation_fuel ≤ f + d)%nat →
  validator_safe (validateValueAtDepth f) d.
Proof.
  unfold validation_fuel. revert d; induction f as [|f IH]; intros d Hd Hf tag v Hv.
  { lia. }
  destruct (isContainer tag) eqn:Hc; [|by apply safe_validate_scalar].
  assert (∀ A (parse : _ → _ → nat → result error A),
    (∀ validate d b, validator_safe validate (d + 1) → safe (parse validate b d)) →
    safe (validate_container (parse (validateValueAtDepth f)) v d)) as Hp.
  { intros A parse Hparse. apply safe_validate_container. intros Hdm.
    apply Hparse, IH; lia. }
  unfold isContainer in Hc.
  destruct (tag =? RoutingKey) eqn:H1; to_prop; [subst|].
  { apply Hp. intros; by apply safe_parseRoutingKey. }
  destruct (tag =? RegistrationResult) eqn:H2; to_prop; [subst|].
  { apply Hp. intros; by apply safe_parseRegistration. }
  destruct (tag =? DeregistrationResult) eqn:H3; to_prop; [subst|done].
  apply Hp. intros; by apply safe_parseDereg.
Qed.

Lemma safe_validateValue d :
  (d ≤ maxNestedContainerDepth + 1)%nat → validator_safe validateValue d.
Proof. intros. apply safe_validateValueAtDepth; unfold validation_fuel; lia. Qed.

Lemma validateValue_scalar tag v d d' :
  isContainer tag = false → validateValue tag v d = validateValue tag v d'.
Proof. exact (validate_scalar validation_fuel validation_fuel tag v d d'). Qed.

(** The validator one level below [validateValue]. *)
Definition innerValidate : Z → bytes → nat → result error () :=
  validateValueAtDepth (validation_fuel - 1).

Lemma innerValidate_scalar tag v d d' :
  isContainer tag = false → innerValidate tag v d = validateValue tag v d'.
Proof. exact (validate_scalar (validation_fuel - 1) validation_fuel tag v d d'). Qed.

Lemma validateValueAtDepth_RoutingKey f v d :
  validateValueAtDepth (S f) RoutingKey v d =
  validate_container (parseRoutingKeyPayloadAtDepth (validateValueAtDepth f)) v d.
Proof. reflexivity. Qed.
Lemma validateValueAtDepth_RegistrationResult f v d :
  validateValueAtDepth (S f) RegistrationResult v d =
  validate_container (parseRegistrationResultPayloadAtDepth (validateValueAtDepth f)) v d.
Proof. reflexivity. Qed.
Lemma validateValueAtDepth_DeregistrationResult f v d :
  validateValueAtDepth (S f) DeregistrationResult v d =
  validate_container (parseDeregResultPayloadAtDepth (validateValueAtDepth f)) v d.
Proof. reflexivity. Qed.

Lemma validateValue_RoutingKey v d :
  validateValue RoutingKey v d =
  validate_container (parseRoutingKeyPayloadAtDepth innerValidate) v d.
Proof. exact (validateValueAtDepth_RoutingKey (validation_fuel - 1) v d). Qed.
Lemma validateValue_RegistrationResult v d :
  validateValue RegistrationResult v d =
  validate_container (parseRegistrationResultPayloadAtDepth innerValidate) v d.
Proof. exact (validateValueAtDepth_RegistrationResult (validation_fuel - 1) v d). Qed.
Lemma validateValue_DeregistrationResult v d :
  validateValue DeregistrationResult v d =
  validate_container (parseDeregResultPayloadAtDepth innerValidate) v d.
Proof. exact (validateValueAtDepth_DeregistrationResult (validation_fuel - 1) v d). Qed.

(** From here on the validator is used through its lemmas only. *)
#[global] Opaque validateValue innerValidate.

Lemma safe_Parse b : safe (Parse b).
Proof. apply safe_unmarshal, safe_validateValue. unfold maxNestedContainerDepth; lia. Qed.
Lemma safe_ParseMultiParams b : safe (ParseMultiParams b).
Proof. apply safe_parseMulti, safe_validateValue. unfold maxNestedContainerDepth; lia. Qed.

Lemma safe_currentLengths p : safe (currentLengths p).
Proof.
  unfold currentLengths. case_match; [done|].
  apply safe_bind; [apply safe_ensure|intros [] Hv].
  apply safe_bind; [|done].
  apply safe_validateValue; [unfold maxNestedContainerDepth; lia|done].
Qed.
#[export] Hint Resolve safe_Parse safe_ParseMultiParams safe_currentLengths : safety.

(** ** Encoding *)

Lemma currentLengths_Ok p ls :
  is_u16 (Tag p) →
  currentLengths p = Ok ls ↔ encodable p ∧ ls = (4 + len (Data p), MarshalLen p).
Proof.
  intros Ht. unfold currentLengths. split.
  - intros H. inv_ok H. to_prop. destruct a, a0. split; [by constructor|].
    f_equal. apply u16_id. unfold is_u16, maxParamValueLength in *.
    pose proof (len_nonneg (Data p)). lia.
  - intros [[_ Hl Hv Hval] ->]. rewrite (proj2 (Z.ltb_ge _ _)) by lia.
    apply bind_Ok; exists tt; split; [exact Hv|].
    apply bind_Ok; exists tt; split; [exact Hval|].
    rewrite u16_id; [done|].
    unfold is_u16, maxParamValueLength in *. pose proof (len_nonneg (Data p)). lia.
Qed.

Lemma MarshalTo_Ok p b r :
  is_u16 (Tag p) →
  MarshalTo p b = Ok r ↔
  encodable p ∧ MarshalLen p ≤ len b ∧ r = (SetLength p, overwrite (wire p) b).
Proof.
  intros Ht. unfold MarshalTo.
  assert (∀ q : Param, MarshalLen q - (4 + len (Data q)) = Padding q) as Hpad.
  { intros; unfold MarshalLen; lia. }
  split.
  - intros H. apply bind_Ok in H as (ls & Hls & H).
    apply (currentLengths_Ok _ _ Ht) in Hls as [He ->].
    destruct (_ <? _) eqn:Hc; [done|]. to_prop. split_and!; [done|lia|].
    injection H as <-. rewrite SetLength_encodable by apply He. by rewrite Hpad.
  - intros (He & Hl & ->).
    rewrite (proj2 (currentLengths_Ok p _ Ht) (conj He eq_refl)). cbn [mbind result_bind].
    rewrite (proj2 (Z.ltb_ge _ _)) by lia.
    rewrite SetLength_encodable by apply He. by rewrite Hpad.
Qed.

Lemma MarshalBinary_Ok p r :
  is_u16 (Tag p) →
  MarshalBinary p = Ok r ↔ encodable p ∧ r = (SetLength p, wire p).
Proof.
  intros Ht. unfold MarshalBinary.
  assert (0 ≤ MarshalLen p) as H0.
  { unfold MarshalLen. pose proof (Padding_range p); pose proof (len_nonneg (Data p)). lia. }
  assert (overwrite (wire p) (make_bytes (MarshalLen p)) = wire p) as Hov.
  { apply overwrite_self. by rewrite len_make_bytes, len_wire. }
  split.
  - intros H. apply bind_Ok in H as (ls & Hls & H).
    apply (currentLengths_Ok _ _ Ht) in Hls as [He ->].
    apply (MarshalTo_Ok _ _ _ Ht) in H as (_ & _ & ->). by rewrite Hov.
  - intros [He ->].
    rewrite (proj2 (currentLengths_Ok p _ Ht) (conj He eq_refl)). cbn [mbind result_bind].
    apply (MarshalTo_Ok _ _ _ Ht). rewrite Hov, len_make_bytes by done. done.
Qed.

Lemma MarshalMultiParams_Ok ps r :
  Forall (λ p, is_u16 (Tag p)) ps →
  MarshalMultiParams ps = Ok r ↔
  Forall encodable ps ∧ r = (SetLength <$> ps, concat (wire <$> ps)).
Proof.
  intros Ht. revert r. induction Ht as [|p ps Hp Hps IH]; intros r; cbn.
  { split; [intros [= <-]; split; [constructor|done]|by intros [_ ->]]. }
  split.
  - intros H. apply bind_Ok in H as ([p' c] & H1 & H).
    apply (MarshalBinary_Ok _ _ Hp) in H1 as [He [= -> ->]].
    apply bind_Ok in H as ([ps' b] & H1 & H). apply IH in H1 as [Hes [= -> ->]].
    injection H as <-. split; [by constructor|done].
  - intros [He ->]. apply Forall_cons in He as [He Hes].
    rewrite (proj2 (MarshalBinary_Ok p _ Hp) (conj He eq_refl)). cbn.
    by rewrite (proj2 (IH _) (conj Hes eq_refl)).
Qed.

(** What the decoder accepts at depth 0 is what the encoder accepts. *)
Lemma accepted_encodable p :
  accepted validateValue 0 p ↔ encodable p ∧ Length p = 4 + len (Data p).
Proof.
  unfold accepted, is_u16. split.
  - intros (Ht & Hl & HL & Hv & Hval). split; [|done]. constructor; try done.
    unfold maxParamValueLength. lia.
  - intros [[Ht Hl Hv Hval] HL]. split_and!; try done; unfold maxParamValueLength in *;
      pose proof (len_nonneg (Data p)); unfold is_u16 in *; lia.
Qed.

Lemma encodable_accepted p : encodable p → accepted validateValue 0 (SetLength p).
Proof.
  intros He. apply accepted_encodable. split; [by apply encodable_SetLength|].
  rewrite Data_SetLength. apply Length_SetLength, He.
Qed.
