(* ===== verification/PayloadData.v ===== *)
(** * The Protocol Data parameter (params/protocol-data.go)

    The MTP3 routing label and user data a DATA message carries: the payload
    record, its encoder and decoder, the parameter that holds it, and the
    round trip between them. *)

From S2P Require Import Prelude Params ParamsFacts.

Record ProtocolDataPayload : Set := mkPayload {
  OriginatingPointCode : Z;
  DestinationPointCode : Z;
  ServiceIndicator : Z;
  NetworkIndicator : Z;
  MessagePriority : Z;
  SignallingLinkSelection : Z;
  UserData : bytes;
}.

#[export] Instance ProtocolDataPayload_eq_dec : EqDecision ProtocolDataPayload.
Proof. solve_decision. Defined.

Definition Payload_MarshalLen (p : ProtocolDataPayload) : Z := 12 + len (UserData p).

(** The octets [MarshalTo] writes. *)
Definition Payload_wire (p : ProtocolDataPayload) : bytes :=
  PutUint32 (OriginatingPointCode p) ++ PutUint32 (DestinationPointCode p) ++
  [byte_of_Z (ServiceIndicator p); byte_of_Z (NetworkIndicator p);
   byte_of_Z (MessagePriority p); byte_of_Z (SignallingLinkSelection p)] ++ UserData p.

Definition Payload_MarshalTo (p : ProtocolDataPayload) (b : bytes) : result error bytes :=
  if len b <? Payload_MarshalLen p then Err ErrTooShortToMarshalBinary
  else Ok (overwrite (Payload_wire p) b).

Definition Payload_MarshalBinary (p : ProtocolDataPayload) : result error bytes :=
  Payload_MarshalTo p (make_bytes (Payload_MarshalLen p)).

(** [UnmarshalBinary], which [ParseProtocolDataPayload] calls on an empty payload. *)
Definition ParseProtocolDataPayload (b : bytes) : result error ProtocolDataPayload :=
  let l := len b in
  if l <? 12 then Err ErrTooShortToParse else
  w ← slice 0 4 b;
  opc ← Uint32 w;
  w ← slice 4 8 b;
  dpc ← Uint32 w;
  si ← index 8 b;
  ni ← index 9 b;
  mp ← index 10 b;
  sls ← index 11 b;
  data ← slice_from 12 b;
  Ok (mkPayload opc dpc si ni mp sls data).

(** [NewProtocolData] drops the error of [MarshalBinary] and keeps the nil slice. *)
Definition NewProtocolData (p : ProtocolDataPayload) : Param :=
  SetLength (mkParam ProtocolData 0
    (match Payload_MarshalBinary p with Ok pd => pd | _ => [] end)).

(** The method [ProtocolData] of a parameter. *)
Definition get_ProtocolData (p : Param) : result error ProtocolDataPayload :=
  if negb (Tag p =? ProtocolData) then Err ErrInvalidType
  else ParseProtocolDataPayload (Data p).

(** ** Facts *)

(** The fields fit their widths. *)
Record payload_typed (p : ProtocolDataPayload) : Prop := {
  pt_opc : is_u32 (OriginatingPointCode p);
  pt_dpc : is_u32 (DestinationPointCode p);
  pt_si : is_u8 (ServiceIndicator p);
  pt_ni : is_u8 (NetworkIndicator p);
  pt_mp : is_u8 (MessagePriority p);
  pt_sls : is_u8 (SignallingLinkSelection p);
}.

Lemma len_Payload_wire p : len (Payload_wire p) = Payload_MarshalLen p.
Proof.
  unfold Payload_wire, Payload_MarshalLen. rewrite !len_app, !len_PutUint32.
  rewrite !len_cons, len_nil. lia.
Qed.

Lemma Payload_MarshalBinary_Ok p : Payload_MarshalBinary p = Ok (Payload_wire p).
Proof.
  unfold Payload_MarshalBinary, Payload_MarshalTo.
  assert (Hl : 0 ≤ Payload_MarshalLen p).
  { unfold Payload_MarshalLen. pose proof (len_nonneg (UserData p)). lia. }
  rewrite len_make_bytes, Z.ltb_irrefl by done. f_equal.
  apply overwrite_self. by rewrite len_make_bytes, len_Payload_wire.
Qed.

Lemma index_at {E} (p q : bytes) b : @index E (len p) (p ++ b :: q) = Ok (byte_to_Z b).
Proof.
  unfold index. rewrite (proj2 (Z.leb_le _ _)) by apply len_nonneg.
  unfold len. rewrite Nat2Z.id. by rewrite list_lookup_middle.
Qed.

Lemma byte_octet z : is_u8 z → byte_to_Z (byte_of_Z z) = z.
Proof. intros Hz. rewrite byte_to_of_Z. unfold is_u8 in Hz. by apply Z.mod_small. Qed.

(** The decoder on twelve octets and the user data. *)
Lemma ParseProtocolDataPayload_octets (opc dpc : bytes) si ni mp sls data o d :
  len opc = 4 → len dpc = 4 → @Uint32 error opc = Ok o → @Uint32 error dpc = Ok d →
  ParseProtocolDataPayload (opc ++ dpc ++ [si; ni; mp; sls] ++ data) =
  Ok (mkPayload o d (byte_to_Z si) (byte_to_Z ni) (byte_to_Z mp) (byte_to_Z sls) data).
Proof.
  intros L1 L2 H1 H2. unfold ParseProtocolDataPayload.
  pose proof (len_nonneg data). set (b := opc ++ dpc ++ _).
  assert (Hb : len b = 12 + len data).
  { unfold b. rewrite !len_app, L1, L2, !len_cons, len_nil. lia. }
  rewrite Hb, (proj2 (Z.ltb_ge _ _)) by lia.
  assert (S1 : @slice error 0 4 b = Ok opc) by (rewrite <-L1; apply slice_prefix).
  assert (S2 : @slice error 4 8 b = Ok dpc).
  { rewrite <-L1. replace 8 with (len opc + len dpc) by lia. apply slice_app. }
  assert (I : ∀ (pre : bytes) x rest, b = pre ++ x :: rest → @index error (len pre) b =
    Ok (byte_to_Z x)) by (intros pre x rest ->; apply index_at).
  assert (I8 : @index error 8 b = Ok (byte_to_Z si)).
  { rewrite <-(I (opc ++ dpc) si ([ni; mp; sls] ++ data)); [|unfold b; by rewrite <-app_assoc].
    by rewrite len_app, L1, L2. }
  assert (I9 : @index error 9 b = Ok (byte_to_Z ni)).
  { rewrite <-(I (opc ++ dpc ++ [si]) ni ([mp; sls] ++ data));
      [|unfold b; by rewrite <-!app_assoc]. by rewrite !len_app, L1, L2. }
  assert (I10 : @index error 10 b = Ok (byte_to_Z mp)).
  { rewrite <-(I (opc ++ dpc ++ [si; ni]) mp ([sls] ++ data));
      [|unfold b; by rewrite <-!app_assoc]. by rewrite !len_app, L1, L2. }
  assert (I11 : @index error 11 b = Ok (byte_to_Z sls)).
  { rewrite <-(I (opc ++ dpc ++ [si; ni; mp]) sls data);
      [|unfold b; by rewrite <-!app_assoc]. by rewrite !len_app, L1, L2. }
  assert (S12 : @slice_from error 12 b = Ok data).
  { pose proof (slice_from_app (E:=error) (opc ++ dpc ++ [si; ni; mp; sls]) data) as Hs.
    rewrite !len_app, L1, L2 in Hs. unfold b. by rewrite <-!app_assoc in Hs. }
  by rewrite S1, Ok_bind, H1, Ok_bind, S2, Ok_bind, H2, Ok_bind, I8, Ok_bind, I9, Ok_bind,
    I10, Ok_bind, I11, Ok_bind, S12.
Qed.

Lemma ParseProtocolDataPayload_wire p :
  payload_typed p → ParseProtocolDataPayload (Payload_wire p) = Ok p.
Proof.
  intros [H1 H2 H3 H4 H5 H6]. unfold Payload_wire.
  rewrite (ParseProtocolDataPayload_octets _ _ _ _ _ _ _ (OriginatingPointCode p)
    (DestinationPointCode p)); [|done|done|by apply Uint32_Put..].
  rewrite !byte_octet by done. by destruct p.
Qed.

(** The first twelve octets of a payload. *)
Lemma octets_split (b : bytes) :
  12 ≤ len b → ∃ o0 o1 o2 o3 d0 d1 d2 d3 si ni mp sls data,
    b = [o0; o1; o2; o3] ++ [d0; d1; d2; d3] ++ [si; ni; mp; sls] ++ data.
Proof.
  intros Hl. do 12 (destruct b as [|? b]; [by vm_compute in Hl|]). by repeat eexists.
Qed.

Lemma ParseProtocolDataPayload_inv b p :
  ParseProtocolDataPayload b = Ok p → payload_typed p ∧ Payload_wire p = b.
Proof.
  intros H. assert (Hl : 12 ≤ len b).
  { unfold ParseProtocolDataPayload in H. destruct (_ <? _) eqn:Hl; [done|]. to_prop. lia. }
  destruct (octets_split b Hl) as (o0 & o1 & o2 & o3 & d0 & d1 & d2 & d3 & si & ni & mp & sls &
    data & ->).
  rewrite (ParseProtocolDataPayload_octets [o0; o1; o2; o3] [d0; d1; d2; d3] si ni mp sls data
    _ _ eq_refl eq_refl eq_refl eq_refl) in H. injection H as <-. split.
  - constructor; try apply byte_to_Z_range.
    + exact (Uint32_range (E:=error) [o0; o1; o2; o3] _ eq_refl).
    + exact (Uint32_range (E:=error) [d0; d1; d2; d3] _ eq_refl).
  - unfold Payload_wire. cbn [OriginatingPointCode DestinationPointCode ServiceIndicator
      NetworkIndicator MessagePriority SignallingLinkSelection UserData].
    rewrite !byte_of_to_Z. f_equal; [by apply (PutUint32_Uint32 (E:=error))|].
    f_equal. by apply (PutUint32_Uint32 (E:=error)).
Qed.

(** ** The theorem *)

(** The Protocol Data parameter.  The payload that [NewProtocolData] puts
    into a parameter is read back unchanged, user data of any length included;
    and the decoder accepts exactly the values of at least twelve octets, and
    forgets none of them: encoding the payload it returns gives the same
    octets. *)
Theorem ProtocolData_roundtrip p :
  payload_typed p →
  get_ProtocolData (NewProtocolData p) = Ok p ∧
  ∀ b, 12 ≤ len b ↔ ∃ q, ParseProtocolDataPayload b = Ok q ∧ payload_typed q ∧
                         Payload_MarshalBinary q = Ok b.
Proof.
  intros Hp. split.
  - unfold NewProtocolData, get_ProtocolData. rewrite Payload_MarshalBinary_Ok.
    rewrite Tag_SetLength, Data_SetLength. cbn. by apply ParseProtocolDataPayload_wire.
  - intros b. split.
    + intros Hl. destruct (octets_split b Hl) as (o0 & o1 & o2 & o3 & d0 & d1 & d2 & d3 & si &
        ni & mp & sls & data & Hb).
      pose proof (ParseProtocolDataPayload_octets _ _ si ni mp sls data _ _
        (eq_refl : len [o0; o1; o2; o3] = 4) (eq_refl : len [d0; d1; d2; d3] = 4)
        eq_refl eq_refl) as Hq. rewrite <-Hb in Hq. eexists. split; [exact Hq|].
      apply ParseProtocolDataPayload_inv in Hq as [Ht Hw]. split; [done|].
      by rewrite Payload_MarshalBinary_Ok, Hw.
    + intros (q & Hq & _). unfold ParseProtocolDataPayload in Hq.
      destruct (_ <? _) eqn:Hl; [done|]. to_prop. lia.
Qed.

Lemma ProtocolData_roundtrip_witness :
  get_ProtocolData (NewProtocolData (mkPayload 1 2 3 2 0 15 [Byte.x61])) =
  Ok (mkPayload 1 2 3 2 0 15 [Byte.x61]).
Proof.
  apply (ProtocolData_roundtrip (mkPayload 1 2 3 2 0 15 [Byte.x61])).
  constructor; split; vm_compute; congruence.
Defined.
