(* ===== verification/ParamValues.v ===== *)
(** * Constructors and accessors of individual parameters (package messages/params)

    One constructor and one accessor per tag, over the shared helpers of
    params.go, the split of a point code word into its mask and its point
    code, and the round trips between constructors and accessors. *)

From S2P Require Import Prelude Params ParamsFacts.

Definition uint32To24 (n : Z) : bytes :=
  [byte_of_Z (Z.shiftr n 16); byte_of_Z (Z.shiftr n 8); byte_of_Z n].

Definition newUint24ValParam (t u : Z) : Param := mkParam t 8 (Byte.x00 :: uint32To24 u).

(** ** Constructors *)

Definition NewAspIdentifier (aspID : Z) : Param := newUint32ValParam AspIdentifier aspID.
Definition NewCorrelationID (corrID : Z) : Param := newUint32ValParam CorrelationID corrID.
Definition NewDeregistrationStatus (deregStatus : Z) : Param :=
  newUint32ValParam DeregistrationStatus deregStatus.
Definition NewErrorCode (ec : Z) : Param := newUint32ValParam ErrorCode ec.
Definition NewLocalRoutingKeyIdentifier (rkID : Z) : Param :=
  newUint32ValParam LocalRoutingKeyIdentifier rkID.
Definition NewNetworkAppearance (nwApr : Z) : Param := newUint32ValParam NetworkAppearance nwApr.
Definition NewRegistrationStatus (regStatus : Z) : Param :=
  newUint32ValParam RegistrationStatus regStatus.
Definition NewRoutingContext (rtCxts : list Z) : Param :=
  newMultiUint32ValParam RoutingContext rtCxts.
Definition NewStatus (typeInfo : Z) : Param := newUint32ValParam Status typeInfo.
Definition NewTrafficModeType (tmType : Z) : Param := newUint32ValParam TrafficModeType tmType.
Definition NewUserCause (user cause : Z) : Param :=
  newUint32ValParam UserCause (Z.lor (Z.shiftl cause 16) user).
Definition NewHeartbeatData (data : bytes) : Param := newVariableLenValParam HeartbeatData data.
Definition NewInfoString (infoStr : bytes) : Param := newVariableLenValParam InfoString infoStr.
Definition NewDiagnosticInformation (di : bytes) : Param :=
  newVariableLenValParam DiagnosticInformation di.
Definition NewServiceIndicators (si : list Z) : Param :=
  newMultiUint8ValParam ServiceIndicators si.
Definition NewCongestionIndications (congLv : Z) : Param :=
  newUint8ValParam CongestionIndications congLv.
Definition NewConcernedDestination (cd : Z) : Param := newUint24ValParam ConcernedDestination cd.
Definition NewDestinationPointCode (dpc : Z) : Param := newUint24ValParam DestinationPointCode dpc.
Definition NewAffectedPointCode (apcs : list Z) : Param :=
  newMultiUint32ValParam AffectedPointCode apcs.
Definition NewOriginatingPointCodeList (opcs : list Z) : Param :=
  newMultiUint32ValParam OriginatingPointCodeList opcs.

(** A point code word: an 8-bit mask above a 24-bit point code. *)
Definition pointCodeMask (word : Z) : Z * Z :=
  (u8 (Z.shiftr word 24), Z.land word 0x00FFFFFF).

Definition pointCodeWord (mask pc : Z) : Z :=
  Z.lor (u32 (Z.shiftl mask 24)) (Z.land pc 0x00FFFFFF).

Definition NewAffectedPointCodeWithMask (mask pc : Z) : Param :=
  newMultiUint32ValParam AffectedPointCode [pointCodeWord mask pc].

Record PointCodeWithMask : Set := mkPointCodeWithMask { pcm_Mask : Z; pcm_PointCode : Z }.

Definition NewOriginatingPointCodeListWithMasks (entries : list PointCodeWithMask) : Param :=
  NewOriginatingPointCodeList ((λ e, pointCodeWord (pcm_Mask e) (pcm_PointCode e)) <$> entries).

(** ** Accessors *)

(** An accessor that returns the value of its own tag, and nothing otherwise. *)
Definition value_accessor (tag : Z) (p : Param) : bytes :=
  if negb (Tag p =? tag) then [] else Data p.

Definition get_HeartbeatData := value_accessor HeartbeatData.
Definition get_InfoString := value_accessor InfoString.
Definition get_DiagnosticInformation := value_accessor DiagnosticInformation.
Definition get_ServiceIndicators (p : Param) : list Z :=
  byte_to_Z <$> value_accessor ServiceIndicators p.

Definition words_accessor (tag : Z) (p : Param) : result error (list Z) :=
  if negb (Tag p =? tag) then Ok [] else decodeMultiUint32ValData p.

Definition get_LocalRoutingKeyIdentifier := uint32_accessor LocalRoutingKeyIdentifier.

Definition get_AffectedPointCodes (p : Param) : result error (list Z) :=
  words ← words_accessor AffectedPointCode p; Ok (map (λ w, (pointCodeMask w).2) words).

Definition get_AffectedPointCodeMasks (p : Param) : result error (list Z) :=
  words ← words_accessor AffectedPointCode p; Ok (map (λ w, (pointCodeMask w).1) words).

Definition get_AffectedPointCode (p : Param) : result error Z :=
  apcs ← get_AffectedPointCodes p; Ok (default 0 (head apcs)).

(** A nil parameter carries none. *)
Definition AffectedPointCodeCount (p : option Param) : Z :=
  match p with
  | None => 0
  | Some p =>
      if negb (Tag p =? AffectedPointCode) then 0
      else if negb (len (Data p) mod 4 =? 0) then 0 else len (Data p) / 4
  end.

Definition get_OriginatingPointCodeList := words_accessor OriginatingPointCodeList.

Definition OriginatingPointCodeListEntries (p : Param) : result error (list PointCodeWithMask) :=
  words ← get_OriginatingPointCodeList p;
  Ok (map (λ w, let '(m, pc) := pointCodeMask w in mkPointCodeWithMask m pc) words).

Definition masked_accessor (tag : Z) (f : Z → Z) (p : Param) : result error Z :=
  if negb (Tag p =? tag) then Ok 0 else f <$> decodeUint32ValData p.

Definition CongestionLevel := masked_accessor CongestionIndications (λ u, Z.land u 0xff).
Definition get_ConcernedDestination :=
  masked_accessor ConcernedDestination (λ u, Z.land u 0xffffff).
Definition get_DestinationPointCode :=
  masked_accessor DestinationPointCode (λ u, Z.land u 0xffffff).
Definition StatusType := masked_accessor Status (λ u, u16 (Z.shiftr u 16)).
Definition StatusInfo := masked_accessor Status (λ u, u16 (Z.land u 0xffff)).
Definition UserIdentity := masked_accessor UserCause (λ u, u16 (Z.land u 0xffff)).
Definition UnavailabilityCause := masked_accessor UserCause (λ u, u16 (Z.shiftr u 16)).

(** ** Facts *)

Lemma decode_words_concat us pre post :
  Forall is_u32 us → len pre mod 4 = 0 →
  decode_words (length us) (len pre / 4) (pre ++ (us ≫= PutUint32) ++ post) = Ok us.
Proof.
  revert pre; induction us as [|u us IH]; intros pre Hus Hpre; [done|].
  apply Forall_cons in Hus as [Hu Hus]. cbn [length decode_words].
  assert (Hp : len pre = len pre / 4 * 4) by (pose proof (Z.div_mod (len pre) 4 ltac:(done)); lia).
  replace (len pre / 4 * 4) with (len pre) by lia.
  replace ((len pre / 4 + 1) * 4) with (len pre + len (PutUint32 u))
    by (rewrite len_PutUint32; lia).
  rewrite bind_cons, <-(assoc_L (++)), slice_app. cbn [mbind result_bind].
  rewrite Uint32_Put by done. cbn [mbind result_bind].
  replace (len pre / 4 + 1) with (len (pre ++ PutUint32 u) / 4).
  2:{ rewrite len_app, len_PutUint32. rewrite Hp at 1.
      replace (len pre / 4 * 4 + 4) with ((len pre / 4 + 1) * 4) by lia.
      by rewrite Z.div_mul. }
  rewrite (assoc_L (++) pre (PutUint32 u)), (IH (pre ++ PutUint32 u)); [done..|].
  rewrite len_app, len_PutUint32, Hp.
  replace (len pre / 4 * 4 + 4) with ((len pre / 4 + 1) * 4) by lia.
  by rewrite Z.mod_mul.
Qed.

Lemma len_concat_words us : len (us ≫= PutUint32) = 4 * len us.
Proof.
  induction us as [|u us IH]; [done|]. rewrite bind_cons, len_app, len_cons, len_PutUint32. lia.
Qed.

(** A list of words is read back as it was given. *)
Lemma words_accessor_new t us :
  Forall is_u32 us → words_accessor t (newMultiUint32ValParam t us) = Ok us.
Proof.
  intros Hus. unfold words_accessor, newMultiUint32ValParam.
  rewrite Tag_SetLength. cbn [Tag]. rewrite Z.eqb_refl. cbn [negb].
  unfold decodeMultiUint32ValData. rewrite Data_SetLength. cbn [Data].
  rewrite len_concat_words.
  replace (4 * len us) with (len us * 4) by lia. rewrite Z.mod_mul, Z.div_mul by done.
  cbn [Z.eqb]. pose proof (decode_words_concat us [] [] Hus eq_refl) as Hd.
  rewrite app_nil_r in Hd. unfold len at 1. by rewrite Nat2Z.id.
Qed.

Lemma is_u32_pointCodeWord m pc : is_u8 m → is_u32 (pointCodeWord m pc).
Proof.
  intros [H0 H1]. unfold pointCodeWord, is_u32.
  assert (Z.lor (u32 (Z.shiftl m 24)) (Z.land pc 0x00FFFFFF) =
          m * 2 ^ 24 + pc mod 2 ^ 24) as ->.
  { change 0x00FFFFFF with (Z.ones 24). rewrite Z.land_ones by done.
    rewrite Z.shiftl_mul_pow2 by done. unfold u32. rewrite Z.mod_small by lia.
    symmetry. rewrite <-Z.shiftl_mul_pow2 by done.
    apply Z.add_nocarry_lor, Z.bits_inj'. intros i Hi.
    rewrite Z.bits_0, Z.land_spec, Z.shiftl_spec by done.
    destruct (Z.ltb_spec i 24).
    - by rewrite Z.testbit_neg_r by lia.
    - rewrite Z.mod_pow2_bits_high by lia. apply andb_false_r. }
  pose proof (Z.mod_pos_bound pc (2 ^ 24) ltac:(done)). lia.
Qed.

(** A point code word is its mask and the low 24 bits of its point code. *)
Lemma pointCodeMask_word m pc :
  is_u8 m → pointCodeMask (pointCodeWord m pc) = (m, pc mod 2 ^ 24).
Proof.
  intros [H0 H1]. unfold pointCodeMask, pointCodeWord.
  change 0x00FFFFFF with (Z.ones 24).
  assert (Hs : u32 (Z.shiftl m 24) = Z.shiftl m 24).
  { apply u32_id. rewrite Z.shiftl_mul_pow2 by done. split; lia. }
  rewrite Hs. f_equal.
  - rewrite Z.shiftr_lor, Z.shiftr_shiftl_l by done. cbn [Z.sub]. rewrite Z.shiftl_0_r.
    rewrite Z.land_ones, (Z.shiftr_div_pow2 (_ mod _)), Z.div_small by (done || by apply Z.mod_pos_bound).
    rewrite Z.lor_0_r. unfold u8. rewrite Z.mod_small; [done|]. lia.
  - rewrite Z.land_lor_distr_l, <-Z.land_assoc, Z.land_diag, Z.land_ones, Z.land_ones by done.
    rewrite Z.shiftl_mul_pow2, Z.mod_mul by done. done.
Qed.

(** An Originating Point Code List is read back entry by entry, each with
    its mask and the 24 bits of its point code that the wire carries. *)
Theorem OriginatingPointCodeList_roundtrip (entries : list PointCodeWithMask)
    (Hmasks : Forall (λ e, is_u8 (pcm_Mask e)) entries) :
  OriginatingPointCodeListEntries (NewOriginatingPointCodeListWithMasks entries) =
  Ok (map (λ e, mkPointCodeWithMask (pcm_Mask e) (pcm_PointCode e mod 2 ^ 24)) entries).
Proof.
  unfold OriginatingPointCodeListEntries, get_OriginatingPointCodeList,
    NewOriginatingPointCodeListWithMasks, NewOriginatingPointCodeList.
  rewrite words_accessor_new.
  - cbn [mbind result_bind]. f_equal. change (fmap (M:=list)) with (@map PointCodeWithMask Z). rewrite map_map.
    apply List.map_ext_Forall, List.Forall_forall.
    intros e He. rewrite Forall_forall in Hmasks.
    specialize (Hmasks e (proj2 (list_elem_of_In _ _) He)).
    by rewrite pointCodeMask_word.
  - apply Forall_fmap. eapply Forall_impl; [done|]. intros e He. exact (is_u32_pointCodeWord _ (pcm_PointCode e) He).
Qed.

Lemma OriginatingPointCodeList_roundtrip_witness :
  OriginatingPointCodeListEntries
    (NewOriginatingPointCodeListWithMasks [mkPointCodeWithMask 8 0x1001234]) =
  Ok [mkPointCodeWithMask 8 0x1234].
Proof.
  apply (OriginatingPointCodeList_roundtrip [mkPointCodeWithMask 8 0x1001234]).
  constructor; [split; done|constructor].
Defined.
