(* ===== verification/Nested.v ===== *)
(** * Container parameters: what they accept, and their round trips

    Routing Key, Registration Result and Deregistration Result (package
    messages/params).  The decoder validates a container inside a container
    before it refuses it, which is why the code bounds the nesting depth; an
    accepted container holds no container, so acceptance does not depend on
    the depth.  The constructors and the decoders are inverse to each other
    on well-formed payloads. *)

From S2P Require Import Prelude Params ParamsFacts.

(** ** Containers hold no containers *)

Section scalar_steps.
Lemma container_cases t :
  isContainer t = true →
  t = RoutingKey ∨ t = RegistrationResult ∨ t = DeregistrationResult.
Proof. unfold isContainer. rewrite !orb_true_iff, !Z.eqb_eq. tauto. Qed.

Ltac step_scalar :=
  let H := fresh in let Hc := fresh in
  intros H; apply not_true_iff_false; intros Hc;
  apply container_cases in Hc;
  match type of H with ?f ?s ?p = _ => destruct s; unfold f in H end;
  destruct Hc as [Hc|[Hc|Hc]]; rewrite !Hc in H; cbn in H; discriminate H.

Lemma routingKeyStep_scalar s p s' :
  routingKeyStep s p = Ok s' → isContainer (Tag p) = false.
Proof. step_scalar. Qed.
Lemma registrationResultStep_scalar s p s' :
  registrationResultStep s p = Ok s' → isContainer (Tag p) = false.
Proof. step_scalar. Qed.
Lemma deregResultStep_scalar s p s' :
  deregResultStep s p = Ok s' → isContainer (Tag p) = false.
Proof. step_scalar. Qed.
End scalar_steps.

(** ** Two validators that agree on scalars *)

Section change_validator.
Context (v v' : Z → bytes → nat → result error ()) (d d' : nat).

Lemma loop_change fuel b ps :
  parseMultiParamsLoop v fuel b d [] = Ok ps →
  (∀ p, p ∈ ps → v (Tag p) (Data p) d = Ok tt → v' (Tag p) (Data p) d' = Ok tt) →
  parseMultiParamsLoop v' fuel b d' [] = Ok ps.
Proof.
  revert b ps; induction fuel as [|fuel IH]; intros b ps H Hv; cbn in *; [done|].
  case_match; [done|].
  apply bind_Ok in H as (p & Hp & H). apply bind_Ok. exists p.
  assert (p ∈ ps) as Hin.
  { repeat case_match; try done.
    - injection H as <-. by constructor.
    - apply bind_Ok in H as (b' & _ & H). rewrite loop_acc in H.
      destruct (parseMultiParamsLoop _ _ _ _ _); try done.
      injection H as <-. by constructor. }
  split.
  { apply unmarshal_Ok in Hp as [(H1 & H2 & H3 & H4 & H5) Hr].
    apply unmarshal_Ok. split; [|done]. split_and!; try done. by apply Hv. }
  case_match; [done|]. case_match; [done|].
  apply bind_Ok in H as (b' & Hb & H). apply bind_Ok. exists b'. split; [done|].
  rewrite loop_acc in H |- *.
  destruct (parseMultiParamsLoop v fuel b' d []) as [l| | |] eqn:Hl; try done.
  injection H as <-. rewrite (IH b' l); [done|done|].
  intros q Hq. by apply Hv, elem_of_cons; right.
Qed.

(** A container decoder: parse, collect, check. *)
Context {A : Type} (step : A → Param → result error A) (zero : A)
  (check : A → result error A).
Hypothesis step_scalar : ∀ s p s', step s p = Ok s' → isContainer (Tag p) = false.
Hypothesis agree : ∀ t x, isContainer t = false → v t x d = v' t x d'.

Lemma container_change b r :
  (ps ← parseMultiParamsAtDepth v b d; decoded ← foldM step zero ps; check decoded) = Ok r →
  (ps ← parseMultiParamsAtDepth v' b d'; decoded ← foldM step zero ps; check decoded) = Ok r.
Proof.
  intros H. apply bind_Ok in H as (ps & Hps & H).
  apply bind_Ok. exists ps. split; [|done].
  apply bind_Ok in H as (s & Hs & _).
  eapply loop_change; [exact Hps|]. intros p Hp Hv.
  destruct (foldM_elem _ _ _ _ _ Hs Hp) as (s1 & s2 & Hstep).
  by rewrite <-(agree _ _ (step_scalar _ _ _ Hstep)).
Qed.
End change_validator.

Lemma validate_container_Ok {A} (parse : bytes → nat → result error A) x d :
  validate_container parse x d = Ok tt ↔
  (d ≤ maxNestedContainerDepth)%nat ∧ ∃ r, parse x d = Ok r.
Proof.
  unfold validate_container. case_bool_decide.
  - split; [done|lia].
  - rewrite bind_Ok. split; [intros (r & ? & _)|intros (_ & r & ?)]; eauto with lia.
Qed.

Section containers_any_depth.
Context (v v' : Z → bytes → nat → result error ()) (d d' : nat).
Hypothesis agree : ∀ t x, isContainer t = false → v t x (d + 1) = v' t x (d' + 1).

Lemma parseRoutingKey_change b r :
  parseRoutingKeyPayloadAtDepth v b d = Ok r → parseRoutingKeyPayloadAtDepth v' b d' = Ok r.
Proof. apply container_change; [apply routingKeyStep_scalar|apply agree]. Qed.
Lemma parseRegistration_change b r :
  parseRegistrationResultPayloadAtDepth v b d = Ok r →
  parseRegistrationResultPayloadAtDepth v' b d' = Ok r.
Proof. apply container_change; [apply registrationResultStep_scalar|apply agree]. Qed.
Lemma parseDereg_change b r :
  parseDeregResultPayloadAtDepth v b d = Ok r → parseDeregResultPayloadAtDepth v' b d' = Ok r.
Proof. apply container_change; [apply deregResultStep_scalar|apply agree]. Qed.
End containers_any_depth.

Lemma validateValue_depth_le tag x d d' :
  (d' ≤ maxNestedContainerDepth)%nat →
  validateValue tag x d = Ok tt → validateValue tag x d' = Ok tt.
Proof.
  intros Hd'. destruct (isContainer tag) eqn:Hc.
  2: { by rewrite (validateValue_scalar tag x d d' Hc). }
  assert (∀ t y, isContainer t = false →
    innerValidate t y (d + 1) = innerValidate t y (d' + 1)) as Hag.
  { intros t y Ht. transitivity (validateValue t y 0); [|symmetry];
      by apply innerValidate_scalar. }
  apply container_cases in Hc as [-> | [-> | ->]];
    rewrite ?validateValue_RoutingKey, ?validateValue_RegistrationResult,
      ?validateValue_DeregistrationResult, !validate_container_Ok;
    intros (_ & r & Hr); (split; [done|]); exists r; revert Hr.
  - by apply parseRoutingKey_change.
  - by apply parseRegistration_change.
  - by apply parseDereg_change.
Qed.

(** A container is valid exactly when its payload decodes. *)
Lemma validate_routing_key x :
  validateValue RoutingKey x 0 = Ok tt ↔ ∃ r, ParseRoutingKeyPayload x = Ok r.
Proof.
  rewrite validateValue_RoutingKey, validate_container_Ok. unfold ParseRoutingKeyPayload.
  split; [intros (_ & r & Hr)|intros (r & Hr); split; [unfold maxNestedContainerDepth; lia|]];
    exists r; revert Hr; apply parseRoutingKey_change; intros t y Ht;
    [|symmetry]; by apply innerValidate_scalar.
Qed.
Lemma validate_registration_result x :
  validateValue RegistrationResult x 0 = Ok tt ↔
  ∃ r, ParseRegistrationResultPayload x = Ok r.
Proof.
  rewrite validateValue_RegistrationResult, validate_container_Ok.
  unfold ParseRegistrationResultPayload.
  split; [intros (_ & r & Hr)|intros (r & Hr); split; [unfold maxNestedContainerDepth; lia|]];
    exists r; revert Hr; apply parseRegistration_change; intros t y Ht;
    [|symmetry]; by apply innerValidate_scalar.
Qed.
Lemma validate_dereg_result x :
  validateValue DeregistrationResult x 0 = Ok tt ↔
  ∃ r, ParseDeregResultPayload x = Ok r.
Proof.
  rewrite validateValue_DeregistrationResult, validate_container_Ok.
  unfold ParseDeregResultPayload.
  split; [intros (_ & r & Hr)|intros (r & Hr); split; [unfold maxNestedContainerDepth; lia|]];
    exists r; revert Hr; apply parseDereg_change; intros t y Ht;
    [|symmetry]; by apply innerValidate_scalar.
Qed.

(** An encodable scalar is accepted at every depth. *)
Lemma encodable_accepted_at d p :
  encodable p → isContainer (Tag p) = false → accepted validateValue d (SetLength p).
Proof.
  intros He Hc. destruct (encodable_accepted p He) as (H1 & H2 & H3 & H4 & H5).
  split_and!; try done. rewrite <-H5. rewrite Tag_SetLength. by apply validateValue_scalar.
Qed.

(** ** Round trips *)

Definition params_of (ps : list (option Param)) : list Param := omap id ps.

(** The octets the parameters of a list take on the wire. *)
Definition params_size (ps : list Param) : Z := len (concat (wire <$> ps)).

(** An optional sub-parameter carries its own tag and can be encoded. *)
Definition sub_ok (t : Z) (o : option Param) : Prop :=
  ∀ p, o = Some p → Tag p = t ∧ encodable p.

(** An extension parameter has a tag M3UA does not know. *)
Definition ext_ok (o : option Param) : Prop :=
  ∃ p, o = Some p ∧ IsKnownM3UAParameterTag (Tag p) = false ∧ encodable p.

Definition set_length (o : option Param) : option Param := SetLength <$> o.

Lemma nestedData_encodable data ps :
  Forall encodable (params_of ps) →
  nestedData data ps = Ok (data ++ concat (wire <$> params_of ps)).
Proof.
  revert data; induction ps as [|[p|] ps IH]; intros data; cbn.
  - by rewrite app_nil_r.
  - intros [Hp Hps]%Forall_cons.
    rewrite (proj2 (MarshalBinary_Ok p _ (enc_tag p Hp)) (conj Hp eq_refl)).
    by rewrite IH, <-app_assoc.
  - auto.
Qed.

Lemma newNestedParam_encodable t ps :
  Forall encodable (params_of ps) →
  params_size (params_of ps) ≤ maxParamValueLength →
  newNestedParam t ps =
  Ok (mkParam t (4 + params_size (params_of ps)) (concat (wire <$> params_of ps))).
Proof.
  intros He Hl. unfold newNestedParam. rewrite nestedData_encodable by done.
  cbn. by rewrite SetLength_encodable.
Qed.

(** A list of scalars read back at any depth. *)
Lemma parseMulti_scalars d ps :
  Forall encodable ps → Forall (λ p, isContainer (Tag p) = false) ps →
  parseMultiParamsAtDepth validateValue (concat (wire <$> ps)) d = Ok (SetLength <$> ps).
Proof.
  intros He Hs. apply parseMulti_wire. apply Forall_forall. intros p Hp.
  rewrite Forall_forall in He, Hs. pose proof (He p Hp) as Hep.
  split_and!; [apply Hep|apply Hep|]. apply encodable_accepted_at; auto.
Qed.

Lemma known_container t : IsKnownM3UAParameterTag t = false → isContainer t = false.
Proof.
  intros H. apply not_true_iff_false. intros Hc.
  by apply container_cases in Hc as [-> | [-> | ->]].
Qed.

(** The extension parameters of each container are collected in order. *)
Lemma fold_ext {A} (step : A → Param → result error A) (add : A → option Param → A) s l :
  (∀ s p, IsKnownM3UAParameterTag (Tag p) = false → step s p = Ok (add s (Some p))) →
  Forall ext_ok l →
  foldM step s (params_of (set_length <$> l)) = Ok (foldl add s (set_length <$> l)).
Proof.
  intros Hstep Hl. revert s. induction Hl as [|o l (p & -> & Hp & He) Hl IH]; intros s; [done|].
  cbn. rewrite Hstep by (by rewrite Tag_SetLength). apply IH.
Qed.

Lemma params_of_app l k : params_of (l ++ k) = params_of l ++ params_of k.
Proof. apply omap_app. Qed.
Lemma params_of_set_length l :
  SetLength <$> params_of l = params_of (set_length <$> l).
Proof. unfold params_of. induction l as [|[p|] l IH]; [done|by cbn; f_equal|exact IH]. Qed.

Lemma known_step_false p : IsKnownM3UAParameterTag (Tag p) = false →
  Forall (λ t, (Tag p =? t) = false)
    [LocalRoutingKeyIdentifier; RoutingContext; TrafficModeType; DestinationPointCode;
     NetworkAppearance; ServiceIndicators; OriginatingPointCodeList;
     RegistrationStatus; DeregistrationStatus].
Proof.
  intros H. repeat constructor; apply not_true_iff_false; intros Ht%Z.eqb_eq;
    by rewrite Ht in H.
Qed.

Ltac known_step H :=
  pose proof (known_step_false _ H) as Hk; rewrite !Forall_cons in Hk;
  destruct Hk as (K1 & K2 & K3 & K4 & K5 & K6 & K7 & K8 & K9 & _).

Section routing_key.
Definition group_ok (g : RoutingKeyGroup) : Prop :=
  is_Some (Group_DestinationPointCode g) ∧
  sub_ok DestinationPointCode (Group_DestinationPointCode g) ∧
  sub_ok ServiceIndicators (Group_ServiceIndicators g) ∧
  (∀ p, Group_ServiceIndicators g = Some p → bytesContain (Data p) 0 = false) ∧
  sub_ok OriginatingPointCodeList (Group_OriginatingPointCodeList g).

Record routing_key_ok (rk : RoutingKeyPayload) : Prop := {
  rk_id : is_Some (RK_LocalRoutingKeyIdentifier rk);
  rk_id_ok : sub_ok LocalRoutingKeyIdentifier (RK_LocalRoutingKeyIdentifier rk);
  rk_rc_ok : sub_ok RoutingContext (RK_RoutingContext rk);
  rk_rc_len : ∀ p, RK_RoutingContext rk = Some p → len (Data p) = 4;
  rk_tm_ok : sub_ok TrafficModeType (RK_TrafficModeType rk);
  rk_na_ok : sub_ok NetworkAppearance (RK_NetworkAppearance rk);
  rk_groups : RK_Groups rk ≠ [];
  rk_groups_ok : Forall group_ok (RK_Groups rk);
  rk_others_ok : Forall ext_ok (RK_Others rk);
}.

Definition group_set_length (g : RoutingKeyGroup) : RoutingKeyGroup :=
  mkGroup (set_length (Group_DestinationPointCode g))
    (set_length (Group_ServiceIndicators g))
    (set_length (Group_OriginatingPointCodeList g)).

(** The payload with the [Length] of every parameter set. *)
Definition routing_key_set_length (rk : RoutingKeyPayload) : RoutingKeyPayload :=
  mkRoutingKey (set_length (RK_LocalRoutingKeyIdentifier rk))
    (set_length (RK_RoutingContext rk)) (set_length (RK_TrafficModeType rk))
    (set_length (RK_NetworkAppearance rk)) (group_set_length <$> RK_Groups rk)
    (set_length <$> RK_Others rk).

Lemma update_last_snoc f l g : update_last f (l ++ [g]) = g' ← f g; Ok (l ++ [g']).
Proof.
  induction l as [|g1 l IH]; [done|]. cbn [app].
  destruct l as [|g2 l]; cbn [app update_last] in *; rewrite ?IH; by destruct (f g).
Qed.

Lemma routingKeyStep_ext s p :
  IsKnownM3UAParameterTag (Tag p) = false →
  routingKeyStep s p =
  Ok (mkRoutingKey (RK_LocalRoutingKeyIdentifier s) (RK_RoutingContext s)
        (RK_TrafficModeType s) (RK_NetworkAppearance s) (RK_Groups s)
        (RK_Others s ++ [Some p])).
Proof.
  intros H. known_step H. destruct s; unfold routingKeyStep.
  by rewrite K1, K2, K3, K4, K5, K6, K7, H.
Qed.

(** One optional parameter of the list; each step finds its field unset. *)
Ltac fold_opt o :=
  let H := fresh in intros H; destruct o as [p|];
  [destruct (H p eq_refl) as [Ht _];
   cbn [set_length fmap option_fmap option_map params_of omap list_omap id foldM];
   unfold routingKeyStep; rewrite !Tag_SetLength, !Ht; cbn
  |try reflexivity].

Lemma fold_id o rc tm na gs oth l :
  sub_ok LocalRoutingKeyIdentifier o →
  foldM routingKeyStep (mkRoutingKey None rc tm na gs oth) (params_of (set_length o :: l)) =
  foldM routingKeyStep (mkRoutingKey (set_length o) rc tm na gs oth) (params_of l).
Proof. by fold_opt o. Qed.
Lemma fold_rc o rk tm na gs oth l :
  sub_ok RoutingContext o →
  foldM routingKeyStep (mkRoutingKey rk None tm na gs oth) (params_of (set_length o :: l)) =
  foldM routingKeyStep (mkRoutingKey rk (set_length o) tm na gs oth) (params_of l).
Proof. by fold_opt o. Qed.
Lemma fold_tm o rk rc na gs oth l :
  sub_ok TrafficModeType o →
  foldM routingKeyStep (mkRoutingKey rk rc None na gs oth) (params_of (set_length o :: l)) =
  foldM routingKeyStep (mkRoutingKey rk rc (set_length o) na gs oth) (params_of l).
Proof. by fold_opt o. Qed.
Lemma fold_na o rk rc tm gs oth l :
  sub_ok NetworkAppearance o →
  foldM routingKeyStep (mkRoutingKey rk rc tm None gs oth) (params_of (set_length o :: l)) =
  foldM routingKeyStep (mkRoutingKey rk rc tm (set_length o) gs oth) (params_of l).
Proof. by fold_opt o. Qed.
Lemma fold_dpc o rk rc tm na gs oth l :
  is_Some o → sub_ok DestinationPointCode o →
  foldM routingKeyStep (mkRoutingKey rk rc tm na gs oth) (params_of (set_length o :: l)) =
  foldM routingKeyStep
    (mkRoutingKey rk rc tm na (gs ++ [mkGroup (set_length o) None None]) oth) (params_of l).
Proof. intros Hs. fold_opt o; [done|by destruct Hs]. Qed.
Lemma fold_si o dpc rk rc tm na gs oth l :
  sub_ok ServiceIndicators o → (∀ p, o = Some p → bytesContain (Data p) 0 = false) →
  foldM routingKeyStep (mkRoutingKey rk rc tm na (gs ++ [mkGroup dpc None None]) oth)
    (params_of (set_length o :: l)) =
  foldM routingKeyStep
    (mkRoutingKey rk rc tm na (gs ++ [mkGroup dpc (set_length o) None]) oth) (params_of l).
Proof.
  intros Hs H0. revert Hs. fold_opt o. rewrite update_last_snoc. cbn.
  by rewrite Data_SetLength, (H0 p).
Qed.
Lemma fold_opcs o dpc si rk rc tm na gs oth l :
  sub_ok OriginatingPointCodeList o →
  foldM routingKeyStep (mkRoutingKey rk rc tm na (gs ++ [mkGroup dpc si None]) oth)
    (params_of (set_length o :: l)) =
  foldM routingKeyStep
    (mkRoutingKey rk rc tm na (gs ++ [mkGroup dpc si (set_length o)]) oth) (params_of l).
Proof. fold_opt o. by rewrite update_last_snoc. Qed.

(** The groups after the first, then the extension parameters. *)
Lemma fold_groups n rk rc tm na gs0 gs oth na' l :
  Forall group_ok gs →
  foldM routingKeyStep (mkRoutingKey rk rc tm na gs0 oth)
    (params_of ((set_length <$>
       concat (imap (λ i, routingKeyGroupParams na' (S (n + i))) gs)) ++ l)) =
  foldM routingKeyStep
    (mkRoutingKey rk rc tm na (gs0 ++ (group_set_length <$> gs)) oth) (params_of l).
Proof.
  intros H. revert n gs0. induction H as [|g gs (H1 & H2 & H3 & H4 & H5) Hgs IH];
    intros n gs0; cbn [imap concat fmap list_fmap app].
  { by rewrite app_nil_r. }
  unfold routingKeyGroupParams at 1. rewrite bool_decide_false by lia.
  cbn [app fmap list_fmap]. rewrite fold_dpc, fold_si, fold_opcs by done.
  erewrite (imap_ext _ (λ i, routingKeyGroupParams na' (S (S n + i)))).
  - rewrite IH, <-app_assoc. done.
  - intros i ? _. cbn. by rewrite Nat.add_succ_r.
Qed.

Lemma fold_routing_key rk :
  routing_key_ok rk →
  foldM routingKeyStep (mkRoutingKey None None None None [] [])
    (params_of (set_length <$> routingKeyParams rk)) = Ok (routing_key_set_length rk).
Proof.
  intros []. unfold routingKeyParams. rewrite !fmap_app. cbn [fmap list_fmap app].
  rewrite fold_id, fold_rc, fold_tm by done.
  destruct (RK_Groups rk) as [|g gs] eqn:Hg; [done|].
  apply Forall_cons in rk_groups_ok0 as [(H1 & H2 & H3 & H4 & H5) Hgs].
  cbn [imap concat]. unfold routingKeyGroupParams at 1. cbn [bool_decide decide_rel].
  rewrite bool_decide_true by done. cbn [app fmap list_fmap].
  rewrite fold_dpc, fold_na, fold_si, fold_opcs by done.
  erewrite (imap_ext _ (λ i, routingKeyGroupParams (RK_NetworkAppearance rk) (S (0 + i))))
    by done.
  rewrite fold_groups by done.
  rewrite (fold_ext _ (λ s o, mkRoutingKey (RK_LocalRoutingKeyIdentifier s)
        (RK_RoutingContext s) (RK_TrafficModeType s) (RK_NetworkAppearance s)
        (RK_Groups s) (RK_Others s ++ [o])));
    [|by intros; apply routingKeyStep_ext|done].
  assert (∀ os rk rc tm na gs oth, foldl (λ s o, mkRoutingKey
        (RK_LocalRoutingKeyIdentifier s)
        (RK_RoutingContext s) (RK_TrafficModeType s) (RK_NetworkAppearance s)
        (RK_Groups s) (RK_Others s ++ [o])) (mkRoutingKey rk rc tm na gs oth) os =
        mkRoutingKey rk rc tm na gs (oth ++ os)) as ->.
  { induction os as [|o os IH]; intros; cbn; [by rewrite app_nil_r|].
    by rewrite IH, <-app_assoc. }
  unfold routing_key_set_length. by rewrite Hg.
Qed.
End routing_key.

(** ** The parameters a constructor puts on the wire *)

Definition scalar_ok (o : option Param) : Prop :=
  ∀ p, o = Some p → encodable p ∧ isContainer (Tag p) = false.

Lemma sub_ok_scalar t o : isContainer t = false → sub_ok t o → scalar_ok o.
Proof. intros Ht H p Hp. by destruct (H p Hp) as [-> ?]. Qed.
Lemma ext_ok_scalar o : ext_ok o → scalar_ok o.
Proof. intros (p & -> & H & He) q [= <-]. eauto using known_container. Qed.
Lemma scalar_ok_None : scalar_ok None.
Proof. by intros p. Qed.

Lemma scalar_ok_Forall l :
  Forall scalar_ok l →
  Forall encodable (params_of l) ∧ Forall (λ p, isContainer (Tag p) = false) (params_of l).
Proof.
  unfold params_of. induction 1 as [|[p|] l Hp _ [IH1 IH2]]; cbn; [done| |done].
  destruct (Hp p eq_refl). by split; constructor.
Qed.

(** The value of a container built from scalars decodes to those scalars. *)
Lemma parse_scalars d l :
  Forall scalar_ok l →
  parseMultiParamsAtDepth validateValue (concat (wire <$> params_of l)) d =
  Ok (params_of (set_length <$> l)).
Proof.
  intros [He Hs]%scalar_ok_Forall. by rewrite parseMulti_scalars, params_of_set_length.
Qed.

(** [Forall scalar_ok] of a literal list, cell by cell. *)
Ltac scalar_list :=
  repeat first [apply Forall_nil_2|apply Forall_cons_2]; auto with scalar.

Create HintDb scalar.
#[export] Hint Resolve scalar_ok_None ext_ok_scalar : scalar.
#[export] Hint Extern 2 (scalar_ok _) =>
  eapply sub_ok_scalar; [|eassumption]; reflexivity : scalar.

Lemma encodable_container t ps :
  isContainer t = true →
  params_size ps ≤ maxParamValueLength →
  validateValue t (concat (wire <$> ps)) 0 = Ok tt →
  encodable (mkParam t (4 + params_size ps) (concat (wire <$> ps))).
Proof.
  intros Ht Hl Hv. constructor; cbn [Tag Data]; [|done| |done];
    apply container_cases in Ht as [-> | [-> | ->]]; done.
Qed.

Section container_roundtrips.
Lemma routingKeyParams_scalar rk :
  routing_key_ok rk → Forall scalar_ok (routingKeyParams rk).
Proof.
  intros []. unfold routingKeyParams. repeat apply Forall_app_2.
  - scalar_list.
  - apply Forall_concat, Forall_lookup. intros i l Hl.
    rewrite list_lookup_imap in Hl. apply fmap_Some in Hl as (g & Hg & ->).
    eapply Forall_lookup in rk_groups_ok0 as (H1 & H2 & H3 & H4 & H5); [|done].
    unfold routingKeyGroupParams. apply Forall_cons_2; [auto with scalar|].
    apply Forall_app_2; [case_bool_decide|]; scalar_list.
  - eapply Forall_impl; [done|]. auto with scalar.
Qed.

Lemma ParseRoutingKey_params rk :
  routing_key_ok rk →
  ParseRoutingKeyPayload (concat (wire <$> params_of (routingKeyParams rk))) =
  Ok (routing_key_set_length rk).
Proof.
  intros Hrk. unfold ParseRoutingKeyPayload, parseRoutingKeyPayloadAtDepth.
  rewrite parse_scalars by by apply routingKeyParams_scalar.
  cbn [mbind result_bind]. rewrite fold_routing_key by done.
  cbn [mbind result_bind]. destruct Hrk as [Hid _ _ Hlen _ _ Hg _ _].
  rewrite bool_decide_true by by apply fmap_is_Some.
  assert ((len (RK_Groups (routing_key_set_length rk)) =? 0) = false) as ->.
  { cbn. apply Z.eqb_neq. unfold len. rewrite length_fmap. by destruct (RK_Groups rk). }
  cbn [ensure negb mbind result_bind].
  assert (match RK_RoutingContext (routing_key_set_length rk) with
    | Some rc => ensure (len (Data rc) =? 4) ErrInvalidLength
    | None => Ok ()
    end = Ok ()) as ->; [|done].
  cbn. destruct (RK_RoutingContext rk) as [rc|]; cbn; [|done].
  by rewrite Data_SetLength, Hlen.
Qed.

(** *** Registration Result *)

Definition registered (status : Z) : bool :=
  (status =? SuccessfullyRegistered) || (status =? RoutingKeyAlreadyRegistered).

(** RFC 4666 Section 3.6.2: the Routing Context is zero exactly when the
    registration failed. *)
Record registration_result_ok (lrk st rc : Param) (status routingContext : Z)
    (others : list (option Param)) : Prop := {
  rr_id : Tag lrk = LocalRoutingKeyIdentifier ∧ encodable lrk;
  rr_st : Tag st = RegistrationStatus ∧ encodable st;
  rr_rc : Tag rc = RoutingContext ∧ encodable rc;
  rr_status : Data st = PutUint32 status;
  rr_status_u32 : is_u32 status;
  rr_context : Data rc = PutUint32 routingContext;
  rr_context_u32 : is_u32 routingContext;
  rr_consistent : registered status = negb (routingContext =? 0);
  rr_others : Forall ext_ok others;
}.

Lemma get_RoutingContext_word p rc :
  Tag p = RoutingContext → Data p = PutUint32 rc → is_u32 rc →
  get_RoutingContext (Some p) = Ok rc.
Proof.
  intros Ht Hd Hr. unfold get_RoutingContext, get_RoutingContexts.
  rewrite Ht. cbn [Z.eqb]. unfold decodeMultiUint32ValData. rewrite Hd.
  change (RoutingContext =? RoutingContext) with true.
  change (len (PutUint32 rc)) with 4. cbn [Z.modulo Z.eqb].
  change (Z.to_nat (4 / 4)) with 1%nat. change (4 mod 4 =? 0) with true.
  cbn [decode_words]. change (0 * 4) with 0. change ((0 + 1) * 4) with (len (PutUint32 rc)).
  pose proof (slice_prefix (E:=error) (PutUint32 rc) []) as Hs.
  rewrite app_nil_r in Hs. rewrite Hs. cbn [mbind result_bind].
  by rewrite Uint32_Put.
Qed.

Lemma uint32_accessor_word t p u :
  Tag p = t → Data p = PutUint32 u → is_u32 u → uint32_accessor t p = Ok u.
Proof.
  intros Ht Hd Hu. unfold uint32_accessor, decodeUint32ValData.
  rewrite Ht, Z.eqb_refl, Hd. change (len (PutUint32 u) =? 4) with true.
  by apply Uint32_Put.
Qed.

Lemma registrationResultStep_ext s p :
  IsKnownM3UAParameterTag (Tag p) = false →
  registrationResultStep s p =
  Ok (mkRegResult (RR_LocalRoutingKeyIdentifier s) (RR_RegistrationStatus s)
        (RR_RoutingContext s) (RR_Others s ++ [Some p])).
Proof.
  intros H. known_step H. destruct s; unfold registrationResultStep.
  by rewrite K1, K8, K2, H.
Qed.

Lemma deregResultStep_ext s p :
  IsKnownM3UAParameterTag (Tag p) = false →
  deregResultStep s p =
  Ok (mkDeregResult (DR_RoutingContext s) (DR_DeregistrationStatus s)
        (DR_Others s ++ [Some p])).
Proof.
  intros H. known_step H. destruct s; unfold deregResultStep. by rewrite K2, K9, H.
Qed.

Lemma fold_registration lrk st rc status routingContext others :
  registration_result_ok lrk st rc status routingContext others →
  foldM registrationResultStep (mkRegResult None None None [])
    (params_of (set_length <$> ([Some lrk; Some st; Some rc] ++ others))) =
  Ok (mkRegResult (Some (SetLength lrk)) (Some (SetLength st)) (Some (SetLength rc))
        (set_length <$> others)).
Proof.
  intros [[T1 _] [T2 _] [T3 _] _ _ _ _ _ Ho]. rewrite fmap_app, params_of_app, foldM_app.
  cbn [fmap list_fmap set_length option_fmap option_map params_of omap list_omap id foldM].
  unfold registrationResultStep at 2 3 4. rewrite !Tag_SetLength, T1, T2, T3. cbn.
  rewrite (fold_ext _ (λ s o, mkRegResult (RR_LocalRoutingKeyIdentifier s)
    (RR_RegistrationStatus s) (RR_RoutingContext s) (RR_Others s ++ [o])));
    [|by intros; apply registrationResultStep_ext|done].
  assert (∀ os a b c oth, foldl (λ s o, mkRegResult (RR_LocalRoutingKeyIdentifier s)
    (RR_RegistrationStatus s) (RR_RoutingContext s) (RR_Others s ++ [o]))
    (mkRegResult a b c oth) os = mkRegResult a b c (oth ++ os)) as ->; [|done].
  induction os as [|o os IH]; intros; cbn; [by rewrite app_nil_r|].
  by rewrite IH, <-app_assoc.
Qed.

Lemma ParseRegistrationResult_params lrk st rc status routingContext others :
  registration_result_ok lrk st rc status routingContext others →
  ParseRegistrationResultPayload
    (concat (wire <$> params_of ([Some lrk; Some st; Some rc] ++ others))) =
  Ok (mkRegResult (Some (SetLength lrk)) (Some (SetLength st)) (Some (SetLength rc))
        (set_length <$> others)).
Proof.
  intros Hrr. unfold ParseRegistrationResultPayload, parseRegistrationResultPayloadAtDepth.
  rewrite parse_scalars.
  2: { destruct Hrr as [[T1 E1] [T2 E2] [T3 E3] _ _ _ _ _ Ho].
       apply Forall_app_2; [|eapply Forall_impl; [done|]; auto with scalar].
       repeat first [apply Forall_nil_2|apply Forall_cons_2];
         intros q [= <-]; rewrite ?T1, ?T2, ?T3; done. }
  cbn [mbind result_bind]. rewrite (fold_registration _ _ _ _ _ _ Hrr).
  destruct Hrr as [_ [T2 _] [T3 _] D2 U2 D3 U3 Hc _].
  cbn [mbind result_bind RR_LocalRoutingKeyIdentifier RR_RegistrationStatus RR_RoutingContext].
  rewrite Data_SetLength, D3. change (len (PutUint32 routingContext) =? 4) with true.
  cbn [ensure mbind result_bind].
  unfold get_RegistrationStatus. rewrite (uint32_accessor_word _ _ status);
    [|by rewrite ?Tag_SetLength, ?Data_SetLength..].
  cbn [mbind result_bind]. rewrite (get_RoutingContext_word _ routingContext);
    [|by rewrite ?Tag_SetLength, ?Data_SetLength..].
  cbn [mbind result_bind]. fold (registered status). rewrite Hc.
  by destruct (routingContext =? 0).
Qed.
End container_roundtrips.
