(* ===== verification/ParamsTheory.v ===== *)
(** * Theorems on the parameter codec (package messages/params)

    Lists of parameters and the three containers: round trips, safety, the
    independence of acceptance from the nesting depth, and what a decoded
    container holds. *)

From S2P Require Import Prelude Params ParamsFacts Nested.

(** ** Deregistration Result *)

Record dereg_result_ok (rc st : Param) (others : list (option Param)) : Prop := {
  dr_rc : Tag rc = RoutingContext ∧ encodable rc;
  dr_rc_len : len (Data rc) = 4;
  dr_st : Tag st = DeregistrationStatus ∧ encodable st;
  dr_others : Forall ext_ok others;
}.

Lemma fold_dereg rc st others :
  dereg_result_ok rc st others →
  foldM deregResultStep (mkDeregResult None None [])
    (params_of (set_length <$> ([Some rc; Some st] ++ others))) =
  Ok (mkDeregResult (Some (SetLength rc)) (Some (SetLength st)) (set_length <$> others)).
Proof.
  intros [[T1 _] _ [T2 _] Ho]. rewrite fmap_app, params_of_app, foldM_app.
  cbn [fmap list_fmap set_length option_fmap option_map params_of omap list_omap id foldM].
  unfold deregResultStep at 2 3. rewrite !Tag_SetLength, T1, T2. cbn.
  rewrite (fold_ext _ (λ s o, mkDeregResult (DR_RoutingContext s)
    (DR_DeregistrationStatus s) (DR_Others s ++ [o])));
    [|by intros; apply deregResultStep_ext|done].
  assert (∀ os a b oth, foldl (λ s o, mkDeregResult (DR_RoutingContext s)
    (DR_DeregistrationStatus s) (DR_Others s ++ [o]))
    (mkDeregResult a b oth) os = mkDeregResult a b (oth ++ os)) as ->; [|done].
  induction os as [|o os IH]; intros; cbn; [by rewrite app_nil_r|].
  by rewrite IH, <-app_assoc.
Qed.

Lemma ParseDeregResult_params rc st others :
  dereg_result_ok rc st others →
  ParseDeregResultPayload (concat (wire <$> params_of ([Some rc; Some st] ++ others))) =
  Ok (mkDeregResult (Some (SetLength rc)) (Some (SetLength st)) (set_length <$> others)).
Proof.
  intros Hdr. unfold ParseDeregResultPayload, parseDeregResultPayloadAtDepth.
  rewrite parse_scalars.
  2: { destruct Hdr as [[T1 E1] _ [T2 E2] Ho].
       apply Forall_app_2; [|eapply Forall_impl; [done|]; auto with scalar].
       repeat first [apply Forall_nil_2|apply Forall_cons_2];
         intros q [= <-]; rewrite ?T1, ?T2; done. }
  cbn [mbind result_bind]. rewrite (fold_dereg _ _ _ Hdr).
  destruct Hdr as [_ Hl _ _]. cbn. by rewrite Data_SetLength, Hl.
Qed.

(** ** What a decoded Routing Key holds *)

Definition has_tag (t : Z) (o : option Param) : Prop := ∀ p, o = Some p → Tag p = t.

Record group_sound (g : RoutingKeyGroup) : Prop := {
  gs_dpc : is_Some (Group_DestinationPointCode g);
  gs_dpc_tag : has_tag DestinationPointCode (Group_DestinationPointCode g);
  gs_si : has_tag ServiceIndicators (Group_ServiceIndicators g);
  gs_si_nonzero : ∀ p, Group_ServiceIndicators g = Some p → bytesContain (Data p) 0 = false;
  gs_opcs : has_tag OriginatingPointCodeList (Group_OriginatingPointCodeList g);
}.

Record routing_key_sound (rk : RoutingKeyPayload) : Prop := {
  rs_id : has_tag LocalRoutingKeyIdentifier (RK_LocalRoutingKeyIdentifier rk);
  rs_rc : has_tag RoutingContext (RK_RoutingContext rk);
  rs_tm : has_tag TrafficModeType (RK_TrafficModeType rk);
  rs_na : has_tag NetworkAppearance (RK_NetworkAppearance rk);
  rs_groups : Forall group_sound (RK_Groups rk);
  rs_others : Forall (λ o, ∃ p, o = Some p ∧ IsKnownM3UAParameterTag (Tag p) = false)
                (RK_Others rk);
}.

Lemma update_last_Forall (P : RoutingKeyGroup → Prop) f l l' :
  (∀ g g', P g → f g = Ok g' → P g') →
  Forall P l → update_last f l = Ok l' → Forall P l'.
Proof.
  intros Hf Hl. revert l'. induction Hl as [|g l Hg Hl IH]; intros l'; [done|].
  destruct l as [|g2 l]; cbn [update_last].
  - intros H. apply bind_Ok in H as (g' & Hg' & [= <-]). constructor; [by eapply Hf|done].
  - intros H. apply bind_Ok in H as (l'' & Hl'' & [= <-]). constructor; [done|by apply IH].
Qed.

Lemma set_once_tag t o p r : Tag p = t → set_once o p = Ok r → has_tag t r.
Proof. intros Ht H. destruct o; [done|]. injection H as <-. by intros q [= <-]. Qed.

Lemma has_tag_None t : has_tag t None.
Proof. by intros p. Qed.
Lemma has_tag_Some t p : Tag p = t → has_tag t (Some p).
Proof. by intros ? q [= <-]. Qed.
#[local] Hint Resolve has_tag_None has_tag_Some : core.

Lemma routingKeyStep_sound d p d' :
  routing_key_sound d → routingKeyStep d p = Ok d' → routing_key_sound d'.
Proof.
  destruct d as [rk rc tm na gs os]. intros [H1 H2 H3 H4 H5 H6] H.
  cbn in H1, H2, H3, H4, H5, H6. unfold routingKeyStep in H.
  repeat match type of H with
  | (if Tag p =? ?t then _ else _) = _ =>
      let E := fresh "E" in destruct (Tag p =? t) eqn:E; to_prop
  | (_ ≫= _) = Ok _ => let r := fresh "r" in let Hr := fresh "Hr" in
      apply bind_Ok in H; destruct H as (r & Hr & H)
  end; [..|destruct (IsKnownM3UAParameterTag (Tag p)) eqn:K; [done|]];
    injection H as <-; (constructor; cbn; try done);
    try (by eapply set_once_tag).
  - apply Forall_app. split; [done|]. apply Forall_singleton.
    constructor; cbn; try done; auto.
  - eapply update_last_Forall, Hr; [|done]. intros [dpc si opcs] g' [G1 G2 G3 G4 G5] Hg.
    apply bind_Ok in Hg as (si' & Hsi & Hg). destruct (bytesContain _ _) eqn:Hz; [done|].
    injection Hg as <-. constructor; cbn in *; try done; [by eapply set_once_tag|].
    intros q Hq. destruct si; [done|]. injection Hsi as <-. by injection Hq as <-.
  - eapply update_last_Forall, Hr; [|done]. intros [dpc si opcs] g' [G1 G2 G3 G4 G5] Hg.
    apply bind_Ok in Hg as (o' & Ho & [= <-]). constructor; cbn in *; try done.
    by eapply set_once_tag.
  - apply Forall_app. split; [done|]. apply Forall_singleton. by exists p.
Qed.

Lemma routing_key_sound_empty : routing_key_sound (mkRoutingKey None None None None [] []).
Proof. constructor; cbn; auto. Qed.

(** ** Theorems *)

(** Lists of parameters.  What [MarshalMultiParams] encodes,
    [ParseMultiParams] decodes to the same parameters in the same order, and
    the encoder sets their lengths. *)
Theorem MultiParams_roundtrip ps ps' b :
  Forall (λ p, is_u16 (Tag p)) ps → MarshalMultiParams ps = Ok (ps', b) →
  ps' = SetLength <$> ps ∧ ParseMultiParams b = Ok ps'.
Proof.
  intros Ht H. apply MarshalMultiParams_Ok in H as [He [= -> ->]]; [|done].
  split; [done|]. apply parseMulti_wire. eapply Forall_impl; [exact He|].
  intros p Hp. split_and!; [apply Hp|apply Hp|by apply encodable_accepted].
Qed.

(** Decoding a list and encoding it again.  A list [ParseMultiParams]
    returns can be encoded unchanged, and the octets decode to it again: the
    decoder only forgets the value of the padding. *)
Theorem MultiParams_reencode b ps :
  ParseMultiParams b = Ok ps →
  ∃ b', MarshalMultiParams ps = Ok (ps, b') ∧ ParseMultiParams b' = Ok ps ∧
        len b' ≤ len b + 3.
Proof.
  intros H. pose proof (parseMulti_accepted _ _ _ _ H) as Ha.
  assert (Forall encodable ps ∧ SetLength <$> ps = ps) as [He Hs].
  { clear H. induction Ha as [|p ps Hp _ [IH1 IH2]]; [done|].
    apply accepted_encodable in Hp as [He HL]. rewrite fmap_cons, IH2.
    rewrite SetLength_encodable by apply He. rewrite <-HL.
    split; [by constructor|by destruct p]. }
  assert (Forall (λ p, is_u16 (Tag p)) ps) as Ht.
  { eapply Forall_impl; [exact He|]. intros p Hp. apply Hp. }
  exists (concat (wire <$> ps)). split; [|split].
  - apply MarshalMultiParams_Ok; [done|]. by rewrite Hs.
  - unfold ParseMultiParams. rewrite parseMulti_wire; [by rewrite Hs|].
    eapply Forall_impl; [exact He|]. intros p Hp.
    split_and!; [apply Hp|apply Hp|by apply encodable_accepted].
  - by eapply parseMulti_size.
Qed.

(** The Routing Key parameter.  A well-formed payload that fits a
    parameter is encoded by [NewRoutingKey], the parameter passes the value
    rules of its tag, and reading it back gives the payload with its lengths
    set: the groups in order, the Network Appearance outside them. *)
Theorem RoutingKey_roundtrip rk :
  routing_key_ok rk →
  params_size (params_of (routingKeyParams rk)) ≤ maxParamValueLength →
  ∃ p, NewRoutingKey (Some rk) = Ok p ∧ encodable p ∧
       get_RoutingKey p = Ok (routing_key_set_length rk).
Proof.
  intros Hrk Hl. pose proof (ParseRoutingKey_params rk Hrk) as Hp.
  pose proof (scalar_ok_Forall _ (routingKeyParams_scalar rk Hrk)) as [He _].
  eexists. split; [|split].
  - unfold NewRoutingKey. rewrite (proj2 (Z.eqb_neq _ _)).
    2: { destruct Hrk. destruct (RK_Groups rk); [done|]. rewrite len_cons.
         pose proof (len_nonneg l). lia. }
    assert (existsb (λ g, negb (bool_decide (is_Some (Group_DestinationPointCode g))))
      (RK_Groups rk) = false) as ->.
    { destruct Hrk as [_ _ _ _ _ _ _ Hg _]. induction Hg as [|g gs [Hg _] _ IH]; [done|].
      cbn. by rewrite bool_decide_true. }
    by apply newNestedParam_encodable.
  - apply encodable_container; [done|done|]. apply validate_routing_key. eauto.
  - unfold get_RoutingKey. exact Hp.
Qed.

(** The Registration Result parameter: the same, for a result whose
    Routing Context is zero exactly when the registration failed. *)
Theorem RegistrationResult_roundtrip lrk st rc status routingContext others :
  registration_result_ok lrk st rc status routingContext others →
  params_size (params_of ([Some lrk; Some st; Some rc] ++ others)) ≤ maxParamValueLength →
  ∃ p, NewRegistrationResult
         (Some (mkRegResult (Some lrk) (Some st) (Some rc) others)) = Ok p ∧
       encodable p ∧
       get_RegistrationResult p =
       Ok (mkRegResult (Some (SetLength lrk)) (Some (SetLength st)) (Some (SetLength rc))
             (set_length <$> others)).
Proof.
  intros Hrr Hl. pose proof (ParseRegistrationResult_params _ _ _ _ _ _ Hrr) as Hp.
  assert (Forall encodable (params_of ([Some lrk; Some st; Some rc] ++ others))) as He.
  { destruct Hrr as [[_ E1] [_ E2] [_ E3] _ _ _ _ _ Ho].
    do 3 (apply Forall_cons_2; [done|]).
    apply (scalar_ok_Forall others). eapply Forall_impl; [exact Ho|]. auto with scalar. }
  eexists. split; [by apply newNestedParam_encodable|]. split; [|exact Hp].
  apply encodable_container; [done|done|]. apply validate_registration_result. eauto.
Qed.

(** The Deregistration Result parameter: the same. *)
Theorem DeregistrationResult_roundtrip rc st others :
  dereg_result_ok rc st others →
  params_size (params_of ([Some rc; Some st] ++ others)) ≤ maxParamValueLength →
  ∃ p, NewDeregistrationResult (Some (mkDeregResult (Some rc) (Some st) others)) = Ok p ∧
       encodable p ∧
       get_DeregistrationResult p =
       Ok (mkDeregResult (Some (SetLength rc)) (Some (SetLength st)) (set_length <$> others)).
Proof.
  intros Hdr Hl. pose proof (ParseDeregResult_params _ _ _ Hdr) as Hp.
  assert (Forall encodable (params_of ([Some rc; Some st] ++ others))) as He.
  { destruct Hdr as [[_ E1] _ [_ E2] Ho]. do 2 (apply Forall_cons_2; [done|]).
    apply (scalar_ok_Forall others). eapply Forall_impl; [exact Ho|]. auto with scalar. }
  eexists. split; [by apply newNestedParam_encodable|]. split; [|exact Hp].
  apply encodable_container; [done|done|]. apply validate_dereg_result. eauto.
Qed.

(** What a decoded Routing Key holds.  There is a Local Routing Key
    Identifier and at least one group, every group begins with a Destination
    Point Code, every parameter is in the field of its tag, no Service
    Indicator is zero and an extension parameter has no tag M3UA defines. *)
Theorem ParseRoutingKey_sound x rk :
  ParseRoutingKeyPayload x = Ok rk →
  is_Some (RK_LocalRoutingKeyIdentifier rk) ∧ RK_Groups rk ≠ [] ∧
  (∀ p, RK_RoutingContext rk = Some p → len (Data p) = 4) ∧
  routing_key_sound rk.
Proof.
  unfold ParseRoutingKeyPayload, parseRoutingKeyPayloadAtDepth. intros H.
  apply bind_Ok in H as (ps & _ & H). apply bind_Ok in H as (d & Hd & H).
  apply bind_Ok in H as ([] & Hid & H). apply bind_Ok in H as ([] & Hg & H).
  apply bind_Ok in H as ([] & Hrc & [= <-]).
  apply ensure_Ok, bool_decide_eq_true in Hid. apply ensure_Ok, negb_true_iff in Hg.
  split; [done|]. split; [by intros Hg0; rewrite Hg0 in Hg|]. split.
  - intros p Hp. rewrite Hp in Hrc. by apply ensure_Ok, Z.eqb_eq in Hrc.
  - eapply foldM_inv, Hd; [|apply routing_key_sound_empty].
    intros s a s' _. apply routingKeyStep_sound.
Qed.

(** The Routing Context of a decoded Registration Result is zero exactly
    when the status says the registration failed (RFC 4666 Section 3.6.2). *)
Theorem ParseRegistrationResult_consistent x rr :
  ParseRegistrationResultPayload x = Ok rr →
  ∃ lrk st rc status routingContext,
    rr = mkRegResult (Some lrk) (Some st) (Some rc) (RR_Others rr) ∧
    len (Data rc) = 4 ∧
    get_RegistrationStatus st = Ok status ∧
    get_RoutingContext (Some rc) = Ok routingContext ∧
    registered status = negb (routingContext =? 0).
Proof.
  unfold ParseRegistrationResultPayload, parseRegistrationResultPayloadAtDepth. intros H.
  apply bind_Ok in H as (ps & _ & H). apply bind_Ok in H as ([lrk st rc os] & _ & H).
  cbn in H. destruct lrk as [lrk|], st as [st|], rc as [rc|]; try done.
  apply bind_Ok in H as ([] & Hl & H). apply ensure_Ok, Z.eqb_eq in Hl.
  apply bind_Ok in H as (status & Hst & H). apply bind_Ok in H as (ctx & Hrc & H).
  apply bind_Ok in H as ([] & H1 & H). apply bind_Ok in H as ([] & H2 & [= <-]).
  apply ensure_Ok in H1, H2. exists lrk, st, rc, status, ctx.
  split_and!; try done. unfold registered.
  destruct (_ || _), (ctx =? 0); cbn in *; congruence.
Qed.

(** Acceptance does not depend on the nesting depth.  Up to the bound
    the code sets, a value is accepted at one depth exactly when it is
    accepted at any other, so no parameter is decoded differently inside a
    container than outside. *)
Theorem validateValue_any_depth tag x d d' :
  (d ≤ maxNestedContainerDepth)%nat → (d' ≤ maxNestedContainerDepth)%nat →
  validateValue tag x d = Ok tt ↔ validateValue tag x d' = Ok tt.
Proof. intros Hd Hd'. split; by apply validateValue_depth_le. Qed.

(** The parameter decoder returns on any octets: lists of parameters,
    single parameters and nested containers end within their fuel and never
    index out of range. *)
Theorem ParseParams_safe b :
  safe (ParseMultiParams b) ∧ safe (Parse b) ∧
  (∀ tag d, (d ≤ maxNestedContainerDepth)%nat →
     validateValueLength tag (len b) = Ok tt → safe (validateValue tag b d)).
Proof.
  split_and!; [apply safe_ParseMultiParams|apply safe_Parse|].
  intros tag d Hd Hv. apply safe_validateValue; [lia|done].
Qed.

(** ** The theorems on concrete parameters *)

Module Concrete.

Ltac concrete_encodable :=
  constructor; [split; vm_compute; congruence|vm_compute; congruence|vm_compute; reflexivity..].

Definition rc : Param := newUint32ValParam RoutingContext 7.
Definition id : Param := newUint32ValParam LocalRoutingKeyIdentifier 1.
Definition dpc : Param := newUint32ValParam DestinationPointCode 0x010203.
Definition info : Param := newVariableLenValParam InfoString [Byte.x61; Byte.x62].
Definition registered_status : Param := newUint32ValParam RegistrationStatus 0.
Definition deregistered_status : Param := newUint32ValParam DeregistrationStatus 0.

Lemma rc_encodable : encodable rc.
Proof. concrete_encodable. Defined.
Lemma id_encodable : encodable id.
Proof. concrete_encodable. Defined.
Lemma dpc_encodable : encodable dpc.
Proof. concrete_encodable. Defined.

Lemma some_ok t p : Tag p = t → encodable p → sub_ok t (Some p).
Proof. by intros ? ? ? [= <-]. Qed.
Lemma none_ok t : sub_ok t None.
Proof. by intros p. Qed.

Definition encoded_list : bytes := wire rc ++ wire info.

Lemma MultiParams_roundtrip_witness :
  [rc; info] = SetLength <$> [rc; info] ∧ ParseMultiParams encoded_list = Ok [rc; info].
Proof.
  apply (MultiParams_roundtrip [rc; info] [rc; info] encoded_list).
  - repeat constructor; vm_compute; congruence.
  - vm_compute. reflexivity.
Defined.

Lemma MultiParams_reencode_witness :
  ∃ b', MarshalMultiParams [rc; info] = Ok ([rc; info], b') ∧
    ParseMultiParams b' = Ok [rc; info] ∧ len b' ≤ len encoded_list + 3.
Proof. apply (MultiParams_reencode encoded_list). vm_compute. reflexivity. Defined.

Definition key : RoutingKeyPayload :=
  mkRoutingKey (Some id) (Some rc) None None [mkGroup (Some dpc) None None] [].

Lemma RoutingKey_roundtrip_witness :
  ∃ p, NewRoutingKey (Some key) = Ok p ∧ encodable p ∧
    get_RoutingKey p = Ok (routing_key_set_length key).
Proof.
  apply (RoutingKey_roundtrip key); [|vm_compute; congruence]. constructor; cbn.
  - done.
  - by apply some_ok, id_encodable.
  - by apply some_ok, rc_encodable.
  - by intros p [= <-].
  - apply none_ok.
  - apply none_ok.
  - done.
  - apply Forall_singleton. split_and!; [done|by apply some_ok, dpc_encodable|apply none_ok|
      done|apply none_ok].
  - constructor.
Defined.

Lemma RegistrationResult_roundtrip_witness :
  ∃ p, NewRegistrationResult
         (Some (mkRegResult (Some id) (Some registered_status) (Some rc) [])) = Ok p ∧
    encodable p ∧
    get_RegistrationResult p =
    Ok (mkRegResult (Some (SetLength id)) (Some (SetLength registered_status))
          (Some (SetLength rc)) (set_length <$> [])).
Proof.
  apply (RegistrationResult_roundtrip id registered_status rc 0 7 []);
    [|vm_compute; congruence].
  constructor; try (split; [reflexivity|concrete_encodable]); try reflexivity.
  - split; vm_compute; congruence.
  - split; vm_compute; congruence.
  - constructor.
Defined.

Lemma DeregistrationResult_roundtrip_witness :
  ∃ p, NewDeregistrationResult
         (Some (mkDeregResult (Some rc) (Some deregistered_status) [])) = Ok p ∧
    encodable p ∧
    get_DeregistrationResult p =
    Ok (mkDeregResult (Some (SetLength rc)) (Some (SetLength deregistered_status))
          (set_length <$> [])).
Proof.
  apply (DeregistrationResult_roundtrip rc deregistered_status []); [|vm_compute; congruence].
  constructor; try (split; [reflexivity|concrete_encodable]); [reflexivity|constructor].
Defined.

Lemma ParseRoutingKey_sound_witness :
  ∃ rk, ParseRoutingKeyPayload (wire id ++ wire dpc) = Ok rk ∧ RK_Groups rk ≠ [].
Proof.
  destruct (ParseRoutingKeyPayload (wire id ++ wire dpc)) as [rk|e| |] eqn:H;
    vm_compute in H; try discriminate H.
  exists rk. split; [done|].
  apply (ParseRoutingKey_sound (wire id ++ wire dpc) rk). vm_compute. exact H.
Defined.

Lemma ParseRegistrationResult_consistent_witness :
  ∃ lrk st rc' status routingContext,
    mkRegResult (Some id) (Some registered_status) (Some rc) [] =
      mkRegResult (Some lrk) (Some st) (Some rc') [] ∧
    len (Data rc') = 4 ∧
    get_RegistrationStatus st = Ok status ∧
    get_RoutingContext (Some rc') = Ok routingContext ∧
    registered status = negb (routingContext =? 0).
Proof.
  apply (ParseRegistrationResult_consistent
    (wire id ++ wire registered_status ++ wire rc)
    (mkRegResult (Some id) (Some registered_status) (Some rc) [])).
  vm_compute. reflexivity.
Defined.

Lemma validateValue_any_depth_witness :
  validateValue TrafficModeType [Byte.x00; Byte.x00; Byte.x00; Byte.x01] 0 = Ok tt ↔
  validateValue TrafficModeType [Byte.x00; Byte.x00; Byte.x00; Byte.x01] 64 = Ok tt.
Proof. apply (validateValue_any_depth TrafficModeType _ 0 64); vm_compute; lia. Defined.

Lemma ParseParams_safe_witness : safe (validateValue InfoString [] 3).
Proof.
  apply (ParseParams_safe []); [vm_compute; lia|]. vm_compute. reflexivity.
Defined.

End Concrete.
