(* ===== verification/Header.v ===== *)
(** * The common header and the shared message codec (package messages)

    [Header] with its encoder and decoder (header.go), the helpers every
    message type calls (codec.go), and the facts about both that the message
    files share. *)

From S2P Require Import Prelude Params ParamsFacts Nested.

(** ** Message classes and types *)

Definition MsgClassManagement : Z := 0.
Definition MsgClassTransfer : Z := 1.
Definition MsgClassSSNM : Z := 2.
Definition MsgClassASPSM : Z := 3.
Definition MsgClassASPTM : Z := 4.
Definition MsgClassRKM : Z := 9.

Definition MsgTypeError : Z := 0.
Definition MsgTypeNotify : Z := 1.
Definition MsgTypeDestinationUnavailable : Z := 1.
Definition MsgTypeDestinationAvailable : Z := 2.
Definition MsgTypeDestinationStateAudit : Z := 3.
Definition MsgTypeSignallingCongestion : Z := 4.
Definition MsgTypeDestinationUserPartUnavailable : Z := 5.
Definition MsgTypeDestinationRestricted : Z := 6.
Definition MsgTypePayloadData : Z := 1.
Definition MsgTypeAspUp : Z := 1.
Definition MsgTypeAspDown : Z := 2.
Definition MsgTypeHeartbeat : Z := 3.
Definition MsgTypeAspUpAck : Z := 4.
Definition MsgTypeAspDownAck : Z := 5.
Definition MsgTypeHeartbeatAck : Z := 6.
Definition MsgTypeAspActive : Z := 1.
Definition MsgTypeAspInactive : Z := 2.
Definition MsgTypeAspActiveAck : Z := 3.
Definition MsgTypeAspInactiveAck : Z := 4.
Definition MsgTypeRegistrationRequest : Z := 1.
Definition MsgTypeRegistrationResponse : Z := 2.
Definition MsgTypeDeregistrationRequest : Z := 3.
Definition MsgTypeDeregistrationResponse : Z := 4.

(** ** Errors of package messages

    A parameter error passes through the message decoders unchanged. *)

Inductive msg_error : Set :=
| ParamsError (e : Params.error)
| ErrTooShortToMarshalBinary
| ErrTooShortToParse
| ErrInvalidMessageLength
| ErrMissingParameter
| ErrUnexpectedMessageType
| ErrInvalidParameter.

#[export] Instance msg_error_eq_dec : EqDecision msg_error.
Proof. solve_decision. Defined.

Definition of_params {A} (m : result Params.error A) : result msg_error A :=
  map_err ParamsError m.

(** ** Header *)

Record Header : Set := mkHeader {
  h_Version : Z;
  h_Reserved : Z;
  h_Class : Z;
  h_Type : Z;
  h_Length : Z;
  h_Payload : bytes;
}.

#[export] Instance Header_eq_dec : EqDecision Header.
Proof. solve_decision. Defined.

(** [&Header{Version: 1, Class: c, Type: t}]. *)
Definition header_for (c t : Z) : Header := mkHeader 1 0 c t 0 [].

Definition with_Payload (payload : bytes) (h : Header) : Header :=
  mkHeader (h_Version h) (h_Reserved h) (h_Class h) (h_Type h) (h_Length h) payload.
Definition with_Length (l : Z) (h : Header) : Header :=
  mkHeader (h_Version h) (h_Reserved h) (h_Class h) (h_Type h) l (h_Payload h).

Definition Header_MarshalLen (h : Header) : Z := 8 + len (h_Payload h).

Definition Header_SetLength (h : Header) : Header :=
  with_Length (u32 (8 + len (h_Payload h))) h.

Definition NewHeader (version class mtype : Z) (payload : bytes) : Header :=
  Header_SetLength (mkHeader version 0 class mtype 0 payload).

Definition validateMarshalLength (h : Header) : result msg_error () :=
  ensure (negb (2 ^ 32 - 1 <? Header_MarshalLen h)) ErrInvalidMessageLength.

Definition Header_wire (h : Header) : bytes :=
  [byte_of_Z (h_Version h); byte_of_Z (h_Reserved h);
   byte_of_Z (h_Class h); byte_of_Z (h_Type h)] ++
  PutUint32 (h_Length h) ++ h_Payload h.

#[global] Arguments Header_wire : simpl never.

Definition Header_MarshalTo (h : Header) (b : bytes) : result msg_error (Header * bytes) :=
  _ ← validateMarshalLength h;
  if len b <? Header_MarshalLen h then Err ErrTooShortToMarshalBinary else
  let h := Header_SetLength h in
  Ok (h, overwrite (Header_wire h) b).

Definition Header_MarshalBinary (h : Header) : result msg_error (Header * bytes) :=
  _ ← validateMarshalLength h;
  Header_MarshalTo h (make_bytes (Header_MarshalLen h)).

(** The loop of [isOmittedFinalParameterPadding]; every round advances
    [offset] by at least four. *)
Fixpoint omittedPaddingLoop (fuel : nat) (payload : bytes) (offset trailingLength : Z)
    : result msg_error bool :=
  if negb (offset <? len payload) then Ok false else
  match fuel with
  | O => OutOfFuel
  | S fuel =>
      if len payload - offset <? 4 then Ok false else
      w ← slice (offset + 2) (offset + 4) payload;
      parameterLength ← Uint16 w;
      if (parameterLength <? 4) || (len payload - offset <? parameterLength)
      then Ok false else
      let parameterEnd := offset + parameterLength in
      let padding := (4 - parameterLength mod 4) mod 4 in
      if parameterEnd =? len payload then Ok (padding =? trailingLength) else
      let offset := parameterEnd + padding in
      if len payload <? offset then Ok false
      else omittedPaddingLoop fuel payload offset trailingLength
  end.

Definition isOmittedFinalParameterPadding (payload : bytes) (trailingLength : Z)
    : result msg_error bool :=
  if (trailingLength <? 1) || (3 <? trailingLength) then Ok false
  else omittedPaddingLoop (length payload) payload 0 trailingLength.

(** [Header.UnmarshalBinary], which [ParseHeader] calls on a fresh header. *)
Definition ParseHeader (b : bytes) : result msg_error Header :=
  let l := len b in
  if l <? 8 then Err ErrTooShortToParse else
  w ← slice 4 8 b;
  messageLength ← Uint32 w;
  if messageLength <? 8 then Err ErrInvalidMessageLength else
  if l <? messageLength then Err ErrInvalidMessageLength else
  let payloadEnd := messageLength in
  payload ← slice 8 payloadEnd b;
  refused ← (if payloadEnd <? l
             then omitted ← isOmittedFinalParameterPadding payload (l - payloadEnd);
                  Ok (negb omitted)
             else Ok false);
  if refused : bool then Err ErrInvalidMessageLength else
  version ← index 0 b;
  reserved ← index 1 b;
  class ← index 2 b;
  mtype ← index 3 b;
  Ok (mkHeader version reserved class mtype messageLength payload).

(** ** Shared helpers (codec.go) *)

Definition requireParameter (param : option Param) : result msg_error () :=
  ensure (bool_decide (is_Some param)) ErrMissingParameter.

Definition parseTypedHeader (b : bytes) (expectedClass expectedType : Z)
    : result msg_error Header :=
  header ← ParseHeader b;
  if negb (h_Class header =? expectedClass) || negb (h_Type header =? expectedType)
  then Err ErrUnexpectedMessageType
  else Ok header.

Definition opt_MarshalLen (param : option Param) : Z :=
  match param with Some p => MarshalLen p | None => 0 end.

Fixpoint paramsMarshalLen (parameters : list (option Param)) : Z :=
  match parameters with
  | [] => 0
  | param :: parameters => opt_MarshalLen param + paramsMarshalLen parameters
  end.

Definition setParamLengths (parameters : list (option Param)) : list (option Param) :=
  set_length <$> parameters.

(** [param.MarshalTo(payload[offset:])] of a parameter that may be nil: the
    parameter, the payload buffer and the offset after it. *)
Definition marshalParam (param : option Param) (payload : bytes) (offset : Z)
    : result msg_error (option Param * bytes * Z) :=
  match param with
  | None => Ok (None, payload, offset)
  | Some p =>
      rest ← slice_from offset payload;
      '(p, rest) ← of_params (MarshalTo p rest);
      Ok (Some p, take (Z.to_nat offset) payload ++ rest, offset + MarshalLen p)
  end.

(** The loop of [marshalOtherParams]. *)
Fixpoint marshalOthersLoop (payload : bytes) (offset : Z) (others : list (option Param))
    : result msg_error (list (option Param) * bytes) :=
  match others with
  | [] => Ok ([], payload)
  | param :: others =>
      '(param, payload, offset) ← marshalParam param payload offset;
      '(others, payload) ← marshalOthersLoop payload offset others;
      Ok (param :: others, payload)
  end.

Definition marshalOtherParams (payload : bytes) (offset : Z) (others : list (option Param))
    : result msg_error (list (option Param) * bytes) :=
  let othersLength := paramsMarshalLen others in
  if (offset <? 0) || (len payload <? offset) || (len payload - offset <? othersLength)
  then Err ErrTooShortToMarshalBinary else
  if negb (offset + othersLength =? len payload) then Err ErrInvalidMessageLength else
  marshalOthersLoop payload offset others.

(** [case tag: if field != nil { return ErrInvalidParameter }; field = pr]. *)
Definition assign_once (field : option Param) (pr : Param)
    : result msg_error (option Param) :=
  match field with Some _ => Err ErrInvalidParameter | None => Ok (Some pr) end.

(** ** The body the message decoders share

    [parseTypedHeader], [params.ParseMultiParams], a loop over the parameters
    and the closing checks; each message type passes its own. *)
Definition unmarshalMessage {M} (msgClass msgType : Z) (zero : Header → M)
    (assign : nat → M → Param → result msg_error M) (validate : M → result msg_error ())
    (b : bytes) : result msg_error M :=
  header ← parseTypedHeader b msgClass msgType;
  prs ← of_params (ParseMultiParams (h_Payload header));
  m ← foldMi assign 0 (zero header) prs;
  _ ← validate m;
  Ok m.
