(* ===== verification/Codec.v ===== *)
(** * Facts shared by the message codecs

    The header round trip and its safety, what the shared helpers of codec.go
    compute, and the interface [Message] that every message type of the
    package implements: the laws from which the properties of [Parse] and
    [MarshalBinary] are proved once for all types. *)

From S2P Require Import Prelude Params ParamsFacts Nested Header.

(** ** The common header *)

Record header_typed (h : Header) : Prop := {
  ht_version : is_u8 (h_Version h);
  ht_reserved : is_u8 (h_Reserved h);
  ht_class : is_u8 (h_Class h);
  ht_type : is_u8 (h_Type h);
}.

Lemma byte_to_of_u8 z : is_u8 z → byte_to_Z (byte_of_Z z) = z.
Proof. intros H. rewrite byte_to_of_Z. by apply Z.mod_small. Qed.
Lemma is_u8_byte b : is_u8 (byte_to_Z b).
Proof. apply byte_to_Z_range. Qed.

Lemma safe_omittedPaddingLoop fuel payload offset t :
  0 ≤ offset → len payload - offset ≤ Z.of_nat fuel →
  safe (omittedPaddingLoop fuel payload offset t).
Proof.
  revert offset. induction fuel as [|fuel IH]; intros offset Ho Hf; cbn.
  { rewrite (proj2 (Z.ltb_ge _ _)) by lia. done. }
  case_match; [done|]. case_match; [done|]. to_prop.
  apply safe_bind; [apply safe_slice; lia|]. intros w Hw.
  apply slice_Ok in Hw as (_ & _ & Hw & _).
  apply safe_bind; [apply safe_Uint16; lia|]. intros pl Hpl.
  repeat (case_match; [done|]). to_prop. apply IH;
    pose proof (Z.mod_pos_bound (4 - pl mod 4) 4); lia.
Qed.

(** The eight octets of a header, and what follows. *)
Definition header_octets (v r c t l : Z) : bytes :=
  [byte_of_Z v; byte_of_Z r; byte_of_Z c; byte_of_Z t] ++ PutUint32 l.

Lemma header_octets_split (b : bytes) :
  8 ≤ len b → ∃ v r c t l p,
    is_u8 v ∧ is_u8 r ∧ is_u8 c ∧ is_u8 t ∧ is_u32 l ∧ b = header_octets v r c t l ++ p.
Proof.
  destruct b as [|b0 [|b1 [|b2 [|b3 [|b4 [|b5 [|b6 [|b7 p]]]]]]]];
    rewrite ?len_cons, ?len_nil; try lia. intros _.
  destruct (@Uint32 msg_error [b4; b5; b6; b7]) as [l| | |] eqn:Hl; try done.
  exists (byte_to_Z b0), (byte_to_Z b1), (byte_to_Z b2), (byte_to_Z b3), l, p.
  split_and!; try apply is_u8_byte; [by eapply Uint32_range|].
  unfold header_octets. by rewrite (PutUint32_Uint32 _ _ _ _ _ Hl), !byte_of_to_Z.
Qed.

(** What [ParseHeader] does once the eight octets are split off. *)
Lemma ParseHeader_split v r c t l p :
  is_u8 v → is_u8 r → is_u8 c → is_u8 t → is_u32 l →
  ParseHeader (header_octets v r c t l ++ p) =
  if l <? 8 then Err ErrInvalidMessageLength else
  if 8 + len p <? l then Err ErrInvalidMessageLength else
  let payload := take (Z.to_nat (l - 8)) p in
  refused ← (if l <? 8 + len p
             then omitted ← isOmittedFinalParameterPadding payload (8 + len p - l);
                  Ok (negb omitted)
             else Ok false);
  if refused : bool then Err ErrInvalidMessageLength else
  Ok (mkHeader v r c t l payload).
Proof.
  intros Hv Hr Hc Ht Hl. unfold ParseHeader.
  assert (len (header_octets v r c t l ++ p) = 8 + len p) as ->.
  { rewrite len_app. done. }
  pose proof (len_nonneg p). rewrite (proj2 (Z.ltb_ge _ _)) by lia.
  assert (slice 4 8 (header_octets v r c t l ++ p) = Ok (E:=msg_error) (PutUint32 l)) as ->.
  { unfold header_octets. rewrite <-app_assoc.
    apply (slice_app [byte_of_Z v; byte_of_Z r; byte_of_Z c; byte_of_Z t]
      (PutUint32 l) p). }
  cbn [mbind result_bind]. rewrite Uint32_Put by done. cbn [mbind result_bind].
  destruct (l <? 8) eqn:H8; [done|]. destruct (8 + len p <? l) eqn:Hlen; [done|]. to_prop.
  assert (slice 8 l (header_octets v r c t l ++ p) =
          Ok (E:=msg_error) (take (Z.to_nat (l - 8)) p)) as ->.
  { unfold slice. rewrite len_app. change (len (header_octets v r c t l)) with 8.
    rewrite !(proj2 (Z.leb_le _ _)) by lia. done. }
  cbn [mbind result_bind].
  destruct (if l <? 8 + len p then _ else _) as [refused| | |]; cbn [mbind result_bind];
    try done.
  destruct refused; [done|].
  change (Ok (E:=msg_error) (mkHeader (byte_to_Z (byte_of_Z v)) (byte_to_Z (byte_of_Z r))
    (byte_to_Z (byte_of_Z c)) (byte_to_Z (byte_of_Z t)) l (take (Z.to_nat (l - 8)) p)) =
    Ok (mkHeader v r c t l (take (Z.to_nat (l - 8)) p))).
  by rewrite !byte_to_of_u8.
Qed.

Lemma safe_isOmitted payload t : safe (isOmittedFinalParameterPadding payload t).
Proof.
  unfold isOmittedFinalParameterPadding. case_match; [done|].
  apply safe_omittedPaddingLoop; unfold len; lia.
Qed.

Lemma safe_ParseHeader b : safe (ParseHeader b).
Proof.
  destruct (Z.lt_ge_cases (len b) 8) as [Hl|Hl].
  { unfold ParseHeader. by rewrite (proj2 (Z.ltb_lt _ _)) by lia. }
  destruct (header_octets_split b Hl) as (v & r & c & t & l & p & ? & ? & ? & ? & ? & ->).
  rewrite ParseHeader_split by done. do 2 (case_match; [done|]).
  apply safe_bind; [|intros [] _; done].
  case_match; [|done]. apply safe_bind; [apply safe_isOmitted|done].
Qed.

Lemma safe_parseTypedHeader b c t : safe (parseTypedHeader b c t).
Proof. apply safe_bind; [apply safe_ParseHeader|]. intros h _. by case_match. Qed.
#[export] Hint Resolve safe_ParseHeader safe_parseTypedHeader : safety.

(** A decoded header: its fields are octets, and its length is the number of
    octets before the trailing padding. *)
Lemma ParseHeader_Ok b h :
  ParseHeader b = Ok h →
  header_typed h ∧ is_u32 (h_Length h) ∧ h_Length h = 8 + len (h_Payload h) ∧
  ∃ trailing, b = Header_wire h ++ trailing.
Proof.
  intros H. destruct (Z.lt_ge_cases (len b) 8) as [Hl|Hl].
  { unfold ParseHeader in H. by rewrite (proj2 (Z.ltb_lt _ _)) in H by lia. }
  destruct (header_octets_split b Hl) as (v & r & c & t & l & p & Hv & Hr & Hc & Ht & Hu & ->).
  rewrite ParseHeader_split in H by done.
  destruct (l <? 8) eqn:H8; [done|]. destruct (8 + len p <? l) eqn:Hlen; [done|].
  apply bind_Ok in H as (refused & _ & H). destruct refused; [done|].
  injection H as <-. to_prop. cbn [h_Length h_Payload].
  split; [by constructor|]. split; [done|]. split.
  - unfold len in *. rewrite length_take. lia.
  - exists (drop (Z.to_nat (l - 8)) p). unfold Header_wire, header_octets. cbn [h_Version
      h_Reserved h_Class h_Type h_Length h_Payload].
    by rewrite <-!app_assoc, take_drop.
Qed.

Lemma ParseHeader_wire h :
  header_typed h → is_u32 (h_Length h) → h_Length h = 8 + len (h_Payload h) →
  ParseHeader (Header_wire h) = Ok h.
Proof.
  intros [Hv Hr Hc Ht] Hu Hl. unfold Header_wire. rewrite app_assoc.
  pose proof (len_nonneg (h_Payload h)).
  rewrite (ParseHeader_split _ _ _ _ _ _ Hv Hr Hc Ht Hu).
  rewrite !(proj2 (Z.ltb_ge _ _)) by lia. cbn [mbind result_bind].
  replace (Z.to_nat (h_Length h - 8)) with (length (h_Payload h)); [|unfold len in *; lia].
  rewrite firstn_all. by destruct h.
Qed.

Lemma len_Header_wire h : len (Header_wire h) = Header_MarshalLen h.
Proof. unfold Header_wire, Header_MarshalLen. rewrite !len_app, len_PutUint32, !len_cons, len_nil. lia. Qed.

Lemma Header_MarshalTo_Ok h b r :
  Header_MarshalTo h b = Ok r ↔
  Header_MarshalLen h < 2 ^ 32 ∧ Header_MarshalLen h ≤ len b ∧
  r = (with_Length (Header_MarshalLen h) h,
       overwrite (Header_wire (with_Length (Header_MarshalLen h) h)) b).
Proof.
  assert (Hs : Header_MarshalLen h < 2 ^ 32 →
    Header_SetLength h = with_Length (Header_MarshalLen h) h).
  { intros Hl. unfold Header_SetLength, Header_MarshalLen in *. f_equal. apply u32_id.
    unfold is_u32. pose proof (len_nonneg (h_Payload h)). lia. }
  unfold Header_MarshalTo, validateMarshalLength. split.
  - intros H. apply bind_Ok in H as ([] & Hv & H). apply ensure_Ok in Hv. to_prop.
    destruct (_ <? _) eqn:Hb; [done|]. to_prop. rewrite Hs in H by lia.
    injection H as <-. split_and!; [lia|lia|done].
  - intros (Hl & Hb & ->). apply bind_Ok. exists tt. split.
    { apply ensure_Ok, negb_true_iff, Z.ltb_ge. lia. }
    rewrite (proj2 (Z.ltb_ge _ _)) by lia. by rewrite Hs.
Qed.

(** ** The shared helpers *)

Definition opt_wire (o : option Param) : bytes :=
  match o with Some p => wire p | None => [] end.

(** The parameters of a message, those that are nil left out, on the wire. *)
Definition params_wire (l : list (option Param)) : bytes := l ≫= opt_wire.

Definition opt_encodable (o : option Param) : Prop := ∀ p, o = Some p → encodable p.
Definition opt_typed (o : option Param) : Prop := ∀ p, o = Some p → is_u16 (Tag p).

Lemma opt_MarshalLen_wire o : opt_MarshalLen o = len (opt_wire o).
Proof. destruct o; cbn; [by rewrite len_wire|done]. Qed.
Lemma paramsMarshalLen_wire l : paramsMarshalLen l = len (params_wire l).
Proof.
  induction l as [|o l IH]; [done|]. cbn [paramsMarshalLen params_wire mbind list_bind].
  by rewrite len_app, opt_MarshalLen_wire, IH.
Qed.
Lemma params_wire_app l k : params_wire (l ++ k) = params_wire l ++ params_wire k.
Proof. apply bind_app. Qed.
Lemma params_wire_params_of l : params_wire l = concat (wire <$> params_of l).
Proof.
  unfold params_wire, params_of. induction l as [|[p|] l IH]; cbn in *; by rewrite ?IH.
Qed.

Lemma drop_make_bytes n (w : bytes) :
  len w ≤ n → drop (length w) (make_bytes n) = make_bytes (n - len w).
Proof.
  intros Hn. unfold make_bytes, len in *. rewrite drop_replicate. f_equal. lia.
Qed.

(** Encoding one parameter at the end of what is already encoded: over
    whatever the buffer holds, and over zeros. *)
Lemma marshalParam_over o pre rest r :
  opt_typed o → len (opt_wire o) ≤ len rest →
  marshalParam o (pre ++ rest) (len pre) = Ok r ↔
  opt_encodable o ∧
  r = (set_length o, (pre ++ opt_wire o) ++ drop (length (opt_wire o)) rest,
       len (pre ++ opt_wire o)).
Proof.
  intros Ht Hn. destruct o as [p|]; cbn [marshalParam opt_wire] in *.
  2: { rewrite app_nil_r. cbn. split; [|by intros [_ ->]].
       intros [= <-]. split; [by intros p|done]. }
  assert (opt_encodable (Some p) ↔ encodable p) as Hoe.
  { split; [intros H; by apply H|by intros ? ? [= <-]]. }
  rewrite Hoe. rewrite slice_from_app. cbn [mbind result_bind].
  assert (take (Z.to_nat (len pre)) (pre ++ rest) = pre) as ->.
  { unfold len. rewrite Nat2Z.id. apply take_app_length. }
  split.
  - intros H. apply bind_Ok in H as (q & Hq & H). apply map_err_Ok in Hq.
    apply (MarshalTo_Ok _ _ _ (Ht p eq_refl)) in Hq as (He & _ & ->).
    injection H as <-. split; [done|].
    unfold overwrite. by rewrite <-app_assoc, MarshalLen_SetLength, len_app, len_wire.
  - intros [He ->]. apply bind_Ok. eexists. split.
    { apply map_err_Ok, MarshalTo_Ok; [by apply Ht|]. split_and!; [done| |done].
      by rewrite len_wire in Hn. }
    cbn. unfold overwrite. by rewrite <-app_assoc, MarshalLen_SetLength, len_app, len_wire.
Qed.

Lemma marshalParam_Ok o pre n r :
  opt_typed o → len (opt_wire o) ≤ n →
  marshalParam o (pre ++ make_bytes n) (len pre) = Ok r ↔
  opt_encodable o ∧
  r = (set_length o, (pre ++ opt_wire o) ++ make_bytes (n - len (opt_wire o)),
       len (pre ++ opt_wire o)).
Proof.
  intros Ht Hn. pose proof (len_nonneg (opt_wire o)).
  rewrite <-drop_make_bytes by done. apply marshalParam_over; [done|].
  by rewrite len_make_bytes by lia.
Qed.

Lemma marshalOthersLoop_Ok l pre r :
  Forall opt_typed l →
  marshalOthersLoop (pre ++ make_bytes (len (params_wire l))) (len pre) l = Ok r ↔
  Forall opt_encodable l ∧ r = (set_length <$> l, pre ++ params_wire l).
Proof.
  intros Ht. revert pre r. induction Ht as [|o l Ho Hl IH]; intros pre r.
  { cbn. rewrite !app_nil_r. split; [intros [= <-]; split; [constructor|done]|by intros [_ ->]]. }
  cbn [marshalOthersLoop params_wire mbind list_bind]. fold (params_wire l).
  rewrite len_app. pose proof (len_nonneg (params_wire l)) as Hnn.
  assert (∀ k : Z, len (opt_wire o) + k - len (opt_wire o) = k) as Hk by (intros; lia).
  split.
  - intros H. apply bind_Ok in H as (x & Hx & H).
    apply marshalParam_Ok in Hx as [He ->]; [|done|lia]. rewrite Hk in H.
    apply bind_Ok in H as (y & Hy & H). apply IH in Hy as [Hes ->].
    injection H as <-. split; [by constructor|]. by rewrite <-app_assoc.
  - intros [He ->]. apply Forall_cons in He as [He Hes].
    apply bind_Ok. eexists. split; [apply marshalParam_Ok; [done|lia|by split]|].
    rewrite Hk. apply bind_Ok. eexists. split; [apply IH; by split|].
    cbn. by rewrite <-app_assoc.
Qed.

Lemma marshalOtherParams_Ok l pre r :
  Forall opt_typed l →
  marshalOtherParams (pre ++ make_bytes (len (params_wire l))) (len pre) l = Ok r ↔
  Forall opt_encodable l ∧ r = (set_length <$> l, pre ++ params_wire l).
Proof.
  intros Ht. unfold marshalOtherParams. rewrite paramsMarshalLen_wire, len_app.
  pose proof (len_nonneg pre); pose proof (len_nonneg (params_wire l)).
  rewrite len_make_bytes by lia.
  rewrite !(proj2 (Z.ltb_ge _ _)) by lia. rewrite (proj2 (Z.eqb_eq _ _)) by lia.
  by apply marshalOthersLoop_Ok.
Qed.

Lemma safe_assign_once o p : safe (assign_once o p).
Proof. by destruct o. Qed.
Lemma safe_requireParameter o : safe (requireParameter o).
Proof. apply safe_ensure. Qed.
#[export] Hint Resolve safe_assign_once safe_requireParameter : safety.

(** ** The interface of a message type *)

Class Message (M : Type) := {
  msgClass : Z;
  msgType : Z;
  getHeader : M → Header;
  (** the parameters, nil ones included, in the order [MarshalTo] writes them *)
  parameters : M → list (option Param);
  (** [&M{Header: h}] *)
  zero : Header → M;
  (** the body of the decoder's loop, and the checks after it *)
  assign : nat → M → Param → result msg_error M;
  validate : M → result msg_error ();
  (** every parameter is in the field of its tag, and [Others] holds no other *)
  fields_ok : M → Prop;
  (** the message with header [h] and the length of every parameter set *)
  rebuild : Header → M → M;
  msg_MarshalLen : M → Z;
  msg_MarshalTo : M → bytes → result msg_error (M * bytes);
}.

Definition Unmarshal {M} `{Message M} : bytes → result msg_error M :=
  unmarshalMessage msgClass msgType zero assign validate.

Definition msg_MarshalBinary {M} `{Message M} (m : M) : result msg_error (M * bytes) :=
  msg_MarshalTo m (make_bytes (msg_MarshalLen m)).

(** The header [MarshalTo] leaves in the message and writes. *)
Definition encoded_header {M} `{Message M} (m : M) : Header :=
  let payload := params_wire (parameters m) in
  with_Length (8 + len payload) (with_Payload payload (getHeader m)).

Class MessageLaws (M : Type) `{Message M} := {
  MarshalLen_law (m : M) : msg_MarshalLen m = 8 + len (params_wire (parameters m));
  getHeader_rebuild h (m : M) : getHeader (rebuild h m) = h;
  parameters_rebuild h (m : M) : parameters (rebuild h m) = set_length <$> parameters m;
  MarshalTo_law (m : M) b r :
    fields_ok m →
    msg_MarshalTo m b = Ok r ↔
    validate m = Ok tt ∧ Forall opt_encodable (parameters m) ∧
    msg_MarshalLen m < 2 ^ 32 ∧ msg_MarshalLen m ≤ len b ∧
    r = (rebuild (encoded_header m) m, overwrite (Header_wire (encoded_header m)) b);
  zero_law h : fields_ok (zero h) ∧ getHeader (zero h) = h ∧ params_of (parameters (zero h)) = [];
  assign_law i (m m' : M) p :
    is_u16 (Tag p) → i = length (params_of (parameters m)) →
    fields_ok m → assign i m p = Ok m' →
    fields_ok m' ∧ getHeader m' = getHeader m ∧
    params_of (parameters m') ≡ₚ params_of (parameters m) ++ [p];
  assign_all_law h (m : M) :
    fields_ok m →
    foldMi assign 0 (zero h) (params_of (set_length <$> parameters m)) = Ok (rebuild h m);
  validate_rebuild h (m : M) : validate m = Ok tt → validate (rebuild h m) = Ok tt;
  fields_rebuild h (m : M) : fields_ok m → fields_ok (rebuild h m);
  assign_safe i (m : M) p : safe (assign i m p);
  validate_safe (m : M) : safe (validate m);
}.

(** A message of its type, ready to be sent or as received. *)
Record well_formed {M} `{Message M} (m : M) : Prop := {
  wf_version : is_u8 (h_Version (getHeader m));
  wf_reserved : is_u8 (h_Reserved (getHeader m));
  wf_class : h_Class (getHeader m) = msgClass;
  wf_type : h_Type (getHeader m) = msgType;
  wf_class_u8 : is_u8 msgClass;
  wf_type_u8 : is_u8 msgType;
  wf_fields : fields_ok m;
}.

Section laws.
Context {M : Type} `{MessageLaws M}.
Implicit Types m : M.

Lemma safe_Unmarshal b : safe (Unmarshal (M:=M) b).
Proof.
  unfold Unmarshal, unmarshalMessage.
  apply safe_bind; [apply safe_parseTypedHeader|intros h _].
  apply safe_bind; [unfold of_params; auto with safety|intros prs _].
  apply safe_bind; [apply safe_foldMi, assign_safe|intros m _].
  apply safe_bind; [apply validate_safe|done].
Qed.

Lemma MarshalBinary_law m r :
  fields_ok m →
  msg_MarshalBinary m = Ok r ↔
  validate m = Ok tt ∧ Forall opt_encodable (parameters m) ∧ msg_MarshalLen m < 2 ^ 32 ∧
  r = (rebuild (encoded_header m) m, Header_wire (encoded_header m)).
Proof.
  intros Hf. unfold msg_MarshalBinary. rewrite (MarshalTo_law _ _ _ Hf).
  assert (0 ≤ msg_MarshalLen m) as Hnn.
  { rewrite MarshalLen_law. pose proof (len_nonneg (params_wire (parameters m))). lia. }
  assert (len (Header_wire (encoded_header m)) = msg_MarshalLen m) as Hw.
  { by rewrite len_Header_wire, MarshalLen_law. }
  rewrite len_make_bytes by done. rewrite overwrite_self by by rewrite len_make_bytes.
  naive_solver lia.
Qed.

Lemma Forall_opt_encodable l : Forall opt_encodable l ↔ Forall encodable (params_of l).
Proof.
  unfold params_of. induction l as [|o l IH]; [by split; constructor|].
  rewrite Forall_cons, IH. destruct o as [p|]; cbn.
  - rewrite Forall_cons. unfold opt_encodable. naive_solver.
  - unfold opt_encodable. naive_solver.
Qed.

(** Decoding the octets of an encoded message gives the message back. *)
Lemma Unmarshal_wire m :
  well_formed m → validate m = Ok tt → Forall opt_encodable (parameters m) →
  msg_MarshalLen m < 2 ^ 32 →
  Unmarshal (Header_wire (encoded_header m)) = Ok (rebuild (encoded_header m) m).
Proof.
  intros [Hv Hr Hc Ht Hcu Htu Hf] Hval He Hl. rewrite MarshalLen_law in Hl.
  unfold Unmarshal, unmarshalMessage, parseTypedHeader.
  pose proof (len_nonneg (params_wire (parameters m))).
  rewrite ParseHeader_wire.
  2: { constructor; cbn; congruence. }
  2: { cbn. unfold is_u32. lia. }
  2: { done. }
  cbn [mbind result_bind].
  change (h_Class (encoded_header m)) with (h_Class (getHeader m)).
  change (h_Type (encoded_header m)) with (h_Type (getHeader m)).
  rewrite Hc, Ht, !Z.eqb_refl. cbn [negb orb mbind result_bind].
  change (h_Payload (encoded_header m)) with (params_wire (parameters m)).
  assert (ParseMultiParams (params_wire (parameters m)) =
          Ok (params_of (set_length <$> parameters m))) as ->.
  { rewrite params_wire_params_of, <-params_of_set_length.
    apply parseMulti_wire. rewrite Forall_opt_encodable in He.
    eapply Forall_impl; [exact He|]. intros p Hp.
    split_and!; [apply Hp|apply Hp|by apply encodable_accepted]. }
  cbn [of_params map_err mbind result_bind].
  rewrite assign_all_law by done. cbn [mbind result_bind].
  by rewrite validate_rebuild.
Qed.

(** What a decoded message satisfies: it is well formed, and holds exactly
    the parameters of the payload. *)
Lemma Unmarshal_inv b m :
  Unmarshal b = Ok m →
  ParseHeader b = Ok (getHeader m) ∧ well_formed m ∧ validate m = Ok tt ∧
  ∃ ps, ParseMultiParams (h_Payload (getHeader m)) = Ok ps ∧
        params_of (parameters m) ≡ₚ ps ∧ Forall (accepted validateValue 0) ps.
Proof.
  unfold Unmarshal, unmarshalMessage, parseTypedHeader. intros Hu.
  apply bind_Ok in Hu as (h & Hh & Hu). apply bind_Ok in Hh as (h' & Hh & Hct).
  destruct (_ || _) eqn:Hor; [done|]. injection Hct as ->. to_prop.
  apply bind_Ok in Hu as (ps & Hps & Hu). apply map_err_Ok in Hps.
  apply bind_Ok in Hu as (m' & Hm & Hu). apply bind_Ok in Hu as ([] & Hval & Hu).
  injection Hu as ->.
  assert (Forall (accepted validateValue 0) ps) as Hacc.
  { by eapply parseMulti_accepted. }
  destruct (zero_law h) as (Z1 & Z2 & Z3).
  eapply (foldMi_inv _ (λ m k, fields_ok m ∧ getHeader m = h ∧
    params_of (parameters m) ≡ₚ k) _ _ _ []) in Hm as (F1 & F2 & F3); [| |by rewrite Z3|done].
  - destruct (ParseHeader_Ok _ _ Hh) as ([] & _). rewrite F2.
    split; [done|]. split; [|split; [done|by exists ps]].
    constructor; rewrite ?F2; congruence || done.
  - intros s a k s' Ha (I1 & I2 & I3) Hs. rewrite Forall_forall in Hacc.
    rewrite <-I3 in Hs.
    destruct (assign_law _ _ _ _ (proj1 (Hacc a Ha)) eq_refl I1 Hs) as (A1 & A2 & A3).
    split; [done|]. split; [congruence|]. by rewrite A3, I3.
Qed.

Lemma Unmarshal_encodable b m :
  Unmarshal b = Ok m → Forall opt_encodable (parameters m).
Proof.
  intros Hu. apply Unmarshal_inv in Hu as (_ & _ & _ & ps & _ & Hp & Ha).
  apply Forall_opt_encodable. rewrite Hp. eapply Forall_impl; [exact Ha|].
  intros p Hpa. by apply accepted_encodable in Hpa as [? _].
Qed.
End laws.

(** ** Lemmas for the message types with named fields

    Most message types are a header, named optional parameters and the
    extension parameters [Others].  Their laws follow from the lemmas below,
    instantiated with the tags of the named fields. *)

(** The encoder of such a message: the named fields in order, then [Others],
    then the header. *)
Fixpoint marshalParams (ps : list (option Param)) (payload : bytes) (offset : Z)
    : result msg_error (list (option Param) * bytes * Z) :=
  match ps with
  | [] => Ok ([], payload, offset)
  | p :: ps =>
      '(p, payload, offset) ← marshalParam p payload offset;
      '(ps, payload, offset) ← marshalParams ps payload offset;
      Ok (p :: ps, payload, offset)
  end.

Definition marshalBody (h : Header) (named others : list (option Param)) (b : bytes)
    : result msg_error (Header * list (option Param) * list (option Param) * bytes) :=
  let payload := make_bytes (paramsMarshalLen (named ++ others)) in
  '(named, payload, offset) ← marshalParams named payload 0;
  '(others, payload) ← marshalOtherParams payload offset others;
  '(h, b) ← Header_MarshalTo (with_Payload payload h) b;
  Ok (h, named, others, b).

Lemma marshalParams_over l pre rest r :
  Forall opt_typed l → len (params_wire l) ≤ len rest →
  marshalParams l (pre ++ rest) (len pre) = Ok r ↔
  Forall opt_encodable l ∧
  r = (set_length <$> l, (pre ++ params_wire l) ++ drop (length (params_wire l)) rest,
       len (pre ++ params_wire l)).
Proof.
  intros Ht. revert pre rest r. induction Ht as [|o l Ho Hl IH]; intros pre rest r Hn.
  { cbn. rewrite !app_nil_r.
    split; [intros [= <-]; split; [constructor|done]|by intros [_ ->]]. }
  cbn [marshalParams params_wire mbind list_bind] in *. fold (params_wire l) in *.
  rewrite len_app in Hn. pose proof (len_nonneg (params_wire l)) as Hnn.
  assert (len (params_wire l) ≤ len (drop (length (opt_wire o)) rest)) as Hr.
  { unfold len in *. rewrite length_drop. lia. }
  rewrite length_app, <-drop_drop.
  split.
  - intros H. apply bind_Ok in H as (x & Hx & H).
    apply marshalParam_over in Hx as [He ->]; [|done|lia].
    apply bind_Ok in H as (y & Hy & H). apply IH in Hy as [Hes ->]; [|done].
    injection H as <-. split; [by constructor|]. by rewrite <-!app_assoc.
  - intros [He ->]. apply Forall_cons in He as [He Hes].
    apply bind_Ok. eexists. split; [apply marshalParam_over; [done|lia|by split]|].
    apply bind_Ok. eexists. split; [apply IH; [done|by split]|].
    cbn. by rewrite <-!app_assoc.
Qed.

Lemma marshalParams_Ok l pre n r :
  Forall opt_typed l → len (params_wire l) ≤ n →
  marshalParams l (pre ++ make_bytes n) (len pre) = Ok r ↔
  Forall opt_encodable l ∧
  r = (set_length <$> l, (pre ++ params_wire l) ++ make_bytes (n - len (params_wire l)),
       len (pre ++ params_wire l)).
Proof.
  intros Ht Hn. pose proof (len_nonneg (params_wire l)).
  rewrite <-drop_make_bytes by done. apply marshalParams_over; [done|].
  by rewrite len_make_bytes by lia.
Qed.

Lemma marshalBody_Ok h named others b r :
  Forall opt_typed named → Forall opt_typed others →
  let payload := params_wire (named ++ others) in
  let h' := with_Length (8 + len payload) (with_Payload payload h) in
  marshalBody h named others b = Ok r ↔
  Forall opt_encodable (named ++ others) ∧ 8 + len payload < 2 ^ 32 ∧
  8 + len payload ≤ len b ∧
  r = (h', set_length <$> named, set_length <$> others, overwrite (Header_wire h') b).
Proof.
  intros Hn Ho payload h'. unfold marshalBody. rewrite paramsMarshalLen_wire.
  fold payload. pose proof (len_nonneg (params_wire named)).
  pose proof (len_nonneg (params_wire others)).
  assert (Hp : len payload = len (params_wire named) + len (params_wire others)).
  { unfold payload. by rewrite params_wire_app, len_app. }
  assert (Hp' : len payload - len (params_wire named) = len (params_wire others)) by lia.
  change (make_bytes (len payload)) with ([] ++ make_bytes (len payload)).
  change 0 with (len (@nil byte)) at 1.
  rewrite Forall_app. split.
  - intros Hm. apply bind_Ok in Hm as (x & Hx & Hm).
    apply marshalParams_Ok in Hx as [He ->]; [|done|lia]. rewrite Hp' in Hm.
    apply bind_Ok in Hm as (y & Hy & Hm). apply marshalOtherParams_Ok in Hy as [He' ->]; [|done].
    cbn [app] in Hm. rewrite <-params_wire_app in Hm. fold payload in Hm.
    apply bind_Ok in Hm as (z & Hz & Hm). apply Header_MarshalTo_Ok in Hz as (H1 & H2 & ->).
    injection Hm as <-. by split_and!.
  - intros ((He & He') & H1 & H2 & ->).
    apply bind_Ok. eexists. split; [apply marshalParams_Ok; [done|lia|by split]|].
    rewrite Hp'. apply bind_Ok. eexists. split; [apply marshalOtherParams_Ok; [done|by split]|].
    cbn [app]. rewrite <-params_wire_app. fold payload.
    apply bind_Ok. eexists. split; [by apply Header_MarshalTo_Ok|]. done.
Qed.

Lemma MarshalTo_law_from_body {M} `{Message M} (m : M) named others
    (build : Header → list (option Param) → list (option Param) → M) b r :
  parameters m = named ++ others →
  Forall opt_typed named → Forall opt_typed others →
  msg_MarshalLen m = 8 + len (params_wire (parameters m)) →
  build (encoded_header m) (set_length <$> named) (set_length <$> others) =
    rebuild (encoded_header m) m →
  msg_MarshalTo m b =
    (_ ← validate m;
     if len b <? msg_MarshalLen m then Err ErrTooShortToMarshalBinary else
     '(h, named, others, b) ← marshalBody (getHeader m) named others b;
     Ok (build h named others, b)) →
  msg_MarshalTo m b = Ok r ↔
  validate m = Ok tt ∧ Forall opt_encodable (parameters m) ∧
  msg_MarshalLen m < 2 ^ 32 ∧ msg_MarshalLen m ≤ len b ∧
  r = (rebuild (encoded_header m) m, overwrite (Header_wire (encoded_header m)) b).
Proof.
  intros Hp Hn Ho Hl Hb ->. rewrite Hl, <-Hb. clear Hb. unfold encoded_header. rewrite Hp.
  split.
  - intros Hm. apply bind_Ok in Hm as ([] & Hv & Hm).
    destruct (_ <? _) eqn:Hlt; [done|]. apply bind_Ok in Hm as (x & Hx & Hm).
    apply marshalBody_Ok in Hx as (He & H1 & H2 & ->); [|done..].
    injection Hm as <-. by split_and!.
  - intros (Hv & He & H1 & H2 & ->). apply bind_Ok. exists tt. split; [done|].
    rewrite (proj2 (Z.ltb_ge _ _)) by lia.
    apply bind_Ok. eexists. split; [by apply marshalBody_Ok|]. done.
Qed.

(** *** Named fields and their tags *)

Definition field_ok (t : Z) (o : option Param) : Prop := ∀ p, o = Some p → Tag p = t.

(** A parameter of [Others] has none of the tags of the named fields. *)
Definition other_ok (tags : list Z) (o : option Param) : Prop :=
  ∃ p, o = Some p ∧ is_u16 (Tag p) ∧ Forall (λ t, (Tag p =? t) = false) tags.

Lemma field_ok_typed t o : is_u16 t → field_ok t o → opt_typed o.
Proof. intros Ht H p Hp. by rewrite (H p Hp). Qed.
Lemma other_ok_typed tags l : Forall (other_ok tags) l → Forall opt_typed l.
Proof. intros H. eapply Forall_impl; [exact H|]. by intros o (p & -> & Ht & _) q [= <-]. Qed.
Lemma field_ok_None t : field_ok t None.
Proof. by intros p. Qed.
Lemma field_ok_Some t p : Tag p = t → field_ok t (Some p).
Proof. by intros ? q [= <-]. Qed.
Lemma field_ok_set_length t o : field_ok t o → field_ok t (set_length o).
Proof. intros H q Hq. destruct o as [p|]; [|done]. injection Hq as <-.
  rewrite Tag_SetLength. by apply H. Qed.
Lemma other_ok_set_length tags l :
  Forall (other_ok tags) l → Forall (other_ok tags) (set_length <$> l).
Proof.
  intros H. apply Forall_fmap. eapply Forall_impl; [exact H|].
  intros o (p & -> & Hp). exists (SetLength p). by rewrite Tag_SetLength.
Qed.

Lemma assign_once_Ok o p r : assign_once o p = Ok r ↔ o = None ∧ r = Some p.
Proof. destruct o; cbn; naive_solver. Qed.

Lemma params_of_set l i p :
  l !! i = Some None → params_of (<[i:=Some p]> l) ≡ₚ params_of l ++ [p].
Proof.
  unfold params_of. revert i; induction l as [|o l IH]; intros i Hi; [done|].
  destruct i as [|i]; cbn in *.
  - injection Hi as ->. cbn. apply Permutation_cons_append.
  - destruct o; cbn; by rewrite IH.
Qed.

Lemma params_of_snoc named others p :
  params_of (named ++ (others ++ [Some p])) ≡ₚ params_of (named ++ others) ++ [p].
Proof. by rewrite app_assoc, params_of_app. Qed.

(** One named field of the list: [s'] is [s] with the field set. *)
Lemma foldM_opt {S} (step : S → Param → result msg_error S) s s' o l :
  (o = None → s' = s) →
  (∀ p, o = Some p → step s (SetLength p) = Ok s') →
  foldM step s (params_of (set_length o :: l)) = foldM step s' (params_of l).
Proof. intros Hn Hs. destruct o as [p|]; cbn; [by rewrite (Hs p eq_refl)|by rewrite Hn]. Qed.

(** Parameters the step appends to one list of the state. *)
Lemma foldM_collect {S} (step : S → Param → result msg_error S)
    (g : list (option Param) → S) (P : Param → Prop) l k :
  (∀ k p, P p → step (g k) p = Ok (g (k ++ [Some p]))) →
  Forall (λ o, ∃ p, o = Some p ∧ P (SetLength p)) l →
  foldM step (g k) (params_of (set_length <$> l)) = Ok (g (k ++ (set_length <$> l))).
Proof.
  intros Hs Hl. revert k.
  induction Hl as [|o l (p & -> & Hp) Hl IH]; intros k; cbn.
  { by rewrite app_nil_r. }
  rewrite (Hs _ _ Hp). cbn. unfold params_of in IH.
  rewrite IH. by rewrite <-app_assoc.
Qed.

Lemma foldM_others {S} (step : S → Param → result msg_error S)
    (g : list (option Param) → S) tags l :
  (∀ k p, Forall (λ t, (Tag p =? t) = false) tags →
          step (g k) p = Ok (g (k ++ [Some p]))) →
  Forall (other_ok tags) l →
  foldM step (g []) (params_of (set_length <$> l)) = Ok (g (set_length <$> l)).
Proof.
  intros Hs Hl. eapply (foldM_collect step g _ l []); [exact Hs|].
  eapply Forall_impl; [exact Hl|]. intros o (p & -> & _ & Hp). exists p.
  by rewrite Tag_SetLength.
Qed.

Lemma requireParameter_set_length o :
  requireParameter (set_length o) = requireParameter o.
Proof. by destruct o. Qed.
(** *** Scripts of the laws *)

#[global] Arguments params_of : simpl never.
#[global] Arguments set_length : simpl never.
#[global] Arguments params_wire : simpl never.
#[global] Arguments marshalParam : simpl never.
#[global] Arguments marshalOtherParams : simpl never.
#[global] Arguments Header_MarshalTo : simpl never.
#[global] Arguments opt_MarshalLen : simpl never.

(** One arm of a decoder's switch per case. *)
Ltac law_assign_fields :=
  split_and?; first
  [ by auto using field_ok_Some
  | apply Forall_app; split; [done|]; apply Forall_singleton;
    eexists; split; [reflexivity|]; split; [done|];
    repeat (apply Forall_cons_2; [by apply Z.eqb_neq|]); constructor ].

Ltac law_assign_params :=
  match goal with
  | |- params_of _ ≡ₚ params_of ?l ++ [?p] =>
      first [ exact (params_of_set l 0 p eq_refl) | exact (params_of_set l 1 p eq_refl)
            | exact (params_of_set l 2 p eq_refl) | exact (params_of_set l 3 p eq_refl)
            | exact (params_of_set l 4 p eq_refl) | exact (params_of_set l 5 p eq_refl)
            | exact (params_of_snoc [_] _ p) | exact (params_of_snoc [_;_] _ p)
            | exact (params_of_snoc [_;_;_] _ p) | exact (params_of_snoc [_;_;_;_] _ p)
            | exact (params_of_snoc [_;_;_;_;_] _ p)
            | exact (params_of_snoc [_;_;_;_;_;_] _ p) ]
  end.

Ltac law_assign_switch :=
  match goal with Ha : _ = Ok _ |- _ =>
    repeat match type of Ha with
    | (if Tag ?p =? ?t then _ else _) = Ok _ =>
        let E := fresh "E" in destruct (Tag p =? t) eqn:E
    | (_ ≫= _) = Ok _ =>
        let Ho := fresh "Ho" in
        apply bind_Ok in Ha; destruct Ha as (? & Ho & Ha);
        apply assign_once_Ok in Ho; destruct Ho; subst
    end; injection Ha as <-
  end; to_prop; cbn;
  (split; [law_assign_fields|split; [reflexivity|law_assign_params]]).

Ltac law_assign assign :=
  intros ? [] ? p Ht _ Hf Ha; cbn in Hf, Ha |- *; unfold assign in Ha; destruct_and? Hf;
  law_assign_switch.

(** The decoder's loop over the parameters of a message: each named field is
    met while its slot is empty, then the extension parameters. *)
Ltac law_opt assign :=
  let p := fresh "p" in let Hp := fresh "Hp" in
  intros p Hp; unfold assign; rewrite !Tag_SetLength;
  match goal with
  | H : field_ok _ ?o, Ho : ?o = Some p |- _ => rewrite !(H p Ho); by rewrite Ho
  end.

Ltac law_other assign :=
  let k := fresh "k" in let p := fresh "p" in let Hp := fresh "Hp" in
  intros k p Hp; rewrite ?Forall_cons in Hp; destruct_and? Hp; unfold assign;
  repeat match goal with H : (_ =? _) = false |- _ => rewrite H; clear H end; reflexivity.

Ltac law_assign_all assign :=
  intros ? [] Hf; cbn in Hf |- *; destruct_and? Hf; rewrite foldMi_const;
  repeat match goal with
  | |- foldM ?f ?s (params_of (set_length ?o :: ?l)) = _ =>
      match s with
      | context C [@None Param] =>
          let s' := context C [set_length o] in
          rewrite (foldM_opt f s s' o l); [|by intros ->|law_opt assign]
      end
  end;
  match goal with
  | H : Forall (other_ok ?tags) ?l |- foldM ?f ?s _ = _ =>
      match s with
      | context C [@nil (option Param)] =>
          let g := constr:(λ k : list (option Param),
                     ltac:(let t := context C [k] in exact t)) in
          apply (foldM_others f g tags l); [law_other assign|exact H]
      end
  end.

Ltac law_MarshalLen MarshalLen :=
  intros []; rewrite <-paramsMarshalLen_wire; cbn; unfold MarshalLen; cbn; lia.

(** The encoder against [marshalBody], one call at a time. *)
Ltac law_MarshalTo_body :=
  try match goal with
  | |- (?v ≫= _) = (?v ≫= _) => destruct v; cbn; try done
  end;
  match goal with
  | |- context [if ?c then _ else _] => destruct c; cbn; try done
  end;
  repeat match goal with
  | |- context [marshalParam ?o ?p ?k] =>
      destruct (marshalParam o p k) as [[[? ?] ?]| | |]; cbn; try done
  end;
  match goal with
  | |- context [marshalOtherParams ?p ?k ?l] =>
      destruct (marshalOtherParams p k l) as [[? ?]| | |]; cbn; try done
  end;
  match goal with
  | |- context [Header_MarshalTo ?h ?b] =>
      destruct (Header_MarshalTo h b) as [[? ?]| | |]; cbn; try done
  end.

(** [build] makes the message of its header, named fields and [Others]. *)
Ltac law_MarshalTo MarshalLen MarshalTo build :=
  intros m b r Hf;
  let Hl := fresh "Hl" in
  assert (Hl : msg_MarshalLen m = 8 + len (params_wire (parameters m)))
    by (clear Hf; revert m; law_MarshalLen MarshalLen);
  destruct m; cbn in Hf; destruct_and? Hf;
  eapply (MarshalTo_law_from_body _ _ _ build);
    [ reflexivity
    | repeat (apply Forall_cons_2; [eapply field_ok_typed; [|eassumption]; done|]);
      constructor
    | by eapply other_ok_typed
    | exact Hl
    | reflexivity
    | rewrite <-paramsMarshalLen_wire in Hl; cbn in Hl |- *; unfold MarshalTo;
      rewrite Hl; cbn; rewrite Z.add_simpl_l; law_MarshalTo_body ].

Ltac law_fields_rebuild :=
  intros ? [] Hf; cbn in Hf |- *; destruct_and? Hf;
  split_and?; auto using field_ok_set_length, other_ok_set_length.

Ltac law_assign_safe assign :=
  intros ? [] ?; cbn; unfold assign;
  repeat match goal with
  | |- safe (if ?c then _ else _) => destruct c
  | |- safe (assign_once ?o ?p ≫= _) => destruct o; cbn
  end; done.

(** All the laws of a message type with named fields; [unfold_required] opens
    the check of the mandatory ones. *)
Ltac message_laws MarshalLen MarshalTo assign build unfold_required :=
  split;
  [ law_MarshalLen MarshalLen
  | done
  | by intros ? []
  | law_MarshalTo MarshalLen MarshalTo build
  | intros ?; cbn; split_and?; auto using field_ok_None
  | law_assign assign
  | law_assign_all assign
  | intros ? []; cbn; unfold_required; cbn; by rewrite ?requireParameter_set_length
  | law_fields_rebuild
  | law_assign_safe assign
  | intros []; cbn; unfold_required; repeat first
      [ done | by auto with safety | apply safe_bind; [by auto with safety|intros ? _] ] ].
