(* ===== verification/MsgData.v ===== *)
(** * Payload data (package messages, class Transfer)

    data.go: the DATA message, its parameter rules, the encoder that writes
    the named parameters straight into the destination, the staged encoder it
    falls back to, the decoder with the position rule of the Network
    Appearance, and its instance of the interface [Message].  [MarshalTo]
    returns the buffer on success only: what a failing call has already
    written to it is not modelled. *)

From S2P Require Import Prelude Params ParamsFacts Nested Header Codec.

Module Data.

Record Data : Set := mk {
  header : Header;
  NetworkAppearance : option Param;
  RoutingContext : option Param;
  ProtocolData : option Param;
  CorrelationID : option Param;
  Others : list (option Param);
}.

#[export] Instance Data_eq_dec : EqDecision Data.
Proof. solve_decision. Defined.

Definition MarshalLen (d : Data) : Z :=
  8 + opt_MarshalLen (NetworkAppearance d) + opt_MarshalLen (RoutingContext d) +
  opt_MarshalLen (ProtocolData d) + opt_MarshalLen (CorrelationID d) +
  paramsMarshalLen (Others d).

Definition SetLength (d : Data) : Data :=
  mk (with_Length (u32 (MarshalLen d)) (header d))
    (set_length (NetworkAppearance d)) (set_length (RoutingContext d))
    (set_length (ProtocolData d)) (set_length (CorrelationID d))
    (setParamLengths (Others d)).

Definition NewData (nwApr rtCtx pd corrID : option Param) : Data :=
  SetLength (mk (header_for MsgClassTransfer MsgTypePayloadData) nwApr rtCtx pd corrID []).

(** One row of the table of rules; a zero length is no rule. *)
Definition checkRule (parameter : option Param) (tag exactLength minimumLength : Z)
    : result msg_error () :=
  match parameter with
  | None => Ok tt
  | Some parameter =>
      if negb (Tag parameter =? tag) then Err (ParamsError ErrInvalidType) else
      let valueLength := len (Params.Data parameter) in
      if negb (exactLength =? 0) && negb (valueLength =? exactLength)
      then Err (ParamsError ErrInvalidLength) else
      if negb (minimumLength =? 0) && (valueLength <? minimumLength)
      then Err (ParamsError ErrInvalidLength) else Ok tt
  end.

Definition isDataTag (tag : Z) : bool :=
  (tag =? Params.NetworkAppearance) || (tag =? Params.RoutingContext) ||
  (tag =? Params.ProtocolData) || (tag =? Params.CorrelationID).

Definition hasDataTag (parameter : option Param) : bool :=
  match parameter with None => false | Some p => isDataTag (Tag p) end.

Definition validateParameters (d : Data) : result msg_error () :=
  _ ← requireParameter (ProtocolData d);
  _ ← checkRule (NetworkAppearance d) Params.NetworkAppearance 4 0;
  _ ← checkRule (RoutingContext d) Params.RoutingContext 4 0;
  _ ← checkRule (ProtocolData d) Params.ProtocolData 0 12;
  _ ← checkRule (CorrelationID d) Params.CorrelationID 4 0;
  ensure (negb (existsb hasDataTag (Others d))) ErrInvalidParameter.

Definition marshalToStaged (d : Data) (b : bytes) : result msg_error (Data * bytes) :=
  let payload := make_bytes (MarshalLen d - 8) in
  let offset := 0 in
  '(nwApr, payload, offset) ← marshalParam (NetworkAppearance d) payload offset;
  '(rtCtx, payload, offset) ← marshalParam (RoutingContext d) payload offset;
  '(pd, payload, offset) ← marshalParam (ProtocolData d) payload offset;
  '(corrID, payload, offset) ← marshalParam (CorrelationID d) payload offset;
  '(others, payload) ← marshalOtherParams payload offset (Others d);
  '(h, b) ← Header_MarshalTo (with_Payload payload (header d)) b;
  Ok (mk h nwApr rtCtx pd corrID others, b).

(** Without extension parameters, [payload] is [b[8:d.MarshalLen()]]: what is
    written to it is written to [b]. *)
Definition MarshalTo (d : Data) (b : bytes) : result msg_error (Data * bytes) :=
  _ ← validateParameters d;
  if len b <? MarshalLen d then Err ErrTooShortToMarshalBinary else
  if negb (len (Others d) =? 0) then marshalToStaged d b else
  payload ← slice 8 (MarshalLen d) b;
  let offset := 0 in
  '(nwApr, payload, offset) ← marshalParam (NetworkAppearance d) payload offset;
  '(rtCtx, payload, offset) ← marshalParam (RoutingContext d) payload offset;
  '(pd, payload, offset) ← marshalParam (ProtocolData d) payload offset;
  '(corrID, payload, _) ← marshalParam (CorrelationID d) payload offset;
  let b := take 8 b ++ payload ++ drop (Z.to_nat (MarshalLen d)) b in
  '(h, b) ← Header_MarshalTo (with_Payload payload (header d)) b;
  Ok (mk h nwApr rtCtx pd corrID (Others d), b).

Definition MarshalBinary (d : Data) : result msg_error (Data * bytes) :=
  MarshalTo d (make_bytes (MarshalLen d)).

(** The body of the decoder's loop, [i] the position of the parameter. *)
Definition assign (i : nat) (d : Data) (pr : Param) : result msg_error Data :=
  let '(mk h nwApr rtCtx pd corrID others) := d in
  if Tag pr =? Params.NetworkAppearance then
    if bool_decide (i ≠ 0%nat) then Err ErrInvalidParameter
    else Ok (mk h (Some pr) rtCtx pd corrID others)
  else if Tag pr =? Params.RoutingContext then
    rtCtx ← assign_once rtCtx pr; Ok (mk h nwApr rtCtx pd corrID others)
  else if Tag pr =? Params.ProtocolData then
    pd ← assign_once pd pr; Ok (mk h nwApr rtCtx pd corrID others)
  else if Tag pr =? Params.CorrelationID then
    corrID ← assign_once corrID pr; Ok (mk h nwApr rtCtx pd corrID others)
  else Ok (mk h nwApr rtCtx pd corrID (others ++ [Some pr])).

Definition UnmarshalBinary : bytes → result msg_error Data :=
  unmarshalMessage MsgClassTransfer MsgTypePayloadData
    (λ h, mk h None None None None []) assign validateParameters.

Definition named (d : Data) : list (option Param) :=
  [NetworkAppearance d; RoutingContext d; ProtocolData d; CorrelationID d].
Definition data_tags : list Z :=
  [Params.NetworkAppearance; Params.RoutingContext; Params.ProtocolData;
   Params.CorrelationID].

#[export] Instance Data_Message : Message Data := {
  msgClass := MsgClassTransfer;
  msgType := MsgTypePayloadData;
  getHeader := header;
  parameters d := named d ++ Others d;
  zero h := mk h None None None None [];
  assign := assign;
  validate := validateParameters;
  fields_ok d :=
    field_ok Params.NetworkAppearance (NetworkAppearance d) ∧
    field_ok Params.RoutingContext (RoutingContext d) ∧
    field_ok Params.ProtocolData (ProtocolData d) ∧
    field_ok Params.CorrelationID (CorrelationID d) ∧
    Forall (other_ok data_tags) (Others d);
  rebuild h d := mk h (set_length (NetworkAppearance d)) (set_length (RoutingContext d))
    (set_length (ProtocolData d)) (set_length (CorrelationID d))
    (set_length <$> Others d);
  msg_MarshalLen := MarshalLen;
  msg_MarshalTo := MarshalTo;
}.

(** ** The rules are those of the encoded message too *)

Lemma checkRule_set_length o tag e k : checkRule (set_length o) tag e k = checkRule o tag e k.
Proof. destruct o as [p|]; [|done]. unfold set_length. cbn. by rewrite Tag_SetLength, Data_SetLength. Qed.

Lemma existsb_set_length l :
  existsb hasDataTag (set_length <$> l) = existsb hasDataTag l.
Proof.
  induction l as [|[p|] l IH]; cbn [fmap list_fmap existsb]; [done| |by rewrite IH].
  unfold set_length at 1. cbn. by rewrite Tag_SetLength, IH.
Qed.

Lemma Data_validate_set_length h d :
  validateParameters (rebuild h d) = validateParameters d.
Proof.
  destruct d. unfold validateParameters, rebuild. cbn.
  by rewrite requireParameter_set_length, !checkRule_set_length, existsb_set_length.
Qed.

Lemma safe_checkRule o tag e k : safe (checkRule o tag e k).
Proof. destruct o; cbn; [|done]. by repeat case_match. Qed.
#[local] Hint Resolve safe_checkRule : safety.

Lemma safe_validateParameters d : safe (validateParameters d).
Proof.
  unfold validateParameters.
  do 5 (apply safe_bind; [by auto with safety|intros _ _]). apply safe_ensure.
Qed.

(** ** The direct encoder against the staged one *)

(** The direct encoder with its calls folded. *)
Definition marshalDirect (d : Data) (b : bytes)
    : result msg_error (Header * list (option Param) * bytes) :=
  payload ← slice 8 (MarshalLen d) b;
  '(named, payload, _) ← marshalParams (named d) payload 0;
  let b := take 8 b ++ payload ++ drop (Z.to_nat (MarshalLen d)) b in
  '(h, b) ← Header_MarshalTo (with_Payload payload (header d)) b;
  Ok (h, named, b).

Lemma overwrite_window w (b p : bytes) n :
  len w = 8 + len p → 8 + len p = n → n ≤ len b →
  overwrite w (take 8 b ++ p ++ drop (Z.to_nat n) b) = overwrite w b.
Proof.
  intros Hw Hp Hn. unfold overwrite. f_equal. unfold len in *.
  rewrite app_assoc, drop_app_length'; [f_equal; lia|].
  rewrite length_app, length_take. lia.
Qed.

Lemma marshalDirect_Ok d b r :
  Forall opt_typed (named d) → Others d = [] → MarshalLen d ≤ len b →
  let payload := params_wire (named d) in
  let h := with_Length (8 + len payload) (with_Payload payload (header d)) in
  marshalDirect d b = Ok r ↔
  Forall opt_encodable (named d) ∧ MarshalLen d < 2 ^ 32 ∧
  r = (h, set_length <$> named d, overwrite (Header_wire h) b).
Proof.
  intros Ht Ho Hb payload h. pose proof (len_nonneg payload) as Hnn.
  assert (MarshalLen d = 8 + len payload) as Hl.
  { unfold payload. rewrite <-paramsMarshalLen_wire. unfold MarshalLen. rewrite Ho.
    cbn. lia. }
  destruct (slice_total (E:=msg_error) 8 (MarshalLen d) b) as [mid Hmid]; [lia..|].
  unfold marshalDirect. rewrite Hmid. cbn [mbind result_bind].
  apply slice_Ok in Hmid as (_ & _ & Hlm & _).
  assert (drop (length payload) mid = []) as Hd.
  { apply drop_ge. unfold len in *. lia. }
  assert (len (Header_wire h) = 8 + len payload) as Hw by apply len_Header_wire.
  assert (Hov : overwrite (Header_wire h)
    (take 8 b ++ payload ++ drop (Z.to_nat (MarshalLen d)) b) =
    overwrite (Header_wire h) b) by (apply overwrite_window; lia).
  assert (Hlm' : len payload ≤ len mid) by lia.
  change mid with ([] ++ mid). change 0 with (len (@nil byte)) at 1.
  split.
  - intros H. apply bind_Ok in H as (x & Hx & H).
    apply marshalParams_over in Hx as [He ->]; [|done|exact Hlm'].
    cbn [app] in H. fold payload in H. rewrite Hd, app_nil_r in H.
    apply bind_Ok in H as (y & Hy & H). apply Header_MarshalTo_Ok in Hy as (Hy1 & _ & ->).
    injection H as <-. split; [done|]. split; [by rewrite Hl|]. by rewrite <-Hov.
  - intros (He & Hl32 & ->). apply bind_Ok. eexists. split.
    { apply marshalParams_over; [done|exact Hlm'|by split]. }
    cbn [app]. fold payload. rewrite Hd, app_nil_r.
    apply bind_Ok. eexists. split.
    { apply Header_MarshalTo_Ok. split; [by rewrite Hl in Hl32|]. split; [|reflexivity].
      unfold Header_MarshalLen, len in *. cbn [with_Payload h_Payload].
      rewrite !length_app, length_take, length_drop. lia. }
    cbn. by rewrite <-Hov.
Qed.

(** Without extension parameters the direct encoder writes what the staged one
    would. *)
Lemma MarshalTo_direct d b :
  Others d = [] →
  MarshalTo d b =
  (_ ← validateParameters d;
   if len b <? MarshalLen d then Err ErrTooShortToMarshalBinary else
   '(h, named, b) ← marshalDirect d b;
   match named with
   | [nwApr; rtCtx; pd; corrID] => Ok (mk h nwApr rtCtx pd corrID (Others d), b)
   | _ => Panic
   end).
Proof.
  intros Ho. unfold MarshalTo. rewrite Ho.
  destruct (validateParameters d); cbn; [|done..].
  destruct (_ <? _); [done|]. unfold marshalDirect. cbn.
  destruct (slice _ _ _); cbn; [|done..].
  repeat match goal with
  | |- context [marshalParam ?o ?p ?k] =>
      destruct (marshalParam o p k) as [[[? ?] ?]| | |]; cbn; try done
  end.
  destruct (Header_MarshalTo _ _) as [[? ?]| | |]; cbn; done.
Qed.

Lemma named_typed d : fields_ok d → Forall opt_typed (named d).
Proof.
  intros (H1 & H2 & H3 & H4 & _). unfold named.
  repeat (apply Forall_cons_2; [eapply field_ok_typed; [|eassumption]; done|]); constructor.
Qed.

Lemma MarshalLen_eq d : MarshalLen d = 8 + len (params_wire (parameters d)).
Proof. destruct d. rewrite <-paramsMarshalLen_wire. unfold MarshalLen. cbn. lia. Qed.

Lemma Data_MarshalTo_Ok d b r :
  fields_ok d →
  MarshalTo d b = Ok r ↔
  validateParameters d = Ok tt ∧ Forall opt_encodable (parameters d) ∧
  MarshalLen d < 2 ^ 32 ∧ MarshalLen d ≤ len b ∧
  r = (rebuild (encoded_header d) d, overwrite (Header_wire (encoded_header d)) b).
Proof.
  intros Hf. pose proof (named_typed d Hf) as Ht.
  destruct (Others d) as [|o os] eqn:Ho.
  - rewrite (MarshalTo_direct d b Ho).
    assert (parameters d = named d) as Hp.
    { change (named d ++ Others d = named d). by rewrite Ho, app_nil_r. }
    unfold encoded_header. rewrite Hp.
    split.
    + intros Hm. apply bind_Ok in Hm as ([] & Hv & Hm). destruct (_ <? _) eqn:Hlt; [done|].
      to_prop. apply bind_Ok in Hm as (x & Hx & Hm).
      apply marshalDirect_Ok in Hx as (He & Hl & ->); [|done..].
      injection Hm as <-. split_and!; try done. cbn. by rewrite Ho.
    + intros (Hv & He & Hl & Hb & ->). apply bind_Ok. exists tt. split; [done|].
      rewrite (proj2 (Z.ltb_ge _ _)) by lia. apply bind_Ok. eexists.
      split; [by apply marshalDirect_Ok|]. cbn. by rewrite Ho.
  - change (MarshalTo d b) with (msg_MarshalTo d b).
    refine (MarshalTo_law_from_body d (named d) (Others d)
      (λ h l k, match l with [x1; x2; x3; x4] => mk h x1 x2 x3 x4 k | _ => d end)
      b r _ _ _ _ _ _).
    + reflexivity.
    + done.
    + eapply other_ok_typed, Hf.
    + apply MarshalLen_eq.
    + reflexivity.
    + cbn. unfold MarshalTo, marshalToStaged, marshalBody. rewrite Ho.
      rewrite (MarshalLen_eq d), <-paramsMarshalLen_wire. cbn. rewrite Ho, Z.add_simpl_l.
      law_MarshalTo_body.
Qed.

(** ** The decoder's loop *)

Lemma Tags_set_length d p :
  fields_ok d →
  p ∈ params_of (set_length <$> ([RoutingContext d; ProtocolData d; CorrelationID d] ++
                                 Others d)) →
  (Tag p =? Params.NetworkAppearance) = false.
Proof.
  intros (_ & H2 & H3 & H4 & H5) Hp. apply Z.eqb_neq.
  unfold params_of in Hp. apply list_elem_of_omap in Hp as (o & Ho & Hop).
  unfold id in Hop. subst o. apply list_elem_of_fmap in Ho as ([q|] & Hq & Ho); [|done].
  injection Hq as ->. rewrite Tag_SetLength.
  rewrite !list_elem_of_In in Ho. cbn in Ho.
  destruct Ho as [Ho|[Ho|[Ho|Ho]]].
  - by rewrite (H2 q Ho).
  - by rewrite (H3 q Ho).
  - by rewrite (H4 q Ho).
  - rewrite <-list_elem_of_In in Ho.
    destruct (proj1 (Forall_forall _ _) H5 _ Ho) as (q' & [= <-] & _ & Hq).
    apply Forall_cons in Hq as [Hq _]. by apply Z.eqb_neq.
Qed.

(** After the first parameter, the position no longer matters. *)
Lemma assign_later i d p :
  (Tag p =? Params.NetworkAppearance) = false → assign i d p = assign 1 d p.
Proof. intros Hp. unfold assign. by rewrite Hp. Qed.

Lemma assign_rest i h nwApr d :
  fields_ok d →
  foldMi assign i (mk h nwApr None None None [])
    (params_of (set_length <$> ([RoutingContext d; ProtocolData d; CorrelationID d] ++
                                Others d))) =
  Ok (mk h nwApr (set_length (RoutingContext d)) (set_length (ProtocolData d))
        (set_length (CorrelationID d)) (set_length <$> Others d)).
Proof.
  intros Hf.
  rewrite (foldMi_ext assign (assign 1)); [|intros j s a Ha; apply assign_later;
    by eapply Tags_set_length].
  destruct d; cbn in Hf |- *; destruct_and? Hf.
  rewrite (foldM_opt (assign 1) _ (mk h nwApr (set_length RoutingContext0) None None []));
    [|by intros ->|law_opt assign].
  rewrite (foldM_opt (assign 1) _ (mk h nwApr (set_length RoutingContext0)
    (set_length ProtocolData0) None [])); [|by intros ->|law_opt assign].
  rewrite (foldM_opt (assign 1) _ (mk h nwApr (set_length RoutingContext0)
    (set_length ProtocolData0) (set_length CorrelationID0) []));
    [|by intros ->|law_opt assign].
  apply (foldM_others (assign 1) (λ k, mk h nwApr (set_length RoutingContext0)
    (set_length ProtocolData0) (set_length CorrelationID0) k) data_tags); [|done].
  unfold data_tags. law_other assign.
Qed.

Lemma Data_assign_all h d :
  fields_ok d →
  foldMi assign 0 (zero h) (params_of (set_length <$> parameters d)) = Ok (rebuild h d).
Proof.
  intros Hf. pose proof Hf as (H1 & _).
  change (parameters d) with (NetworkAppearance d ::
    ([RoutingContext d; ProtocolData d; CorrelationID d] ++ Others d)).
  destruct (NetworkAppearance d) as [p|] eqn:Hp; rewrite fmap_cons.
  - change (params_of (set_length (Some p) :: ?l)) with (Params.SetLength p :: params_of l).
    cbn [foldMi].
    assert (assign 0 (zero h) (Params.SetLength p) =
      Ok (mk h (set_length (Some p)) None None None [])) as ->.
    { unfold assign, zero. cbn [Data_Message]. rewrite Tag_SetLength, (H1 p eq_refl). done. }
    cbn [mbind result_bind]. rewrite (assign_rest _ _ _ d Hf). cbn. by rewrite Hp.
  - change (params_of (set_length None :: ?l)) with (params_of l).
    etransitivity; [apply (assign_rest 0 h None d Hf)|]. cbn. by rewrite Hp.
Qed.

Lemma Data_assign_one i d d' p :
  is_u16 (Tag p) → i = length (params_of (parameters d)) →
  fields_ok d → assign i d p = Ok d' →
  fields_ok d' ∧ getHeader d' = getHeader d ∧
  params_of (parameters d') ≡ₚ params_of (parameters d) ++ [p].
Proof.
  intros Ht Hi Hf Ha. destruct (Tag p =? Params.NetworkAppearance) eqn:E.
  - destruct d as [h na rc pd ci os]. unfold assign in Ha. rewrite E in Ha.
    case_bool_decide as Hz; [done|]. injection Ha as <-.
    subst i. destruct na; [done|]. cbn in Hf |- *. destruct_and? Hf. to_prop.
    split; [split_and?; auto using field_ok_Some|]. split; [done|].
    law_assign_params.
  - rewrite (assign_later _ _ _ E) in Ha. clear Hi.
    revert d d' p Ht Hf Ha E. intros [] ? p Ht Hf Ha E; cbn in Hf |- *.
    unfold assign in Ha. rewrite E in Ha. destruct_and? Hf.
    law_assign_switch.
Qed.

#[export] Instance Data_laws : MessageLaws Data.
Proof.
  split.
  - apply MarshalLen_eq.
  - done.
  - by intros h [].
  - apply Data_MarshalTo_Ok.
  - intros h; cbn; split_and?; auto using field_ok_None.
  - apply Data_assign_one.
  - apply Data_assign_all.
  - intros h d Hv. by transitivity (validateParameters d); [apply Data_validate_set_length|].
  - law_fields_rebuild.
  - law_assign_safe assign.
  - apply safe_validateParameters.
Qed.

End Data.
