(* ===== verification/MsgSsnm.v ===== *)
(** * Signalling network management messages (package messages, class SSNM)

    duna.go, dava.go, daud.go, drst.go, scon.go and dupu.go: the record, constructor, length, encoder and decoder of
    each message, and its instance of the interface [Message]. *)

From S2P Require Import Prelude Params ParamsFacts Nested Header Codec.

(** ** Destination Unavailable (duna.go) *)

Module DestinationUnavailable.

Record DestinationUnavailable : Set := mk {
  header : Header;
  NetworkAppearance : option Param;
  RoutingContext : option Param;
  AffectedPointCode : option Param;
  InfoString : option Param;
  Others : list (option Param);
}.

#[export] Instance DestinationUnavailable_eq_dec : EqDecision DestinationUnavailable.
Proof. solve_decision. Defined.

Definition MarshalLen (m : DestinationUnavailable) : Z :=
  8 + opt_MarshalLen (NetworkAppearance m) +
  opt_MarshalLen (RoutingContext m) +
  opt_MarshalLen (AffectedPointCode m) +
  opt_MarshalLen (InfoString m) +
  paramsMarshalLen (Others m).

Definition SetLength (m : DestinationUnavailable) : DestinationUnavailable :=
  mk (with_Length (u32 (MarshalLen m)) (header m))
    (set_length (NetworkAppearance m))
    (set_length (RoutingContext m))
    (set_length (AffectedPointCode m))
    (set_length (InfoString m))
    (setParamLengths (Others m)).

Definition NewDestinationUnavailable (nwApr rtCtx apcs info : option Param) : DestinationUnavailable :=
  SetLength (mk (header_for MsgClassSSNM MsgTypeDestinationUnavailable) nwApr rtCtx apcs info []).

Definition requireParameters (m : DestinationUnavailable) : result msg_error () :=
  requireParameter (AffectedPointCode m).

Definition MarshalTo (m : DestinationUnavailable) (b : bytes) : result msg_error (DestinationUnavailable * bytes) :=
  _ ← requireParameters m;
  if len b <? MarshalLen m then Err ErrTooShortToMarshalBinary else
  let payload := make_bytes (MarshalLen m - 8) in
  let offset := 0 in
  '(nwApr, payload, offset) ← marshalParam (NetworkAppearance m) payload offset;
  '(rtCtx, payload, offset) ← marshalParam (RoutingContext m) payload offset;
  '(apcs, payload, offset) ← marshalParam (AffectedPointCode m) payload offset;
  '(info, payload, offset) ← marshalParam (InfoString m) payload offset;
  '(others, payload) ← marshalOtherParams payload offset (Others m);
  '(h, b) ← Header_MarshalTo (with_Payload payload (header m)) b;
  Ok (mk h nwApr rtCtx apcs info others, b).

Definition MarshalBinary (m : DestinationUnavailable) : result msg_error (DestinationUnavailable * bytes) :=
  MarshalTo m (make_bytes (MarshalLen m)).

(** The body of the decoder's loop. *)
Definition assign (m : DestinationUnavailable) (pr : Param) : result msg_error DestinationUnavailable :=
  let '(mk h nwApr rtCtx apcs info others) := m in
  if Tag pr =? Params.NetworkAppearance then
    nwApr ← assign_once nwApr pr; Ok (mk h nwApr rtCtx apcs info others)
  else if Tag pr =? Params.RoutingContext then
    rtCtx ← assign_once rtCtx pr; Ok (mk h nwApr rtCtx apcs info others)
  else if Tag pr =? Params.AffectedPointCode then
    apcs ← assign_once apcs pr; Ok (mk h nwApr rtCtx apcs info others)
  else if Tag pr =? Params.InfoString then
    info ← assign_once info pr; Ok (mk h nwApr rtCtx apcs info others)
  else Ok (mk h nwApr rtCtx apcs info (others ++ [Some pr])).

Definition UnmarshalBinary : bytes → result msg_error DestinationUnavailable :=
  unmarshalMessage MsgClassSSNM MsgTypeDestinationUnavailable (λ h, mk h None None None None []) (λ _, assign) requireParameters.

#[export] Instance DestinationUnavailable_Message : Message DestinationUnavailable := {
  msgClass := MsgClassSSNM;
  msgType := MsgTypeDestinationUnavailable;
  getHeader := header;
  parameters m := [NetworkAppearance m; RoutingContext m; AffectedPointCode m; InfoString m] ++ Others m;
  zero h := mk h None None None None [];
  assign := λ _, assign;
  validate := requireParameters;
  fields_ok m :=
    field_ok Params.NetworkAppearance (NetworkAppearance m) ∧
    field_ok Params.RoutingContext (RoutingContext m) ∧
    field_ok Params.AffectedPointCode (AffectedPointCode m) ∧
    field_ok Params.InfoString (InfoString m) ∧
    Forall (other_ok [Params.NetworkAppearance; Params.RoutingContext; Params.AffectedPointCode; Params.InfoString]) (Others m);
  rebuild h m := mk h (set_length (NetworkAppearance m)) (set_length (RoutingContext m)) (set_length (AffectedPointCode m)) (set_length (InfoString m))
    (set_length <$> Others m);
  msg_MarshalLen := MarshalLen;
  msg_MarshalTo := MarshalTo;
}.

#[export] Instance DestinationUnavailable_laws : MessageLaws DestinationUnavailable.
Proof.
  message_laws MarshalLen MarshalTo assign
    (λ (h : Header) (l k : list (option Param)), match l with
      | [nwApr; rtCtx; apcs; info] => mk h nwApr rtCtx apcs info k
      | _ => mk h None None None None [] end)
    ltac:(unfold requireParameters).
Qed.

End DestinationUnavailable.

(** ** Destination Available (dava.go) *)

Module DestinationAvailable.

Record DestinationAvailable : Set := mk {
  header : Header;
  NetworkAppearance : option Param;
  RoutingContext : option Param;
  AffectedPointCode : option Param;
  InfoString : option Param;
  Others : list (option Param);
}.

#[export] Instance DestinationAvailable_eq_dec : EqDecision DestinationAvailable.
Proof. solve_decision. Defined.

Definition MarshalLen (m : DestinationAvailable) : Z :=
  8 + opt_MarshalLen (NetworkAppearance m) +
  opt_MarshalLen (RoutingContext m) +
  opt_MarshalLen (AffectedPointCode m) +
  opt_MarshalLen (InfoString m) +
  paramsMarshalLen (Others m).

Definition SetLength (m : DestinationAvailable) : DestinationAvailable :=
  mk (with_Length (u32 (MarshalLen m)) (header m))
    (set_length (NetworkAppearance m))
    (set_length (RoutingContext m))
    (set_length (AffectedPointCode m))
    (set_length (InfoString m))
    (setParamLengths (Others m)).

Definition NewDestinationAvailable (nwApr rtCtx apcs info : option Param) : DestinationAvailable :=
  SetLength (mk (header_for MsgClassSSNM MsgTypeDestinationAvailable) nwApr rtCtx apcs info []).

Definition requireParameters (m : DestinationAvailable) : result msg_error () :=
  requireParameter (AffectedPointCode m).

Definition MarshalTo (m : DestinationAvailable) (b : bytes) : result msg_error (DestinationAvailable * bytes) :=
  _ ← requireParameters m;
  if len b <? MarshalLen m then Err ErrTooShortToMarshalBinary else
  let payload := make_bytes (MarshalLen m - 8) in
  let offset := 0 in
  '(nwApr, payload, offset) ← marshalParam (NetworkAppearance m) payload offset;
  '(rtCtx, payload, offset) ← marshalParam (RoutingContext m) payload offset;
  '(apcs, payload, offset) ← marshalParam (AffectedPointCode m) payload offset;
  '(info, payload, offset) ← marshalParam (InfoString m) payload offset;
  '(others, payload) ← marshalOtherParams payload offset (Others m);
  '(h, b) ← Header_MarshalTo (with_Payload payload (header m)) b;
  Ok (mk h nwApr rtCtx apcs info others, b).

Definition MarshalBinary (m : DestinationAvailable) : result msg_error (DestinationAvailable * bytes) :=
  MarshalTo m (make_bytes (MarshalLen m)).

(** The body of the decoder's loop. *)
Definition assign (m : DestinationAvailable) (pr : Param) : result msg_error DestinationAvailable :=
  let '(mk h nwApr rtCtx apcs info others) := m in
  if Tag pr =? Params.NetworkAppearance then
    nwApr ← assign_once nwApr pr; Ok (mk h nwApr rtCtx apcs info others)
  else if Tag pr =? Params.RoutingContext then
    rtCtx ← assign_once rtCtx pr; Ok (mk h nwApr rtCtx apcs info others)
  else if Tag pr =? Params.AffectedPointCode then
    apcs ← assign_once apcs pr; Ok (mk h nwApr rtCtx apcs info others)
  else if Tag pr =? Params.InfoString then
    info ← assign_once info pr; Ok (mk h nwApr rtCtx apcs info others)
  else Ok (mk h nwApr rtCtx apcs info (others ++ [Some pr])).

Definition UnmarshalBinary : bytes → result msg_error DestinationAvailable :=
  unmarshalMessage MsgClassSSNM MsgTypeDestinationAvailable (λ h, mk h None None None None []) (λ _, assign) requireParameters.

#[export] Instance DestinationAvailable_Message : Message DestinationAvailable := {
  msgClass := MsgClassSSNM;
  msgType := MsgTypeDestinationAvailable;
  getHeader := header;
  parameters m := [NetworkAppearance m; RoutingContext m; AffectedPointCode m; InfoString m] ++ Others m;
  zero h := mk h None None None None [];
  assign := λ _, assign;
  validate := requireParameters;
  fields_ok m :=
    field_ok Params.NetworkAppearance (NetworkAppearance m) ∧
    field_ok Params.RoutingContext (RoutingContext m) ∧
    field_ok Params.AffectedPointCode (AffectedPointCode m) ∧
    field_ok Params.InfoString (InfoString m) ∧
    Forall (other_ok [Params.NetworkAppearance; Params.RoutingContext; Params.AffectedPointCode; Params.InfoString]) (Others m);
  rebuild h m := mk h (set_length (NetworkAppearance m)) (set_length (RoutingContext m)) (set_length (AffectedPointCode m)) (set_length (InfoString m))
    (set_length <$> Others m);
  msg_MarshalLen := MarshalLen;
  msg_MarshalTo := MarshalTo;
}.

#[export] Instance DestinationAvailable_laws : MessageLaws DestinationAvailable.
Proof.
  message_laws MarshalLen MarshalTo assign
    (λ (h : Header) (l k : list (option Param)), match l with
      | [nwApr; rtCtx; apcs; info] => mk h nwApr rtCtx apcs info k
      | _ => mk h None None None None [] end)
    ltac:(unfold requireParameters).
Qed.

End DestinationAvailable.

(** ** Destination State Audit (daud.go) *)

Module DestinationStateAudit.

Record DestinationStateAudit : Set := mk {
  header : Header;
  NetworkAppearance : option Param;
  RoutingContext : option Param;
  AffectedPointCode : option Param;
  InfoString : option Param;
  Others : list (option Param);
}.

#[export] Instance DestinationStateAudit_eq_dec : EqDecision DestinationStateAudit.
Proof. solve_decision. Defined.

Definition MarshalLen (m : DestinationStateAudit) : Z :=
  8 + opt_MarshalLen (NetworkAppearance m) +
  opt_MarshalLen (RoutingContext m) +
  opt_MarshalLen (AffectedPointCode m) +
  opt_MarshalLen (InfoString m) +
  paramsMarshalLen (Others m).

Definition SetLength (m : DestinationStateAudit) : DestinationStateAudit :=
  mk (with_Length (u32 (MarshalLen m)) (header m))
    (set_length (NetworkAppearance m))
    (set_length (RoutingContext m))
    (set_length (AffectedPointCode m))
    (set_length (InfoString m))
    (setParamLengths (Others m)).

Definition NewDestinationStateAudit (nwApr rtCtx apcs info : option Param) : DestinationStateAudit :=
  SetLength (mk (header_for MsgClassSSNM MsgTypeDestinationStateAudit) nwApr rtCtx apcs info []).

Definition requireParameters (m : DestinationStateAudit) : result msg_error () :=
  requireParameter (AffectedPointCode m).

Definition MarshalTo (m : DestinationStateAudit) (b : bytes) : result msg_error (DestinationStateAudit * bytes) :=
  _ ← requireParameters m;
  if len b <? MarshalLen m then Err ErrTooShortToMarshalBinary else
  let payload := make_bytes (MarshalLen m - 8) in
  let offset := 0 in
  '(nwApr, payload, offset) ← marshalParam (NetworkAppearance m) payload offset;
  '(rtCtx, payload, offset) ← marshalParam (RoutingContext m) payload offset;
  '(apcs, payload, offset) ← marshalParam (AffectedPointCode m) payload offset;
  '(info, payload, offset) ← marshalParam (InfoString m) payload offset;
  '(others, payload) ← marshalOtherParams payload offset (Others m);
  '(h, b) ← Header_MarshalTo (with_Payload payload (header m)) b;
  Ok (mk h nwApr rtCtx apcs info others, b).

Definition MarshalBinary (m : DestinationStateAudit) : result msg_error (DestinationStateAudit * bytes) :=
  MarshalTo m (make_bytes (MarshalLen m)).

(** The body of the decoder's loop. *)
Definition assign (m : DestinationStateAudit) (pr : Param) : result msg_error DestinationStateAudit :=
  let '(mk h nwApr rtCtx apcs info others) := m in
  if Tag pr =? Params.NetworkAppearance then
    nwApr ← assign_once nwApr pr; Ok (mk h nwApr rtCtx apcs info others)
  else if Tag pr =? Params.RoutingContext then
    rtCtx ← assign_once rtCtx pr; Ok (mk h nwApr rtCtx apcs info others)
  else if Tag pr =? Params.AffectedPointCode then
    apcs ← assign_once apcs pr; Ok (mk h nwApr rtCtx apcs info others)
  else if Tag pr =? Params.InfoString then
    info ← assign_once info pr; Ok (mk h nwApr rtCtx apcs info others)
  else Ok (mk h nwApr rtCtx apcs info (others ++ [Some pr])).

Definition UnmarshalBinary : bytes → result msg_error DestinationStateAudit :=
  unmarshalMessage MsgClassSSNM MsgTypeDestinationStateAudit (λ h, mk h None None None None []) (λ _, assign) requireParameters.

#[export] Instance DestinationStateAudit_Message : Message DestinationStateAudit := {
  msgClass := MsgClassSSNM;
  msgType := MsgTypeDestinationStateAudit;
  getHeader := header;
  parameters m := [NetworkAppearance m; RoutingContext m; AffectedPointCode m; InfoString m] ++ Others m;
  zero h := mk h None None None None [];
  assign := λ _, assign;
  validate := requireParameters;
  fields_ok m :=
    field_ok Params.NetworkAppearance (NetworkAppearance m) ∧
    field_ok Params.RoutingContext (RoutingContext m) ∧
    field_ok Params.AffectedPointCode (AffectedPointCode m) ∧
    field_ok Params.InfoString (InfoString m) ∧
    Forall (other_ok [Params.NetworkAppearance; Params.RoutingContext; Params.AffectedPointCode; Params.InfoString]) (Others m);
  rebuild h m := mk h (set_length (NetworkAppearance m)) (set_length (RoutingContext m)) (set_length (AffectedPointCode m)) (set_length (InfoString m))
    (set_length <$> Others m);
  msg_MarshalLen := MarshalLen;
  msg_MarshalTo := MarshalTo;
}.

#[export] Instance DestinationStateAudit_laws : MessageLaws DestinationStateAudit.
Proof.
  message_laws MarshalLen MarshalTo assign
    (λ (h : Header) (l k : list (option Param)), match l with
      | [nwApr; rtCtx; apcs; info] => mk h nwApr rtCtx apcs info k
      | _ => mk h None None None None [] end)
    ltac:(unfold requireParameters).
Qed.

End DestinationStateAudit.

(** ** Destination Restricted (drst.go) *)

Module DestinationRestricted.

Record DestinationRestricted : Set := mk {
  header : Header;
  NetworkAppearance : option Param;
  RoutingContext : option Param;
  AffectedPointCode : option Param;
  InfoString : option Param;
  Others : list (option Param);
}.

#[export] Instance DestinationRestricted_eq_dec : EqDecision DestinationRestricted.
Proof. solve_decision. Defined.

Definition MarshalLen (m : DestinationRestricted) : Z :=
  8 + opt_MarshalLen (NetworkAppearance m) +
  opt_MarshalLen (RoutingContext m) +
  opt_MarshalLen (AffectedPointCode m) +
  opt_MarshalLen (InfoString m) +
  paramsMarshalLen (Others m).

Definition SetLength (m : DestinationRestricted) : DestinationRestricted :=
  mk (with_Length (u32 (MarshalLen m)) (header m))
    (set_length (NetworkAppearance m))
    (set_length (RoutingContext m))
    (set_length (AffectedPointCode m))
    (set_length (InfoString m))
    (setParamLengths (Others m)).

Definition NewDestinationRestricted (nwApr rtCtx apcs info : option Param) : DestinationRestricted :=
  SetLength (mk (header_for MsgClassSSNM MsgTypeDestinationRestricted) nwApr rtCtx apcs info []).

Definition requireParameters (m : DestinationRestricted) : result msg_error () :=
  requireParameter (AffectedPointCode m).

Definition MarshalTo (m : DestinationRestricted) (b : bytes) : result msg_error (DestinationRestricted * bytes) :=
  _ ← requireParameters m;
  if len b <? MarshalLen m then Err ErrTooShortToMarshalBinary else
  let payload := make_bytes (MarshalLen m - 8) in
  let offset := 0 in
  '(nwApr, payload, offset) ← marshalParam (NetworkAppearance m) payload offset;
  '(rtCtx, payload, offset) ← marshalParam (RoutingContext m) payload offset;
  '(apcs, payload, offset) ← marshalParam (AffectedPointCode m) payload offset;
  '(info, payload, offset) ← marshalParam (InfoString m) payload offset;
  '(others, payload) ← marshalOtherParams payload offset (Others m);
  '(h, b) ← Header_MarshalTo (with_Payload payload (header m)) b;
  Ok (mk h nwApr rtCtx apcs info others, b).

Definition MarshalBinary (m : DestinationRestricted) : result msg_error (DestinationRestricted * bytes) :=
  MarshalTo m (make_bytes (MarshalLen m)).

(** The body of the decoder's loop. *)
Definition assign (m : DestinationRestricted) (pr : Param) : result msg_error DestinationRestricted :=
  let '(mk h nwApr rtCtx apcs info others) := m in
  if Tag pr =? Params.NetworkAppearance then
    nwApr ← assign_once nwApr pr; Ok (mk h nwApr rtCtx apcs info others)
  else if Tag pr =? Params.RoutingContext then
    rtCtx ← assign_once rtCtx pr; Ok (mk h nwApr rtCtx apcs info others)
  else if Tag pr =? Params.AffectedPointCode then
    apcs ← assign_once apcs pr; Ok (mk h nwApr rtCtx apcs info others)
  else if Tag pr =? Params.InfoString then
    info ← assign_once info pr; Ok (mk h nwApr rtCtx apcs info others)
  else Ok (mk h nwApr rtCtx apcs info (others ++ [Some pr])).

Definition UnmarshalBinary : bytes → result msg_error DestinationRestricted :=
  unmarshalMessage MsgClassSSNM MsgTypeDestinationRestricted (λ h, mk h None None None None []) (λ _, assign) requireParameters.

#[export] Instance DestinationRestricted_Message : Message DestinationRestricted := {
  msgClass := MsgClassSSNM;
  msgType := MsgTypeDestinationRestricted;
  getHeader := header;
  parameters m := [NetworkAppearance m; RoutingContext m; AffectedPointCode m; InfoString m] ++ Others m;
  zero h := mk h None None None None [];
  assign := λ _, assign;
  validate := requireParameters;
  fields_ok m :=
    field_ok Params.NetworkAppearance (NetworkAppearance m) ∧
    field_ok Params.RoutingContext (RoutingContext m) ∧
    field_ok Params.AffectedPointCode (AffectedPointCode m) ∧
    field_ok Params.InfoString (InfoString m) ∧
    Forall (other_ok [Params.NetworkAppearance; Params.RoutingContext; Params.AffectedPointCode; Params.InfoString]) (Others m);
  rebuild h m := mk h (set_length (NetworkAppearance m)) (set_length (RoutingContext m)) (set_length (AffectedPointCode m)) (set_length (InfoString m))
    (set_length <$> Others m);
  msg_MarshalLen := MarshalLen;
  msg_MarshalTo := MarshalTo;
}.

#[export] Instance DestinationRestricted_laws : MessageLaws DestinationRestricted.
Proof.
  message_laws MarshalLen MarshalTo assign
    (λ (h : Header) (l k : list (option Param)), match l with
      | [nwApr; rtCtx; apcs; info] => mk h nwApr rtCtx apcs info k
      | _ => mk h None None None None [] end)
    ltac:(unfold requireParameters).
Qed.

End DestinationRestricted.

(** ** Signalling Congestion (scon.go) *)

Module SignallingCongestion.

Record SignallingCongestion : Set := mk {
  header : Header;
  NetworkAppearance : option Param;
  RoutingContext : option Param;
  AffectedPointCode : option Param;
  ConcernedDestination : option Param;
  CongestionIndications : option Param;
  InfoString : option Param;
  Others : list (option Param);
}.

#[export] Instance SignallingCongestion_eq_dec : EqDecision SignallingCongestion.
Proof. solve_decision. Defined.

Definition MarshalLen (m : SignallingCongestion) : Z :=
  8 + opt_MarshalLen (NetworkAppearance m) +
  opt_MarshalLen (RoutingContext m) +
  opt_MarshalLen (AffectedPointCode m) +
  opt_MarshalLen (ConcernedDestination m) +
  opt_MarshalLen (CongestionIndications m) +
  opt_MarshalLen (InfoString m) +
  paramsMarshalLen (Others m).

Definition SetLength (m : SignallingCongestion) : SignallingCongestion :=
  mk (with_Length (u32 (MarshalLen m)) (header m))
    (set_length (NetworkAppearance m))
    (set_length (RoutingContext m))
    (set_length (AffectedPointCode m))
    (set_length (ConcernedDestination m))
    (set_length (CongestionIndications m))
    (set_length (InfoString m))
    (setParamLengths (Others m)).

Definition NewSignallingCongestion (nwApr rtCtx apcs cdst ind info : option Param) : SignallingCongestion :=
  SetLength (mk (header_for MsgClassSSNM MsgTypeSignallingCongestion) nwApr rtCtx apcs cdst ind info []).

Definition requireParameters (m : SignallingCongestion) : result msg_error () :=
  requireParameter (AffectedPointCode m).

Definition MarshalTo (m : SignallingCongestion) (b : bytes) : result msg_error (SignallingCongestion * bytes) :=
  _ ← requireParameters m;
  if len b <? MarshalLen m then Err ErrTooShortToMarshalBinary else
  let payload := make_bytes (MarshalLen m - 8) in
  let offset := 0 in
  '(nwApr, payload, offset) ← marshalParam (NetworkAppearance m) payload offset;
  '(rtCtx, payload, offset) ← marshalParam (RoutingContext m) payload offset;
  '(apcs, payload, offset) ← marshalParam (AffectedPointCode m) payload offset;
  '(cdst, payload, offset) ← marshalParam (ConcernedDestination m) payload offset;
  '(ind, payload, offset) ← marshalParam (CongestionIndications m) payload offset;
  '(info, payload, offset) ← marshalParam (InfoString m) payload offset;
  '(others, payload) ← marshalOtherParams payload offset (Others m);
  '(h, b) ← Header_MarshalTo (with_Payload payload (header m)) b;
  Ok (mk h nwApr rtCtx apcs cdst ind info others, b).

Definition MarshalBinary (m : SignallingCongestion) : result msg_error (SignallingCongestion * bytes) :=
  MarshalTo m (make_bytes (MarshalLen m)).

(** The body of the decoder's loop. *)
Definition assign (m : SignallingCongestion) (pr : Param) : result msg_error SignallingCongestion :=
  let '(mk h nwApr rtCtx apcs cdst ind info others) := m in
  if Tag pr =? Params.NetworkAppearance then
    nwApr ← assign_once nwApr pr; Ok (mk h nwApr rtCtx apcs cdst ind info others)
  else if Tag pr =? Params.RoutingContext then
    rtCtx ← assign_once rtCtx pr; Ok (mk h nwApr rtCtx apcs cdst ind info others)
  else if Tag pr =? Params.AffectedPointCode then
    apcs ← assign_once apcs pr; Ok (mk h nwApr rtCtx apcs cdst ind info others)
  else if Tag pr =? Params.ConcernedDestination then
    cdst ← assign_once cdst pr; Ok (mk h nwApr rtCtx apcs cdst ind info others)
  else if Tag pr =? Params.CongestionIndications then
    ind ← assign_once ind pr; Ok (mk h nwApr rtCtx apcs cdst ind info others)
  else if Tag pr =? Params.InfoString then
    info ← assign_once info pr; Ok (mk h nwApr rtCtx apcs cdst ind info others)
  else Ok (mk h nwApr rtCtx apcs cdst ind info (others ++ [Some pr])).

Definition UnmarshalBinary : bytes → result msg_error SignallingCongestion :=
  unmarshalMessage MsgClassSSNM MsgTypeSignallingCongestion (λ h, mk h None None None None None None []) (λ _, assign) requireParameters.

#[export] Instance SignallingCongestion_Message : Message SignallingCongestion := {
  msgClass := MsgClassSSNM;
  msgType := MsgTypeSignallingCongestion;
  getHeader := header;
  parameters m := [NetworkAppearance m; RoutingContext m; AffectedPointCode m; ConcernedDestination m; CongestionIndications m; InfoString m] ++ Others m;
  zero h := mk h None None None None None None [];
  assign := λ _, assign;
  validate := requireParameters;
  fields_ok m :=
    field_ok Params.NetworkAppearance (NetworkAppearance m) ∧
    field_ok Params.RoutingContext (RoutingContext m) ∧
    field_ok Params.AffectedPointCode (AffectedPointCode m) ∧
    field_ok Params.ConcernedDestination (ConcernedDestination m) ∧
    field_ok Params.CongestionIndications (CongestionIndications m) ∧
    field_ok Params.InfoString (InfoString m) ∧
    Forall (other_ok [Params.NetworkAppearance; Params.RoutingContext; Params.AffectedPointCode; Params.ConcernedDestination; Params.CongestionIndications; Params.InfoString]) (Others m);
  rebuild h m := mk h (set_length (NetworkAppearance m)) (set_length (RoutingContext m)) (set_length (AffectedPointCode m)) (set_length (ConcernedDestination m)) (set_length (CongestionIndications m)) (set_length (InfoString m))
    (set_length <$> Others m);
  msg_MarshalLen := MarshalLen;
  msg_MarshalTo := MarshalTo;
}.

#[export] Instance SignallingCongestion_laws : MessageLaws SignallingCongestion.
Proof.
  message_laws MarshalLen MarshalTo assign
    (λ (h : Header) (l k : list (option Param)), match l with
      | [nwApr; rtCtx; apcs; cdst; ind; info] => mk h nwApr rtCtx apcs cdst ind info k
      | _ => mk h None None None None None None [] end)
    ltac:(unfold requireParameters).
Qed.

End SignallingCongestion.

(** ** Destination User Part Unavailable (dupu.go) *)

Module DestinationUserPartUnavailable.

Record DestinationUserPartUnavailable : Set := mk {
  header : Header;
  NetworkAppearance : option Param;
  RoutingContext : option Param;
  AffectedPointCode : option Param;
  UserCause : option Param;
  InfoString : option Param;
  Others : list (option Param);
}.

#[export] Instance DestinationUserPartUnavailable_eq_dec : EqDecision DestinationUserPartUnavailable.
Proof. solve_decision. Defined.

Definition MarshalLen (m : DestinationUserPartUnavailable) : Z :=
  8 + opt_MarshalLen (NetworkAppearance m) +
  opt_MarshalLen (RoutingContext m) +
  opt_MarshalLen (AffectedPointCode m) +
  opt_MarshalLen (UserCause m) +
  opt_MarshalLen (InfoString m) +
  paramsMarshalLen (Others m).

Definition SetLength (m : DestinationUserPartUnavailable) : DestinationUserPartUnavailable :=
  mk (with_Length (u32 (MarshalLen m)) (header m))
    (set_length (NetworkAppearance m))
    (set_length (RoutingContext m))
    (set_length (AffectedPointCode m))
    (set_length (UserCause m))
    (set_length (InfoString m))
    (setParamLengths (Others m)).

Definition NewDestinationUserPartUnavailable (nwApr rtCtx apcs cause info : option Param) : DestinationUserPartUnavailable :=
  SetLength (mk (header_for MsgClassSSNM MsgTypeDestinationUserPartUnavailable) nwApr rtCtx apcs cause info []).

Definition requireParameters (m : DestinationUserPartUnavailable) : result msg_error () :=
  _ ← requireParameter (AffectedPointCode m); requireParameter (UserCause m).

Definition MarshalTo (m : DestinationUserPartUnavailable) (b : bytes) : result msg_error (DestinationUserPartUnavailable * bytes) :=
  _ ← requireParameters m;
  if len b <? MarshalLen m then Err ErrTooShortToMarshalBinary else
  let payload := make_bytes (MarshalLen m - 8) in
  let offset := 0 in
  '(nwApr, payload, offset) ← marshalParam (NetworkAppearance m) payload offset;
  '(rtCtx, payload, offset) ← marshalParam (RoutingContext m) payload offset;
  '(apcs, payload, offset) ← marshalParam (AffectedPointCode m) payload offset;
  '(cause, payload, offset) ← marshalParam (UserCause m) payload offset;
  '(info, payload, offset) ← marshalParam (InfoString m) payload offset;
  '(others, payload) ← marshalOtherParams payload offset (Others m);
  '(h, b) ← Header_MarshalTo (with_Payload payload (header m)) b;
  Ok (mk h nwApr rtCtx apcs cause info others, b).

Definition MarshalBinary (m : DestinationUserPartUnavailable) : result msg_error (DestinationUserPartUnavailable * bytes) :=
  MarshalTo m (make_bytes (MarshalLen m)).

(** The body of the decoder's loop. *)
Definition assign (m : DestinationUserPartUnavailable) (pr : Param) : result msg_error DestinationUserPartUnavailable :=
  let '(mk h nwApr rtCtx apcs cause info others) := m in
  if Tag pr =? Params.NetworkAppearance then
    nwApr ← assign_once nwApr pr; Ok (mk h nwApr rtCtx apcs cause info others)
  else if Tag pr =? Params.RoutingContext then
    rtCtx ← assign_once rtCtx pr; Ok (mk h nwApr rtCtx apcs cause info others)
  else if Tag pr =? Params.AffectedPointCode then
    apcs ← assign_once apcs pr; Ok (mk h nwApr rtCtx apcs cause info others)
  else if Tag pr =? Params.UserCause then
    cause ← assign_once cause pr; Ok (mk h nwApr rtCtx apcs cause info others)
  else if Tag pr =? Params.InfoString then
    info ← assign_once info pr; Ok (mk h nwApr rtCtx apcs cause info others)
  else Ok (mk h nwApr rtCtx apcs cause info (others ++ [Some pr])).

Definition UnmarshalBinary : bytes → result msg_error DestinationUserPartUnavailable :=
  unmarshalMessage MsgClassSSNM MsgTypeDestinationUserPartUnavailable (λ h, mk h None None None None None []) (λ _, assign) requireParameters.

#[export] Instance DestinationUserPartUnavailable_Message : Message DestinationUserPartUnavailable := {
  msgClass := MsgClassSSNM;
  msgType := MsgTypeDestinationUserPartUnavailable;
  getHeader := header;
  parameters m := [NetworkAppearance m; RoutingContext m; AffectedPointCode m; UserCause m; InfoString m] ++ Others m;
  zero h := mk h None None None None None [];
  assign := λ _, assign;
  validate := requireParameters;
  fields_ok m :=
    field_ok Params.NetworkAppearance (NetworkAppearance m) ∧
    field_ok Params.RoutingContext (RoutingContext m) ∧
    field_ok Params.AffectedPointCode (AffectedPointCode m) ∧
    field_ok Params.UserCause (UserCause m) ∧
    field_ok Params.InfoString (InfoString m) ∧
    Forall (other_ok [Params.NetworkAppearance; Params.RoutingContext; Params.AffectedPointCode; Params.UserCause; Params.InfoString]) (Others m);
  rebuild h m := mk h (set_length (NetworkAppearance m)) (set_length (RoutingContext m)) (set_length (AffectedPointCode m)) (set_length (UserCause m)) (set_length (InfoString m))
    (set_length <$> Others m);
  msg_MarshalLen := MarshalLen;
  msg_MarshalTo := MarshalTo;
}.

#[export] Instance DestinationUserPartUnavailable_laws : MessageLaws DestinationUserPartUnavailable.
Proof.
  message_laws MarshalLen MarshalTo assign
    (λ (h : Header) (l k : list (option Param)), match l with
      | [nwApr; rtCtx; apcs; cause; info] => mk h nwApr rtCtx apcs cause info k
      | _ => mk h None None None None None [] end)
    ltac:(unfold requireParameters).
Qed.

End DestinationUserPartUnavailable.
