(* ===== verification/MsgAspsm.v ===== *)
(** * ASP state maintenance messages (package messages, class ASPSM)

    asp-up.go, asp-down.go, asp-up-ack.go, asp-down-ack.go, heartbeat.go and
    heartbeat-ack.go: the record, constructor, length, encoder and decoder of
    each message, and its instance of the interface [Message]. *)

From S2P Require Import Prelude Params ParamsFacts Nested Header Codec.

(** ** ASP Up (asp-up.go) *)

Module AspUp.

Record AspUp : Set := mk {
  header : Header;
  AspIdentifier : option Param;
  InfoString : option Param;
  Others : list (option Param);
}.

#[export] Instance AspUp_eq_dec : EqDecision AspUp.
Proof. solve_decision. Defined.

Definition MarshalLen (m : AspUp) : Z :=
  8 + opt_MarshalLen (AspIdentifier m) +
  opt_MarshalLen (InfoString m) +
  paramsMarshalLen (Others m).

Definition SetLength (m : AspUp) : AspUp :=
  mk (with_Length (u32 (MarshalLen m)) (header m))
    (set_length (AspIdentifier m))
    (set_length (InfoString m))
    (setParamLengths (Others m)).

Definition NewAspUp (aspID info : option Param) : AspUp :=
  SetLength (mk (header_for MsgClassASPSM MsgTypeAspUp) aspID info []).

Definition MarshalTo (m : AspUp) (b : bytes) : result msg_error (AspUp * bytes) :=
  if len b <? MarshalLen m then Err ErrTooShortToMarshalBinary else
  let payload := make_bytes (MarshalLen m - 8) in
  let offset := 0 in
  '(aspID, payload, offset) ← marshalParam (AspIdentifier m) payload offset;
  '(info, payload, offset) ← marshalParam (InfoString m) payload offset;
  '(others, payload) ← marshalOtherParams payload offset (Others m);
  '(h, b) ← Header_MarshalTo (with_Payload payload (header m)) b;
  Ok (mk h aspID info others, b).

Definition MarshalBinary (m : AspUp) : result msg_error (AspUp * bytes) :=
  MarshalTo m (make_bytes (MarshalLen m)).

(** The body of the decoder's loop. *)
Definition assign (m : AspUp) (pr : Param) : result msg_error AspUp :=
  let '(mk h aspID info others) := m in
  if Tag pr =? Params.AspIdentifier then
    aspID ← assign_once aspID pr; Ok (mk h aspID info others)
  else if Tag pr =? Params.InfoString then
    info ← assign_once info pr; Ok (mk h aspID info others)
  else Ok (mk h aspID info (others ++ [Some pr])).

Definition UnmarshalBinary : bytes → result msg_error AspUp :=
  unmarshalMessage MsgClassASPSM MsgTypeAspUp (λ h, mk h None None []) (λ _, assign) (λ _, Ok tt).

#[export] Instance AspUp_Message : Message AspUp := {
  msgClass := MsgClassASPSM;
  msgType := MsgTypeAspUp;
  getHeader := header;
  parameters m := [AspIdentifier m; InfoString m] ++ Others m;
  zero h := mk h None None [];
  assign := λ _, assign;
  validate := (λ _, Ok tt);
  fields_ok m :=
    field_ok Params.AspIdentifier (AspIdentifier m) ∧
    field_ok Params.InfoString (InfoString m) ∧
    Forall (other_ok [Params.AspIdentifier; Params.InfoString]) (Others m);
  rebuild h m := mk h (set_length (AspIdentifier m)) (set_length (InfoString m))
    (set_length <$> Others m);
  msg_MarshalLen := MarshalLen;
  msg_MarshalTo := MarshalTo;
}.

#[export] Instance AspUp_laws : MessageLaws AspUp.
Proof.
  message_laws MarshalLen MarshalTo assign
    (λ (h : Header) (l k : list (option Param)), match l with
      | [aspID; info] => mk h aspID info k
      | _ => mk h None None [] end)
    idtac.
Qed.

End AspUp.

(** ** ASP Down (asp-down.go) *)

Module AspDown.

Record AspDown : Set := mk {
  header : Header;
  InfoString : option Param;
  Others : list (option Param);
}.

#[export] Instance AspDown_eq_dec : EqDecision AspDown.
Proof. solve_decision. Defined.

Definition MarshalLen (m : AspDown) : Z :=
  8 + opt_MarshalLen (InfoString m) +
  paramsMarshalLen (Others m).

Definition SetLength (m : AspDown) : AspDown :=
  mk (with_Length (u32 (MarshalLen m)) (header m))
    (set_length (InfoString m))
    (setParamLengths (Others m)).

Definition NewAspDown (info : option Param) : AspDown :=
  SetLength (mk (header_for MsgClassASPSM MsgTypeAspDown) info []).

Definition MarshalTo (m : AspDown) (b : bytes) : result msg_error (AspDown * bytes) :=
  if len b <? MarshalLen m then Err ErrTooShortToMarshalBinary else
  let payload := make_bytes (MarshalLen m - 8) in
  let offset := 0 in
  '(info, payload, offset) ← marshalParam (InfoString m) payload offset;
  '(others, payload) ← marshalOtherParams payload offset (Others m);
  '(h, b) ← Header_MarshalTo (with_Payload payload (header m)) b;
  Ok (mk h info others, b).

Definition MarshalBinary (m : AspDown) : result msg_error (AspDown * bytes) :=
  MarshalTo m (make_bytes (MarshalLen m)).

(** The body of the decoder's loop. *)
Definition assign (m : AspDown) (pr : Param) : result msg_error AspDown :=
  let '(mk h info others) := m in
  if Tag pr =? Params.InfoString then
    info ← assign_once info pr; Ok (mk h info others)
  else Ok (mk h info (others ++ [Some pr])).

Definition UnmarshalBinary : bytes → result msg_error AspDown :=
  unmarshalMessage MsgClassASPSM MsgTypeAspDown (λ h, mk h None []) (λ _, assign) (λ _, Ok tt).

#[export] Instance AspDown_Message : Message AspDown := {
  msgClass := MsgClassASPSM;
  msgType := MsgTypeAspDown;
  getHeader := header;
  parameters m := [InfoString m] ++ Others m;
  zero h := mk h None [];
  assign := λ _, assign;
  validate := (λ _, Ok tt);
  fields_ok m :=
    field_ok Params.InfoString (InfoString m) ∧
    Forall (other_ok [Params.InfoString]) (Others m);
  rebuild h m := mk h (set_length (InfoString m))
    (set_length <$> Others m);
  msg_MarshalLen := MarshalLen;
  msg_MarshalTo := MarshalTo;
}.

#[export] Instance AspDown_laws : MessageLaws AspDown.
Proof.
  message_laws MarshalLen MarshalTo assign
    (λ (h : Header) (l k : list (option Param)), match l with
      | [info] => mk h info k
      | _ => mk h None [] end)
    idtac.
Qed.

End AspDown.

(** ** ASP Up Ack (asp-up-ack.go) *)

Module AspUpAck.

Record AspUpAck : Set := mk {
  header : Header;
  AspIdentifier : option Param;
  InfoString : option Param;
  Others : list (option Param);
}.

#[export] Instance AspUpAck_eq_dec : EqDecision AspUpAck.
Proof. solve_decision. Defined.

Definition MarshalLen (m : AspUpAck) : Z :=
  8 + opt_MarshalLen (AspIdentifier m) +
  opt_MarshalLen (InfoString m) +
  paramsMarshalLen (Others m).

Definition SetLength (m : AspUpAck) : AspUpAck :=
  mk (with_Length (u32 (MarshalLen m)) (header m))
    (set_length (AspIdentifier m))
    (set_length (InfoString m))
    (setParamLengths (Others m)).

Definition NewAspUpAck (aspID info : option Param) : AspUpAck :=
  SetLength (mk (header_for MsgClassASPSM MsgTypeAspUpAck) aspID info []).

Definition MarshalTo (m : AspUpAck) (b : bytes) : result msg_error (AspUpAck * bytes) :=
  if len b <? MarshalLen m then Err ErrTooShortToMarshalBinary else
  let payload := make_bytes (MarshalLen m - 8) in
  let offset := 0 in
  '(aspID, payload, offset) ← marshalParam (AspIdentifier m) payload offset;
  '(info, payload, offset) ← marshalParam (InfoString m) payload offset;
  '(others, payload) ← marshalOtherParams payload offset (Others m);
  '(h, b) ← Header_MarshalTo (with_Payload payload (header m)) b;
  Ok (mk h aspID info others, b).

Definition MarshalBinary (m : AspUpAck) : result msg_error (AspUpAck * bytes) :=
  MarshalTo m (make_bytes (MarshalLen m)).

(** The body of the decoder's loop. *)
Definition assign (m : AspUpAck) (pr : Param) : result msg_error AspUpAck :=
  let '(mk h aspID info others) := m in
  if Tag pr =? Params.AspIdentifier then
    aspID ← assign_once aspID pr; Ok (mk h aspID info others)
  else if Tag pr =? Params.InfoString then
    info ← assign_once info pr; Ok (mk h aspID info others)
  else Ok (mk h aspID info (others ++ [Some pr])).

Definition UnmarshalBinary : bytes → result msg_error AspUpAck :=
  unmarshalMessage MsgClassASPSM MsgTypeAspUpAck (λ h, mk h None None []) (λ _, assign) (λ _, Ok tt).

#[export] Instance AspUpAck_Message : Message AspUpAck := {
  msgClass := MsgClassASPSM;
  msgType := MsgTypeAspUpAck;
  getHeader := header;
  parameters m := [AspIdentifier m; InfoString m] ++ Others m;
  zero h := mk h None None [];
  assign := λ _, assign;
  validate := (λ _, Ok tt);
  fields_ok m :=
    field_ok Params.AspIdentifier (AspIdentifier m) ∧
    field_ok Params.InfoString (InfoString m) ∧
    Forall (other_ok [Params.AspIdentifier; Params.InfoString]) (Others m);
  rebuild h m := mk h (set_length (AspIdentifier m)) (set_length (InfoString m))
    (set_length <$> Others m);
  msg_MarshalLen := MarshalLen;
  msg_MarshalTo := MarshalTo;
}.

#[export] Instance AspUpAck_laws : MessageLaws AspUpAck.
Proof.
  message_laws MarshalLen MarshalTo assign
    (λ (h : Header) (l k : list (option Param)), match l with
      | [aspID; info] => mk h aspID info k
      | _ => mk h None None [] end)
    idtac.
Qed.

End AspUpAck.

(** ** ASP Down Ack (asp-down-ack.go) *)

Module AspDownAck.

Record AspDownAck : Set := mk {
  header : Header;
  InfoString : option Param;
  Others : list (option Param);
}.

#[export] Instance AspDownAck_eq_dec : EqDecision AspDownAck.
Proof. solve_decision. Defined.

Definition MarshalLen (m : AspDownAck) : Z :=
  8 + opt_MarshalLen (InfoString m) +
  paramsMarshalLen (Others m).

Definition SetLength (m : AspDownAck) : AspDownAck :=
  mk (with_Length (u32 (MarshalLen m)) (header m))
    (set_length (InfoString m))
    (setParamLengths (Others m)).

Definition NewAspDownAck (info : option Param) : AspDownAck :=
  SetLength (mk (header_for MsgClassASPSM MsgTypeAspDownAck) info []).

Definition MarshalTo (m : AspDownAck) (b : bytes) : result msg_error (AspDownAck * bytes) :=
  if len b <? MarshalLen m then Err ErrTooShortToMarshalBinary else
  let payload := make_bytes (MarshalLen m - 8) in
  let offset := 0 in
  '(info, payload, offset) ← marshalParam (InfoString m) payload offset;
  '(others, payload) ← marshalOtherParams payload offset (Others m);
  '(h, b) ← Header_MarshalTo (with_Payload payload (header m)) b;
  Ok (mk h info others, b).

Definition MarshalBinary (m : AspDownAck) : result msg_error (AspDownAck * bytes) :=
  MarshalTo m (make_bytes (MarshalLen m)).

(** The body of the decoder's loop. *)
Definition assign (m : AspDownAck) (pr : Param) : result msg_error AspDownAck :=
  let '(mk h info others) := m in
  if Tag pr =? Params.InfoString then
    info ← assign_once info pr; Ok (mk h info others)
  else Ok (mk h info (others ++ [Some pr])).

Definition UnmarshalBinary : bytes → result msg_error AspDownAck :=
  unmarshalMessage MsgClassASPSM MsgTypeAspDownAck (λ h, mk h None []) (λ _, assign) (λ _, Ok tt).

#[export] Instance AspDownAck_Message : Message AspDownAck := {
  msgClass := MsgClassASPSM;
  msgType := MsgTypeAspDownAck;
  getHeader := header;
  parameters m := [InfoString m] ++ Others m;
  zero h := mk h None [];
  assign := λ _, assign;
  validate := (λ _, Ok tt);
  fields_ok m :=
    field_ok Params.InfoString (InfoString m) ∧
    Forall (other_ok [Params.InfoString]) (Others m);
  rebuild h m := mk h (set_length (InfoString m))
    (set_length <$> Others m);
  msg_MarshalLen := MarshalLen;
  msg_MarshalTo := MarshalTo;
}.

#[export] Instance AspDownAck_laws : MessageLaws AspDownAck.
Proof.
  message_laws MarshalLen MarshalTo assign
    (λ (h : Header) (l k : list (option Param)), match l with
      | [info] => mk h info k
      | _ => mk h None [] end)
    idtac.
Qed.

End AspDownAck.

(** ** Heartbeat (heartbeat.go) *)

Module Heartbeat.

Record Heartbeat : Set := mk {
  header : Header;
  HeartbeatData : option Param;
  Others : list (option Param);
}.

#[export] Instance Heartbeat_eq_dec : EqDecision Heartbeat.
Proof. solve_decision. Defined.

Definition MarshalLen (m : Heartbeat) : Z :=
  8 + opt_MarshalLen (HeartbeatData m) +
  paramsMarshalLen (Others m).

Definition SetLength (m : Heartbeat) : Heartbeat :=
  mk (with_Length (u32 (MarshalLen m)) (header m))
    (set_length (HeartbeatData m))
    (setParamLengths (Others m)).

Definition NewHeartbeat (hbData : option Param) : Heartbeat :=
  SetLength (mk (header_for MsgClassASPSM MsgTypeHeartbeat) hbData []).

Definition MarshalTo (m : Heartbeat) (b : bytes) : result msg_error (Heartbeat * bytes) :=
  if len b <? MarshalLen m then Err ErrTooShortToMarshalBinary else
  let payload := make_bytes (MarshalLen m - 8) in
  let offset := 0 in
  '(hbData, payload, offset) ← marshalParam (HeartbeatData m) payload offset;
  '(others, payload) ← marshalOtherParams payload offset (Others m);
  '(h, b) ← Header_MarshalTo (with_Payload payload (header m)) b;
  Ok (mk h hbData others, b).

Definition MarshalBinary (m : Heartbeat) : result msg_error (Heartbeat * bytes) :=
  MarshalTo m (make_bytes (MarshalLen m)).

(** The body of the decoder's loop. *)
Definition assign (m : Heartbeat) (pr : Param) : result msg_error Heartbeat :=
  let '(mk h hbData others) := m in
  if Tag pr =? Params.HeartbeatData then
    hbData ← assign_once hbData pr; Ok (mk h hbData others)
  else Ok (mk h hbData (others ++ [Some pr])).

Definition UnmarshalBinary : bytes → result msg_error Heartbeat :=
  unmarshalMessage MsgClassASPSM MsgTypeHeartbeat (λ h, mk h None []) (λ _, assign) (λ _, Ok tt).

#[export] Instance Heartbeat_Message : Message Heartbeat := {
  msgClass := MsgClassASPSM;
  msgType := MsgTypeHeartbeat;
  getHeader := header;
  parameters m := [HeartbeatData m] ++ Others m;
  zero h := mk h None [];
  assign := λ _, assign;
  validate := (λ _, Ok tt);
  fields_ok m :=
    field_ok Params.HeartbeatData (HeartbeatData m) ∧
    Forall (other_ok [Params.HeartbeatData]) (Others m);
  rebuild h m := mk h (set_length (HeartbeatData m))
    (set_length <$> Others m);
  msg_MarshalLen := MarshalLen;
  msg_MarshalTo := MarshalTo;
}.

#[export] Instance Heartbeat_laws : MessageLaws Heartbeat.
Proof.
  message_laws MarshalLen MarshalTo assign
    (λ (h : Header) (l k : list (option Param)), match l with
      | [hbData] => mk h hbData k
      | _ => mk h None [] end)
    idtac.
Qed.

End Heartbeat.

(** ** Heartbeat Ack (heartbeat-ack.go) *)

Module HeartbeatAck.

Record HeartbeatAck : Set := mk {
  header : Header;
  HeartbeatData : option Param;
  Others : list (option Param);
}.

#[export] Instance HeartbeatAck_eq_dec : EqDecision HeartbeatAck.
Proof. solve_decision. Defined.

Definition MarshalLen (m : HeartbeatAck) : Z :=
  8 + opt_MarshalLen (HeartbeatData m) +
  paramsMarshalLen (Others m).

Definition SetLength (m : HeartbeatAck) : HeartbeatAck :=
  mk (with_Length (u32 (MarshalLen m)) (header m))
    (set_length (HeartbeatData m))
    (setParamLengths (Others m)).

Definition NewHeartbeatAck (hbData : option Param) : HeartbeatAck :=
  SetLength (mk (header_for MsgClassASPSM MsgTypeHeartbeatAck) hbData []).

Definition MarshalTo (m : HeartbeatAck) (b : bytes) : result msg_error (HeartbeatAck * bytes) :=
  if len b <? MarshalLen m then Err ErrTooShortToMarshalBinary else
  let payload := make_bytes (MarshalLen m - 8) in
  let offset := 0 in
  '(hbData, payload, offset) ← marshalParam (HeartbeatData m) payload offset;
  '(others, payload) ← marshalOtherParams payload offset (Others m);
  '(h, b) ← Header_MarshalTo (with_Payload payload (header m)) b;
  Ok (mk h hbData others, b).

Definition MarshalBinary (m : HeartbeatAck) : result msg_error (HeartbeatAck * bytes) :=
  MarshalTo m (make_bytes (MarshalLen m)).

(** The body of the decoder's loop. *)
Definition assign (m : HeartbeatAck) (pr : Param) : result msg_error HeartbeatAck :=
  let '(mk h hbData others) := m in
  if Tag pr =? Params.HeartbeatData then
    hbData ← assign_once hbData pr; Ok (mk h hbData others)
  else Ok (mk h hbData (others ++ [Some pr])).

Definition UnmarshalBinary : bytes → result msg_error HeartbeatAck :=
  unmarshalMessage MsgClassASPSM MsgTypeHeartbeatAck (λ h, mk h None []) (λ _, assign) (λ _, Ok tt).

#[export] Instance HeartbeatAck_Message : Message HeartbeatAck := {
  msgClass := MsgClassASPSM;
  msgType := MsgTypeHeartbeatAck;
  getHeader := header;
  parameters m := [HeartbeatData m] ++ Others m;
  zero h := mk h None [];
  assign := λ _, assign;
  validate := (λ _, Ok tt);
  fields_ok m :=
    field_ok Params.HeartbeatData (HeartbeatData m) ∧
    Forall (other_ok [Params.HeartbeatData]) (Others m);
  rebuild h m := mk h (set_length (HeartbeatData m))
    (set_length <$> Others m);
  msg_MarshalLen := MarshalLen;
  msg_MarshalTo := MarshalTo;
}.

#[export] Instance HeartbeatAck_laws : MessageLaws HeartbeatAck.
Proof.
  message_laws MarshalLen MarshalTo assign
    (λ (h : Header) (l k : list (option Param)), match l with
      | [hbData] => mk h hbData k
      | _ => mk h None [] end)
    idtac.
Qed.

End HeartbeatAck.
