(* ===== verification/MsgAsptm.v ===== *)
(** * ASP traffic maintenance messages (package messages, class ASPTM)

    asp-active.go, asp-active-ack.go, asp-inactive.go and asp-inactive-ack.go: the record, constructor, length, encoder and decoder of
    each message, and its instance of the interface [Message]. *)

From S2P Require Import Prelude Params ParamsFacts Nested Header Codec.

(** ** ASP Active (asp-active.go) *)

Module AspActive.

Record AspActive : Set := mk {
  header : Header;
  TrafficModeType : option Param;
  RoutingContext : option Param;
  InfoString : option Param;
  Others : list (option Param);
}.

#[export] Instance AspActive_eq_dec : EqDecision AspActive.
Proof. solve_decision. Defined.

Definition MarshalLen (m : AspActive) : Z :=
  8 + opt_MarshalLen (TrafficModeType m) +
  opt_MarshalLen (RoutingContext m) +
  opt_MarshalLen (InfoString m) +
  paramsMarshalLen (Others m).

Definition SetLength (m : AspActive) : AspActive :=
  mk (with_Length (u32 (MarshalLen m)) (header m))
    (set_length (TrafficModeType m))
    (set_length (RoutingContext m))
    (set_length (InfoString m))
    (setParamLengths (Others m)).

Definition NewAspActive (tmt rtCtx info : option Param) : AspActive :=
  SetLength (mk (header_for MsgClassASPTM MsgTypeAspActive) tmt rtCtx info []).

Definition MarshalTo (m : AspActive) (b : bytes) : result msg_error (AspActive * bytes) :=
  if len b <? MarshalLen m then Err ErrTooShortToMarshalBinary else
  let payload := make_bytes (MarshalLen m - 8) in
  let offset := 0 in
  '(tmt, payload, offset) ← marshalParam (TrafficModeType m) payload offset;
  '(rtCtx, payload, offset) ← marshalParam (RoutingContext m) payload offset;
  '(info, payload, offset) ← marshalParam (InfoString m) payload offset;
  '(others, payload) ← marshalOtherParams payload offset (Others m);
  '(h, b) ← Header_MarshalTo (with_Payload payload (header m)) b;
  Ok (mk h tmt rtCtx info others, b).

Definition MarshalBinary (m : AspActive) : result msg_error (AspActive * bytes) :=
  MarshalTo m (make_bytes (MarshalLen m)).

(** The body of the decoder's loop. *)
Definition assign (m : AspActive) (pr : Param) : result msg_error AspActive :=
  let '(mk h tmt rtCtx info others) := m in
  if Tag pr =? Params.TrafficModeType then
    tmt ← assign_once tmt pr; Ok (mk h tmt rtCtx info others)
  else if Tag pr =? Params.RoutingContext then
    rtCtx ← assign_once rtCtx pr; Ok (mk h tmt rtCtx info others)
  else if Tag pr =? Params.InfoString then
    info ← assign_once info pr; Ok (mk h tmt rtCtx info others)
  else Ok (mk h tmt rtCtx info (others ++ [Some pr])).

Definition UnmarshalBinary : bytes → result msg_error AspActive :=
  unmarshalMessage MsgClassASPTM MsgTypeAspActive (λ h, mk h None None None []) (λ _, assign) (λ _, Ok tt).

#[export] Instance AspActive_Message : Message AspActive := {
  msgClass := MsgClassASPTM;
  msgType := MsgTypeAspActive;
  getHeader := header;
  parameters m := [TrafficModeType m; RoutingContext m; InfoString m] ++ Others m;
  zero h := mk h None None None [];
  assign := λ _, assign;
  validate := (λ _, Ok tt);
  fields_ok m :=
    field_ok Params.TrafficModeType (TrafficModeType m) ∧
    field_ok Params.RoutingContext (RoutingContext m) ∧
    field_ok Params.InfoString (InfoString m) ∧
    Forall (other_ok [Params.TrafficModeType; Params.RoutingContext; Params.InfoString]) (Others m);
  rebuild h m := mk h (set_length (TrafficModeType m)) (set_length (RoutingContext m)) (set_length (InfoString m))
    (set_length <$> Others m);
  msg_MarshalLen := MarshalLen;
  msg_MarshalTo := MarshalTo;
}.

#[export] Instance AspActive_laws : MessageLaws AspActive.
Proof.
  message_laws MarshalLen MarshalTo assign
    (λ (h : Header) (l k : list (option Param)), match l with
      | [tmt; rtCtx; info] => mk h tmt rtCtx info k
      | _ => mk h None None None [] end)
    idtac.
Qed.

End AspActive.

(** ** ASP Active Ack (asp-active-ack.go) *)

Module AspActiveAck.

Record AspActiveAck : Set := mk {
  header : Header;
  TrafficModeType : option Param;
  RoutingContext : option Param;
  InfoString : option Param;
  Others : list (option Param);
}.

#[export] Instance AspActiveAck_eq_dec : EqDecision AspActiveAck.
Proof. solve_decision. Defined.

Definition MarshalLen (m : AspActiveAck) : Z :=
  8 + opt_MarshalLen (TrafficModeType m) +
  opt_MarshalLen (RoutingContext m) +
  opt_MarshalLen (InfoString m) +
  paramsMarshalLen (Others m).

Definition SetLength (m : AspActiveAck) : AspActiveAck :=
  mk (with_Length (u32 (MarshalLen m)) (header m))
    (set_length (TrafficModeType m))
    (set_length (RoutingContext m))
    (set_length (InfoString m))
    (setParamLengths (Others m)).

Definition NewAspActiveAck (tmt rtCtx info : option Param) : AspActiveAck :=
  SetLength (mk (header_for MsgClassASPTM MsgTypeAspActiveAck) tmt rtCtx info []).

Definition MarshalTo (m : AspActiveAck) (b : bytes) : result msg_error (AspActiveAck * bytes) :=
  if len b <? MarshalLen m then Err ErrTooShortToMarshalBinary else
  let payload := make_bytes (MarshalLen m - 8) in
  let offset := 0 in
  '(tmt, payload, offset) ← marshalParam (TrafficModeType m) payload offset;
  '(rtCtx, payload, offset) ← marshalParam (RoutingContext m) payload offset;
  '(info, payload, offset) ← marshalParam (InfoString m) payload offset;
  '(others, payload) ← marshalOtherParams payload offset (Others m);
  '(h, b) ← Header_MarshalTo (with_Payload payload (header m)) b;
  Ok (mk h tmt rtCtx info others, b).

Definition MarshalBinary (m : AspActiveAck) : result msg_error (AspActiveAck * bytes) :=
  MarshalTo m (make_bytes (MarshalLen m)).

(** The body of the decoder's loop. *)
Definition assign (m : AspActiveAck) (pr : Param) : result msg_error AspActiveAck :=
  let '(mk h tmt rtCtx info others) := m in
  if Tag pr =? Params.TrafficModeType then
    tmt ← assign_once tmt pr; Ok (mk h tmt rtCtx info others)
  else if Tag pr =? Params.RoutingContext then
    rtCtx ← assign_once rtCtx pr; Ok (mk h tmt rtCtx info others)
  else if Tag pr =? Params.InfoString then
    info ← assign_once info pr; Ok (mk h tmt rtCtx info others)
  else Ok (mk h tmt rtCtx info (others ++ [Some pr])).

Definition UnmarshalBinary : bytes → result msg_error AspActiveAck :=
  unmarshalMessage MsgClassASPTM MsgTypeAspActiveAck (λ h, mk h None None None []) (λ _, assign) (λ _, Ok tt).

#[export] Instance AspActiveAck_Message : Message AspActiveAck := {
  msgClass := MsgClassASPTM;
  msgType := MsgTypeAspActiveAck;
  getHeader := header;
  parameters m := [TrafficModeType m; RoutingContext m; InfoString m] ++ Others m;
  zero h := mk h None None None [];
  assign := λ _, assign;
  validate := (λ _, Ok tt);
  fields_ok m :=
    field_ok Params.TrafficModeType (TrafficModeType m) ∧
    field_ok Params.RoutingContext (RoutingContext m) ∧
    field_ok Params.InfoString (InfoString m) ∧
    Forall (other_ok [Params.TrafficModeType; Params.RoutingContext; Params.InfoString]) (Others m);
  rebuild h m := mk h (set_length (TrafficModeType m)) (set_length (RoutingContext m)) (set_length (InfoString m))
    (set_length <$> Others m);
  msg_MarshalLen := MarshalLen;
  msg_MarshalTo := MarshalTo;
}.

#[export] Instance AspActiveAck_laws : MessageLaws AspActiveAck.
Proof.
  message_laws MarshalLen MarshalTo assign
    (λ (h : Header) (l k : list (option Param)), match l with
      | [tmt; rtCtx; info] => mk h tmt rtCtx info k
      | _ => mk h None None None [] end)
    idtac.
Qed.

End AspActiveAck.

(** ** ASP Inactive (asp-inactive.go) *)

Module AspInactive.

Record AspInactive : Set := mk {
  header : Header;
  RoutingContext : option Param;
  InfoString : option Param;
  Others : list (option Param);
}.

#[export] Instance AspInactive_eq_dec : EqDecision AspInactive.
Proof. solve_decision. Defined.

Definition MarshalLen (m : AspInactive) : Z :=
  8 + opt_MarshalLen (RoutingContext m) +
  opt_MarshalLen (InfoString m) +
  paramsMarshalLen (Others m).

Definition SetLength (m : AspInactive) : AspInactive :=
  mk (with_Length (u32 (MarshalLen m)) (header m))
    (set_length (RoutingContext m))
    (set_length (InfoString m))
    (setParamLengths (Others m)).

Definition NewAspInactive (rtCtx info : option Param) : AspInactive :=
  SetLength (mk (header_for MsgClassASPTM MsgTypeAspInactive) rtCtx info []).

Definition MarshalTo (m : AspInactive) (b : bytes) : result msg_error (AspInactive * bytes) :=
  if len b <? MarshalLen m then Err ErrTooShortToMarshalBinary else
  let payload := make_bytes (MarshalLen m - 8) in
  let offset := 0 in
  '(rtCtx, payload, offset) ← marshalParam (RoutingContext m) payload offset;
  '(info, payload, offset) ← marshalParam (InfoString m) payload offset;
  '(others, payload) ← marshalOtherParams payload offset (Others m);
  '(h, b) ← Header_MarshalTo (with_Payload payload (header m)) b;
  Ok (mk h rtCtx info others, b).

Definition MarshalBinary (m : AspInactive) : result msg_error (AspInactive * bytes) :=
  MarshalTo m (make_bytes (MarshalLen m)).

(** The body of the decoder's loop. *)
Definition assign (m : AspInactive) (pr : Param) : result msg_error AspInactive :=
  let '(mk h rtCtx info others) := m in
  if Tag pr =? Params.RoutingContext then
    rtCtx ← assign_once rtCtx pr; Ok (mk h rtCtx info others)
  else if Tag pr =? Params.InfoString then
    info ← assign_once info pr; Ok (mk h rtCtx info others)
  else Ok (mk h rtCtx info (others ++ [Some pr])).

Definition UnmarshalBinary : bytes → result msg_error AspInactive :=
  unmarshalMessage MsgClassASPTM MsgTypeAspInactive (λ h, mk h None None []) (λ _, assign) (λ _, Ok tt).

#[export] Instance AspInactive_Message : Message AspInactive := {
  msgClass := MsgClassASPTM;
  msgType := MsgTypeAspInactive;
  getHeader := header;
  parameters m := [RoutingContext m; InfoString m] ++ Others m;
  zero h := mk h None None [];
  assign := λ _, assign;
  validate := (λ _, Ok tt);
  fields_ok m :=
    field_ok Params.RoutingContext (RoutingContext m) ∧
    field_ok Params.InfoString (InfoString m) ∧
    Forall (other_ok [Params.RoutingContext; Params.InfoString]) (Others m);
  rebuild h m := mk h (set_length (RoutingContext m)) (set_length (InfoString m))
    (set_length <$> Others m);
  msg_MarshalLen := MarshalLen;
  msg_MarshalTo := MarshalTo;
}.

#[export] Instance AspInactive_laws : MessageLaws AspInactive.
Proof.
  message_laws MarshalLen MarshalTo assign
    (λ (h : Header) (l k : list (option Param)), match l with
      | [rtCtx; info] => mk h rtCtx info k
      | _ => mk h None None [] end)
    idtac.
Qed.

End AspInactive.

(** ** ASP Inactive Ack (asp-inactive-ack.go) *)

Module AspInactiveAck.

Record AspInactiveAck : Set := mk {
  header : Header;
  RoutingContext : option Param;
  InfoString : option Param;
  Others : list (option Param);
}.

#[export] Instance AspInactiveAck_eq_dec : EqDecision AspInactiveAck.
Proof. solve_decision. Defined.

Definition MarshalLen (m : AspInactiveAck) : Z :=
  8 + opt_MarshalLen (RoutingContext m) +
  opt_MarshalLen (InfoString m) +
  paramsMarshalLen (Others m).

Definition SetLength (m : AspInactiveAck) : AspInactiveAck :=
  mk (with_Length (u32 (MarshalLen m)) (header m))
    (set_length (RoutingContext m))
    (set_length (InfoString m))
    (setParamLengths (Others m)).

Definition NewAspInactiveAck (rtCtx info : option Param) : AspInactiveAck :=
  SetLength (mk (header_for MsgClassASPTM MsgTypeAspInactiveAck) rtCtx info []).

Definition MarshalTo (m : AspInactiveAck) (b : bytes) : result msg_error (AspInactiveAck * bytes) :=
  if len b <? MarshalLen m then Err ErrTooShortToMarshalBinary else
  let payload := make_bytes (MarshalLen m - 8) in
  let offset := 0 in
  '(rtCtx, payload, offset) ← marshalParam (RoutingContext m) payload offset;
  '(info, payload, offset) ← marshalParam (InfoString m) payload offset;
  '(others, payload) ← marshalOtherParams payload offset (Others m);
  '(h, b) ← Header_MarshalTo (with_Payload payload (header m)) b;
  Ok (mk h rtCtx info others, b).

Definition MarshalBinary (m : AspInactiveAck) : result msg_error (AspInactiveAck * bytes) :=
  MarshalTo m (make_bytes (MarshalLen m)).

(** The body of the decoder's loop. *)
Definition assign (m : AspInactiveAck) (pr : Param) : result msg_error AspInactiveAck :=
  let '(mk h rtCtx info others) := m in
  if Tag pr =? Params.RoutingContext then
    rtCtx ← assign_once rtCtx pr; Ok (mk h rtCtx info others)
  else if Tag pr =? Params.InfoString then
    info ← assign_once info pr; Ok (mk h rtCtx info others)
  else Ok (mk h rtCtx info (others ++ [Some pr])).

Definition UnmarshalBinary : bytes → result msg_error AspInactiveAck :=
  unmarshalMessage MsgClassASPTM MsgTypeAspInactiveAck (λ h, mk h None None []) (λ _, assign) (λ _, Ok tt).

#[export] Instance AspInactiveAck_Message : Message AspInactiveAck := {
  msgClass := MsgClassASPTM;
  msgType := MsgTypeAspInactiveAck;
  getHeader := header;
  parameters m := [RoutingContext m; InfoString m] ++ Others m;
  zero h := mk h None None [];
  assign := λ _, assign;
  validate := (λ _, Ok tt);
  fields_ok m :=
    field_ok Params.RoutingContext (RoutingContext m) ∧
    field_ok Params.InfoString (InfoString m) ∧
    Forall (other_ok [Params.RoutingContext; Params.InfoString]) (Others m);
  rebuild h m := mk h (set_length (RoutingContext m)) (set_length (InfoString m))
    (set_length <$> Others m);
  msg_MarshalLen := MarshalLen;
  msg_MarshalTo := MarshalTo;
}.

#[export] Instance AspInactiveAck_laws : MessageLaws AspInactiveAck.
Proof.
  message_laws MarshalLen MarshalTo assign
    (λ (h : Header) (l k : list (option Param)), match l with
      | [rtCtx; info] => mk h rtCtx info k
      | _ => mk h None None [] end)
    idtac.
Qed.

End AspInactiveAck.
