(* ===== verification/MsgRkm.v ===== *)
(** * Routing key management messages (package messages, class RKM)

    rkm.go: the shared encoder and checks, and the four registration messages
    with their instances of the interface [Message].  A header is a value
    here, so the nil header that [marshalRKMMessageTo] also refuses does not
    occur. *)

From S2P Require Import Prelude Params ParamsFacts Nested Header Codec.

(** ** Shared checks and the shared encoder *)

Definition newRKMHeader (messageType : Z) : Header := header_for MsgClassRKM messageType.

(** The loop of [validateRepeatedRKMParameter]; [count] counts the parameters
    that are not nil. *)
Fixpoint validateRepeatedLoop (parameters : list (option Param)) (tag count : Z)
    : result msg_error () :=
  match parameters with
  | [] => if count =? 0 then Err ErrMissingParameter else Ok tt
  | None :: parameters => validateRepeatedLoop parameters tag count
  | Some parameter :: parameters =>
      if negb (Tag parameter =? tag) then Err ErrInvalidParameter
      else validateRepeatedLoop parameters tag (count + 1)
  end.

Definition validateRepeatedRKMParameter (parameters : list (option Param)) (tag : Z)
    : result msg_error () :=
  validateRepeatedLoop parameters tag 0.

Fixpoint validateRKMExtensions (parameters : list (option Param)) : result msg_error () :=
  match parameters with
  | [] => Ok tt
  | None :: parameters => validateRKMExtensions parameters
  | Some parameter :: parameters =>
      if IsKnownM3UAParameterTag (Tag parameter) then Err ErrInvalidParameter
      else validateRKMExtensions parameters
  end.

Definition rkmMessageMarshalLen (parameters : list (option Param)) : Z :=
  8 + paramsMarshalLen parameters.

(** The header and the parameters are shared with the message: they are
    returned as the call leaves them. *)
Definition marshalRKMMessageTo (header : Header) (parameters : list (option Param))
    (validate : result msg_error ()) (b : bytes)
    : result msg_error (Header * list (option Param) * bytes) :=
  _ ← validate;
  let length := rkmMessageMarshalLen parameters in
  if len b <? length then Err ErrTooShortToMarshalBinary else
  let parameters := setParamLengths parameters in
  let header := with_Length (u32 length) header in
  let payload := make_bytes (length - 8) in
  '(parameters, payload) ← marshalOtherParams payload 0 parameters;
  '(header, b) ← Header_MarshalTo (with_Payload payload header) b;
  Ok (header, parameters, b).

(** ** Facts *)

Lemma set_length_idemp o : set_length (set_length o) = set_length o.
Proof. unfold set_length. destruct o; [|done]. cbn. by rewrite SetLength_idemp. Qed.
Lemma opt_wire_set_length o : opt_wire (set_length o) = opt_wire o.
Proof. unfold set_length. destruct o; [|done]. cbn. apply wire_SetLength. Qed.
Lemma opt_encodable_set_length o : opt_encodable (set_length o) ↔ opt_encodable o.
Proof.
  unfold opt_encodable, set_length. destruct o as [p|]; cbn; [|done].
  pose proof (encodable_SetLength p). naive_solver.
Qed.
Lemma opt_typed_set_length o : opt_typed o → opt_typed (set_length o).
Proof.
  intros H p Hp. destruct o as [q|]; [|done]. injection Hp as <-.
  rewrite Tag_SetLength. by apply H.
Qed.
Lemma params_wire_set_length l : params_wire (set_length <$> l) = params_wire l.
Proof.
  unfold params_wire. induction l as [|o l IH]; [done|].
  cbn [fmap list_fmap mbind list_bind] in *. by rewrite opt_wire_set_length, IH.
Qed.

Lemma validateRepeatedLoop_set_length l tag count :
  validateRepeatedLoop (set_length <$> l) tag count = validateRepeatedLoop l tag count.
Proof.
  revert count. induction l as [|[p|] l IH]; intros count; cbn [fmap list_fmap]; [done| |apply IH].
  unfold set_length at 1. cbn. by rewrite Tag_SetLength, IH.
Qed.
Lemma validateRKMExtensions_set_length l :
  validateRKMExtensions (set_length <$> l) = validateRKMExtensions l.
Proof.
  induction l as [|[p|] l IH]; cbn [fmap list_fmap]; [done| |apply IH].
  unfold set_length at 1. cbn. by rewrite Tag_SetLength, IH.
Qed.
Lemma safe_validateRepeatedRKMParameter l tag : safe (validateRepeatedRKMParameter l tag).
Proof.
  unfold validateRepeatedRKMParameter. generalize 0.
  induction l as [|[p|] l IH]; intros count; cbn; [by case_match| |apply IH].
  case_match; [done|apply IH].
Qed.
Lemma safe_validateRKMExtensions l : safe (validateRKMExtensions l).
Proof. induction l as [|[p|] l IH]; cbn; [done|by case_match|done]. Qed.
#[export] Hint Resolve safe_validateRepeatedRKMParameter safe_validateRKMExtensions : safety.

Lemma marshalRKMMessageTo_Ok h ps v b r :
  Forall opt_typed ps →
  let payload := params_wire ps in
  let h' := with_Length (8 + len payload) (with_Payload payload h) in
  marshalRKMMessageTo h ps v b = Ok r ↔
  v = Ok tt ∧ Forall opt_encodable ps ∧ 8 + len payload < 2 ^ 32 ∧
  8 + len payload ≤ len b ∧ r = (h', set_length <$> ps, overwrite (Header_wire h') b).
Proof.
  intros Ht payload h'. unfold marshalRKMMessageTo, rkmMessageMarshalLen, setParamLengths.
  rewrite paramsMarshalLen_wire. fold payload. rewrite Z.add_simpl_l.
  assert (Hw : params_wire (set_length <$> ps) = payload) by apply params_wire_set_length.
  assert (He : Forall opt_encodable (set_length <$> ps) ↔ Forall opt_encodable ps).
  { rewrite Forall_fmap. apply Forall_iff, opt_encodable_set_length. }
  assert (Ht' : Forall opt_typed (set_length <$> ps)).
  { rewrite Forall_fmap. eapply Forall_impl; [exact Ht|]. apply opt_typed_set_length. }
  assert (Hi : set_length <$> (set_length <$> ps) = set_length <$> ps).
  { rewrite <-list_fmap_compose. apply list_fmap_ext. intros i o _. apply set_length_idemp. }
  assert (Hm : ∀ r, marshalOtherParams (make_bytes (len payload)) 0 (set_length <$> ps) =
    Ok r ↔ Forall opt_encodable ps ∧ r = (set_length <$> ps, payload)).
  { intros r'. rewrite <-He, <-Hw.
    pose proof (marshalOtherParams_Ok (set_length <$> ps) [] r' Ht') as H.
    by rewrite Hi in H. }
  split.
  - intros H. apply bind_Ok in H as ([] & -> & H). destruct (_ <? _) eqn:Hlt; [done|].
    apply bind_Ok in H as (x & Hx & H). apply Hm in Hx as [Hx ->].
    apply bind_Ok in H as (y & Hy & H). apply Header_MarshalTo_Ok in Hy as (H1 & H2 & ->).
    injection H as <-. by split_and!.
  - intros (-> & Hx & H1 & H2 & ->). cbn. rewrite (proj2 (Z.ltb_ge _ _)) by lia.
    apply bind_Ok. eexists. split; [by apply Hm|].
    apply bind_Ok. eexists. split; [by apply Header_MarshalTo_Ok|]. done.
Qed.

(** *** Parameters of the tag of the message, and extensions *)

Definition repeated_ok (tag : Z) (o : option Param) : Prop :=
  ∃ p, o = Some p ∧ Tag p = tag.
Definition extension_ok (o : option Param) : Prop :=
  ∃ p, o = Some p ∧ is_u16 (Tag p) ∧ IsKnownM3UAParameterTag (Tag p) = false.

Lemma repeated_typed tag l : is_u16 tag → Forall (repeated_ok tag) l → Forall opt_typed l.
Proof.
  intros Ht H. eapply Forall_impl; [exact H|]. intros o (p & -> & Hp) q [= <-].
  by rewrite Hp.
Qed.
Lemma extension_typed l : Forall extension_ok l → Forall opt_typed l.
Proof. intros H. eapply Forall_impl; [exact H|]. by intros o (p & -> & Hp & _) q [= <-]. Qed.
Lemma repeated_set_length tag l :
  Forall (repeated_ok tag) l → Forall (repeated_ok tag) (set_length <$> l).
Proof.
  intros H. rewrite Forall_fmap. eapply Forall_impl; [exact H|].
  intros o (p & -> & Hp). exists (SetLength p). by rewrite Tag_SetLength.
Qed.
Lemma extension_set_length l :
  Forall extension_ok l → Forall extension_ok (set_length <$> l).
Proof.
  intros H. rewrite Forall_fmap. eapply Forall_impl; [exact H|].
  intros o (p & -> & Hp). exists (SetLength p). by rewrite Tag_SetLength.
Qed.

Section repeated_loop.
Context {S : Type} (assign : S → Param → result msg_error S)
  (g : list (option Param) → list (option Param) → S) (tag : Z).

(** What the decoders of the three messages with a repeated parameter do. *)
Definition assigns_repeated : Prop := ∀ keys others p,
  assign (g keys others) p =
  if Tag p =? tag then Ok (g (keys ++ [Some p]) others)
  else if IsKnownM3UAParameterTag (Tag p) then Err ErrInvalidParameter
  else Ok (g keys (others ++ [Some p])).

Lemma foldM_repeated keys others :
  assigns_repeated → IsKnownM3UAParameterTag tag = true →
  Forall (repeated_ok tag) keys → Forall extension_ok others →
  foldM assign (g [] []) (params_of (set_length <$> (keys ++ others))) =
  Ok (g (set_length <$> keys) (set_length <$> others)).
Proof.
  intros Ha Hk Hks Hos. rewrite fmap_app, params_of_app, foldM_app.
  rewrite (foldM_collect assign (λ k, g k []) (λ p, Tag p = tag) keys []).
  - cbn [mbind result_bind app].
    apply (foldM_collect assign (λ k, g (set_length <$> keys) k)
      (λ p, IsKnownM3UAParameterTag (Tag p) = false) others []).
    + intros k p Hp. rewrite Ha, Hp. destruct (Tag p =? tag) eqn:E; [|done].
      to_prop. congruence.
    + eapply Forall_impl; [exact Hos|]. intros o (p & -> & _ & Hp). exists p.
      by rewrite Tag_SetLength.
  - intros k p Hp. by rewrite Ha, Hp, Z.eqb_refl.
  - eapply Forall_impl; [exact Hks|]. intros o (p & -> & Hp). exists p.
    by rewrite Tag_SetLength.
Qed.
End repeated_loop.

Lemma params_of_insert keys others p :
  params_of ((keys ++ [Some p]) ++ others) ≡ₚ params_of (keys ++ others) ++ [p].
Proof.
  rewrite !params_of_app. cbn. rewrite <-!app_assoc. apply Permutation_app_head.
  apply Permutation_app_comm.
Qed.

(** The encoder law of an RKM message, whose [MarshalTo] takes the message
    apart into header and parameters and puts it together again. *)
Lemma marshalRKM_law {M} (m : M) h ps v b (r : M * bytes)
    (join : Header → list (option Param) → M) :
  Forall opt_typed ps →
  let payload := params_wire ps in
  let h' := with_Length (8 + len payload) (with_Payload payload h) in
  join h' (set_length <$> ps) = m →
  ('(h, ps, b) ← marshalRKMMessageTo h ps v b; Ok (join h ps, b)) = Ok r ↔
  v = Ok tt ∧ Forall opt_encodable ps ∧ rkmMessageMarshalLen ps < 2 ^ 32 ∧
  rkmMessageMarshalLen ps ≤ len b ∧ r = (m, overwrite (Header_wire h') b).
Proof.
  intros Ht payload h' Hj. unfold rkmMessageMarshalLen. rewrite paramsMarshalLen_wire.
  split.
  - intros H. apply bind_Ok in H as (x & Hx & H).
    apply marshalRKMMessageTo_Ok in Hx as (Hv & He & H1 & H2 & ->); [|done].
    injection H as <-. split_and!; try done. by rewrite <-Hj.
  - intros (Hv & He & H1 & H2 & ->). apply bind_Ok. eexists.
    split; [by apply marshalRKMMessageTo_Ok|]. cbn. by rewrite <-Hj.
Qed.

#[global] Arguments marshalRKMMessageTo : simpl never.
#[global] Arguments validateRepeatedRKMParameter : simpl never.

(** The laws of a message with one repeated parameter. *)
Ltac rkm_laws assign validate MarshalTo tag mk :=
  split;
  [ intros ?; cbn; unfold rkmMessageMarshalLen; by rewrite <-paramsMarshalLen_wire
  | done
  | intros ? []; cbn; symmetry; apply fmap_app
  | intros [? keys os] b r [H1 H2]; cbn in H1, H2; cbn; unfold MarshalTo; cbn;
    refine (marshalRKM_law _ _ _ _ _ _
      (λ h ps, mk h (take (length keys) ps) (drop (length keys) ps)) _ _);
    [ apply Forall_app; split; [eapply repeated_typed; [|exact H1]; done|by apply extension_typed]
    | by rewrite fmap_app, <-(length_fmap set_length keys), take_app_length,
        drop_app_length ]
  | intros ?; cbn; split_and?; [constructor|constructor|done..]
  | intros ? [? keys os] m' p Ht _ [H1 H2] Ha; cbn in H1, H2, Ha |- *; unfold assign in Ha;
    destruct (Tag p =? tag) eqn:E;
    [ injection Ha as <-; to_prop; split_and?; cbn;
      [apply Forall_app; split; [done|]; apply Forall_singleton; by exists p|done|done|];
      apply params_of_insert
    | destruct (IsKnownM3UAParameterTag (Tag p)) eqn:K; [done|];
      injection Ha as <-; split_and?; cbn;
      [done|apply Forall_app; split; [done|]; apply Forall_singleton; by exists p|done|];
      apply params_of_snoc ]
  | intros h [? keys os] [H1 H2]; cbn in H1, H2 |- *; rewrite foldMi_const;
    by apply (foldM_repeated assign (mk h) tag)
  | intros ? [] Hv; cbn; unfold validate, validateRepeatedRKMParameter; cbn;
    by rewrite validateRepeatedLoop_set_length, validateRKMExtensions_set_length
  | intros ? [] [H1 H2]; split; [by apply repeated_set_length|by apply extension_set_length]
  | intros ? [] p; cbn; unfold assign; case_match; [done|by case_match]
  | intros []; cbn; unfold validate; apply safe_bind; auto with safety ].

(** ** Registration Request (rkm.go) *)

Module RegistrationRequest.

Record RegistrationRequest : Set := mk {
  header : Header;
  RoutingKeys : list (option Param);
  Others : list (option Param);
}.

#[export] Instance RegistrationRequest_eq_dec : EqDecision RegistrationRequest.
Proof. solve_decision. Defined.

Definition validate (message : RegistrationRequest) : result msg_error () :=
  _ ← validateRepeatedRKMParameter (RoutingKeys message) Params.RoutingKey;
  validateRKMExtensions (Others message).

Definition parameters (message : RegistrationRequest) : list (option Param) :=
  RoutingKeys message ++ Others message.

Definition MarshalLen (message : RegistrationRequest) : Z :=
  rkmMessageMarshalLen (parameters message).

Definition SetLength (message : RegistrationRequest) : RegistrationRequest :=
  mk (with_Length (u32 (rkmMessageMarshalLen (parameters message))) (header message))
    (setParamLengths (RoutingKeys message)) (setParamLengths (Others message)).

Definition NewRegistrationRequest (routingKeys : list (option Param)) : RegistrationRequest :=
  SetLength (mk (newRKMHeader MsgTypeRegistrationRequest) routingKeys []).

Definition MarshalTo (message : RegistrationRequest) (b : bytes)
    : result msg_error (RegistrationRequest * bytes) :=
  '(h, ps, b) ←
    marshalRKMMessageTo (header message) (parameters message) (validate message) b;
  let n := length (RoutingKeys message) in
  Ok (mk h (take n ps) (drop n ps), b).

Definition MarshalBinary (message : RegistrationRequest)
    : result msg_error (RegistrationRequest * bytes) :=
  MarshalTo message (make_bytes (MarshalLen message)).

(** The body of the decoder's loop. *)
Definition assign (message : RegistrationRequest) (parameter : Param)
    : result msg_error RegistrationRequest :=
  let '(mk h routingKeys others) := message in
  if Tag parameter =? Params.RoutingKey then
    Ok (mk h (routingKeys ++ [Some parameter]) others)
  else if IsKnownM3UAParameterTag (Tag parameter) then Err ErrInvalidParameter
  else Ok (mk h routingKeys (others ++ [Some parameter])).

Definition UnmarshalBinary : bytes → result msg_error RegistrationRequest :=
  unmarshalMessage MsgClassRKM MsgTypeRegistrationRequest (λ h, mk h [] [])
    (λ _, assign) validate.

#[export] Instance RegistrationRequest_Message : Message RegistrationRequest := {
  msgClass := MsgClassRKM;
  msgType := MsgTypeRegistrationRequest;
  getHeader := header;
  parameters := parameters;
  zero h := mk h [] [];
  assign := λ _, assign;
  validate := validate;
  fields_ok m :=
    Forall (repeated_ok Params.RoutingKey) (RoutingKeys m) ∧ Forall extension_ok (Others m);
  rebuild h m := mk h (set_length <$> RoutingKeys m) (set_length <$> Others m);
  msg_MarshalLen := MarshalLen;
  msg_MarshalTo := MarshalTo;
}.

#[export] Instance RegistrationRequest_laws : MessageLaws RegistrationRequest.
Proof. rkm_laws assign validate MarshalTo (Params.RoutingKey) mk. Qed.

End RegistrationRequest.

(** ** Registration Response (rkm.go) *)

Module RegistrationResponse.

Record RegistrationResponse : Set := mk {
  header : Header;
  RegistrationResults : list (option Param);
  Others : list (option Param);
}.

#[export] Instance RegistrationResponse_eq_dec : EqDecision RegistrationResponse.
Proof. solve_decision. Defined.

Definition validate (message : RegistrationResponse) : result msg_error () :=
  _ ← validateRepeatedRKMParameter (RegistrationResults message) Params.RegistrationResult;
  validateRKMExtensions (Others message).

Definition parameters (message : RegistrationResponse) : list (option Param) :=
  RegistrationResults message ++ Others message.

Definition MarshalLen (message : RegistrationResponse) : Z :=
  rkmMessageMarshalLen (parameters message).

Definition SetLength (message : RegistrationResponse) : RegistrationResponse :=
  mk (with_Length (u32 (rkmMessageMarshalLen (parameters message))) (header message))
    (setParamLengths (RegistrationResults message)) (setParamLengths (Others message)).

Definition NewRegistrationResponse (results : list (option Param)) : RegistrationResponse :=
  SetLength (mk (newRKMHeader MsgTypeRegistrationResponse) results []).

Definition MarshalTo (message : RegistrationResponse) (b : bytes)
    : result msg_error (RegistrationResponse * bytes) :=
  '(h, ps, b) ←
    marshalRKMMessageTo (header message) (parameters message) (validate message) b;
  let n := length (RegistrationResults message) in
  Ok (mk h (take n ps) (drop n ps), b).

Definition MarshalBinary (message : RegistrationResponse)
    : result msg_error (RegistrationResponse * bytes) :=
  MarshalTo message (make_bytes (MarshalLen message)).

(** The body of the decoder's loop. *)
Definition assign (message : RegistrationResponse) (parameter : Param)
    : result msg_error RegistrationResponse :=
  let '(mk h results others) := message in
  if Tag parameter =? Params.RegistrationResult then
    Ok (mk h (results ++ [Some parameter]) others)
  else if IsKnownM3UAParameterTag (Tag parameter) then Err ErrInvalidParameter
  else Ok (mk h results (others ++ [Some parameter])).

Definition UnmarshalBinary : bytes → result msg_error RegistrationResponse :=
  unmarshalMessage MsgClassRKM MsgTypeRegistrationResponse (λ h, mk h [] [])
    (λ _, assign) validate.

#[export] Instance RegistrationResponse_Message : Message RegistrationResponse := {
  msgClass := MsgClassRKM;
  msgType := MsgTypeRegistrationResponse;
  getHeader := header;
  parameters := parameters;
  zero h := mk h [] [];
  assign := λ _, assign;
  validate := validate;
  fields_ok m :=
    Forall (repeated_ok Params.RegistrationResult) (RegistrationResults m) ∧ Forall extension_ok (Others m);
  rebuild h m := mk h (set_length <$> RegistrationResults m) (set_length <$> Others m);
  msg_MarshalLen := MarshalLen;
  msg_MarshalTo := MarshalTo;
}.

#[export] Instance RegistrationResponse_laws : MessageLaws RegistrationResponse.
Proof. rkm_laws assign validate MarshalTo (Params.RegistrationResult) mk. Qed.

End RegistrationResponse.

(** ** Deregistration Request (rkm.go) *)

Module DeregistrationRequest.

Record DeregistrationRequest : Set := mk {
  header : Header;
  RoutingContext : option Param;
  Others : list (option Param);
}.

#[export] Instance DeregistrationRequest_eq_dec : EqDecision DeregistrationRequest.
Proof. solve_decision. Defined.

Definition validate (message : DeregistrationRequest) : result msg_error () :=
  _ ← requireParameter (RoutingContext message);
  _ ← match RoutingContext message with
      | Some p =>
          if negb (Tag p =? Params.RoutingContext) then Err ErrInvalidParameter else Ok tt
      | None => Panic
      end;
  validateRKMExtensions (Others message).

Definition parameters (message : DeregistrationRequest) : list (option Param) :=
  RoutingContext message :: Others message.

Definition MarshalLen (message : DeregistrationRequest) : Z :=
  rkmMessageMarshalLen (parameters message).

Definition SetLength (message : DeregistrationRequest) : DeregistrationRequest :=
  mk (with_Length (u32 (rkmMessageMarshalLen (parameters message))) (header message))
    (set_length (RoutingContext message)) (setParamLengths (Others message)).

Definition NewDeregistrationRequest (routingContext : option Param)
    : DeregistrationRequest :=
  SetLength (mk (newRKMHeader MsgTypeDeregistrationRequest) routingContext []).

Definition MarshalTo (message : DeregistrationRequest) (b : bytes)
    : result msg_error (DeregistrationRequest * bytes) :=
  '(h, ps, b) ←
    marshalRKMMessageTo (header message) (parameters message) (validate message) b;
  Ok (mk h (mjoin (head ps)) (tail ps), b).

Definition MarshalBinary (message : DeregistrationRequest)
    : result msg_error (DeregistrationRequest * bytes) :=
  MarshalTo message (make_bytes (MarshalLen message)).

(** The body of the decoder's loop. *)
Definition assign (message : DeregistrationRequest) (parameter : Param)
    : result msg_error DeregistrationRequest :=
  let '(mk h routingContext others) := message in
  if Tag parameter =? Params.RoutingContext then
    routingContext ← assign_once routingContext parameter;
    Ok (mk h routingContext others)
  else if IsKnownM3UAParameterTag (Tag parameter) then Err ErrInvalidParameter
  else Ok (mk h routingContext (others ++ [Some parameter])).

Definition UnmarshalBinary : bytes → result msg_error DeregistrationRequest :=
  unmarshalMessage MsgClassRKM MsgTypeDeregistrationRequest (λ h, mk h None [])
    (λ _, assign) validate.

#[export] Instance DeregistrationRequest_Message : Message DeregistrationRequest := {
  msgClass := MsgClassRKM;
  msgType := MsgTypeDeregistrationRequest;
  getHeader := header;
  parameters := parameters;
  zero h := mk h None [];
  assign := λ _, assign;
  validate := validate;
  fields_ok m :=
    field_ok Params.RoutingContext (RoutingContext m) ∧ Forall extension_ok (Others m);
  rebuild h m := mk h (set_length (RoutingContext m)) (set_length <$> Others m);
  msg_MarshalLen := MarshalLen;
  msg_MarshalTo := MarshalTo;
}.

Lemma validate_set_length h m :
  validate (mk h (set_length (RoutingContext m)) (set_length <$> Others m)) = validate m.
Proof.
  destruct m as [h' [p|] os]; [|done].
  change (set_length _) with (Some (Params.SetLength p)). unfold validate. cbn.
  by rewrite Tag_SetLength, validateRKMExtensions_set_length.
Qed.

Lemma safe_validate m : safe (validate m).
Proof.
  destruct m as [h [p|] os]; [|done]. unfold validate. cbn.
  destruct (negb _); cbn; auto with safety.
Qed.

Lemma assign_one m m' p :
  is_u16 (Tag p) → fields_ok m → assign m p = Ok m' →
  fields_ok m' ∧ getHeader m' = getHeader m ∧
  params_of (parameters m') ≡ₚ params_of (parameters m) ++ [p].
Proof.
  destruct m as [h rc os]. unfold assign. intros Ht [H1 H2] Ha. cbn in H1, H2.
  destruct (Tag p =? Params.RoutingContext) eqn:E; to_prop.
  - apply bind_Ok in Ha as (? & Ho & [= <-]). apply assign_once_Ok in Ho as [-> ->].
    split; [split; [by apply field_ok_Some|done]|]. split; [done|].
    apply (params_of_set (None :: os) 0 p eq_refl).
  - destruct (IsKnownM3UAParameterTag (Tag p)) eqn:K; [done|]. injection Ha as <-.
    split; [split; [done|]|split; [done|]].
    + apply Forall_app. split; [done|]. apply Forall_singleton. by exists p.
    + apply (params_of_snoc [rc] os p).
Qed.

Lemma assign_all h m :
  fields_ok m →
  foldM assign (mk h None []) (params_of (set_length <$> parameters m)) =
  Ok (mk h (set_length (RoutingContext m)) (set_length <$> Others m)).
Proof.
  destruct m as [h' rc os]. intros [H1 H2]. cbn in H1, H2 |- *.
  rewrite (foldM_opt assign _ (mk h (set_length rc) [])); [|by intros ->|law_opt assign].
  apply (foldM_collect assign (λ k, mk h (set_length rc) k)
    (λ p, IsKnownM3UAParameterTag (Tag p) = false) os []).
  - intros k p Hp. unfold assign. rewrite Hp.
    destruct (Tag p =? Params.RoutingContext) eqn:E; [|done].
    to_prop. rewrite E in Hp. done.
  - eapply Forall_impl; [exact H2|]. intros o (p & -> & _ & Hp). exists p.
    by rewrite Tag_SetLength.
Qed.

#[export] Instance DeregistrationRequest_laws : MessageLaws DeregistrationRequest.
Proof.
  split.
  - intros m. cbn. unfold MarshalLen, rkmMessageMarshalLen. by rewrite paramsMarshalLen_wire.
  - done.
  - done.
  - intros [h rc os] b r [H1 H2]. cbn in H1, H2. cbn. unfold MarshalTo. cbn.
    refine (marshalRKM_law _ _ _ _ _ _ (λ h ps, mk h (mjoin (head ps)) (tail ps)) _ _);
      [|done]. apply Forall_cons_2.
    + eapply field_ok_typed; [|exact H1]; done.
    + by apply extension_typed.
  - intros h. cbn. split_and?; [by apply field_ok_None|constructor|done..].
  - intros i m m' p Ht _. apply assign_one, Ht.
  - intros h m Hf. cbn. rewrite foldMi_const. by apply assign_all.
  - intros h m Hv. cbn. by rewrite validate_set_length.
  - intros h m [H1 H2]. split; [by apply field_ok_set_length|by apply extension_set_length].
  - intros i [h rc os] p. cbn. unfold assign. case_match; [by destruct rc|by case_match].
  - apply safe_validate.
Qed.

End DeregistrationRequest.

(** ** Deregistration Response (rkm.go) *)

Module DeregistrationResponse.

Record DeregistrationResponse : Set := mk {
  header : Header;
  DeregistrationResults : list (option Param);
  Others : list (option Param);
}.

#[export] Instance DeregistrationResponse_eq_dec : EqDecision DeregistrationResponse.
Proof. solve_decision. Defined.

Definition validate (message : DeregistrationResponse) : result msg_error () :=
  _ ← validateRepeatedRKMParameter (DeregistrationResults message) Params.DeregistrationResult;
  validateRKMExtensions (Others message).

Definition parameters (message : DeregistrationResponse) : list (option Param) :=
  DeregistrationResults message ++ Others message.

Definition MarshalLen (message : DeregistrationResponse) : Z :=
  rkmMessageMarshalLen (parameters message).

Definition SetLength (message : DeregistrationResponse) : DeregistrationResponse :=
  mk (with_Length (u32 (rkmMessageMarshalLen (parameters message))) (header message))
    (setParamLengths (DeregistrationResults message)) (setParamLengths (Others message)).

Definition NewDeregistrationResponse (results : list (option Param)) : DeregistrationResponse :=
  SetLength (mk (newRKMHeader MsgTypeDeregistrationResponse) results []).

Definition MarshalTo (message : DeregistrationResponse) (b : bytes)
    : result msg_error (DeregistrationResponse * bytes) :=
  '(h, ps, b) ←
    marshalRKMMessageTo (header message) (parameters message) (validate message) b;
  let n := length (DeregistrationResults message) in
  Ok (mk h (take n ps) (drop n ps), b).

Definition MarshalBinary (message : DeregistrationResponse)
    : result msg_error (DeregistrationResponse * bytes) :=
  MarshalTo message (make_bytes (MarshalLen message)).

(** The body of the decoder's loop. *)
Definition assign (message : DeregistrationResponse) (parameter : Param)
    : result msg_error DeregistrationResponse :=
  let '(mk h results others) := message in
  if Tag parameter =? Params.DeregistrationResult then
    Ok (mk h (results ++ [Some parameter]) others)
  else if IsKnownM3UAParameterTag (Tag parameter) then Err ErrInvalidParameter
  else Ok (mk h results (others ++ [Some parameter])).

Definition UnmarshalBinary : bytes → result msg_error DeregistrationResponse :=
  unmarshalMessage MsgClassRKM MsgTypeDeregistrationResponse (λ h, mk h [] [])
    (λ _, assign) validate.

#[export] Instance DeregistrationResponse_Message : Message DeregistrationResponse := {
  msgClass := MsgClassRKM;
  msgType := MsgTypeDeregistrationResponse;
  getHeader := header;
  parameters := parameters;
  zero h := mk h [] [];
  assign := λ _, assign;
  validate := validate;
  fields_ok m :=
    Forall (repeated_ok Params.DeregistrationResult) (DeregistrationResults m) ∧ Forall extension_ok (Others m);
  rebuild h m := mk h (set_length <$> DeregistrationResults m) (set_length <$> Others m);
  msg_MarshalLen := MarshalLen;
  msg_MarshalTo := MarshalTo;
}.

#[export] Instance DeregistrationResponse_laws : MessageLaws DeregistrationResponse.
Proof. rkm_laws assign validate MarshalTo (Params.DeregistrationResult) mk. Qed.

End DeregistrationResponse.
