(* ===== verification/MsgMgmt.v ===== *)
(** * Management messages (package messages, class MGMT)

    error.go and notify.go: the record, constructor, length, encoder and decoder of
    each message, and its instance of the interface [Message]. *)

From S2P Require Import Prelude Params ParamsFacts Nested Header Codec.

(** ** Error (error.go) *)

Module Error.

Record Error : Set := mk {
  header : Header;
  ErrorCode : option Param;
  RoutingContext : option Param;
  NetworkAppearance : option Param;
  AffectedPointCode : option Param;
  DiagnosticInformation : option Param;
  Others : list (option Param);
}.

#[export] Instance Error_eq_dec : EqDecision Error.
Proof. solve_decision. Defined.

Definition MarshalLen (m : Error) : Z :=
  8 + opt_MarshalLen (ErrorCode m) +
  opt_MarshalLen (RoutingContext m) +
  opt_MarshalLen (NetworkAppearance m) +
  opt_MarshalLen (AffectedPointCode m) +
  opt_MarshalLen (DiagnosticInformation m) +
  paramsMarshalLen (Others m).

Definition SetLength (m : Error) : Error :=
  mk (with_Length (u32 (MarshalLen m)) (header m))
    (set_length (ErrorCode m))
    (set_length (RoutingContext m))
    (set_length (NetworkAppearance m))
    (set_length (AffectedPointCode m))
    (set_length (DiagnosticInformation m))
    (setParamLengths (Others m)).

Definition NewError (code rtCtx nwApr apcs diag : option Param) : Error :=
  SetLength (mk (header_for MsgClassManagement MsgTypeError) code rtCtx nwApr apcs diag []).

Definition requireParameters (m : Error) : result msg_error () :=
  requireParameter (ErrorCode m).

Definition MarshalTo (m : Error) (b : bytes) : result msg_error (Error * bytes) :=
  _ ← requireParameters m;
  if len b <? MarshalLen m then Err ErrTooShortToMarshalBinary else
  let payload := make_bytes (MarshalLen m - 8) in
  let offset := 0 in
  '(code, payload, offset) ← marshalParam (ErrorCode m) payload offset;
  '(rtCtx, payload, offset) ← marshalParam (RoutingContext m) payload offset;
  '(nwApr, payload, offset) ← marshalParam (NetworkAppearance m) payload offset;
  '(apcs, payload, offset) ← marshalParam (AffectedPointCode m) payload offset;
  '(diag, payload, offset) ← marshalParam (DiagnosticInformation m) payload offset;
  '(others, payload) ← marshalOtherParams payload offset (Others m);
  '(h, b) ← Header_MarshalTo (with_Payload payload (header m)) b;
  Ok (mk h code rtCtx nwApr apcs diag others, b).

Definition MarshalBinary (m : Error) : result msg_error (Error * bytes) :=
  MarshalTo m (make_bytes (MarshalLen m)).

(** The body of the decoder's loop. *)
Definition assign (m : Error) (pr : Param) : result msg_error Error :=
  let '(mk h code rtCtx nwApr apcs diag others) := m in
  if Tag pr =? Params.ErrorCode then
    code ← assign_once code pr; Ok (mk h code rtCtx nwApr apcs diag others)
  else if Tag pr =? Params.RoutingContext then
    rtCtx ← assign_once rtCtx pr; Ok (mk h code rtCtx nwApr apcs diag others)
  else if Tag pr =? Params.NetworkAppearance then
    nwApr ← assign_once nwApr pr; Ok (mk h code rtCtx nwApr apcs diag others)
  else if Tag pr =? Params.AffectedPointCode then
    apcs ← assign_once apcs pr; Ok (mk h code rtCtx nwApr apcs diag others)
  else if Tag pr =? Params.DiagnosticInformation then
    diag ← assign_once diag pr; Ok (mk h code rtCtx nwApr apcs diag others)
  else Ok (mk h code rtCtx nwApr apcs diag (others ++ [Some pr])).

Definition UnmarshalBinary : bytes → result msg_error Error :=
  unmarshalMessage MsgClassManagement MsgTypeError (λ h, mk h None None None None None []) (λ _, assign) requireParameters.

#[export] Instance Error_Message : Message Error := {
  msgClass := MsgClassManagement;
  msgType := MsgTypeError;
  getHeader := header;
  parameters m := [ErrorCode m; RoutingContext m; NetworkAppearance m; AffectedPointCode m; DiagnosticInformation m] ++ Others m;
  zero h := mk h None None None None None [];
  assign := λ _, assign;
  validate := requireParameters;
  fields_ok m :=
    field_ok Params.ErrorCode (ErrorCode m) ∧
    field_ok Params.RoutingContext (RoutingContext m) ∧
    field_ok Params.NetworkAppearance (NetworkAppearance m) ∧
    field_ok Params.AffectedPointCode (AffectedPointCode m) ∧
    field_ok Params.DiagnosticInformation (DiagnosticInformation m) ∧
    Forall (other_ok [Params.ErrorCode; Params.RoutingContext; Params.NetworkAppearance; Params.AffectedPointCode; Params.DiagnosticInformation]) (Others m);
  rebuild h m := mk h (set_length (ErrorCode m)) (set_length (RoutingContext m)) (set_length (NetworkAppearance m)) (set_length (AffectedPointCode m)) (set_length (DiagnosticInformation m))
    (set_length <$> Others m);
  msg_MarshalLen := MarshalLen;
  msg_MarshalTo := MarshalTo;
}.

#[export] Instance Error_laws : MessageLaws Error.
Proof.
  message_laws MarshalLen MarshalTo assign
    (λ (h : Header) (l k : list (option Param)), match l with
      | [code; rtCtx; nwApr; apcs; diag] => mk h code rtCtx nwApr apcs diag k
      | _ => mk h None None None None None [] end)
    ltac:(unfold requireParameters).
Qed.

End Error.

(** ** Notify (notify.go) *)

Module Notify.

Record Notify : Set := mk {
  header : Header;
  Status : option Param;
  AspIdentifier : option Param;
  RoutingContext : option Param;
  InfoString : option Param;
  Others : list (option Param);
}.

#[export] Instance Notify_eq_dec : EqDecision Notify.
Proof. solve_decision. Defined.

Definition MarshalLen (m : Notify) : Z :=
  8 + opt_MarshalLen (Status m) +
  opt_MarshalLen (AspIdentifier m) +
  opt_MarshalLen (RoutingContext m) +
  opt_MarshalLen (InfoString m) +
  paramsMarshalLen (Others m).

Definition SetLength (m : Notify) : Notify :=
  mk (with_Length (u32 (MarshalLen m)) (header m))
    (set_length (Status m))
    (set_length (AspIdentifier m))
    (set_length (RoutingContext m))
    (set_length (InfoString m))
    (setParamLengths (Others m)).

Definition NewNotify (status aspID rtCtx info : option Param) : Notify :=
  SetLength (mk (header_for MsgClassManagement MsgTypeNotify) status aspID rtCtx info []).

Definition requireParameters (m : Notify) : result msg_error () :=
  requireParameter (Status m).

Definition MarshalTo (m : Notify) (b : bytes) : result msg_error (Notify * bytes) :=
  _ ← requireParameters m;
  if len b <? MarshalLen m then Err ErrTooShortToMarshalBinary else
  let payload := make_bytes (MarshalLen m - 8) in
  let offset := 0 in
  '(status, payload, offset) ← marshalParam (Status m) payload offset;
  '(aspID, payload, offset) ← marshalParam (AspIdentifier m) payload offset;
  '(rtCtx, payload, offset) ← marshalParam (RoutingContext m) payload offset;
  '(info, payload, offset) ← marshalParam (InfoString m) payload offset;
  '(others, payload) ← marshalOtherParams payload offset (Others m);
  '(h, b) ← Header_MarshalTo (with_Payload payload (header m)) b;
  Ok (mk h status aspID rtCtx info others, b).

Definition MarshalBinary (m : Notify) : result msg_error (Notify * bytes) :=
  MarshalTo m (make_bytes (MarshalLen m)).

(** The body of the decoder's loop. *)
Definition assign (m : Notify) (pr : Param) : result msg_error Notify :=
  let '(mk h status aspID rtCtx info others) := m in
  if Tag pr =? Params.Status then
    status ← assign_once status pr; Ok (mk h status aspID rtCtx info others)
  else if Tag pr =? Params.AspIdentifier then
    aspID ← assign_once aspID pr; Ok (mk h status aspID rtCtx info others)
  else if Tag pr =? Params.RoutingContext then
    rtCtx ← assign_once rtCtx pr; Ok (mk h status aspID rtCtx info others)
  else if Tag pr =? Params.InfoString then
    info ← assign_once info pr; Ok (mk h status aspID rtCtx info others)
  else Ok (mk h status aspID rtCtx info (others ++ [Some pr])).

Definition UnmarshalBinary : bytes → result msg_error Notify :=
  unmarshalMessage MsgClassManagement MsgTypeNotify (λ h, mk h None None None None []) (λ _, assign) requireParameters.

#[export] Instance Notify_Message : Message Notify := {
  msgClass := MsgClassManagement;
  msgType := MsgTypeNotify;
  getHeader := header;
  parameters m := [Status m; AspIdentifier m; RoutingContext m; InfoString m] ++ Others m;
  zero h := mk h None None None None [];
  assign := λ _, assign;
  validate := requireParameters;
  fields_ok m :=
    field_ok Params.Status (Status m) ∧
    field_ok Params.AspIdentifier (AspIdentifier m) ∧
    field_ok Params.RoutingContext (RoutingContext m) ∧
    field_ok Params.InfoString (InfoString m) ∧
    Forall (other_ok [Params.Status; Params.AspIdentifier; Params.RoutingContext; Params.InfoString]) (Others m);
  rebuild h m := mk h (set_length (Status m)) (set_length (AspIdentifier m)) (set_length (RoutingContext m)) (set_length (InfoString m))
    (set_length <$> Others m);
  msg_MarshalLen := MarshalLen;
  msg_MarshalTo := MarshalTo;
}.

#[export] Instance Notify_laws : MessageLaws Notify.
Proof.
  message_laws MarshalLen MarshalTo assign
    (λ (h : Header) (l k : list (option Param)), match l with
      | [status; aspID; rtCtx; info] => mk h status aspID rtCtx info k
      | _ => mk h None None None None [] end)
    ltac:(unfold requireParameters).
Qed.

End Notify.
