(* ===== verification/Message.v ===== *)
(** * The messages of the package and their decoder

    message.go and generic.go: the interface value [M3UA] (a dynamic type and
    a message of it), [Generic], the type switch of [newMessageFor], [Parse],
    [IsSupported] and [MarshalBinary], with what decoding and encoding do to
    a message of any type. *)

From S2P Require Import Prelude Params ParamsFacts Nested Header Codec.
From S2P Require Import MsgData MsgSsnm MsgAspsm MsgAsptm MsgRkm MsgMgmt.

(** ** Generic (generic.go)

    The list holds no nil: the decoder makes none, and the methods of
    [Generic] would dereference it. *)

Module Generic.

Record Generic : Set := mk { header : Header; Params : list Param }.

#[export] Instance Generic_eq_dec : EqDecision Generic.
Proof. solve_decision. Defined.

Definition MarshalLen (g : Generic) : Z := 8 + paramsMarshalLen (Some <$> Params g).

Definition SetLength (g : Generic) : Generic :=
  mk (with_Length (u32 (MarshalLen g)) (header g)) (Params.SetLength <$> Params g).

Definition New (ver mcls mtype : Z) (params : list Param) : Generic :=
  SetLength (mk (mkHeader ver 0 mcls mtype 0 []) params).

(** The loop of [MarshalTo]. *)
Fixpoint marshalLoop (params : list Param) (payload : bytes) (offset : Z)
    : result msg_error (list Param * bytes) :=
  match params with
  | [] => Ok ([], payload)
  | pr :: params =>
      rest ← slice_from offset payload;
      '(pr, rest) ← of_params (MarshalTo pr rest);
      let payload := take (Z.to_nat offset) payload ++ rest in
      '(params, payload) ← marshalLoop params payload (offset + Params.MarshalLen pr);
      Ok (pr :: params, payload)
  end.

Definition MarshalTo (g : Generic) (b : bytes) : result msg_error (Generic * bytes) :=
  if len b <? MarshalLen g then Err ErrTooShortToMarshalBinary else
  let payload := make_bytes (MarshalLen g - 8) in
  '(params, payload) ← marshalLoop (Params g) payload 0;
  '(h, b) ← Header_MarshalTo (with_Payload payload (header g)) b;
  Ok (mk h params, b).

Definition UnmarshalBinary (b : bytes) : result msg_error Generic :=
  header ← ParseHeader b;
  prs ← of_params (ParseMultiParams (h_Payload header));
  Ok (mk header prs).

End Generic.

(** ** The types of message *)

Inductive kind : Set :=
| KData
| KDestinationUnavailable
| KDestinationAvailable
| KDestinationStateAudit
| KSignallingCongestion
| KDestinationUserPartUnavailable
| KDestinationRestricted
| KAspUp
| KAspDown
| KHeartbeat
| KAspUpAck
| KAspDownAck
| KHeartbeatAck
| KAspActive
| KAspActiveAck
| KAspInactive
| KAspInactiveAck
| KRegistrationRequest
| KRegistrationResponse
| KDeregistrationRequest
| KDeregistrationResponse
| KError
| KNotify.

#[export] Instance kind_eq_dec : EqDecision kind.
Proof. solve_decision. Defined.

Definition all_kinds : list kind :=
  [KData; KDestinationUnavailable; KDestinationAvailable; KDestinationStateAudit; KSignallingCongestion; KDestinationUserPartUnavailable; KDestinationRestricted; KAspUp; KAspDown; KHeartbeat; KAspUpAck; KAspDownAck; KHeartbeatAck; KAspActive; KAspActiveAck; KAspInactive; KAspInactiveAck; KRegistrationRequest; KRegistrationResponse; KDeregistrationRequest; KDeregistrationResponse; KError; KNotify].

Definition type_of (k : kind) : Set :=
  match k with
  | KData => Data.Data
  | KDestinationUnavailable => DestinationUnavailable.DestinationUnavailable
  | KDestinationAvailable => DestinationAvailable.DestinationAvailable
  | KDestinationStateAudit => DestinationStateAudit.DestinationStateAudit
  | KSignallingCongestion => SignallingCongestion.SignallingCongestion
  | KDestinationUserPartUnavailable => DestinationUserPartUnavailable.DestinationUserPartUnavailable
  | KDestinationRestricted => DestinationRestricted.DestinationRestricted
  | KAspUp => AspUp.AspUp
  | KAspDown => AspDown.AspDown
  | KHeartbeat => Heartbeat.Heartbeat
  | KAspUpAck => AspUpAck.AspUpAck
  | KAspDownAck => AspDownAck.AspDownAck
  | KHeartbeatAck => HeartbeatAck.HeartbeatAck
  | KAspActive => AspActive.AspActive
  | KAspActiveAck => AspActiveAck.AspActiveAck
  | KAspInactive => AspInactive.AspInactive
  | KAspInactiveAck => AspInactiveAck.AspInactiveAck
  | KRegistrationRequest => RegistrationRequest.RegistrationRequest
  | KRegistrationResponse => RegistrationResponse.RegistrationResponse
  | KDeregistrationRequest => DeregistrationRequest.DeregistrationRequest
  | KDeregistrationResponse => DeregistrationResponse.DeregistrationResponse
  | KError => Error.Error
  | KNotify => Notify.Notify
  end.

#[export] Instance Message_of (k : kind) : Message (type_of k) :=
  match k with
  | KData => Data.Data_Message
  | KDestinationUnavailable => DestinationUnavailable.DestinationUnavailable_Message
  | KDestinationAvailable => DestinationAvailable.DestinationAvailable_Message
  | KDestinationStateAudit => DestinationStateAudit.DestinationStateAudit_Message
  | KSignallingCongestion => SignallingCongestion.SignallingCongestion_Message
  | KDestinationUserPartUnavailable => DestinationUserPartUnavailable.DestinationUserPartUnavailable_Message
  | KDestinationRestricted => DestinationRestricted.DestinationRestricted_Message
  | KAspUp => AspUp.AspUp_Message
  | KAspDown => AspDown.AspDown_Message
  | KHeartbeat => Heartbeat.Heartbeat_Message
  | KAspUpAck => AspUpAck.AspUpAck_Message
  | KAspDownAck => AspDownAck.AspDownAck_Message
  | KHeartbeatAck => HeartbeatAck.HeartbeatAck_Message
  | KAspActive => AspActive.AspActive_Message
  | KAspActiveAck => AspActiveAck.AspActiveAck_Message
  | KAspInactive => AspInactive.AspInactive_Message
  | KAspInactiveAck => AspInactiveAck.AspInactiveAck_Message
  | KRegistrationRequest => RegistrationRequest.RegistrationRequest_Message
  | KRegistrationResponse => RegistrationResponse.RegistrationResponse_Message
  | KDeregistrationRequest => DeregistrationRequest.DeregistrationRequest_Message
  | KDeregistrationResponse => DeregistrationResponse.DeregistrationResponse_Message
  | KError => Error.Error_Message
  | KNotify => Notify.Notify_Message
  end.

#[export] Instance laws_of (k : kind) : MessageLaws (type_of k) :=
  match k with
  | KData => Data.Data_laws
  | KDestinationUnavailable => DestinationUnavailable.DestinationUnavailable_laws
  | KDestinationAvailable => DestinationAvailable.DestinationAvailable_laws
  | KDestinationStateAudit => DestinationStateAudit.DestinationStateAudit_laws
  | KSignallingCongestion => SignallingCongestion.SignallingCongestion_laws
  | KDestinationUserPartUnavailable => DestinationUserPartUnavailable.DestinationUserPartUnavailable_laws
  | KDestinationRestricted => DestinationRestricted.DestinationRestricted_laws
  | KAspUp => AspUp.AspUp_laws
  | KAspDown => AspDown.AspDown_laws
  | KHeartbeat => Heartbeat.Heartbeat_laws
  | KAspUpAck => AspUpAck.AspUpAck_laws
  | KAspDownAck => AspDownAck.AspDownAck_laws
  | KHeartbeatAck => HeartbeatAck.HeartbeatAck_laws
  | KAspActive => AspActive.AspActive_laws
  | KAspActiveAck => AspActiveAck.AspActiveAck_laws
  | KAspInactive => AspInactive.AspInactive_laws
  | KAspInactiveAck => AspInactiveAck.AspInactiveAck_laws
  | KRegistrationRequest => RegistrationRequest.RegistrationRequest_laws
  | KRegistrationResponse => RegistrationResponse.RegistrationResponse_laws
  | KDeregistrationRequest => DeregistrationRequest.DeregistrationRequest_laws
  | KDeregistrationResponse => DeregistrationResponse.DeregistrationResponse_laws
  | KError => Error.Error_laws
  | KNotify => Notify.Notify_laws
  end.

(** [UnmarshalBinary] of the type, called on an empty message. *)
Definition UnmarshalBinary (k : kind) : bytes → result msg_error (type_of k) :=
  match k with
  | KData => Data.UnmarshalBinary
  | KDestinationUnavailable => DestinationUnavailable.UnmarshalBinary
  | KDestinationAvailable => DestinationAvailable.UnmarshalBinary
  | KDestinationStateAudit => DestinationStateAudit.UnmarshalBinary
  | KSignallingCongestion => SignallingCongestion.UnmarshalBinary
  | KDestinationUserPartUnavailable => DestinationUserPartUnavailable.UnmarshalBinary
  | KDestinationRestricted => DestinationRestricted.UnmarshalBinary
  | KAspUp => AspUp.UnmarshalBinary
  | KAspDown => AspDown.UnmarshalBinary
  | KHeartbeat => Heartbeat.UnmarshalBinary
  | KAspUpAck => AspUpAck.UnmarshalBinary
  | KAspDownAck => AspDownAck.UnmarshalBinary
  | KHeartbeatAck => HeartbeatAck.UnmarshalBinary
  | KAspActive => AspActive.UnmarshalBinary
  | KAspActiveAck => AspActiveAck.UnmarshalBinary
  | KAspInactive => AspInactive.UnmarshalBinary
  | KAspInactiveAck => AspInactiveAck.UnmarshalBinary
  | KRegistrationRequest => RegistrationRequest.UnmarshalBinary
  | KRegistrationResponse => RegistrationResponse.UnmarshalBinary
  | KDeregistrationRequest => DeregistrationRequest.UnmarshalBinary
  | KDeregistrationResponse => DeregistrationResponse.UnmarshalBinary
  | KError => Error.UnmarshalBinary
  | KNotify => Notify.UnmarshalBinary
  end.

Definition MessageClass (k : kind) : Z :=
  match k with
  | KData => MsgClassTransfer
  | KDestinationUnavailable => MsgClassSSNM
  | KDestinationAvailable => MsgClassSSNM
  | KDestinationStateAudit => MsgClassSSNM
  | KSignallingCongestion => MsgClassSSNM
  | KDestinationUserPartUnavailable => MsgClassSSNM
  | KDestinationRestricted => MsgClassSSNM
  | KAspUp => MsgClassASPSM
  | KAspDown => MsgClassASPSM
  | KHeartbeat => MsgClassASPSM
  | KAspUpAck => MsgClassASPSM
  | KAspDownAck => MsgClassASPSM
  | KHeartbeatAck => MsgClassASPSM
  | KAspActive => MsgClassASPTM
  | KAspActiveAck => MsgClassASPTM
  | KAspInactive => MsgClassASPTM
  | KAspInactiveAck => MsgClassASPTM
  | KRegistrationRequest => MsgClassRKM
  | KRegistrationResponse => MsgClassRKM
  | KDeregistrationRequest => MsgClassRKM
  | KDeregistrationResponse => MsgClassRKM
  | KError => MsgClassManagement
  | KNotify => MsgClassManagement
  end.

Definition MessageType (k : kind) : Z :=
  match k with
  | KData => MsgTypePayloadData
  | KDestinationUnavailable => MsgTypeDestinationUnavailable
  | KDestinationAvailable => MsgTypeDestinationAvailable
  | KDestinationStateAudit => MsgTypeDestinationStateAudit
  | KSignallingCongestion => MsgTypeSignallingCongestion
  | KDestinationUserPartUnavailable => MsgTypeDestinationUserPartUnavailable
  | KDestinationRestricted => MsgTypeDestinationRestricted
  | KAspUp => MsgTypeAspUp
  | KAspDown => MsgTypeAspDown
  | KHeartbeat => MsgTypeHeartbeat
  | KAspUpAck => MsgTypeAspUpAck
  | KAspDownAck => MsgTypeAspDownAck
  | KHeartbeatAck => MsgTypeHeartbeatAck
  | KAspActive => MsgTypeAspActive
  | KAspActiveAck => MsgTypeAspActiveAck
  | KAspInactive => MsgTypeAspInactive
  | KAspInactiveAck => MsgTypeAspInactiveAck
  | KRegistrationRequest => MsgTypeRegistrationRequest
  | KRegistrationResponse => MsgTypeRegistrationResponse
  | KDeregistrationRequest => MsgTypeDeregistrationRequest
  | KDeregistrationResponse => MsgTypeDeregistrationResponse
  | KError => MsgTypeError
  | KNotify => MsgTypeNotify
  end.

(** A value of the interface: its dynamic type and the message. *)
Inductive M3UA : Type :=
| GenericMessage (g : Generic.Generic)
| Typed (k : kind) (m : type_of k).

(** ** Choosing the type of a message *)

(** [uint16(c)<<8 | uint16(t)]. *)
Definition combine (c t : Z) : Z := Z.lor (u16 (Z.shiftl (u16 c) 8)) (u16 t).

Definition newMessageFor (class msgType : Z) : option kind :=
  let key := combine class msgType in
  if key =? combine MsgClassTransfer MsgTypePayloadData then Some KData
  else if key =? combine MsgClassSSNM MsgTypeDestinationUnavailable then Some KDestinationUnavailable
  else if key =? combine MsgClassSSNM MsgTypeDestinationAvailable then Some KDestinationAvailable
  else if key =? combine MsgClassSSNM MsgTypeDestinationStateAudit then Some KDestinationStateAudit
  else if key =? combine MsgClassSSNM MsgTypeSignallingCongestion then Some KSignallingCongestion
  else if key =? combine MsgClassSSNM MsgTypeDestinationUserPartUnavailable then Some KDestinationUserPartUnavailable
  else if key =? combine MsgClassSSNM MsgTypeDestinationRestricted then Some KDestinationRestricted
  else if key =? combine MsgClassASPSM MsgTypeAspUp then Some KAspUp
  else if key =? combine MsgClassASPSM MsgTypeAspDown then Some KAspDown
  else if key =? combine MsgClassASPSM MsgTypeHeartbeat then Some KHeartbeat
  else if key =? combine MsgClassASPSM MsgTypeAspUpAck then Some KAspUpAck
  else if key =? combine MsgClassASPSM MsgTypeAspDownAck then Some KAspDownAck
  else if key =? combine MsgClassASPSM MsgTypeHeartbeatAck then Some KHeartbeatAck
  else if key =? combine MsgClassASPTM MsgTypeAspActive then Some KAspActive
  else if key =? combine MsgClassASPTM MsgTypeAspActiveAck then Some KAspActiveAck
  else if key =? combine MsgClassASPTM MsgTypeAspInactive then Some KAspInactive
  else if key =? combine MsgClassASPTM MsgTypeAspInactiveAck then Some KAspInactiveAck
  else if key =? combine MsgClassRKM MsgTypeRegistrationRequest then Some KRegistrationRequest
  else if key =? combine MsgClassRKM MsgTypeRegistrationResponse then Some KRegistrationResponse
  else if key =? combine MsgClassRKM MsgTypeDeregistrationRequest then Some KDeregistrationRequest
  else if key =? combine MsgClassRKM MsgTypeDeregistrationResponse then Some KDeregistrationResponse
  else if key =? combine MsgClassManagement MsgTypeError then Some KError
  else if key =? combine MsgClassManagement MsgTypeNotify then Some KNotify
  else None.

Definition IsSupported (class msgType : Z) : bool :=
  bool_decide (is_Some (newMessageFor class msgType)).

Definition Parse (b : bytes) : result msg_error M3UA :=
  if len b <? 4 then Err ErrTooShortToParse else
  class ← index 2 b;
  msgType ← index 3 b;
  match newMessageFor class msgType with
  | Some k => m ← UnmarshalBinary k b; Ok (Typed k m)
  | None => g ← Generic.UnmarshalBinary b; Ok (GenericMessage g)
  end.

(** ** Methods of the interface *)

Definition message_header (m : M3UA) : Header :=
  match m with
  | GenericMessage g => Generic.header g
  | Typed _ m => getHeader m
  end.

(** [Version], [MessageClass] and [MessageType]. *)
Definition message_Version (m : M3UA) : Z := h_Version (message_header m).
Definition message_Class (m : M3UA) : Z :=
  match m with
  | GenericMessage g => h_Class (Generic.header g)
  | Typed k _ => MessageClass k
  end.
Definition message_Type (m : M3UA) : Z :=
  match m with
  | GenericMessage g => h_Type (Generic.header g)
  | Typed k _ => MessageType k
  end.

Definition message_MarshalLen (m : M3UA) : Z :=
  match m with
  | GenericMessage g => Generic.MarshalLen g
  | Typed _ m => msg_MarshalLen m
  end.

Definition message_MarshalTo (m : M3UA) (b : bytes) : result msg_error (M3UA * bytes) :=
  match m with
  | GenericMessage g => '(g, b) ← Generic.MarshalTo g b; Ok (GenericMessage g, b)
  | Typed k m => '(m, b) ← msg_MarshalTo m b; Ok (Typed k m, b)
  end.

Definition MarshalBinary (m : M3UA) : result msg_error (M3UA * bytes) :=
  message_MarshalTo m (make_bytes (message_MarshalLen m)).
