(* ===== verification/MessageTheory.v ===== *)
(** * The message decoder and encoder, for messages of every type

    Theorems on [Parse] and [MarshalBinary] (message.go): the round trips, the
    safety of the decoder on any octets, the type a message is decoded to, and
    the parameters a decoded message must and may carry. *)

From S2P Require Import Prelude Params ParamsFacts Nested Header Codec.
From S2P Require Import MsgData MsgSsnm MsgAspsm MsgAsptm MsgRkm MsgMgmt Message.

(** ** The type switch *)

Lemma lor_shiftl_octet c t : is_u8 t → Z.lor (Z.shiftl c 8) t = Z.shiftl c 8 + t.
Proof.
  intros Ht. symmetry. apply Z.add_nocarry_lor, Z.bits_inj'. intros i Hi.
  rewrite Z.land_spec, Z.bits_0.
  destruct (Z.lt_ge_cases i 8) as [H|H].
  - by rewrite Z.shiftl_spec_low.
  - unfold is_u8 in Ht.
    rewrite (proj1 (Z.bounded_iff_bits_nonneg' 8 t ltac:(lia) ltac:(lia)) Ht i H).
    apply andb_false_r.
Qed.

Lemma combine_eq c t : is_u8 c → is_u8 t → combine c t = 256 * c + t.
Proof.
  intros Hc Ht. unfold combine, is_u8 in *.
  rewrite (u16_id c), (u16_id t) by (unfold is_u16; lia).
  rewrite u16_id by (unfold is_u16; rewrite Z.shiftl_mul_pow2; lia).
  rewrite lor_shiftl_octet by done. rewrite Z.shiftl_mul_pow2 by lia. lia.
Qed.

Lemma msgClass_of k : @msgClass _ (Message_of k) = MessageClass k.
Proof. by destruct k. Qed.
Lemma msgType_of k : @msgType _ (Message_of k) = MessageType k.
Proof. by destruct k. Qed.
Lemma MessageClass_u8 k : is_u8 (MessageClass k).
Proof. by destruct k. Qed.
Lemma MessageType_u8 k : is_u8 (MessageType k).
Proof. by destruct k. Qed.

Lemma newMessageFor_kind k : newMessageFor (MessageClass k) (MessageType k) = Some k.
Proof. by destruct k. Qed.

Lemma newMessageFor_Some c t k :
  is_u8 c → is_u8 t →
  newMessageFor c t = Some k ↔ c = MessageClass k ∧ t = MessageType k.
Proof.
  intros Hc Ht. split; [|intros [-> ->]; apply newMessageFor_kind].
  assert (Hk : ∀ k', (combine c t =? combine (MessageClass k') (MessageType k')) = true →
    c = MessageClass k' ∧ t = MessageType k').
  { intros k' H. to_prop.
    pose proof (MessageClass_u8 k'). pose proof (MessageType_u8 k').
    rewrite !combine_eq in H by done. unfold is_u8 in *. lia. }
  unfold newMessageFor. intros H.
  repeat (case_match; [injection H as <-; by apply (Hk _)|]). done.
Qed.

Lemma UnmarshalBinary_eq k b : UnmarshalBinary k b = Unmarshal b.
Proof. by destruct k. Qed.

(** ** Generic messages *)

Lemma marshalLoop_others ps payload offset :
  marshalOthersLoop payload offset (Some <$> ps) =
  ('(qs, payload) ← Generic.marshalLoop ps payload offset;
   Ok (Some <$> (qs : list Param), payload)).
Proof.
  revert payload offset. induction ps as [|p ps IH]; intros payload offset; [done|].
  cbn [fmap list_fmap marshalOthersLoop Generic.marshalLoop].
  unfold marshalParam. destruct (slice_from offset payload) as [rest| | |]; [|done..].
  cbn [mbind result_bind].
  destruct (MarshalTo p rest) as [[q rest']| | |] eqn:Hq; [|done..].
  cbn [of_params map_err mbind result_bind].
  assert (Params.MarshalLen q = Params.MarshalLen p) as ->.
  { unfold MarshalTo in Hq. destruct (currentLengths p) as [[? ?]| | |]; [|done..].
    cbn in Hq. destruct (_ <? _); [done|]. by injection Hq as <- _. }
  cbn [fmap list_fmap] in IH. rewrite IH.
  destruct (Generic.marshalLoop _ _ _) as [[? ?]| | |]; done.
Qed.

Lemma params_of_Some ps : params_of (Some <$> ps) = ps.
Proof. unfold params_of. induction ps as [|p ps IH]; [done|]. cbn. f_equal. apply IH. Qed.

(** The header [MarshalTo] leaves in a generic message. *)
Definition generic_header (g : Generic.Generic) : Header :=
  let payload := params_wire (Some <$> Generic.Params g) in
  with_Length (8 + len payload) (with_Payload payload (Generic.header g)).

Lemma marshalLoop_Ok ps r :
  Forall (λ p, is_u16 (Tag p)) ps →
  Generic.marshalLoop ps (make_bytes (paramsMarshalLen (Some <$> ps))) 0 = Ok r ↔
  Forall encodable ps ∧ r = (SetLength <$> ps, params_wire (Some <$> ps)).
Proof.
  intros Ht. pose proof (marshalOthersLoop_Ok (Some <$> ps) []) as HL.
  rewrite <-paramsMarshalLen_wire in HL. cbn [app] in HL.
  assert (He : Forall opt_encodable (Some <$> ps) ↔ Forall encodable ps).
  { by rewrite Forall_opt_encodable, params_of_Some. }
  assert (Hs : set_length <$> (Some <$> ps) = Some <$> (SetLength <$> ps)).
  { by rewrite <-!list_fmap_compose. }
  assert (Hty : Forall opt_typed (Some <$> ps)).
  { rewrite Forall_fmap. eapply Forall_impl; [exact Ht|]. by intros p Hp q [= <-]. }
  change (len (@nil byte)) with 0 in HL.
  split.
  - intros H. destruct r as [qs payload].
    specialize (HL (Some <$> qs, payload) Hty).
    rewrite marshalLoop_others, H in HL. destruct (proj1 HL eq_refl) as [H1 H2].
    split; [by apply He|]. injection H2 as H2 ->. rewrite Hs in H2. f_equal.
    rewrite <-(params_of_Some qs), H2. apply params_of_Some.
  - intros [H1 ->]. specialize (HL (Some <$> (SetLength <$> ps), params_wire (Some <$> ps)) Hty).
    rewrite marshalLoop_others in HL. rewrite Hs, He in HL.
    pose proof (proj2 HL (conj H1 eq_refl)) as H2.
    destruct (Generic.marshalLoop _ _ _) as [[qs payload]| | |]; [|done..].
    injection H2 as H2 ->.
    do 2 f_equal. rewrite <-(params_of_Some qs), H2. apply params_of_Some.
Qed.

Lemma Generic_MarshalTo_Ok g b r :
  Forall (λ p, is_u16 (Tag p)) (Generic.Params g) →
  Generic.MarshalTo g b = Ok r ↔
  Forall encodable (Generic.Params g) ∧ Generic.MarshalLen g < 2 ^ 32 ∧
  Generic.MarshalLen g ≤ len b ∧
  r = (Generic.mk (generic_header g) (SetLength <$> Generic.Params g),
       overwrite (Header_wire (generic_header g)) b).
Proof.
  intros Ht. unfold Generic.MarshalTo, Generic.MarshalLen. rewrite Z.add_simpl_l.
  assert (Hl : 8 + paramsMarshalLen (Some <$> Generic.Params g) =
    Header_MarshalLen (with_Payload (params_wire (Some <$> Generic.Params g))
      (Generic.header g))).
  { unfold Header_MarshalLen. by rewrite paramsMarshalLen_wire. }
  split.
  - intros H. destruct (_ <? _) eqn:Hb; [done|].
    apply bind_Ok in H as (x & Hx & H). apply marshalLoop_Ok in Hx as [He ->]; [|done].
    apply bind_Ok in H as (y & Hy & H). apply Header_MarshalTo_Ok in Hy as (H1 & H2 & ->).
    injection H as <-. rewrite Hl. by split_and!.
  - intros (He & H1 & H2 & ->). rewrite (proj2 (Z.ltb_ge _ _)) by lia.
    apply bind_Ok. eexists. split; [by apply marshalLoop_Ok|].
    apply bind_Ok. eexists. split; [apply Header_MarshalTo_Ok; split_and!; [lia|lia|reflexivity]|]. done.
Qed.

(** ** Messages of every type *)

(** A message as received, or as the constructors make it of parameters of the right
    tags: its header names its type, and its parameters are in the fields of their
    tags. *)
Definition well_formed_message (m : M3UA) : Prop :=
  match m with
  | Typed _ m => well_formed m
  | GenericMessage g =>
      header_typed (Generic.header g) ∧
      newMessageFor (h_Class (Generic.header g)) (h_Type (Generic.header g)) = None ∧
      Forall (λ p, is_u16 (Tag p)) (Generic.Params g)
  end.

(** Its parameters, in the order of the fields. *)
Definition message_params (m : M3UA) : list Param :=
  match m with
  | Typed _ m => params_of (parameters m)
  | GenericMessage g => Generic.Params g
  end.

(** The checks the type makes of its mandatory parameters. *)
Definition message_check (m : M3UA) : result msg_error () :=
  match m with
  | Typed _ m => validate m
  | GenericMessage _ => Ok tt
  end.

(** What can be sent. *)
Definition sendable (m : M3UA) : Prop :=
  message_check m = Ok tt ∧ Forall encodable (message_params m) ∧
  message_MarshalLen m < 2 ^ 32.

(** The message as [MarshalTo] leaves it: lengths set, payload stored. *)
Definition encoded (m : M3UA) : M3UA :=
  match m with
  | Typed k m => Typed k (rebuild (encoded_header m) m)
  | GenericMessage g =>
      GenericMessage (Generic.mk (generic_header g) (SetLength <$> Generic.Params g))
  end.

Lemma message_MarshalLen_eq m :
  message_MarshalLen m = 8 + len (params_wire (Some <$> message_params m)).
Proof.
  destruct m as [g|k m]; cbn.
  - unfold Generic.MarshalLen. by rewrite paramsMarshalLen_wire.
  - rewrite MarshalLen_law, !params_wire_params_of. by rewrite params_of_Some.
Qed.

Lemma message_MarshalBinary_Ok m r :
  well_formed_message m →
  MarshalBinary m = Ok r ↔
  sendable m ∧ r = (encoded m, Header_wire (message_header (encoded m))).
Proof.
  intros Hw. unfold sendable, MarshalBinary. destruct m as [g|k m].
  - destruct Hw as (_ & _ & Ht). cbn [message_MarshalTo message_check message_params encoded].
    assert (Hn : 0 ≤ Generic.MarshalLen g).
    { unfold Generic.MarshalLen. rewrite paramsMarshalLen_wire.
      pose proof (len_nonneg (params_wire (Some <$> Generic.Params g))). lia. }
    assert (len (Header_wire (generic_header g)) = Generic.MarshalLen g) as Hlw.
    { rewrite len_Header_wire. unfold Generic.MarshalLen. by rewrite paramsMarshalLen_wire. }
    assert (Ho : overwrite (Header_wire (generic_header g)) (make_bytes (Generic.MarshalLen g))
      = Header_wire (generic_header g)).
    { apply overwrite_self. by rewrite len_make_bytes. }
    split.
    + intros H. apply bind_Ok in H as (x & Hx & H).
      apply Generic_MarshalTo_Ok in Hx as (He & H1 & _ & ->); [|done].
      cbn in H. rewrite Ho in H. by injection H as <-.
    + intros ((_ & He & H1) & ->). apply bind_Ok. eexists. split.
      { apply Generic_MarshalTo_Ok; [done|]. split; [done|]. split; [done|].
        split; [|reflexivity]. cbn. rewrite len_make_bytes by done. lia. }
      cbn. by rewrite Ho.
  - cbn [message_MarshalTo message_check message_params encoded].
    pose proof (λ r, MarshalBinary_law m r (wf_fields m Hw)) as HL.
    unfold msg_MarshalBinary in HL. rewrite <-Forall_opt_encodable.
    split.
    + intros H. apply bind_Ok in H as ([m' b] & Hx & H). injection H as <-.
      apply HL in Hx as (Hv & He & Hl & [= -> ->]).
      split; [done|]. cbn. by rewrite getHeader_rebuild.
    + intros ((Hv & He & Hl) & ->). apply bind_Ok. eexists.
      split; [by apply HL|]. cbn. by rewrite getHeader_rebuild.
Qed.

(** ** Decoding *)

Lemma index_class {E} h rest :
  header_typed h → @index E 2 (Header_wire h ++ rest) = Ok (h_Class h).
Proof.
  intros [_ _ Hc _]. change (@index E 2 (Header_wire h ++ rest)) with
    (Ok (E:=E) (byte_to_Z (byte_of_Z (h_Class h)))). by rewrite byte_to_of_u8.
Qed.
Lemma index_type {E} h rest :
  header_typed h → @index E 3 (Header_wire h ++ rest) = Ok (h_Type h).
Proof.
  intros [_ _ _ Ht]. change (@index E 3 (Header_wire h ++ rest)) with
    (Ok (E:=E) (byte_to_Z (byte_of_Z (h_Type h)))). by rewrite byte_to_of_u8.
Qed.

(** [Parse] of octets that begin with a header. *)
Lemma Parse_header h rest :
  header_typed h →
  Parse (Header_wire h ++ rest) =
  match newMessageFor (h_Class h) (h_Type h) with
  | Some k => m ← Unmarshal (M:=type_of k) (Header_wire h ++ rest); Ok (Typed k m)
  | None => g ← Generic.UnmarshalBinary (Header_wire h ++ rest); Ok (GenericMessage g)
  end.
Proof.
  intros Hh. unfold Parse. rewrite len_app, len_Header_wire. unfold Header_MarshalLen.
  pose proof (len_nonneg (h_Payload h)). pose proof (len_nonneg rest).
  rewrite (proj2 (Z.ltb_ge _ _)) by lia.
  rewrite index_class by done. cbn [mbind result_bind].
  rewrite index_type by done. cbn [mbind result_bind].
  destruct (newMessageFor _ _); [|done]. by rewrite UnmarshalBinary_eq.
Qed.

Lemma safe_Parse_message b : safe (Parse b).
Proof.
  unfold Parse. destruct (len b <? 4) eqn:Hl; [done|]. to_prop.
  apply safe_bind; [apply safe_index; lia|intros c _].
  apply safe_bind; [apply safe_index; lia|intros t _].
  destruct (newMessageFor c t) as [k|].
  - rewrite UnmarshalBinary_eq. apply safe_bind; [apply safe_Unmarshal|done].
  - apply safe_bind; [|done]. unfold Generic.UnmarshalBinary, of_params.
    apply safe_bind; [apply safe_ParseHeader|intros h _].
    apply safe_bind; [auto with safety|done].
Qed.

(** What [Parse] returns. *)
Lemma Parse_Ok b m :
  Parse b = Ok m →
  well_formed_message m ∧ ParseHeader b = Ok (message_header m) ∧ message_check m = Ok tt ∧
  newMessageFor (h_Class (message_header m)) (h_Type (message_header m)) =
    match m with Typed k _ => Some k | GenericMessage _ => None end ∧
  ∃ ps, ParseMultiParams (h_Payload (message_header m)) = Ok ps ∧
        message_params m ≡ₚ ps ∧ Forall (accepted validateValue 0) ps.
Proof.
  intros H.
  assert (∃ h, ParseHeader b = Ok h) as [h Hh].
  { unfold Parse in H. destruct (_ <? _); [done|].
    apply bind_Ok in H as (c & _ & H). apply bind_Ok in H as (t & _ & H).
    destruct (newMessageFor c t).
    - rewrite UnmarshalBinary_eq in H. apply bind_Ok in H as (m' & Hm & _).
      apply Unmarshal_inv in Hm as (Hm & _). eauto.
    - apply bind_Ok in H as (g & Hg & _). apply bind_Ok in Hg as (h & Hh & _). eauto. }
  destruct (ParseHeader_Ok _ _ Hh) as (Hty & Hu & Hl & rest & ->).
  rewrite Parse_header in H by done.
  destruct (newMessageFor _ _) as [k|] eqn:Hk.
  - apply bind_Ok in H as (m' & Hm & [= <-]).
    apply Unmarshal_inv in Hm as (Hp & Hw & Hv & Hps). cbn.
    rewrite Hh in Hp. injection Hp as ->. by split_and!.
  - apply bind_Ok in H as (g & Hg & [= <-]). unfold Generic.UnmarshalBinary in Hg.
    rewrite Hh in Hg. cbn [mbind result_bind] in Hg.
    apply bind_Ok in Hg as (ps & Hps & [= <-]). apply map_err_Ok in Hps.
    pose proof (parseMulti_accepted _ _ _ _ Hps) as Ha.
    cbn. split_and!; try done.
    + eapply Forall_impl; [exact Ha|]. intros p Hp. apply Hp.
    + by exists ps.
Qed.

Lemma Parse_encoded m :
  well_formed_message m → sendable m →
  Parse (Header_wire (message_header (encoded m))) = Ok (encoded m).
Proof.
  intros Hw (Hv & He & Hl). rewrite <-(app_nil_r (Header_wire _)).
  destruct m as [g|k m].
  - destruct Hw as ([H1 H2 H3 H4] & Hn & Ht). cbn in He, Hl.
    cbn [encoded message_header Generic.header].
    assert (Hty : header_typed (generic_header g)) by done.
    rewrite (Parse_header _ _ Hty).
    change (newMessageFor (h_Class (generic_header g)) (h_Type (generic_header g))) with
      (newMessageFor (h_Class (Generic.header g)) (h_Type (Generic.header g))).
    rewrite Hn. unfold Generic.UnmarshalBinary. rewrite app_nil_r.
    unfold Generic.MarshalLen in Hl. rewrite paramsMarshalLen_wire in Hl.
    pose proof (len_nonneg (params_wire (Some <$> Generic.Params g))) as Hnn.
    rewrite ParseHeader_wire; [|done|unfold is_u32; cbn; lia|done].
    cbn [mbind result_bind generic_header with_Length with_Payload h_Payload].
    assert (ParseMultiParams (params_wire (Some <$> Generic.Params g)) =
            Ok (SetLength <$> Generic.Params g)) as ->.
    { rewrite params_wire_params_of, params_of_Some.
      apply parseMulti_wire. eapply Forall_impl; [exact He|]. intros p Hp.
      split_and!; [apply Hp|apply Hp|by apply encodable_accepted]. }
    done.
  - cbn [encoded message_header]. rewrite getHeader_rebuild, app_nil_r.
    pose proof Hw as [W1 W2 W3 W4 W5 W6 _].
    assert (Hty : header_typed (encoded_header m)).
    { constructor; cbn; congruence. }
    rewrite <-(app_nil_r (Header_wire _)), (Parse_header _ _ Hty), app_nil_r.
    change (h_Class (encoded_header m)) with (h_Class (getHeader m)).
    change (h_Type (encoded_header m)) with (h_Type (getHeader m)).
    rewrite W3, W4, msgClass_of, msgType_of, newMessageFor_kind.
    rewrite Unmarshal_wire; [done|done|done| |done].
    by apply Forall_opt_encodable.
Qed.

(** ** The parameters RFC 4666 requires, and allows once *)

Definition mandatory (k : kind) : list Z :=
  match k with
  | KData => [Params.ProtocolData]
  | KDestinationUnavailable | KDestinationAvailable | KDestinationStateAudit
  | KDestinationRestricted | KSignallingCongestion => [Params.AffectedPointCode]
  | KDestinationUserPartUnavailable => [Params.AffectedPointCode; Params.UserCause]
  | KRegistrationRequest => [Params.RoutingKey]
  | KRegistrationResponse => [Params.RegistrationResult]
  | KDeregistrationRequest => [Params.RoutingContext]
  | KDeregistrationResponse => [Params.DeregistrationResult]
  | KError => [Params.ErrorCode]
  | KNotify => [Params.Status]
  | _ => []
  end.

Definition unique (k : kind) : list Z :=
  match k with
  | KData => Data.data_tags
  | KDestinationUnavailable | KDestinationAvailable | KDestinationStateAudit
  | KDestinationRestricted =>
      [Params.NetworkAppearance; Params.RoutingContext; Params.AffectedPointCode;
       Params.InfoString]
  | KSignallingCongestion =>
      [Params.NetworkAppearance; Params.RoutingContext; Params.AffectedPointCode;
       Params.ConcernedDestination; Params.CongestionIndications; Params.InfoString]
  | KDestinationUserPartUnavailable =>
      [Params.NetworkAppearance; Params.RoutingContext; Params.AffectedPointCode;
       Params.UserCause; Params.InfoString]
  | KAspUp | KAspUpAck => [Params.AspIdentifier; Params.InfoString]
  | KAspDown | KAspDownAck => [Params.InfoString]
  | KHeartbeat | KHeartbeatAck => [Params.HeartbeatData]
  | KAspActive | KAspActiveAck =>
      [Params.TrafficModeType; Params.RoutingContext; Params.InfoString]
  | KAspInactive | KAspInactiveAck => [Params.RoutingContext; Params.InfoString]
  | KRegistrationRequest | KRegistrationResponse | KDeregistrationResponse => []
  | KDeregistrationRequest => [Params.RoutingContext]
  | KError =>
      [Params.ErrorCode; Params.RoutingContext; Params.NetworkAppearance;
       Params.AffectedPointCode; Params.DiagnosticInformation]
  | KNotify =>
      [Params.Status; Params.AspIdentifier; Params.RoutingContext; Params.InfoString]
  end.

(** How many parameters of a list have a tag. *)
Definition count_tag (t : Z) (ps : list Param) : nat :=
  length (filter (λ p, Tag p = t) ps).

#[export] Instance count_tag_perm t : Proper ((≡ₚ) ==> (=)) (count_tag t).
Proof. intros l k H. unfold count_tag. by rewrite H. Qed.

Lemma count_tag_app t l k : count_tag t (l ++ k) = (count_tag t l + count_tag t k)%nat.
Proof. unfold count_tag. by rewrite filter_app, length_app. Qed.

Lemma count_tag_cons t p l :
  count_tag t (p :: l) = ((if decide (Tag p = t) then 1 else 0) + count_tag t l)%nat.
Proof. unfold count_tag. rewrite filter_cons. by case_decide. Qed.

Lemma count_tag_0 t l : Forall (λ p, Tag p ≠ t) l → count_tag t l = 0%nat.
Proof.
  induction 1 as [|p l Hp _ IH]; [done|]. rewrite count_tag_cons, decide_False by done.
  by rewrite IH.
Qed.

Lemma count_tag_pos t l : (1 ≤ count_tag t l)%nat ↔ t ∈ Tag <$> l.
Proof.
  induction l as [|p l IH]; cbn [fmap list_fmap].
  { split; [cbn; lia|by intros ?%elem_of_nil]. }
  rewrite count_tag_cons, elem_of_cons, <-IH.
  destruct (decide (Tag p = t)) as [<-|]; cbn [Nat.add].
  - split; [by left|lia].
  - split; [by right|intros [->|?]; [done|lia]].
Qed.

Lemma count_named_0 tags named t :
  Forall2 field_ok tags named → t ∉ tags → count_tag t (params_of named) = 0%nat.
Proof.
  induction 1 as [|t' o tags named Ho _ IH]; intros Ht; [done|].
  rewrite not_elem_of_cons in Ht. destruct Ht as [Ht Hts].
  destruct o as [p|]; [|by apply IH].
  change (params_of (Some p :: named)) with (p :: params_of named).
  rewrite count_tag_cons, IH, (Ho p eq_refl) by done.
  by rewrite decide_False by congruence.
Qed.

Lemma count_named_1 tags named t :
  Forall2 field_ok tags named → NoDup tags → (count_tag t (params_of named) ≤ 1)%nat.
Proof.
  intros H. induction H as [|t' o tags named Ho H IH]; intros Hn; [unfold params_of; cbn; lia|].
  apply NoDup_cons in Hn as [Hn Hns].
  destruct o as [p|]; [|by apply IH].
  change (params_of (Some p :: named)) with (p :: params_of named).
  rewrite count_tag_cons. case_decide as Hd; [|by apply IH].
  rewrite (Ho p eq_refl) in Hd. subst t'. by rewrite (count_named_0 _ _ _ H Hn).
Qed.

Lemma count_others_0 tags others t :
  Forall (other_ok tags) others → t ∈ tags → count_tag t (params_of others) = 0%nat.
Proof.
  intros H Ht. induction H as [|o others (p & -> & _ & Hp) _ IH]; [done|].
  change (params_of (Some p :: others)) with (p :: params_of others).
  rewrite count_tag_cons, IH. rewrite Forall_forall in Hp. specialize (Hp t Ht). to_prop.
  by rewrite decide_False.
Qed.

Lemma count_fields tags named others t :
  NoDup tags → Forall2 field_ok tags named → Forall (other_ok tags) others → t ∈ tags →
  (count_tag t (params_of (named ++ others)) ≤ 1)%nat.
Proof.
  intros Hn Hf Ho Ht. rewrite params_of_app, count_tag_app, (count_others_0 tags others) by done.
  rewrite Nat.add_0_r. by eapply count_named_1.
Qed.

Lemma count_extensions_0 others t :
  Forall extension_ok others → IsKnownM3UAParameterTag t = true →
  count_tag t (params_of others) = 0%nat.
Proof.
  intros H Ht. induction H as [|o others (p & -> & _ & Hp) _ IH]; [done|].
  change (params_of (Some p :: others)) with (p :: params_of others).
  rewrite count_tag_cons, IH. rewrite decide_False by congruence. done.
Qed.

(** The named fields of a message hold each tag at most once. *)
Ltac fields_tac :=
  [> by apply (bool_decide_unpack _); vm_compute
  | repeat (apply Forall2_cons_2; [done|]); by apply Forall2_nil_2
  | done ].

Lemma unique_tags k (m : type_of k) t :
  fields_ok m → t ∈ unique k → (count_tag t (params_of (parameters m)) ≤ 1)%nat.
Proof.
  intros Hf Ht.
  destruct k; try (by apply elem_of_nil in Ht); destruct m; cbn in Hf |- *;
    destruct_and? Hf; first
    [ refine (count_fields _ [_] _ t _ _ _ Ht); fields_tac
    | refine (count_fields _ [_;_] _ t _ _ _ Ht); fields_tac
    | refine (count_fields _ [_;_;_] _ t _ _ _ Ht); fields_tac
    | refine (count_fields _ [_;_;_;_] _ t _ _ _ Ht); fields_tac
    | refine (count_fields _ [_;_;_;_;_] _ t _ _ _ Ht); fields_tac
    | refine (count_fields _ [_;_;_;_;_;_] _ t _ _ _ Ht); fields_tac
    | apply list_elem_of_singleton in Ht as ->;
      unfold DeregistrationRequest.parameters; cbn;
      match goal with |- context [?rc :: ?os] =>
        change (rc :: os) with ([rc] ++ os);
        rewrite params_of_app, count_tag_app, (count_extensions_0 os) by done
      end; rewrite Nat.add_0_r;
      apply (count_named_1 [Params.RoutingContext]);
      [ apply Forall2_cons_2; [done|]; by apply Forall2_nil_2 | apply NoDup_singleton ] ].
Qed.

Lemma required_tag o t l :
  field_ok t o → requireParameter o = Ok tt → o ∈ l → t ∈ Tag <$> params_of l.
Proof.
  intros Hf Hr Ho. destruct o as [p|]; [|done].
  apply list_elem_of_fmap. exists p. split; [by rewrite (Hf p eq_refl)|].
  apply list_elem_of_omap. by exists (Some p).
Qed.

Lemma repeated_tag keys others t :
  validateRepeatedRKMParameter keys t = Ok tt → Forall (repeated_ok t) keys →
  t ∈ Tag <$> params_of (keys ++ others).
Proof.
  intros Hv Hk. destruct keys as [|o keys]; [done|].
  apply Forall_cons in Hk as [(p & -> & Hp) _].
  change (params_of ((Some p :: keys) ++ others)) with (p :: params_of (keys ++ others)).
  rewrite fmap_cons, Hp. by left.
Qed.

(** A message that passes the checks of its type has the mandatory ones. *)
Lemma mandatory_tags k (m : type_of k) t :
  fields_ok m → validate m = Ok tt → t ∈ mandatory k →
  t ∈ Tag <$> params_of (parameters m).
Proof.
  intros Hf Hv Ht.
  destruct k; try (by apply elem_of_nil in Ht); destruct m;
    unfold validate, Message_of, Data.Data_Message, Data.validateParameters,
      DestinationUnavailable.DestinationUnavailable_Message,
      DestinationAvailable.DestinationAvailable_Message,
      DestinationStateAudit.DestinationStateAudit_Message,
      DestinationRestricted.DestinationRestricted_Message,
      SignallingCongestion.SignallingCongestion_Message,
      DestinationUserPartUnavailable.DestinationUserPartUnavailable_Message,
      RegistrationRequest.RegistrationRequest_Message,
      RegistrationResponse.RegistrationResponse_Message,
      DeregistrationRequest.DeregistrationRequest_Message,
      DeregistrationResponse.DeregistrationResponse_Message,
      Error.Error_Message, Notify.Notify_Message,
      DestinationUnavailable.requireParameters, DestinationAvailable.requireParameters,
      DestinationStateAudit.requireParameters, DestinationRestricted.requireParameters,
      SignallingCongestion.requireParameters,
      DestinationUserPartUnavailable.requireParameters,
      RegistrationRequest.validate, RegistrationResponse.validate,
      DeregistrationRequest.validate, DeregistrationResponse.validate,
      Error.requireParameters, Notify.requireParameters in Hv;
    cbn in Hf |- *; destruct_and? Hf;
    repeat (apply bind_Ok in Hv as ([] & ? & Hv));
    cbn [mandatory] in Ht; rewrite ?elem_of_cons in Ht; destruct_or? Ht;
    try (by apply elem_of_nil in Ht); subst t;
    first [ by apply repeated_tag
          | eapply required_tag; [eassumption|done|]; cbn; set_solver ].
Qed.

(** ** Theorems *)

Lemma encoded_params m : message_params (encoded m) = SetLength <$> message_params m.
Proof.
  destruct m as [g|k m]; [done|]. cbn. rewrite parameters_rebuild. symmetry.
  apply params_of_set_length.
Qed.

Lemma accepted_SetLength p : accepted validateValue 0 p → SetLength p = p.
Proof.
  intros Hp. apply accepted_encodable in Hp as [[_ Hl _ _] HL].
  rewrite SetLength_encodable, <-HL by done. by destruct p.
Qed.

Lemma len_wires_perm ps qs :
  ps ≡ₚ qs → len (concat (wire <$> ps)) = len (concat (wire <$> qs)).
Proof.
  induction 1; cbn [fmap list_fmap concat]; rewrite ?len_app; lia.
Qed.

(** What is decoded can be sent again, when the padding the decoder lets the
    last parameter omit still fits the length field. *)
Lemma Parse_sendable b m :
  Parse b = Ok m → len b ≤ 2 ^ 32 - 4 → sendable m.
Proof.
  intros H Hb. apply Parse_Ok in H as (Hw & Hh & Hv & _ & ps & Hps & Hp & Ha).
  split; [done|]. split.
  - rewrite Hp. eapply Forall_impl; [exact Ha|]. intros p Hpa.
    by apply accepted_encodable in Hpa as [? _].
  - rewrite message_MarshalLen_eq, params_wire_params_of, params_of_Some.
    apply parseMulti_size in Hps. rewrite (len_wires_perm _ _ Hp).
    destruct (ParseHeader_Ok _ _ Hh) as (_ & _ & Hl & rest & ->).
    rewrite len_app, len_Header_wire in Hb. unfold Header_MarshalLen in Hb.
    pose proof (len_nonneg rest). lia.
Qed.

(** C4: Encoding and decoding are inverse on well formed messages: those whose
    header names their type and whose parameters stand in the fields of their tags,
    none of the named ones among the others. What [MarshalBinary] encodes of such a
    message, of any type, [Parse] decodes to that message, of the same type and with
    the same parameters, their lengths set. *)
Theorem Parse_MarshalBinary m m' b :
  well_formed_message m → MarshalBinary m = Ok (m', b) →
  Parse b = Ok m' ∧ message_params m' = SetLength <$> message_params m ∧
  message_Class m' = message_Class m ∧ message_Type m' = message_Type m.
Proof.
  intros Hw H. apply message_MarshalBinary_Ok in H as [Hs [= -> ->]]; [|done].
  split; [by apply Parse_encoded|]. split; [apply encoded_params|]. by destruct m.
Qed.

(** Decoding, encoding and decoding again is stable.  A message [Parse]
    returned can be encoded, the octets decode to it again, and no parameter
    is lost or changed on the way. *)
Theorem Parse_reencode b m :
  Parse b = Ok m → len b ≤ 2 ^ 32 - 4 →
  ∃ m' b', MarshalBinary m = Ok (m', b') ∧ Parse b' = Ok m' ∧
           message_params m' = message_params m.
Proof.
  intros H Hb. pose proof (Parse_sendable _ _ H Hb) as Hs.
  pose proof (Parse_Ok _ _ H) as (Hw & _ & _ & _ & ps & _ & Hp & Ha).
  exists (encoded m), (Header_wire (message_header (encoded m))).
  split; [by apply message_MarshalBinary_Ok|]. split; [by apply Parse_encoded|].
  rewrite encoded_params. rewrite <-Hp in Ha.
  clear -Ha. induction Ha as [|p l Hp _ IH]; [done|].
  rewrite fmap_cons. by rewrite accepted_SetLength, IH.
Qed.

(** C28: [Parse] returns on any octets whatever: no index is out of range, no
    slice bound is wrong, and every loop and every level of nesting ends
    within its fuel. *)
Theorem Parse_safe b : safe (Parse b).
Proof. apply safe_Parse_message. Qed.

(** [Parse] never misreports the class or the type of a message: the
    message it returns is of the type the third and fourth octets name, and a
    [Generic] message exactly where the package has no type for them. *)
Theorem Parse_class_type b m :
  Parse b = Ok m →
  index (E:=msg_error) 2 b = Ok (message_Class m) ∧
  index (E:=msg_error) 3 b = Ok (message_Type m) ∧
  newMessageFor (message_Class m) (message_Type m) =
    match m with Typed k _ => Some k | GenericMessage _ => None end.
Proof.
  intros H. apply Parse_Ok in H as (Hw & Hh & _ & Hk & _).
  destruct (ParseHeader_Ok _ _ Hh) as (Hty & _ & _ & rest & ->).
  rewrite (index_class _ _ Hty), (index_type _ _ Hty).
  destruct m as [g|k m]; [done|]. cbn in *.
  pose proof Hw as [_ _ Hc Ht _ _ _]. rewrite msgClass_of in Hc. rewrite msgType_of in Ht.
  rewrite Hc, Ht. split_and!; [done..|apply newMessageFor_kind].
Qed.

(** The parameters of a message.  A message [Parse] returns holds exactly
    the parameters of the payload, each of the mandatory ones of its type is
    there, and none of its named fields was sent twice. *)
Theorem Parse_parameters b k m :
  Parse b = Ok (Typed k m) →
  ∃ ps, ParseMultiParams (h_Payload (getHeader m)) = Ok ps ∧
        params_of (parameters m) ≡ₚ ps ∧
        (∀ t, t ∈ mandatory k → t ∈ Tag <$> ps) ∧
        (∀ t, t ∈ unique k → (count_tag t ps ≤ 1)%nat).
Proof.
  intros H. apply Parse_Ok in H as (Hw & _ & Hv & _ & ps & Hps & Hp & _).
  exists ps. split; [done|]. split; [done|]. cbn in Hw, Hp, Hv.
  split; intros t Ht; rewrite <-Hp.
  - by eapply mandatory_tags, Ht; [apply wf_fields|].
  - by eapply unique_tags, Ht; apply wf_fields.
Qed.

(** When encoding succeeds.  A well-formed message is encoded exactly when
    the mandatory parameters of its type are there, every parameter passes the
    length and value rules of its tag, and the length fits its field; the
    octets are the header with the length of the message, then the parameters
    in the order of the fields. *)
Theorem MarshalBinary_succeeds m r :
  well_formed_message m →
  MarshalBinary m = Ok r ↔
  sendable m ∧ r = (encoded m, Header_wire (message_header (encoded m))).
Proof. apply message_MarshalBinary_Ok. Qed.

(** ** The theorems on concrete messages *)

Module Concrete.

Definition id : Param := newUint32ValParam Params.AspIdentifier 5.
Definition info : Param := newVariableLenValParam Params.InfoString [Byte.x61; Byte.x62].

(** An ASP Up with an ASP Identifier and an INFO String. *)
Definition asp_up : M3UA := Typed KAspUp (AspUp.NewAspUp (Some id) (Some info)).
Definition asp_up_octets : bytes :=
  match MarshalBinary asp_up with Ok (_, b) => b | _ => [] end.
Definition asp_up_decoded : type_of KAspUp :=
  match UnmarshalBinary KAspUp asp_up_octets with
  | Ok m => m
  | _ => AspUp.NewAspUp None None
  end.

Lemma asp_up_well_formed : well_formed_message asp_up.
Proof.
  constructor; try done; try (split; vm_compute; congruence).
  split_and!; [| |constructor].
  - by intros p [= <-].
  - by intros p [= <-].
Defined.

Lemma asp_up_marshals :
  MarshalBinary asp_up = Ok (Typed KAspUp asp_up_decoded, asp_up_octets).
Proof. vm_compute. reflexivity. Defined.

Lemma asp_up_parses : Parse asp_up_octets = Ok (Typed KAspUp asp_up_decoded).
Proof. vm_compute. reflexivity. Defined.

Lemma Parse_MarshalBinary_witness :
  Parse asp_up_octets = Ok (Typed KAspUp asp_up_decoded) ∧
  message_params (Typed KAspUp asp_up_decoded) = SetLength <$> message_params asp_up ∧
  message_Class (Typed KAspUp asp_up_decoded) = message_Class asp_up ∧
  message_Type (Typed KAspUp asp_up_decoded) = message_Type asp_up.
Proof. exact (Parse_MarshalBinary _ _ _ asp_up_well_formed asp_up_marshals). Defined.

Lemma Parse_reencode_witness :
  ∃ m' b', MarshalBinary (Typed KAspUp asp_up_decoded) = Ok (m', b') ∧ Parse b' = Ok m' ∧
           message_params m' = message_params (Typed KAspUp asp_up_decoded).
Proof.
  apply (Parse_reencode asp_up_octets _ asp_up_parses). vm_compute. congruence.
Defined.

Lemma Parse_class_type_witness :
  index (E:=msg_error) 2 asp_up_octets = Ok (message_Class (Typed KAspUp asp_up_decoded)) ∧
  index (E:=msg_error) 3 asp_up_octets = Ok (message_Type (Typed KAspUp asp_up_decoded)) ∧
  newMessageFor (message_Class (Typed KAspUp asp_up_decoded))
    (message_Type (Typed KAspUp asp_up_decoded)) = Some KAspUp.
Proof. exact (Parse_class_type _ _ asp_up_parses). Defined.

Lemma Parse_parameters_witness :
  ∃ ps, ParseMultiParams (h_Payload (getHeader asp_up_decoded)) = Ok ps ∧
        params_of (parameters asp_up_decoded) ≡ₚ ps ∧
        (∀ t, t ∈ mandatory KAspUp → t ∈ Tag <$> ps) ∧
        (∀ t, t ∈ unique KAspUp → (count_tag t ps ≤ 1)%nat).
Proof. exact (Parse_parameters _ KAspUp _ asp_up_parses). Defined.

Lemma MarshalBinary_succeeds_witness :
  MarshalBinary asp_up = Ok (Typed KAspUp asp_up_decoded, asp_up_octets) ↔
  sendable asp_up ∧ (Typed KAspUp asp_up_decoded, asp_up_octets) =
    (encoded asp_up, Header_wire (message_header (encoded asp_up))).
Proof. exact (MarshalBinary_succeeds _ _ asp_up_well_formed). Defined.

End Concrete.
