(* ===== verification/Compat.v ===== *)
(** * Receive-side compatibility (package messages)

    compatibility.go: [ParseWithOptions], the classification of the one
    violation it knows (an optional INFO String that is not UTF-8), and the
    rewritten messages the decisions lead to.  The description text of a
    violation is not modelled; its cause is the parameter error. *)

From S2P Require Import Prelude Params ParamsFacts Nested Header Codec.
From S2P Require Import MsgData MsgSsnm MsgAspsm MsgAsptm MsgRkm MsgMgmt Message.
From S2P Require Import MessageTheory.

Inductive ProtocolDecision : Set :=
| ProtocolReject
| ProtocolAccept
| ProtocolDropParameter
| ProtocolUseLocalDefault.

Inductive ProtocolViolationKind : Set := ViolationInvalidOptionalInfoString.

Record ProtocolViolation : Set := mkViolation {
  v_Kind : ProtocolViolationKind;
  v_ErrorCode : Z;
  v_MessageClass : Z;
  v_MessageType : Z;
  v_ParamTag : Z;
  v_RawMessage : bytes;
  v_RawParameter : bytes;
  v_Cause : Params.error;
}.

(** A tolerator, or nil. *)
Definition ParseOptions : Type := option (ProtocolViolation → ProtocolDecision).

Record tolerableParameterFault : Set := mkFault {
  f_offset : Z;
  f_consumedSize : Z;
  f_value : bytes;
  f_violation : ProtocolViolation;
}.

(** ** The INFO String field of a message, by its name *)

Definition messageHasInfoString (k : kind) : bool :=
  match k with
  | KData | KHeartbeat | KHeartbeatAck | KRegistrationRequest | KRegistrationResponse | KDeregistrationRequest
  | KDeregistrationResponse | KError => false
  | _ => true
  end.

(** The field, if the type has it; and the message with the field set. *)
Definition field_InfoString (k : kind) : type_of k → option (option Param) :=
  match k with
  | KDestinationUnavailable => λ m, Some (DestinationUnavailable.InfoString m)
  | KDestinationAvailable => λ m, Some (DestinationAvailable.InfoString m)
  | KDestinationStateAudit => λ m, Some (DestinationStateAudit.InfoString m)
  | KSignallingCongestion => λ m, Some (SignallingCongestion.InfoString m)
  | KDestinationUserPartUnavailable => λ m, Some (DestinationUserPartUnavailable.InfoString m)
  | KDestinationRestricted => λ m, Some (DestinationRestricted.InfoString m)
  | KAspUp => λ m, Some (AspUp.InfoString m)
  | KAspDown => λ m, Some (AspDown.InfoString m)
  | KAspUpAck => λ m, Some (AspUpAck.InfoString m)
  | KAspDownAck => λ m, Some (AspDownAck.InfoString m)
  | KAspActive => λ m, Some (AspActive.InfoString m)
  | KAspActiveAck => λ m, Some (AspActiveAck.InfoString m)
  | KAspInactive => λ m, Some (AspInactive.InfoString m)
  | KAspInactiveAck => λ m, Some (AspInactiveAck.InfoString m)
  | KNotify => λ m, Some (Notify.InfoString m)
  | _ => λ _, None
  end.

Definition set_InfoString (k : kind) : type_of k → Param → type_of k :=
  match k with
  | KDestinationUnavailable => λ m p, DestinationUnavailable.mk (DestinationUnavailable.header m) (DestinationUnavailable.NetworkAppearance m) (DestinationUnavailable.RoutingContext m) (DestinationUnavailable.AffectedPointCode m) (Some p) (DestinationUnavailable.Others m)
  | KDestinationAvailable => λ m p, DestinationAvailable.mk (DestinationAvailable.header m) (DestinationAvailable.NetworkAppearance m) (DestinationAvailable.RoutingContext m) (DestinationAvailable.AffectedPointCode m) (Some p) (DestinationAvailable.Others m)
  | KDestinationStateAudit => λ m p, DestinationStateAudit.mk (DestinationStateAudit.header m) (DestinationStateAudit.NetworkAppearance m) (DestinationStateAudit.RoutingContext m) (DestinationStateAudit.AffectedPointCode m) (Some p) (DestinationStateAudit.Others m)
  | KSignallingCongestion => λ m p, SignallingCongestion.mk (SignallingCongestion.header m) (SignallingCongestion.NetworkAppearance m) (SignallingCongestion.RoutingContext m) (SignallingCongestion.AffectedPointCode m) (SignallingCongestion.ConcernedDestination m) (SignallingCongestion.CongestionIndications m) (Some p) (SignallingCongestion.Others m)
  | KDestinationUserPartUnavailable => λ m p, DestinationUserPartUnavailable.mk (DestinationUserPartUnavailable.header m) (DestinationUserPartUnavailable.NetworkAppearance m) (DestinationUserPartUnavailable.RoutingContext m) (DestinationUserPartUnavailable.AffectedPointCode m) (DestinationUserPartUnavailable.UserCause m) (Some p) (DestinationUserPartUnavailable.Others m)
  | KDestinationRestricted => λ m p, DestinationRestricted.mk (DestinationRestricted.header m) (DestinationRestricted.NetworkAppearance m) (DestinationRestricted.RoutingContext m) (DestinationRestricted.AffectedPointCode m) (Some p) (DestinationRestricted.Others m)
  | KAspUp => λ m p, AspUp.mk (AspUp.header m) (AspUp.AspIdentifier m) (Some p) (AspUp.Others m)
  | KAspDown => λ m p, AspDown.mk (AspDown.header m) (Some p) (AspDown.Others m)
  | KAspUpAck => λ m p, AspUpAck.mk (AspUpAck.header m) (AspUpAck.AspIdentifier m) (Some p) (AspUpAck.Others m)
  | KAspDownAck => λ m p, AspDownAck.mk (AspDownAck.header m) (Some p) (AspDownAck.Others m)
  | KAspActive => λ m p, AspActive.mk (AspActive.header m) (AspActive.TrafficModeType m) (AspActive.RoutingContext m) (Some p) (AspActive.Others m)
  | KAspActiveAck => λ m p, AspActiveAck.mk (AspActiveAck.header m) (AspActiveAck.TrafficModeType m) (AspActiveAck.RoutingContext m) (Some p) (AspActiveAck.Others m)
  | KAspInactive => λ m p, AspInactive.mk (AspInactive.header m) (AspInactive.RoutingContext m) (Some p) (AspInactive.Others m)
  | KAspInactiveAck => λ m p, AspInactiveAck.mk (AspInactiveAck.header m) (AspInactiveAck.RoutingContext m) (Some p) (AspInactiveAck.Others m)
  | KNotify => λ m p, Notify.mk (Notify.header m) (Notify.Status m) (Notify.AspIdentifier m) (Notify.RoutingContext m) (Some p) (Notify.Others m)
  | _ => λ m _, m
  end.

(** ** Finding the fault *)

Definition consumedParameterSize (remainingLength parameterSize : Z) : Z :=
  if remainingLength =? parameterSize then parameterSize
  else parameterSize + (4 - parameterSize mod 4) mod 4.

Definition classifyInvalidOptionalInfoString (parameter raw : bytes)
    (class msgType tag : Z) (allowInfoString : bool) (offset consumedSize : Z)
    (cause : Params.error) : result msg_error (option tolerableParameterFault) :=
  if negb allowInfoString || negb (tag =? InfoString) ||
     negb (bool_decide (cause = ErrInvalidValue))
  then Err (ParamsError cause) else
  value ← slice_from 4 parameter;
  if (255 <? len value) || utf8_Valid value then Err (ParamsError cause) else
  Ok (Some (mkFault offset consumedSize value
    (mkViolation ViolationInvalidOptionalInfoString ErrInvalidParameterValue
       class msgType tag raw parameter cause))).

(** The loop of [findTolerableParameterFault]; every round advances [offset]
    by at least four. *)
Fixpoint findFaultLoop (fuel : nat) (payload raw : bytes) (class msgType : Z)
    (allowInfoString : bool) (offset : Z)
    : result msg_error (option tolerableParameterFault) :=
  if negb (offset <? len payload) then Ok None else
  match fuel with
  | O => OutOfFuel
  | S fuel =>
      remaining ← slice_from offset payload;
      if len remaining <? 4 then Err (ParamsError Params.ErrTooShortToParse) else
      hd ← slice 0 2 remaining;
      tag ← Uint16 hd;
      hd ← slice 2 4 remaining;
      parameterSize ← Uint16 hd;
      if (parameterSize <? 4) || (len remaining <? parameterSize)
      then Err (ParamsError ErrInvalidLength) else
      let consumed := consumedParameterSize (len remaining) parameterSize in
      if len remaining <? consumed then Err (ParamsError ErrInvalidLength) else
      parameter ← slice 0 parameterSize remaining;
      match Params.Parse remaining with
      | Err cause =>
          classifyInvalidOptionalInfoString parameter raw class msgType tag
            allowInfoString offset consumed cause
      | Ok _ =>
          findFaultLoop fuel payload raw class msgType allowInfoString (offset + consumed)
      | Panic => Panic
      | OutOfFuel => OutOfFuel
      end
  end.

Definition findTolerableParameterFault (payload raw : bytes) (class msgType : Z)
    (allowInfoString : bool) : result msg_error (option tolerableParameterFault) :=
  findFaultLoop (length payload) payload raw class msgType allowInfoString 0.

(** ** The rewritten messages *)

(** [copy(wire[valueStart:valueStart+len(f.value)], bytes.Repeat('x', ...))]. *)
Definition acceptWire (f : tolerableParameterFault) (raw : bytes) : result msg_error bytes :=
  let valueStart := 8 + f_offset f + 4 in
  window ← slice valueStart (valueStart + len (f_value f)) raw;
  Ok (take (Z.to_nat valueStart) raw ++ replicate (length window) Byte.x78 ++
      drop (Z.to_nat (valueStart + len (f_value f))) raw).

Definition dropWire (f : tolerableParameterFault) (raw : bytes) (header : Header)
    : result msg_error bytes :=
  let payload := h_Payload header in
  head ← slice 0 (f_offset f) payload;
  rest ← slice_from (f_offset f + f_consumedSize f) payload;
  let outPayload := head ++ rest in
  start ← slice 0 4 raw;
  Ok (start ++ PutUint32 (u32 (8 + len outPayload)) ++ outPayload).

Definition restoreInvalidInfoString (message : M3UA) (value : bytes)
    : result msg_error M3UA :=
  match message with
  | GenericMessage _ => Err ErrInvalidParameter
  | Typed k m =>
      match field_InfoString k m with
      | Some (Some p) =>
          Ok (Typed k (set_InfoString k m (mkParam (Tag p) (u16 (4 + len value)) value)))
      | _ => Err ErrInvalidParameter
      end
  end.

(** [ParseWithOptions] after the strict parse failed with [strictErr]. *)
Definition tolerate (b : bytes) (decide : ProtocolViolation → ProtocolDecision)
    (strictErr : msg_error) : result msg_error M3UA :=
  if len b <? 4 then Err strictErr else
  class ← index 2 b;
  msgType ← index 3 b;
  match newMessageFor class msgType with
  | None => Err strictErr
  | Some k =>
      match parseTypedHeader b class msgType with
      | Err _ => Err strictErr
      | Panic => Panic
      | OutOfFuel => OutOfFuel
      | Ok header =>
          match findTolerableParameterFault (h_Payload header) b (h_Class header)
                  (h_Type header) (messageHasInfoString k) with
          | Err _ | Ok None => Err strictErr
          | Panic => Panic
          | OutOfFuel => OutOfFuel
          | Ok (Some fault) =>
              match decide (f_violation fault) with
              | ProtocolAccept =>
                  wire ← acceptWire fault b;
                  msg ← Parse wire;
                  restoreInvalidInfoString msg (f_value fault)
              | ProtocolDropParameter =>
                  wire ← dropWire fault b header;
                  Parse wire
              | _ => Err (ParamsError (v_Cause (f_violation fault)))
              end
          end
      end
  end.

Definition ParseWithOptions (b : bytes) (options : ParseOptions) : result msg_error M3UA :=
  match options with
  | None => Parse b
  | Some decide =>
      match Parse b with
      | Err strictErr => tolerate b decide strictErr
      | r => r
      end
  end.

(** ** What a fault is *)

(** The parameter at [f_offset] of the payload, invalid for its value only. *)
Record fault_ok (payload : bytes) (f : tolerableParameterFault) : Prop := {
  fo_offset : 0 ≤ f_offset f;
  fo_consumed : 0 ≤ f_consumedSize f ∧ f_offset f + f_consumedSize f ≤ len payload;
  fo_octets : ∃ p q, payload = p ++ f_value f ++ q ∧ len p = f_offset f + 4;
  fo_invalid : utf8_Valid (f_value f) = false;
  fo_length : len (f_value f) ≤ 255;
  fo_cause : v_Cause (f_violation f) = ErrInvalidValue;
}.

Lemma take_drop_len k (b : bytes) :
  0 ≤ k ≤ len b → ∃ p q, b = p ++ q ∧ len p = k.
Proof.
  intros Hk. exists (take (Z.to_nat k) b), (drop (Z.to_nat k) b).
  rewrite take_drop. split; [done|]. unfold len in *. rewrite length_take. lia.
Qed.

(** One round, with the header octets split off what is left. *)
Lemma findFault_round fuel pre tag pl r raw c t allow :
  is_u16 tag → is_u16 pl →
  let rem := PutUint16 tag ++ PutUint16 pl ++ r in
  findFaultLoop (S fuel) (pre ++ rem) raw c t allow (len pre) =
  if (pl <? 4) || (len rem <? pl) then Err (ParamsError ErrInvalidLength) else
  let consumed := consumedParameterSize (len rem) pl in
  if len rem <? consumed then Err (ParamsError ErrInvalidLength) else
  match Params.Parse rem with
  | Err cause =>
      classifyInvalidOptionalInfoString (take (Z.to_nat pl) rem) raw c t tag allow
        (len pre) consumed cause
  | Ok _ => findFaultLoop fuel (pre ++ rem) raw c t allow (len pre + consumed)
  | Panic => Panic
  | OutOfFuel => OutOfFuel
  end.
Proof.
  intros Ht Hp rem. pose proof (len_nonneg r) as Hr.
  assert (Hl : len rem = 4 + len r).
  { unfold rem. rewrite !len_app, !len_PutUint16. lia. }
  cbn [findFaultLoop]. rewrite len_app, (proj2 (Z.ltb_lt _ _)) by lia. cbn [negb].
  rewrite slice_from_app. cbn [mbind result_bind].
  rewrite (proj2 (Z.ltb_ge (len rem) 4)) by lia.
  assert (slice (E:=msg_error) 0 2 rem = Ok (PutUint16 tag)) as ->
    by apply (slice_prefix (PutUint16 tag)).
  cbn [mbind result_bind]. rewrite Uint16_Put by done. cbn [mbind result_bind].
  assert (slice (E:=msg_error) 2 4 rem = Ok (PutUint16 pl)) as ->
    by apply (slice_app (PutUint16 tag) (PutUint16 pl) r).
  cbn [mbind result_bind]. rewrite Uint16_Put by done. cbn [mbind result_bind].
  destruct (_ || _) eqn:Hc; [done|]. to_prop.
  destruct (_ <? _) eqn:Hd; [done|]. to_prop.
  unfold slice. rewrite !(proj2 (Z.leb_le _ _)) by lia. cbn [andb mbind result_bind].
  by rewrite Z.sub_0_r.
Qed.

Lemma findFault_end fuel pre raw c t allow :
  findFaultLoop fuel (pre ++ []) raw c t allow (len pre) = Ok None.
Proof. destruct fuel; cbn; rewrite len_app, len_nil, (proj2 (Z.ltb_ge _ _)) by lia; done. Qed.

Lemma consumed_range n pl :
  pl ≤ n → pl ≤ consumedParameterSize n pl < pl + 4.
Proof.
  intros H. unfold consumedParameterSize. destruct (n =? pl); [lia|].
  pose proof (Z.mod_pos_bound (4 - pl mod 4) 4). lia.
Qed.

Lemma classify_Ok pre parameter rest raw c t tag allow consumed cause f :
  0 ≤ consumed → consumed ≤ len (parameter ++ rest) →
  classifyInvalidOptionalInfoString parameter raw c t tag allow (len pre) consumed cause =
    Ok (Some f) →
  fault_ok (pre ++ parameter ++ rest) f ∧ v_Cause (f_violation f) = cause.
Proof.
  intros H0 Hc. unfold classifyInvalidOptionalInfoString.
  destruct (_ || _ || _) eqn:Ho; [done|]. to_prop. intros Hcl.
  apply bind_Ok in Hcl as (value & Hv & Hcl). destruct (_ || _) eqn:Hx; [done|].
  injection Hcl as <-. to_prop.
  match goal with Hb : bool_decide _ = true |- _ => apply bool_decide_eq_true in Hb end.
  unfold slice_from in Hv. apply slice_Ok in Hv as (_ & _ & Hl & p & q & -> & Hp).
  assert (q = []) as ->.
  { apply len_0_nil. rewrite !len_app in Hl. lia. }
  pose proof (len_nonneg pre).
  split; [|done]. constructor; cbn; try done.
  - rewrite !len_app in *. lia.
  - exists (pre ++ p), rest. rewrite len_app, Hp, app_nil_r, <-!app_assoc. done.
Qed.

Lemma safe_classify parameter raw c t tag allow offset consumed cause :
  4 ≤ len parameter →
  safe (classifyInvalidOptionalInfoString parameter raw c t tag allow offset consumed cause).
Proof.
  intros Hl. unfold classifyInvalidOptionalInfoString.
  destruct (_ || _ || _); [done|].
  apply safe_bind; [unfold slice_from; apply safe_slice; lia|].
  intros v _. by destruct (_ || _).
Qed.

Lemma len_take (k : Z) (b : bytes) : 0 ≤ k ≤ len b → len (take (Z.to_nat k) b) = k.
Proof. intros. unfold len in *. rewrite length_take. lia. Qed.

Lemma safe_findFaultLoop fuel pre rem raw c t allow :
  (length rem ≤ fuel)%nat → safe (findFaultLoop fuel (pre ++ rem) raw c t allow (len pre)).
Proof.
  revert pre rem. induction fuel as [|fuel IH]; intros pre rem Hf;
    (destruct rem as [|b0 rem0]; [by rewrite findFault_end|]); [cbn in Hf; lia|].
  set (rem := b0 :: rem0) in *. assert (Hpos : 0 < len rem) by (unfold rem; rewrite len_cons;
    pose proof (len_nonneg rem0); lia).
  destruct (Z.lt_ge_cases (len rem) 4) as [H4|H4].
  { cbn [findFaultLoop]. rewrite len_app, (proj2 (Z.ltb_lt _ _)) by lia. cbn [negb].
    rewrite slice_from_app. cbn [mbind result_bind].
    by rewrite (proj2 (Z.ltb_lt (len rem) 4)) by lia. }
  destruct (bytes_split4 rem H4) as (tag & pl & r & Ht & Hp & Hrem).
  clearbody rem. subst rem. rewrite findFault_round by done. cbv zeta.
  set (rem := PutUint16 tag ++ PutUint16 pl ++ r) in *.
  destruct (_ || _) eqn:Hc; [done|]. to_prop.
  pose proof (consumed_range (len rem) pl) as Hcr.
  set (consumed := consumedParameterSize _ _) in *.
  destruct (_ <? consumed) eqn:Hd; [done|]. to_prop.
  pose proof (safe_Parse rem) as Hs. destruct (Params.Parse rem) as [p|cause| |]; try done.
  - destruct (take_drop_len consumed rem) as (c1 & rem' & Hc1 & Hlc); [lia|].
    rewrite Hc1, app_assoc. replace (len pre + consumed) with (len (pre ++ c1))
      by (rewrite len_app; lia).
    apply IH. rewrite Hc1, length_app in Hf. unfold len in *. lia.
  - apply safe_classify. rewrite len_take; lia.
Qed.

(** A fault is the first parameter the decoder refuses. *)
Lemma findFaultLoop_Ok fuel pre rem raw c t allow f :
  findFaultLoop fuel (pre ++ rem) raw c t allow (len pre) = Ok (Some f) →
  fault_ok (pre ++ rem) f ∧
  ∀ fuel' prms, (length rem ≤ fuel')%nat →
    parseMultiParamsLoop validateValue fuel' rem 0 prms = Err (v_Cause (f_violation f)).
Proof.
  revert pre rem. induction fuel as [|fuel IH]; intros pre rem H.
  { cbn in H. by destruct (negb _). }
  destruct (Z.lt_ge_cases (len rem) 4) as [H4|H4].
  { cbn [findFaultLoop] in H. destruct (negb _); [done|]. rewrite slice_from_app in H.
    cbn [mbind result_bind] in H. by rewrite (proj2 (Z.ltb_lt (len rem) 4)) in H by lia. }
  destruct (bytes_split4 rem H4) as (tag & pl & r & Ht & Hp & Hrem). revert H.
  rewrite Hrem, findFault_round by done. rewrite <-Hrem. cbv zeta.
  destruct (_ || _) eqn:Hc; [done|]. to_prop.
  pose proof (consumed_range (len rem) pl) as Hcr.
  set (consumed := consumedParameterSize _ _) in *.
  destruct (_ <? consumed) eqn:Hd; [done|]. to_prop.
  assert (Hstep : ∀ fuel' prms, (length rem ≤ fuel')%nat → ∃ fuel'', fuel' = S fuel'' ∧
    parseMultiParamsLoop validateValue fuel' rem 0 prms =
    p ← Params.Parse rem;
    if len rem =? Length p then Ok (prms ++ [p]) else
    if len rem <? Length p + Padding p then Err ErrInvalidLength else
    b' ← slice_from (Length p + Padding p) rem;
    parseMultiParamsLoop validateValue fuel'' b' 0 (prms ++ [p])).
  { intros fuel' prms Hf. destruct fuel' as [|fuel']; [unfold len in *; lia|].
    exists fuel'. split; [done|]. cbn [parseMultiParamsLoop].
    by rewrite (proj2 (Z.eqb_neq _ _)) by lia. }
  destruct (Params.Parse rem) as [p|cause| |] eqn:Hparse; intros Hres; [| |done..].
  - destruct (take_drop_len consumed rem) as (c1 & rem' & Hc1 & Hlc); [lia|].
    assert (Hpr : pre ++ rem = (pre ++ c1) ++ rem') by by rewrite Hc1, app_assoc.
    replace (len pre + consumed) with (len (pre ++ c1)) in Hres by (rewrite len_app; lia).
    rewrite Hpr in Hres |- *. apply IH in Hres as [Hf Hloop]. split; [done|].
    intros fuel' prms Hfuel. destruct (Hstep fuel' prms Hfuel) as (fuel'' & -> & ->).
    cbn [mbind result_bind].
    apply unmarshal_Ok in Hparse as [(A1 & A2 & A3 & _ & _) [r' Hr']].
    assert (Length p = pl) as Hlp.
    { rewrite Hrem in Hr'. apply app_inj_1 in Hr' as [_ Hr']; [|done].
      apply app_inj_1 in Hr' as [Hr' _]; [|done].
      apply (f_equal (Uint16 (E:=error))) in Hr'. rewrite !Uint16_Put in Hr' by done.
      by injection Hr'. }
    rewrite Hlp. destruct (len rem =? pl) eqn:He; to_prop.
    { assert (rem' = []) as ->.
      { apply len_0_nil. rewrite Hc1, len_app in He. pose proof (len_nonneg rem'). lia. }
      specialize (Hloop 0%nat [] (Nat.le_refl 0)). by rewrite parseMulti_nil in Hloop. }
    assert (consumed = pl + Padding p) as Hcp.
    { unfold consumed, consumedParameterSize. rewrite (proj2 (Z.eqb_neq _ _)) by lia.
      unfold Padding. rewrite <-Hlp, A3.
      destruct (len (Data p) mod 4 =? 0) eqn:Hm; to_prop; Z.div_mod_to_equations; lia. }
    rewrite <-Hcp. rewrite (proj2 (Z.ltb_ge _ _)) by lia.
    replace (slice_from (E:=error) consumed rem) with (Ok (E:=error) rem').
    2: { rewrite Hc1, <-Hlc. by rewrite slice_from_app. }
    cbn [mbind result_bind]. apply Hloop. rewrite Hc1, length_app in Hfuel.
    unfold len in *. lia.
  - apply (classify_Ok pre _ (drop (Z.to_nat pl) rem)) in Hres as [Hf Hcause];
      [|lia|by rewrite take_drop].
    rewrite take_drop in Hf. split; [done|]. intros fuel' prms Hfuel.
    destruct (Hstep fuel' prms Hfuel) as (fuel'' & -> & ->). cbn. by rewrite Hcause.
Qed.

Lemma findFault_Ok payload raw c t allow f :
  findTolerableParameterFault payload raw c t allow = Ok (Some f) →
  fault_ok payload f ∧ ParseMultiParams payload = Err (v_Cause (f_violation f)).
Proof.
  intros H. apply (findFaultLoop_Ok (length payload) [] payload) in H as [Hf Hl].
  split; [done|]. by apply Hl.
Qed.

Lemma safe_findFault payload raw c t allow :
  safe (findTolerableParameterFault payload raw c t allow).
Proof. by apply (safe_findFaultLoop (length payload) [] payload). Qed.

Lemma index_u8 {E} i b z : @index E i b = Ok z → is_u8 z.
Proof.
  unfold index. destruct (0 <=? i); [|done].
  destruct (b !! _); [|done]. intros [= <-]. apply is_u8_byte.
Qed.

(** Where a fault is found, the strict decoder fails with its cause. *)
Lemma fault_strict b class msgType k h f :
  index (E:=msg_error) 2 b = Ok class → index (E:=msg_error) 3 b = Ok msgType →
  newMessageFor class msgType = Some k → parseTypedHeader b class msgType = Ok h →
  findTolerableParameterFault (h_Payload h) b (h_Class h) (h_Type h)
    (messageHasInfoString k) = Ok (Some f) →
  fault_ok (h_Payload h) f ∧ Parse b = Err (ParamsError (v_Cause (f_violation f))).
Proof.
  intros Hc Ht Hk Hh Hf. apply findFault_Ok in Hf as [Hf Hps]. split; [done|].
  pose proof (proj1 (newMessageFor_Some _ _ _ (index_u8 _ _ _ Hc) (index_u8 _ _ _ Ht)) Hk)
    as [-> ->].
  unfold Parse. assert (4 ≤ len b) as Hl.
  { pose proof Hh as Hp. apply bind_Ok in Hp as (h' & Hp & _).
    apply ParseHeader_Ok in Hp as (_ & _ & _ & rest & ->).
    rewrite len_app, len_Header_wire. unfold Header_MarshalLen.
    pose proof (len_nonneg (h_Payload h')). pose proof (len_nonneg rest). lia. }
  rewrite (proj2 (Z.ltb_ge _ _)) by lia. rewrite Hc. cbn [mbind result_bind].
  rewrite Ht. cbn [mbind result_bind]. rewrite Hk, UnmarshalBinary_eq.
  unfold Unmarshal, unmarshalMessage. rewrite msgClass_of, msgType_of, Hh.
  cbn [mbind result_bind]. by rewrite Hps.
Qed.

Lemma fault_value_range payload f :
  fault_ok payload f → f_offset f + 4 + len (f_value f) ≤ len payload.
Proof.
  intros [_ _ (p & q & -> & Hp) _ _ _]. rewrite !len_app. pose proof (len_nonneg q). lia.
Qed.

Lemma header_in b h :
  ParseHeader b = Ok h → 8 + len (h_Payload h) ≤ len b.
Proof.
  intros Hp. apply ParseHeader_Ok in Hp as (_ & _ & _ & rest & ->).
  rewrite len_app, len_Header_wire. unfold Header_MarshalLen.
  pose proof (len_nonneg rest). lia.
Qed.

Lemma parseTypedHeader_header b c t h : parseTypedHeader b c t = Ok h → ParseHeader b = Ok h.
Proof.
  intros H. apply bind_Ok in H as (h' & Hp & H). destruct (_ || _); [done|].
  by injection H as <-.
Qed.

Lemma safe_acceptWire f b h :
  ParseHeader b = Ok h → fault_ok (h_Payload h) f → safe (acceptWire f b).
Proof.
  intros Hh Hf. pose proof (fault_value_range _ _ Hf). pose proof (header_in _ _ Hh).
  destruct Hf. pose proof (len_nonneg (f_value f)).
  apply safe_bind; [apply safe_slice; lia|done].
Qed.

Lemma safe_dropWire f b h :
  ParseHeader b = Ok h → fault_ok (h_Payload h) f → safe (dropWire f b h).
Proof.
  intros Hh []. pose proof (header_in _ _ Hh). pose proof (len_nonneg (h_Payload h)).
  apply safe_bind; [apply safe_slice; lia|intros p _].
  apply safe_bind; [unfold slice_from; apply safe_slice; lia|intros q _].
  apply safe_bind; [apply safe_slice; lia|done].
Qed.

Lemma safe_restore m v : safe (restoreInvalidInfoString m v).
Proof. destruct m as [g|k m]; cbn; [done|]. by destruct (field_InfoString k m) as [[p|]|]. Qed.

Lemma safe_tolerate b d e : safe (tolerate b d e).
Proof.
  unfold tolerate. destruct (len b <? 4) eqn:Hl; [done|]. to_prop.
  apply safe_bind; [apply safe_index; lia|intros c Hc].
  apply safe_bind; [apply safe_index; lia|intros t Ht].
  destruct (newMessageFor c t) as [k|] eqn:Hk; [|done].
  pose proof (safe_parseTypedHeader b c t) as Hs.
  destruct (parseTypedHeader b c t) as [h| | |] eqn:Hh; try done.
  pose proof (safe_findFault (h_Payload h) b (h_Class h) (h_Type h)
    (messageHasInfoString k)) as Hs'.
  destruct (findTolerableParameterFault _ _ _ _ _) as [[f|]| | |] eqn:Hf; try done.
  destruct (fault_strict _ _ _ _ _ _ Hc Ht Hk Hh Hf) as [Hok _].
  apply parseTypedHeader_header in Hh.
  destruct (d (f_violation f)); [done| | |done].
  - apply safe_bind; [by eapply safe_acceptWire|intros w _].
    apply safe_bind; [apply safe_Parse_message|intros m _]. apply safe_restore.
  - apply safe_bind; [by eapply safe_dropWire|intros w _]. apply safe_Parse_message.
Qed.

(** The field set by [restoreInvalidInfoString] is the one read. *)
Lemma field_set_InfoString k (m : type_of k) p q :
  field_InfoString k m = Some (Some p) →
  field_InfoString k (set_InfoString k m q) = Some (Some q).
Proof. by destruct k. Qed.

Lemma field_InfoString_tag k (m : type_of k) p :
  fields_ok m → field_InfoString k m = Some (Some p) → Tag p = InfoString.
Proof.
  intros Hf Hp. destruct k; try discriminate Hp; destruct m; cbn in Hf, Hp;
    destruct_and? Hf; injection Hp as Hp;
    match goal with H : field_ok Params.InfoString _ |- _ => exact (H p Hp) end.
Qed.

(** The case analysis of [tolerate] on octets the strict decoder refuses:
    either the strict error, or a fault the tolerator decides on. *)
Lemma tolerate_cases b decide e :
  Parse b = Err e →
  tolerate b decide e = Err e ∨
  ∃ h f, ParseHeader b = Ok h ∧ fault_ok (h_Payload h) f ∧
    e = ParamsError (v_Cause (f_violation f)) ∧
    tolerate b decide e =
    match decide (f_violation f) with
    | ProtocolAccept =>
        wire ← acceptWire f b;
        msg ← Parse wire;
        restoreInvalidInfoString msg (f_value f)
    | ProtocolDropParameter =>
        wire ← dropWire f b h;
        Parse wire
    | _ => Err e
    end.
Proof.
  intros Hp. pose proof (safe_tolerate b decide e) as Hs. unfold tolerate in *.
  destruct (len b <? 4) eqn:Hl; [by left|].
  destruct (index (E:=msg_error) 2 b) as [c|e'| |] eqn:Hc; cbn [mbind result_bind] in *;
    [|by unfold index in Hc; repeat case_match|done..].
  destruct (index (E:=msg_error) 3 b) as [t|e'| |] eqn:Ht; cbn [mbind result_bind] in *;
    [|by unfold index in Ht; repeat case_match|done..].
  destruct (newMessageFor c t) as [k|] eqn:Hk; [|by left].
  destruct (parseTypedHeader b c t) as [h| | |] eqn:Hh; [|by left|done..].
  destruct (findTolerableParameterFault _ _ _ _ _) as [[f|]| | |] eqn:Hf;
    [|by left|by left|done..].
  destruct (fault_strict _ _ _ _ _ _ Hc Ht Hk Hh Hf) as [Hok He].
  rewrite He in Hp. injection Hp as Hp. right. exists h, f.
  split; [by eapply parseTypedHeader_header|]. split; [done|]. split; [done|].
  by rewrite <-Hp; destruct (decide _).
Qed.

(** ** Theorems *)

(** A tolerator that tolerates nothing changes nothing.  Where it always
    answers with a rejection (or with the decision no decoder acts on),
    [ParseWithOptions] is [Parse]: the error it returns instead of the strict
    one, the cause of the violation, is the strict error. *)
Theorem ParseWithOptions_reject decide b :
  (∀ v, decide v = ProtocolReject ∨ decide v = ProtocolUseLocalDefault) →
  ParseWithOptions b (Some decide) = Parse b.
Proof.
  intros Hd. unfold ParseWithOptions. destruct (Parse b) as [m|e| |] eqn:Hp; try done.
  destruct (tolerate_cases b decide e Hp) as [->|(h & f & _ & _ & _ & ->)]; [done|].
  by destruct (Hd (f_violation f)) as [-> | ->].
Qed.

(** [ParseWithOptions] returns on any octets, whatever the tolerator
    decides: the rewritten messages are cut inside the received octets. *)
Theorem ParseWithOptions_safe b options : safe (ParseWithOptions b options).
Proof.
  unfold ParseWithOptions. pose proof (safe_Parse_message b) as Hs.
  destruct options as [d|]; [|done]. destruct (Parse b); try done. apply safe_tolerate.
Qed.

(** What an accepted violation gives.  A message the strict decoder
    refuses and a tolerant one accepts is one whose INFO String is not UTF-8:
    the field of the message returned is that INFO String, of at most 255
    octets, with the octets that were received. *)
Theorem ParseWithOptions_accept decide b e m :
  (∀ v, decide v = ProtocolAccept) →
  Parse b = Err e → ParseWithOptions b (Some decide) = Ok m →
  ∃ h k m' p before after,
    m = Typed k m' ∧ field_InfoString k m' = Some (Some p) ∧
    e = ParamsError ErrInvalidValue ∧ ParseHeader b = Ok h ∧
    h_Payload h = before ++ Data p ++ after ∧
    Tag p = InfoString ∧ Length p = 4 + len (Data p) ∧
    utf8_Valid (Data p) = false ∧ len (Data p) ≤ 255.
Proof.
  intros Hd He Hm. unfold ParseWithOptions in Hm. rewrite He in Hm.
  destruct (tolerate_cases b decide e He) as [Ht|(h & f & Hh & Hok & -> & Ht)];
    rewrite Ht in Hm; [done|].
  rewrite Hd in Hm. apply bind_Ok in Hm as (w & _ & Hm). apply bind_Ok in Hm as (m0 & Hw & Hm).
  destruct m0 as [g|k m0]; [done|]. cbn in Hm.
  destruct (field_InfoString k m0) as [[p0|]|] eqn:Hp0; [|done..]. injection Hm as <-.
  apply Parse_Ok in Hw as (Hw & _). pose proof (wf_fields _ Hw) as Hf.
  destruct Hok as [H1 H2 (p & q & Hpq & Hlen) H4 H5 H6].
  eexists h, k, _, (mkParam (Tag p0) (u16 (4 + len (f_value f))) (f_value f)), p, q.
  split_and!; try done; cbn.
  - by eapply field_set_InfoString.
  - by rewrite H6.
  - by eapply field_InfoString_tag.
  - apply u16_id. unfold is_u16. pose proof (len_nonneg (f_value f)). lia.
Qed.

(** ** The theorems on concrete messages *)

Module Concrete.

(** An ASP Up whose INFO String is the octet 0xff. *)
Definition bad_info : bytes :=
  [Byte.x01; Byte.x00; Byte.x03; Byte.x01; Byte.x00; Byte.x00; Byte.x00; Byte.x10;
   Byte.x00; Byte.x04; Byte.x00; Byte.x05; Byte.xff; Byte.x00; Byte.x00; Byte.x00].
Definition accepted_info : M3UA :=
  match ParseWithOptions bad_info (Some (λ _, ProtocolAccept)) with
  | Ok m => m
  | _ => GenericMessage (Generic.mk (header_for 0 0) [])
  end.

Lemma ParseWithOptions_reject_witness :
  ParseWithOptions bad_info (Some (λ _, ProtocolReject)) = Message.Parse bad_info.
Proof. apply (ParseWithOptions_reject (λ _, ProtocolReject)). by left. Defined.

Lemma ParseWithOptions_accept_witness :
  ∃ h k m' p before after,
    accepted_info = Typed k m' ∧ field_InfoString k m' = Some (Some p) ∧
    ParamsError ErrInvalidValue = ParamsError ErrInvalidValue ∧ ParseHeader bad_info = Ok h ∧
    h_Payload h = before ++ Data p ++ after ∧
    Tag p = InfoString ∧ Length p = 4 + len (Data p) ∧
    utf8_Valid (Data p) = false ∧ len (Data p) ≤ 255.
Proof.
  apply (ParseWithOptions_accept (λ _, ProtocolAccept) bad_info (ParamsError ErrInvalidValue)).
  - done.
  - vm_compute. reflexivity.
  - vm_compute. reflexivity.
Defined.

End Concrete.
