(* ===== verification/Inventory.v ===== *)
(** * Application Server keys and inventories (askey.go, applicationservers.go, trafficmode.go)

    The key of an Application Server, the queries an Association asks of the
    Application Servers it declares, the traffic mode policy resolved from
    them, and the error values of the package that the models of it share. *)

From S2P Require Import Prelude Params ParamsFacts ParamValues.

(** Error values of package m3ua (errors.go).  Errors of the codec packages
    keep their own types. *)
Inductive m3ua_error : Set :=
| ErrAssociationClosed
| ErrNoActiveASP
| ErrUnsupportedTrafficMode
| ErrRecoveryQueueFull
| ErrMissingProtocolData
| ErrMissingRoutingContext
| ErrInvalidRoutingContext (routingContext : Z)
| ErrInvalidNetworkAppearance (networkAppearance : option Z)
| ErrNoMatchingRoutingKey
| ErrInvalidParameterValue
| ErrInvalidVersion (version : Z)
| ErrUnexpectedMessageType
| ErrInvalidASPIdentifier
| ErrWriteFailed
| ErrCodec (e : error).

#[export] Instance m3ua_error_eq_dec : EqDecision m3ua_error.
Proof. solve_decision. Defined.

(** ** ASKey (askey.go) *)

Record ASKey : Set := mkASKey {
  NetworkAppearance : Z;
  NetworkAppearanceSet : bool;
  RoutingContext : Z;
  RoutingContextSet : bool;
}.

#[export] Instance ASKey_eq_dec : EqDecision ASKey.
Proof. solve_decision. Defined.
#[export] Program Instance ASKey_countable : Countable ASKey :=
  inj_countable' (λ k, (NetworkAppearance k, NetworkAppearanceSet k,
                        RoutingContext k, RoutingContextSet k))
                 (λ '(a, b, c, d), mkASKey a b c d) _.
Next Obligation. by intros []. Qed.

(** The zero value. *)
Definition zeroASKey : ASKey := mkASKey 0 false 0 false.

Definition routingContextASKey (routingContext : Z) : ASKey :=
  mkASKey 0 false routingContext true.

Definition maxRoutingContextValue : Z := 2 ^ 32 - 1.

Definition routingContextFromInt (value : Z) : option Z :=
  if (value <? 0) || (maxRoutingContextValue <? value) then None else Some (u32 value).

(** The dynamic types a caller may name a scope with. *)
Inductive scope : Set :=
| scope_key (k : ASKey)
| scope_uint32 (v : Z)
| scope_int (v : Z)
| scope_other.

Definition normalizeASKey (s : scope) : option ASKey :=
  match s with
  | scope_key k => Some k
  | scope_uint32 v => Some (routingContextASKey v)
  | scope_int v => routingContextASKey <$> routingContextFromInt v
  | scope_other => None
  end.

Definition compareASKey (first second : ASKey) : Z :=
  if negb (bool_decide (NetworkAppearanceSet first = NetworkAppearanceSet second))
  then if negb (NetworkAppearanceSet first) then -1 else 1
  else if negb (NetworkAppearance first =? NetworkAppearance second)
  then if NetworkAppearance first <? NetworkAppearance second then -1 else 1
  else if negb (bool_decide (RoutingContextSet first = RoutingContextSet second))
  then if negb (RoutingContextSet first) then -1 else 1
  else if negb (RoutingContext first =? RoutingContext second)
  then if RoutingContext first <? RoutingContext second then -1 else 1
  else 0.

Definition routingContextParamForASKey (k : ASKey) : option Param :=
  if negb (RoutingContextSet k) then None
  else Some (NewRoutingContext [RoutingContext k]).

(** ** Inventories (applicationservers.go) *)

Record ASConfig : Set := mkASConfig {
  c_ASKey : ASKey;
  c_TrafficMode : Z;
}.

Definition asConfigRoutingContexts (servers : list ASConfig) : list Z :=
  omap (λ s, if RoutingContextSet (c_ASKey s) then Some (RoutingContext (c_ASKey s)) else None)
    servers.

Fixpoint asConfigCarriesRoutingContext (servers : list ASConfig) (rtCtx : Z) : bool :=
  match servers with
  | [] => false
  | s :: servers =>
      if RoutingContextSet (c_ASKey s) && (RoutingContext (c_ASKey s) =? rtCtx) then true
      else asConfigCarriesRoutingContext servers rtCtx
  end.

Fixpoint asConfigASKeyFor (servers : list ASConfig) (rtCtx : Z) : option ASKey :=
  match servers with
  | [] => None
  | s :: servers =>
      if RoutingContextSet (c_ASKey s) && (RoutingContext (c_ASKey s) =? rtCtx)
      then Some (c_ASKey s) else asConfigASKeyFor servers rtCtx
  end.

Fixpoint contextlessLoop (servers : list ASConfig) : option ASKey :=
  match servers with
  | [] => None
  | s :: servers =>
      if negb (RoutingContextSet (c_ASKey s)) then Some (c_ASKey s)
      else contextlessLoop servers
  end.

Definition asConfigContextlessASKey (servers : list ASConfig) : option ASKey :=
  if len servers =? 0 then Some zeroASKey else contextlessLoop servers.

(** The loop of [asConfigNetworkAppearance]; [resolved] holds the first entry's
    appearance once there is one. *)
Fixpoint networkAppearanceLoop (resolved : option (Z * bool)) (servers : list ASConfig)
    : Z * bool :=
  match servers with
  | [] => default (0, false) resolved
  | s :: servers =>
      let k := c_ASKey s in
      match resolved with
      | None =>
          networkAppearanceLoop (Some (NetworkAppearance k, NetworkAppearanceSet k)) servers
      | Some (value, set) =>
          if negb (bool_decide (NetworkAppearanceSet k = set)) ||
             (set && negb (NetworkAppearance k =? value))
          then (0, false) else networkAppearanceLoop resolved servers
      end
  end.

Definition asConfigNetworkAppearance : list ASConfig → Z * bool := networkAppearanceLoop None.

Definition asConfigASKeys (servers : list ASConfig) : list ASKey := c_ASKey <$> servers.

Definition asConfigRoutingContextParam (servers : list ASConfig) : option Param :=
  let routingContexts := asConfigRoutingContexts servers in
  if len routingContexts =? 0 then None else Some (NewRoutingContext routingContexts).

Definition networkAppearanceParam (appearance : Z) (set : bool) : option Param :=
  if negb set then None else Some (NewNetworkAppearance appearance).

(** [asKeyForConfigRoutingContext] and [contextlessASKeyForConfig] (askey.go);
    [None] is the nil configuration, and [Some] its Application Servers. *)
Definition asKeyForConfigRoutingContext (config : option (list ASConfig)) (routingContext : Z)
    : ASKey :=
  match config with
  | None => routingContextASKey routingContext
  | Some servers =>
      match asConfigASKeyFor servers routingContext with
      | Some k => k
      | None =>
          let '(na, set) := asConfigNetworkAppearance servers in
          mkASKey na set routingContext true
      end
  end.

Definition contextlessASKeyForConfig (config : option (list ASConfig)) : ASKey :=
  match config with
  | None => zeroASKey
  | Some servers =>
      match asConfigContextlessASKey servers with
      | Some k => k
      | None =>
          let '(na, set) := asConfigNetworkAppearance servers in mkASKey na set 0 false
      end
  end.

(** ** Traffic mode policy (trafficmode.go) *)

Record trafficModePolicy : Type := mkTrafficModePolicy {
  contextlessMode : Z;
  contextlessModeSet : bool;
  modes : gmap Z Z;
}.

Definition noTrafficModePolicy : trafficModePolicy := mkTrafficModePolicy 0 false ∅.

Definition addTrafficMode (policy : trafficModePolicy) (server : ASConfig) : trafficModePolicy :=
  if c_TrafficMode server =? 0 then policy
  else if negb (RoutingContextSet (c_ASKey server))
  then mkTrafficModePolicy (c_TrafficMode server) true (modes policy)
  else mkTrafficModePolicy (contextlessMode policy) (contextlessModeSet policy)
         (<[RoutingContext (c_ASKey server) := c_TrafficMode server]> (modes policy)).

Definition newApplicationServerTrafficModePolicy (servers : list ASConfig) : trafficModePolicy :=
  foldl addTrafficMode noTrafficModePolicy servers.

(** The result is [None] when no mode is configured. *)
Definition configured (p : trafficModePolicy) (routingContext : Z) : option Z :=
  match modes p !! routingContext with
  | Some mode => Some mode
  | None => if contextlessModeSet p then Some (contextlessMode p) else None
  end.

Definition configuredForASKey (p : trafficModePolicy) (k : ASKey) : option Z :=
  if negb (RoutingContextSet k)
  then if contextlessModeSet p then Some (contextlessMode p) else None
  else configured p (RoutingContext k).

Definition contextlessParam (p : trafficModePolicy) : option Param :=
  if negb (contextlessModeSet p) then None
  else Some (NewTrafficModeType (contextlessMode p)).
