(* ===== verification/AppServer.v ===== *)
(** * The Application Server (as.go)

    The state of one Application Server: its ASPs and the AS state they add up
    to, the recovery timer T(r), the queue of notifications, the traffic mode,
    and the traffic it retains; the operations that change the ASPs.  The
    operations that move traffic are in Distribution.v.

    Every operation runs under the mutex of the Application Server and is a
    function of its state.  Three things the code does afterwards, outside the
    mutex, are part of the result: the notifications to release (the closure
    the code returns, here the identities of the events), whether to start
    draining the recovery queue, and what to give back to the recovery budget.
    An Association is named by a number.  Where the code ranges over a map, in
    an order Go does not fix, the model takes one order; no theorem depends on
    it.  Counters of 64 bits that advance by one per operation are unbounded,
    except where the code handles their wrap-around. *)

From stdpp Require Import sorting.
From coqutil Require Import Datatypes.RecordSettersUsingExistingGetters.
From S2P Require Import Prelude Params ParamValues Inventory MsgData.
#[local] Open Scope Z_scope.

Abbreviation association := nat.

#[global] Arguments RecordSettersUsingExistingGetters.const {_} _ _ /.

(** ** States *)

Inductive ASState : Set := ASDown | ASInactive | ASActive | ASPending.
#[export] Instance ASState_eq_dec : EqDecision ASState.
Proof. solve_decision. Defined.

Definition statusInformation (s : ASState) : option Z :=
  match s with
  | ASInactive => Some AsStateInactive
  | ASActive => Some AsStateActive
  | ASPending => Some AsStatePending
  | ASDown => None
  end.

(** The state of an ASP (fsm.go). *)
Inductive State : Set :=
| StateASPDown | StateASPInactive | StateASPActive | StateSCTPCDI | StateSCTPRI | stateUnchanged.
#[export] Instance State_eq_dec : EqDecision State.
Proof. solve_decision. Defined.

(** ** Configuration (config.go) *)

Record ASActivationPolicy : Set := mkActivationPolicy {
  RequiredActiveASPs : Z;
  SmoothStart : bool;
}.

Definition policy_requiredActive (p : ASActivationPolicy) : Z :=
  if RequiredActiveASPs p =? 0 then 1 else RequiredActiveASPs p.

(** ** Retained traffic *)

(** The traffic flow a Broadcast marker belongs to (distribution.go). *)
Record broadcastFlowKey : Set := mkFlow {
  f_networkAppearance : Z;
  f_networkAppearanceSet : bool;
  f_routingContext : Z;
  f_originatingPointCode : Z;
  f_destinationPointCode : Z;
  f_serviceIndicator : Z;
  f_networkIndicator : Z;
  f_signalingLink : Z;
  f_applicationFlow : string;
}.

#[export] Instance broadcastFlowKey_eq_dec : EqDecision broadcastFlowKey.
Proof. solve_decision. Defined.
#[export] Program Instance broadcastFlowKey_countable : Countable broadcastFlowKey :=
  inj_countable'
    (λ f, (f_networkAppearance f, f_networkAppearanceSet f, f_routingContext f,
           f_originatingPointCode f, f_destinationPointCode f, f_serviceIndicator f,
           f_networkIndicator f, f_signalingLink f, f_applicationFlow f))
    (λ '(a, b, c, d, e, f, g, h, i), mkFlow a b c d e f g h i) _.
Next Obligation. by intros []. Qed.

(** [qd_ticket] is not in the code: it numbers the accepted messages, so that
    theorems can tell them apart. *)
Record queuedData : Set := mkQueued {
  qd_data : Data.Data;
  qd_flow : broadcastFlowKey;
  qd_size : Z;
  qd_recoveryGen : Z;
  qd_broadcastTargets : list association;
  qd_broadcastTargetsSet : bool;
  qd_broadcastEpoch : Z;
  qd_broadcastMarker : bool;
  qd_ticket : nat;
}.

(** The budget every Application Server of an Endpoint shares. *)
Record recoveryBudget : Set := mkBudget {
  b_messageLimit : Z;
  b_byteLimit : Z;
  b_messages : Z;
  b_bytes : Z;
}.

(** [None] refuses. *)
Definition claim (b : recoveryBudget) (size : Z) : option recoveryBudget :=
  if (b_messageLimit b <=? b_messages b) || (b_byteLimit b - b_bytes b <? size) then None
  else Some (mkBudget (b_messageLimit b) (b_byteLimit b) (b_messages b + 1) (b_bytes b + size)).

(** The code panics when a counter falls below zero. *)
Definition release_budget (b : recoveryBudget) (messages bytes : Z) : result () recoveryBudget :=
  if messages =? 0 then Ok b else
  let b := mkBudget (b_messageLimit b) (b_byteLimit b) (b_messages b - messages)
             (b_bytes b - bytes) in
  if (b_messages b <? 0) || (b_bytes b <? 0) then Panic else Ok b.

(** ** The Application Server *)

(** [n_id] is the identity of the event object; [n_ready] says that its channel
    [ready] is closed. *)
Record asNotification : Set := mkNotification {
  n_id : Z;
  n_status : Z;
  n_targets : list association;
  n_aspIdentifier : option Param;
  n_ready : bool;
  n_waitOnRelease : bool;
}.

(** [recovery] is the generation of the running T(r), if it is running, and
    [drainRetry] whether a retry timer is set. *)
Record applicationServer : Type := mkAS {
  key : ASKey;
  activationPolicy : ASActivationPolicy;
  asps : gmap association State;
  active : list association;
  associationOrder : gmap association Z;
  nextAssociationOrder : Z;
  state : ASState;
  closed : bool;
  notifications : list asNotification;
  notificationWorker : bool;
  nextNotification : Z;
  resourcesInsufficient : bool;
  insufficientNotified : gset association;
  trafficMode : Z;
  recovery : option Z;
  recoveryGen : Z;
  recoveryExpiredGen : Z;
  recoveryQueue : list queuedData;
  recoveryQueueBytes : Z;
  deliveryInFlightBytes : Z;
  activeSending : bool;
  draining : bool;
  drainRetry : bool;
  drainRetryDelay : Z;
  broadcastEpoch : Z;
  broadcastTagged : gmap broadcastFlowKey Z;
  broadcastFlowLimit : Z;
  nextCorrelationID : Z;
}.

(** What [getOrCreateLocked] creates. *)
Definition newApplicationServer (k : ASKey) (policy : ASActivationPolicy) (flowLimit : Z)
    : applicationServer :=
  mkAS k policy ∅ [] ∅ 0 ASDown false [] false 0 false ∅ 0 None 0 0 [] 0 0 false false false 0
    0 ∅ flowLimit 0.

Definition closedApplicationServer (k : ASKey) : applicationServer :=
  (newApplicationServer k (mkActivationPolicy 0 false) 0) <| closed := true |>.

Definition requiredActive (as_ : applicationServer) : Z :=
  policy_requiredActive (activationPolicy as_).

Definition is_active (st : State) : bool := bool_decide (st = StateASPActive).
Definition is_inactive (st : State) : bool := bool_decide (st = StateASPInactive).

(** The Associations of [as_.asps] whose state satisfies [f]. *)
Definition members (f : State → bool) (as_ : applicationServer) : list association :=
  (filter (λ a, f a.2) (map_to_list (asps as_))).*1.

Definition hasActiveASPLocked (as_ : applicationServer) : bool :=
  negb (len (members is_active as_) =? 0).

Definition notifyTargetsLocked (as_ : applicationServer) : list association :=
  members (λ st, negb (bool_decide (st = StateASPDown))) as_.

Section application_server.
(** The ASP Identifier each peer supplied in ASP Up. *)
Context (peers : gmap association Param).
Implicit Types (s : applicationServer) (c : association).

Definition peerASPIdentifierParam (c : association) : option Param := Copy (peers !! c).

Definition aspIDOf (c : association) : Z :=
  match peers !! c with
  | None => 0
  | Some identifier =>
      match get_AspIdentifier identifier with Ok v => v | _ => 0 end
  end.

(** ** The distribution order *)

(** One iteration of the first loop of [rebuildActiveLocked]. *)
Definition assignOrder (s : applicationServer) (c : association) : applicationServer :=
  match associationOrder s !! c with
  | Some _ => s
  | None =>
      s <| nextAssociationOrder ::= Z.add 1 |>
        <| associationOrder := <[c := 1 + nextAssociationOrder s]> (associationOrder s) |>
  end.

Definition lessActive (order : gmap association Z) (a b : association) : bool :=
  if negb (aspIDOf a =? aspIDOf b) then aspIDOf a <? aspIDOf b
  else default 0 (order !! a) <? default 0 (order !! b).

(** [sort.Slice] by [lessActive]: the relation it sorts by is "not greater". *)
Definition notGreater (order : gmap association Z) (a b : association) : Prop :=
  lessActive order b a = false.

#[export] Instance notGreater_dec order : RelDecision (notGreater order).
Proof. unfold notGreater. solve_decision. Defined.

Definition rebuildActiveLocked (s : applicationServer) : applicationServer :=
  let s := foldl assignOrder s (map_to_list (asps s)).*1 in
  s <| active := merge_sort (notGreater (associationOrder s)) (members is_active s) |>.

(** ** Notifications *)

Definition enqueueStatusNotificationLocked (status : Z) (targets : list association)
    (aspIdentifier : option Param) (s : applicationServer) : applicationServer * list Z :=
  let event := mkNotification (nextNotification s) status targets (Copy aspIdentifier) false
                 (len (notifications s) =? 0) in
  (s <| notifications := notifications s ++ [event] |>
     <| nextNotification ::= Z.add 1 |>
     <| notificationWorker := true |>,
   [n_id event]).

Definition enqueueStateNotificationLocked (st : ASState) (targets : list association)
    (aspIdentifier : option Param) (s : applicationServer) : applicationServer * list Z :=
  match statusInformation st with
  | None => (s, [])
  | Some status => enqueueStatusNotificationLocked status targets aspIdentifier s
  end.

Definition set_ready (e : asNotification) : asNotification :=
  mkNotification (n_id e) (n_status e) (n_targets e) (n_aspIdentifier e) true (n_waitOnRelease e).

(** Running the closure of [combineNotificationReleases]. *)
Definition releaseNotifications (ids : list Z) (s : applicationServer) : applicationServer :=
  s <| notifications ::= map (λ e, if bool_decide (n_id e ∈ ids) then set_ready e else e) |>.

(** One round of [deliverNotifications] once the head event is ready: the event
    leaves the queue, and is sent unless the Application Server is closed.
    [None] is the wait for the head event. *)
Definition deliverNotification (s : applicationServer)
    : option (applicationServer * option asNotification) :=
  if negb (notificationWorker s) then None else
  match notifications s with
  | [] => Some (s <| notificationWorker := false |>, None)
  | event :: rest =>
      if n_ready event
      then Some (s <| notifications := rest |>, if closed s then None else Some event)
      else None
  end.

(** The last event also waits, when one transition queued them all. *)
Definition wait_last (l : list asNotification) : list asNotification :=
  match last l with
  | None => l
  | Some e =>
      take (length l - 1) l ++
      [mkNotification (n_id e) (n_status e) (n_targets e) (n_aspIdentifier e) (n_ready e) true]
  end.

(** ** Timers *)

Definition startRecoveryLocked (s : applicationServer) : applicationServer :=
  let gen := recoveryGen s + 1 in
  s <| recoveryGen := gen |>
    <| recoveryQueue ::= map (λ i, mkQueued (qd_data i) (qd_flow i) (qd_size i) gen
         (qd_broadcastTargets i) (qd_broadcastTargetsSet i) (qd_broadcastEpoch i)
         (qd_broadcastMarker i) (qd_ticket i)) |>
    <| recovery := Some gen |>.

Definition stopRecoveryLocked (s : applicationServer) : applicationServer :=
  s <| recovery := None |>.

Definition stopDrainRetryLocked (s : applicationServer) : applicationServer :=
  s <| drainRetry := false |>.

(** ** The AS state *)

(** The switch of [recomputeLockedFor]. *)
Definition nextState (s : applicationServer) (active inactive : Z) : ASState :=
  let previous := state s in
  if requiredActive s <=? active then ASActive
  else if (0 <? active) && (bool_decide (previous = ASActive) ||
            bool_decide (previous = ASPending) || SmoothStart (activationPolicy s))
  then ASActive
  else if 0 <? active then ASInactive
  else if bool_decide (previous = ASActive) then ASPending
  else if bool_decide (previous = ASPending) then ASPending
  else if 0 <? inactive then ASInactive
  else ASDown.

(** The change of state and its notification; otherwise the notification for
    those that have just become known. *)
Definition changeState (next : ASState) (aspIdentifier : option Param)
    (currentStateTargets : list association) (s : applicationServer)
    : applicationServer * list Z :=
  if negb (bool_decide (next = state s)) then
    let s := stopRecoveryLocked (s <| state := next |>) in
    let s := if bool_decide (next = ASPending) then startRecoveryLocked s else s in
    let s := if negb (bool_decide (next = ASActive)) then stopDrainRetryLocked s else s in
    enqueueStateNotificationLocked next (notifyTargetsLocked s) aspIdentifier s
  else if negb (len currentStateTargets =? 0) then
    enqueueStateNotificationLocked next currentStateTargets None s
  else (s, []).

Definition is_shared_mode (mode : Z) : bool :=
  (mode =? TrafficModeLoadshare) || (mode =? TrafficModeBroadcast).

(** The insufficient-resource advisory; [stateChanged] says whether the state
    changed just before. *)
Definition adviseInsufficient (next : ASState) (active : Z) (stateChanged : bool)
    (s : applicationServer) : applicationServer * list Z :=
  let insufficient := bool_decide (next = ASActive) && (active <? requiredActive s) &&
                      is_shared_mode (trafficMode s) in
  let wasInsufficient := resourcesInsufficient s in
  let '(s, releases) :=
    if insufficient then
      let inactive := members is_inactive s in
      let newlyInactive := filter (λ c, c ∉ insufficientNotified s) inactive in
      let s := s <| insufficientNotified := list_to_set inactive |> in
      if negb (len newlyInactive =? 0)
      then enqueueStatusNotificationLocked InsufficientAspResources newlyInactive None s
      else (s, [])
    else
      let s := s <| insufficientNotified := ∅ |> in
      if wasInsufficient && bool_decide (next = ASActive) && negb stateChanged
      then enqueueStateNotificationLocked ASActive (notifyTargetsLocked s) None s
      else (s, []) in
  (s <| resourcesInsufficient := insufficient |>, releases).

Definition recomputeLockedFor (aspIdentifier : option Param)
    (currentStateTargets : list association) (s : applicationServer)
    : applicationServer * list Z :=
  let notificationQueueWasEmpty := len (notifications s) =? 0 in
  let s := rebuildActiveLocked s in
  let active := len (members is_active s) in
  let inactive := len (members is_inactive s) in
  let previous := state s in
  let next := nextState s active inactive in
  let '(s, releases) := changeState next aspIdentifier currentStateTargets s in
  let '(s, advisory) := adviseInsufficient next active (negb (bool_decide (next = previous))) s in
  let s := if notificationQueueWasEmpty && negb (len (notifications s) =? 0)
           then s <| notifications ::= wait_last |> else s in
  (s, releases ++ advisory).

Definition recomputeLocked (aspIdentifier : option Param) (s : applicationServer)
    : applicationServer * list Z :=
  recomputeLockedFor aspIdentifier [] s.

(** ** Operations on the ASPs *)

(** [broadcastEpoch] is a 64-bit counter that skips zero. *)
Definition noteBroadcastActivationLocked (s : applicationServer) : applicationServer :=
  if negb (trafficMode s =? TrafficModeBroadcast) then s else
  let epoch := u64 (broadcastEpoch s + 1) in
  s <| broadcastTagged := ∅ |>
    <| broadcastEpoch := if epoch =? 0 then 1 else epoch |>.

(** The condition on which the recovery queue starts to drain. *)
Definition wantsDrain (s : applicationServer) : bool :=
  bool_decide (state s = ASActive) && (0 <? len (recoveryQueue s)) &&
  negb (draining s) && negb (activeSending s).

Definition startDrain (s : applicationServer) : applicationServer :=
  (stopDrainRetryLocked s) <| draining := true |>.

(** The results: the state, the notifications to release, whether to drain. *)
Definition recordASPState (c : association) (st : State) (ifAbsent : bool)
    (s : applicationServer) : applicationServer * list Z * bool :=
  if closed s then (s, [], false) else
  let current := asps s !! c in
  let s :=
    if bool_decide (current = None) || negb ifAbsent then
      let s := s <| asps ::= <[c := st]> |> in
      if bool_decide (st = StateASPActive) && negb (bool_decide (current = Some StateASPActive))
      then noteBroadcastActivationLocked s else s
    else s in
  let '(s, notify) := recomputeLocked None s in
  if wantsDrain s then (startDrain s, notify, true) else (s, notify, false).

(** [guard] is the state the Association must be in, with the state it is in. *)
Definition setASPStateGuarded (c : association) (st : State) (guard : option (State * State))
    (ifAbsent : bool) (s : applicationServer) : applicationServer * list Z * bool :=
  match guard with
  | Some (associationState, current) =>
      if negb (bool_decide (current = associationState)) then (s, [], false)
      else recordASPState c st ifAbsent s
  | None => recordASPState c st ifAbsent s
  end.

(** The last result says whether the ASP is a member. *)
Definition markASPDown (c : association) (s : applicationServer)
    : applicationServer * list Z * bool :=
  if closed s then (s, [], false) else
  match asps s !! c with
  | None => (s, [], false)
  | Some StateASPDown => (s, [], true)
  | Some _ =>
      let '(s, notify) := recomputeLocked None (s <| asps ::= <[c := StateASPDown]> |>) in
      (s, notify, true)
  end.

(** One iteration of the loop of [markASPsInactive]. *)
Definition markInactive (acc : applicationServer * bool * list association) (c : association)
    : applicationServer * bool * list association :=
  let '(s, changed, targets) := acc in
  let current := asps s !! c in
  let targets :=
    if bool_decide (current = None) || bool_decide (current = Some StateASPDown)
    then targets ++ [c] else targets in
  if bool_decide (current = Some StateASPInactive) then (s, changed, targets)
  else (s <| asps ::= <[c := StateASPInactive]> |>, true, targets).

Definition markASPsInactive (associations : list association) (s : applicationServer)
    : applicationServer * list Z :=
  if closed s then (s, []) else
  let '(s, changed, targets) := foldl markInactive (s, false, []) associations in
  if negb changed then (s, []) else recomputeLockedFor None targets s.

(** The first result is the state and the last whether to drain; the second
    holds the displaced ASPs. *)
Definition activateOverride (challenger : association) (s : applicationServer)
    : applicationServer * list association * list Z * bool :=
  if closed s then (s, [], [], false) else
  let challengerWas := asps s !! challenger in
  let s := s <| asps ::= <[challenger := StateASPActive]> |> in
  let displaced := filter (λ c, c ≠ challenger) (members is_active s) in
  let s := s <| asps ::= λ m, foldl (λ m peer, <[peer := StateASPInactive]> m) m displaced |> in
  let changed := negb (bool_decide (challengerWas = Some StateASPActive)) ||
                 negb (len displaced =? 0) in
  let '(s, notify) := if changed then recomputeLocked None s else (s, []) in
  if wantsDrain s then (startDrain s, displaced, notify, true)
  else (s, displaced, notify, false).

(** The last result is the notification of an ASP failure, which is sent at
    once: whom to, and which ASP. *)
Definition remove (c : association) (s : applicationServer)
    : applicationServer * list Z * option (list association * option Param) :=
  if closed s then (s, [], None) else
  match asps s !! c with
  | None => (s, [], None)
  | Some failedState =>
      let s := s <| asps ::= delete c |> <| associationOrder ::= delete c |> in
      let failedIdentifier := peerASPIdentifierParam c in
      let up := negb (bool_decide (failedState = StateASPDown)) in
      let stateIdentifier := if up then failedIdentifier else None in
      let '(s, notify) := recomputeLocked stateIdentifier s in
      (s, notify, if up then Some (notifyTargetsLocked s, failedIdentifier) else None)
  end.

(** [refreshASPOrdering] on one Application Server. *)
Definition refreshASPOrdering (c : association) (s : applicationServer) : applicationServer :=
  if bool_decide (is_Some (asps s !! c)) then rebuildActiveLocked s else s.

End application_server.

Definition setTrafficModeLocked (mode : Z) (s : applicationServer) : applicationServer :=
  if (mode =? TrafficModeOverride) && negb (requiredActive s =? 1) then s else
  if trafficMode s =? 0 then
    let s := s <| trafficMode := mode |> in
    if (mode =? TrafficModeBroadcast) && hasActiveASPLocked s
    then noteBroadcastActivationLocked s else s
  else s.

(** ** Ends *)

(** The second result is what to give back to the recovery budget. *)
Definition close (s : applicationServer) : applicationServer * (Z * Z) :=
  if closed s then (s, (0, 0)) else
  let queuedMessages := len (recoveryQueue s) in
  let queuedBytes := recoveryQueueBytes s - deliveryInFlightBytes s in
  let s := stopDrainRetryLocked (stopRecoveryLocked (s <| closed := true |> <| state := ASDown |>)) in
  (s <| recoveryGen ::= Z.add 1 |>
     <| recoveryExpiredGen := 1 + recoveryGen s |>
     <| recoveryQueue := [] |>
     <| recoveryQueueBytes := deliveryInFlightBytes s |>
     <| draining := false |>
     <| active := [] |>
     <| associationOrder := ∅ |>
     <| notifications ::= map set_ready |>,
   (queuedMessages, queuedBytes)).

(** T(r) of generation [gen] expires. *)
Definition recoveryExpired (gen : Z) (s : applicationServer)
    : applicationServer * list Z * (Z * Z) :=
  if negb (gen =? recoveryGen s) || negb (bool_decide (state s = ASPending))
  then (s, [], (0, 0)) else
  let inactive := len (members is_inactive s) in
  let next := if 0 <? inactive then ASInactive else ASDown in
  let queuedMessages := len (recoveryQueue s) in
  let queuedBytes := recoveryQueueBytes s - deliveryInFlightBytes s in
  let s := s <| recovery := None |>
             <| state := next |>
             <| recoveryExpiredGen := gen |>
             <| recoveryQueue := [] |>
             <| recoveryQueueBytes := deliveryInFlightBytes s |>
             <| draining := false |> in
  let s := stopDrainRetryLocked s in
  let '(s, notify) := enqueueStateNotificationLocked next (notifyTargetsLocked s) None s in
  (s, notify, (queuedMessages, queuedBytes)).

(** The associations data is sent to: none unless the AS carries traffic. *)
Definition activeASPs (s : applicationServer) : list association :=
  if negb (bool_decide (state s = ASActive)) then [] else active s.

(** ** Agreement on a traffic mode *)

Definition validTrafficMode (mode : Z) : bool :=
  (mode =? TrafficModeOverride) || (mode =? TrafficModeLoadshare) ||
  (mode =? TrafficModeBroadcast).

(** The mode [agreeTrafficModeForKeys] arrives at for one Application Server;
    [requested] is the mode of the request, if it names one. *)
Definition agreedMode (trafficModes : trafficModePolicy) (requested : option Z)
    (s : applicationServer) : result m3ua_error Z :=
  if closed s then Err ErrAssociationClosed else
  let configuredMode := configuredForASKey trafficModes (key s) in
  _ ← match configuredMode with
      | Some mode =>
          _ ← ensure (validTrafficMode mode) ErrUnsupportedTrafficMode;
          match requested with
          | Some requestedMode => ensure (mode =? requestedMode) ErrUnsupportedTrafficMode
          | None => Ok tt
          end
      | None => Ok tt
      end;
  let desired := default (default 0 requested) configuredMode in
  let desired := if desired =? 0 then trafficMode s else desired in
  _ ← ensure (negb (negb (trafficMode s =? 0) && negb (desired =? 0) &&
                    negb (trafficMode s =? desired))) ErrUnsupportedTrafficMode;
  _ ← ensure (negb ((desired =? TrafficModeOverride) && negb (requiredActive s =? 1)))
        ErrUnsupportedTrafficMode;
  Ok desired.

Definition commitMode (s : applicationServer) (mode : Z) : applicationServer :=
  if trafficMode s =? 0 then s <| trafficMode := mode |> else s.

(** The result holds the Application Servers and the Traffic Mode Type
    parameter of the answer. *)
Definition agreeTrafficModeForKeys (trafficModes : trafficModePolicy) (requested : option Z)
    (servers : list applicationServer)
    : result m3ua_error (list applicationServer * option Param) :=
  modes ← foldM (λ ms s, m ← agreedMode trafficModes requested s; Ok (ms ++ [m])) [] servers;
  let servers := zip_with commitMode servers modes in
  Ok (servers,
      match requested, modes with
      | Some mode, _ => Some (NewTrafficModeType mode)
      | None, [] => None
      | None, mode :: rest =>
          if (mode =? 0) || negb (forallb (Z.eqb mode) rest) then None
          else Some (NewTrafficModeType mode)
      end).

(** ** One step of the Application Server

    The operations its mutex serializes, and what each leaves to be done
    outside the mutex. *)

Inductive asOp : Type :=
| RecordASPState (c : association) (st : State) (ifAbsent : bool)
| MarkASPDown (c : association)
| MarkASPsInactive (cs : list association)
| ActivateOverride (c : association)
| Remove (c : association)
| RefreshASPOrdering (c : association)
| SetTrafficMode (mode : Z)
| AgreeTrafficMode (trafficModes : trafficModePolicy) (requested : option Z)
| ReleaseNotifications (ids : list Z)
| DeliverNotification
| RecoveryExpired (gen : Z)
| Close.

Record effect : Type := mkEffect {
  e_state : applicationServer;
  e_notify : list Z;
  e_drain : bool;
  e_release : Z * Z;
  e_sent : list asNotification;
}.

Definition unchanged (s : applicationServer) : effect := mkEffect s [] false (0, 0) [].

Definition as_step (peers : gmap association Param) (op : asOp) (s : applicationServer)
    : effect :=
  match op with
  | RecordASPState c st ifAbsent =>
      let '(s, notify, drain) := recordASPState peers c st ifAbsent s in
      mkEffect s notify drain (0, 0) []
  | MarkASPDown c =>
      let '(s, notify, _) := markASPDown peers c s in mkEffect s notify false (0, 0) []
  | MarkASPsInactive cs =>
      let '(s, notify) := markASPsInactive peers cs s in mkEffect s notify false (0, 0) []
  | ActivateOverride c =>
      let '(s, _, notify, drain) := activateOverride peers c s in
      mkEffect s notify drain (0, 0) []
  | Remove c =>
      let '(s, notify, _) := remove peers c s in mkEffect s notify false (0, 0) []
  | RefreshASPOrdering c => unchanged (refreshASPOrdering peers c s)
  | SetTrafficMode mode => unchanged (setTrafficModeLocked mode s)
  | AgreeTrafficMode trafficModes requested =>
      match agreedMode trafficModes requested s with
      | Ok mode => unchanged (commitMode s mode)
      | _ => unchanged s
      end
  | ReleaseNotifications ids => unchanged (releaseNotifications ids s)
  | DeliverNotification =>
      match deliverNotification s with
      | Some (s, sent) => mkEffect s [] false (0, 0) (option_list sent)
      | None => unchanged s
      end
  | RecoveryExpired gen =>
      let '(s, notify, release) := recoveryExpired gen s in mkEffect s notify false release []
  | Close => let '(s, release) := close s in mkEffect s [] false release []
  end.
