(* ===== verification/RoutingKey.v ===== *)
(** * Routing Keys (rkm.go)

    The traffic selectors of Routing Key Management: their canonical form, when
    two of them overlap, which traffic they match, the validation of the
    configured ones, and the decoding of a registration request.  Slices sorted
    with a comparison that separates distinct elements have one sorted form, so
    [sort.Slice] is modelled by [merge_sort]. *)

From stdpp Require Import sorting.
From S2P Require Import Prelude Params ParamValues AppServer.
#[local] Open Scope Z_scope.

(** ** Data *)

Record PointCodeRange : Set := mkRange { PointCode : Z; Mask : Z }.

Record RoutingKeyGroup : Set := mkRKGroup {
  g_DestinationPointCode : Z;
  g_ServiceIndicators : list Z;
  g_OriginatingPointCodes : list PointCodeRange;
}.

Record RoutingKey : Set := mkRK {
  rk_NetworkAppearance : Z;
  rk_NetworkAppearanceSet : bool;
  rk_TrafficMode : Z;
  rk_TrafficModeSet : bool;
  rk_Groups : list RoutingKeyGroup;
}.

(** The remote address of a peer is opaque. *)
Record RoutingKeyPeer : Set := mkPeer {
  peer_Role : Z;
  peer_ASPIdentifier : Z;
  peer_ASPIdentifierSet : bool;
  peer_RemoteAddr : option nat;
}.

Record RoutingKeyRegistrationRequest : Set := mkRequest {
  req_Peer : RoutingKeyPeer;
  LocalRoutingKeyIdentifier : Z;
  RequestedRoutingContext : Z;
  RoutingContextRequested : bool;
  NetworkAppearanceImplied : bool;
  req_RoutingKey : RoutingKey;
  unsupportedParameterField : bool;
}.

Record canonicalPointCodeRange : Set := mkCanonicalRange { cr_pointCode : Z; cr_mask : Z }.

Record canonicalRoutingKeyGroup : Set := mkCanonicalGroup {
  cg_destinationPointCode : Z;
  cg_serviceIndicators : list Z;
  cg_originatingPointCodes : list canonicalPointCodeRange;
}.

Record canonicalRoutingKey : Set := mkCanonical {
  ck_networkAppearance : Z;
  ck_networkAppearanceSet : bool;
  ck_groups : list canonicalRoutingKeyGroup;
}.

#[export] Instance PointCodeRange_eq_dec : EqDecision PointCodeRange.
Proof. solve_decision. Defined.
#[export] Instance RoutingKeyGroup_eq_dec : EqDecision RoutingKeyGroup.
Proof. solve_decision. Defined.
#[export] Instance RoutingKey_eq_dec : EqDecision RoutingKey.
Proof. solve_decision. Defined.
#[export] Instance RoutingKeyPeer_eq_dec : EqDecision RoutingKeyPeer.
Proof. solve_decision. Defined.
#[export] Instance canonicalPointCodeRange_eq_dec : EqDecision canonicalPointCodeRange.
Proof. solve_decision. Defined.
#[export] Instance canonicalRoutingKeyGroup_eq_dec : EqDecision canonicalRoutingKeyGroup.
Proof. solve_decision. Defined.
#[export] Instance canonicalRoutingKey_eq_dec : EqDecision canonicalRoutingKey.
Proof. solve_decision. Defined.

(** The errors of this file; their texts are not modelled. *)
Inductive rk_error : Set :=
| UnsupportedTrafficMode
| NoDestinationPointCodeGroup
| DestinationPointCodeRange
| ServiceIndicatorsZero
| OriginatingPointCodeRange
| MissingAuthorization
| NegativeMaximum
| ProvisionedRoutingContextZero
| DuplicateProvisionedRoutingContext
| OverlappingProvisionedRoutingKeys
| MissingLocalRKIdentifier
| BadParameter (e : error).

(** ** Canonical form *)

Definition canonicalPointCode (pointCode mask : Z) : Z :=
  if 24 <=? mask then 0
  else if mask =? 0 then pointCode
  else Z.ldiff pointCode (Z.shiftl 1 mask - 1).

(** Go's [cmp.Compare] on integers. *)
Definition compareZ (x y : Z) : Z := if x <? y then -1 else if y <? x then 1 else 0.

(** [slices.Compare]. *)
Fixpoint compareSlices (first second : list Z) : Z :=
  match first, second with
  | [], [] => 0
  | [], _ :: _ => -1
  | _ :: _, [] => 1
  | x :: first, y :: second =>
      if negb (compareZ x y =? 0) then compareZ x y else compareSlices first second
  end.

Definition compareRanges (x y : canonicalPointCodeRange) : Z :=
  if negb (cr_pointCode x =? cr_pointCode y)
  then if cr_pointCode x <? cr_pointCode y then -1 else 1
  else if negb (cr_mask x =? cr_mask y)
  then if cr_mask x <? cr_mask y then -1 else 1
  else 0.

(** The loop over the originating point codes, and the difference of the
    lengths when it finds none. *)
Fixpoint compareRangeLists (first second : list canonicalPointCodeRange) : Z :=
  match first, second with
  | x :: first, y :: second =>
      if negb (compareRanges x y =? 0) then compareRanges x y else compareRangeLists first second
  | first, second => len first - len second
  end.

Definition compareCanonicalRoutingKeyGroup (first second : canonicalRoutingKeyGroup) : Z :=
  if negb (cg_destinationPointCode first =? cg_destinationPointCode second)
  then if cg_destinationPointCode first <? cg_destinationPointCode second then -1 else 1
  else
    let comparison := compareSlices (cg_serviceIndicators first) (cg_serviceIndicators second) in
    if negb (comparison =? 0) then comparison
    else compareRangeLists (cg_originatingPointCodes first) (cg_originatingPointCodes second).

(** The order a comparison sorts by. *)
Definition not_after {A} (compare : A → A → Z) (x y : A) : Prop := compare x y <= 0.
#[export] Instance not_after_dec {A} (compare : A → A → Z) : RelDecision (not_after compare).
Proof. unfold not_after. solve_decision. Defined.

Definition sort_by {A} (compare : A → A → Z) (l : list A) : list A :=
  merge_sort (not_after compare) l.

(** [slices.Compact]: runs of equal elements become one. *)
Fixpoint Compact {A} `{EqDecision A} (l : list A) : list A :=
  match l with
  | [] => []
  | x :: l =>
      match l with
      | y :: _ => if bool_decide (x = y) then Compact l else x :: Compact l
      | [] => [x]
      end
  end.

Definition canonicalRange (r : PointCodeRange) : result rk_error canonicalPointCodeRange :=
  if 0x00ffffff <? PointCode r then Err OriginatingPointCodeRange else
  let mask := if 24 <? Mask r then 24 else Mask r in
  Ok (mkCanonicalRange (canonicalPointCode (PointCode r) mask) mask).

Definition canonicalGroup (group : RoutingKeyGroup) : result rk_error canonicalRoutingKeyGroup :=
  if 0x00ffffff <? g_DestinationPointCode group then Err DestinationPointCodeRange else
  let serviceIndicators := Compact (sort_by compareZ (g_ServiceIndicators group)) in
  if existsb (λ si, si =? 0) serviceIndicators then Err ServiceIndicatorsZero else
  originatingPointCodes ← mapM canonicalRange (g_OriginatingPointCodes group);
  Ok (mkCanonicalGroup (g_DestinationPointCode group) serviceIndicators
        (Compact (sort_by compareRanges originatingPointCodes))).

Definition canonicalizeRoutingKey (key : RoutingKey) : result rk_error canonicalRoutingKey :=
  if rk_TrafficModeSet key && negb (validTrafficMode (rk_TrafficMode key))
  then Err UnsupportedTrafficMode
  else if len (rk_Groups key) =? 0 then Err NoDestinationPointCodeGroup
  else
    groups ← mapM canonicalGroup (rk_Groups key);
    Ok (mkCanonical (if rk_NetworkAppearanceSet key then rk_NetworkAppearance key else 0)
          (rk_NetworkAppearanceSet key)
          (Compact (sort_by compareCanonicalRoutingKeyGroup groups))).

(** ** Traffic *)

Definition bounds (r : canonicalPointCodeRange) : Z * Z :=
  if 24 <=? cr_mask r then (0, 0x00ffffff)
  else if cr_mask r =? 0 then (cr_pointCode r, cr_pointCode r)
  else
    let wildcard := Z.shiftl 1 (cr_mask r) - 1 in
    (cr_pointCode r, Z.lor (cr_pointCode r) wildcard).

Definition setContains (values : list Z) (value : Z) : bool :=
  (len values =? 0) || existsb (Z.eqb value) values.

Definition inRange (pointCode : Z) (r : canonicalPointCodeRange) : bool :=
  let '(low, high) := bounds r in (low <=? pointCode) && (pointCode <=? high).

Definition pointCodeRangesContain (ranges : list canonicalPointCodeRange) (pointCode : Z) : bool :=
  if len ranges =? 0 then true else existsb (inRange pointCode) ranges.

Definition matchesGroup (originatingPointCode destinationPointCode serviceIndicator : Z)
    (group : canonicalRoutingKeyGroup) : bool :=
  (cg_destinationPointCode group =? destinationPointCode) &&
  setContains (cg_serviceIndicators group) serviceIndicator &&
  pointCodeRangesContain (cg_originatingPointCodes group) originatingPointCode.

Definition matchesTraffic (key : canonicalRoutingKey)
    (networkAppearance : Z) (networkAppearanceSet : bool)
    (originatingPointCode destinationPointCode serviceIndicator : Z) : bool :=
  if networkAppearanceSet && ck_networkAppearanceSet key &&
     negb (ck_networkAppearance key =? networkAppearance)
  then false
  else existsb (matchesGroup (Z.land originatingPointCode 0x00ffffff)
         (Z.land destinationPointCode 0x00ffffff) serviceIndicator) (ck_groups key).

(** ** Overlap *)

(** The merge loop of [setsOverlap] over two sorted slices: the fuel is the
    number of elements left. *)
Fixpoint mergeOverlap (fuel : nat) (first second : list Z) : bool :=
  match fuel with
  | O => false
  | S fuel =>
      match first, second with
      | x :: first', y :: second' =>
          if x =? y then true
          else if x <? y then mergeOverlap fuel first' second
          else mergeOverlap fuel first second'
      | _, _ => false
      end
  end.

Definition setsOverlap (first second : list Z) : bool :=
  if (len first =? 0) || (len second =? 0) then true
  else mergeOverlap (length first + length second) first second.

Definition rangesOverlap (first second : canonicalPointCodeRange) : bool :=
  let '(firstLow, firstHigh) := bounds first in
  let '(secondLow, secondHigh) := bounds second in
  (firstLow <=? secondHigh) && (secondLow <=? firstHigh).

Definition pointCodeRangesOverlap (first second : list canonicalPointCodeRange) : bool :=
  if (len first =? 0) || (len second =? 0) then true
  else existsb (λ r, existsb (rangesOverlap r) second) first.

Definition groupsOverlap (first second : canonicalRoutingKeyGroup) : bool :=
  (cg_destinationPointCode first =? cg_destinationPointCode second) &&
  setsOverlap (cg_serviceIndicators first) (cg_serviceIndicators second) &&
  pointCodeRangesOverlap (cg_originatingPointCodes first) (cg_originatingPointCodes second).

Definition overlaps (first second : canonicalRoutingKey) : bool :=
  if ck_networkAppearanceSet first && ck_networkAppearanceSet second &&
     negb (ck_networkAppearance first =? ck_networkAppearance second)
  then false
  else existsb (λ g, existsb (groupsOverlap g) (ck_groups second)) (ck_groups first).

(** ** Snapshots *)

Definition snapshotRoutingKey (key : RoutingKey) : RoutingKey :=
  mkRK (if rk_NetworkAppearanceSet key then rk_NetworkAppearance key else 0)
    (rk_NetworkAppearanceSet key) (rk_TrafficMode key) (rk_TrafficModeSet key) (rk_Groups key).

Definition routingKeyWithImpliedNetworkAppearance (key : RoutingKey) (appearance : Z)
    (appearanceSet : bool) : RoutingKey * bool :=
  let snapshot := snapshotRoutingKey key in
  if rk_NetworkAppearanceSet snapshot || negb appearanceSet then (snapshot, false)
  else (mkRK appearance true (rk_TrafficMode snapshot) (rk_TrafficModeSet snapshot)
          (rk_Groups snapshot), true).

Definition set_RoutingKey (key : RoutingKey) (r : RoutingKeyRegistrationRequest)
    : RoutingKeyRegistrationRequest :=
  mkRequest (req_Peer r) (LocalRoutingKeyIdentifier r) (RequestedRoutingContext r)
    (RoutingContextRequested r) (NetworkAppearanceImplied r) key (unsupportedParameterField r).

Definition snapshotRoutingKeyRegistrationRequest (r : RoutingKeyRegistrationRequest)
    : RoutingKeyRegistrationRequest :=
  set_RoutingKey (snapshotRoutingKey (req_RoutingKey r)) r.

(** ** Configuration *)

Record ProvisionedRoutingKey : Set := mkProvisioned {
  p_RoutingContext : Z;
  p_RoutingKey : RoutingKey;
}.

(** One iteration of the loop over the provisioned keys; the state holds the
    Routing Contexts and the canonical keys seen. *)
Definition validateProvisioned (seen : list Z * list canonicalRoutingKey)
    (provisioned : ProvisionedRoutingKey) : result rk_error (list Z * list canonicalRoutingKey) :=
  let '(contexts, canonicalKeys) := seen in
  if p_RoutingContext provisioned =? 0 then Err ProvisionedRoutingContextZero
  else if bool_decide (p_RoutingContext provisioned ∈ contexts)
  then Err DuplicateProvisionedRoutingContext
  else
    canonical ← canonicalizeRoutingKey (p_RoutingKey provisioned);
    if existsb (overlaps canonical) canonicalKeys then Err OverlappingProvisionedRoutingKeys
    else Ok (p_RoutingContext provisioned :: contexts, canonicalKeys ++ [canonical]).

(** ** Requests *)

Definition decodeGroup (group : Params.RoutingKeyGroup) : result error RoutingKeyGroup :=
  dpc ← match Group_DestinationPointCode group with
        | Some p => get_DestinationPointCode p | None => Panic end;
  opcs ← match Group_OriginatingPointCodeList group with
         | Some p =>
             entries ← OriginatingPointCodeListEntries p;
             Ok (map (λ e, mkRange (pcm_PointCode e) (pcm_Mask e)) entries)
         | None => Ok []
         end;
  Ok (mkRKGroup dpc
        (match Group_ServiceIndicators group with
         | Some p => get_ServiceIndicators p | None => [] end) opcs).

(** The peer is filled in by the caller. *)
Definition routingKeyFromPayload (payload : option RoutingKeyPayload)
    : result rk_error RoutingKeyRegistrationRequest :=
  match payload with
  | None => Err MissingLocalRKIdentifier
  | Some payload =>
      match RK_LocalRoutingKeyIdentifier payload with
      | None => Err MissingLocalRKIdentifier
      | Some identifier =>
          map_err BadParameter (
            id ← get_LocalRoutingKeyIdentifier identifier;
            rc ← match RK_RoutingContext payload with
                 | Some p => get_RoutingContext (Some p) | None => Ok 0 end;
            tm ← match RK_TrafficModeType payload with
                 | Some p => get_TrafficModeType p | None => Ok 0 end;
            na ← match RK_NetworkAppearance payload with
                 | Some p => get_NetworkAppearance p | None => Ok 0 end;
            groups ← mapM decodeGroup (RK_Groups payload);
            Ok (mkRequest (mkPeer 0 0 false None) id rc
                  (bool_decide (is_Some (RK_RoutingContext payload))) false
                  (mkRK na (bool_decide (is_Some (RK_NetworkAppearance payload))) tm
                    (bool_decide (is_Some (RK_TrafficModeType payload))) groups)
                  (negb (len (RK_Others payload) =? 0))))
      end
  end.
