(* ===== verification/RoutingKeyTheory.v ===== *)
(** * Theory of Routing Keys

    The comparisons of the canonical form are total orders, so a canonical form
    does not depend on the order and the repetitions of what it was built from;
    a canonical key matches the traffic its Routing Key describes; two keys
    overlap exactly when some traffic matches both; the provisioned keys a
    configuration accepts select pairwise disjoint traffic. *)

From stdpp Require Import sorting.
From S2P Require Import Prelude Params ParamsFacts ParamValues Nested AppServer RoutingKey.
#[local] Open Scope Z_scope.
Set Default Goal Selector "!".

(** ** Comparisons *)

Class GoodCompare {A} (compare : A → A → Z) : Prop := {
  compare_eq x y : compare x y = 0 ↔ x = y;
  compare_flip x y : compare x y < 0 → 0 < compare y x;
  compare_flip' x y : 0 < compare x y → compare y x < 0;
  compare_trans x y z : compare x y ≤ 0 → compare y z ≤ 0 → compare x z ≤ 0;
}.

Section GoodCompare.
Context {A} (compare : A → A → Z) `{!GoodCompare compare}.

Lemma compare_refl x : compare x x = 0.
Proof. by apply compare_eq. Qed.

Lemma compare_lt_le_trans x y z : compare x y < 0 → compare y z ≤ 0 → compare x z < 0.
Proof.
  intros Hxy Hyz. assert (compare x z ≤ 0) by (apply (compare_trans x y z); lia).
  destruct (decide (compare x z = 0)) as [->%compare_eq|]; [|lia].
  apply compare_flip in Hxy. lia.
Qed.

Lemma compare_le_lt_trans x y z : compare x y ≤ 0 → compare y z < 0 → compare x z < 0.
Proof.
  intros Hxy Hyz. assert (compare x z ≤ 0) by (apply (compare_trans x y z); lia).
  destruct (decide (compare x z = 0)) as [->%compare_eq|]; [|lia].
  apply compare_flip in Hyz. lia.
Qed.

#[export] Instance not_after_trans : Transitive (not_after compare).
Proof. intros x y z. apply compare_trans. Qed.

#[export] Instance not_after_total : Total (not_after compare).
Proof.
  intros x y. unfold not_after. destruct (Z.le_gt_cases (compare x y) 0) as [|H]; [by left|right].
  apply Z.lt_gt, Z.gt_lt, compare_flip' in H. lia.
Qed.

#[export] Instance not_after_antisym : AntiSymm (=) (not_after compare).
Proof.
  intros x y Hxy Hyx. apply compare_eq. unfold not_after in *.
  destruct (decide (compare x y < 0)) as [H%compare_flip|]; lia.
Qed.

(** *** Sorting *)

Lemma sort_by_Permutation l : sort_by compare l ≡ₚ l.
Proof. apply merge_sort_Permutation. Qed.

Lemma sort_by_sorted l : StronglySorted (not_after compare) (sort_by compare l).
Proof. apply StronglySorted_merge_sort; apply _. Qed.

Definition before (x y : A) : Prop := compare x y < 0.

Lemma elem_of_Compact `{EqDecision A} (x : A) (l : list A) : x ∈ Compact l ↔ x ∈ l.
Proof.
  induction l as [|y l IH]; [done|]. destruct l as [|z l]; [done|].
  change (x ∈ (if bool_decide (y = z) then Compact (z :: l) else y :: Compact (z :: l)) ↔
          x ∈ y :: z :: l).
  case_bool_decide; [subst y; rewrite IH|]; set_solver.
Qed.

(** Dropping the repetitions of a sorted slice leaves a strictly sorted one. *)
Lemma Compact_sorted `{EqDecision A} (l : list A) :
  StronglySorted (not_after compare) l → StronglySorted before (Compact l).
Proof.
  induction l as [|y l IH]; [constructor|]. destruct l as [|z l]; [repeat constructor|].
  intros [Hl Hy]%StronglySorted_cons.
  change (StronglySorted before
            (if bool_decide (y = z) then Compact (z :: l) else y :: Compact (z :: l))).
  case_bool_decide as Hyz; [auto|]. apply StronglySorted_cons. split; [|by auto].
  apply Forall_forall. intros x Hx. rewrite elem_of_Compact in Hx.
  assert (Hz : before y z).
  { assert (not_after compare y z) by (by inversion Hl).
    assert (compare y z ≠ 0) by (by rewrite compare_eq).
    unfold before, not_after in *. lia. }
  apply elem_of_cons in Hx as [->|Hx]; [done|].
  eapply compare_lt_le_trans; [exact Hz|].
  apply StronglySorted_cons in Hy as [Hy _]. rewrite Forall_forall in Hy. by apply Hy.
Qed.

Lemma before_NoDup l : StronglySorted before l → NoDup l.
Proof.
  induction 1 as [|x l Hl IH Hx]; constructor; [|done]. intros Hin.
  rewrite List.Forall_forall in Hx. apply list_elem_of_In in Hin.
  specialize (Hx _ Hin). unfold before in Hx. rewrite compare_refl in Hx. lia.
Qed.

Lemma before_not_after l : StronglySorted before l → StronglySorted (not_after compare) l.
Proof.
  induction 1 as [|x l Hl IH Hx]; constructor; [done|].
  eapply List.Forall_impl; [|exact Hx]. unfold before, not_after. intros. lia.
Qed.

(** The canonical form of a slice is determined by its elements. *)
Lemma Compact_sort_ext `{EqDecision A} (l k : list A) :
  (∀ x, x ∈ l ↔ x ∈ k) → Compact (sort_by compare l) = Compact (sort_by compare k).
Proof.
  intros Hlk. pose proof (Compact_sorted _ (sort_by_sorted l)) as Hl.
  pose proof (Compact_sorted _ (sort_by_sorted k)) as Hk.
  eapply (StronglySorted_unique (not_after compare)); [by apply before_not_after..|].
  apply NoDup_Permutation; [by apply before_NoDup..|].
  intros x. by rewrite !elem_of_Compact, !sort_by_Permutation.
Qed.

Lemma elem_of_Compact_sort `{EqDecision A} (x : A) (l : list A) : x ∈ Compact (sort_by compare l) ↔ x ∈ l.
Proof. by rewrite elem_of_Compact, sort_by_Permutation. Qed.
End GoodCompare.

(** *** The comparisons of the code *)

#[export] Instance compareZ_good : GoodCompare compareZ.
Proof.
  split; unfold compareZ; intros; repeat case_match; to_prop; lia.
Qed.

#[export] Instance compareRanges_good : GoodCompare compareRanges.
Proof.
  split; unfold compareRanges.
  - intros [p m] [q n]; cbn. split; [intros H|intros [= -> ->]]; repeat case_match; to_prop; try lia.
    f_equal; lia.
  - intros [p m] [q n]; cbn; intros; repeat case_match; to_prop; lia.
  - intros [p m] [q n]; cbn; intros; repeat case_match; to_prop; lia.
  - intros [p m] [q n] [r o]; cbn; intros; repeat case_match; to_prop; lia.
Qed.

(** Lexicographic comparison of slices, a prefix first. *)
Section Lexicographic.
Context {A} (compare : A → A → Z) `{!GoodCompare compare} (lex : list A → list A → Z).
Hypothesis lex_nil : lex [] [] = 0.
Hypothesis lex_prefix : ∀ b y, lex [] (b :: y) < 0.
Hypothesis lex_extension : ∀ a x, 0 < lex (a :: x) [].
Hypothesis lex_cons : ∀ a b x y,
  lex (a :: x) (b :: y) = if negb (compare a b =? 0) then compare a b else lex x y.

Lemma lex_eq x y : lex x y = 0 ↔ x = y.
Proof.
  revert y. induction x as [|a x IH]; intros [|b y].
  - done.
  - pose proof (lex_prefix b y). split; [lia|done].
  - pose proof (lex_extension a x). split; [lia|done].
  - rewrite lex_cons. case_match; to_prop.
    + split; [done|]. intros [= -> ->]. by rewrite (compare_refl compare) in *.
    + rewrite IH. assert (a = b) as -> by by apply compare_eq. split; congruence.
Qed.

Lemma lex_flip x y : lex x y < 0 → 0 < lex y x.
Proof.
  revert y. induction x as [|a x IH]; intros [|b y]; [lia|auto|pose proof (lex_extension a x); lia|].
  rewrite !lex_cons. pose proof (compare_flip a b). pose proof (compare_flip b a).
  pose proof (compare_flip' b a). repeat case_match; to_prop; intros; try lia. auto.
Qed.

Lemma lex_flip' x y : 0 < lex x y → lex y x < 0.
Proof.
  revert y. induction x as [|a x IH]; intros [|b y]; [lia|pose proof (lex_prefix b y); lia|auto|].
  rewrite !lex_cons. pose proof (compare_flip' a b). pose proof (compare_flip b a).
  pose proof (compare_flip' b a). repeat case_match; to_prop; intros; try lia. auto.
Qed.

Lemma lex_trans x y z : lex x y ≤ 0 → lex y z ≤ 0 → lex x z ≤ 0.
Proof.
  revert y z. induction x as [|a x IH]; intros [|b y] [|c z];
    try (pose proof (lex_extension a x)); try (pose proof (lex_extension b y));
    try (pose proof (lex_prefix c z)); try lia.
  rewrite !lex_cons. pose proof (compare_lt_le_trans compare a b c).
  pose proof (compare_le_lt_trans compare a b c). pose proof (compare_trans a b c).
  intros; repeat case_match; to_prop; try lia. eauto.
Qed.

Lemma lex_good : GoodCompare lex.
Proof. split; [apply lex_eq|apply lex_flip|apply lex_flip'|apply lex_trans]. Qed.
End Lexicographic.

#[export] Instance compareSlices_good : GoodCompare compareSlices.
Proof. apply (lex_good compareZ); done. Qed.

#[export] Instance compareRangeLists_good : GoodCompare compareRangeLists.
Proof.
  apply (lex_good compareRanges); [done|intros; unfold compareRangeLists, len; cbn; lia..|done].
Qed.

#[export] Instance compareCanonicalRoutingKeyGroup_good :
  GoodCompare compareCanonicalRoutingKeyGroup.
Proof.
  split; unfold compareCanonicalRoutingKeyGroup.
  - intros [d s r] [e t q]; cbn. split.
    + intros H. repeat case_match; to_prop; try lia.
      f_equal; [lia|by apply compare_eq|by apply compare_eq].
    + intros [= -> -> ->]. rewrite Z.eqb_refl, !(compare_refl _). done.
  - intros [d s r] [e t q]; cbn.
    pose proof (compare_flip s t). pose proof (compare_flip t s). pose proof (compare_flip' t s).
    pose proof (compare_flip r q). repeat case_match; to_prop; intros; try lia.
  - intros [d s r] [e t q]; cbn.
    pose proof (compare_flip' s t). pose proof (compare_flip t s). pose proof (compare_flip' t s).
    pose proof (compare_flip' r q). repeat case_match; to_prop; intros; try lia.
  - intros [d s r] [e t q] [f u p]; cbn.
    pose proof (compare_trans s t u). pose proof (compare_trans r q p).
    pose proof (compare_lt_le_trans compareSlices s t u).
    pose proof (compare_le_lt_trans compareSlices s t u).
    intros; repeat case_match; to_prop; try lia.
Qed.

(** ** Point codes and masks *)

Lemma shiftl_1_ones m : 0 ≤ m → Z.shiftl 1 m - 1 = Z.ones m.
Proof. intros. rewrite Z.ones_equiv, Z.shiftl_1_l. lia. Qed.

Lemma land_block x m : 0 ≤ m → Z.land (Z.shiftl x m) (Z.ones m) = 0.
Proof.
  intros. rewrite Z.land_ones, Z.shiftl_mul_pow2 by done.
  apply Z_mod_mult.
Qed.

(** The codes that agree with [x] above the mask form the interval of the
    canonical range. *)
Lemma block_interval x y m : 0 ≤ m →
  (Z.ldiff x (Z.ones m) ≤ y ≤ Z.lor (Z.ldiff x (Z.ones m)) (Z.ones m)) ↔
  Z.shiftr y m = Z.shiftr x m.
Proof.
  intros Hm. rewrite Z.ldiff_ones_r by done.
  rewrite <-Z.lxor_lor by by apply land_block.
  rewrite <-Z.add_nocarry_lxor by by apply land_block.
  rewrite Z.ones_equiv, Z.shiftl_mul_pow2, !Z.shiftr_div_pow2 by done.
  pose proof (Z.pow_pos_nonneg 2 m ltac:(lia) Hm).
  pose proof (Z.div_mod y (2 ^ m) ltac:(lia)). pose proof (Z.mod_pos_bound y (2 ^ m) ltac:(lia)).
  split; [|nia]. intros. assert (x / 2 ^ m ≤ y / 2 ^ m) by (apply Z.div_le_lower_bound; lia).
  assert (y / 2 ^ m < x / 2 ^ m + 1) by (apply Z.div_lt_upper_bound; lia). lia.
Qed.

Lemma ldiff_below x m : 0 ≤ m → 0 ≤ x < 2 ^ 24 → 0 ≤ Z.ldiff x (Z.ones m) ≤ x.
Proof.
  intros. rewrite Z.ldiff_ones_r, Z.shiftl_mul_pow2, Z.shiftr_div_pow2 by done.
  pose proof (Z.pow_pos_nonneg 2 m ltac:(lia) ltac:(lia)).
  pose proof (Z.div_mod x (2 ^ m) ltac:(lia)). pose proof (Z.mod_pos_bound x (2 ^ m) ltac:(lia)).
  assert (0 ≤ x / 2 ^ m) by (apply Z.div_pos; lia). nia.
Qed.

(** The point codes a range of a Routing Key stands for: those that agree with
    its code above the wildcarded low bits, all of them from 24 bits on. *)
Definition covers (r : PointCodeRange) (pointCode : Z) : Prop :=
  24 ≤ Mask r ∨ Z.shiftr pointCode (Mask r) = Z.shiftr (PointCode r) (Mask r).

Definition wf_range (r : PointCodeRange) : Prop := 0 ≤ PointCode r ∧ 0 ≤ Mask r.

Definition ok_range (r : canonicalPointCodeRange) : Prop :=
  0 ≤ (bounds r).1 ≤ (bounds r).2 ∧ (bounds r).2 < 2 ^ 24.

Lemma inRange_covers r cr pc :
  wf_range r → canonicalRange r = Ok cr → 0 ≤ pc < 2 ^ 24 → inRange pc cr = true ↔ covers r pc.
Proof.
  unfold wf_range, canonicalRange, inRange, bounds, canonicalPointCode, covers.
  destruct r as [p m]; cbn [PointCode Mask]. intros [Hp Hm] H Hpc.
  destruct (Z.ltb_spec 0x00ffffff p); [done|]. injection H as <-. cbn [cr_mask cr_pointCode].
  destruct (Z.ltb_spec 24 m).
  { cbn. rewrite andb_true_iff, !Z.leb_le. lia. }
  destruct (Z.leb_spec 24 m).
  { rewrite andb_true_iff, !Z.leb_le. lia. }
  destruct (Z.eqb_spec m 0) as [->|].
  - rewrite andb_true_iff, !Z.leb_le, !Z.shiftr_0_r. lia.
  - rewrite andb_true_iff, !Z.leb_le, !shiftl_1_ones by done.
    rewrite block_interval by done. intuition lia.
Qed.

Lemma lor_below x y n : 0 ≤ n → 0 ≤ x < 2 ^ n → 0 ≤ y < 2 ^ n → 0 ≤ Z.lor x y < 2 ^ n.
Proof.
  intros Hn Hx Hy. assert (0 ≤ Z.lor x y) by (apply Z.lor_nonneg; lia). split; [done|].
  assert (Z.lor x y / 2 ^ n = 0) as H0.
  { rewrite <-Z.shiftr_div_pow2, Z.shiftr_lor, !Z.shiftr_div_pow2, !Z.div_small by done. done. }
  apply Z.div_small_iff in H0; lia.
Qed.

Lemma canonicalRange_ok r cr : wf_range r → canonicalRange r = Ok cr → ok_range cr.
Proof.
  unfold wf_range, canonicalRange, bounds, canonicalPointCode, ok_range, bounds.
  destruct r as [p m]; cbn [PointCode Mask]. intros [Hp Hm] H.
  destruct (Z.ltb_spec 0x00ffffff p); [done|]. injection H as <-. cbn [cr_mask cr_pointCode].
  destruct (Z.ltb_spec 24 m); [cbn; lia|]. destruct (Z.leb_spec 24 m); [cbn; lia|].
  destruct (Z.eqb_spec m 0) as [->|]; cbn [fst snd]; [lia|].
  rewrite !shiftl_1_ones by done. pose proof (ldiff_below p m Hm ltac:(lia)).
  pose proof (block_interval p p m Hm) as [_ Hp']. specialize (Hp' eq_refl).
  split; [lia|]. apply lor_below; [lia..|]. rewrite Z.ones_equiv.
  assert (2 ^ m < 2 ^ 24) by (apply Z.pow_lt_mono_r; lia). lia.
Qed.

(** ** What a canonical key matches *)

Section Mapped.
Context {E A B : Type} (f : A → result E B).

Lemma mapM_Ok_cons x l k :
  mapM f (x :: l) = Ok k ↔ ∃ y k', f x = Ok y ∧ mapM f l = Ok k' ∧ k = y :: k'.
Proof.
  cbn. split.
  - intros H. inv_ok H. injection H as <-. eauto.
  - intros (y & k' & -> & -> & ->). done.
Qed.

Lemma mapM_Ok l k : mapM f l = Ok k ↔ Forall2 (λ x y, f x = Ok y) l k.
Proof.
  revert k. induction l as [|x l IH]; intros k.
  - cbn. split; [intros [= <-]; constructor|inversion 1; done].
  - rewrite mapM_Ok_cons. split.
    + intros (y & k' & Hx & Hl & ->). constructor; [done|]. by apply IH.
    + inversion 1; subst. eexists _, _. split_and!; [done| |done]. by apply IH.
Qed.

Lemma mapM_elem_r l k y : mapM f l = Ok k → y ∈ k → ∃ x, x ∈ l ∧ f x = Ok y.
Proof.
  intros H Hy. apply mapM_Ok in H. apply list_elem_of_lookup in Hy as [i Hi].
  eapply Forall2_lookup_r in Hi as (x & Hx & ?); [|done]. eauto using list_elem_of_lookup_2.
Qed.

Lemma mapM_elem_l l k x : mapM f l = Ok k → x ∈ l → ∃ y, y ∈ k ∧ f x = Ok y.
Proof.
  intros H Hx. apply mapM_Ok in H. apply list_elem_of_lookup in Hx as [i Hi].
  eapply Forall2_lookup_l in Hi as (y & Hy & ?); [|done]. eauto using list_elem_of_lookup_2.
Qed.
End Mapped.

Lemma len_0 {A} (l : list A) : (len l =? 0) = true ↔ l = [].
Proof. rewrite Z.eqb_eq. split; [apply len_0_nil|by intros ->]. Qed.

Lemma nil_ext {A} (l k : list A) : (∀ x, x ∈ l ↔ x ∈ k) → l = [] ↔ k = [].
Proof. intros H. destruct l, k; set_solver. Qed.

(** The traffic a Routing Key describes, read off the key as it is given. *)
Definition selects (g : RoutingKeyGroup) (opc dpc si : Z) : Prop :=
  g_DestinationPointCode g = dpc ∧
  (g_ServiceIndicators g = [] ∨ si ∈ g_ServiceIndicators g) ∧
  (g_OriginatingPointCodes g = [] ∨ ∃ r, r ∈ g_OriginatingPointCodes g ∧ covers r opc).

Definition describes (key : RoutingKey) (na : Z) (naSet : bool) (opc dpc si : Z) : Prop :=
  (naSet = true → rk_NetworkAppearanceSet key = true → rk_NetworkAppearance key = na) ∧
  ∃ g, g ∈ rk_Groups key ∧ selects g opc dpc si.

Definition wf_group (g : RoutingKeyGroup) : Prop :=
  0 ≤ g_DestinationPointCode g ∧ (∀ si, si ∈ g_ServiceIndicators g → is_u8 si) ∧
  (∀ r, r ∈ g_OriginatingPointCodes g → wf_range r).

Definition wf_key (key : RoutingKey) : Prop :=
  (rk_NetworkAppearanceSet key = true → is_u32 (rk_NetworkAppearance key)) ∧
  ∀ g, g ∈ rk_Groups key → wf_group g.

Lemma setContains_spec values v : setContains values v = true ↔ values = [] ∨ v ∈ values.
Proof.
  unfold setContains. rewrite orb_true_iff, len_0, existsb_exists.
  apply or_iff_compat_l. setoid_rewrite Z.eqb_eq. setoid_rewrite <-list_elem_of_In.
  split; [by intros (x & Hx & ->)|eauto].
Qed.

Lemma contain_spec ranges pc :
  pointCodeRangesContain ranges pc = true ↔
  ranges = [] ∨ ∃ r, r ∈ ranges ∧ inRange pc r = true.
Proof.
  unfold pointCodeRangesContain. rewrite <-len_0. destruct (len ranges =? 0) eqn:H; [tauto|].
  rewrite existsb_exists. setoid_rewrite <-list_elem_of_In. intuition congruence.
Qed.

(** A canonical group lists the same indicators and ranges as its group. *)
Lemma canonicalGroup_Ok g cg : canonicalGroup g = Ok cg →
  0 ≤ g_DestinationPointCode g → ∃ ranges,
  mapM canonicalRange (g_OriginatingPointCodes g) = Ok ranges ∧
  cg = mkCanonicalGroup (g_DestinationPointCode g)
         (Compact (sort_by compareZ (g_ServiceIndicators g)))
         (Compact (sort_by compareRanges ranges)) ∧
  g_DestinationPointCode g < 2 ^ 24 ∧ 0 ∉ g_ServiceIndicators g.
Proof.
  unfold canonicalGroup. intros H Hd.
  destruct (Z.ltb_spec 0x00ffffff (g_DestinationPointCode g)); [done|].
  destruct (existsb _ _) eqn:Hz; [done|]. inv_ok H.
  eexists. split_and!; [done..|lia|]. intros Hin.
  apply (f_equal negb), negb_true_iff in Hz. rewrite <-not_true_iff_false in Hz. destruct Hz.
  apply existsb_exists. exists 0. split; [|done]. apply list_elem_of_In.
  by rewrite (elem_of_Compact_sort compareZ).
Qed.

Lemma matchesGroup_selects g cg opc dpc si :
  wf_group g → canonicalGroup g = Ok cg → 0 ≤ opc < 2 ^ 24 →
  matchesGroup opc dpc si cg = true ↔ selects g opc dpc si.
Proof.
  intros (Hd & Hs & Hr) Hg Hopc. destruct (canonicalGroup_Ok _ _ Hg Hd) as (rs & Hrs & -> & _).
  unfold matchesGroup, selects. cbn [cg_destinationPointCode cg_serviceIndicators cg_originatingPointCodes].
  rewrite !andb_true_iff, Z.eqb_eq, setContains_spec, contain_spec, Logic.and_assoc.
  setoid_rewrite (elem_of_Compact_sort compareZ). setoid_rewrite (elem_of_Compact_sort compareRanges).
  rewrite (nil_ext (Compact _) (g_ServiceIndicators g)) by (intros; apply (elem_of_Compact_sort compareZ)).
  rewrite (nil_ext (Compact _) rs) by (intros; apply (elem_of_Compact_sort compareRanges)).
  apply and_iff_compat_l, and_iff_compat_l. apply mapM_Ok in Hrs as Hf.
  assert (rs = [] ↔ g_OriginatingPointCodes g = []) as ->.
  { apply Forall2_length in Hf. split; intros He; rewrite He in Hf; cbn in Hf;
      [by apply length_zero_iff_nil|by apply length_zero_iff_nil; lia]. }
  apply or_iff_compat_l. split.
  - intros (cr & Hin & Hc). destruct (mapM_elem_r _ _ _ _ Hrs Hin) as (r & Hr' & Hok).
    exists r. split; [done|]. by apply (inRange_covers r cr); auto.
  - intros (r & Hin & Hc). destruct (mapM_elem_l _ _ _ _ Hrs Hin) as (cr & Hr' & Hok).
    exists cr. split; [done|]. by apply (inRange_covers r cr); auto.
Qed.

Lemma canonicalizeRoutingKey_Ok key ck : canonicalizeRoutingKey key = Ok ck → ∃ groups,
  mapM canonicalGroup (rk_Groups key) = Ok groups ∧
  ck = mkCanonical (if rk_NetworkAppearanceSet key then rk_NetworkAppearance key else 0)
         (rk_NetworkAppearanceSet key)
         (Compact (sort_by compareCanonicalRoutingKeyGroup groups)) ∧
  rk_Groups key ≠ [] ∧
  (rk_TrafficModeSet key = true → validTrafficMode (rk_TrafficMode key) = true).
Proof.
  unfold canonicalizeRoutingKey. intros H. destruct (_ && negb _) eqn:Hm; [done|].
  destruct (len (rk_Groups key) =? 0) eqn:Hn; [done|]. inv_ok H.
  eexists. split_and!; [done..| |].
  - intros He%len_0. congruence.
  - intros Hs. rewrite Hs in Hm. by apply negb_false_iff in Hm.
Qed.

Lemma land_24 x : Z.land x 0x00ffffff = x mod 2 ^ 24.
Proof. exact (Z.land_ones x 24 ltac:(lia)). Qed.

(** A canonical key has the selectors of its Routing Key. *)
Lemma matchesTraffic_describes key ck na naSet opc dpc si :
  wf_key key → canonicalizeRoutingKey key = Ok ck →
  matchesTraffic ck na naSet opc dpc si = true ↔
  describes key na naSet (opc mod 2 ^ 24) (dpc mod 2 ^ 24) si.
Proof.
  intros [Hna Hwf] Hck. destruct (canonicalizeRoutingKey_Ok _ _ Hck) as (gs & Hgs & -> & _ & _).
  unfold matchesTraffic, describes. cbn [ck_networkAppearanceSet ck_networkAppearance ck_groups].
  rewrite !land_24.
  assert (Hopc : 0 ≤ opc mod 2 ^ 24 < 2 ^ 24) by (apply Z.mod_pos_bound; lia).
  assert (existsb (matchesGroup (opc mod 2 ^ 24) (dpc mod 2 ^ 24) si)
            (Compact (sort_by compareCanonicalRoutingKeyGroup gs)) = true ↔
          ∃ g, g ∈ rk_Groups key ∧ selects g (opc mod 2 ^ 24) (dpc mod 2 ^ 24) si) as <-.
  { rewrite existsb_exists. setoid_rewrite <-list_elem_of_In.
    setoid_rewrite (elem_of_Compact_sort compareCanonicalRoutingKeyGroup). split.
    - intros (cg & Hin & Hm). destruct (mapM_elem_r _ _ _ _ Hgs Hin) as (g & Hg & Hok).
      exists g. split; [done|]. by apply (matchesGroup_selects g cg); auto.
    - intros (g & Hin & Hm). destruct (mapM_elem_l _ _ _ _ Hgs Hin) as (cg & Hg & Hok).
      exists cg. split; [done|]. by apply (matchesGroup_selects g cg); auto. }
  destruct naSet; cbn [andb]; [|intuition congruence].
  destruct (rk_NetworkAppearanceSet key); cbn [andb]; [|intuition congruence].
  destruct (Z.eqb_spec (rk_NetworkAppearance key) na); cbn [negb]; intuition congruence.
Qed.

(** ** Canonical form *)

(** Two Routing Keys with the same selectors: each group of one is a group of
    the other up to the order and the repetitions of its indicators and ranges. *)
Definition same_group (g h : RoutingKeyGroup) : Prop :=
  g_DestinationPointCode g = g_DestinationPointCode h ∧
  (∀ si, si ∈ g_ServiceIndicators g ↔ si ∈ g_ServiceIndicators h) ∧
  (∀ r, r ∈ g_OriginatingPointCodes g ↔ r ∈ g_OriginatingPointCodes h).

Definition same_selectors (k l : RoutingKey) : Prop :=
  rk_NetworkAppearanceSet k = rk_NetworkAppearanceSet l ∧
  (rk_NetworkAppearanceSet k = true → rk_NetworkAppearance k = rk_NetworkAppearance l) ∧
  (∀ g, g ∈ rk_Groups k → ∃ h, h ∈ rk_Groups l ∧ same_group g h) ∧
  (∀ h, h ∈ rk_Groups l → ∃ g, g ∈ rk_Groups k ∧ same_group g h).

#[export] Instance same_group_equivalence : Equivalence same_group.
Proof.
  split.
  - done.
  - intros g h (Hd & Hs & Hr). unfold same_group. split_and!; [done|intros si|intros r]; symmetry; auto.
  - intros g h i (Hd & Hs & Hr) (Hd' & Hs' & Hr'). unfold same_group.
    split_and!; [congruence|intros si|intros r]; [by rewrite Hs|by rewrite Hr].
Qed.

#[export] Instance same_selectors_equivalence : Equivalence same_selectors.
Proof.
  split.
  - intros k. unfold same_selectors. split_and!; [done..| |]; intros g Hg; exists g; by split.
  - intros k l (Hs & Hna & Hkl & Hlk). unfold same_selectors. split_and!.
    + done.
    + intros Hl. symmetry. apply Hna. congruence.
    + intros g Hg. destruct (Hlk g Hg) as (h & Hh & ?). exists h. by split.
    + intros g Hg. destruct (Hkl g Hg) as (h & Hh & ?). exists h. by split.
  - intros k l m (Hs & Hna & Hkl & Hlk) (Hs' & Hna' & Hlm & Hml). unfold same_selectors. split_and!.
    + congruence.
    + intros Hk. rewrite Hna by done. apply Hna'. congruence.
    + intros g Hg. destruct (Hkl g Hg) as (h & Hh & ?). destruct (Hlm h Hh) as (i & Hi & ?).
      exists i. split; [done|by etrans].
    + intros i Hi. destruct (Hml i Hi) as (h & Hh & ?). destruct (Hlk h Hh) as (g & Hg & ?).
      exists g. split; [done|by etrans].
Qed.

(** [mapM] succeeds on the elements alone, and yields the same elements. *)
Lemma mapM_ext_Ok {E A B} (f : A → result E B) l l' k :
  mapM f l = Ok k → (∀ x, x ∈ l' → ∃ y, y ∈ l ∧ ∀ z, f y = Ok z → f x = Ok z) →
  ∃ k', mapM f l' = Ok k' ∧ ∀ y, y ∈ k' → y ∈ k.
Proof.
  intros Hk. induction l' as [|x l' IH]; intros Hl'.
  - exists []. split; [done|]. intros y Hy. by apply not_elem_of_nil in Hy.
  - destruct IH as (k' & Hk' & Hsub); [set_solver|].
    destruct (Hl' x) as (y & Hy & Hxy); [set_solver|].
    destruct (mapM_elem_l _ _ _ _ Hk Hy) as (z & Hz & Hfz).
    exists (z :: k'). split; [|set_solver]. apply mapM_Ok_cons. eauto 6.
Qed.

Lemma mapM_same {E A B} (f : A → result E B) l l' k :
  mapM f l = Ok k →
  (∀ x, x ∈ l → ∃ y, y ∈ l' ∧ ∀ z, f y = Ok z → f x = Ok z) →
  (∀ x, x ∈ l' → ∃ y, y ∈ l ∧ ∀ z, f y = Ok z → f x = Ok z) →
  ∃ k', mapM f l' = Ok k' ∧ ∀ y, y ∈ k' ↔ y ∈ k.
Proof.
  intros Hk Hll Hll'. destruct (mapM_ext_Ok f l l' k Hk Hll') as (k' & Hk' & H1).
  destruct (mapM_ext_Ok f l' l k' Hk' Hll) as (k'' & Hk'' & H2).
  exists k'. split; [done|]. assert (k'' = k) as -> by congruence.
  intros y. split; [apply H1|apply H2].
Qed.

Lemma canonicalGroup_same g h cg :
  same_group g h → canonicalGroup g = Ok cg → canonicalGroup h = Ok cg.
Proof.
  intros (Hd & Hs & Hr). unfold canonicalGroup. rewrite <-Hd.
  case_match; [done|]. rewrite (Compact_sort_ext compareZ _ _ Hs). case_match; [done|].
  intros H'. inv_ok H'. destruct (mapM_same _ _ (g_OriginatingPointCodes h) _ Ha) as (rs & -> & Hrs);
    [intros x ?%Hr; eauto..|]. cbn.
  by rewrite (Compact_sort_ext compareRanges rs a Hrs).
Qed.


(** Keys with the same selectors have the same canonical form. *)
Lemma canonicalize_same k l ck :
  same_selectors k l → (rk_TrafficModeSet l = true → validTrafficMode (rk_TrafficMode l) = true) →
  canonicalizeRoutingKey k = Ok ck → canonicalizeRoutingKey l = Ok ck.
Proof.
  intros (Hs & Hna & Hkl & Hlk) Htm Hk.
  destruct (canonicalizeRoutingKey_Ok _ _ Hk) as (gs & Hgs & -> & Hne & _).
  unfold canonicalizeRoutingKey.
  assert (rk_TrafficModeSet l && negb (validTrafficMode (rk_TrafficMode l)) = false) as ->.
  { destruct (rk_TrafficModeSet l); [by rewrite Htm|done]. }
  destruct (len (rk_Groups l) =? 0) eqn:Hl.
  { apply len_0 in Hl. destruct (rk_Groups k) as [|g gs']; [done|].
    destruct (Hkl g ltac:(set_solver)) as (? & Hin & _). rewrite Hl in Hin. set_solver. }
  destruct (mapM_same _ _ (rk_Groups l) _ Hgs) as (gs' & -> & Hsame).
  - intros g Hg. destruct (Hkl g Hg) as (h & ? & ?). exists h. split; [done|].
    intros z. by apply canonicalGroup_same.
  - intros h Hh. destruct (Hlk h Hh) as (g & ? & ?). exists g. split; [done|].
    intros z. by apply canonicalGroup_same.
  - cbn. rewrite (Compact_sort_ext compareCanonicalRoutingKeyGroup gs' gs) by done.
    rewrite <-Hs. destruct (rk_NetworkAppearanceSet k); [by rewrite Hna|done].
Qed.

(** ** Overlap *)

(** The merge loop finds a common element of two sorted slices. *)
Lemma mergeOverlap_spec fuel l k :
  StronglySorted (before compareZ) l → StronglySorted (before compareZ) k →
  (length l + length k ≤ fuel)%nat →
  mergeOverlap fuel l k = true ↔ ∃ x, x ∈ l ∧ x ∈ k.
Proof.
  revert l k. induction fuel as [|fuel IH]; intros l k Hl Hk Hf.
  { destruct l; [|cbn in Hf; lia]. cbn. set_solver. }
  cbn. destruct l as [|x l]; [set_solver|]. destruct k as [|y k]; [set_solver|].
  apply StronglySorted_cons in Hl as Hl'. apply StronglySorted_cons in Hk as Hk'.
  destruct Hl' as [Hxl Hl'], Hk' as [Hyk Hk']. rewrite Forall_forall in Hxl, Hyk.
  assert (Hlt : ∀ a b, before compareZ a b ↔ a < b).
  { intros a b. unfold before, compareZ. repeat case_match; to_prop; lia. }
  setoid_rewrite Hlt in Hxl. setoid_rewrite Hlt in Hyk. cbn in Hf.
  destruct (Z.eqb_spec x y) as [->|Hne]; [set_solver|].
  destruct (Z.ltb_spec x y) as [Hxy|Hxy].
  - rewrite IH; [|done..|cbn; lia]. split; [set_solver|].
    intros (z & Hz & Hz'). exists z. split; [|done].
    apply elem_of_cons in Hz as [->|]; [|done].
    apply elem_of_cons in Hz' as [->|Hz']; [lia|]. specialize (Hyk _ Hz'). lia.
  - rewrite IH; [|done..|cbn; lia]. split; [set_solver|].
    intros (z & Hz & Hz'). exists z. split; [done|].
    apply elem_of_cons in Hz' as [->|]; [|done].
    apply elem_of_cons in Hz as [->|Hz]; [lia|]. specialize (Hxl _ Hz). lia.
Qed.

Definition ok_group (g : canonicalRoutingKeyGroup) : Prop :=
  0 ≤ cg_destinationPointCode g < 2 ^ 24 ∧
  StronglySorted (before compareZ) (cg_serviceIndicators g) ∧
  (∀ si, si ∈ cg_serviceIndicators g → 0 < si < 2 ^ 8) ∧
  (∀ r, r ∈ cg_originatingPointCodes g → ok_range r).

(** What canonicalization establishes of a canonical key. *)
Definition ok_key (key : canonicalRoutingKey) : Prop :=
  (ck_networkAppearanceSet key = true → is_u32 (ck_networkAppearance key)) ∧
  ck_groups key ≠ [] ∧ ∀ g, g ∈ ck_groups key → ok_group g.

Lemma canonicalGroup_ok g cg : wf_group g → canonicalGroup g = Ok cg → ok_group cg.
Proof.
  intros (Hd & Hs & Hr) Hg. destruct (canonicalGroup_Ok _ _ Hg Hd) as (rs & Hrs & -> & Hd' & H0).
  unfold ok_group; cbn [cg_destinationPointCode cg_serviceIndicators cg_originatingPointCodes].
  split_and!; [done|done|apply Compact_sorted, sort_by_sorted; apply _|..].
  - intros si Hsi. rewrite (elem_of_Compact_sort compareZ) in Hsi. specialize (Hs _ Hsi).
    unfold is_u8 in Hs. assert (si ≠ 0) by (by intros ->). lia.
  - intros cr Hcr. rewrite (elem_of_Compact_sort compareRanges) in Hcr.
    destruct (mapM_elem_r _ _ _ _ Hrs Hcr) as (r & Hin & Hok). eapply canonicalRange_ok; eauto.
Qed.

Lemma canonicalizeRoutingKey_ok key ck : wf_key key → canonicalizeRoutingKey key = Ok ck → ok_key ck.
Proof.
  intros [Hna Hg] Hck. destruct (canonicalizeRoutingKey_Ok _ _ Hck) as (gs & Hgs & -> & Hne & _).
  unfold ok_key; cbn [ck_networkAppearanceSet ck_networkAppearance ck_groups]. split_and!.
  - intros Hs. rewrite Hs. auto.
  - intros Hnil. apply (nil_ext _ gs) in Hnil.
    + subst gs. apply mapM_Ok, Forall2_nil_inv_r in Hgs. done.
    + intros. apply (elem_of_Compact_sort compareCanonicalRoutingKeyGroup).
  - intros cg Hcg. rewrite (elem_of_Compact_sort compareCanonicalRoutingKeyGroup) in Hcg.
    destruct (mapM_elem_r _ _ _ _ Hgs Hcg) as (g & Hin & Hok). eapply canonicalGroup_ok; eauto.
Qed.

Lemma setsOverlap_spec l k :
  StronglySorted (before compareZ) l → StronglySorted (before compareZ) k →
  (∀ si, si ∈ l → 0 < si < 2 ^ 8) → (∀ si, si ∈ k → 0 < si < 2 ^ 8) →
  setsOverlap l k = true ↔
  ∃ si, 0 < si < 2 ^ 8 ∧ setContains l si = true ∧ setContains k si = true.
Proof.
  intros Hl Hk Hl8 Hk8. unfold setsOverlap. setoid_rewrite setContains_spec.
  destruct (len l =? 0) eqn:Hll; cbn [orb].
  { apply len_0 in Hll as ->. split; [|done]. intros _. destruct k as [|x k].
    - exists 1. split_and!; [lia..| |]; by left.
    - exists x. specialize (Hk8 x). split_and!; [apply Hk8; set_solver..|by left|right; set_solver]. }
  destruct (len k =? 0) eqn:Hkl; cbn [orb].
  { apply len_0 in Hkl as ->. split; [|done]. intros _. destruct l as [|x l]; [done|].
    exists x. specialize (Hl8 x). split_and!; [apply Hl8; set_solver..|right; set_solver|by left]. }
  rewrite mergeOverlap_spec by (done || lia).
  assert (l ≠ []) by (by intros ->). assert (k ≠ []) by (by intros ->). split.
  - intros (x & ? & ?). exists x. split_and!; [by apply Hl8..|by right|by right].
  - intros (x & _ & [?|?] & [?|?]); [done..|]. eauto.
Qed.

Lemma rangesOverlap_spec r q : ok_range r → ok_range q →
  rangesOverlap r q = true ↔ ∃ pc, 0 ≤ pc < 2 ^ 24 ∧ inRange pc r = true ∧ inRange pc q = true.
Proof.
  unfold ok_range, rangesOverlap, inRange.
  destruct (bounds r) as [a b], (bounds q) as [c d]; cbn [fst snd]. intros.
  setoid_rewrite andb_true_iff. setoid_rewrite Z.leb_le. split.
  - intros. exists (Z.max a c). lia.
  - intros (pc & ?). lia.
Qed.

Lemma inRange_exists r : ok_range r → ∃ pc, 0 ≤ pc < 2 ^ 24 ∧ inRange pc r = true.
Proof.
  unfold ok_range, inRange. destruct (bounds r) as [a b]; cbn [fst snd]. intros.
  exists a. rewrite andb_true_iff, !Z.leb_le. lia.
Qed.

Lemma pointCodeRangesOverlap_spec l k :
  (∀ r, r ∈ l → ok_range r) → (∀ r, r ∈ k → ok_range r) →
  pointCodeRangesOverlap l k = true ↔
  ∃ pc, 0 ≤ pc < 2 ^ 24 ∧ pointCodeRangesContain l pc = true ∧ pointCodeRangesContain k pc = true.
Proof.
  intros Hl Hk. unfold pointCodeRangesOverlap. setoid_rewrite contain_spec.
  destruct (len l =? 0) eqn:Hll; cbn [orb].
  { apply len_0 in Hll as ->. split; [|done]. intros _. destruct k as [|r k].
    - exists 0. split_and!; [lia..| |]; by left.
    - destruct (inRange_exists r) as (pc & ? & ?); [apply Hk; set_solver|].
      exists pc. split_and!; [lia..|by left|right; exists r; set_solver]. }
  destruct (len k =? 0) eqn:Hkl; cbn [orb].
  { apply len_0 in Hkl as ->. split; [|done]. intros _. destruct l as [|r l]; [done|].
    destruct (inRange_exists r) as (pc & ? & ?); [apply Hl; set_solver|].
    exists pc. split_and!; [lia..|right; exists r; set_solver|by left]. }
  assert (l ≠ []) by (by intros ->). assert (k ≠ []) by (by intros ->).
  rewrite existsb_exists. setoid_rewrite existsb_exists. setoid_rewrite <-list_elem_of_In. split.
  - intros (r & Hr & q & Hq & Ho). apply rangesOverlap_spec in Ho as (pc & ? & ? & ?); [|auto..].
    exists pc. split_and!; [lia..|right|right]; eauto.
  - intros (pc & ? & [?|(r & Hr & ?)] & [?|(q & Hq & ?)]); [done..|].
    exists r. split; [done|]. exists q. split; [done|]. apply rangesOverlap_spec; eauto.
Qed.

Lemma groupsOverlap_spec g h : ok_group g → ok_group h →
  groupsOverlap g h = true ↔
  ∃ opc dpc si, 0 ≤ opc < 2 ^ 24 ∧ 0 ≤ dpc < 2 ^ 24 ∧ 0 < si < 2 ^ 8 ∧
    matchesGroup opc dpc si g = true ∧ matchesGroup opc dpc si h = true.
Proof.
  intros (Hd & Hs & Hs8 & Hr) (Hd' & Ht & Ht8 & Hq). unfold groupsOverlap, matchesGroup.
  rewrite !andb_true_iff, Z.eqb_eq, setsOverlap_spec, pointCodeRangesOverlap_spec by done.
  setoid_rewrite andb_true_iff. setoid_rewrite andb_true_iff. setoid_rewrite Z.eqb_eq. split.
  - intros ((He & si & ? & ? & ?) & opc & ? & ? & ?).
    exists opc, (cg_destinationPointCode g), si. split_and!; first [done|lia|congruence].
  - intros (opc & dpc & si & ? & ? & ? & ((? & ?) & ?) & ((? & ?) & ?)). split_and!.
    + congruence.
    + exists si. split_and!; first [done|lia].
    + exists opc. split_and!; first [done|lia].
Qed.

Lemma land_24_id x : 0 ≤ x < 2 ^ 24 → Z.land x 0x00ffffff = x.
Proof. intros. rewrite land_24. by apply Z.mod_small. Qed.

Lemma overlaps_spec k l : ok_key k → ok_key l →
  overlaps k l = true ↔
  ∃ na opc dpc si, is_u32 na ∧ 0 ≤ opc < 2 ^ 24 ∧ 0 ≤ dpc < 2 ^ 24 ∧ 0 < si < 2 ^ 8 ∧
    matchesTraffic k na true opc dpc si = true ∧ matchesTraffic l na true opc dpc si = true.
Proof.
  intros (Hnk & _ & Hk) (Hnl & _ & Hl). unfold overlaps, matchesTraffic. cbn [andb].
  set (na := if ck_networkAppearanceSet k then ck_networkAppearance k
             else if ck_networkAppearanceSet l then ck_networkAppearance l else 0).
  assert (Hna : is_u32 na) by (unfold na; repeat case_match; auto; unfold is_u32; lia).
  split.
  - destruct (_ && _ && _) eqn:Hc; [done|]. intros Ho.
    apply existsb_exists in Ho as (g & Hg%list_elem_of_In & Ho).
    apply existsb_exists in Ho as (h & Hh%list_elem_of_In & Ho).
    apply groupsOverlap_spec in Ho as (opc & dpc & si & ? & ? & ? & Hgm & Hhm); [|auto..].
    exists na, opc, dpc, si. rewrite !land_24_id by done. split_and!; [done|lia..| |].
    + assert (ck_networkAppearanceSet k && negb (ck_networkAppearance k =? na) = false) as ->.
      { unfold na. destruct (ck_networkAppearanceSet k); [|done]. cbn. by rewrite Z.eqb_refl. }
      apply existsb_exists. exists g. by rewrite <-list_elem_of_In.
    + assert (ck_networkAppearanceSet l && negb (ck_networkAppearance l =? na) = false) as ->.
      { unfold na. destruct (ck_networkAppearanceSet l), (ck_networkAppearanceSet k);
          [|cbn; by rewrite Z.eqb_refl|done..]. cbn in Hc |- *. by rewrite Z.eqb_sym. }
      apply existsb_exists. exists h. by rewrite <-list_elem_of_In.
  - intros (na' & opc & dpc & si & ? & ? & ? & ? & Hmk & Hml).
    rewrite !land_24_id in Hmk, Hml by done.
    destruct (ck_networkAppearanceSet k && negb (ck_networkAppearance k =? na')) eqn:Hck; [done|].
    destruct (ck_networkAppearanceSet l && negb (ck_networkAppearance l =? na')) eqn:Hcl; [done|].
    assert (ck_networkAppearanceSet k && ck_networkAppearanceSet l &&
              negb (ck_networkAppearance k =? ck_networkAppearance l) = false) as ->.
    { destruct (ck_networkAppearanceSet k), (ck_networkAppearanceSet l); try done.
      cbn in Hck, Hcl |- *. to_prop. subst. rewrite <-Hcl. by rewrite Z.eqb_refl. }
    apply existsb_exists in Hmk as (g & Hg%list_elem_of_In & Hgm).
    apply existsb_exists in Hml as (h & Hh%list_elem_of_In & Hhm).
    apply existsb_exists. exists g. split; [by apply list_elem_of_In|].
    apply existsb_exists. exists h. split; [by apply list_elem_of_In|].
    apply groupsOverlap_spec; [auto..|]. exists opc, dpc, si. split_and!; first [done|lia].
Qed.

Lemma overlaps_sym k l : ok_key k → ok_key l → overlaps k l = overlaps l k.
Proof.
  intros Hk Hl. apply eq_true_iff_eq. rewrite !overlaps_spec by done.
  split; intros (na & opc & dpc & si & ?); exists na, opc, dpc, si; tauto.
Qed.

(** A key overlaps itself: it selects some traffic. *)
Lemma overlaps_self k : ok_key k → overlaps k k = true.
Proof.
  intros Hk. assert (Hk' := Hk). destruct Hk as (Hna & Hne & Hg).
  destruct (ck_groups k) as [|g gs] eqn:He; [done|]. specialize (Hg g ltac:(set_solver)).
  unfold overlaps. rewrite Z.eqb_refl, andb_false_r, He. cbn. apply orb_true_iff; left.
  apply orb_true_iff; left. destruct Hg as (Hd & Hs & Hs8 & Hr).
  unfold groupsOverlap. rewrite Z.eqb_refl. cbn [andb]. apply andb_true_iff. split.
  - apply setsOverlap_spec; [done..|]. destruct (cg_serviceIndicators g) as [|si l] eqn:Hsi.
    + exists 1. rewrite !setContains_spec. split_and!; [lia..|by left|by left].
    + exists si. rewrite !setContains_spec. split_and!; [apply Hs8; set_solver..| |]; right; set_solver.
  - apply pointCodeRangesOverlap_spec; [done..|]. setoid_rewrite contain_spec.
    destruct (cg_originatingPointCodes g) as [|r l] eqn:Hrs.
    + exists 0. split_and!; [lia..|by left|by left].
    + destruct (inRange_exists r) as (pc & ? & ?); [apply Hr; set_solver|].
      exists pc. split_and!; [lia..| |]; right; exists r; set_solver.
Qed.

(** Traffic with a Network Appearance that two keys match makes them overlap. *)
Lemma common_traffic_overlaps k l na opc dpc si : ok_key k → ok_key l →
  is_u32 na → 0 < si < 2 ^ 8 →
  matchesTraffic k na true opc dpc si = true → matchesTraffic l na true opc dpc si = true →
  overlaps k l = true.
Proof.
  intros Hk Hl Hna Hsi Hmk Hml. apply overlaps_spec; [done..|].
  exists na, (opc mod 2 ^ 24), (dpc mod 2 ^ 24), si.
  assert (Hmod : ∀ x, 0 ≤ x mod 2 ^ 24 < 2 ^ 24) by (intros; apply Z.mod_pos_bound; lia).
  assert (Hm : ∀ key, matchesTraffic key na true (opc mod 2 ^ 24) (dpc mod 2 ^ 24) si =
                      matchesTraffic key na true opc dpc si).
  { intros key. unfold matchesTraffic. by rewrite !land_24, !Zmod_mod. }
  rewrite !Hm. pose proof (Hmod opc). pose proof (Hmod dpc). split_and!; first [done|lia].
Qed.

(** ** Properties *)

(** Canonicalizing a Routing Key keeps its meaning: the canonical key
    matches exactly the traffic that the groups of the Routing Key describe,
    where a range stands for the point codes that agree with it above the
    masked bits, an empty list for everything, and an absent Network Appearance
    for any; and every key with the same selectors, in whatever order and with
    whatever repetitions, has the same canonical form. *)
Theorem canonical_key_meaning key ck :
  wf_key key → canonicalizeRoutingKey key = Ok ck →
  (∀ na naSet opc dpc si, matchesTraffic ck na naSet opc dpc si = true ↔
     describes key na naSet (opc mod 2 ^ 24) (dpc mod 2 ^ 24) si) ∧
  (∀ other, same_selectors key other → rk_TrafficModeSet other = false →
     canonicalizeRoutingKey other = Ok ck).
Proof.
  intros Hwf Hck. split.
  - intros. by apply matchesTraffic_describes.
  - intros other Hs Ht. eapply canonicalize_same; [done| |done]. congruence.
Qed.

(** C8: Two canonical keys overlap exactly when some traffic of some Network
    Appearance is described by both Routing Keys. *)
Theorem overlap_is_common_traffic key1 key2 ck1 ck2 :
  wf_key key1 → wf_key key2 →
  canonicalizeRoutingKey key1 = Ok ck1 → canonicalizeRoutingKey key2 = Ok ck2 →
  overlaps ck1 ck2 = true ↔
  ∃ na opc dpc si, is_u32 na ∧ 0 ≤ opc < 2 ^ 24 ∧ 0 ≤ dpc < 2 ^ 24 ∧ 0 < si < 2 ^ 8 ∧
    describes key1 na true opc dpc si ∧ describes key2 na true opc dpc si.
Proof.
  intros Hwf1 Hwf2 H1 H2. rewrite overlaps_spec by eauto using canonicalizeRoutingKey_ok.
  assert (Hd : ∀ key ck na opc dpc si, wf_key key → canonicalizeRoutingKey key = Ok ck →
    0 ≤ opc < 2 ^ 24 → 0 ≤ dpc < 2 ^ 24 →
    matchesTraffic ck na true opc dpc si = true ↔ describes key na true opc dpc si).
  { intros. rewrite matchesTraffic_describes by done. by rewrite !Z.mod_small. }
  split; intros (na & opc & dpc & si & ? & ? & ? & ? & Hm1 & Hm2); exists na, opc, dpc, si;
    (split_and!; [done|lia..| |]).
  - by apply (Hd key1 ck1).
  - by apply (Hd key2 ck2).
  - by apply (Hd key1 ck1).
  - by apply (Hd key2 ck2).
Qed.

(** ** Witnesses *)

Module Concrete.
(** Destination 5, SCCP and ISUP, the originating codes 0x1000 to 0x10ff and
    0x2000; then the same selectors written otherwise, and a disjoint key. *)
Definition selector : RoutingKey :=
  mkRK 7 true 0 false [mkRKGroup 5 [5; 3] [mkRange 0x2000 0; mkRange 0x1010 8]].
Definition rewritten : RoutingKey :=
  mkRK 7 true 0 false
    [mkRKGroup 5 [3; 5; 3] [mkRange 0x1010 8; mkRange 0x2000 0; mkRange 0x1010 8];
     mkRKGroup 5 [5; 3] [mkRange 0x2000 0; mkRange 0x1010 8]].
Definition neighbour : RoutingKey :=
  mkRK 7 true 0 false [mkRKGroup 5 [3] [mkRange 0x10ab 0]].
Definition selector_canonical : canonicalRoutingKey :=
  mkCanonical 7 true
    [mkCanonicalGroup 5 [3; 5] [mkCanonicalRange 0x1000 8; mkCanonicalRange 0x2000 0]].
Definition neighbour_canonical : canonicalRoutingKey :=
  mkCanonical 7 true [mkCanonicalGroup 5 [3] [mkCanonicalRange 0x10ab 0]].

Lemma selector_wf : wf_key selector.
Proof.
  split; [unfold is_u32; cbn; lia|]. intros g Hg. cbn in Hg.
  apply list_elem_of_singleton in Hg as ->. unfold wf_group, wf_range, is_u8; cbn.
  split_and!; [lia|set_solver by lia|].
  intros r Hr. assert (r = mkRange 0x2000 0 ∨ r = mkRange 0x1010 8) as [->| ->] by set_solver; cbn; lia.
Qed.

Lemma neighbour_wf : wf_key neighbour.
Proof.
  split; [unfold is_u32; cbn; lia|]. intros g Hg. cbn in Hg.
  apply list_elem_of_singleton in Hg as ->. unfold wf_group, wf_range, is_u8; cbn.
  split_and!; [lia|set_solver by lia|].
  intros r Hr%list_elem_of_singleton. subst r. cbn. lia.
Qed.

Lemma selector_canonical_eq : canonicalizeRoutingKey selector = Ok selector_canonical.
Proof. vm_compute. reflexivity. Qed.

Lemma neighbour_canonical_eq : canonicalizeRoutingKey neighbour = Ok neighbour_canonical.
Proof. vm_compute. reflexivity. Qed.

Lemma rewritten_same : same_selectors selector rewritten.
Proof.
  assert (H : same_group (mkRKGroup 5 [5; 3] [mkRange 0x2000 0; mkRange 0x1010 8])
                (mkRKGroup 5 [3; 5; 3] [mkRange 0x1010 8; mkRange 0x2000 0; mkRange 0x1010 8])).
  { unfold same_group; cbn. split_and!; [done|set_solver..]. }
  unfold same_selectors. split_and!; [done..| |]; cbn; intros g Hg.
  - apply list_elem_of_singleton in Hg as ->. eexists. split; [|exact H]. set_solver.
  - eexists. split; [by apply list_elem_of_singleton|].
    apply elem_of_cons in Hg as [->|Hg]; [exact H|].
    apply list_elem_of_singleton in Hg as ->. done.
Qed.

Lemma selector_overlap : overlaps selector_canonical neighbour_canonical = true.
Proof. vm_compute. reflexivity. Qed.

Lemma canonical_key_meaning_witness :
  canonicalizeRoutingKey rewritten = Ok selector_canonical.
Proof.
  apply (canonical_key_meaning selector selector_canonical selector_wf selector_canonical_eq).
  - apply rewritten_same.
  - reflexivity.
Defined.

Lemma overlap_is_common_traffic_witness :
  ∃ na opc dpc si, is_u32 na ∧ 0 ≤ opc < 2 ^ 24 ∧ 0 ≤ dpc < 2 ^ 24 ∧ 0 < si < 2 ^ 8 ∧
    describes selector na true opc dpc si ∧ describes neighbour na true opc dpc si.
Proof.
  apply (overlap_is_common_traffic selector neighbour selector_canonical neighbour_canonical
           selector_wf neighbour_wf selector_canonical_eq neighbour_canonical_eq).
  apply selector_overlap.
Defined.
End Concrete.
