(* ===== verification/MapSum.v ===== *)
(** * Sums over finite maps

    [map_sum f m] adds [f k v] over the entries of [m]: the totals that the
    stores of the program keep in counters are stated with it. *)

From S2P Require Import Prelude.

Section map_sum.
Context {K : Type} `{Countable K} {A : Type}.
Implicit Types (f g : K → A → Z) (m : gmap K A).

Definition map_sum f m : Z := map_fold (λ k v n, f k v + n) 0 m.

Lemma map_sum_empty f : map_sum f ∅ = 0.
Proof. apply map_fold_empty. Qed.

Lemma map_sum_insert f m k v :
  m !! k = None → map_sum f (<[k:=v]> m) = f k v + map_sum f m.
Proof.
  intros Hk. unfold map_sum. rewrite map_fold_insert_L; [done|intros; lia|done].
Qed.

Lemma map_sum_delete f m k v :
  m !! k = Some v → map_sum f m = f k v + map_sum f (delete k m).
Proof.
  intros Hk. unfold map_sum. rewrite (map_fold_delete_L _ _ k v m); [done|intros; lia|done].
Qed.

(** Overwriting an entry. *)
Lemma map_sum_update f m k v w :
  m !! k = Some v → map_sum f (<[k:=w]> m) = map_sum f m - f k v + f k w.
Proof.
  intros Hk. rewrite <-insert_delete_eq, map_sum_insert by apply lookup_delete_eq.
  rewrite (map_sum_delete f m k v Hk). lia.
Qed.

Lemma map_sum_ext f g m :
  (∀ k v, m !! k = Some v → f k v = g k v) → map_sum f m = map_sum g m.
Proof.
  induction m as [|k v m Hk IH] using map_ind; intros Hfg.
  { by rewrite !map_sum_empty. }
  rewrite !map_sum_insert by done. rewrite Hfg by by rewrite lookup_insert_eq.
  f_equal. apply IH. intros k' v' Hk'. apply Hfg.
  rewrite lookup_insert_ne; [done|]. intros <-. congruence.
Qed.

Lemma map_sum_nonneg f m :
  (∀ k v, m !! k = Some v → 0 ≤ f k v) → 0 ≤ map_sum f m.
Proof.
  induction m as [|k v m Hk IH] using map_ind; intros Hf.
  { by rewrite map_sum_empty. }
  rewrite map_sum_insert by done.
  pose proof (Hf k v ltac:(by rewrite lookup_insert_eq)).
  assert (0 ≤ map_sum f m); [|lia]. apply IH. intros k' v' Hk'. apply Hf.
  rewrite lookup_insert_ne; [done|]. intros <-. congruence.
Qed.

Lemma map_sum_zero f m :
  (∀ k v, m !! k = Some v → f k v = 0) → map_sum f m = 0.
Proof.
  intros Hf. rewrite (map_sum_ext f (λ _ _, 0)) by done. unfold map_sum.
  induction m as [|k v m Hk IH] using map_ind; [by rewrite map_fold_empty|].
  rewrite map_fold_insert_L by (try done; intros; lia). rewrite IH; [done|].
  intros k' v' Hk'. apply (Hf k' v'). rewrite lookup_insert_ne; [done|].
  intros <-. congruence.
Qed.

(** One entry is at most the sum. *)
Lemma map_sum_entry f m k v :
  (∀ k v, m !! k = Some v → 0 ≤ f k v) → m !! k = Some v → f k v ≤ map_sum f m.
Proof.
  intros Hf Hk. rewrite (map_sum_delete f m k v Hk).
  assert (0 ≤ map_sum f (delete k m)); [|lia].
  apply map_sum_nonneg. intros k' v' Hk'. apply lookup_delete_Some in Hk' as [_ Hk'].
  by apply Hf.
Qed.

Lemma map_sum_size c m : map_sum (λ _ _, c) m = c * Z.of_nat (size m).
Proof.
  induction m as [|k v m Hk IH] using map_ind.
  { by rewrite map_sum_empty, map_size_empty, Z.mul_0_r. }
  rewrite map_sum_insert, map_size_insert_None, IH by done. lia.
Qed.

Lemma map_sum_le f g m :
  (∀ k v, m !! k = Some v → f k v ≤ g k v) → map_sum f m ≤ map_sum g m.
Proof.
  induction m as [|k v m Hk IH] using map_ind; intros Hfg.
  { by rewrite !map_sum_empty. }
  rewrite !map_sum_insert by done. pose proof (Hfg k v ltac:(by rewrite lookup_insert_eq)).
  assert (map_sum f m ≤ map_sum g m); [|lia]. apply IH. intros k' v' Hk'. apply Hfg.
  rewrite lookup_insert_ne; [done|]. intros <-. congruence.
Qed.
End map_sum.
