(* ===== verification/Ssnm.v ===== *)
(** * The SSNM state store (ssnm_state.go)

    The Endpoint's bounded store of what peers reported about destinations:
    its configuration, partitions, records and accounting, the operations that
    change it and the events they publish, and the subscriptions that queue
    those events (ssnm_subscription.go).

    Every operation runs under the store's mutex and is a function from the
    state to the state and the error it returns.  A subscription is an object
    of [subscriptions], named by its position in the order of allocation;
    [subscribers] holds the registered ones.  Counters are unbounded integers:
    the code's 64-bit counters advance by one per operation.  The storage the
    code reuses between queues is not modelled. *)

From stdpp Require Import pretty sorting.
From S2P Require Import Prelude MapSum RoutingKey.
#[local] Open Scope Z_scope.

(** ** Constants *)

Definition DefaultMaxSSNMStateStoreRecords : Z := 16384.
Definition DefaultMaxSSNMStateStoreBytes : Z := Z.shiftl 4 20.
Definition DefaultMaxSSNMPartitionRecords : Z := 2048.
Definition DefaultMaxSSNMPeerRecords : Z := 8192.
Definition DefaultMaxSSNMPartitions : Z := 256.
Definition DefaultMaxSSNMSubscribers : Z := 16.
Definition DefaultSSNMSubscriptionQueueSize : Z := 256.
Definition DefaultSSNMSubscriptionQueueBytes : Z := Z.shiftl 1 20.
Definition DefaultMaxAffectedPointCodesPerSSNM : Z := 1024.

Definition ssnmRecordBaseBytes : Z := 96.
Definition ssnmPartitionBaseBytes : Z := 256.
Definition ssnmRoutingContextBytes : Z := 4.
Definition ssnmMinimumRecordBytes : Z := ssnmRecordBaseBytes.
Definition ssnmResourceReasonLength : nat := 160.

Definition ssnmEventBaseBytes : Z := 512.
Definition ssnmEventDestinationBytes : Z := 8.
Definition ssnmEventStateBytes : Z := 256.

(** ** Configuration *)

Inductive ssnm_error : Set :=
| ErrInvalidSSNMStateConfig
| ErrSSNMStateLimit
| ErrSSNMOversizedReport
| ErrEndpointClosed
| ErrSSNMSubscriptionClosed
| ErrSSNMSubscriberLimit.

Record SSNMStateConfig : Set := mkConfig {
  MaxRecords : Z;
  MaxBytes : Z;
  MaxRecordsPerPartition : Z;
  MaxRecordsPerPeer : Z;
  MaxPartitions : Z;
  MaxSubscribers : Z;
  SubscriptionQueueSize : Z;
  SubscriptionQueueBytes : Z;
  MaxAffectedPointCodes : Z;
}.

Definition config_fields (c : SSNMStateConfig) : list Z :=
  [MaxRecords c; MaxBytes c; MaxRecordsPerPartition c; MaxRecordsPerPeer c;
   MaxPartitions c; MaxSubscribers c; SubscriptionQueueSize c;
   SubscriptionQueueBytes c; MaxAffectedPointCodes c].

Definition fill (value default : Z) : Z := if value =? 0 then default else value.

Definition resolveSSNMStateConfig (config : option SSNMStateConfig)
    : result ssnm_error SSNMStateConfig :=
  let resolved := default (mkConfig 0 0 0 0 0 0 0 0 0) config in
  if existsb (λ v, v <? 0) (config_fields resolved) then Err ErrInvalidSSNMStateConfig else
  let explicitPeerRecords := negb (MaxRecordsPerPeer resolved =? 0) in
  let explicitPartitionRecords := negb (MaxRecordsPerPartition resolved =? 0) in
  let maxRecords := fill (MaxRecords resolved) DefaultMaxSSNMStateStoreRecords in
  let maxBytes := fill (MaxBytes resolved) DefaultMaxSSNMStateStoreBytes in
  let perPartition := fill (MaxRecordsPerPartition resolved) DefaultMaxSSNMPartitionRecords in
  let perPeer := fill (MaxRecordsPerPeer resolved) DefaultMaxSSNMPeerRecords in
  let maxPartitions := fill (MaxPartitions resolved) DefaultMaxSSNMPartitions in
  let maxSubscribers := fill (MaxSubscribers resolved) DefaultMaxSSNMSubscribers in
  let queueSize := fill (SubscriptionQueueSize resolved) DefaultSSNMSubscriptionQueueSize in
  let queueBytes := fill (SubscriptionQueueBytes resolved) DefaultSSNMSubscriptionQueueBytes in
  let maxCodes := fill (MaxAffectedPointCodes resolved) DefaultMaxAffectedPointCodesPerSSNM in
  let perPeer := if negb explicitPeerRecords && (maxRecords <? perPeer)
                 then maxRecords else perPeer in
  let perPartition := if negb explicitPartitionRecords && (perPeer <? perPartition)
                      then perPeer else perPartition in
  if maxRecords <? perPeer then Err ErrInvalidSSNMStateConfig else
  if perPeer <? perPartition then Err ErrInvalidSSNMStateConfig else
  if maxBytes <? ssnmPartitionBaseBytes + ssnmMinimumRecordBytes
  then Err ErrInvalidSSNMStateConfig else
  if queueBytes <? ssnmEventBaseBytes then Err ErrInvalidSSNMStateConfig else
  Ok (mkConfig maxRecords maxBytes perPartition perPeer maxPartitions maxSubscribers
        queueSize queueBytes maxCodes).

(** ** Partitions and reports *)

Definition SSNMCanonicalPartition : Z := 1.
Definition SSNMStandalonePartition : Z := 2.

Record SSNMPartition : Set := mkPartition {
  Kind : Z;
  SignallingGateway : string;
  ApplicationServer : string;
  Association : Z;
}.

#[export] Instance SSNMPartition_eq_dec : EqDecision SSNMPartition.
Proof. solve_decision. Defined.
#[export] Instance SSNMPartition_countable : Countable SSNMPartition.
Proof.
  refine (inj_countable' (λ p, (Kind p, SignallingGateway p, ApplicationServer p, Association p))
    (λ '(k, g, a, i), mkPartition k g a i) _).
  by intros [].
Defined.

Record ssnmPeerKey : Set := mkPeer { pk_signallingGateway : string; pk_association : Z }.

#[export] Instance ssnmPeerKey_eq_dec : EqDecision ssnmPeerKey.
Proof. solve_decision. Defined.
#[export] Instance ssnmPeerKey_countable : Countable ssnmPeerKey.
Proof.
  refine (inj_countable' (λ p, (pk_signallingGateway p, pk_association p))
    (λ '(g, i), mkPeer g i) _).
  by intros [].
Defined.

Definition peerKey (p : SSNMPartition) : ssnmPeerKey :=
  if Kind p =? SSNMStandalonePartition then mkPeer "" (Association p)
  else mkPeer (SignallingGateway p) 0.

Definition SSNMDestinationUnavailableReport : Z := 1.
Definition SSNMDestinationAvailableReport : Z := 2.
Definition SSNMDestinationStateAuditReport : Z := 3.
Definition SSNMSignallingCongestionReport : Z := 4.
Definition SSNMDestinationUserPartUnavailableReport : Z := 5.
Definition SSNMDestinationRestrictedReport : Z := 6.

Definition DestinationAvailable : Z := 0.
Definition DestinationUnavailable : Z := 1.
Definition DestinationRestricted : Z := 2.

Record WireScope : Set := mkScope {
  NetworkAppearance : Z;
  NetworkAppearanceSet : bool;
  RoutingContexts : list Z;
  RoutingContextSet : bool;
}.

Record SSNMReport : Set := mkReport {
  r_Kind : Z;
  r_Source : Z;
  r_Scope : WireScope;
  r_Partition : SSNMPartition;
  r_Association : Z;
  r_Epoch : Z;
  r_Revision : Z;
  r_Destinations : list PointCodeRange;
  r_CongestionLevel : Z;
  r_CongestionLevelSet : bool;
  r_PeerReported : bool;
}.

Definition with_Epoch (e : Z) (r : SSNMReport) : SSNMReport :=
  mkReport (r_Kind r) (r_Source r) (r_Scope r) (r_Partition r) (r_Association r) e
    (r_Revision r) (r_Destinations r) (r_CongestionLevel r) (r_CongestionLevelSet r)
    (r_PeerReported r).
Definition with_Revision (v : Z) (r : SSNMReport) : SSNMReport :=
  mkReport (r_Kind r) (r_Source r) (r_Scope r) (r_Partition r) (r_Association r) (r_Epoch r)
    v (r_Destinations r) (r_CongestionLevel r) (r_CongestionLevelSet r) (r_PeerReported r).

Definition retainsAvailability (r : SSNMReport) : bool :=
  (r_Kind r =? SSNMDestinationUnavailableReport) ||
  (r_Kind r =? SSNMDestinationAvailableReport) ||
  (r_Kind r =? SSNMDestinationRestrictedReport).

Definition retainsCongestion (r : SSNMReport) : bool :=
  (r_Kind r =? SSNMSignallingCongestionReport) && negb (r_PeerReported r).

Definition availabilityState (r : SSNMReport) : Z :=
  if r_Kind r =? SSNMDestinationUnavailableReport then DestinationUnavailable
  else if r_Kind r =? SSNMDestinationRestrictedReport then DestinationRestricted
  else DestinationAvailable.

(** ** Records *)

Record SSNMAvailability : Set := mkAvailability {
  a_State : Z;
  a_Kind : Z;
  a_Source : Z;
  a_Scope : WireScope;
  a_Association : Z;
  a_Epoch : Z;
  a_Revision : Z;
}.

Record SSNMCongestion : Set := mkCongestion {
  c_Congested : bool;
  c_Level : Z;
  c_LevelSet : bool;
  c_Source : Z;
  c_Scope : WireScope;
  c_Association : Z;
  c_Epoch : Z;
  c_Revision : Z;
}.

Record ssnmDestinationKey : Set := mkKey { k_pointCode : Z; k_mask : Z }.

#[export] Instance ssnmDestinationKey_eq_dec : EqDecision ssnmDestinationKey.
Proof. solve_decision. Defined.
#[export] Instance ssnmDestinationKey_countable : Countable ssnmDestinationKey.
Proof.
  refine (inj_countable' (λ k, (k_pointCode k, k_mask k)) (λ '(p, m), mkKey p m) _).
  by intros [].
Defined.

Definition effectiveDestinationMask (mask : Z) : Z := if 24 <? mask then 24 else mask.

Definition destinationRangePrefix (pointCode mask : Z) : Z :=
  let pointCode := Z.land pointCode 0xffffff in
  let effectiveMask := effectiveDestinationMask mask in
  if effectiveMask =? 24 then 0
  else Z.land pointCode (u32 (Z.shiftl 0xffffff effectiveMask)).

Definition ssnmDestinationKeyFor (r : PointCodeRange) : ssnmDestinationKey :=
  let mask := effectiveDestinationMask (Mask r) in
  mkKey (destinationRangePrefix (PointCode r) mask) mask.

(** The two dimensions of one destination; [None] where the flag is unset. *)
Record SSNMDestinationKnowledge : Set := mkKnowledge {
  Destination : ssnmDestinationKey;
  Availability : option SSNMAvailability;
  Congestion : option SSNMCongestion;
}.

Record ssnmPartitionState : Set := mkPartitionState {
  partition : SSNMPartition;
  epoch : Z;
  bindings : gmap Z bool;
  availability : gmap ssnmDestinationKey SSNMAvailability;
  congestion : gmap ssnmDestinationKey SSNMCongestion;
  pbytes : Z;
}.

Definition precords (p : ssnmPartitionState) : Z :=
  Z.of_nat (size (availability p)) + Z.of_nat (size (congestion p)).

Definition trafficAuthorized (p : ssnmPartitionState) : bool :=
  existsb (λ '(_, pending), negb pending) (map_to_list (bindings p)).

Definition ssnmScopeBytes (scope : WireScope) : Z :=
  ssnmRecordBaseBytes + ssnmRoutingContextBytes * len (RoutingContexts scope).

Definition retainedKnowledge (p : ssnmPartitionState) (key : ssnmDestinationKey)
    : SSNMDestinationKnowledge :=
  mkKnowledge key (availability p !! key) (congestion p !! key).

(** ** Events *)

Inductive SSNMEventKind : Set :=
| SSNMReportEvent
| SSNMBindingAdmittedEvent
| SSNMBindingActivatedEvent
| SSNMBindingRetiredEvent
| SSNMPartitionRetiredEvent
| SSNMPartitionInvalidatedEvent
| SSNMResourceLossEvent
| SSNMContinuityLostEvent.

Record SSNMBinding : Set := mkBinding { b_Association : Z; b_Pending : bool }.

(** [e_Report] is [None] where [ReportSet] is unset. *)
Record SSNMEvent : Set := mkEvent {
  e_Kind : SSNMEventKind;
  e_Revision : Z;
  e_Partition : SSNMPartition;
  e_Epoch : Z;
  e_Report : option SSNMReport;
  e_Binding : SSNMBinding;
  e_Updated : list SSNMDestinationKnowledge;
  e_Reason : string;
  e_ContinuityLost : bool;
}.

Definition noPartition : SSNMPartition := mkPartition 0 "" "" 0.
Definition noBinding : SSNMBinding := mkBinding 0 false.

(** [remaining] after [reserveSSNMEventBytes], unless it refuses. *)
Definition reserveSSNMEventBytes (remaining count width : Z) : option Z :=
  if (remaining <? 0) || (count <? 0) || (width <=? 0) || (remaining / width <? count)
  then None else Some (remaining - count * width).

Definition string_len (s : string) : Z := Z.of_nat (String.length s).

Fixpoint reserveAll (remaining : Z) (reservations : list (Z * Z)) : option Z :=
  match reservations with
  | [] => Some remaining
  | (count, width) :: reservations =>
      match reserveSSNMEventBytes remaining count width with
      | None => None
      | Some remaining => reserveAll remaining reservations
      end
  end.

Definition scope_contexts (s : WireScope) : Z := len (RoutingContexts s).

(** What one event reserves, in the order of the code. *)
Definition event_reservations (event : SSNMEvent) : list (Z * Z) :=
  let destinations := from_option (λ r, len (r_Destinations r)) 0 (e_Report event) in
  let contexts := from_option (λ r, scope_contexts (r_Scope r)) 0 (e_Report event) in
  let reported := from_option r_Partition noPartition (e_Report event) in
  [(1, ssnmEventBaseBytes); (destinations, ssnmEventDestinationBytes);
   (len (e_Updated event), ssnmEventStateBytes); (contexts, ssnmRoutingContextBytes);
   (string_len (e_Reason event), 1);
   (string_len (SignallingGateway (e_Partition event)), 1);
   (string_len (ApplicationServer (e_Partition event)), 1);
   (string_len (SignallingGateway reported), 1);
   (string_len (ApplicationServer reported), 1)] ++
  (e_Updated event ≫= λ update,
    [(from_option (λ a, scope_contexts (a_Scope a)) 0 (Availability update),
      ssnmRoutingContextBytes);
     (from_option (λ c, scope_contexts (c_Scope c)) 0 (Congestion update),
      ssnmRoutingContextBytes)]).

(** The accounted bytes, or nothing where they do not fit. *)
Definition ssnmEventAccountedBytes (event : SSNMEvent) (limit : Z) : option Z :=
  match reserveAll limit (event_reservations event) with
  | None => None
  | Some remaining => Some (limit - remaining)
  end.

(** ** Subscriptions *)

Module Subscription.

Record SSNMSubscription : Set := mkSubscription {
  queue : list (SSNMEvent * Z);
  queuedBytes : Z;
  s_closed : bool;
  terminal : option ssnm_error;
  continuityLost : bool;
  pendingLoss : bool;
  limit : Z;
  byteLimit : Z;
}.

Definition newSSNMSubscription (limit byteLimit : Z) : SSNMSubscription :=
  mkSubscription [] 0 false None false false limit byteLimit.

Definition enqueue (event : SSNMEvent) (s : SSNMSubscription) : SSNMSubscription :=
  if s_closed s then s else
  if continuityLost s then s else
  let accounted :=
    if len (queue s) <? limit s
    then ssnmEventAccountedBytes event (byteLimit s - queuedBytes s) else None in
  match accounted with
  | None =>
      mkSubscription (queue s) (queuedBytes s) (s_closed s) (terminal s) true true
        (limit s) (byteLimit s)
  | Some accountedBytes =>
      mkSubscription (queue s ++ [(event, accountedBytes)])
        (queuedBytes s + accountedBytes) (s_closed s) (terminal s)
        (continuityLost s) (pendingLoss s) (limit s) (byteLimit s)
  end.

(** [take]: the subscription, and what it delivers, if anything. *)
Definition take (s : SSNMSubscription)
    : SSNMSubscription * option (result ssnm_error SSNMEvent) :=
  match queue s with
  | (event, n) :: queue =>
      (mkSubscription queue (queuedBytes s - n) (s_closed s) (terminal s)
         (continuityLost s) (pendingLoss s) (limit s) (byteLimit s), Some (Ok event))
  | [] =>
      if s_closed s then
        (s, Some (Err (default ErrSSNMSubscriptionClosed (terminal s)))) else
      if pendingLoss s then
        (mkSubscription [] (queuedBytes s) (s_closed s) (terminal s) (continuityLost s)
           false (limit s) (byteLimit s),
         Some (Ok (mkEvent SSNMContinuityLostEvent 0 noPartition 0 None noBinding [] ""
                     true)))
      else (s, None)
  end.

Definition terminate (cause : ssnm_error) (s : SSNMSubscription) : SSNMSubscription :=
  if s_closed s then s else
  mkSubscription (queue s) (queuedBytes s) true (Some cause) (continuityLost s)
    (pendingLoss s) (limit s) (byteLimit s).

End Subscription.

(** ** The store *)

Record ssnmState : Set := mkState {
  limits : SSNMStateConfig;
  partitions : gmap SSNMPartition ssnmPartitionState;
  peerRecords : gmap ssnmPeerKey Z;
  records : Z;
  sbytes : Z;
  revision : Z;
  epochs : Z;
  (** the subscription objects, and those registered with the store *)
  subscriptions : gmap nat Subscription.SSNMSubscription;
  subscribers : gset nat;
  closed : bool;
  recordsRefused : Z;
  reportsRefused : Z;
  partitionsInvalidated : Z;
  lastResourceLoss : string;
}.

Definition newSSNMState (config : option SSNMStateConfig) : result ssnm_error ssnmState :=
  limits ← resolveSSNMStateConfig config;
  Ok (mkState limits ∅ ∅ 0 0 0 0 ∅ ∅ false 0 0 0 "").

(** Updates of single fields. *)
Definition set_partitions (f : gmap SSNMPartition ssnmPartitionState →
    gmap SSNMPartition ssnmPartitionState) (s : ssnmState) : ssnmState :=
  mkState (limits s) (f (partitions s)) (peerRecords s) (records s) (sbytes s) (revision s)
    (epochs s) (subscriptions s) (subscribers s) (closed s) (recordsRefused s)
    (reportsRefused s) (partitionsInvalidated s) (lastResourceLoss s).
Definition set_counts (records sbytes : Z) (peers : gmap ssnmPeerKey Z) (s : ssnmState)
    : ssnmState :=
  mkState (limits s) (partitions s) peers records sbytes (revision s)
    (epochs s) (subscriptions s) (subscribers s) (closed s) (recordsRefused s)
    (reportsRefused s) (partitionsInvalidated s) (lastResourceLoss s).
Definition set_revision (revision epochs : Z) (s : ssnmState) : ssnmState :=
  mkState (limits s) (partitions s) (peerRecords s) (records s) (sbytes s) revision
    epochs (subscriptions s) (subscribers s) (closed s) (recordsRefused s)
    (reportsRefused s) (partitionsInvalidated s) (lastResourceLoss s).
Definition set_subscriptions (subs : gmap nat Subscription.SSNMSubscription) (reg : gset nat)
    (closed : bool) (s : ssnmState) : ssnmState :=
  mkState (limits s) (partitions s) (peerRecords s) (records s) (sbytes s) (revision s)
    (epochs s) subs reg closed (recordsRefused s)
    (reportsRefused s) (partitionsInvalidated s) (lastResourceLoss s).
Definition set_losses (recordsRefused reportsRefused partitionsInvalidated : Z)
    (lastResourceLoss : string) (s : ssnmState) : ssnmState :=
  mkState (limits s) (partitions s) (peerRecords s) (records s) (sbytes s) (revision s)
    (epochs s) (subscriptions s) (subscribers s) (closed s) recordsRefused
    reportsRefused partitionsInvalidated lastResourceLoss.

(** [s.revision++]; the new revision is [revision] of the result. *)
Definition nextRevisionLocked (s : ssnmState) : ssnmState :=
  set_revision (revision s + 1) (epochs s) s.

Definition publishLocked (event : SSNMEvent) (s : ssnmState) : ssnmState :=
  set_subscriptions
    (map_imap (λ i sub, Some (if decide (i ∈ subscribers s)
                              then Subscription.enqueue event sub else sub))
       (subscriptions s))
    (subscribers s) (closed s) s.

Definition setPartition (st : ssnmPartitionState) (s : ssnmState) : ssnmState :=
  set_partitions (<[partition st := st]>) s.

(** [s.peerRecords[peer]]. *)
Definition peerCount (peer : ssnmPeerKey) (s : ssnmState) : Z :=
  default 0 (peerRecords s !! peer).

(** ** Orders *)

(** [lessSSNMPartition], the order partitions are visited in. *)
Definition lessSSNMPartition (first second : SSNMPartition) : bool :=
  if negb (Kind first =? Kind second) then Kind first <? Kind second else
  if negb (bool_decide (SignallingGateway first = SignallingGateway second))
  then String.ltb (SignallingGateway first) (SignallingGateway second) else
  if negb (bool_decide (ApplicationServer first = ApplicationServer second))
  then String.ltb (ApplicationServer first) (ApplicationServer second) else
  Association first <? Association second.

Definition partition_le (p q : SSNMPartition) : Prop := lessSSNMPartition q p = false.
#[export] Instance partition_le_dec : RelDecision partition_le :=
  λ p q, decide (lessSSNMPartition q p = false).

Definition sortSSNMPartitions (ps : list SSNMPartition) : list SSNMPartition :=
  merge_sort partition_le ps.

Definition compareSSNMDestinationKeys (first second : ssnmDestinationKey) : comparison :=
  match Z.compare (k_pointCode first) (k_pointCode second) with
  | Eq => Z.compare (k_mask first) (k_mask second)
  | c => c
  end.

Definition key_le (a b : ssnmDestinationKey) : Prop := compareSSNMDestinationKeys a b ≠ Gt.
#[export] Instance key_le_dec : RelDecision key_le :=
  λ a b, decide (compareSSNMDestinationKeys a b ≠ Gt).

(** ** Diagnostics

    [%q] prints a quoted identity with strconv.Quote, which is the parameter
    [Quote]; the other verbs print decimal numbers. *)

Class Quoting := Quote : string → string.

(** The first [n] octets of a string. *)
Definition string_take (n : nat) (s : string) : string := String.substring 0 n s.

Definition boundSSNMReason (reason : string) : string :=
  if bool_decide (String.length reason ≤ ssnmResourceReasonLength)%nat then reason
  else string_take (ssnmResourceReasonLength - 3) reason +:+ "...".

Section operations.
Context `{Quoting}.

Definition describeSSNMPartition (p : SSNMPartition) : string :=
  if Kind p =? SSNMStandalonePartition
  then "standalone Association " +:+ pretty (Association p)
  else "Application Server " +:+ Quote (ApplicationServer p) +:+
       " of Signalling Gateway " +:+ Quote (SignallingGateway p).

(** ** Refusals *)

Definition refuseLocked (n : Z) (reason : string) (s : ssnmState) : ssnmState :=
  let refused := if 0 <? n then recordsRefused s + n else recordsRefused s in
  let s := set_losses refused (reportsRefused s) (partitionsInvalidated s)
             (boundSSNMReason reason) s in
  let s := nextRevisionLocked s in
  publishLocked (mkEvent SSNMResourceLossEvent (revision s) noPartition 0 None noBinding []
                   (lastResourceLoss s) false) s.

Definition refuseReportLocked (n : Z) (reason : string) (s : ssnmState)
    : ssnm_error * ssnmState :=
  let s := set_losses (recordsRefused s) (reportsRefused s + 1) (partitionsInvalidated s)
             (lastResourceLoss s) s in
  (ErrSSNMStateLimit, refuseLocked n reason s).

(** ** Bindings *)

(** [bind] from the point where the partition exists. *)
Definition bindExisting (st : ssnmPartitionState) (association : Z) (pending : bool)
    (s : ssnmState) : ssnmState :=
  let previous := bindings st !! association in
  if bool_decide (previous = Some pending) then s else
  let st := mkPartitionState (partition st) (epoch st) (<[association:=pending]> (bindings st))
              (availability st) (congestion st) (pbytes st) in
  let s := setPartition st s in
  let kind := if bool_decide (previous = Some true) && negb pending
              then SSNMBindingActivatedEvent else SSNMBindingAdmittedEvent in
  let s := nextRevisionLocked s in
  publishLocked (mkEvent kind (revision s) (partition st) (epoch st) None
                   (mkBinding association pending) [] "" false) s.

(** The partition a first binding creates, and the epoch it begins. *)
Definition createPartition (p : SSNMPartition) (s : ssnmState)
    : ssnmPartitionState * ssnmState :=
  let s := set_revision (revision s) (epochs s + 1) s in
  let st := mkPartitionState p (epochs s) ∅ ∅ ∅ ssnmPartitionBaseBytes in
  let s := setPartition st s in
  (st, set_counts (records s) (sbytes s + ssnmPartitionBaseBytes) (peerRecords s) s).

Definition bind (p : SSNMPartition) (association : Z) (pending : bool) (s : ssnmState)
    : option ssnm_error * ssnmState :=
  if Kind p =? 0 then (None, s) else
  if closed s then (Some ErrEndpointClosed, s) else
  match partitions s !! p with
  | Some st => (None, bindExisting st association pending s)
  | None =>
      let count := Z.of_nat (size (partitions s)) in
      if MaxPartitions (limits s) <=? count then
        (Some ErrSSNMStateLimit,
         refuseLocked 1 ("partition limit " +:+ pretty (MaxPartitions (limits s)) +:+
           " reached; " +:+ describeSSNMPartition p +:+ " refused") s)
      else if MaxBytes (limits s) <? sbytes s + ssnmPartitionBaseBytes then
        (Some ErrSSNMStateLimit,
         refuseLocked 1 ("byte limit " +:+ pretty (MaxBytes (limits s)) +:+
           " reached; " +:+ describeSSNMPartition p +:+ " refused") s)
      else
        let '(st, s) := createPartition p s in
        (None, bindExisting st association pending s)
  end.

Definition dropPartitionRecordsLocked (st : ssnmPartitionState) (s : ssnmState)
    : ssnmPartitionState * ssnmState :=
  let peer := peerKey (partition st) in
  let released := precords st in
  let left := peerCount peer s - released in
  let peers := if left <=? 0 then delete peer (peerRecords s)
               else <[peer:=left]> (peerRecords s) in
  let s := set_counts (records s - released)
             (sbytes s - (pbytes st - ssnmPartitionBaseBytes)) peers s in
  let st := mkPartitionState (partition st) (epoch st) (bindings st) ∅ ∅
              ssnmPartitionBaseBytes in
  (st, setPartition st s).

Definition retireLocked (p : SSNMPartition) (association : Z) (s : ssnmState) : ssnmState :=
  match partitions s !! p with
  | None => s
  | Some st =>
      match bindings st !! association with
      | None => s
      | Some _ =>
          let st := mkPartitionState (partition st) (epoch st)
                      (delete association (bindings st)) (availability st) (congestion st)
                      (pbytes st) in
          let s := setPartition st s in
          if negb (bool_decide (bindings st = ∅)) then
            let s := nextRevisionLocked s in
            publishLocked (mkEvent SSNMBindingRetiredEvent (revision s) p (epoch st) None
                             (mkBinding association false) [] "" false) s
          else
            let '(st, s) := dropPartitionRecordsLocked st s in
            let s := set_partitions (delete p) s in
            let s := set_counts (records s) (sbytes s - ssnmPartitionBaseBytes)
                       (peerRecords s) s in
            let s := set_losses (recordsRefused s) (reportsRefused s)
                       (partitionsInvalidated s + 1) (lastResourceLoss s) s in
            let s := nextRevisionLocked s in
            publishLocked (mkEvent SSNMPartitionRetiredEvent (revision s) p (epoch st) None
                             (mkBinding association false) [] "" false) s
      end
  end.

Definition retire (p : SSNMPartition) (association : Z) (s : ssnmState) : ssnmState :=
  retireLocked p association s.

Definition retireAssociation (association : Z) (s : ssnmState) : ssnmState :=
  let bound := filter (λ '(_, st), is_Some (bindings st !! association))
                 (map_to_list (partitions s)) in
  foldl (λ s p, retireLocked p association s) s (sortSSNMPartitions (fst <$> bound)).

Definition invalidateLocked (p : SSNMPartition) (reason : string) (s : ssnmState)
    : ssnmState :=
  match partitions s !! p with
  | None => s
  | Some st =>
      if precords st =? 0 then s else
      let '(st, s) := dropPartitionRecordsLocked st s in
      let s := set_losses (recordsRefused s) (reportsRefused s)
                 (partitionsInvalidated s + 1) (lastResourceLoss s) s in
      let s := nextRevisionLocked s in
      publishLocked (mkEvent SSNMPartitionInvalidatedEvent (revision s) p (epoch st) None
                       noBinding [] (boundSSNMReason reason) false) s
  end.

Definition oversized (ps : list SSNMPartition) (count lim association : Z) (s : ssnmState)
    : option ssnm_error * ssnmState :=
  let reason := "SSNM on Association " +:+ pretty association +:+ " named " +:+
                pretty count +:+ " Affected Point Codes, limit " +:+ pretty lim in
  let s := set_losses (recordsRefused s) (reportsRefused s + 1) (partitionsInvalidated s)
             (lastResourceLoss s) s in
  let s := refuseLocked 0 reason s in
  (Some ErrSSNMOversizedReport, foldl (λ s p, invalidateLocked p reason s) s ps).

(** ** Reports *)

Definition publishEventOnlyLocked (report : SSNMReport) (s : ssnmState) : ssnmState :=
  let s := nextRevisionLocked s in
  let report := with_Revision (revision s) report in
  publishLocked (mkEvent SSNMReportEvent (revision s) (r_Partition report) (r_Epoch report)
                   (Some report) noBinding [] "" false) s.

Record ssnmDimensionWrite : Set := mkWrite {
  w_key : ssnmDestinationKey;
  w_newRecord : bool;
  w_bytes : Z;
  w_previous : Z;
}.

(** [slices.CompactFunc]: of equal neighbours only the first is kept. *)
Fixpoint compact (keys : list ssnmDestinationKey) : list ssnmDestinationKey :=
  match keys with
  | k :: keys' =>
      match keys' with
      | k' :: _ => if bool_decide (k = k') then compact keys' else k :: compact keys'
      | [] => [k]
      end
  | [] => []
  end.

(** The keys a report writes, each once, in point-code then mask order. *)
Definition written_keys (report : SSNMReport) : list ssnmDestinationKey :=
  compact (merge_sort key_le
             (ssnmDestinationKeyFor <$> r_Destinations report)).

(** The scope of the record a write replaces. *)
Definition held_scope (st : ssnmPartitionState) (avail : bool) (key : ssnmDestinationKey)
    : option WireScope :=
  if avail then a_Scope <$> availability st !! key else c_Scope <$> congestion st !! key.

Definition prepare (st : ssnmPartitionState) (report : SSNMReport)
    : list ssnmDimensionWrite :=
  let scopeBytes := ssnmScopeBytes (r_Scope report) in
  (λ key,
     let held := held_scope st (retainsAvailability report) key in
     mkWrite key (bool_decide (held = None)) scopeBytes
       (from_option ssnmScopeBytes 0 held)) <$> written_keys report.

Definition count_new (writes : list ssnmDimensionWrite) : Z :=
  foldr (λ w n, (if w_newRecord w then 1 else 0) + n) 0 writes.
Definition count_bytes (writes : list ssnmDimensionWrite) : Z :=
  foldr (λ w n, (w_bytes w - w_previous w) + n) 0 writes.

(** The bound a report would exceed, if any, as the reason of its refusal. *)
Definition admitLocked (st : ssnmPartitionState) (peer : ssnmPeerKey)
    (newRecords newBytes : Z) (report : SSNMReport) (s : ssnmState)
    : option (ssnm_error * ssnmState) :=
  let desc := describeSSNMPartition (r_Partition report) in
  if MaxRecordsPerPartition (limits s) <? precords st + newRecords then
    Some (refuseReportLocked newRecords (desc +:+ " would hold " +:+
      pretty (precords st + newRecords) +:+ " records, partition limit " +:+
      pretty (MaxRecordsPerPartition (limits s))) s)
  else if MaxRecordsPerPeer (limits s) <? peerCount peer s + newRecords then
    Some (refuseReportLocked newRecords ("peer of " +:+ desc +:+ " would hold " +:+
      pretty (peerCount peer s + newRecords) +:+ " records, peer limit " +:+
      pretty (MaxRecordsPerPeer (limits s))) s)
  else if MaxRecords (limits s) <? records s + newRecords then
    Some (refuseReportLocked newRecords ("store would hold " +:+
      pretty (records s + newRecords) +:+ " records, limit " +:+
      pretty (MaxRecords (limits s))) s)
  else if MaxBytes (limits s) <? sbytes s + newBytes then
    Some (refuseReportLocked newRecords ("store would hold " +:+
      pretty (sbytes s + newBytes) +:+ " bytes, limit " +:+
      pretty (MaxBytes (limits s))) s)
  else None.

Definition availabilityRecord (report : SSNMReport) (revision : Z) : SSNMAvailability :=
  mkAvailability (availabilityState report) (r_Kind report) (r_Source report)
    (r_Scope report) (r_Association report) (r_Epoch report) revision.
Definition congestionRecord (report : SSNMReport) (revision : Z) : SSNMCongestion :=
  mkCongestion (negb (r_CongestionLevelSet report) || negb (r_CongestionLevel report =? 0))
    (r_CongestionLevel report) (r_CongestionLevelSet report) (r_Source report)
    (r_Scope report) (r_Association report) (r_Epoch report) revision.

(** The body of the loop that commits the writes. *)
Definition commitWrite (report : SSNMReport) (revision : Z) (peer : ssnmPeerKey)
    (acc : ssnmPartitionState * ssnmState) (w : ssnmDimensionWrite)
    : ssnmPartitionState * ssnmState :=
  let '(st, s) := acc in
  let delta := w_bytes w - w_previous w in
  let st :=
    if retainsAvailability report then
      mkPartitionState (partition st) (epoch st) (bindings st)
        (<[w_key w := availabilityRecord report revision]> (availability st))
        (congestion st) (pbytes st + delta)
    else
      mkPartitionState (partition st) (epoch st) (bindings st) (availability st)
        (<[w_key w := congestionRecord report revision]> (congestion st))
        (pbytes st + delta) in
  let s := setPartition st s in
  let s := set_counts (records s) (sbytes s + delta) (peerRecords s) s in
  let s := if w_newRecord w
           then set_counts (records s + 1) (sbytes s)
                  (<[peer := peerCount peer s + 1]> (peerRecords s)) s
           else s in
  (st, s).

Definition apply (report : SSNMReport) (s : ssnmState) : option ssnm_error * ssnmState :=
  if Kind (r_Partition report) =? 0 then (None, s) else
  if closed s then (Some ErrEndpointClosed, s) else
  match partitions s !! r_Partition report with
  | None => (None, publishEventOnlyLocked report s)
  | Some st =>
      let report := with_Epoch (epoch st) report in
      if negb (retainsAvailability report) && negb (retainsCongestion report)
      then (None, publishEventOnlyLocked report s) else
      let writes := prepare st report in
      if bool_decide (writes = []) then (None, publishEventOnlyLocked report s) else
      let peer := peerKey (r_Partition report) in
      match admitLocked st peer (count_new writes) (count_bytes writes) report s with
      | Some (err, s) => (Some err, s)
      | None =>
          let s := nextRevisionLocked s in
          let rev := revision s in
          let report := with_Revision rev report in
          let '(st, s) := foldl (commitWrite report rev peer) (st, s) writes in
          let updated := if bool_decide (subscribers s = ∅) then []
                         else (λ w, retainedKnowledge st (w_key w)) <$> writes in
          (None, publishLocked (mkEvent SSNMReportEvent rev (r_Partition report)
                   (r_Epoch report) (Some report) noBinding updated "" false) s)
      end
  end.

End operations.

(** ** Snapshots *)

Record SSNMPartitionKnowledge : Set := mkPartitionKnowledge {
  pk_Partition : SSNMPartition;
  pk_Epoch : Z;
  pk_Bindings : list SSNMBinding;
  pk_TrafficAuthorized : bool;
  pk_Destinations : list SSNMDestinationKnowledge;
}.

Record SSNMSnapshot : Set := mkSnapshot {
  sn_Revision : Z;
  sn_Partitions : list SSNMPartitionKnowledge;
  sn_RecordsRefused : Z;
  sn_ReportsRefused : Z;
  sn_PartitionsInvalidated : Z;
  sn_LastResourceLoss : string;
}.

(** The keys of both dimensions: those of the first, then those only the
    second holds. *)
Definition destination_keys (st : ssnmPartitionState) : list ssnmDestinationKey :=
  (map_to_list (availability st)).*1 ++
  filter (λ k, availability st !! k = None) (map_to_list (congestion st)).*1.

Definition partitionDestinationsLocked (st : ssnmPartitionState)
    : list SSNMDestinationKnowledge :=
  if precords st =? 0 then [] else
  retainedKnowledge st <$> merge_sort key_le (destination_keys st).

Definition binding_le (a b : SSNMBinding) : Prop := b_Association a ≤ b_Association b.
#[export] Instance binding_le_dec : RelDecision binding_le :=
  λ a b, decide (b_Association a ≤ b_Association b).

Definition partitionKnowledge (p : SSNMPartition) (st : ssnmPartitionState)
    : SSNMPartitionKnowledge :=
  mkPartitionKnowledge p (epoch st)
    (merge_sort binding_le
       ((λ '(association, pending), mkBinding association pending) <$>
        map_to_list (bindings st)))
    (trafficAuthorized st) (partitionDestinationsLocked st).

Definition snapshotLocked (s : ssnmState) : SSNMSnapshot :=
  let ps := sortSSNMPartitions (map_to_list (partitions s)).*1 in
  mkSnapshot (revision s)
    (omap (λ p, partitionKnowledge p <$> partitions s !! p) ps)
    (recordsRefused s) (reportsRefused s) (partitionsInvalidated s) (lastResourceLoss s).

(** ** Subscribing, and the end of the store *)

(** The object a new subscription is allocated as. *)
Definition freshSubscription (s : ssnmState) : nat := fresh (dom (subscriptions s)).

Definition SubscribeSSNM (s : ssnmState) : result ssnm_error (SSNMSnapshot * nat) * ssnmState :=
  if closed s then (Err ErrEndpointClosed, s) else
  if MaxSubscribers (limits s) <=? Z.of_nat (size (subscribers s))
  then (Err ErrSSNMSubscriberLimit, s) else
  let i := freshSubscription s in
  let sub := Subscription.newSSNMSubscription (SubscriptionQueueSize (limits s))
               (SubscriptionQueueBytes (limits s)) in
  (Ok (snapshotLocked s, i),
   set_subscriptions (<[i := sub]> (subscriptions s)) ({[i]} ∪ subscribers s) (closed s) s).

(** [Next] without its wait: one [take] on the subscription. *)
Definition Next (i : nat) (s : ssnmState)
    : option (result ssnm_error SSNMEvent) * ssnmState :=
  match subscriptions s !! i with
  | None => (Some (Err ErrSSNMSubscriptionClosed), s)
  | Some sub =>
      let '(sub, out) := Subscription.take sub in
      (out, set_subscriptions (<[i := sub]> (subscriptions s)) (subscribers s) (closed s) s)
  end.

Definition Resync (i : nat) (s : ssnmState) : result ssnm_error SSNMSnapshot * ssnmState :=
  match subscriptions s !! i with
  | None => (Err ErrSSNMSubscriptionClosed, s)
  | Some sub =>
      if Subscription.s_closed sub then
        (Err (default ErrSSNMSubscriptionClosed (Subscription.terminal sub)), s) else
      if closed s then
        (Err ErrEndpointClosed,
         set_subscriptions (<[i := Subscription.terminate ErrEndpointClosed sub]>
           (subscriptions s)) (subscribers s) (closed s) s)
      else
        let sub := Subscription.mkSubscription [] 0 (Subscription.s_closed sub)
                     (Subscription.terminal sub) false false (Subscription.limit sub)
                     (Subscription.byteLimit sub) in
        (Ok (snapshotLocked s),
         set_subscriptions (<[i := sub]> (subscriptions s)) (subscribers s) (closed s) s)
  end.

(** [Close] of a subscription. *)
Definition CloseSubscription (i : nat) (s : ssnmState) : ssnmState :=
  set_subscriptions
    (alter (Subscription.terminate ErrSSNMSubscriptionClosed) i (subscriptions s))
    (subscribers s ∖ {[i]}) (closed s) s.

(** [close] of the store. *)
Definition closeStore (s : ssnmState) : ssnmState :=
  if closed s then s else
  set_subscriptions
    (map_imap (λ i sub, Some (if decide (i ∈ subscribers s)
                              then Subscription.terminate ErrEndpointClosed sub else sub))
       (subscriptions s)) ∅ true s.

(** ** The operations of the store, as one relation of steps *)

Section steps.
Context `{Quoting}.

Inductive operation : Set :=
| OpBind (p : SSNMPartition) (association : Z) (pending : bool)
| OpRetire (p : SSNMPartition) (association : Z)
| OpRetireAssociation (association : Z)
| OpApply (report : SSNMReport)
| OpOversized (ps : list SSNMPartition) (count lim association : Z)
| OpSubscribe
| OpNext (i : nat)
| OpResync (i : nat)
| OpCloseSubscription (i : nat)
| OpClose.

Definition run (op : operation) (s : ssnmState) : ssnmState :=
  match op with
  | OpBind p a pending => (bind p a pending s).2
  | OpRetire p a => retire p a s
  | OpRetireAssociation a => retireAssociation a s
  | OpApply report => (apply report s).2
  | OpOversized ps count lim a => (oversized ps count lim a s).2
  | OpSubscribe => (SubscribeSSNM s).2
  | OpNext i => (Next i s).2
  | OpResync i => (Resync i s).2
  | OpCloseSubscription i => CloseSubscription i s
  | OpClose => closeStore s
  end.

Inductive reachable (config : option SSNMStateConfig) : ssnmState → Prop :=
| reach_new s : newSSNMState config = Ok s → reachable config s
| reach_step s op : reachable config s → reachable config (run op s).

End steps.
