(* ===== verification/SsnmInvariant.v ===== *)
(** * The accounting of the SSNM state store

    The counters of the store are the totals of what it holds, no configured
    bound is ever exceeded, and every partition has a binding: an invariant of
    every operation of Ssnm.v. *)

From stdpp Require Import sorting.
From S2P Require Import Prelude MapSum Ssnm.
#[local] Open Scope Z_scope.

(** ** What the store accounts for *)

(** The accounted bytes of one partition. *)
Definition partition_cost (st : ssnmPartitionState) : Z :=
  ssnmPartitionBaseBytes +
  map_sum (λ _ a, ssnmScopeBytes (a_Scope a)) (availability st) +
  map_sum (λ _ c, ssnmScopeBytes (c_Scope c)) (congestion st).

(** The records of the partitions of one peer. *)
Definition peer_total (peer : ssnmPeerKey) (s : ssnmState) : Z :=
  map_sum (λ p st, if decide (peerKey p = peer) then precords st else 0) (partitions s).

Record accounted (s : ssnmState) : Prop := {
  ac_key : ∀ p st, partitions s !! p = Some st → partition st = p;
  ac_cost : ∀ p st, partitions s !! p = Some st → pbytes st = partition_cost st;
  ac_epoch : ∀ p st, partitions s !! p = Some st → 1 ≤ epoch st ≤ epochs s;
  ac_epoch_inj : ∀ p q st st', partitions s !! p = Some st → partitions s !! q = Some st' →
    epoch st = epoch st' → p = q;
  ac_records : records s = map_sum (λ _ st, precords st) (partitions s);
  ac_bytes : sbytes s = map_sum (λ _ st, pbytes st) (partitions s);
  ac_peers : ∀ k, peerCount k s = peer_total k s;
  ac_peers_pos : ∀ k n, peerRecords s !! k = Some n → 0 < n;
  ac_epochs : 0 ≤ epochs s;
}.

Record within_limits (s : ssnmState) : Prop := {
  wl_records : records s ≤ MaxRecords (limits s);
  wl_bytes : sbytes s ≤ MaxBytes (limits s);
  wl_partitions : Z.of_nat (size (partitions s)) ≤ MaxPartitions (limits s);
  wl_partition : ∀ p st, partitions s !! p = Some st →
    precords st ≤ MaxRecordsPerPartition (limits s);
  wl_peer : ∀ k, peerCount k s ≤ MaxRecordsPerPeer (limits s);
}.

(** No knowledge without an owner. *)
Definition bound_partitions (s : ssnmState) : Prop :=
  ∀ p st, partitions s !! p = Some st → bindings st ≠ ∅.

Record store_ok (s : ssnmState) : Prop := {
  ok_accounted : accounted s;
  ok_within : within_limits s;
  ok_bound : bound_partitions s;
  ok_limits : Forall (λ z, 0 < z) (config_fields (limits s));
}.

Lemma scope_bytes_pos sc : ssnmMinimumRecordBytes ≤ ssnmScopeBytes sc.
Proof.
  unfold ssnmScopeBytes, ssnmMinimumRecordBytes, ssnmRoutingContextBytes.
  pose proof (len_nonneg (RoutingContexts sc)). lia.
Qed.

(** A record costs at least [ssnmMinimumRecordBytes]. *)
Lemma cost_records st :
  ssnmPartitionBaseBytes + ssnmMinimumRecordBytes * precords st ≤ partition_cost st.
Proof.
  unfold partition_cost, precords. rewrite Z.mul_add_distr_l, <-!map_sum_size.
  pose proof (map_sum_le (λ _ _, ssnmMinimumRecordBytes)
    (λ _ a, ssnmScopeBytes (a_Scope a)) (availability st) (λ _ _ _, scope_bytes_pos _)).
  pose proof (map_sum_le (λ _ _, ssnmMinimumRecordBytes)
    (λ _ c, ssnmScopeBytes (c_Scope c)) (congestion st) (λ _ _ _, scope_bytes_pos _)).
  lia.
Qed.

Lemma precords_nonneg st : 0 ≤ precords st.
Proof. unfold precords. lia. Qed.

Lemma cost_base st : ssnmPartitionBaseBytes ≤ partition_cost st.
Proof.
  pose proof (cost_records st). pose proof (precords_nonneg st).
  unfold ssnmMinimumRecordBytes, ssnmRecordBaseBytes in *. lia.
Qed.

(** ** Steps that leave the partitions and the counters alone *)

(** Everything the invariant reads. *)
Definition same_store (s s' : ssnmState) : Prop :=
  limits s' = limits s ∧ partitions s' = partitions s ∧ peerRecords s' = peerRecords s ∧
  records s' = records s ∧ sbytes s' = sbytes s ∧ epochs s' = epochs s.

Lemma same_store_accounted s s' : same_store s s' → accounted s → accounted s'.
Proof.
  intros (H1 & H2 & H3 & H4 & H5 & H6) []. constructor; unfold peerCount, peer_total in *;
    rewrite ?H2, ?H3, ?H4, ?H5, ?H6; done.
Qed.
Lemma same_store_within s s' : same_store s s' → within_limits s → within_limits s'.
Proof.
  intros (H1 & H2 & H3 & H4 & H5 & H6) []. constructor; unfold peerCount in *;
    rewrite ?H1, ?H2, ?H3, ?H4, ?H5; done.
Qed.
Lemma same_store_ok s s' : same_store s s' → store_ok s → store_ok s'.
Proof.
  intros Hs [H1 H2 H3 H4]. pose proof Hs as (E1 & E2 & _). constructor.
  - by eapply same_store_accounted.
  - by eapply same_store_within.
  - intros p st. rewrite E2. apply H3.
  - by rewrite E1.
Qed.

Lemma same_store_publish ev s : same_store s (publishLocked ev s).
Proof. done. Qed.
Lemma same_store_next s : same_store s (nextRevisionLocked s).
Proof. done. Qed.
Lemma same_store_losses a b c d s : same_store s (set_losses a b c d s).
Proof. done. Qed.
Lemma same_store_subscriptions a b c s : same_store s (set_subscriptions a b c s).
Proof. done. Qed.
Lemma same_store_trans s1 s2 s3 : same_store s1 s2 → same_store s2 s3 → same_store s1 s3.
Proof.
  intros (A1 & A2 & A3 & A4 & A5 & A6) (B1 & B2 & B3 & B4 & B5 & B6).
  unfold same_store. split_and!; congruence.
Qed.
Lemma same_store_refl s : same_store s s.
Proof. done. Qed.
Create HintDb store.
#[export] Hint Resolve same_store_publish same_store_next same_store_losses
  same_store_subscriptions same_store_refl : store.

Section accounting.
Context `{Quoting}.

Lemma same_store_refuse n r s : same_store s (refuseLocked n r s).
Proof. done. Qed.
Lemma same_store_event_only r s : same_store s (publishEventOnlyLocked r s).
Proof. done. Qed.

(** ** Replacing one partition *)

(** The counters move by what the partition's own totals move by. *)
Lemma accounted_replace s s' p st st' :
  accounted s → partitions s !! p = Some st → partition st' = p → epoch st' = epoch st →
  pbytes st' = partition_cost st' →
  partitions s' = <[p:=st']> (partitions s) → epochs s' = epochs s →
  records s' = records s + (precords st' - precords st) →
  sbytes s' = sbytes s + (pbytes st' - pbytes st) →
  (∀ k, peerCount k s' = peerCount k s +
     if decide (peerKey p = k) then precords st' - precords st else 0) →
  (∀ k n, peerRecords s' !! k = Some n → 0 < n) →
  accounted s'.
Proof.
  intros [A1 A2 A3 A4 A5 A6 A7 A8 A9] Hp Hk He Hc Hps Hep Hr Hb Hpe Hpos.
  constructor; rewrite ?Hps, ?Hep; try done.
  - intros q sq Hq. apply lookup_insert_Some in Hq as [[<- <-]|[_ Hq]]; [done|by apply A1].
  - intros q sq Hq. apply lookup_insert_Some in Hq as [[<- <-]|[_ Hq]]; [done|by eapply A2].
  - intros q sq Hq. apply lookup_insert_Some in Hq as [[<- <-]|[_ Hq]]; [|by eapply A3].
    rewrite He. by eapply A3.
  - intros q1 q2 s1 s2 H1 H2.
    apply lookup_insert_Some in H1 as [[<- <-]|[N1 H1]];
      apply lookup_insert_Some in H2 as [[<- <-]|[N2 H2]]; rewrite ?He; try done;
      intros Heq; by eapply A4.
  - rewrite (map_sum_update _ _ _ _ _ Hp), Hr, A5. lia.
  - rewrite (map_sum_update _ _ _ _ _ Hp), Hb, A6. lia.
  - intros k. unfold peer_total. rewrite Hps, (map_sum_update _ _ _ _ _ Hp), Hpe, A7.
    unfold peer_total. destruct (decide (peerKey p = k)); lia.
Qed.

(** ** Creating a partition *)

Lemma precords_empty p e b : precords (mkPartitionState p e b ∅ ∅ ssnmPartitionBaseBytes) = 0.
Proof. unfold precords. cbn. by rewrite !map_size_empty. Qed.
Lemma cost_empty p e b :
  partition_cost (mkPartitionState p e b ∅ ∅ ssnmPartitionBaseBytes) = ssnmPartitionBaseBytes.
Proof. unfold partition_cost. cbn. by rewrite !map_sum_empty. Qed.

Lemma accounted_create p s :
  accounted s → partitions s !! p = None → accounted (createPartition p s).2.
Proof.
  intros [A1 A2 A3 A4 A5 A6 A7 A8 A9] Hp. unfold createPartition. cbn. set (st := mkPartitionState _ _ _ _ _ _).
  constructor; cbn; try done.
  - intros q sq Hq. apply lookup_insert_Some in Hq as [[<- <-]|[_ Hq]]; [done|by apply A1].
  - intros q sq Hq. apply lookup_insert_Some in Hq as [[<- <-]|[_ Hq]]; [|by eapply A2].
    symmetry. apply cost_empty.
  - intros q sq Hq. apply lookup_insert_Some in Hq as [[<- <-]|[_ Hq]]; [cbn; lia|].
    apply A3 in Hq. lia.
  - intros q1 q2 s1 s2 H1 H2 Heq.
    apply lookup_insert_Some in H1 as [[<- <-]|[N1 H1]];
      apply lookup_insert_Some in H2 as [[<- <-]|[N2 H2]]; cbn in Heq; [done| | |by eapply A4].
    + apply A3 in H2. lia.
    + apply A3 in H1. lia.
  - rewrite map_sum_insert, A5 by done. unfold st. rewrite precords_empty. lia.
  - rewrite map_sum_insert, A6 by done. cbn. lia.
  - intros k. unfold peerCount, peer_total in *. cbn. rewrite map_sum_insert by done.
    unfold st. rewrite precords_empty, A7. destruct (decide _); lia.
  - lia.
Qed.

(** ** Bindings *)

Lemma accounted_bindings s st b :
  accounted s → partitions s !! partition st = Some st →
  accounted (setPartition (mkPartitionState (partition st) (epoch st) b (availability st)
    (congestion st) (pbytes st)) s).
Proof.
  intros Ha Hp. set (st' := mkPartitionState _ _ _ _ _ _).
  assert (Hr : precords st' = precords st) by done.
  eapply (accounted_replace s _ _ st st'); try done; cbn.
  - apply (ac_cost _ Ha _ _ Hp).
  - lia.
  - lia.
  - intros k. rewrite Hr. unfold peerCount. cbn. destruct (decide _); lia.
  - apply ac_peers_pos, Ha.
Qed.

Lemma within_bindings s st b :
  within_limits s → partitions s !! partition st = Some st →
  within_limits (setPartition (mkPartitionState (partition st) (epoch st) b (availability st)
    (congestion st) (pbytes st)) s).
Proof.
  intros [W1 W2 W3 W4 W5] Hp. constructor; cbn; try done.
  - rewrite map_size_insert_Some by done. done.
  - intros q sq Hq. apply lookup_insert_Some in Hq as [[<- <-]|[_ Hq]]; [|by eapply W4].
    by apply (W4 _ _ Hp).
Qed.
(** ** Dropping the records of a partition *)

Lemma peer_total_entry s p st :
  partitions s !! p = Some st → precords st ≤ peer_total (peerKey p) s.
Proof.
  intros Hp. unfold peer_total.
  pose proof (map_sum_entry (λ q sq, if decide (peerKey q = peerKey p) then precords sq else 0)
    (partitions s) p st) as H0.
  cbn in H0. rewrite decide_True in H0 by done. apply H0; [|done].
  intros q sq _. destruct (decide _); [apply precords_nonneg|lia].
Qed.

Lemma peerCount_drop st s k :
  accounted s → partitions s !! partition st = Some st →
  peerCount k (dropPartitionRecordsLocked st s).2 =
  peerCount k s + if decide (peerKey (partition st) = k) then - precords st else 0.
Proof.
  intros Ha Hp. pose proof (peer_total_entry s _ st Hp) as Ht.
  pose proof (ac_peers _ Ha (peerKey (partition st))) as Hc.
  unfold dropPartitionRecordsLocked. cbn. unfold peerCount at 1. cbn.
  set (left := peerCount _ s - precords st).
  destruct (left <=? 0) eqn:Hl; to_prop; destruct (decide _) as [<-|Hk].
  - rewrite lookup_delete_eq. cbn. lia.
  - rewrite lookup_delete_ne by done. unfold peerCount. lia.
  - rewrite lookup_insert_eq. cbn. lia.
  - rewrite lookup_insert_ne by done. unfold peerCount. lia.
Qed.

(** The partition without its records, as [dropPartitionRecordsLocked] leaves it. *)
Definition emptied (st : ssnmPartitionState) : ssnmPartitionState :=
  mkPartitionState (partition st) (epoch st) (bindings st) ∅ ∅ ssnmPartitionBaseBytes.

Lemma drop_split st s :
  dropPartitionRecordsLocked st s = (emptied st, (dropPartitionRecordsLocked st s).2).
Proof. done. Qed.
Lemma drop_partitions st s :
  partitions (dropPartitionRecordsLocked st s).2 =
  <[partition st := emptied st]> (partitions s).
Proof. done. Qed.
Lemma drop_limits st s : limits (dropPartitionRecordsLocked st s).2 = limits s.
Proof. done. Qed.

Lemma accounted_drop st s :
  accounted s → partitions s !! partition st = Some st →
  accounted (dropPartitionRecordsLocked st s).2.
Proof.
  intros Ha Hp. pose proof (ac_cost _ Ha _ _ Hp) as Hc.
  eapply (accounted_replace s _ (partition st) st
    (mkPartitionState (partition st) (epoch st) (bindings st) ∅ ∅ ssnmPartitionBaseBytes));
    try done.
  - cbn. lia.
  - intros k. rewrite precords_empty, Z.sub_0_l. by apply peerCount_drop.
  - intros k n. cbn. destruct (_ <=? 0) eqn:Hl; to_prop.
    + rewrite lookup_delete_Some. intros [_ Hk]. by apply (ac_peers_pos _ Ha k).
    + rewrite lookup_insert_Some. intros [[<- <-]|[_ Hk]]; [lia|].
      by apply (ac_peers_pos _ Ha k).
Qed.

Lemma within_drop st s :
  accounted s → within_limits s → partitions s !! partition st = Some st →
  within_limits (dropPartitionRecordsLocked st s).2.
Proof.
  intros Ha [W1 W2 W3 W4 W5] Hp. pose proof (precords_nonneg st).
  pose proof (ac_cost _ Ha _ _ Hp) as Hc.
  pose proof (cost_base st) as Hb.
  constructor.
  - cbn. lia.
  - cbn. lia.
  - cbn. by rewrite map_size_insert_Some by done.
  - intros q sq. cbn. intros Hq. apply lookup_insert_Some in Hq as [[<- <-]|[_ Hq]].
    + rewrite precords_empty. pose proof (W4 _ _ Hp). lia.
    + by eapply W4.
  - intros k. rewrite (peerCount_drop _ _ _ Ha Hp). cbn.
    specialize (W5 k). destruct (decide _); lia.
Qed.

(** ** Deleting a partition that holds nothing *)

Lemma accounted_delete s p st :
  accounted s → partitions s !! p = Some st → precords st = 0 →
  pbytes st = ssnmPartitionBaseBytes →
  accounted (set_counts (records s) (sbytes s - ssnmPartitionBaseBytes) (peerRecords s)
    (set_partitions (delete p) s)).
Proof.
  intros [A1 A2 A3 A4 A5 A6 A7 A8 A9] Hp Hr Hb.
  constructor; cbn; try done.
  - intros q sq Hq. apply lookup_delete_Some in Hq as [_ Hq]. by apply A1.
  - intros q sq Hq. apply lookup_delete_Some in Hq as [_ Hq]. by eapply A2.
  - intros q sq Hq. apply lookup_delete_Some in Hq as [_ Hq]. by eapply A3.
  - intros q1 q2 s1 s2 H1 H2. apply lookup_delete_Some in H1 as [_ H1].
    apply lookup_delete_Some in H2 as [_ H2]. by apply A4.
  - rewrite A5, (map_sum_delete _ _ _ _ Hp). lia.
  - rewrite A6, (map_sum_delete _ _ _ _ Hp). lia.
  - intros k. transitivity (peer_total k s); [apply A7|]. unfold peer_total. cbn.
    rewrite (map_sum_delete _ _ _ _ Hp), Hr. by destruct (decide _).
Qed.

Lemma within_delete s p :
  within_limits s →
  within_limits (set_counts (records s) (sbytes s - ssnmPartitionBaseBytes) (peerRecords s)
    (set_partitions (delete p) s)).
Proof.
  intros [W1 W2 W3 W4 W5]. constructor; cbn; try done.
  - unfold ssnmPartitionBaseBytes. lia.
  - assert (size (delete p (partitions s)) ≤ size (partitions s))%nat; [|lia].
    destruct (partitions s !! p) as [st|] eqn:Hp.
    + rewrite map_size_delete_Some by by rewrite Hp. lia.
    + by rewrite delete_id.
  - intros q sq Hq. apply lookup_delete_Some in Hq as [_ Hq]. by eapply W4.
Qed.

(** ** Committing the writes of a report *)

(** A prepared write describes the record it replaces. *)
Definition write_ok (report : SSNMReport) (st : ssnmPartitionState)
    (w : ssnmDimensionWrite) : Prop :=
  let held := held_scope st (retainsAvailability report) (w_key w) in
  w_newRecord w = bool_decide (held = None) ∧
  w_bytes w = ssnmScopeBytes (r_Scope report) ∧
  w_previous w = from_option ssnmScopeBytes 0 held.

(** What a commit may change, on the way from [(st, s)] to [(st', s')]. *)
Record committed (peer : ssnmPeerKey) (n d : Z) (st st' : ssnmPartitionState)
    (s s' : ssnmState) : Prop := {
  cm_partition : partition st' = partition st;
  cm_epoch : epoch st' = epoch st;
  cm_bindings : bindings st' = bindings st;
  cm_precords : precords st' = precords st + n;
  cm_partitions : partitions s' = <[partition st := st']> (partitions s);
  cm_records : records s' = records s + n;
  cm_bytes : sbytes s' = sbytes s + d;
  cm_peer : ∀ k, peerCount k s' = peerCount k s + if decide (peer = k) then n else 0;
  cm_limits : limits s' = limits s;
  cm_revision : revision s' = revision s ∧ epochs s' = epochs s;
  cm_subs : subscriptions s' = subscriptions s ∧ subscribers s' = subscribers s ∧
            closed s' = closed s;
}.

Lemma held_scope_commit report rev peer st s w key :
  key ≠ w_key w →
  held_scope (commitWrite report rev peer (st, s) w).1 (retainsAvailability report) key =
  held_scope st (retainsAvailability report) key.
Proof.
  intros Hk. unfold commitWrite, held_scope. cbn.
  destruct (retainsAvailability report); cbn; by rewrite lookup_insert_ne.
Qed.

Definition count_one (w : ssnmDimensionWrite) : Z := if w_newRecord w then 1 else 0.

(** The partition after one write. *)
Lemma commitWrite_partition report rev peer st s w :
  write_ok report st w →
  let st' := (commitWrite report rev peer (st, s) w).1 in
  precords st' = precords st + count_one w ∧
  partition_cost st' = partition_cost st + (w_bytes w - w_previous w) ∧
  pbytes st' = pbytes st + (w_bytes w - w_previous w) ∧
  partition st' = partition st ∧ epoch st' = epoch st ∧ bindings st' = bindings st.
Proof.
  intros (H1 & H2 & H3). unfold commitWrite. cbn. unfold count_one.
  unfold held_scope in H1, H3. rewrite H1, H2, H3. clear H1 H2 H3.
  destruct (retainsAvailability report); cbn; unfold precords, partition_cost; cbn;
    change (a_Scope (availabilityRecord report rev)) with (r_Scope report);
    change (c_Scope (congestionRecord report rev)) with (r_Scope report).
  - destruct (availability st !! w_key w) as [a|] eqn:Ha; cbn.
    + rewrite map_size_insert_Some, (map_sum_update _ _ _ _ _ Ha) by by rewrite Ha.
      cbn. split_and!; lia || done.
    + rewrite map_size_insert_None, map_sum_insert by done. split_and!; cbn; lia || done.
  - destruct (congestion st !! w_key w) as [c|] eqn:Hc; cbn.
    + rewrite map_size_insert_Some, (map_sum_update _ _ _ _ _ Hc) by by rewrite Hc.
      cbn. split_and!; lia || done.
    + rewrite map_size_insert_None, map_sum_insert by done. split_and!; cbn; lia || done.
Qed.

Lemma commitWrite_committed report rev peer st s w :
  write_ok report st w →
  committed peer (count_one w) (w_bytes w - w_previous w) st
    (commitWrite report rev peer (st, s) w).1 s (commitWrite report rev peer (st, s) w).2.
Proof.
  intros Hw.
  destruct (commitWrite_partition report rev peer st s w Hw) as (P1 & _ & _ & P2 & P3 & P4).
  set (st' := (commitWrite report rev peer (st, s) w).1) in *.
  constructor; try done.
  all: unfold commitWrite, count_one; cbn.
  all: try by destruct (w_newRecord w).
  - unfold st', commitWrite. cbn. by destruct (retainsAvailability report), (w_newRecord w).
  - destruct (w_newRecord w); cbn; lia.
  - intros k. unfold peerCount. destruct (w_newRecord w); cbn; [|by destruct (decide _); lia].
    destruct (decide (peer = k)) as [<-|Hk].
    + rewrite lookup_insert_eq. cbn. unfold peerCount. cbn. lia.
    + rewrite lookup_insert_ne by done. lia.
Qed.

Lemma committed_trans peer n1 d1 n2 d2 st1 st2 st3 s1 s2 s3 :
  committed peer n1 d1 st1 st2 s1 s2 → committed peer n2 d2 st2 st3 s2 s3 →
  committed peer (n1 + n2) (d1 + d2) st1 st3 s1 s3.
Proof.
  intros [A1 A2 A3 A4 A5 A6 A7 A8 A9 A10 A11] [B1 B2 B3 B4 B5 B6 B7 B8 B9 B10 B11].
  constructor; try congruence; try lia.
  - rewrite B5, A5, A1. apply insert_insert_eq.
  - intros k. rewrite B8, A8. destruct (decide _); lia.
  - destruct A11 as (X1 & X2 & X3), B11 as (Y1 & Y2 & Y3).
    split_and!; [by rewrite Y1|by rewrite Y2|by rewrite Y3].
Qed.

Lemma commitWrite_accounted report rev st s w :
  accounted s → partitions s !! partition st = Some st → write_ok report st w →
  accounted (commitWrite report rev (peerKey (partition st)) (st, s) w).2.
Proof.
  intros Ha Hp Hw.
  destruct (commitWrite_partition report rev (peerKey (partition st)) st s w Hw)
    as (P1 & P2 & P3 & P4 & P5 & P6).
  destruct (commitWrite_committed report rev (peerKey (partition st)) st s w Hw)
    as [C1 C2 C3 C4 C5 C6 C7 C8 C9 [_ C10] C11].
  eapply (accounted_replace s _ (partition st) st); try done.
  - rewrite P2, P3. by rewrite (ac_cost _ Ha _ _ Hp).
  - rewrite C6, C4. lia.
  - rewrite C7, P3. lia.
  - intros k. rewrite C8, C4. destruct (decide _); lia.
  - intros k n. unfold commitWrite. cbn. destruct (w_newRecord w); cbn; [|apply ac_peers_pos, Ha].
    rewrite lookup_insert_Some. intros [[<- <-]|[_ Hk]]; [|by apply (ac_peers_pos _ Ha k)].
    unfold peerCount. cbn. destruct (peerRecords s !! _) as [m|] eqn:Hm; cbn; [|lia].
    apply (ac_peers_pos _ Ha) in Hm. lia.
Qed.

(** All the writes of a report. *)
Lemma commit_writes report rev st s writes :
  accounted s → partitions s !! partition st = Some st →
  NoDup (w_key <$> writes) → Forall (write_ok report st) writes →
  let r := foldl (commitWrite report rev (peerKey (partition st))) (st, s) writes in
  accounted r.2 ∧
  committed (peerKey (partition st)) (count_new writes) (count_bytes writes) st r.1 s r.2.
Proof.
  revert st s. induction writes as [|w writes IH]; intros st s Ha Hp Hnd Hw.
  { cbn. split; [done|]. constructor; try done; try lia.
    - by rewrite insert_id.
    - intros k. destruct (decide _); lia. }
  apply Forall_cons in Hw as [Hw Hws]. rewrite fmap_cons in Hnd.
  apply NoDup_cons in Hnd as [Hnin Hnd]. cbn [foldl].
  pose proof (commitWrite_accounted report rev st s w Ha Hp Hw) as Ha'.
  pose proof (commitWrite_committed report rev (peerKey (partition st)) st s w Hw) as Hc.
  pose proof (held_scope_commit report rev (peerKey (partition st)) st s w) as Hh.
  destruct (commitWrite report rev (peerKey (partition st)) (st, s) w) as [st1 s1].
  cbn [fst snd] in *. pose proof (cm_partition _ _ _ _ _ _ _ Hc) as Hpart.
  destruct (IH st1 s1) as [I1 I2].
  - done.
  - rewrite (cm_partitions _ _ _ _ _ _ _ Hc), Hpart. apply lookup_insert_eq.
  - done.
  - rewrite Forall_forall in Hws |- *. intros v Hv. destruct (Hws v Hv) as (V1 & V2 & V3).
    unfold write_ok. rewrite Hh; [done|]. intros Heq. apply Hnin. rewrite <-Heq.
    by apply list_elem_of_fmap_2.
  - rewrite Hpart in I1, I2. split; [done|].
    cbn [count_new count_bytes foldr]. fold (count_one w). fold (count_new writes).
    fold (count_bytes writes). eapply committed_trans; [exact Hc|exact I2].
Qed.

(** ** The writes a report prepares *)

Lemma key_le_spec a b :
  key_le a b ↔ k_pointCode a < k_pointCode b ∨
    k_pointCode a = k_pointCode b ∧ k_mask a ≤ k_mask b.
Proof.
  unfold key_le, compareSSNMDestinationKeys.
  destruct (Z.compare_spec (k_pointCode a) (k_pointCode b)).
  - rewrite Z.compare_ngt_iff. lia.
  - split; [lia|done].
  - split; [done|lia].
Qed.
#[export] Instance key_le_total : Total key_le.
Proof. intros a b. rewrite !key_le_spec. lia. Qed.
#[export] Instance key_le_trans : Transitive key_le.
Proof. intros a b c. rewrite !key_le_spec. lia. Qed.
#[export] Instance key_le_antisymm : AntiSymm (=) key_le.
Proof.
  intros [a m] [b n]. rewrite !key_le_spec. cbn. intros H1 H2.
  f_equal; lia.
Qed.

Lemma elem_of_compact k l : k ∈ compact l ↔ k ∈ l.
Proof.
  induction l as [|a l IH]; [done|]. destruct l as [|b l]; [done|].
  cbn [compact]. case_bool_decide as Hab; rewrite !elem_of_cons, IH, elem_of_cons; naive_solver.
Qed.

Lemma NoDup_compact l : StronglySorted key_le l → NoDup (compact l).
Proof.
  induction l as [|a l IH]; intros Hs; [constructor|].
  apply StronglySorted_inv in Hs as [Hs Ha]. destruct l as [|b l]; [apply NoDup_singleton|].
  cbn [compact]. case_bool_decide as Hab; [by apply IH|].
  apply NoDup_cons. split; [|by apply IH]. intros Hin.
  apply (elem_of_compact a (b :: l)) in Hin.
  apply elem_of_cons in Hin as [Hin|Hin]; [done|].
  apply StronglySorted_inv in Hs as [_ Hb]. rewrite Forall_forall in Ha, Hb.
  apply Hab, (anti_symm key_le); [apply Ha; by left|by apply Hb].
Qed.

Lemma written_keys_NoDup report : NoDup (written_keys report).
Proof. apply NoDup_compact, (StronglySorted_merge_sort key_le). Qed.

Lemma elem_of_written_keys report k :
  k ∈ written_keys report ↔ k ∈ ssnmDestinationKeyFor <$> r_Destinations report.
Proof.
  unfold written_keys. etransitivity; [apply elem_of_compact|].
  by rewrite (merge_sort_Permutation key_le).
Qed.

Lemma prepare_keys st report : w_key <$> prepare st report = written_keys report.
Proof. unfold prepare. rewrite <-list_fmap_compose. apply list_fmap_id. Qed.

Lemma prepare_ok st report : Forall (write_ok report st) (prepare st report).
Proof. apply Forall_fmap, Forall_forall. intros k _. done. Qed.

(** ** Every operation keeps the invariant *)

Lemma ok_bindExisting st a pending s :
  accounted s → within_limits s → Forall (λ z, 0 < z) (config_fields (limits s)) →
  partitions s !! partition st = Some st →
  (∀ p sq, partitions s !! p = Some sq → p ≠ partition st → bindings sq ≠ ∅) →
  store_ok (bindExisting st a pending s).
Proof.
  intros Ha Hw Hl Hp Hb. unfold bindExisting. case_bool_decide as Heq.
  - constructor; try done. intros q sq Hq. destruct (decide (q = partition st)) as [->|Hne].
    + rewrite Hp in Hq. injection Hq as <-. intros He. by rewrite He, lookup_empty in Heq.
    + by eapply Hb.
  - eapply same_store_ok.
    { eapply same_store_trans; [apply same_store_next|apply same_store_publish]. }
    constructor; cbn.
    + by apply accounted_bindings.
    + by apply within_bindings.
    + intros q sq Hq. cbn in Hq. apply lookup_insert_Some in Hq as [[<- <-]|[Hne Hq]].
      * cbn. apply insert_non_empty.
      * by eapply Hb.
    + done.
Qed.

Lemma ok_bind p a pending s : store_ok s → store_ok (bind p a pending s).2.
Proof.
  intros Hok. pose proof Hok as [Ha Hw Hb Hl]. unfold bind.
  destruct (Kind p =? 0); [done|]. destruct (closed s); [done|].
  destruct (partitions s !! p) as [st|] eqn:Hp.
  - pose proof (ac_key _ Ha _ _ Hp) as Hk. subst p.
    apply ok_bindExisting; auto. intros q sq Hq _. by eapply Hb.
  - destruct (_ <=? _) eqn:Hmax; [by apply (same_store_ok s)|].
    destruct (_ <? _) eqn:Hbytes; [by apply (same_store_ok s)|]. to_prop.
    destruct (createPartition p s) as [st s1] eqn:Hc.
    pose proof (accounted_create p s Ha Hp) as Ha1. rewrite Hc in Ha1. cbn [snd] in *.
    unfold createPartition in Hc. injection Hc as <- <-.
    destruct Hw as [W1 W2 W3 W4 W5]. apply ok_bindExisting; try done.
    + constructor; cbn; try done.
      * rewrite map_size_insert_None by done. lia.
      * intros q sq Hq. apply lookup_insert_Some in Hq as [[<- <-]|[_ Hq]]; [|by eapply W4].
        rewrite precords_empty. unfold config_fields in Hl.
        rewrite !Forall_cons in Hl. lia.
    + cbn. apply lookup_insert_eq.
    + cbn. intros q sq Hq Hne. rewrite lookup_insert_ne in Hq by done. by eapply Hb.
Qed.

Lemma ok_retireLocked p a s : store_ok s → store_ok (retireLocked p a s).
Proof.
  intros Hok. pose proof Hok as [Ha Hw Hb Hl]. unfold retireLocked.
  destruct (partitions s !! p) as [st|] eqn:Hp; [|done].
  pose proof (ac_key _ Ha _ _ Hp) as Hk. subst p.
  destruct (bindings st !! a); [|done].
  set (st1 := mkPartitionState (partition st) (epoch st) (delete a (bindings st))
    (availability st) (congestion st) (pbytes st)).
  pose proof (accounted_bindings s st (delete a (bindings st)) Ha Hp) as Ha1.
  pose proof (within_bindings s st (delete a (bindings st)) Hw Hp) as Hw1. fold st1 in Ha1, Hw1.
  cbn [bindings st1]. case_bool_decide as He; cbn [negb].
  - assert (Hp1 : partitions (setPartition st1 s) !! partition st1 = Some st1).
    { cbn. apply lookup_insert_eq. }
    pose proof (accounted_drop st1 _ Ha1 Hp1) as Ha2.
    pose proof (within_drop st1 _ Ha1 Hw1 Hp1) as Hw2.
    rewrite drop_split. pose proof (drop_partitions st1 (setPartition st1 s)) as Hps.
    pose proof (drop_limits st1 (setPartition st1 s)) as Hlim.
    set (s2 := (dropPartitionRecordsLocked st1 _).2) in *. clearbody s2.
    assert (Hp2 : partitions s2 !! partition st1 = Some (emptied st1)).
    { rewrite Hps. apply lookup_insert_eq. }
    eapply same_store_ok; [apply same_store_publish|].
    eapply same_store_ok; [apply same_store_next|].
    eapply same_store_ok; [apply same_store_losses|]. constructor.
    + eapply (accounted_delete s2 (partition st1)); [done|exact Hp2|apply precords_empty|done].
    + by apply (within_delete s2).
    + intros q sq Hq. cbn in Hq. apply lookup_delete_Some in Hq as [Hne Hq].
      rewrite Hps in Hq. cbn in Hq. rewrite !lookup_insert_ne in Hq by done. by eapply Hb.
    + cbn. by rewrite Hlim.
  - eapply same_store_ok; [apply same_store_publish|].
    eapply same_store_ok; [apply same_store_next|]. constructor; [done|done| |done].
    intros q sq Hq. cbn in Hq. apply lookup_insert_Some in Hq as [[<- <-]|[Hne Hq]]; [done|].
    by eapply Hb.
Qed.

Lemma ok_foldl {A} (f : ssnmState → A → ssnmState) l s :
  (∀ s a, store_ok s → store_ok (f s a)) → store_ok s → store_ok (foldl f s l).
Proof. intros Hf. revert s. induction l as [|a l IH]; intros s Hs; cbn; auto. Qed.

Lemma ok_invalidateLocked p r s : store_ok s → store_ok (invalidateLocked p r s).
Proof.
  intros Hok. pose proof Hok as [Ha Hw Hb Hl]. unfold invalidateLocked.
  destruct (partitions s !! p) as [st|] eqn:Hp; [|done].
  destruct (_ =? 0); [done|]. pose proof (ac_key _ Ha _ _ Hp) as Hk. subst p.
  pose proof (accounted_drop st _ Ha Hp) as Ha2.
  pose proof (within_drop st _ Ha Hw Hp) as Hw2.
  rewrite drop_split. pose proof (drop_partitions st s) as Hps.
  pose proof (drop_limits st s) as Hlim.
  set (s2 := (dropPartitionRecordsLocked st s).2) in *. clearbody s2.
  eapply same_store_ok; [apply same_store_publish|].
  eapply same_store_ok; [apply same_store_next|].
  eapply same_store_ok; [apply same_store_losses|].
  constructor; [done|done| |by rewrite Hlim].
  intros q sq Hq. rewrite Hps in Hq.
  apply lookup_insert_Some in Hq as [[<- <-]|[Hne Hq]]; [|by eapply Hb].
  cbn. by eapply Hb.
Qed.

Lemma ok_oversized ps c l a s : store_ok s → store_ok (oversized ps c l a s).2.
Proof.
  intros Hok. unfold oversized. cbn. apply ok_foldl; [intros; by apply ok_invalidateLocked|].
  by apply (same_store_ok s).
Qed.

(** [n] more records of [d] more bytes fit every bound. *)
Definition fits (st : ssnmPartitionState) (peer : ssnmPeerKey) (n d : Z) (s : ssnmState)
    : Prop :=
  precords st + n ≤ MaxRecordsPerPartition (limits s) ∧
  peerCount peer s + n ≤ MaxRecordsPerPeer (limits s) ∧
  records s + n ≤ MaxRecords (limits s) ∧ sbytes s + d ≤ MaxBytes (limits s).

(** A report within the limits is admitted. *)
Lemma admitLocked_None st peer n d report s :
  admitLocked st peer n d report s = None ↔ fits st peer n d s.
Proof.
  unfold admitLocked, fits.
  destruct (_ <? precords st + n) eqn:H1; [split; [done|to_prop; lia]|].
  destruct (_ <? peerCount peer s + n) eqn:H2; [split; [done|to_prop; lia]|].
  destruct (_ <? records s + n) eqn:H3; [split; [done|to_prop; lia]|].
  destruct (_ <? sbytes s + d) eqn:H4; [split; [done|to_prop; lia]|].
  to_prop. split; [lia|done].
Qed.

(** A report that does not fit is refused. *)
Lemma admitLocked_refusal st peer n d report s e s' :
  admitLocked st peer n d report s = Some (e, s') →
  ∃ reason, (e, s') = refuseReportLocked n reason s.
Proof. unfold admitLocked. repeat case_match; try done; intros [= <- <-]; eauto. Qed.

Lemma admitLocked_Some st peer n d report s e s' :
  admitLocked st peer n d report s = Some (e, s') → e = ErrSSNMStateLimit ∧ same_store s s'.
Proof.
  intros Ha. apply admitLocked_refusal in Ha as [reason [= -> ->]].
  split; [done|]. eapply same_store_trans; [apply same_store_losses|apply same_store_refuse].
Qed.

(** Committing prepared writes to an admitted partition. *)
Lemma ok_commit report rev st s writes :
  store_ok s → partitions s !! partition st = Some st →
  NoDup (w_key <$> writes) → Forall (write_ok report st) writes →
  fits st (peerKey (partition st)) (count_new writes) (count_bytes writes) s →
  store_ok (foldl (commitWrite report rev (peerKey (partition st))) (st, s) writes).2.
Proof.
  intros [Ha [W1 W2 W3 W4 W5] Hb Hl] Hp Hnd Hw Hadm.
  destruct Hadm as (L1 & L2 & L3 & L4).
  destruct (commit_writes report rev st s writes Ha Hp Hnd Hw)
    as [Ha' [C1 C2 C3 C4 C5 C6 C7 C8 C9 _ _]].
  constructor; [done| | |by rewrite C9].
  - constructor; rewrite ?C5, ?C9.
    + lia.
    + lia.
    + by rewrite map_size_insert_Some by done.
    + intros q sq Hq. apply lookup_insert_Some in Hq as [[<- <-]|[Hne Hq]]; [|by eapply W4].
      lia.
    + intros k. rewrite C8. destruct (decide _) as [<-|]; [done|].
      specialize (W5 k). lia.
  - intros q sq. rewrite C5. intros Hq.
    apply lookup_insert_Some in Hq as [[<- <-]|[Hne Hq]]; [|by eapply Hb].
    rewrite C3. by eapply Hb.
Qed.

Lemma ok_apply report s : store_ok s → store_ok (apply report s).2.
Proof.
  intros Hok. unfold apply. destruct (Kind _ =? 0); [done|]. destruct (closed s); [done|].
  destruct (partitions s !! _) as [st|] eqn:Hp; [|by apply (same_store_ok s)].
  pose proof (ac_key _ (ok_accounted _ Hok) _ _ Hp) as Hk.
  set (rep := with_Epoch (epoch st) report).
  destruct (_ && _); [by apply (same_store_ok s)|].
  case_bool_decide as He; [by apply (same_store_ok s)|].
  change (r_Partition rep) with (r_Partition report). rewrite <-Hk in Hp |- *.
  destruct (admitLocked _ _ _ _ _ _) as [[e s']|] eqn:Hadm.
  { apply admitLocked_Some in Hadm as [_ Hs]. by apply (same_store_ok s). }
  apply admitLocked_None in Hadm.
  set (s1 := nextRevisionLocked s). set (rev := revision s1).
  assert (Hok1 : store_ok s1) by (eapply same_store_ok; [apply same_store_next|done]).
  pose proof (ok_commit (with_Revision rev rep) rev st s1 (prepare st rep)
    Hok1 Hp (eq_ind_r NoDup (written_keys_NoDup rep) (prepare_keys st rep))
    (prepare_ok st rep) Hadm) as Hc.
  destruct (foldl _ _ _) as [st' s'] eqn:Hf.
  eapply same_store_ok; [apply same_store_publish|]. exact Hc.
Qed.

Lemma ok_run op s : store_ok s → store_ok (run op s).
Proof.
  intros Hs. destruct op; cbn [run].
  - by apply ok_bind.
  - by apply ok_retireLocked.
  - unfold retireAssociation. apply ok_foldl; [intros; by apply ok_retireLocked|done].
  - by apply ok_apply.
  - by apply ok_oversized.
  - unfold SubscribeSSNM. destruct (closed s); [done|]. destruct (_ <=? _); [done|].
    by apply (same_store_ok s).
  - unfold Next. destruct (subscriptions s !! i) as [sub|]; [|done].
    destruct (Subscription.take sub). by apply (same_store_ok s).
  - unfold Resync. destruct (subscriptions s !! i) as [sub|]; [|done].
    destruct (Subscription.s_closed sub); [done|].
    destruct (closed s); by apply (same_store_ok s).
  - by apply (same_store_ok s).
  - unfold closeStore. destruct (closed s); [done|]. by apply (same_store_ok s).
Qed.

End accounting.
