(* ===== verification/SsnmDelta.v ===== *)
(** * Snapshots and deltas of the SSNM state store

    A consumer starts from a snapshot and applies the events of its
    subscription in order, by the rules the type SSNMEvent documents
    (ssnm_subscription.go).  The abstract state is what the consumer holds: a
    [view] of the partitions, their bindings and destinations.  The store
    refines it: as long as a subscription has not lost continuity, the view of
    its consumer, patched by what is still queued, is the store's own. *)

From stdpp Require Import sorting.
From S2P Require Import Prelude MapSum Ssnm SsnmInvariant.
#[local] Open Scope Z_scope.

(** ** The consumer's view *)

Definition dimensions : Set := option SSNMAvailability * option SSNMCongestion.

Record known : Set := mkKnown {
  kn_epoch : Z;
  kn_bindings : gmap Z bool;
  kn_destinations : gmap ssnmDestinationKey dimensions;
}.

Abbreviation view := (gmap SSNMPartition known).

Definition set_bindings (f : gmap Z bool → gmap Z bool) (k : known) : known :=
  mkKnown (kn_epoch k) (f (kn_bindings k)) (kn_destinations k).
Definition set_destinations
    (f : gmap ssnmDestinationKey dimensions → gmap ssnmDestinationKey dimensions) (k : known)
    : known :=
  mkKnown (kn_epoch k) (kn_bindings k) (f (kn_destinations k)).

(** Replace the entry of each destination an event updated. *)
Definition replace_updated (updated : list SSNMDestinationKnowledge)
    (m : gmap ssnmDestinationKey dimensions) : gmap ssnmDestinationKey dimensions :=
  foldl (λ m u, <[Destination u := (Availability u, Congestion u)]> m) m updated.

(** The rule of each kind of event. *)
Definition patch (v : view) (ev : SSNMEvent) : view :=
  let p := e_Partition ev in
  let a := b_Association (e_Binding ev) in
  match e_Kind ev with
  | SSNMReportEvent => alter (set_destinations (replace_updated (e_Updated ev))) p v
  | SSNMBindingAdmittedEvent =>
      partial_alter (λ held,
        Some (set_bindings (<[a := b_Pending (e_Binding ev)]>)
                (default (mkKnown (e_Epoch ev) ∅ ∅) held))) p v
  | SSNMBindingActivatedEvent => alter (set_bindings (<[a := false]>)) p v
  | SSNMBindingRetiredEvent => alter (set_bindings (delete a)) p v
  | SSNMPartitionRetiredEvent => delete p v
  | SSNMPartitionInvalidatedEvent => alter (set_destinations (λ _, ∅)) p v
  | SSNMResourceLossEvent | SSNMContinuityLostEvent => v
  end.

(** ** The view a state and a snapshot hold *)

Definition both_dimensions (a : option SSNMAvailability) (c : option SSNMCongestion)
    : option dimensions :=
  match a, c with
  | None, None => None
  | _, _ => Some (a, c)
  end.

Definition known_of (st : ssnmPartitionState) : known :=
  mkKnown (epoch st) (bindings st) (merge both_dimensions (availability st) (congestion st)).

Definition view_of (s : ssnmState) : view := known_of <$> partitions s.

(** The entries of the lists of a snapshot. *)
Definition knowledge_entry (u : SSNMDestinationKnowledge) : ssnmDestinationKey * dimensions :=
  (Destination u, (Availability u, Congestion u)).
Definition binding_entry (b : SSNMBinding) : Z * bool := (b_Association b, b_Pending b).
Definition partition_entry (pk : SSNMPartitionKnowledge) : SSNMPartition * known :=
  (pk_Partition pk,
   mkKnown (pk_Epoch pk) (list_to_map (binding_entry <$> pk_Bindings pk))
     (list_to_map (knowledge_entry <$> pk_Destinations pk))).

Definition view_of_snapshot (sn : SSNMSnapshot) : view :=
  list_to_map (partition_entry <$> sn_Partitions sn).

Lemma both_lookup st k :
  merge both_dimensions (availability st) (congestion st) !! k =
  both_dimensions (availability st !! k) (congestion st !! k).
Proof. rewrite lookup_merge. by destruct (availability st !! k), (congestion st !! k). Qed.

(** A map read back from a list of its keys. *)
Lemma lookup_list_to_map_keys `{Countable K} {A} (g : K → A) (l : list K) k :
  (list_to_map ((λ k, (k, g k)) <$> l) : gmap K A) !! k =
  if decide (k ∈ l) then Some (g k) else None.
Proof.
  induction l as [|a l IH]; cbn; [done|].
  destruct (decide (a = k)) as [->|Hne].
  - rewrite lookup_insert_eq. by rewrite decide_True by left.
  - rewrite lookup_insert_ne, IH by done. apply decide_ext.
    rewrite elem_of_cons. naive_solver.
Qed.

(** The bindings of a snapshot rebuild the map they are listed from. *)
Lemma list_to_map_sorted_bindings (m : gmap Z bool) :
  (list_to_map (binding_entry <$>
    merge_sort binding_le ((λ '(a, pending), mkBinding a pending) <$> map_to_list m))
   : gmap Z bool) = m.
Proof.
  symmetry. rewrite <-(list_to_map_to_list m) at 1.
  apply list_to_map_proper; [apply NoDup_fst_map_to_list|].
  rewrite (merge_sort_Permutation binding_le), <-list_fmap_compose.
  rewrite (list_fmap_ext _ id); [by rewrite list_fmap_id|]. by intros _ [a b] _.
Qed.

Lemma elem_of_destination_keys st k :
  k ∈ destination_keys st ↔ is_Some (availability st !! k) ∨ is_Some (congestion st !! k).
Proof.
  unfold destination_keys. rewrite elem_of_app, list_elem_of_filter, !list_elem_of_fmap.
  rewrite eq_None_not_Some. split.
  - intros [([k' a] & -> & Hin)|(Hn & [k' c] & -> & Hin)];
      apply elem_of_map_to_list in Hin; cbn; eauto.
  - destruct (decide (is_Some (availability st !! k))) as [Ha|Ha].
    + destruct Ha as [a Ha]. left. exists (k, a). by rewrite elem_of_map_to_list.
    + intros [?|[c Hc]]; [done|]. right. split; [done|]. exists (k, c).
      by rewrite elem_of_map_to_list.
Qed.

Lemma precords_zero st : precords st = 0 → availability st = ∅ ∧ congestion st = ∅.
Proof. unfold precords. intros H0. split; apply map_size_empty_inv; lia. Qed.

(** The destinations of a snapshot rebuild both dimensions. *)
Lemma list_to_map_destinations st :
  list_to_map (knowledge_entry <$> partitionDestinationsLocked st) =
  merge both_dimensions (availability st) (congestion st).
Proof.
  unfold partitionDestinationsLocked. destruct (precords st =? 0) eqn:Hr; to_prop.
  - apply precords_zero in Hr as [-> ->]. by rewrite merge_empty.
  - rewrite <-list_fmap_compose. apply map_eq. intros k. rewrite both_lookup.
    etransitivity; [apply (lookup_list_to_map_keys
      (λ k, (availability st !! k, congestion st !! k)))|].
    pose proof (elem_of_destination_keys st k) as Hin.
    rewrite <-(merge_sort_Permutation key_le (destination_keys st)) in Hin.
    case_decide as Hd; rewrite Hin in Hd;
      destruct (availability st !! k), (congestion st !! k); try done;
      first [destruct Hd as [[]|[]]; done | destruct Hd; eauto].
Qed.

Lemma elem_of_sortSSNMPartitions p ps : p ∈ sortSSNMPartitions ps ↔ p ∈ ps.
Proof. unfold sortSSNMPartitions. by rewrite (merge_sort_Permutation partition_le). Qed.

Lemma known_of_snapshot p st : partition_entry (partitionKnowledge p st) = (p, known_of st).
Proof.
  unfold partition_entry, known_of. cbn. f_equal. f_equal.
  - apply list_to_map_sorted_bindings.
  - apply list_to_map_destinations.
Qed.

#[local] Arguments partition_entry : simpl never.
#[local] Arguments partitionKnowledge : simpl never.

Lemma lookup_partition_entries s ps p :
  (list_to_map (partition_entry <$> omap (λ p, partitionKnowledge p <$> partitions s !! p) ps)
   : view) !! p = if decide (p ∈ ps) then view_of s !! p else None.
Proof.
  unfold view_of. rewrite lookup_fmap. induction ps as [|q ps IH]; [done|]. cbn [omap list_omap].
  destruct (partitions s !! q) as [st|] eqn:Hq; cbn.
  - rewrite known_of_snapshot. cbn. destruct (decide (q = p)) as [->|Hne].
    + rewrite lookup_insert_eq, decide_True by by left. by rewrite Hq.
    + rewrite lookup_insert_ne by done. etransitivity; [exact IH|].
      apply decide_ext. rewrite elem_of_cons. naive_solver.
  - etransitivity; [exact IH|]. destruct (decide (q = p)) as [->|Hne].
    + rewrite Hq. cbn. by destruct (decide _), (decide _).
    + apply decide_ext. rewrite elem_of_cons. naive_solver.
Qed.

(** A snapshot says exactly what the store holds. *)
Lemma view_of_snapshotLocked s : view_of_snapshot (snapshotLocked s) = view_of s.
Proof.
  apply map_eq. intros p. unfold view_of_snapshot, snapshotLocked. cbn.
  rewrite lookup_partition_entries. case_decide as Hp; [done|].
  unfold view_of. rewrite lookup_fmap.
  destruct (partitions s !! p) as [st|] eqn:Hst; [|done]. destruct Hp.
  apply elem_of_sortSSNMPartitions, list_elem_of_fmap. exists (p, st).
  by rewrite elem_of_map_to_list.
Qed.

(** ** What an operation publishes *)

(** The revisions of [evs] count up from [r] to [r']. *)
Fixpoint rising (r : Z) (evs : list SSNMEvent) (r' : Z) : Prop :=
  match evs with
  | [] => r' = r
  | ev :: evs => e_Revision ev = r + 1 ∧ rising (r + 1) evs r'
  end.

Lemma rising_app r1 r2 r3 evs1 evs2 :
  rising r1 evs1 r2 → rising r2 evs2 r3 → rising r1 (evs1 ++ evs2) r3.
Proof.
  revert r1. induction evs1 as [|ev evs1 IH]; intros r1; cbn; [by intros ->|].
  intros [-> H1] H2. split; [done|by apply IH].
Qed.

Lemma rising_le r evs r' : rising r evs r' → r ≤ r'.
Proof.
  revert r. induction evs as [|ev evs IH]; intros r; cbn; [lia|].
  intros [_ Hr]. apply IH in Hr. lia.
Qed.

Lemma rising_fun r evs r1 r2 : rising r evs r1 → rising r evs r2 → r1 = r2.
Proof.
  revert r. induction evs as [|ev evs IH]; intros r; cbn; [by intros -> ->|].
  intros [_ H1] [_ H2]. by eapply IH.
Qed.

(** A subscription after a run of events. *)
Definition enqueue_all (evs : list SSNMEvent) (sub : Subscription.SSNMSubscription)
    : Subscription.SSNMSubscription :=
  foldl (λ sub ev, Subscription.enqueue ev sub) sub evs.

(** From [s] to [s'] the store published [evs]: they patch the view of [s] to
    that of [s'], and every subscriber was handed each of them. *)
Record published (evs : list SSNMEvent) (s s' : ssnmState) : Prop := {
  pb_view : subscribers s ≠ ∅ → foldl patch (view_of s) evs = view_of s';
  pb_sub i : subscriptions s' !! i =
    (λ sub, if decide (i ∈ subscribers s) then enqueue_all evs sub else sub) <$>
      subscriptions s !! i;
  pb_reg : subscribers s' = subscribers s;
  pb_closed : closed s' = closed s;
  pb_limits : limits s' = limits s;
  pb_revision : rising (revision s) evs (revision s');
  pb_kind : Forall (λ ev, e_Kind ev ≠ SSNMContinuityLostEvent) evs;
}.

Lemma published_nil s : published [] s s.
Proof.
  constructor; cbn; try done. intros i. destruct (subscriptions s !! i); [|done].
  cbn. by destruct (decide _).
Qed.

Lemma published_trans evs1 evs2 s1 s2 s3 :
  published evs1 s1 s2 → published evs2 s2 s3 → published (evs1 ++ evs2) s1 s3.
Proof.
  intros [V1 S1 R1 C1 L1 N1 K1] [V2 S2 R2 C2 L2 N2 K2]. constructor; try congruence.
  - intros Hs. rewrite foldl_app, V1 by done. apply V2. by rewrite R1.
  - intros i. rewrite S2, S1, R1. destruct (subscriptions s1 !! i) as [sub|]; [|done].
    cbn. destruct (decide _); [|done]. unfold enqueue_all. by rewrite foldl_app.
  - by eapply rising_app.
  - by apply Forall_app.
Qed.

(** One event, published after the state changed. *)
Lemma published_one ev s s1 :
  subscriptions s1 = subscriptions s → subscribers s1 = subscribers s →
  closed s1 = closed s → limits s1 = limits s →
  revision s1 = revision s + 1 → e_Revision ev = revision s1 →
  e_Kind ev ≠ SSNMContinuityLostEvent →
  (subscribers s ≠ ∅ → patch (view_of s) ev = view_of s1) →
  published [ev] s (publishLocked ev s1).
Proof.
  intros H1 H2 H3 Hl H4 H5 Hk H6. constructor; cbn; try done.
  - intros i. rewrite map_lookup_imap, H1, H2.
    destruct (subscriptions s !! i) as [sub|]; [|done]. done.
  - by rewrite H5, H4.
  - by apply Forall_singleton.
Qed.

Lemma partial_alter_insert `{Countable K} {A} (f : option A → option A) (m : gmap K A) k x :
  f (m !! k) = Some x → partial_alter f k m = <[k:=x]> m.
Proof.
  intros Hf. apply map_eq. intros j. destruct (decide (k = j)) as [<-|Hne].
  - by rewrite lookup_partial_alter_eq, lookup_insert_eq.
  - by rewrite lookup_partial_alter_ne, lookup_insert_ne.
Qed.

Lemma alter_insert_of `{Countable K} {A} (f : A → A) (m : gmap K A) k x y :
  m !! k = Some x → f x = y → alter f k m = <[k:=y]> m.
Proof. intros Hk <-. apply (partial_alter_insert (fmap f)). by rewrite Hk. Qed.

Lemma view_lookup s p st : partitions s !! p = Some st → view_of s !! p = Some (known_of st).
Proof. intros Hp. unfold view_of. by rewrite lookup_fmap, Hp. Qed.

Lemma view_setPartition st s :
  view_of (setPartition st s) = <[partition st := known_of st]> (view_of s).
Proof. apply fmap_insert. Qed.
Lemma view_next s : view_of (nextRevisionLocked s) = view_of s.
Proof. done. Qed.

Lemma set_destinations_id k : set_destinations (replace_updated []) k = k.
Proof. by destruct k. Qed.

(** Events that change no knowledge. *)
Lemma patch_report_empty v ev :
  e_Kind ev = SSNMReportEvent → e_Updated ev = [] → patch v ev = v.
Proof.
  intros Hk Hu. unfold patch. rewrite Hk, Hu. apply map_eq. intros p.
  destruct (decide (e_Partition ev = p)) as [<-|Hne].
  - rewrite lookup_alter_eq. destruct (v !! _) as [k|]; [|done].
    cbn. by rewrite set_destinations_id.
  - by rewrite lookup_alter_ne.
Qed.

(** ** The knowledge a committed report leaves *)

Lemma commit_availability report rev peer st s writes k :
  availability (foldl (commitWrite report rev peer) (st, s) writes).1 !! k =
  if decide (k ∈ w_key <$> writes ∧ retainsAvailability report = true)
  then Some (availabilityRecord report rev) else availability st !! k.
Proof.
  revert st s. induction writes as [|w writes IH]; intros st s; cbn [foldl fmap list_fmap].
  { rewrite decide_False; [done|]. intros [H0 _]. by apply elem_of_nil in H0. }
  destruct (commitWrite report rev peer (st, s) w) as [st1 s1] eqn:Hc.
  rewrite IH. unfold commitWrite in Hc. cbn in Hc. injection Hc as <- _.
  destruct (retainsAvailability report); cbn.
  - destruct (decide (k = w_key w)) as [->|Hne].
    + rewrite lookup_insert_eq, (decide_True (P:=_ ∈ w_key w :: _ ∧ _)); [by case_decide|].
      split; [by left|done].
    + rewrite lookup_insert_ne by done. apply decide_ext. rewrite elem_of_cons. naive_solver.
  - apply decide_ext. rewrite elem_of_cons. naive_solver.
Qed.

Lemma commit_congestion report rev peer st s writes k :
  congestion (foldl (commitWrite report rev peer) (st, s) writes).1 !! k =
  if decide (k ∈ w_key <$> writes ∧ retainsAvailability report = false)
  then Some (congestionRecord report rev) else congestion st !! k.
Proof.
  revert st s. induction writes as [|w writes IH]; intros st s; cbn [foldl fmap list_fmap].
  { rewrite decide_False; [done|]. intros [H0 _]. by apply elem_of_nil in H0. }
  destruct (commitWrite report rev peer (st, s) w) as [st1 s1] eqn:Hc.
  rewrite IH. unfold commitWrite in Hc. cbn in Hc. injection Hc as <- _.
  destruct (retainsAvailability report); cbn.
  - apply decide_ext. rewrite elem_of_cons. naive_solver.
  - destruct (decide (k = w_key w)) as [->|Hne].
    + rewrite lookup_insert_eq, (decide_True (P:=_ ∈ w_key w :: _ ∧ _)); [by case_decide|].
      split; [by left|done].
    + rewrite lookup_insert_ne by done. apply decide_ext. rewrite elem_of_cons. naive_solver.
Qed.

(** Replacing the entries of a list of destinations. *)
Lemma replace_updated_lookup st ks m k :
  replace_updated (retainedKnowledge st <$> ks) m !! k =
  if decide (k ∈ ks) then Some (availability st !! k, congestion st !! k) else m !! k.
Proof.
  unfold replace_updated. revert m. induction ks as [|j ks IH]; intros m; [done|].
  cbn [fmap list_fmap foldl]. rewrite IH. cbn [retainedKnowledge Destination Availability Congestion].
  destruct (decide (k = j)) as [->|Hne].
  - rewrite lookup_insert_eq, (decide_True (P:=_ ∈ j :: _)) by by left. by case_decide.
  - rewrite lookup_insert_ne by done. apply decide_ext. rewrite elem_of_cons. naive_solver.
Qed.

(** The partition a report leaves is the one its event patches. *)
Lemma known_of_commit report rev peer st s writes :
  epoch (foldl (commitWrite report rev peer) (st, s) writes).1 = epoch st →
  bindings (foldl (commitWrite report rev peer) (st, s) writes).1 = bindings st →
  let st' := (foldl (commitWrite report rev peer) (st, s) writes).1 in
  known_of st' =
  set_destinations (replace_updated (retainedKnowledge st' <$> (w_key <$> writes))) (known_of st).
Proof.
  intros He Hb st'. unfold known_of, set_destinations. cbn. f_equal; [done|done|].
  apply map_eq. intros k. rewrite replace_updated_lookup, !both_lookup.
  unfold st'. rewrite commit_availability, commit_congestion.
  destruct (decide (k ∈ w_key <$> writes)) as [Hin|Hin].
  - destruct (retainsAvailability report).
    + rewrite decide_True by done. by rewrite decide_False by naive_solver.
    + rewrite decide_False, decide_True by naive_solver. by destruct (availability st !! k).
  - by rewrite !decide_False by naive_solver.
Qed.

Section published.
Context `{Quoting}.

Lemma published_refuseLocked n reason s s0 :
  partitions s = partitions s0 → subscriptions s = subscriptions s0 →
  subscribers s = subscribers s0 → closed s = closed s0 → limits s = limits s0 →
  revision s = revision s0 →
  ∃ ev, published [ev] s0 (refuseLocked n reason s).
Proof.
  intros H1 H2 H3 H4 Hl H5. eexists. apply published_one; try done; cbn.
  - by rewrite H5.
  - intros _. unfold view_of. cbn. by rewrite H1.
Qed.

Lemma published_refusal n reason s e :
  ∃ evs, published evs s ((Some e, refuseLocked n reason s) : option ssnm_error * _).2.
Proof. destruct (published_refuseLocked n reason s s) as [ev Hev]; eauto. Qed.

Lemma published_event_only report s : ∃ ev, published [ev] s (publishEventOnlyLocked report s).
Proof. eexists. apply published_one; try done. intros _. by apply patch_report_empty. Qed.

(** The event of a binding patches the partition's entry. *)
Lemma patch_binding v p e a pending previous held st' :
  v !! p = held → default (mkKnown e ∅ ∅) held = known_of st' →
  bindings st' !! a = previous → previous ≠ Some pending → (held = None → previous = None) →
  patch v (mkEvent (if bool_decide (previous = Some true) && negb pending
                    then SSNMBindingActivatedEvent else SSNMBindingAdmittedEvent)
             0 p e None (mkBinding a pending) [] "" false) =
  <[p := known_of (mkPartitionState p (epoch st') (<[a:=pending]> (bindings st'))
          (availability st') (congestion st') 0)]> v.
Proof.
  intros Hv Hk Hprev Hne Hnone. case_bool_decide as Ht; destruct pending; cbn [andb negb].
  - done.
  - destruct held as [k|]; [|by specialize (Hnone eq_refl) as ->].
    unfold patch. cbn. eapply alter_insert_of; [exact Hv|]. cbn in Hk. by rewrite Hk.
  - unfold patch. cbn. apply partial_alter_insert. by rewrite Hv, Hk.
  - unfold patch. cbn. apply partial_alter_insert. by rewrite Hv, Hk.
Qed.

Lemma published_bindExisting st a pending s :
  partitions s !! partition st = Some st →
  ∃ evs, published evs s (bindExisting st a pending s).
Proof.
  intros Hp. unfold bindExisting. case_bool_decide as Heq; [exists []; apply published_nil|].
  eexists [_]. apply published_one; try done; [cbn; by case_match|]. intros _.
  rewrite view_next, view_setPartition. cbn [partition].
  eapply patch_binding; [apply (view_lookup _ _ _ Hp)|done|done|done|done].
Qed.

(** The first binding of a partition. *)
Lemma published_bindNew p a pending s :
  partitions s !! p = None →
  let '(st, s1) := createPartition p s in
  ∃ evs, published evs s (bindExisting st a pending s1).
Proof.
  intros Hp. destruct (createPartition p s) as [st s1] eqn:Hc.
  unfold createPartition in Hc. injection Hc as <- <-.
  unfold bindExisting. cbn [bindings partition].
  rewrite lookup_empty. rewrite bool_decide_eq_false_2 by done.
  eexists [_]. apply published_one; try done. intros _.
  rewrite view_next, view_setPartition. cbn [partition].
  set (st1 := mkPartitionState p (epochs s + 1) ∅ ∅ ∅ ssnmPartitionBaseBytes).
  etransitivity.
  - eapply (patch_binding (view_of s) p _ a pending None None st1); try done.
    unfold view_of. by rewrite lookup_fmap, Hp.
  - etransitivity; [symmetry; apply (insert_insert_eq (view_of s) p _ (known_of st1))|].
    f_equal. symmetry. exact (fmap_insert known_of (partitions s) p st1).
Qed.

Lemma published_bind p a pending s :
  store_ok s → ∃ evs, published evs s (bind p a pending s).2.
Proof.
  intros Hok. unfold bind. destruct (Kind p =? 0); [exists []; apply published_nil|].
  destruct (closed s); [exists []; apply published_nil|].
  destruct (partitions s !! p) as [st|] eqn:Hp.
  - apply published_bindExisting. by rewrite (ac_key _ (ok_accounted _ Hok) _ _ Hp).
  - destruct (_ <=? _); [by apply published_refusal|].
    destruct (_ <? _); [by apply published_refusal|].
    pose proof (published_bindNew p a pending s Hp) as Hn.
    by destruct (createPartition p s).
Qed.

Lemma known_of_emptied st :
  known_of (emptied st) = set_destinations (λ _, ∅) (known_of st).
Proof. unfold known_of, set_destinations. cbn. by rewrite merge_empty. Qed.

Lemma view_drop st s :
  view_of (dropPartitionRecordsLocked st s).2 =
  <[partition st := set_destinations (λ _, ∅) (known_of st)]> (view_of s).
Proof.
  rewrite <-known_of_emptied. exact (fmap_insert known_of (partitions s) _ (emptied st)).
Qed.

(** An operation and the bookkeeping around it: what [published_one] asks. *)
Definition untouched (s s1 : ssnmState) : Prop :=
  subscriptions s1 = subscriptions s ∧ subscribers s1 = subscribers s ∧
  closed s1 = closed s ∧ limits s1 = limits s ∧ revision s1 = revision s.

Lemma untouched_drop st s : untouched s (dropPartitionRecordsLocked st s).2.
Proof. done. Qed.

Lemma published_retireLocked p a s :
  accounted s → ∃ evs, published evs s (retireLocked p a s).
Proof.
  intros Ha. unfold retireLocked.
  destruct (partitions s !! p) as [st|] eqn:Hp; [|exists []; apply published_nil].
  pose proof (ac_key _ Ha _ _ Hp) as Hk. subst p.
  destruct (bindings st !! a); [|exists []; apply published_nil].
  set (st1 := mkPartitionState (partition st) (epoch st) (delete a (bindings st))
    (availability st) (congestion st) (pbytes st)).
  cbn [bindings st1]. case_bool_decide as He; cbn [negb].
  - rewrite drop_split. pose proof (view_drop st1 (setPartition st1 s)) as Hv.
    destruct (untouched_drop st1 (setPartition st1 s)) as (U1 & U2 & U3 & U4 & U5).
    set (s2 := (dropPartitionRecordsLocked st1 _).2) in *. clearbody s2.
    eexists [_]. apply published_one; cbn; try done; [by rewrite U5|]. intros _.
    change (delete (partition st) (view_of s) = known_of <$> delete (partition st) (partitions s2)).
    rewrite fmap_delete. change (known_of <$> partitions s2) with (view_of s2).
    rewrite Hv, view_setPartition. cbn [partition st1]. by rewrite !delete_insert_eq.
  - eexists [_]. apply published_one; try done. intros _.
    rewrite view_next, view_setPartition. cbn [partition st1].
    unfold patch. cbn. by eapply alter_insert_of; [apply (view_lookup _ _ _ Hp)|].
Qed.

Lemma published_invalidateLocked p reason s :
  accounted s → ∃ evs, published evs s (invalidateLocked p reason s).
Proof.
  intros Ha. unfold invalidateLocked.
  destruct (partitions s !! p) as [st|] eqn:Hp; [|exists []; apply published_nil].
  pose proof (ac_key _ Ha _ _ Hp) as Hk. subst p.
  destruct (_ =? 0); [exists []; apply published_nil|].
  rewrite drop_split. pose proof (view_drop st s) as Hv.
  destruct (untouched_drop st s) as (U1 & U2 & U3 & U4 & U5).
  set (s2 := (dropPartitionRecordsLocked st s).2) in *. clearbody s2.
  eexists [_]. apply published_one; cbn; try done; [by rewrite U5|]. intros _.
  change (alter (set_destinations (λ _, ∅)) (partition st) (view_of s) = view_of s2).
  rewrite Hv. by eapply alter_insert_of; [apply (view_lookup _ _ _ Hp)|].
Qed.

(** A loop of operations that each keep the store and publish. *)
Lemma published_foldl {A} (f : ssnmState → A → ssnmState) l s :
  (∀ s a, store_ok s → store_ok (f s a) ∧ ∃ evs, published evs s (f s a)) →
  store_ok s → ∃ evs, published evs s (foldl f s l).
Proof.
  intros Hf. revert s. induction l as [|a l IH]; intros s Hs; [exists []; apply published_nil|].
  cbn. destruct (Hf s a Hs) as [Hs' [evs1 H1]]. destruct (IH _ Hs') as [evs2 H2].
  exists (evs1 ++ evs2). by eapply published_trans.
Qed.

Lemma published_retireAssociation a s :
  store_ok s → ∃ evs, published evs s (retireAssociation a s).
Proof.
  apply published_foldl. intros s' p Hs. split; [by apply ok_retireLocked|].
  by apply published_retireLocked, ok_accounted.
Qed.

Lemma published_oversized ps c l a s :
  store_ok s → ∃ evs, published evs s (oversized ps c l a s).2.
Proof.
  intros Hok. unfold oversized. cbn [snd]. set (reason := (_ +:+ _)%string).
  destruct (published_refuseLocked 0 reason (set_losses (recordsRefused s)
    (reportsRefused s + 1) (partitionsInvalidated s) (lastResourceLoss s) s) s) as [ev H1];
    try done.
  destruct (published_foldl (λ s p, invalidateLocked p reason s) ps
    (refuseLocked 0 reason (set_losses (recordsRefused s)
      (reportsRefused s + 1) (partitionsInvalidated s) (lastResourceLoss s) s))) as [evs H2].
  - intros s' p Hs. split; [by apply ok_invalidateLocked|].
    by apply published_invalidateLocked, ok_accounted.
  - eapply same_store_ok; [apply same_store_refuse|].
    by eapply same_store_ok; [apply same_store_losses|].
  - exists ([ev] ++ evs). by eapply published_trans.
Qed.

Lemma published_apply report s :
  store_ok s → ∃ evs, published evs s (apply report s).2.
Proof.
  intros Hok. unfold apply. destruct (Kind _ =? 0); [exists []; apply published_nil|].
  destruct (closed s); [exists []; apply published_nil|].
  destruct (partitions s !! _) as [st|] eqn:Hp;
    [|destruct (published_event_only report s) as [ev Hev]; eauto].
  pose proof (ac_key _ (ok_accounted _ Hok) _ _ Hp) as Hk.
  set (rep := with_Epoch (epoch st) report).
  destruct (_ && _); [destruct (published_event_only rep s) as [ev Hev]; eauto|].
  case_bool_decide as He; [destruct (published_event_only rep s) as [ev Hev]; eauto|].
  change (r_Partition rep) with (r_Partition report). rewrite <-Hk in Hp |- *.
  destruct (admitLocked _ _ _ _ _ _) as [[e s']|] eqn:Hadm.
  { apply admitLocked_refusal in Hadm as [r [= -> ->]].
    edestruct published_refuseLocked as [ev Hev]; [..|by exists [ev]]; done. }
  clear Hadm.
  set (s1 := nextRevisionLocked s). set (rev := revision s1).
  assert (Hok1 : store_ok s1) by (eapply same_store_ok; [apply same_store_next|done]).
  destruct (commit_writes (with_Revision rev rep) rev st s1 (prepare st rep)
    (ok_accounted _ Hok1) Hp (eq_ind_r NoDup (written_keys_NoDup rep) (prepare_keys st rep))
    (prepare_ok st rep)) as [_ [_ C2 C3 _ C5 _ _ _ C9 [C10 _] (C11 & C12 & C13)]].
  pose proof (known_of_commit (with_Revision rev rep) rev (peerKey (partition st)) st s1
    (prepare st rep) C2 C3) as Hkn. cbn zeta in Hkn.
  destruct (foldl _ _ _) as [st' s'] eqn:Hf. cbn [fst snd] in *.
  eexists [_]. apply published_one; try done.
  intros Hsubs. rewrite bool_decide_eq_false_2 by by rewrite C12.
  unfold view_of. rewrite C5. etransitivity; [|symmetry; apply fmap_insert].
  unfold patch. cbn [e_Kind e_Partition e_Updated].
  change (r_Partition (with_Revision rev rep)) with (r_Partition report). rewrite <-Hk.
  eapply alter_insert_of; [apply (view_lookup s _ st Hp)|].
  rewrite Hkn. by rewrite <-list_fmap_compose.
Qed.

End published.

(** ** Consumers *)

(** What a consumer holds: its view, and the revision it has seen. *)
Record consumer : Set := mkConsumer { cv_view : view; cv_revision : Z }.

Definition from_snapshot (sn : SSNMSnapshot) : consumer :=
  mkConsumer (view_of_snapshot sn) (sn_Revision sn).

(** One delivered event: the continuity marker changes nothing. *)
Definition deliver (c : consumer) (ev : SSNMEvent) : consumer :=
  match e_Kind ev with
  | SSNMContinuityLostEvent => c
  | _ => mkConsumer (patch (cv_view c) ev) (e_Revision ev)
  end.

(** What an operation of the store does to the consumers. *)
Definition consume `{Quoting} (op : operation) (s : ssnmState) (cs : gmap nat consumer)
    : gmap nat consumer :=
  match op with
  | OpSubscribe =>
      match (SubscribeSSNM s).1 with Ok (sn, i) => <[i := from_snapshot sn]> cs | _ => cs end
  | OpNext i =>
      match (Next i s).1 with
      | Some (Ok ev) => alter (λ c, deliver c ev) i cs
      | _ => cs
      end
  | OpResync i =>
      match (Resync i s).1 with Ok sn => <[i := from_snapshot sn]> cs | _ => cs end
  | _ => cs
  end.

(** The store with its consumers: the concrete and the abstract state. *)
Inductive observed `{Quoting} (config : option SSNMStateConfig)
    : ssnmState → gmap nat consumer → Prop :=
| obs_new s : newSSNMState config = Ok s → observed config s ∅
| obs_step op s cs : observed config s cs → observed config (run op s) (consume op s cs).

Definition queued (sub : Subscription.SSNMSubscription) : list SSNMEvent :=
  (Subscription.queue sub).*1.

(** The registered subscription [i] misses nothing. *)
Definition continuous (s : ssnmState) (i : nat) (sub : Subscription.SSNMSubscription) : Prop :=
  i ∈ subscribers s ∧ Subscription.continuityLost sub = false.

Record tracked (s : ssnmState) (i : nat) (sub : Subscription.SSNMSubscription) (c : consumer)
    : Prop := {
  tr_revision : ∃ r, rising (cv_revision c) (queued sub) r ∧ r ≤ revision s ∧
    (continuous s i sub → r = revision s);
  tr_view : continuous s i sub → foldl patch (cv_view c) (queued sub) = view_of s;
  tr_kind : Forall (λ ev, e_Kind ev ≠ SSNMContinuityLostEvent) (queued sub);
}.

Record synced (s : ssnmState) (cs : gmap nat consumer) : Prop := {
  sy_closed : closed s = true → subscribers s = ∅;
  sy_reg i : i ∈ subscribers s →
    ∃ sub, subscriptions s !! i = Some sub ∧ Subscription.s_closed sub = false;
  sy_sub i sub : subscriptions s !! i = Some sub → ∃ c, cs !! i = Some c ∧ tracked s i sub c;
}.

Lemma enqueue_all_lost evs sub :
  Subscription.continuityLost sub = true → enqueue_all evs sub = sub.
Proof.
  intros Hl. unfold enqueue_all. induction evs as [|ev evs IH]; [done|]. cbn.
  rewrite <-IH at 2. f_equal. unfold Subscription.enqueue. rewrite Hl.
  by destruct (Subscription.s_closed sub).
Qed.

(** [enqueue] appends the event, or loses continuity and keeps its queue. *)
Lemma enqueue_cases ev sub :
  Subscription.s_closed sub = false → Subscription.continuityLost sub = false →
  let sub' := Subscription.enqueue ev sub in
  Subscription.s_closed sub' = false ∧
  (queued sub' = queued sub ++ [ev] ∧ Subscription.continuityLost sub' = false ∨
   queued sub' = queued sub ∧ Subscription.continuityLost sub' = true).
Proof.
  intros Hc Hl. unfold Subscription.enqueue. rewrite Hc, Hl.
  case_match; cbn; (split; [done|]); [left|by right].
  split; [|done]. unfold queued. cbn. by rewrite fmap_app.
Qed.

(** Handing events to a subscription queues a prefix of them, all of them
    unless it loses continuity. *)
Lemma enqueue_all_spec evs sub :
  Subscription.s_closed sub = false →
  Subscription.s_closed (enqueue_all evs sub) = false ∧
  ∃ pre, pre `prefix_of` evs ∧ queued (enqueue_all evs sub) = queued sub ++ pre ∧
    (Subscription.continuityLost (enqueue_all evs sub) = false →
     Subscription.continuityLost sub = false ∧ pre = evs).
Proof.
  revert sub. induction evs as [|ev evs IH]; intros sub Hc.
  { split; [done|]. exists []. rewrite app_nil_r. split_and!; [apply prefix_nil|done|done]. }
  destruct (Subscription.continuityLost sub) eqn:Hl.
  { rewrite enqueue_all_lost by done. split; [done|]. exists [].
    rewrite app_nil_r. split_and!; [apply prefix_nil|done|congruence]. }
  change (enqueue_all (ev :: evs) sub) with (enqueue_all evs (Subscription.enqueue ev sub)).
  destruct (enqueue_cases ev sub Hc Hl) as (Hc' & [[Hq Hl']|[Hq Hl']]).
  - destruct (IH _ Hc') as (I1 & pre & I2 & I3 & I4). split; [done|].
    exists (ev :: pre). rewrite I3, Hq, <-app_assoc. split_and!; [by apply prefix_cons|done|].
    intros Hn. by apply I4 in Hn as [_ ->].
  - rewrite enqueue_all_lost by done. split; [done|]. exists [].
    rewrite app_nil_r. split_and!; [apply prefix_nil|done|congruence].
Qed.

Lemma rising_prefix r evs r' pre :
  rising r evs r' → pre `prefix_of` evs → ∃ r'', rising r pre r'' ∧ r'' ≤ r'.
Proof.
  intros Hr [k ->]. revert r Hr. induction pre as [|ev pre IH]; intros r Hr; cbn in *.
  - exists r. split; [done|]. by eapply rising_le.
  - destruct Hr as [He Hr]. destruct (IH _ Hr) as (r'' & H1 & H2). eauto.
Qed.

(** ** Every operation keeps the consumers in step *)

(** A subscription that receives nothing more keeps its consumer. *)
Lemma tracked_idle s s' i sub c :
  revision s ≤ revision s' → ¬ continuous s' i sub → tracked s i sub c → tracked s' i sub c.
Proof.
  intros Hr Hn [(r & T1 & T2 & T3) T4 T5]. constructor; [|by intros ?|done].
  exists r. split_and!; [done|lia|by intros ?].
Qed.

Lemma synced_published evs s s' cs : published evs s s' → synced s cs → synced s' cs.
Proof.
  intros [V P R C _ N K] [Y1 Y2 Y3]. pose proof (rising_le _ _ _ N) as Hle. constructor.
  - by rewrite R, C.
  - intros i. rewrite R. intros Hi. destruct (Y2 i Hi) as (sub & Hs & Hc).
    exists (enqueue_all evs sub). rewrite P, Hs. cbn. rewrite decide_True by done.
    split; [done|]. by apply enqueue_all_spec.
  - intros i sub'. rewrite P. destruct (subscriptions s !! i) as [sub|] eqn:Hs; [|done].
    cbn. intros [= <-]. destruct (Y3 i sub Hs) as (c & Hcs & Ht). exists c. split; [done|].
    destruct (decide (i ∈ subscribers s)) as [Hi|Hi].
    2:{ apply (tracked_idle s); [done| |done]. intros [Hi' _]. by rewrite R in Hi'. }
    destruct (Subscription.continuityLost sub) eqn:Hl.
    { rewrite enqueue_all_lost by done. apply (tracked_idle s); [done| |done].
      intros [_ Hl']. congruence. }
    destruct (Y2 i Hi) as (sub1 & Hs1 & Hc). rewrite Hs in Hs1. injection Hs1 as <-.
    destruct Ht as [(r & T1 & T2 & T3) T4 T5].
    rewrite (T3 (conj Hi Hl)) in T1. specialize (T4 (conj Hi Hl)).
    destruct (enqueue_all_spec evs sub Hc) as (E1 & pre & E2 & E3 & E4).
    constructor; rewrite ?E3.
    + destruct (rising_prefix _ _ _ _ N E2) as (r'' & G1 & G2).
      exists r''. split_and!; [by eapply rising_app|done|].
      intros [_ Hn]. apply E4 in Hn as [_ ->]. by eapply rising_fun.
    + intros [_ Hn]. apply E4 in Hn as [_ ->]. rewrite foldl_app, T4. apply V. set_solver.
    + apply Forall_app. split; [done|]. destruct E2 as [k ->]. by apply Forall_app in K as [K _].
Qed.

(** A subscription that starts over from a snapshot. *)
Lemma tracked_snapshot s i sub :
  queued sub = [] → tracked s i sub (from_snapshot (snapshotLocked s)).
Proof.
  intros Hq. constructor; rewrite Hq; cbn.
  - exists (revision s). by split_and!.
  - intros _. apply view_of_snapshotLocked.
  - constructor.
Qed.

Lemma synced_new config s : newSSNMState config = Ok s → synced s ∅.
Proof.
  unfold newSSNMState. intros Hn. apply bind_Ok in Hn as (l & _ & [= <-]).
  constructor; cbn; [done| |done]. intros i Hi. by apply elem_of_empty in Hi.
Qed.

(** Only the subscription objects, the registrations and [closed] change. *)
Lemma tracked_subscriptions s i sub c subs reg cl :
  (i ∈ reg → i ∈ subscribers s) →
  tracked s i sub c → tracked (set_subscriptions subs reg cl s) i sub c.
Proof.
  intros Hreg [(r & T1 & T2 & T3) T4 T5].
  assert (Hc : continuous (set_subscriptions subs reg cl s) i sub → continuous s i sub).
  { intros [H1 H2]. split; [by apply Hreg|done]. }
  constructor; [|by intros ?%Hc; apply T4|done].
  exists r. split_and!; [done|done|by intros ?%Hc; apply T3].
Qed.

(** The object of one subscription is replaced. *)
Lemma synced_replace s cs i sub sub' c' :
  synced s cs → subscriptions s !! i = Some sub →
  Subscription.s_closed sub' = Subscription.s_closed sub →
  tracked s i sub' c' →
  synced (set_subscriptions (<[i := sub']> (subscriptions s)) (subscribers s) (closed s) s)
    (<[i := c']> cs).
Proof.
  intros [Y1 Y2 Y3] Hs Hc Ht. constructor; [done| |].
  - intros j Hj. cbn in *. destruct (Y2 j Hj) as (subj & Hsj & Hcj).
    destruct (decide (i = j)) as [<-|Hne].
    + exists sub'. rewrite lookup_insert_eq. split; [done|]. congruence.
    + exists subj. by rewrite lookup_insert_ne.
  - intros j subj. cbn. intros [[<- <-]|[Hne Hj]]%lookup_insert_Some.
    + exists c'. rewrite lookup_insert_eq. split; [done|]. by apply tracked_subscriptions.
    + destruct (Y3 j subj Hj) as (c & Hcj & Htj). exists c.
      rewrite lookup_insert_ne by done. split; [done|]. by apply tracked_subscriptions.
Qed.

(** The part of a subscription its consumer depends on. *)
Lemma tracked_ext s i sub sub' c :
  queued sub' = queued sub → Subscription.continuityLost sub' = Subscription.continuityLost sub →
  tracked s i sub c → tracked s i sub' c.
Proof.
  intros Hq Hl [T1 T2 T3]. unfold continuous in *.
  constructor; unfold continuous; rewrite ?Hq, ?Hl; done.
Qed.

(** Taking the head of the queue delivers it. *)
Lemma tracked_take s i sub sub' ev c :
  queued sub = ev :: queued sub' →
  Subscription.continuityLost sub' = Subscription.continuityLost sub →
  tracked s i sub c → tracked s i sub' (deliver c ev).
Proof.
  intros Hq Hl [(r & T1 & T2 & T3) T4 T5]. rewrite Hq in T1, T4, T5.
  apply Forall_cons in T5 as [Hk T5]. destruct T1 as [Hr T1].
  assert (Hd : deliver c ev = mkConsumer (patch (cv_view c) ev) (e_Revision ev)).
  { unfold deliver. by destruct (e_Kind ev). }
  rewrite Hd. unfold continuous in *. rewrite <-Hl in *.
  constructor; cbn; [|done|done]. exists r. by rewrite Hr.
Qed.

Section synced.
Context `{Quoting}.

Lemma synced_subscribe s cs :
  synced s cs → synced (run OpSubscribe s) (consume OpSubscribe s cs).
Proof.
  intros Hy. pose proof Hy as [Y1 Y2 Y3]. cbn [run consume]. unfold SubscribeSSNM.
  destruct (closed s) eqn:Hcl; [done|]. destruct (_ <=? _); [done|]. cbn.
  set (i := freshSubscription s).
  assert (Hi : subscriptions s !! i = None).
  { apply (not_elem_of_dom (D:=gset nat)). unfold i, freshSubscription. apply is_fresh. }
  set (sub := Subscription.newSSNMSubscription _ _).
  constructor; cbn.
  - done.
  - intros j [->%elem_of_singleton|Hj]%elem_of_union.
    + exists sub. by rewrite lookup_insert_eq.
    + destruct (Y2 j Hj) as (subj & Hsj & Hcj). exists subj.
      rewrite lookup_insert_ne; [done|]. intros <-. congruence.
  - intros j subj [[<- <-]|[Hne Hj]]%lookup_insert_Some.
    + exists (from_snapshot (snapshotLocked s)). rewrite lookup_insert_eq.
      split; [done|]. by apply (tracked_snapshot (set_subscriptions _ _ _ s)).
    + destruct (Y3 j subj Hj) as (c & Hcj & Htj). exists c.
      rewrite lookup_insert_ne by done. split; [done|]. apply tracked_subscriptions; [|done].
      set_solver.
Qed.

Lemma synced_next i s cs : synced s cs → synced (run (OpNext i) s) (consume (OpNext i) s cs).
Proof.
  intros Hy. pose proof Hy as [Y1 Y2 Y3]. cbn [run consume]. unfold Next.
  destruct (subscriptions s !! i) as [sub|] eqn:Hs; [|done].
  destruct (Y3 i sub Hs) as (c & Hcs & Ht).
  unfold Subscription.take. destruct (Subscription.queue sub) as [|[ev n] q] eqn:Hq.
  - assert (Hid : cs = <[i := c]> cs) by by rewrite insert_id.
    assert (Hq0 : queued sub = []) by (unfold queued; by rewrite Hq).
    destruct (Subscription.s_closed sub) eqn:Hcl; cbn.
    { rewrite Hid. by eapply synced_replace. }
    destruct (Subscription.pendingLoss sub); cbn.
    + rewrite (alter_insert_of _ _ i c c) by done. eapply synced_replace; [done..|].
      eapply tracked_ext; [..|exact Ht]; [by rewrite Hq0|done].
    + rewrite Hid. by eapply synced_replace.
  - cbn. rewrite (alter_insert_of _ _ i c (deliver c ev)) by done.
    eapply synced_replace; [done..|].
    eapply tracked_take; [..|exact Ht]; [|done]. unfold queued. cbn. by rewrite Hq.
Qed.

Lemma synced_resync i s cs :
  synced s cs → synced (run (OpResync i) s) (consume (OpResync i) s cs).
Proof.
  intros Hy. pose proof Hy as [Y1 Y2 Y3]. cbn [run consume]. unfold Resync.
  destruct (subscriptions s !! i) as [sub|] eqn:Hs; [|done].
  destruct (Subscription.s_closed sub) eqn:Hc; [done|].
  destruct (closed s) eqn:Hcl; cbn.
  - constructor; cbn; [done| |].
    + intros j. by rewrite Y1.
    + intros j subj [[<- <-]|[Hne Hj]]%lookup_insert_Some.
      * destruct (Y3 i sub Hs) as (c & Hcs & Ht). exists c. split; [done|].
        apply tracked_subscriptions; [done|].
        eapply tracked_ext; [..|exact Ht]; unfold Subscription.terminate; by rewrite Hc.
      * destruct (Y3 j subj Hj) as (c & Hcs & Ht). exists c. split; [done|].
        by apply tracked_subscriptions.
  - assert (Hst : ∀ subs reg, set_subscriptions subs reg false s =
      set_subscriptions subs reg (closed s) s) by by rewrite Hcl.
    rewrite Hst. eapply synced_replace; [done..|]. by apply tracked_snapshot.
Qed.

Lemma synced_close_subscription i s cs : synced s cs → synced (CloseSubscription i s) cs.
Proof.
  intros [Y1 Y2 Y3]. constructor; cbn.
  - intros Hc. rewrite Y1 by done. set_solver.
  - intros j [Hj Hne]%elem_of_difference. rewrite lookup_alter_ne by set_solver. by apply Y2.
  - intros j subj. rewrite lookup_alter_Some.
    intros [(-> & sub & Hs & ->)|(Hne & Hs)];
      (destruct (Y3 j _ Hs) as (c & Hcs & Ht); exists c; split; [done|];
       apply tracked_subscriptions; [set_solver|]); [|done].
    eapply tracked_ext; [..|exact Ht]; unfold Subscription.terminate; by case_match.
Qed.

Lemma synced_close s cs : synced s cs → synced (closeStore s) cs.
Proof.
  intros Hy. pose proof Hy as [Y1 Y2 Y3]. unfold closeStore.
  destruct (closed s); [done|]. constructor; cbn; [done|set_solver|].
  intros j subj. rewrite map_lookup_imap.
  destruct (subscriptions s !! j) as [sub|] eqn:Hs; [|done]. cbn. intros [= <-].
  destruct (Y3 j _ Hs) as (c & Hcs & Ht). exists c. split; [done|].
  apply tracked_subscriptions; [set_solver|].
  eapply tracked_ext; [..|exact Ht]; case_decide; try done;
    unfold Subscription.terminate; by case_match.
Qed.

Lemma synced_run op s cs :
  store_ok s → synced s cs → synced (run op s) (consume op s cs).
Proof.
  intros Hok Hy. pose proof (ok_accounted _ Hok) as Ha. destruct op; cbn [run consume].
  - destruct (published_bind p association pending s Hok) as [evs Hp].
    by eapply synced_published.
  - destruct (published_retireLocked p association s Ha) as [evs Hp].
    by eapply synced_published.
  - destruct (published_retireAssociation association s Hok) as [evs Hp].
    by eapply synced_published.
  - destruct (published_apply report s Hok) as [evs Hp]. by eapply synced_published.
  - destruct (published_oversized ps count lim association s Hok) as [evs Hp].
    by eapply synced_published.
  - by apply synced_subscribe.
  - by apply synced_next.
  - by apply synced_resync.
  - by apply synced_close_subscription.
  - by apply synced_close.
Qed.

End synced.
