(* ===== verification/SsnmTheory.v ===== *)
(** * Theorems on the SSNM state store

    What the store of Ssnm.v promises its consumers and its Endpoint: the
    accounting and the configured bounds hold in every reachable state, a
    report is retained whole or refused whole, knowledge lives exactly as long
    as a binding, a subscription that has not lost continuity misses nothing,
    and one that has is told so. *)

From stdpp Require Import sorting.
From S2P Require Import Prelude MapSum Ssnm RoutingKey SsnmInvariant SsnmDelta.
#[local] Open Scope Z_scope.

(** ** Reachable states *)

Lemma fill_spec v d : 0 ≤ v → 0 < d → 0 < fill v d ∧ (v ≠ 0 → fill v d = v).
Proof. unfold fill. case_match; to_prop; lia. Qed.

Lemma config_nonneg r :
  existsb (λ v, v <? 0) (config_fields r) = false → Forall (λ z, 0 ≤ z) (config_fields r).
Proof.
  intros Hneg. apply Forall_forall. intros z Hz. destruct (Z.ltb_spec z 0) as [Hlt|]; [|done].
  exfalso. apply not_true_iff_false in Hneg. apply Hneg, existsb_exists.
  exists z. split; [by apply list_elem_of_In|]. by apply Z.ltb_lt.
Qed.

(** The caller's fields, all zero where there is no configuration. *)
Definition given (config : option SSNMStateConfig) : SSNMStateConfig :=
  default (mkConfig 0 0 0 0 0 0 0 0 0) config.

Lemma resolve_bounds config c :
  resolveSSNMStateConfig config = Ok c →
  Forall (λ z, 0 < z) (config_fields c) ∧
  MaxRecordsPerPartition c ≤ MaxRecordsPerPeer c ≤ MaxRecords c ∧
  ssnmPartitionBaseBytes + ssnmMinimumRecordBytes ≤ MaxBytes c ∧
  ssnmEventBaseBytes ≤ SubscriptionQueueBytes c ∧
  Forall2 (λ v w, v ≠ 0 → w = v) (config_fields (given config)) (config_fields c).
Proof.
  unfold resolveSSNMStateConfig. fold (given config). set (r := given config).
  destruct (existsb _ _) eqn:Hneg; [done|]. apply config_nonneg in Hneg.
  unfold config_fields in Hneg |- *. rewrite !Forall_cons in Hneg.
  destruct Hneg as (N1 & N2 & N3 & N4 & N5 & N6 & N7 & N8 & N9 & _).
  pose proof (fill_spec _ DefaultMaxSSNMStateStoreRecords N1 eq_refl) as F1.
  pose proof (fill_spec _ DefaultMaxSSNMStateStoreBytes N2 eq_refl) as F2.
  pose proof (fill_spec _ DefaultMaxSSNMPartitionRecords N3 eq_refl) as F3.
  pose proof (fill_spec _ DefaultMaxSSNMPeerRecords N4 eq_refl) as F4.
  pose proof (fill_spec _ DefaultMaxSSNMPartitions N5 eq_refl) as F5.
  pose proof (fill_spec _ DefaultMaxSSNMSubscribers N6 eq_refl) as F6.
  pose proof (fill_spec _ DefaultSSNMSubscriptionQueueSize N7 eq_refl) as F7.
  pose proof (fill_spec _ DefaultSSNMSubscriptionQueueBytes N8 eq_refl) as F8.
  pose proof (fill_spec _ DefaultMaxAffectedPointCodesPerSSNM N9 eq_refl) as F9.
  set (f1 := fill (MaxRecords r) _) in *. set (f2 := fill (MaxBytes r) _) in *.
  set (f3 := fill (MaxRecordsPerPartition r) _) in *.
  set (f4 := fill (MaxRecordsPerPeer r) _) in *.
  clearbody f1 f2 f3 f4. cbv zeta.
  repeat match goal with
  | |- (if ?b then Err _ else _) = _ → _ => destruct b eqn:?; [done|]
  end.
  intros [= <-]. cbn. rewrite !Forall_cons. to_prop.
  destruct (MaxRecordsPerPeer r =? 0) eqn:?, (MaxRecordsPerPartition r =? 0) eqn:?; cbn in *;
  to_prop.
  all: rewrite !Forall2_cons, Forall2_nil, Forall_nil.
  all: repeat match goal with
    | H : context [if ?a <? ?b then _ else _] |- _ => destruct (Z.ltb_spec a b)
    | |- context [if ?a <? ?b then _ else _] => destruct (Z.ltb_spec a b)
    end.
  all: destruct_and!; split_and!; first [assumption | lia].
Qed.

Lemma newSSNMState_ok config s : newSSNMState config = Ok s → store_ok s.
Proof.
  unfold newSSNMState. intros Hn. apply bind_Ok in Hn as (c & Hc & [= <-]).
  apply resolve_bounds in Hc as (Hpos & Hord & Hb & Hq & _).
  constructor; cbn; [| |by intros p st|done].
  - constructor; cbn; try done; try by rewrite map_sum_empty.
  - unfold config_fields in Hpos. rewrite !Forall_cons in Hpos.
    constructor; cbn; try done; rewrite ?map_size_empty; try lia.
    intros k. unfold peerCount. cbn. rewrite lookup_empty. cbn. lia.
Qed.

(** ** Delivering, and the lists of a snapshot *)

(** Delivering a run of events patches the view by each. *)
Lemma deliver_all c evs v r :
  rising (cv_revision c) evs r → foldl patch (cv_view c) evs = v →
  Forall (λ ev, e_Kind ev ≠ SSNMContinuityLostEvent) evs →
  foldl deliver c evs = mkConsumer v r.
Proof.
  revert c. induction evs as [|ev evs IH]; intros c; cbn; [intros -> <- _; by destruct c|].
  intros [He Hr] Hv [Hk Hks]%Forall_cons.
  assert (Hd : deliver c ev = mkConsumer (patch (cv_view c) ev) (e_Revision ev)).
  { unfold deliver. by destruct (e_Kind ev). }
  rewrite Hd. apply IH; cbn; [by rewrite He|done|done].
Qed.

Lemma snapshot_partitions s :
  pk_Partition <$> sn_Partitions (snapshotLocked s) =
  sortSSNMPartitions (map_to_list (partitions s)).*1.
Proof.
  cbn. assert (Hin : ∀ p, p ∈ sortSSNMPartitions (map_to_list (partitions s)).*1 →
    is_Some (partitions s !! p)).
  { intros p [[q st] [-> Hp%elem_of_map_to_list]]%elem_of_sortSSNMPartitions%list_elem_of_fmap.
    by exists st. }
  induction (sortSSNMPartitions _) as [|p ps IH]; [done|]. cbn [omap list_omap].
  destruct (Hin p) as [st Hst]; [by left|]. rewrite Hst. cbn. f_equal.
  apply IH. intros q Hq. apply Hin. by right.
Qed.

Lemma string_ltb_asymm a b : String.ltb a b = true → String.ltb b a = false.
Proof.
  unfold String.ltb. rewrite (String.compare_antisym a b). by destruct (String.compare b a).
Qed.

#[export] Instance partition_le_total : Total partition_le.
Proof.
  intros p q. unfold partition_le.
  destruct (lessSSNMPartition q p) eqn:Hqp; [right|by left].
  unfold lessSSNMPartition in *. revert Hqp.
  rewrite (Z.eqb_sym (Kind p)). destruct (_ =? _) eqn:Hk; cbn; [|to_prop; lia].
  rewrite (bool_decide_ext (SignallingGateway p = _) (SignallingGateway q = SignallingGateway p))
    by done.
  case_bool_decide; cbn; [|by apply string_ltb_asymm].
  rewrite (bool_decide_ext (ApplicationServer p = _) (ApplicationServer q = ApplicationServer p))
    by done.
  case_bool_decide; cbn; [|by apply string_ltb_asymm]. to_prop. lia.
Qed.

Lemma sorted_partitions ps : Sorted partition_le (sortSSNMPartitions ps).
Proof. apply (Sorted_merge_sort partition_le). Qed.

Lemma NoDup_destination_keys st : NoDup (destination_keys st).
Proof.
  unfold destination_keys. apply NoDup_app. split_and!.
  - apply NoDup_fst_map_to_list.
  - intros k Hk [Hn _]%list_elem_of_filter. apply list_elem_of_fmap in Hk as ([k' a] & -> & Hk).
    apply elem_of_map_to_list in Hk. cbn in Hn. congruence.
  - apply NoDup_filter, NoDup_fst_map_to_list.
Qed.

Lemma sorted_destinations p st :
  StronglySorted key_le (Destination <$> pk_Destinations (partitionKnowledge p st)) ∧
  NoDup (Destination <$> pk_Destinations (partitionKnowledge p st)).
Proof.
  cbn. unfold partitionDestinationsLocked. case_match; [split; constructor|].
  rewrite <-list_fmap_compose, (list_fmap_ext _ id), list_fmap_id by done.
  split; [apply (StronglySorted_merge_sort key_le)|].
  rewrite (merge_sort_Permutation key_le). apply NoDup_destination_keys.
Qed.

Section theory.
Context `{Quoting}.

Lemma reachable_ok config s : reachable config s → store_ok s.
Proof. induction 1 as [s Hn|s op _ IH]; [by eapply newSSNMState_ok|by apply ok_run]. Qed.

Lemma observed_ok config s cs : observed config s cs → store_ok s ∧ synced s cs.
Proof.
  induction 1 as [s Hn|op s cs _ [IH1 IH2]].
  - split; [by eapply newSSNMState_ok|by eapply synced_new].
  - split; [by apply ok_run|by apply synced_run].
Qed.

(** ** A report: the two outcomes of [apply] *)

(** A report that is retained: bound, and of a retained kind. *)
Definition retained (report : SSNMReport) : Prop :=
  (retainsAvailability report || retainsCongestion report) = true ∧
  r_Destinations report ≠ [].

(** The bounds a report has to respect, from what it writes. *)
Definition report_fits (st : ssnmPartitionState) (report : SSNMReport) (s : ssnmState) : Prop :=
  fits st (peerKey (partition st)) (count_new (prepare st report))
    (count_bytes (prepare st report)) s.

(** What a retained report leaves in its partition. *)
Record report_written (report : SSNMReport) (rev : Z) (st st' : ssnmPartitionState) : Prop := {
  rw_partition : partition st' = partition st;
  rw_epoch : epoch st' = epoch st;
  rw_bindings : bindings st' = bindings st;
  rw_availability k : availability st' !! k =
    if decide (k ∈ ssnmDestinationKeyFor <$> r_Destinations report ∧
               retainsAvailability report = true)
    then Some (availabilityRecord (with_Epoch (epoch st) report) rev)
    else availability st !! k;
  rw_congestion k : congestion st' !! k =
    if decide (k ∈ ssnmDestinationKeyFor <$> r_Destinations report ∧
               retainsAvailability report = false)
    then Some (congestionRecord (with_Epoch (epoch st) report) rev)
    else congestion st !! k;
}.

Lemma prepare_nil st report : prepare st report = [] ↔ r_Destinations report = [].
Proof.
  unfold prepare. split; [intros Hw%fmap_nil_inv|].
  - destruct (r_Destinations report) as [|r l] eqn:Hr; [done|].
    assert (Hin : ssnmDestinationKeyFor r ∈ written_keys report).
    { apply elem_of_written_keys. rewrite Hr. by left. }
    rewrite Hw in Hin. by apply elem_of_nil in Hin.
  - intros Hr. unfold written_keys. by rewrite Hr.
Qed.

(** A retained report of a bound partition reaches the bounds. *)
Lemma apply_unfold report s st :
  store_ok s → closed s = false → Kind (r_Partition report) ≠ 0 →
  partitions s !! r_Partition report = Some st → retained report →
  let rep := with_Epoch (epoch st) report in
  apply report s =
  match admitLocked st (peerKey (partition st)) (count_new (prepare st rep))
          (count_bytes (prepare st rep)) rep s with
  | Some (err, s) => (Some err, s)
  | None =>
      let s := nextRevisionLocked s in
      let rev := revision s in
      let rep := with_Revision rev rep in
      let r := foldl (commitWrite rep rev (peerKey (partition st))) (st, s) (prepare st rep) in
      let updated := if bool_decide (subscribers r.2 = ∅) then []
                     else (λ w, retainedKnowledge r.1 (w_key w)) <$> prepare st rep in
      (None, publishLocked (mkEvent SSNMReportEvent rev (r_Partition rep) (r_Epoch rep)
               (Some rep) noBinding updated "" false) r.2)
  end.
Proof.
  intros Hok Hcl Hk Hp [Hret Hd]. cbv zeta. unfold apply.
  pose proof (ac_key _ (ok_accounted _ Hok) _ _ Hp) as Hkey.
  rewrite (proj2 (Z.eqb_neq _ _) Hk), Hcl, Hp.
  change (retainsAvailability (with_Epoch (epoch st) report)) with (retainsAvailability report).
  change (retainsCongestion (with_Epoch (epoch st) report)) with (retainsCongestion report).
  rewrite <-negb_orb, Hret. cbn [negb].
  rewrite bool_decide_eq_false_2 by by rewrite prepare_nil.
  change (r_Partition (with_Epoch (epoch st) report)) with (r_Partition report).
  rewrite <-Hkey. destruct (admitLocked _ _ _ _ _ _) as [[err s']|]; [done|].
  by destruct (foldl _ _ _).
Qed.

Lemma apply_admitted report s st :
  store_ok s → closed s = false → Kind (r_Partition report) ≠ 0 →
  partitions s !! r_Partition report = Some st → retained report → report_fits st report s →
  (apply report s).1 = None ∧ revision (apply report s).2 = revision s + 1 ∧
  ∃ st', partitions (apply report s).2 = <[r_Partition report := st']> (partitions s) ∧
    report_written report (revision s + 1) st st'.
Proof.
  intros Hok Hcl Hk Hp Hret Hfit. pose proof (ac_key _ (ok_accounted _ Hok) _ _ Hp) as Hkey.
  rewrite (apply_unfold report s st Hok Hcl Hk Hp Hret). cbv zeta.
  set (rep := with_Epoch (epoch st) report).
  rewrite (proj2 (admitLocked_None st _ _ _ rep s) Hfit).
  rewrite <-Hkey in Hp |- *.
  set (s1 := nextRevisionLocked s). set (rev := revision s1). set (rep' := with_Revision rev rep).
  assert (Hok1 : store_ok s1) by (eapply same_store_ok; [apply same_store_next|done]).
  destruct (commit_writes rep' rev st s1 (prepare st rep) (ok_accounted _ Hok1) Hp
    (eq_ind_r NoDup (written_keys_NoDup rep) (prepare_keys st rep)) (prepare_ok st rep))
    as [_ [C1 C2 C3 _ C5 _ _ _ _ [C10 _] _]].
  split; [done|]. split; [exact C10|]. eexists. split; [exact C5|].
  constructor; [done..| |]; intros k.
  - rewrite commit_availability, prepare_keys. apply decide_ext.
    by rewrite elem_of_written_keys.
  - rewrite commit_congestion, prepare_keys. apply decide_ext.
    by rewrite elem_of_written_keys.
Qed.

Lemma apply_refused report s st :
  store_ok s → closed s = false → Kind (r_Partition report) ≠ 0 →
  partitions s !! r_Partition report = Some st → retained report → ¬ report_fits st report s →
  ∃ reason, apply report s =
    let '(e, s') := refuseReportLocked (count_new (prepare st report)) reason s in (Some e, s').
Proof.
  intros Hok Hcl Hk Hp Hret Hfit.
  rewrite (apply_unfold report s st Hok Hcl Hk Hp Hret). cbv zeta.
  destruct (admitLocked _ _ _ _ _ _) as [[e s']|] eqn:Hadm.
  - apply admitLocked_refusal in Hadm as [reason [= -> ->]]. by exists reason.
  - by apply admitLocked_None in Hadm.
Qed.
(** ** Withdrawing a binding *)

(** The partition without the binding of [a], and nothing where that was its
    last. *)
Definition without (a : Z) (st : ssnmPartitionState) : option ssnmPartitionState :=
  if decide (delete a (bindings st) = ∅) then None
  else Some (mkPartitionState (partition st) (epoch st) (delete a (bindings st))
               (availability st) (congestion st) (pbytes st)).

Lemma without_unbound a st : bindings st !! a = None → bindings st ≠ ∅ → without a st = Some st.
Proof.
  intros Ha Hb. unfold without. rewrite delete_id by done. rewrite decide_False by done.
  by destruct st.
Qed.

Lemma without_idem a o : (o ≫= without a) ≫= without a = o ≫= without a.
Proof.
  destruct o as [st|]; [|done]. cbn. unfold without at 2 3. case_decide; [done|]. cbn.
  unfold without. cbn. rewrite delete_delete_eq. by rewrite decide_False.
Qed.

Lemma retireLocked_lookup p a s q :
  store_ok s →
  partitions (retireLocked p a s) !! q =
  if decide (p = q) then partitions s !! q ≫= without a else partitions s !! q.
Proof.
  intros [Ha _ Hb _]. unfold retireLocked.
  destruct (partitions s !! p) as [st|] eqn:Hp.
  2:{ case_decide as Hq; [|done]. subst q. by rewrite Hp. }
  pose proof (ac_key _ Ha _ _ Hp) as Hk. subst p.
  destruct (bindings st !! a) eqn:Hba.
  2:{ case_decide as Hq; [|done]. subst q. rewrite Hp. cbn.
      symmetry. apply without_unbound; [done|by eapply Hb]. }
  cbn [bindings]. case_bool_decide as He; cbn.
  - case_decide as Hq.
    + subst q. rewrite lookup_delete_eq, Hp. cbn. unfold without. by rewrite decide_True.
    + by rewrite lookup_delete_ne, !lookup_insert_ne.
  - case_decide as Hq.
    + subst q. rewrite lookup_insert_eq, Hp. cbn. unfold without. by rewrite decide_False.
    + by rewrite lookup_insert_ne.
Qed.

Lemma retire_foldl_lookup a l s q :
  store_ok s →
  partitions (foldl (λ s p, retireLocked p a s) s l) !! q =
  if decide (q ∈ l) then partitions s !! q ≫= without a else partitions s !! q.
Proof.
  revert s. induction l as [|p l IH]; intros s Hok; [done|]. cbn [foldl].
  rewrite IH by by apply ok_retireLocked. rewrite retireLocked_lookup by done.
  destruct (decide (p = q)) as [->|Hne].
  - rewrite (decide_True (P:=_ ∈ q :: _)) by by left.
    case_decide; [by rewrite without_idem|done].
  - apply decide_ext. rewrite elem_of_cons. naive_solver.
Qed.

(** ** Bounds of the queues *)

Definition queue_bytes (q : list (SSNMEvent * Z)) : Z := foldr (λ p n, p.2 + n) 0 q.

Lemma queue_bytes_app q r : queue_bytes (q ++ r) = queue_bytes q + queue_bytes r.
Proof. unfold queue_bytes in *. induction q as [|p q IH]; cbn in *; lia. Qed.

Lemma reserveAll_le r l r' : 0 ≤ r → reserveAll r l = Some r' → 0 ≤ r' ≤ r.
Proof.
  revert r. induction l as [|[c w] l IH]; intros r Hr; cbn; [intros [= <-]; lia|].
  destruct (reserveSSNMEventBytes r c w) as [r1|] eqn:He; [|done].
  unfold reserveSSNMEventBytes in He. destruct (_ || _) eqn:Hg; [done|]. injection He as <-.
  apply orb_false_iff in Hg as [Hg H4]. apply orb_false_iff in Hg as [Hg H3].
  apply orb_false_iff in Hg as [H1 H2]. to_prop.
  pose proof (Z.mul_div_le r w ltac:(lia)) as Hd.
  pose proof (Z.mul_le_mono_nonneg_l c (r / w) w ltac:(lia) H4) as Hm.
  pose proof (Z.mul_nonneg_nonneg w c ltac:(lia) H2) as Hp.
  intros Hrest. apply IH in Hrest; lia.
Qed.

(** What an event accounts for fits what was left, and is never small. *)
Lemma accounted_bounds ev lim n :
  ssnmEventAccountedBytes ev lim = Some n → ssnmEventBaseBytes ≤ n ≤ lim.
Proof.
  unfold ssnmEventAccountedBytes. destruct (reserveAll _ _) as [r|] eqn:Hr; [|done].
  intros [= <-]. unfold event_reservations in Hr. cbn [app] in Hr.
  match type of Hr with reserveAll _ (_ :: ?l) = _ => set (rest := l) in Hr end.
  cbn [reserveAll] in Hr. destruct (reserveSSNMEventBytes lim 1 ssnmEventBaseBytes) as [r1|] eqn:He; [|done].
  unfold reserveSSNMEventBytes in He. destruct (_ || _) eqn:Hg; [done|]. injection He as <-.
  apply orb_false_iff in Hg as [_ H4]. to_prop.
  assert (ssnmEventBaseBytes ≤ lim).
  { pose proof (Z.mul_div_le lim ssnmEventBaseBytes eq_refl).
    unfold ssnmEventBaseBytes in *. lia. }
  apply reserveAll_le in Hr; lia.
Qed.

Record sub_ok (lims : SSNMStateConfig) (sub : Subscription.SSNMSubscription) : Prop := {
  so_limit : Subscription.limit sub = SubscriptionQueueSize lims;
  so_byteLimit : Subscription.byteLimit sub = SubscriptionQueueBytes lims;
  so_length : len (Subscription.queue sub) ≤ SubscriptionQueueSize lims;
  so_bytes : Subscription.queuedBytes sub = queue_bytes (Subscription.queue sub);
  so_total : Subscription.queuedBytes sub ≤ SubscriptionQueueBytes lims;
  so_each : Forall (λ p, ssnmEventBaseBytes ≤ p.2) (Subscription.queue sub);
}.

Lemma sub_ok_enqueue lims ev sub : sub_ok lims sub → sub_ok lims (Subscription.enqueue ev sub).
Proof.
  intros Hs. pose proof Hs as [S1 S2 S3 S4 S5 S6]. unfold Subscription.enqueue.
  destruct (Subscription.s_closed sub); [done|].
  destruct (Subscription.continuityLost sub); [done|].
  destruct (len (Subscription.queue sub) <? Subscription.limit sub) eqn:Hlen;
    [|by constructor].
  destruct (ssnmEventAccountedBytes _ _) as [n|] eqn:Hn; [|by constructor].
  apply accounted_bounds in Hn. to_prop. constructor; cbn; try done.
  - rewrite len_app, len_cons, len_nil. lia.
  - rewrite queue_bytes_app, S4. cbn. lia.
  - lia.
  - apply Forall_app. split; [done|]. apply Forall_singleton. cbn. lia.
Qed.

Lemma sub_ok_enqueue_all lims evs sub : sub_ok lims sub → sub_ok lims (enqueue_all evs sub).
Proof.
  unfold enqueue_all. revert sub. induction evs as [|ev evs IH]; intros sub Hs; [done|].
  cbn. by apply IH, sub_ok_enqueue.
Qed.

Lemma sub_ok_take lims sub : sub_ok lims sub → sub_ok lims (Subscription.take sub).1.
Proof.
  intros Hs. pose proof Hs as [S1 S2 S3 S4 S5 S6]. unfold Subscription.take.
  destruct (Subscription.queue sub) as [|[ev n] q] eqn:Hq; cbn.
  - destruct (Subscription.s_closed sub); [done|].
    destruct (Subscription.pendingLoss sub); [|done]. by constructor.
  - rewrite len_cons in S3. unfold queue_bytes in S4. cbn in S4.
    apply Forall_cons in S6 as [S6 S6']. cbn in S6. unfold ssnmEventBaseBytes in S6.
    constructor; unfold queue_bytes; cbn; try done; lia.
Qed.

Lemma sub_ok_terminate lims cause sub :
  sub_ok lims sub → sub_ok lims (Subscription.terminate cause sub).
Proof.
  intros [S1 S2 S3 S4 S5 S6]. unfold Subscription.terminate. case_match; by constructor.
Qed.

Lemma sub_ok_empty lims sub :
  Forall (λ z, 0 < z) (config_fields lims) →
  Subscription.limit sub = SubscriptionQueueSize lims →
  Subscription.byteLimit sub = SubscriptionQueueBytes lims →
  Subscription.queue sub = [] → Subscription.queuedBytes sub = 0 → sub_ok lims sub.
Proof.
  intros Hl H1 H2 H3 H4. unfold config_fields in Hl. rewrite !Forall_cons in Hl.
  constructor; rewrite ?H3, ?H4; try done; [rewrite len_nil|]; lia.
Qed.

Lemma queue_bytes_each q c : Forall (λ p, c ≤ p.2) q → c * len q ≤ queue_bytes q.
Proof.
  unfold queue_bytes. induction 1 as [|p q Hp _ IH]; cbn; rewrite ?len_nil, ?len_cons; lia.
Qed.

Record queues_ok (s : ssnmState) : Prop := {
  qo_sub i sub : subscriptions s !! i = Some sub → sub_ok (limits s) sub;
  qo_count : Z.of_nat (size (subscribers s)) ≤ MaxSubscribers (limits s);
}.

Lemma queues_published evs s s' : published evs s s' → queues_ok s → queues_ok s'.
Proof.
  intros [_ P R _ L _ _] [Q1 Q2]. constructor; rewrite L; [|by rewrite R].
  intros i sub'. rewrite P. destruct (subscriptions s !! i) as [sub|] eqn:Hs; [|done].
  cbn. intros [= <-]. case_decide; [apply sub_ok_enqueue_all|]; by eapply Q1.
Qed.

Lemma queues_replace s i sub cl :
  queues_ok s → sub_ok (limits s) sub →
  queues_ok (set_subscriptions (<[i := sub]> (subscriptions s)) (subscribers s) cl s).
Proof.
  intros [Q1 Q2] Hs. constructor; [|done]. cbn.
  intros j subj [[<- <-]|[_ Hj]]%lookup_insert_Some; [done|by eapply Q1].
Qed.

Lemma queues_subscribe s : store_ok s → queues_ok s → queues_ok (SubscribeSSNM s).2.
Proof.
  intros Hok Hq. pose proof Hq as [Q1 Q2]. unfold SubscribeSSNM. destruct (closed s); [done|].
  destruct (_ <=? _) eqn:Hm; [done|]. to_prop. constructor; cbn.
  - intros j subj [[<- <-]|[_ Hj]]%lookup_insert_Some; [|by eapply Q1].
    by apply sub_ok_empty; [apply ok_limits|..].
  - pose proof (size_union_alt (C:=gset nat) {[freshSubscription s]} (subscribers s)) as Hs.
    rewrite size_singleton in Hs.
    pose proof (subseteq_size (C:=gset nat) (subscribers s ∖ {[freshSubscription s]})
      (subscribers s) ltac:(set_solver)). lia.
Qed.

Lemma queues_run op s : store_ok s → queues_ok s → queues_ok (run op s).
Proof.
  intros Hok Hq. pose proof Hq as [Q1 Q2]. pose proof (ok_accounted _ Hok) as Ha.
  destruct op; cbn [run].
  - destruct (published_bind p association pending s Hok) as [evs Hp].
    by eapply queues_published.
  - destruct (published_retireLocked p association s Ha) as [evs Hp].
    by eapply queues_published.
  - destruct (published_retireAssociation association s Hok) as [evs Hp].
    by eapply queues_published.
  - destruct (published_apply report s Hok) as [evs Hp]. by eapply queues_published.
  - destruct (published_oversized ps count lim association s Hok) as [evs Hp].
    by eapply queues_published.
  - by apply queues_subscribe.
  - unfold Next. destruct (subscriptions s !! i) as [sub|] eqn:Hs; [|done].
    pose proof (sub_ok_take _ _ (Q1 _ _ Hs)) as Ht. destruct (Subscription.take sub).
    by apply queues_replace.
  - unfold Resync. destruct (subscriptions s !! i) as [sub|] eqn:Hs; [|done].
    pose proof (Q1 _ _ Hs) as [S1 S2 _ _ _ _].
    destruct (Subscription.s_closed sub); [done|]. destruct (closed s) eqn:Hc; cbn.
    + apply queues_replace; [done|].
      apply sub_ok_terminate. by eapply Q1.
    + apply queues_replace; [done|].
      by apply sub_ok_empty; [apply ok_limits|..].
  - constructor; cbn.
    + intros j subj. rewrite lookup_alter_Some.
      intros [(_ & sub & Hs & ->)|(_ & Hs)]; [apply sub_ok_terminate|]; by eapply Q1.
    + pose proof (subseteq_size (C:=gset nat) (subscribers s ∖ {[i]}) (subscribers s)
        ltac:(set_solver)). lia.
  - unfold closeStore. destruct (closed s); [done|]. constructor; cbn.
    + intros j subj. rewrite map_lookup_imap.
      destruct (subscriptions s !! j) as [sub|] eqn:Hs; [|done]. cbn. intros [= <-].
      case_decide; [apply sub_ok_terminate|]; by eapply Q1.
    + rewrite size_empty. lia.
Qed.

Lemma reachable_queues config s : reachable config s → queues_ok s.
Proof.
  induction 1 as [s Hn|s op Hr IH].
  - pose proof (newSSNMState_ok _ _ Hn) as Hok. apply ok_limits in Hok.
    unfold newSSNMState in Hn. apply bind_Ok in Hn as (c & _ & [= <-]).
    constructor; cbn; [done|]. rewrite size_empty. cbn in Hok. unfold config_fields in Hok.
    rewrite !Forall_cons in Hok. lia.
  - apply queues_run; [by eapply reachable_ok|done].
Qed.

(** ** Draining a subscription *)

(** [n] calls of [take], and what each delivered. *)
Fixpoint takes (n : nat) (sub : Subscription.SSNMSubscription)
    : list (option (result ssnm_error SSNMEvent)) * Subscription.SSNMSubscription :=
  match n with
  | O => ([], sub)
  | S n =>
      let '(sub, out) := Subscription.take sub in
      let '(outs, sub) := takes n sub in
      (out :: outs, sub)
  end.

Definition continuityMarker : SSNMEvent :=
  mkEvent SSNMContinuityLostEvent 0 noPartition 0 None noBinding [] "" true.

Lemma takes_S n sub :
  takes (S n) sub = ((Subscription.take sub).2 :: (takes n (Subscription.take sub).1).1,
                     (takes n (Subscription.take sub).1).2).
Proof.
  cbn [takes]. destruct (Subscription.take sub) as [sub' o]. cbn [fst snd].
  by destruct (takes n sub') as [outs sub''].
Qed.

Lemma takes_lost sub :
  Subscription.s_closed sub = false → Subscription.continuityLost sub = true →
  Subscription.pendingLoss sub = true →
  let r := takes (S (length (queued sub))) sub in
  r.1 = (Some ∘ Ok <$> queued sub) ++ [Some (Ok continuityMarker)] ∧
  Subscription.take r.2 = (r.2, None) ∧ ∀ ev, Subscription.enqueue ev r.2 = r.2.
Proof.
  unfold queued. cbv zeta. remember (Subscription.queue sub) as q eqn:Hq. revert sub Hq.
  induction q as [|[ev m] q IH]; intros sub Hq Hc Hl Hp; rewrite takes_S.
  - set (sub1 := Subscription.mkSubscription [] (Subscription.queuedBytes sub)
      (Subscription.s_closed sub) (Subscription.terminal sub) (Subscription.continuityLost sub)
      false (Subscription.limit sub) (Subscription.byteLimit sub)).
    assert (Ht : Subscription.take sub = (sub1, Some (Ok continuityMarker))).
    { unfold sub1, Subscription.take. by rewrite <-Hq, Hc, Hp. }
    rewrite Ht. cbn [fst snd takes length fmap list_fmap].
    split; [done|]. unfold Subscription.take, Subscription.enqueue. cbn. by rewrite Hc, Hl.
  - set (sub1 := Subscription.mkSubscription q (Subscription.queuedBytes sub - m)
      (Subscription.s_closed sub) (Subscription.terminal sub) (Subscription.continuityLost sub)
      (Subscription.pendingLoss sub) (Subscription.limit sub) (Subscription.byteLimit sub)).
    assert (Ht : Subscription.take sub = (sub1, Some (Ok ev))).
    { unfold Subscription.take. by rewrite <-Hq. }
    rewrite Ht. destruct (IH sub1 eq_refl Hc Hl Hp) as (I1 & I2 & I3).
    split; [|done]. cbn [fst snd]. exact (f_equal (cons (Some (Ok ev))) I1).
Qed.

(** ** The theorems *)

(** C7: a subscription misses nothing.  Whatever operations the store has run,
    the consumer of a registered subscription that has not lost continuity,
    once it applies the events still queued to what it holds, holds exactly
    the store's partitions, bindings and destinations, at the store's
    revision.  What it holds are the snapshot of its latest SubscribeSSNM or
    Resync and the events delivered since, applied by the documented rules. *)
Theorem subscription_exact config s cs i sub :
  observed config s cs → i ∈ subscribers s → subscriptions s !! i = Some sub →
  Subscription.continuityLost sub = false →
  ∃ c, cs !! i = Some c ∧
    foldl deliver c (queued sub) = mkConsumer (view_of s) (revision s).
Proof.
  intros Hobs Hi Hs Hl. destruct (observed_ok _ _ _ Hobs) as [_ [_ _ Y]].
  destruct (Y i sub Hs) as (c & Hc & [(r & T1 & _ & T3) T4 T5]). exists c. split; [done|].
  rewrite (T3 (conj Hi Hl)) in T1. specialize (T4 (conj Hi Hl)). by apply deliver_all.
Qed.

(** Deltas arrive in order, with no gap.  The revisions of the events a
    subscription has queued count up by one from the revision its consumer
    has seen, and never pass the store's. *)
Theorem deltas_in_order config s cs i sub :
  observed config s cs → subscriptions s !! i = Some sub →
  ∃ c r, cs !! i = Some c ∧ rising (cv_revision c) (queued sub) r ∧ r ≤ revision s.
Proof.
  intros Hobs Hs. destruct (observed_ok _ _ _ Hobs) as [_ [_ _ Y]].
  destruct (Y i sub Hs) as (c & Hc & [(r & T1 & T2 & _) _ _]). eauto.
Qed.

(** C29: the accounting of the store.  In every reachable state the record and
    byte counters, per store and per peer, are the totals of the records held;
    the epochs of the partitions are distinct; every partition has a binding;
    and the records, bytes and partitions held respect every configured
    bound. *)
Theorem reachable_bounds config s :
  reachable config s → accounted s ∧ within_limits s ∧ bound_partitions s.
Proof. intros Hr. by destruct (reachable_ok _ _ Hr). Qed.

(** A snapshot is faithful: it lists exactly the partitions the store
    holds, each once and in order, each with exactly its epoch, bindings and
    destinations; the destinations of a partition are in point-code then mask
    order, each once. *)
Theorem snapshot_faithful s :
  view_of_snapshot (snapshotLocked s) = view_of s ∧
  Sorted partition_le (pk_Partition <$> sn_Partitions (snapshotLocked s)) ∧
  NoDup (pk_Partition <$> sn_Partitions (snapshotLocked s)) ∧
  Forall (λ pk, StronglySorted key_le (Destination <$> pk_Destinations pk) ∧
                NoDup (Destination <$> pk_Destinations pk))
    (sn_Partitions (snapshotLocked s)).
Proof.
  split; [apply view_of_snapshotLocked|]. rewrite snapshot_partitions.
  split; [apply sorted_partitions|]. split.
  - unfold sortSSNMPartitions. rewrite (merge_sort_Permutation partition_le).
    apply NoDup_fst_map_to_list.
  - apply Forall_forall. intros pk Hpk. apply list_elem_of_omap in Hpk as (p & _ & Hp).
    apply fmap_Some in Hp as (st & _ & ->). apply sorted_destinations.
Qed.

(** C33: a retained report is written whole or refused whole.  For a report of
    a retained kind and a bound partition: within every bound, it is accepted,
    exactly the destinations it names take its statement, at a new revision
    and under the epoch of the partition, and every other record, binding and
    partition is unchanged; otherwise it is refused, nothing the store holds
    changes, and the refusal is counted. *)
Theorem apply_all_or_nothing config s report st :
  reachable config s → closed s = false → Kind (r_Partition report) ≠ 0 →
  partitions s !! r_Partition report = Some st → retained report →
  let s' := (apply report s).2 in
  (report_fits st report s →
    (apply report s).1 = None ∧ revision s' = revision s + 1 ∧
    ∃ st', partitions s' = <[r_Partition report := st']> (partitions s) ∧
      report_written report (revision s + 1) st st') ∧
  (¬ report_fits st report s →
    (apply report s).1 = Some ErrSSNMStateLimit ∧ same_store s s' ∧
    reportsRefused s' = reportsRefused s + 1 ∧
    recordsRefused s' = recordsRefused s + Z.max 0 (count_new (prepare st report))).
Proof.
  intros Hr Hcl Hk Hp Hret. pose proof (reachable_ok _ _ Hr) as Hok. cbv zeta. split.
  - by apply apply_admitted.
  - intros Hfit. destruct (apply_refused report s st Hok Hcl Hk Hp Hret Hfit) as [reason ->].
    cbn. split; [done|]. split; [done|]. split; [done|]. case_match; to_prop; lia.
Qed.

(** A report that retains nothing.  A report of an unbound partition, of a
    kind that is not retained, or of no destination changes no knowledge: it
    is accepted and only published. *)
Theorem apply_event_only report s :
  Kind (r_Partition report) ≠ 0 → closed s = false →
  partitions s !! r_Partition report = None ∨ ¬ retained report →
  (apply report s).1 = None ∧ same_store s (apply report s).2 ∧
  revision (apply report s).2 = revision s + 1.
Proof.
  intros Hk Hcl Hor. unfold apply. rewrite (proj2 (Z.eqb_neq _ _) Hk), Hcl.
  destruct (partitions s !! _) as [st|] eqn:Hp; [|done].
  destruct Hor as [|Hn]; [done|]. destruct (_ && _) eqn:Hret; [done|].
  case_bool_decide as Hw; [done|]. destruct Hn. split.
  - rewrite <-negb_orb in Hret. by apply negb_false_iff in Hret.
  - intros Hd. apply Hw. by apply prepare_nil.
Qed.

(** The end of an Association.  Retiring an Association withdraws exactly
    its bindings: a partition it shares with others keeps its knowledge, its
    epoch and the other bindings, a partition it was the last binding of is
    gone, and every other partition is unchanged. *)
Theorem retireAssociation_exact config s a q :
  reachable config s →
  partitions (retireAssociation a s) !! q = partitions s !! q ≫= without a.
Proof.
  intros Hr. pose proof (reachable_ok _ _ Hr) as Hok. unfold retireAssociation.
  rewrite retire_foldl_lookup by done. case_decide as Hq; [done|].
  destruct (partitions s !! q) as [st|] eqn:Hp; [|done]. cbn. symmetry.
  apply without_unbound; [|by eapply ok_bound]. apply eq_None_not_Some. intros Hb.
  apply Hq, elem_of_sortSSNMPartitions, list_elem_of_fmap. exists (q, st). split; [done|].
  apply list_elem_of_filter. split; [done|]. by apply elem_of_map_to_list.
Qed.

(** A partition that begins, begins a fresh epoch.  When [bind] accepts the
    first binding of a partition, that partition holds the one binding and no
    knowledge, and its epoch is larger than every epoch the store has begun,
    those of partitions retired since included. *)
Theorem bind_fresh_epoch config s p a pending :
  reachable config s → Kind p ≠ 0 → partitions s !! p = None →
  (bind p a pending s).1 = None →
  partitions (bind p a pending s).2 !! p =
    Some (mkPartitionState p (epochs s + 1) {[a := pending]} ∅ ∅ ssnmPartitionBaseBytes) ∧
  epochs (bind p a pending s).2 = epochs s + 1 ∧
  ∀ q sq, partitions s !! q = Some sq → epoch sq ≤ epochs s.
Proof.
  intros Hr Hk Hp. pose proof (reachable_ok _ _ Hr) as Hok. unfold bind.
  rewrite (proj2 (Z.eqb_neq _ _) Hk), Hp. destruct (closed s); [done|].
  destruct (_ <=? _); [done|]. destruct (_ <? _); [done|]. intros _. cbn.
  unfold bindExisting. cbn. rewrite lookup_empty. cbn. split; [apply lookup_insert_eq|].
  split; [done|]. intros q sq Hq. by apply (ac_epoch _ (ok_accounted _ Hok)) in Hq as [_ Hq].
Qed.

(** The configuration of the store.  A resolved configuration has every
    bound positive, the reservations nested within the budgets they are carved
    from, room for one partition with one record and for one event, and keeps
    every bound the caller gave; a negative field is always an error. *)
Theorem resolveSSNMStateConfig_sound config :
  (∀ c, resolveSSNMStateConfig config = Ok c →
    Forall (λ z, 0 < z) (config_fields c) ∧
    MaxRecordsPerPartition c ≤ MaxRecordsPerPeer c ≤ MaxRecords c ∧
    ssnmPartitionBaseBytes + ssnmMinimumRecordBytes ≤ MaxBytes c ∧
    ssnmEventBaseBytes ≤ SubscriptionQueueBytes c ∧
    Forall2 (λ v w, v ≠ 0 → w = v) (config_fields (given config)) (config_fields c)) ∧
  (Exists (λ v, v < 0) (config_fields (given config)) →
    resolveSSNMStateConfig config = Err ErrInvalidSSNMStateConfig).
Proof.
  split; [by apply resolve_bounds|]. intros Hneg. unfold resolveSSNMStateConfig.
  fold (given config). rewrite (proj2 (existsb_exists _ _)); [done|].
  apply Exists_exists in Hneg as (v & Hv & Hlt). exists v.
  split; [by apply list_elem_of_In|by apply Z.ltb_lt].
Qed.

(** The bounds of the subscriptions.  In every reachable state every
    subscription queues at most the configured number of events, and at most
    the configured bytes by an accounting that is exact; and no more
    subscriptions are registered than configured. *)
Theorem subscription_bounds config s :
  reachable config s →
  Z.of_nat (size (subscribers s)) ≤ MaxSubscribers (limits s) ∧
  ∀ i sub, subscriptions s !! i = Some sub →
    len (Subscription.queue sub) ≤ SubscriptionQueueSize (limits s) ∧
    Subscription.queuedBytes sub = queue_bytes (Subscription.queue sub) ∧
    ssnmEventBaseBytes * len (Subscription.queue sub) ≤ Subscription.queuedBytes sub ≤
      SubscriptionQueueBytes (limits s).
Proof.
  intros Hr. destruct (reachable_queues _ _ Hr) as [Q1 Q2]. split; [done|].
  intros i sub Hs. destruct (Q1 i sub Hs) as [_ _ S3 S4 S5 S6].
  pose proof (queue_bytes_each _ _ S6). split_and!; [done|done|lia|done].
Qed.

(** Lost continuity is told.  When an event does not fit the queue of an
    open subscription, draining the subscription delivers everything queued
    before, then the continuity marker, once; no later event is queued. *)
Theorem continuity_marker ev sub :
  Subscription.s_closed sub = false → Subscription.continuityLost sub = false →
  Subscription.continuityLost (Subscription.enqueue ev sub) = true →
  let r := takes (S (length (queued sub))) (Subscription.enqueue ev sub) in
  r.1 = (Some ∘ Ok <$> queued sub) ++ [Some (Ok continuityMarker)] ∧
  Subscription.take r.2 = (r.2, None) ∧ ∀ ev', Subscription.enqueue ev' r.2 = r.2.
Proof.
  intros Hc Hl Hlost. destruct (enqueue_cases ev sub Hc Hl) as (Hc' & [[_ Hl']|[Hq _]]);
    [congruence|]. rewrite <-Hq. apply takes_lost; [done|done|].
  unfold Subscription.enqueue in *. rewrite Hc, Hl in *. by case_match.
Qed.

End theory.

(** ** The theorems on a concrete run *)

Module Concrete.

#[local] Instance plain : Quoting := λ s, s.

Definition sg : SSNMPartition := mkPartition SSNMCanonicalPartition "sg" "as" 0.
Definition no_scope : WireScope := mkScope 0 false [] false.
Definition duna : SSNMReport :=
  mkReport SSNMDestinationUnavailableReport 1 no_scope sg 7 0 0 [mkRange 0x010203 0] 0 false
    false.

Definition zero : SSNMStateConfig := mkConfig 0 0 0 0 0 0 0 0 0.
Definition empty_store : ssnmState := mkState zero ∅ ∅ 0 0 0 0 ∅ ∅ true 0 0 0 "".
Definition start : ssnmState :=
  match newSSNMState None with Ok s => s | _ => empty_store end.
(** Two Associations of one Application Server, and a subscription. *)
Definition first : ssnmState := run (OpBind sg 7 false) start.
Definition second : ssnmState := run (OpBind sg 8 false) first.
Definition bound : ssnmState := run OpSubscribe second.
Definition reported : ssnmState := run (OpApply duna) bound.
Definition consumers : gmap nat consumer :=
  consume (OpApply duna) bound (consume OpSubscribe second
    (consume (OpBind sg 8 false) first (consume (OpBind sg 7 false) start ∅))).
Definition subscription : Subscription.SSNMSubscription :=
  default (Subscription.newSSNMSubscription 0 0) (subscriptions reported !! 0%nat).
Definition bound_partition : ssnmPartitionState :=
  default (mkPartitionState noPartition 0 ∅ ∅ ∅ 0) (partitions bound !! sg).

Lemma start_new : newSSNMState None = Ok start.
Proof. reflexivity. Defined.

Lemma bound_reachable : reachable None bound.
Proof.
  exact (reach_step None second OpSubscribe (reach_step None first (OpBind sg 8 false)
    (reach_step None start (OpBind sg 7 false) (reach_new None start start_new)))).
Defined.

Lemma reported_observed : observed None reported consumers.
Proof.
  exact (obs_step None (OpApply duna) bound _ (obs_step None OpSubscribe second _
    (obs_step None (OpBind sg 8 false) first _ (obs_step None (OpBind sg 7 false) start _
      (obs_new None start start_new))))).
Defined.

Lemma subscription_exact_witness :
  ∃ c, consumers !! 0%nat = Some c ∧
    foldl deliver c (queued subscription) = mkConsumer (view_of reported) (revision reported).
Proof.
  apply (subscription_exact None reported consumers 0 subscription reported_observed).
  - apply (bool_decide_unpack _). vm_compute. exact I.
  - vm_compute. reflexivity.
  - vm_compute. reflexivity.
Defined.

Lemma deltas_in_order_witness :
  ∃ c r, consumers !! 0%nat = Some c ∧ rising (cv_revision c) (queued subscription) r ∧
    r ≤ revision reported.
Proof.
  apply (deltas_in_order None reported consumers 0 subscription reported_observed).
  vm_compute. reflexivity.
Defined.

Lemma reachable_bounds_witness : accounted bound ∧ within_limits bound ∧ bound_partitions bound.
Proof. apply (reachable_bounds None), bound_reachable. Defined.

Lemma apply_all_or_nothing_witness :
  (apply duna bound).1 = None ∧ ∃ st',
    partitions (apply duna bound).2 = <[sg := st']> (partitions bound) ∧
    report_written duna (revision bound + 1) bound_partition st'.
Proof.
  destruct (apply_all_or_nothing None bound duna bound_partition bound_reachable
    eq_refl ltac:(done) ltac:(vm_compute; reflexivity) ltac:(done)) as [Hfit _].
  destruct Hfit as (H1 & _ & H2); [|by split].
  vm_compute. by split_and!.
Defined.

Lemma apply_event_only_witness :
  (apply duna start).1 = None ∧ same_store start (apply duna start).2 ∧
  revision (apply duna start).2 = 1.
Proof. apply (apply_event_only duna start); [done|done|by left]. Defined.

Lemma retireAssociation_exact_witness :
  partitions (retireAssociation 7 bound) !! sg = partitions bound !! sg ≫= without 7.
Proof. apply (retireAssociation_exact None), bound_reachable. Defined.

Lemma bind_fresh_epoch_witness :
  partitions (bind sg 7 false start).2 !! sg =
    Some (mkPartitionState sg 1 {[7 := false]} ∅ ∅ ssnmPartitionBaseBytes).
Proof.
  apply (bind_fresh_epoch None start sg 7 false); [by apply reach_new|done|done|].
  vm_compute. reflexivity.
Defined.

Lemma resolveSSNMStateConfig_sound_witness :
  resolveSSNMStateConfig (Some (mkConfig 0 0 0 0 0 0 0 0 (-1))) =
    Err ErrInvalidSSNMStateConfig ∧
  Forall (λ z, 0 < z) (config_fields (limits start)).
Proof.
  split.
  - apply (resolveSSNMStateConfig_sound (Some (mkConfig 0 0 0 0 0 0 0 0 (-1)))).
    cbn. do 8 right. by left.
  - apply (resolveSSNMStateConfig_sound None). reflexivity.
Defined.

Lemma subscription_bounds_witness :
  Z.of_nat (size (subscribers bound)) ≤ MaxSubscribers (limits bound).
Proof. apply (subscription_bounds None bound bound_reachable). Defined.

(** A queue of no slots loses the first event. *)
Lemma continuity_marker_witness :
  (takes 1 (Subscription.enqueue continuityMarker (Subscription.newSSNMSubscription 0 512))).1 =
  [Some (Ok continuityMarker)].
Proof.
  apply (continuity_marker continuityMarker (Subscription.newSSNMSubscription 0 512));
    reflexivity.
Defined.

End Concrete.
