(* ===== verification/AppServerInvariant.v ===== *)
(** * The invariant of an Application Server

    What [recomputeLockedFor] does to each part of the state, and an invariant
    of every operation of AppServer.v: the AS state fits the states of the
    ASPs, T(r) runs exactly while the AS is pending, the distribution order
    holds exactly the active ASPs, and the inactive ASPs of an AS that is short
    of resources have been told. *)

From stdpp Require Import sorting.
From coqutil Require Import Datatypes.RecordSettersUsingExistingGetters.
From S2P Require Import Prelude Params ParamValues Inventory MsgData AppServer.
#[local] Open Scope Z_scope.

(** Evaluates the comparisons of known states. *)
Ltac known_state st :=
  lazymatch st with ASDown => idtac | ASInactive => idtac | ASActive => idtac | ASPending => idtac end.
Ltac eval_states :=
  repeat match goal with
  | |- context [bool_decide (?a = ?b)] =>
      known_state a; known_state b;
      let r := eval vm_compute in (bool_decide (a = b)) in change (bool_decide (a = b)) with r
  end; cbn [negb andb orb].

(** ** Members *)

Lemma elem_of_members f s c :
  c ∈ members f s ↔ ∃ st, asps s !! c = Some st ∧ f st = true.
Proof.
  unfold members. rewrite list_elem_of_fmap. setoid_rewrite list_elem_of_filter.
  setoid_rewrite elem_of_map_to_list'. split.
  - intros ([c' st] & -> & Hf & Hc). exists st. split; [done|]. by apply Is_true_true.
  - intros (st & Hc & Hf). exists (c, st). cbn. by rewrite Hf.
Qed.

Lemma NoDup_members f s : NoDup (members f s).
Proof.
  unfold members. apply NoDup_fmap_fst; [|apply NoDup_filter, NoDup_map_to_list].
  intros c st1 st2. rewrite !list_elem_of_filter, !elem_of_map_to_list'. cbn. naive_solver.
Qed.

Lemma members_ext f s s' : asps s = asps s' → members f s = members f s'.
Proof. unfold members. by intros ->. Qed.

Lemma elem_of_active s c : c ∈ members is_active s ↔ asps s !! c = Some StateASPActive.
Proof.
  rewrite elem_of_members. unfold is_active. split; [|eauto using bool_decide_eq_true_2].
  intros (st & Hc & Hst). by apply bool_decide_eq_true in Hst as ->.
Qed.

Lemma elem_of_inactive s c : c ∈ members is_inactive s ↔ asps s !! c = Some StateASPInactive.
Proof.
  rewrite elem_of_members. unfold is_inactive. split; [|eauto using bool_decide_eq_true_2].
  intros (st & Hc & Hst). by apply bool_decide_eq_true in Hst as ->.
Qed.

Lemma members_pos f s c st : asps s !! c = Some st → f st = true → 0 < len (members f s).
Proof.
  intros Hc Hf. assert (c ∈ members f s) by (apply elem_of_members; eauto).
  destruct (members f s); [set_solver|]. rewrite len_cons. pose proof (len_nonneg l). lia.
Qed.

(** ** The distribution order *)

Lemma assignOrder_eq s c :
  ∃ o n, assignOrder s c = s <| associationOrder := o |> <| nextAssociationOrder := n |>.
Proof.
  unfold assignOrder. destruct (_ !! c).
  - exists (associationOrder s), (nextAssociationOrder s). by destruct s.
  - eexists _, _. reflexivity.
Qed.

Lemma foldl_assignOrder_eq s l :
  ∃ o n, foldl assignOrder s l = s <| associationOrder := o |> <| nextAssociationOrder := n |>.
Proof.
  revert s; induction l as [|c l IH]; intros s; cbn.
  - exists (associationOrder s), (nextAssociationOrder s). by destruct s.
  - destruct (assignOrder_eq s c) as (o & n & ->).
    destruct (IH (s <| associationOrder := o |> <| nextAssociationOrder := n |>)) as (o' & n' & ->).
    exists o', n'. by destruct s.
Qed.

Section invariant.
Context (peers : gmap association Param).

Lemma rebuildActiveLocked_eq s :
  ∃ o n, rebuildActiveLocked peers s =
    s <| associationOrder := o |> <| nextAssociationOrder := n |>
      <| active := merge_sort (notGreater peers o) (members is_active s) |>.
Proof.
  unfold rebuildActiveLocked.
  destruct (foldl_assignOrder_eq s (map_to_list (asps s)).*1) as (o & n & ->).
  exists o, n. by destruct s.
Qed.

(** ** What one recomputation does *)

(** How [recomputeLockedFor] leaves the parts of the state other than the
    notifications. *)
Definition restamp (gen : Z) (i : queuedData) : queuedData :=
  mkQueued (qd_data i) (qd_flow i) (qd_size i) gen (qd_broadcastTargets i)
    (qd_broadcastTargetsSet i) (qd_broadcastEpoch i) (qd_broadcastMarker i) (qd_ticket i).

Definition next_of (s : applicationServer) : ASState :=
  nextState s (len (members is_active s)) (len (members is_inactive s)).

Definition short (s : applicationServer) : bool :=
  bool_decide (state s = ASActive) && (len (members is_active s) <? requiredActive s) &&
  is_shared_mode (trafficMode s).

(** Entering AS-PENDING. *)
Definition pends (s : applicationServer) : bool :=
  negb (bool_decide (next_of s = state s)) && bool_decide (next_of s = ASPending).

Record recomputed (s s' : applicationServer) : Prop := {
  rc_key : key s' = key s;
  rc_policy : activationPolicy s' = activationPolicy s;
  rc_asps : asps s' = asps s;
  rc_active : active s' ≡ₚ members is_active s;
  rc_state : state s' = next_of s;
  rc_closed : closed s' = closed s;
  rc_mode : trafficMode s' = trafficMode s;
  rc_recovery : recovery s' =
    if bool_decide (next_of s = state s) then recovery s
    else if bool_decide (next_of s = ASPending) then Some (recoveryGen s') else None;
  rc_gen : recoveryGen s' = if pends s then recoveryGen s + 1 else recoveryGen s;
  rc_expired : recoveryExpiredGen s' = recoveryExpiredGen s;
  rc_queue : recoveryQueue s' =
    if pends s then map (restamp (recoveryGen s')) (recoveryQueue s) else recoveryQueue s;
  rc_bytes : recoveryQueueBytes s' = recoveryQueueBytes s;
  rc_inflight : deliveryInFlightBytes s' = deliveryInFlightBytes s;
  rc_sending : activeSending s' = activeSending s;
  rc_draining : draining s' = draining s;
  rc_retry : drainRetry s' =
    if negb (bool_decide (next_of s = state s)) && negb (bool_decide (next_of s = ASActive))
    then false else drainRetry s;
  rc_delay : drainRetryDelay s' = drainRetryDelay s;
  rc_epoch : broadcastEpoch s' = broadcastEpoch s;
  rc_tagged : broadcastTagged s' = broadcastTagged s;
  rc_limit : broadcastFlowLimit s' = broadcastFlowLimit s;
  rc_corr : nextCorrelationID s' = nextCorrelationID s;
  rc_insufficient : resourcesInsufficient s' = short s';
  rc_notified : insufficientNotified s' =
    if short s' then list_to_set (members is_inactive s') else ∅;
}.

(** The notifications of the state and their counters, apart from the rest. *)
Definition renotify (ns : list asNotification) (n : Z) (w : bool) (s : applicationServer) :=
  s <| notifications := ns |> <| nextNotification := n |> <| notificationWorker := w |>.

Lemma renotify_id s :
  s = renotify (notifications s) (nextNotification s) (notificationWorker s) s.
Proof. by destruct s. Qed.

Lemma enqueueStatus_eq status tg ai s s' ids :
  enqueueStatusNotificationLocked status tg ai s = (s', ids) →
  ∃ e, s' = renotify (notifications s ++ [e]) (1 + nextNotification s) true s ∧
    ids = [n_id e] ∧ n_id e = nextNotification s ∧ n_status e = status ∧
    n_targets e = tg ∧ n_aspIdentifier e = Copy ai ∧ n_ready e = false.
Proof. intros [= <- <-]. eexists. by repeat split. Qed.

Lemma enqueueState_eq st tg ai s s' ids :
  enqueueStateNotificationLocked st tg ai s = (s', ids) →
  ∃ ns n w, s' = renotify ns n w s.
Proof.
  unfold enqueueStateNotificationLocked. destruct (statusInformation st) as [status|].
  - intros (e & -> & _)%enqueueStatus_eq. eauto.
  - intros [= <- <-]. eexists _, _, _. apply renotify_id.
Qed.

(** The state after the switch. *)
Definition switched (next : ASState) (s : applicationServer) : applicationServer :=
  if bool_decide (next = state s) then s else
  let s := s <| state := next |> <| recovery := None |> in
  let s := if bool_decide (next = ASPending) then startRecoveryLocked s else s in
  if bool_decide (next = ASActive) then s else s <| drainRetry := false |>.

Lemma changeState_eq next ai tg s s' ids :
  changeState next ai tg s = (s', ids) →
  ∃ ns n w, s' = renotify ns n w (switched next s).
Proof.
  unfold changeState, switched. destruct (bool_decide (next = state s)); cbn [negb].
  - destruct (len tg =? 0); cbn [negb].
    + intros [= <- <-]. eexists _, _, _. apply renotify_id.
    + apply enqueueState_eq.
  - intros (ns & n & w & ->)%enqueueState_eq. exists ns, n, w.
    destruct (bool_decide (next = ASActive)); done.
Qed.

Lemma advise_eq next active changed s s' ids :
  adviseInsufficient next active changed s = (s', ids) →
  let insufficient := bool_decide (next = ASActive) && (active <? requiredActive s) &&
                      is_shared_mode (trafficMode s) in
  ∃ ns n w, s' = renotify ns n w
    (s <| insufficientNotified :=
            if insufficient then list_to_set (members is_inactive s) else ∅ |>
       <| resourcesInsufficient := insufficient |>).
Proof.
  unfold adviseInsufficient. cbv zeta.
  destruct (_ && is_shared_mode _).
  - destruct (_ =? 0); cbn [negb].
    + intros [= <- <-]. eexists _, _, _. apply renotify_id.
    + destruct (enqueueStatusNotificationLocked _ _ _ _) as [s1 r] eqn:He.
      apply enqueueStatus_eq in He as (e & -> & _). intros [= <- <-].
      exists (notifications s ++ [e]), (1 + nextNotification s), true. reflexivity.
  - destruct (_ && negb changed).
    + destruct (enqueueStateNotificationLocked _ _ _ _) as [s1 r] eqn:He.
      apply enqueueState_eq in He as (ns & n & w & ->). intros [= <- <-].
      exists ns, n, w. reflexivity.
    + intros [= <- <-]. eexists _, _, _. apply renotify_id.
Qed.

(** The state after the advisory. *)
Definition advised (s : applicationServer) : applicationServer :=
  s <| insufficientNotified := if short s then list_to_set (members is_inactive s) else ∅ |>
    <| resourcesInsufficient := short s |>.

Lemma recomputeLockedFor_eq ai tg s s' ids :
  recomputeLockedFor peers ai tg s = (s', ids) →
  ∃ ns n w o k l,
    l ≡ₚ members is_active s ∧
    s' = renotify ns n w (advised (switched (next_of s)
           (s <| associationOrder := o |> <| nextAssociationOrder := k |> <| active := l |>))).
Proof.
  unfold recomputeLockedFor. destruct (rebuildActiveLocked_eq s) as (o & k & ->).
  set (l := merge_sort _ _). assert (Hl : l ≡ₚ members is_active s)
    by apply merge_sort_Permutation. clearbody l.
  set (s0 := s <| associationOrder := o |> <| nextAssociationOrder := k |> <| active := l |>).
  change (nextState s0 (len (members is_active s0)) (len (members is_inactive s0)))
    with (next_of s).
  destruct (changeState _ _ _ _) as [s1 r1] eqn:H1.
  destruct (adviseInsufficient _ _ _ _) as [s2 r2] eqn:H2.
  apply changeState_eq in H1 as (ns1 & n1 & w1 & ->).
  assert (Hst : state (switched (next_of s) s0) = next_of s).
  { unfold switched. case_bool_decide as Hs; [done|].
    by destruct (bool_decide (next_of s = ASPending)), (bool_decide (next_of s = ASActive)). }
  assert (Ha : asps (switched (next_of s) s0) = asps s).
  { unfold switched. case_bool_decide; [done|].
    by destruct (bool_decide (next_of s = ASPending)), (bool_decide (next_of s = ASActive)). }
  apply advise_eq in H2 as (ns2 & n2 & w2 & ->). intros [<- _]%pair_equal_spec.
  exists (if (len (notifications s0) =? 0) && negb (len ns2 =? 0) then wait_last ns2 else ns2), n2, w2, o, k, l.
  split; [done|]. fold s0. set (s1 := switched (next_of s) s0) in *.
  assert (Hsh : bool_decide (next_of s = ASActive) && (len (members is_active s0) <? requiredActive s1) &&
           is_shared_mode (trafficMode s1) = short s1).
  { unfold short. by rewrite Hst, (members_ext is_active s0 s1 (eq_sym Ha)). }
  change (requiredActive (renotify ns1 n1 w1 s1)) with (requiredActive s1).
  change (trafficMode (renotify ns1 n1 w1 s1)) with (trafficMode s1).
  rewrite Hsh. unfold advised.
  change (members is_inactive (renotify ns1 n1 w1 s1)) with (members is_inactive s1).
  change (notifications (renotify ns2 n2 w2 ?s)) with ns2.
  change (notifications s0) with (notifications s). clearbody s1. clear.
  destruct ((len (notifications s) =? 0) && negb (len ns2 =? 0)); reflexivity.
Qed.

Lemma recomputeLockedFor_recomputed ai tg s s' ids :
  recomputeLockedFor peers ai tg s = (s', ids) → recomputed s s'.
Proof.
  intros (ns & n & w & o & k & l & Hl & ->)%recomputeLockedFor_eq.
  unfold switched. cbn [state].
  assert (Hp : pends s = negb (bool_decide (next_of s = state s)) &&
                         bool_decide (next_of s = ASPending)) by done.
  destruct (bool_decide (next_of s = state s)) eqn:Hs.
  - apply bool_decide_eq_true in Hs.
    constructor; rewrite ?Hp; try done; rewrite ?bool_decide_eq_true_2 by done; done.
  - apply bool_decide_eq_false in Hs.
    destruct (bool_decide (next_of s = ASPending)) eqn:Hpd,
      (bool_decide (next_of s = ASActive)) eqn:Hac;
      constructor; rewrite ?Hp; try done; rewrite ?bool_decide_eq_false_2 by done;
      rewrite ?Hpd, ?Hac; done.
Qed.
Lemma recomputeLocked_recomputed ai s s' ids :
  recomputeLocked peers ai s = (s', ids) → recomputed s s'.
Proof. unfold recomputeLocked. apply recomputeLockedFor_recomputed. Qed.

(** ** The invariant *)

Definition nActive (s : applicationServer) : Z := len (members is_active s).
Definition nInactive (s : applicationServer) : Z := len (members is_inactive s).

(** RFC 4666 Section 4.3.2: what the state of the AS says about its ASPs. *)
Definition state_fits (s : applicationServer) : Prop :=
  match state s with
  | ASDown => nActive s = 0 ∧ nInactive s = 0
  | ASInactive => nActive s < requiredActive s ∧ 0 < nActive s + nInactive s
  | ASActive => 0 < nActive s
  | ASPending => nActive s = 0
  end.

Record as_ok (s : applicationServer) : Prop := {
  ok_policy : 0 ≤ RequiredActiveASPs (activationPolicy s);
  ok_gen : recoveryExpiredGen s ≤ recoveryGen s;
  ok_recovery : recovery s =
    if bool_decide (state s = ASPending) then Some (recoveryGen s) else None;
  ok_pending : state s = ASPending → recoveryExpiredGen s < recoveryGen s;
  ok_closed : closed s = true → state s = ASDown;
  ok_active : closed s = false → active s ≡ₚ members is_active s;
  ok_state : closed s = false → state_fits s;
  ok_short : closed s = false → resourcesInsufficient s = true → short s = true;
  ok_notified : closed s = false → insufficientNotified s =
    if resourcesInsufficient s then list_to_set (members is_inactive s) else ∅;
}.

(** The parts of the state [as_ok] reads.  Moving traffic leaves them alone,
    but for the generation, which it may advance while no T(r) runs. *)
Record same_members (s s' : applicationServer) : Prop := {
  sm_policy : activationPolicy s' = activationPolicy s;
  sm_asps : asps s' = asps s;
  sm_active : active s' = active s;
  sm_state : state s' = state s;
  sm_closed : closed s' = closed s;
  sm_mode : trafficMode s' = trafficMode s;
  sm_recovery : recovery s' = recovery s;
  sm_expired : recoveryExpiredGen s' = recoveryExpiredGen s;
  sm_gen : recoveryGen s' = recoveryGen s ∨
           (state s = ASActive ∧ recoveryGen s ≤ recoveryGen s');
  sm_short : resourcesInsufficient s' = resourcesInsufficient s;
  sm_notified : insufficientNotified s' = insufficientNotified s;
}.

Lemma same_members_refl s : same_members s s.
Proof. constructor; auto. Qed.

Lemma same_members_ok s s' : same_members s s' → as_ok s → as_ok s'.
Proof.
  intros [] []. assert (Hm : ∀ f, members f s' = members f s) by by intros; apply members_ext.
  assert (Hr : requiredActive s' = requiredActive s) by by unfold requiredActive; congruence.
  constructor; unfold state_fits, short, nActive, nInactive in *;
    rewrite ?Hm, ?Hr, ?sm_policy0, ?sm_asps0, ?sm_active0, ?sm_state0, ?sm_closed0, ?sm_mode0,
      ?sm_recovery0, ?sm_expired0, ?sm_short0, ?sm_notified0; try done.
  - destruct sm_gen0 as [->|[_ ?]]; [done|lia].
  - destruct sm_gen0 as [->|[Ha _]]; [done|]. by rewrite ok_recovery0, Ha.
  - intros Hp. destruct sm_gen0 as [->|[Ha _]]; [auto|congruence].
Qed.

Lemma requiredActive_pos s : 0 ≤ RequiredActiveASPs (activationPolicy s) → 1 ≤ requiredActive s.
Proof. unfold requiredActive, policy_requiredActive. intros. case_match; to_prop; lia. Qed.

(** What a recomputation needs of the state it starts from. *)
Record pre_ok (s : applicationServer) : Prop := {
  po_policy : 0 ≤ RequiredActiveASPs (activationPolicy s);
  po_gen : recoveryExpiredGen s ≤ recoveryGen s;
  po_recovery : recovery s =
    if bool_decide (state s = ASPending) then Some (recoveryGen s) else None;
  po_pending : state s = ASPending → recoveryExpiredGen s < recoveryGen s;
  po_open : closed s = false;
}.

Lemma as_ok_pre s : as_ok s → closed s = false → pre_ok s.
Proof. by intros []. Qed.

Lemma pre_ok_asps s s' :
  pre_ok s → activationPolicy s' = activationPolicy s → recoveryGen s' = recoveryGen s →
  recoveryExpiredGen s' = recoveryExpiredGen s → recovery s' = recovery s →
  state s' = state s → closed s' = closed s → pre_ok s'.
Proof. intros [] Hp Hg He Hr Hs Hc. by constructor; rewrite ?Hp, ?Hg, ?He, ?Hr, ?Hs, ?Hc. Qed.

Lemma next_of_fits s s' :
  0 ≤ RequiredActiveASPs (activationPolicy s) →
  activationPolicy s' = activationPolicy s → asps s' = asps s → state s' = next_of s →
  state_fits s'.
Proof.
  intros Hp%requiredActive_pos Hpol Hasps Hst. unfold state_fits, nActive, nInactive.
  assert (Hm : ∀ f, members f s' = members f s) by by intros; apply members_ext.
  assert (Hr : requiredActive s' = requiredActive s) by by unfold requiredActive; congruence.
  rewrite Hst, !Hm, Hr. unfold next_of, nextState.
  pose proof (len_nonneg (members is_active s)). pose proof (len_nonneg (members is_inactive s)).
  repeat (case_match; to_prop); try lia; try done.
Qed.

Lemma recomputed_ok s s' : recomputed s s' → pre_ok s → as_ok s'.
Proof.
  intros [] []. assert (Hfit : state_fits s') by by eapply next_of_fits.
  assert (Hpre : recovery s' = if bool_decide (state s' = ASPending)
                               then Some (recoveryGen s') else None).
  { rewrite rc_recovery0, rc_state0.
    destruct (bool_decide (next_of s = state s)) eqn:Hn; [|done].
    rewrite rc_gen0. unfold pends. rewrite Hn. cbn [negb andb].
    apply bool_decide_eq_true in Hn. by rewrite Hn, po_recovery0. }
  constructor; try done.
  - congruence.
  - rewrite rc_expired0, rc_gen0. destruct (pends s); lia.
  - rewrite rc_state0, rc_expired0, rc_gen0. unfold pends. intros Hn. rewrite Hn.
    rewrite (bool_decide_eq_true_2 (ASPending = ASPending)), andb_true_r by done.
    destruct (bool_decide (ASPending = state s)) eqn:Hs; cbn [negb]; [|lia].
    apply bool_decide_eq_true in Hs. apply po_pending0. congruence.
  - intros Hc. congruence.
  - intros _. rewrite rc_active0. by rewrite (members_ext is_active s s').
  - intros _ Hi. congruence.
  - intros _. by rewrite rc_notified0, rc_insufficient0.
Qed.

Lemma recompute_ok ai tg s s' ids :
  recomputeLockedFor peers ai tg s = (s', ids) → pre_ok s → as_ok s' ∧ closed s' = false.
Proof.
  intros H%recomputeLockedFor_recomputed Hp. split; [by eapply recomputed_ok|].
  rewrite (rc_closed _ _ H). apply Hp.
Qed.
(** ** The shapes of a step *)

(** Markers: kept, or dropped by an activation. *)
Definition tags_kept (s s' : applicationServer) : Prop :=
  (broadcastTagged s' = broadcastTagged s ∧ broadcastEpoch s' = broadcastEpoch s) ∨
  broadcastTagged s' = ∅.

(** What an operation that leaves the ASPs alone keeps. *)
Record quiet (s s' : applicationServer) : Prop := {
  q_key : key s' = key s;
  q_policy : activationPolicy s' = activationPolicy s;
  q_asps : asps s' = asps s;
  q_active : active s' = active s ∨ active s' ≡ₚ members is_active s;
  q_state : state s' = state s;
  q_closed : closed s' = closed s;
  q_mode : trafficMode s' = trafficMode s ∨ trafficMode s = 0;
  q_recovery : recovery s' = recovery s;
  q_gen : recoveryGen s' = recoveryGen s;
  q_expired : recoveryExpiredGen s' = recoveryExpiredGen s;
  q_queue : recoveryQueue s' = recoveryQueue s;
  q_bytes : recoveryQueueBytes s' = recoveryQueueBytes s;
  q_inflight : deliveryInFlightBytes s' = deliveryInFlightBytes s;
  q_sending : activeSending s' = activeSending s;
  q_draining : draining s' = draining s;
  q_retry : drainRetry s' = drainRetry s;
  q_delay : drainRetryDelay s' = drainRetryDelay s;
  q_limit : broadcastFlowLimit s' = broadcastFlowLimit s;
  q_corr : nextCorrelationID s' = nextCorrelationID s;
  q_short : resourcesInsufficient s' = resourcesInsufficient s;
  q_notified : insufficientNotified s' = insufficientNotified s;
  q_tags : tags_kept s s';
}.

Lemma quiet_ok s s' : quiet s s' → as_ok s → as_ok s'.
Proof.
  intros [] []. assert (Hm : ∀ f, members f s' = members f s) by by intros; apply members_ext.
  assert (Hr : requiredActive s' = requiredActive s) by by unfold requiredActive; congruence.
  constructor; unfold state_fits, nActive, nInactive in *;
    rewrite ?Hm, ?Hr, ?q_policy0, ?q_state0, ?q_closed0,
      ?q_recovery0, ?q_expired0, ?q_short0, ?q_notified0, ?q_gen0; try done.
  - intros Hc. destruct q_active0 as [->|]; auto.
  - intros Hc Hs. specialize (ok_short0 Hc Hs). unfold short in *.
    rewrite Hm, Hr, q_state0. destruct q_mode0 as [->|Hz]; [done|].
    rewrite Hz, andb_false_r in ok_short0. done.
Qed.

(** The state a recomputation starts from: the ASPs have changed, and with them
    the markers may be gone. *)
Record reassigned (s s1 : applicationServer) : Prop := {
  ra_key : key s1 = key s;
  ra_policy : activationPolicy s1 = activationPolicy s;
  ra_state : state s1 = state s;
  ra_closed : closed s1 = closed s;
  ra_mode : trafficMode s1 = trafficMode s;
  ra_recovery : recovery s1 = recovery s;
  ra_gen : recoveryGen s1 = recoveryGen s;
  ra_expired : recoveryExpiredGen s1 = recoveryExpiredGen s;
  ra_queue : recoveryQueue s1 = recoveryQueue s;
  ra_bytes : recoveryQueueBytes s1 = recoveryQueueBytes s;
  ra_inflight : deliveryInFlightBytes s1 = deliveryInFlightBytes s;
  ra_sending : activeSending s1 = activeSending s;
  ra_draining : draining s1 = draining s;
  ra_retry : drainRetry s1 = drainRetry s;
  ra_delay : drainRetryDelay s1 = drainRetryDelay s;
  ra_limit : broadcastFlowLimit s1 = broadcastFlowLimit s;
  ra_corr : nextCorrelationID s1 = nextCorrelationID s;
  ra_notes : notifications s1 = notifications s;
  ra_short : resourcesInsufficient s1 = resourcesInsufficient s;
  ra_notified : insufficientNotified s1 = insufficientNotified s;
  ra_tags : tags_kept s s1;
}.

(** [drained s2 s'] is the end of an operation that may start a drain. *)
Definition drained (s2 s' : applicationServer) (drain : bool) : Prop :=
  drain = wantsDrain s2 ∧ s' = if drain then startDrain s2 else s2.

(** What a notification says, and to whom. *)
Definition told (e : asNotification) : Z * list association := (n_status e, n_targets e).
Definition announcements (s : applicationServer) : list (Z * list association) :=
  told <$> notifications s.

(** Nothing is announced, and nothing is lost; a closed Application Server
    drops its notifications. *)
Definition nothing_new (s s' : applicationServer) (sent : list asNotification) : Prop :=
  closed s = false → told <$> (sent ++ notifications s') = announcements s.

Inductive shape (s : applicationServer) : asOp → effect → Prop :=
| shape_quiet op s' sent :
    quiet s s' → nothing_new s s' sent → shape s op (mkEffect s' [] false (0, 0) sent)
| shape_record op s1 s2 s' ai notify drain :
    closed s = false → reassigned s s1 → recomputeLocked peers ai s1 = (s2, notify) →
    drained s2 s' drain → shape s op (mkEffect s' notify drain (0, 0) [])
| shape_withdraw op s1 s' ai tg notify :
    closed s = false → reassigned s s1 → members is_active s1 ⊆ members is_active s →
    recomputeLockedFor peers ai tg s1 = (s', notify) →
    shape s op (mkEffect s' notify false (0, 0) [])
| shape_drain op s' drain :
    closed s = false → drained s s' drain → shape s op (mkEffect s' [] drain (0, 0) [])
| shape_expired gen s' notify release :
    recoveryExpired gen s = (s', notify, release) → shape s (RecoveryExpired gen) (mkEffect s' notify false release [])
| shape_closed s' release :
    close s = (s', release) → shape s Close (mkEffect s' [] false release []).

Lemma quiet_refl s : quiet s s.
Proof. constructor; auto. left; auto. Qed.

Lemma shape_none s op : shape s op (mkEffect s [] false (0, 0) []).
Proof. apply shape_quiet; [apply quiet_refl|done]. Qed.

Lemma reassigned_asps s m :
  reassigned s (s <| asps := m |>).
Proof. constructor; try done. by left. Qed.

Lemma reassigned_note s s1 : reassigned s s1 → reassigned s (noteBroadcastActivationLocked s1).
Proof.
  intros []. unfold noteBroadcastActivationLocked. case_match; [by constructor|].
  constructor; try done. by right.
Qed.

Lemma recordASPState_shape c st ifAbsent s :
  shape s (RecordASPState c st ifAbsent) (as_step peers (RecordASPState c st ifAbsent) s).
Proof.
  cbn [as_step]. unfold recordASPState.
  destruct (closed s) eqn:Hc; [apply shape_none|].
  match goal with |- context [let '(_, _) := recomputeLocked _ _ ?x in _] => set (s1 := x) end.
  assert (Hs1 : reassigned s s1).
  { unfold s1. destruct (_ || negb ifAbsent).
    - destruct (_ && _); [apply reassigned_note|]; apply reassigned_asps.
    - constructor; try done. by left. }
  destruct (recomputeLocked _ _ s1) as [s2 notify] eqn:H2. clearbody s1.
  destruct (wantsDrain s2) eqn:Hw.
  - apply (shape_record _ _ s1 s2 _ None); [done..|]. by split.
  - apply (shape_record _ _ s1 s2 _ None); [done..|]. by split.
Qed.

Lemma markASPDown_shape c s : shape s (MarkASPDown c) (as_step peers (MarkASPDown c) s).
Proof.
  cbn [as_step]. unfold markASPDown.
  destruct (closed s) eqn:Hc; [apply shape_none|].
  destruct (asps s !! c) as [st|] eqn:Hst; [|apply shape_none].
  assert (Hsub : members is_active (s <| asps ::= <[c:=StateASPDown]> |>) ⊆ members is_active s).
  { intros d. rewrite !elem_of_active. cbn. destruct (decide (c = d)) as [->|Hne].
    - by rewrite lookup_insert_eq.
    - by rewrite lookup_insert_ne. }
  destruct st; try (apply shape_none);
    destruct (recomputeLocked _ _ _) as [s2 notify] eqn:H2;
    (eapply shape_withdraw; [done|apply reassigned_asps|exact Hsub|exact H2]).
Qed.

Lemma foldl_markInactive_spec cs s ch tg s' ch' tg' :
  foldl markInactive (s, ch, tg) cs = (s', ch', tg') →
  (∃ m, s' = s <| asps := m |>) ∧ members is_active s' ⊆ members is_active s ∧
  (ch' = false → ch = false ∧ s' = s).
Proof.
  revert s ch tg; induction cs as [|c cs IH]; intros s ch tg; cbn [foldl].
  { intros [= <- <- _]. split_and!; [|done..]. exists (asps s). by destruct s. }
  unfold markInactive at 2. case_bool_decide; [apply IH|].
  intros ([m Hm] & Hsub & Hch)%IH. split_and!.
  - exists m. by rewrite Hm.
  - intros d Hd%Hsub. revert Hd. rewrite !elem_of_active. cbn.
    destruct (decide (c = d)) as [->|Hne]; [by rewrite lookup_insert_eq|].
    by rewrite lookup_insert_ne.
  - by intros [? _]%Hch.
Qed.

Lemma markASPsInactive_shape cs s : shape s (MarkASPsInactive cs) (as_step peers (MarkASPsInactive cs) s).
Proof.
  cbn [as_step]. unfold markASPsInactive.
  destruct (closed s) eqn:Hc; [apply shape_none|].
  destruct (foldl _ _ _) as [[s1 ch] tg] eqn:Hf.
  apply foldl_markInactive_spec in Hf as ([m Hm] & Hsub & Hch).
  destruct ch; cbn [negb].
  - destruct (recomputeLockedFor _ _ _ _) as [s2 notify] eqn:H2. subst s1.
    eapply shape_withdraw; [done|apply reassigned_asps|exact Hsub|exact H2].
  - destruct Hch as [_ ->]; [done|]. apply shape_none.
Qed.

Lemma activateOverride_shape c s : shape s (ActivateOverride c) (as_step peers (ActivateOverride c) s).
Proof.
  cbn [as_step]. unfold activateOverride.
  destruct (closed s) eqn:Hc; [apply shape_none|].
  match goal with |- context [if ?ch then recomputeLocked _ None ?x else _] =>
    destruct ch eqn:Hch; set (s1 := x) end.
  - assert (Hs1 : reassigned s s1) by (constructor; try done; by left).
    destruct (recomputeLocked _ _ s1) as [s2 notify] eqn:H2. clearbody s1.
    destruct (wantsDrain s2) eqn:Hw;
      (eapply (shape_record _ _ s1 s2 _ None); [done..|by split]).
  - to_prop. assert (s1 = s) as ->.
    { subst s1. apply bool_decide_eq_true in H. to_prop.
      match goal with H : len _ = 0 |- _ => rewrite (len_0_nil _ H) end.
      transitivity (s <| asps := <[c:=StateASPActive]> (asps s) |>); [done|].
      rewrite insert_id by done. by destruct s. }
    destruct (wantsDrain s) eqn:Hw; (apply shape_drain; [done|by split]).
Qed.

Lemma remove_shape c s : shape s (Remove c) (as_step peers (Remove c) s).
Proof.
  cbn [as_step]. unfold remove.
  destruct (closed s) eqn:Hc; [apply shape_none|].
  destruct (asps s !! c) as [st|] eqn:Hst; [|apply shape_none].
  set (s1 := s <| asps ::= delete c |> <| associationOrder ::= delete c |>).
  assert (Hsub : members is_active s1 ⊆ members is_active s).
  { intros d. rewrite !elem_of_active. cbn. by intros [_ ?]%lookup_delete_Some. }
  assert (Hs1 : reassigned s s1) by (constructor; try done; by left).
  destruct (recomputeLocked _ _ _) as [s2 notify] eqn:H2.
  eapply shape_withdraw; [done|exact Hs1|exact Hsub|exact H2].
Qed.

Lemma quiet_mode mode s : trafficMode s = 0 → quiet s (s <| trafficMode := mode |>).
Proof. constructor; auto. by left. Qed.

Lemma quiet_note s s1 : quiet s s1 → quiet s (noteBroadcastActivationLocked s1).
Proof.
  intros []. unfold noteBroadcastActivationLocked. case_match; [by constructor|].
  constructor; try done. by right.
Qed.

Lemma told_set_ready (ids : list Z) l :
  told <$> map (λ e, if bool_decide (n_id e ∈ ids) then set_ready e else e) l = told <$> l.
Proof.
  induction l as [|e l IH]; [done|]. cbn. f_equal; [|exact IH]. by destruct (bool_decide _).
Qed.

Lemma quiet_notifications s ns w :
  quiet s (s <| notifications := ns |> <| notificationWorker := w |>).
Proof. constructor; auto. by left. Qed.

Lemma as_step_shape op s : shape s op (as_step peers op s).
Proof.
  destruct op.
  - apply recordASPState_shape.
  - apply markASPDown_shape.
  - apply markASPsInactive_shape.
  - apply activateOverride_shape.
  - apply remove_shape.
  - cbn. unfold refreshASPOrdering. case_bool_decide; [|apply shape_none].
    destruct (rebuildActiveLocked_eq s) as (o & n & ->). apply shape_quiet; [|done].
    constructor; try done; [right; apply merge_sort_Permutation|auto|by left].
  - cbn. unfold setTrafficModeLocked.
    destruct (_ && _); [apply shape_none|].
    destruct (trafficMode s =? 0) eqn:Hz; [|apply shape_none]. to_prop.
    unfold noteBroadcastActivationLocked.
    apply shape_quiet; [|by repeat case_match].
    case_match; [apply quiet_note|]; by apply quiet_mode.
  - cbn. destruct (agreedMode _ _ _); try (apply shape_none).
    unfold commitMode. destruct (_ =? 0) eqn:Hz; [|apply shape_none]. to_prop.
    apply shape_quiet; [by apply quiet_mode|done].
  - cbn. apply shape_quiet; [|intros _; apply told_set_ready].
    apply (quiet_notifications s _ (notificationWorker s)).
  - cbn. unfold deliverNotification. destruct (negb (notificationWorker s)); [apply shape_none|].
    destruct (notifications s) as [|e rest] eqn:Hns.
    + apply shape_quiet; [apply (quiet_notifications s (notifications s))|].
      intros _. unfold announcements. cbn. by rewrite Hns.
    + destruct (n_ready e); [|apply shape_none].
      apply shape_quiet; [apply (quiet_notifications s rest (notificationWorker s))|].
      intros Hc. unfold announcements. by rewrite Hc, Hns.
  - cbn. destruct (recoveryExpired _ _) as [[s' notify] release] eqn:He.
    by eapply shape_expired.
  - cbn. destruct (close s) as [s' release] eqn:He. by eapply shape_closed.
Qed.

(** ** Every step keeps the invariant *)

Lemma reassigned_pre s s1 : reassigned s s1 → as_ok s → closed s = false → pre_ok s1.
Proof. intros [] Hok Hc. eapply pre_ok_asps; [by apply as_ok_pre|done..]. Qed.

Lemma drained_same s2 s' drain : drained s2 s' drain → same_members s2 s'.
Proof. intros [_ ->]. destruct drain; [|apply same_members_refl]. constructor; auto. Qed.

(** T(r) has expired for an AS that is still pending. *)
Definition expires (gen : Z) (s : applicationServer) : bool :=
  (gen =? recoveryGen s) && bool_decide (state s = ASPending).

Definition next_expired (s : applicationServer) : ASState :=
  if 0 <? nInactive s then ASInactive else ASDown.

Lemma recoveryExpired_eq gen s s' notify release :
  recoveryExpired gen s = (s', notify, release) →
  if expires gen s then
    release = (len (recoveryQueue s), recoveryQueueBytes s - deliveryInFlightBytes s) ∧
    ∃ ns n w, s' = renotify ns n w
      (s <| recovery := None |> <| state := next_expired s |> <| recoveryExpiredGen := gen |>
         <| recoveryQueue := [] |> <| recoveryQueueBytes := deliveryInFlightBytes s |>
         <| draining := false |> <| drainRetry := false |>)
  else s' = s ∧ notify = [] ∧ release = (0, 0).
Proof.
  unfold recoveryExpired, expires.
  destruct (gen =? recoveryGen s); cbn [negb orb andb]; [|by intros [= <- <- <-]].
  destruct (bool_decide (state s = ASPending)); cbn [negb]; [|by intros [= <- <- <-]].
  destruct (enqueueStateNotificationLocked _ _ _ _) as [s1 n] eqn:He.
  apply enqueueState_eq in He as (ns & k & w & ->).
  intros [[Hs _]%pair_equal_spec Hr]%pair_equal_spec. split; [exact (eq_sym Hr)|].
  exists ns, k, w. rewrite <-Hs. reflexivity.
Qed.

Lemma recoveryExpired_ok gen s s' notify release :
  recoveryExpired gen s = (s', notify, release) → as_ok s → as_ok s'.
Proof.
  intros He%recoveryExpired_eq Hok. destruct (expires gen s) eqn:Hg; [|by destruct He as [-> _]].
  apply andb_true_iff in Hg as [->%Z.eqb_eq Hp%bool_decide_eq_true].
  destruct He as [_ (ns & n & w & ->)]. destruct Hok.
  assert (Hc : closed s = false) by (destruct (closed s); [|done]; specialize (ok_closed0 eq_refl); congruence).
  specialize (ok_state0 Hc). unfold state_fits in ok_state0. rewrite Hp in ok_state0.
  assert (Hi : resourcesInsufficient s = false).
  { destruct (resourcesInsufficient s) eqn:Hr; [|done]. specialize (ok_short0 Hc eq_refl).
    unfold short in ok_short0. by rewrite Hp in ok_short0. }
  pose proof (len_nonneg (members is_inactive s)) as Hn. pose proof (requiredActive_pos s ok_policy0).
  unfold next_expired, nInactive. constructor; cbn; try done; try lia.
  - by destruct (0 <? _).
  - by destruct (0 <? _).
  - intros Ht. congruence.
  - intros _. unfold state_fits, nActive, nInactive in *. cbn.
    change (members ?f (renotify _ _ _ _)) with (members f s).
    change (requiredActive (renotify _ _ _ _)) with (requiredActive s).
    destruct (0 <? len (members is_inactive s)) eqn:Hz; to_prop; cbn; lia.
  - intros _ Hr. congruence.
Qed.

Lemma close_eq s s' release :
  close s = (s', release) →
  if closed s then s' = s ∧ release = (0, 0) else
    release = (len (recoveryQueue s), recoveryQueueBytes s - deliveryInFlightBytes s) ∧
    s' = renotify (map set_ready (notifications s)) (nextNotification s) (notificationWorker s)
      (s <| closed := true |> <| state := ASDown |> <| recovery := None |> <| drainRetry := false |>
         <| recoveryGen := 1 + recoveryGen s |> <| recoveryExpiredGen := 1 + recoveryGen s |>
         <| recoveryQueue := [] |> <| recoveryQueueBytes := deliveryInFlightBytes s |>
         <| draining := false |> <| active := [] |> <| associationOrder := ∅ |>).
Proof.
  unfold close. destruct (closed s); [by intros [= <- <-]|].
  intros [<- <-]%pair_equal_spec. done.
Qed.

Lemma close_ok s s' release : close s = (s', release) → as_ok s → as_ok s'.
Proof.
  intros He%close_eq Hok. destruct (closed s); destruct He as [-> He]; [done|]. subst s'.
  destruct Hok. by constructor.
Qed.

Lemma shape_ok s op eff : shape s op eff → as_ok s → as_ok (e_state eff).
Proof.
  intros [] Hok; cbn [e_state].
  - by eapply quiet_ok.
  - apply recompute_ok in H1 as [H1 _]; [|by eapply reassigned_pre].
    eapply same_members_ok, H1. by eapply drained_same.
  - apply recompute_ok in H2 as [H2 _]; [done|by eapply reassigned_pre].
  - eapply same_members_ok, Hok. by eapply drained_same.
  - by eapply recoveryExpired_ok.
  - by eapply close_ok.
Qed.

Lemma as_step_ok op s : as_ok s → as_ok (e_state (as_step peers op s)).
Proof. apply (shape_ok s op), as_step_shape. Qed.

Lemma newApplicationServer_ok k policy limit :
  0 ≤ RequiredActiveASPs policy → as_ok (newApplicationServer k policy limit).
Proof. by constructor. Qed.
End invariant.
