(* ===== verification/AppServerTheory.v ===== *)
(** * Theorems on the Application Server

    The AS state machine of RFC 4666 Section 4.3.2 as the code runs it: which
    states follow which, and why; what each change announces, and to whom; the
    Override procedure; the agreement on a traffic mode. *)

From stdpp Require Import sorting.
From coqutil Require Import Datatypes.RecordSettersUsingExistingGetters.
From S2P Require Import Prelude Params ParamValues Inventory MsgData AppServer AppServerInvariant.
#[local] Open Scope Z_scope.

Section theory.
Context (peers : gmap association Param).

(** ** What is announced *)

(** What a state [st] says to [targets]. *)
Definition news (st : ASState) (targets : list association) : list (Z * list association) :=
  match statusInformation st with Some status => [(status, targets)] | None => [] end.

Definition state_news (next : ASState) (tg : list association) (s : applicationServer) :=
  if negb (bool_decide (next = state s)) then news next (notifyTargetsLocked s)
  else if negb (len tg =? 0) then news next tg else [].

Definition resource_news (s : applicationServer) (unchanged : bool) :=
  if short s then
    let newlyInactive := filter (λ c, c ∉ insufficientNotified s) (members is_inactive s) in
    if negb (len newlyInactive =? 0) then [(InsufficientAspResources, newlyInactive)] else []
  else if resourcesInsufficient s && bool_decide (state s = ASActive) && unchanged
  then news ASActive (notifyTargetsLocked s) else [].

Lemma enqueueStatus_told status tg ai s s' ids :
  enqueueStatusNotificationLocked status tg ai s = (s', ids) →
  announcements s' = announcements s ++ [(status, tg)].
Proof.
  intros (e & -> & _ & _ & Hs & Ht & _)%enqueueStatus_eq. unfold announcements.
  change (notifications (renotify ?l _ _ _)) with l.
  rewrite fmap_app, list_fmap_singleton. unfold told at 2. by rewrite Hs, Ht.
Qed.

Lemma enqueueState_told st tg ai s s' ids :
  enqueueStateNotificationLocked st tg ai s = (s', ids) →
  announcements s' = announcements s ++ news st tg.
Proof.
  unfold enqueueStateNotificationLocked, news. destruct (statusInformation st).
  - apply enqueueStatus_told.
  - intros [= <- <-]. by rewrite app_nil_r.
Qed.

Lemma wait_last_told l : told <$> wait_last l = told <$> l.
Proof.
  unfold wait_last. destruct (last l) as [e|] eqn:Hl; [|done].
  apply last_Some in Hl as [k ->]. rewrite length_app. cbn.
  replace (length k + 1 - 1)%nat with (length k) by lia. rewrite take_app_length.
  by rewrite !fmap_app.
Qed.

Lemma changeState_told next ai tg s s' ids :
  changeState next ai tg s = (s', ids) →
  announcements s' = announcements s ++ state_news next tg s.
Proof.
  unfold changeState, state_news. destruct (negb (bool_decide (next = state s))).
  - intros ->%enqueueState_told.
    by destruct (bool_decide (next = ASPending)), (bool_decide (next = ASActive)).
  - destruct (negb (len tg =? 0)); [apply enqueueState_told|].
    intros [= <- <-]. by rewrite app_nil_r.
Qed.

Lemma advise_told s changed s' ids :
  adviseInsufficient (state s) (len (members is_active s)) changed s = (s', ids) →
  announcements s' = announcements s ++ resource_news s (negb changed).
Proof.
  unfold adviseInsufficient, resource_news. fold (short s).
  destruct (short s).
  - change (insufficientNotified s) with (insufficientNotified s).
    destruct (negb (len (filter _ (members is_inactive s)) =? 0)).
    + destruct (enqueueStatusNotificationLocked _ _ _ _) as [s1 r] eqn:He.
      apply enqueueStatus_told in He. intros [<- _]%pair_equal_spec. done.
    + intros [<- _]%pair_equal_spec. by rewrite app_nil_r.
  - destruct (_ && negb changed).
    + destruct (enqueueStateNotificationLocked _ _ _ _) as [s1 r] eqn:He.
      apply enqueueState_told in He. intros [<- _]%pair_equal_spec. done.
    + intros [<- _]%pair_equal_spec. by rewrite app_nil_r.
Qed.

(** A recomputation announces the new state to every ASP that is not down, and
    then what there is to say about resources. *)
Lemma recompute_told ai tg s s' ids :
  recomputeLockedFor peers ai tg s = (s', ids) →
  ∃ s1, state s1 = next_of s ∧ asps s1 = asps s ∧
    insufficientNotified s1 = insufficientNotified s ∧
    announcements s' = announcements s ++ state_news (next_of s) tg s ++
      resource_news s1 (bool_decide (next_of s = state s)).
Proof.
  unfold recomputeLockedFor. destruct (rebuildActiveLocked_eq peers s) as (o & k & ->).
  set (s0 := s <| associationOrder := o |> <| nextAssociationOrder := k |> <| active := _ |>).
  change (nextState s0 (len (members is_active s0)) (len (members is_inactive s0)))
    with (next_of s).
  destruct (changeState _ _ _ _) as [s1 r1] eqn:H1. pose proof (changeState_told _ _ _ _ _ _ H1) as Ht.
  apply changeState_eq in H1 as (ns1 & n1 & w1 & Hs1).
  assert (Hst : state s1 = next_of s).
  { rewrite Hs1. unfold switched. cbn. case_bool_decide as Hs; [done|].
    by destruct (bool_decide (next_of s = ASPending)), (bool_decide (next_of s = ASActive)). }
  assert (Ha : asps s1 = asps s).
  { rewrite Hs1. unfold switched. cbn. case_bool_decide; [done|].
    by destruct (bool_decide (next_of s = ASPending)), (bool_decide (next_of s = ASActive)). }
  assert (Hn : insufficientNotified s1 = insufficientNotified s).
  { rewrite Hs1. unfold switched. cbn. case_bool_decide; [done|].
    by destruct (bool_decide (next_of s = ASPending)), (bool_decide (next_of s = ASActive)). }
  clear Hs1. rewrite (members_ext is_active s0 s1) by done.
  destruct (adviseInsufficient _ _ _ _) as [s2 r2] eqn:H2.
  rewrite <-Hst in H2. apply advise_told in H2. intros [<- _]%pair_equal_spec.
  exists s1. split_and!; [done..|].
  transitivity (announcements s2).
  { unfold announcements. destruct (_ && _); [|done]. cbn. apply wait_last_told. }
  rewrite H2, Ht, negb_involutive, <-(assoc_L (++)), Hst. done.
Qed.
(** ** Which states follow which *)

(** Enough ASPs are active, or one is under smooth start. *)
Definition enough_active (s s' : applicationServer) : Prop :=
  requiredActive s ≤ nActive s' ∨ (SmoothStart (activationPolicy s) = true ∧ 0 < nActive s').

(** An ASP that was neither active nor inactive in the AS is active there. *)
Definition enters_active (s s' : applicationServer) : Prop :=
  ∃ c, asps s' !! c = Some StateASPActive ∧
       asps s !! c ≠ Some StateASPActive ∧ asps s !! c ≠ Some StateASPInactive.

(** The edges of RFC 4666 Figure 4, each with its reason; and the one that the
    figure has not, from AS-DOWN to AS-ACTIVE. *)
Definition edge (op : asOp) (s s' : applicationServer) : Prop :=
  match state s, state s' with
  | ASInactive, ASActive => enough_active s s'
  | ASDown, ASActive => enough_active s s' ∧ enters_active s s'
  | ASPending, ASActive => 0 < nActive s'
  | ASDown, ASInactive => nActive s' < requiredActive s ∧ 0 < nActive s' + nInactive s'
  | ASActive, ASPending =>
      0 < nActive s ∧ nActive s' = 0 ∧ recovery s' = Some (recoveryGen s + 1)
  | ASPending, ASInactive => op = RecoveryExpired (recoveryGen s) ∧ 0 < nInactive s'
  | ASPending, ASDown => op = RecoveryExpired (recoveryGen s) ∧ nInactive s' = 0
  | ASInactive, ASDown => nActive s' = 0 ∧ nInactive s' = 0
  | st, st' => st = st'
  end.

(** Why the state of the AS may go from that of [s] to that of [s']. *)
Definition transition (op : asOp) (s s' : applicationServer) : Prop :=
  match op with Close => state s' = ASDown | _ => edge op s s' end.

Lemma edge_transition op s s' : op ≠ Close → edge op s s' → transition op s s'.
Proof. by destruct op. Qed.

Lemma no_members_enter s s' :
  nActive s = 0 → nInactive s = 0 → 0 < nActive s' → enters_active s s'.
Proof.
  unfold nActive, nInactive. intros Ha Hi Hn. destruct (members is_active s') as [|c l] eqn:Hm; [done|].
  assert (Hc : c ∈ members is_active s') by (rewrite Hm; by left). exists c.
  assert (Hno : ∀ f, len (members f s) = 0 → c ∉ members f s).
  { intros f Hf. destruct (members f s) as [|x k]; [apply not_elem_of_nil|].
    rewrite len_cons in Hf. pose proof (len_nonneg k). lia. }
  apply Hno in Ha, Hi. rewrite elem_of_active in Ha, Hc. by rewrite elem_of_inactive in Hi.
Qed.

(** The edges a recomputation is responsible for. *)
Lemma recomputed_edge op s s1 s' :
  as_ok s → closed s = false → reassigned s s1 → recomputed s1 s' → edge op s s'.
Proof.
  intros Hok Hc Hra Hrc.
  pose proof (ok_state _ Hok Hc) as Hfit. pose proof (requiredActive_pos s (ok_policy _ Hok)) as Hreq.
  destruct Hra, Hrc. unfold edge, enough_active.
  assert (Hm : ∀ f, members f s' = members f s1) by by intros; apply members_ext.
  assert (Hr : requiredActive s1 = requiredActive s) by by unfold requiredActive; congruence.
  unfold state_fits, nActive, nInactive in *. rewrite !Hm, rc_state.
  pose proof (len_nonneg (members is_active s1)). pose proof (len_nonneg (members is_inactive s1)).
  assert (Hg : next_of s1 = ASPending → state s = ASActive → recovery s' = Some (recoveryGen s + 1)).
  { intros Hn Hs. rewrite rc_recovery, rc_gen. unfold pends. rewrite Hn, ra_state, Hs, ra_gen. done. }
  revert Hg. unfold next_of, nextState. rewrite ra_state, ra_policy, Hr.
  destruct (requiredActive s <=? len (members is_active s1)) eqn:H1;
    [|destruct (0 <? len (members is_active s1)) eqn:H2];
    [| |destruct (0 <? len (members is_inactive s1)) eqn:H3]; to_prop;
    destruct (state s) eqn:Hs; eval_states; intros Hg; try lia; auto.
  - split; [by left|]. destruct Hfit. apply no_members_enter; unfold nActive, nInactive; [done..|]. rewrite Hm. lia.
  - destruct Hfit. destruct (SmoothStart _); [split; [by right|]|split; lia].
    apply no_members_enter; unfold nActive, nInactive; [done..|]. by rewrite Hm.
  - destruct (SmoothStart _); [right; split; [done|lia]|done].
  - split_and!; [lia..|auto].
  - split_and!; [lia..|auto].
Qed.

Lemma edge_refl op s s' : state s' = state s → edge op s s'.
Proof. unfold edge. intros ->. by destruct (state s). Qed.

Lemma edge_state op s s2 s' :
  same_members s2 s' → recovery s' = recovery s2 → edge op s s2 → edge op s s'.
Proof.
  intros [] Hr. assert (Hm : ∀ f, members f s' = members f s2) by by intros; apply members_ext.
  unfold edge, enough_active, enters_active, nActive, nInactive. by rewrite !Hm, sm_state, sm_asps, Hr.
Qed.

(** C22: Apart from its closing, which takes it down from any state, the AS moves only
    along the edges of RFC 4666 Figure 4, each for its reason, and along one that
    the figure has not.  It becomes active when enough ASPs are, at once when it was
    pending, and from the first one under smooth start; that includes an AS that is
    down, which passes over AS-INACTIVE when an ASP enters it as ASP-ACTIVE without
    having been ASP-INACTIVE there.  It becomes pending exactly when its last active
    ASP goes, which starts T(r), and only the expiry of that T(r) takes a pending AS
    to inactive or down.  It becomes inactive from down, or down from inactive, with
    the first and the last of its ASPs that are up. *)
Theorem as_transition op s (Hok : as_ok s) : transition op s (e_state (as_step peers op s)).
Proof.
  assert (op = Close ∨ op ≠ Close) as [->|Hop] by (destruct op; auto).
  { cbn. destruct (close s) as [s' release] eqn:He. apply close_eq in He. cbn. destruct (closed s) eqn:Hc.
    - destruct He as [-> _]. by apply ok_closed.
    - by destruct He as [_ ->]. }
  apply edge_transition; [done|].
  destruct (as_step_shape peers op s) as
    [? s' sent Hq _|? s1 s2 s' ai n drain Hc Hra Hrc Hdr|? s1 s' ai tg n Hc Hra Hsub Hrc
    |? s' drain Hc Hdr|gen s' n release He|s' release He]; cbn [e_state].
  - apply edge_refl, Hq.
  - eapply (edge_state _ _ s2).
    + by eapply drained_same.
    + destruct Hdr as [_ ->]. by destruct drain.
    + by eapply recomputed_edge, recomputeLockedFor_recomputed.
  - by eapply recomputed_edge, recomputeLockedFor_recomputed.
  - apply edge_refl. destruct Hdr as [_ ->]. by destruct drain.
  - apply recoveryExpired_eq in He. destruct (expires gen s) eqn:Hg.
    2:{ destruct He as [-> _]. by apply edge_refl. }
    apply andb_true_iff in Hg as [->%Z.eqb_eq Hp%bool_decide_eq_true].
    destruct He as [_ (ns & k & w & ->)]. unfold edge. rewrite Hp.
    unfold next_expired. cbn. change (nInactive (renotify _ _ _ _)) with (nInactive s).
    pose proof (len_nonneg (members is_inactive s)).
    destruct (0 <? nInactive s) eqn:Hz; to_prop; (split; [done|]); [done|].
    unfold nInactive in *. lia.
  - done.
Qed.

(** ** Every change is announced *)

Definition insufficient_news (a : Z * list association) : Prop := a.1 = InsufficientAspResources.

(** [l] is what a step from [s] to [s'] should announce: a new state, first and
    to every ASP that is not down, or else nothing but the present state; and
    shortages of resources. *)
Definition announces (s s' : applicationServer) (l : list (Z * list association)) : Prop :=
  if bool_decide (state s' = state s)
  then Forall (λ a, insufficient_news a ∨ statusInformation (state s') = Some a.1) l
  else ∃ rest, l = news (state s') (notifyTargetsLocked s') ++ rest ∧ Forall insufficient_news rest.

Lemma announces_nil s s' : state s' = state s → announces s s' [].
Proof. intros Hs. unfold announces. by rewrite bool_decide_eq_true_2. Qed.

Lemma news_restate st tg : Forall (λ a, insufficient_news a ∨ statusInformation st = Some a.1) (news st tg).
Proof. unfold news. destruct (statusInformation st) eqn:H; [|done]. by repeat constructor; right. Qed.

Lemma resource_news_restate s b :
  Forall (λ a, insufficient_news a ∨ statusInformation (state s) = Some a.1) (resource_news s b).
Proof.
  unfold resource_news. destruct (short s).
  - case_match; [|done]. by repeat constructor.
  - destruct (resourcesInsufficient s && _ && b) eqn:H; [|done].
    apply andb_true_iff in H as [[_ ->%bool_decide_eq_true]%andb_true_iff _].
    apply news_restate.
Qed.

Lemma resource_news_insufficient s : Forall insufficient_news (resource_news s false).
Proof.
  unfold resource_news. destruct (short s).
  - case_match; [|done]. by repeat constructor.
  - by rewrite andb_false_r.
Qed.

Lemma recompute_announces ai tg s s' ids :
  recomputeLockedFor peers ai tg s = (s', ids) →
  ∃ l, announcements s' = announcements s ++ l ∧ announces s s' l.
Proof.
  intros H. pose proof (recomputeLockedFor_recomputed _ _ _ _ _ _ H) as [].
  apply recompute_told in H as (s1 & Hst & Ha & _ & ->).
  eexists. split; [done|]. unfold announces, state_news. rewrite rc_state.
  destruct (bool_decide (next_of s = state s)) eqn:Hs; cbn [negb].
  - apply Forall_app. split; [|rewrite <-Hst; apply resource_news_restate].
    destruct (negb (len tg =? 0)); [apply news_restate|done].
  - eexists. split; [|apply resource_news_insufficient]. f_equal.
    unfold notifyTargetsLocked. by rewrite (members_ext _ s s').
Qed.

Lemma announces_reassigned s s1 s' l : state s1 = state s → announces s1 s' l → announces s s' l.
Proof. unfold announces. by intros ->. Qed.

Lemma reassigned_announcements s s1 : reassigned s s1 → announcements s1 = announcements s.
Proof. intros H. unfold announcements. by rewrite (ra_notes _ _ H). Qed.

Lemma recoveryExpired_told gen s s' notify release :
  recoveryExpired gen s = (s', notify, release) → expires gen s = true →
  announcements s' = announcements s ++ news (state s') (notifyTargetsLocked s').
Proof.
  unfold recoveryExpired, expires. intros He Hx.
  destruct (gen =? recoveryGen s); [|done]. cbn [negb orb andb] in *. rewrite Hx in He.
  cbn [negb] in He. fold (nInactive s) in He. fold (next_expired s) in He.
  destruct (enqueueStateNotificationLocked _ _ _ _) as [s1 n] eqn:H1.
  pose proof (enqueueState_told _ _ _ _ _ _ H1) as Ht.
  apply enqueueState_eq in H1 as (ns & k & w & Hs1).
  apply pair_equal_spec in He as [[<- _]%pair_equal_spec _].
  assert (Hst : state s1 = next_expired s) by by rewrite Hs1.
  assert (Ha : asps s1 = asps s) by by rewrite Hs1.
  rewrite Ht, Hst. unfold notifyTargetsLocked. rewrite (members_ext _ s1 s Ha). reflexivity.
Qed.

Lemma announces_state s s2 s' l :
  state s' = state s2 → asps s' = asps s2 → announces s s2 l → announces s s' l.
Proof.
  unfold announces. intros -> Ha. unfold notifyTargetsLocked. by rewrite (members_ext _ s' s2).
Qed.

(** A change of the AS state is announced first and to every ASP that is not
    down; an operation that leaves the state alone announces nothing else than
    the present state and shortages of ASPs; and no announcement queued before
    is lost or overtaken. *)
Theorem as_announces op s
    (Hc : closed s = false) (Hc' : closed (e_state (as_step peers op s)) = false) :
  ∃ l, told <$> (e_sent (as_step peers op s) ++ notifications (e_state (as_step peers op s))) =
         announcements s ++ l ∧
       announces s (e_state (as_step peers op s)) l.
Proof.
  revert Hc'. destruct (as_step_shape peers op s) as
    [? s' sent Hq Hn|? s1 s2 s' ai n drain _ Hra Hrc Hdr|? s1 s' ai tg n _ Hra Hsub Hrc
    |? s' drain _ Hdr|gen s' n release He|s' release He]; cbn [e_state e_sent app]; intros Hc'.
  - exists []. rewrite app_nil_r. split; [by apply Hn|apply announces_nil, Hq].
  - apply recompute_announces in Hrc as (l & Hl & Ha). exists l.
    destruct Hdr as [_ ->]. split.
    + rewrite <-(reassigned_announcements _ _ Hra), <-Hl. by destruct drain.
    + apply (announces_state _ s2); [by destruct drain..|].
      eapply announces_reassigned, Ha. apply Hra.
  - apply recompute_announces in Hrc as (l & Hl & Ha). exists l. split.
    + by rewrite <-(reassigned_announcements _ _ Hra), <-Hl.
    + eapply announces_reassigned, Ha. apply Hra.
  - exists []. rewrite app_nil_r. destruct Hdr as [_ ->].
    split; [by destruct drain|apply announces_nil; by destruct drain].
  - destruct (expires gen s) eqn:Hg.
    + exists (news (state s') (notifyTargetsLocked s')).
      split; [by eapply recoveryExpired_told|]. unfold announces.
      case_bool_decide; [apply news_restate|]. exists []. by rewrite app_nil_r.
    + apply recoveryExpired_eq in He. rewrite Hg in He. destruct He as [-> _].
      exists []. rewrite app_nil_r. split; [done|by apply announces_nil].
  - apply close_eq in He. rewrite Hc in He. by destruct He as [_ ->].
Qed.

(** ** Override *)

Lemma lookup_displaced l (m : gmap association State) d :
  foldl (λ m peer, <[peer := StateASPInactive]> m) m l !! d =
  if bool_decide (d ∈ l) then Some StateASPInactive else m !! d.
Proof.
  revert m; induction l as [|a l IH]; intros m; cbn; [done|]. rewrite IH.
  destruct (decide (d ∈ l)) as [Hd|Hd].
  - by rewrite !bool_decide_eq_true_2 by set_solver.
  - rewrite (bool_decide_eq_false_2 (d ∈ l)) by done.
    destruct (decide (d = a)) as [->|Hne].
    + by rewrite lookup_insert_eq, bool_decide_eq_true_2 by set_solver.
    + by rewrite lookup_insert_ne, bool_decide_eq_false_2 by set_solver.
Qed.

(** The only active ASP is [c]. *)
Definition sole_active (c : association) (s : applicationServer) : Prop :=
  ∀ d, asps s !! d = Some StateASPActive ↔ d = c.

Lemma sole_active_members c s : sole_active c s → members is_active s = [c].
Proof.
  intros H. pose proof (NoDup_members is_active s) as Hnd.
  assert (Hm : ∀ d, d ∈ members is_active s ↔ d = c) by (intros d; rewrite elem_of_active; apply H).
  destruct (members is_active s) as [|a [|b l]].
  - specialize (Hm c). set_solver.
  - f_equal. apply Hm. set_solver.
  - assert (a = c) as -> by (apply Hm; set_solver). assert (b = c) as -> by (apply Hm; set_solver).
    apply NoDup_cons in Hnd as [Hn _]. set_solver.
Qed.

Lemma sole_active_state c s :
  1 = requiredActive s → sole_active c s → next_of s = ASActive.
Proof.
  intros Hr H. unfold next_of, nextState. rewrite (sole_active_members c s H), <-Hr. done.
Qed.

(** What [activateOverride] does to the ASPs. *)
Lemma override_asps c s d :
  let s1 := s <| asps ::= <[c := StateASPActive]> |> in
  let displaced := filter (λ a, a ≠ c) (members is_active s1) in
  foldl (λ m peer, <[peer := StateASPInactive]> m) (asps s1) displaced !! d =
  if bool_decide (d = c) then Some StateASPActive
  else if bool_decide (asps s !! d = Some StateASPActive) then Some StateASPInactive
  else asps s !! d.
Proof.
  cbv zeta. rewrite lookup_displaced. cbn.
  destruct (decide (d = c)) as [->|Hne].
  - rewrite (bool_decide_eq_false_2 (c ∈ _)), lookup_insert_eq, bool_decide_eq_true_2; [done..|].
    rewrite list_elem_of_filter. by intros [? _].
  - rewrite (bool_decide_eq_false_2 (d = c)), lookup_insert_ne by done.
    rewrite (bool_decide_ext _ (asps s !! d = Some StateASPActive)); [done|].
    rewrite list_elem_of_filter, elem_of_active. cbn. rewrite lookup_insert_ne by done. naive_solver.
Qed.

Lemma override_end (s s' : applicationServer) (l l' : list association) (n n' : list Z) drain :
  (if wantsDrain s then (startDrain s, l, n, true) else (s, l, n, false)) = (s', l', n', drain) →
  asps s' = asps s ∧ active s' = active s ∧ state s' = state s ∧ l' = l.
Proof. destruct (wantsDrain s); by intros [= <- <- _ _]. Qed.

(** After the Override procedure the challenger, and no other ASP, is
    active and receives traffic; the displaced are exactly the ASPs that were
    active before, now inactive; no other ASP changes; and where one ASP is
    enough, as Override demands, the AS is active. *)
Theorem activateOverride_exclusive c s s' displaced notify drain
    (Hok : as_ok s) (Hc : closed s = false)
    (Ho : activateOverride peers c s = (s', displaced, notify, drain)) :
  sole_active c s' ∧ active s' = [c] ∧
  (∀ d, d ∈ displaced ↔ d ≠ c ∧ asps s !! d = Some StateASPActive) ∧
  (∀ d, d ∈ displaced → asps s' !! d = Some StateASPInactive) ∧
  (∀ d, d ≠ c → d ∉ displaced → asps s' !! d = asps s !! d) ∧
  (requiredActive s = 1 → state s' = ASActive).
Proof.
  revert Ho. unfold activateOverride. rewrite Hc.
  set (s1 := s <| asps ::= <[c := StateASPActive]> |>).
  set (disp := filter (λ a, a ≠ c) (members is_active s1)).
  set (s2 := s1 <| asps ::= λ m, foldl _ m disp |>).
  assert (Hasps : ∀ d, asps s2 !! d = if bool_decide (d = c) then Some StateASPActive
    else if bool_decide (asps s !! d = Some StateASPActive) then Some StateASPInactive
    else asps s !! d) by apply override_asps.
  assert (Hdisp : ∀ d, d ∈ disp ↔ d ≠ c ∧ asps s !! d = Some StateASPActive).
  { intros d. unfold disp. rewrite list_elem_of_filter, elem_of_active. cbn.
    destruct (decide (d = c)) as [->|Hne]; [naive_solver|]. by rewrite lookup_insert_ne. }
  assert (Hsole : sole_active c s2).
  { intros d. rewrite Hasps. repeat case_bool_decide; naive_solver. }
  match goal with |- context [if ?ch then recomputeLocked _ _ _ else _] => destruct ch eqn:Hch end.
  - assert (Hreq : requiredActive s2 = requiredActive s) by done. clearbody s2.
    destruct (recomputeLocked peers None s2) as [s3 n] eqn:H3.
    apply recomputeLocked_recomputed in H3 as [].
    intros (Ha & Hact & Hst & ->)%override_end. rewrite rc_asps in Ha.
    assert (Hsole' : sole_active c s') by (intros d; rewrite Ha; apply Hsole).
    split_and!; [done| |done| | |].
    + rewrite Hact. apply Permutation_singleton_r.
      by rewrite rc_active, (sole_active_members c s2).
    + intros d [Hne Hd]%Hdisp. rewrite Ha, Hasps.
      by rewrite bool_decide_eq_false_2, bool_decide_eq_true_2.
    + intros d Hne Hd. rewrite Ha, Hasps. rewrite bool_decide_eq_false_2 by done.
      rewrite bool_decide_eq_false_2; [done|]. rewrite Hdisp in Hd. naive_solver.
    + intros Hr. rewrite Hst, rc_state. apply (sole_active_state c); [congruence|done].
  - apply orb_false_iff in Hch as [Hch1 Hch2]. to_prop. apply bool_decide_eq_true in Hch1.
    apply len_0_nil in Hch2. fold disp in Hch2.
    assert (Hs2 : s2 = s).
    { unfold s2. rewrite Hch2. cbn. unfold s1.
      transitivity (s <| asps := <[c:=StateASPActive]> (asps s) |>); [done|].
      rewrite insert_id by done. by destruct s. }
    clearbody s2. subst s2. intros (Ha & Hact & Hst & ->)%override_end.
    split_and!; [| |done|rewrite Hch2; set_solver|by intros; rewrite Ha|].
    + intros d. rewrite Ha. apply Hsole.
    + rewrite Hact. apply Permutation_singleton_r.
      by rewrite (ok_active _ Hok Hc), (sole_active_members c s).
    + intros Hr. rewrite Hst. pose proof (ok_state _ Hok Hc) as Hfit. unfold state_fits in Hfit.
      unfold nActive in Hfit. rewrite (sole_active_members c s Hsole) in Hfit.
      rewrite Hr in Hfit. change (len [c]) with 1 in Hfit.
      destruct (state s); [lia|lia|done|lia].
Qed.
(** ** Agreement on a traffic mode *)

(** What the agreement makes of one Application Server. *)
Record agreed (trafficModes : trafficModePolicy) (requested : option Z)
    (s s' : applicationServer) : Prop := {
  ag_rest : s' = s <| trafficMode := trafficMode s' |>;
  ag_kept : trafficMode s ≠ 0 → trafficMode s' = trafficMode s;
  ag_configured : ∀ mode, configuredForASKey trafficModes (key s) = Some mode →
    trafficMode s' = mode ∧ validTrafficMode mode = true;
  ag_requested : ∀ mode, requested = Some mode → mode ≠ 0 → trafficMode s' = mode;
  ag_override : trafficMode s' = TrafficModeOverride → requiredActive s = 1;
  ag_open : closed s = false;
}.

(** It returns a mode or an error. *)
Lemma agreedMode_total tm rq s : safe (agreedMode tm rq s).
Proof.
  unfold agreedMode. destruct (closed s); [done|].
  apply safe_bind; [|intros _ _; apply safe_bind; auto with safety].
  - destruct (configuredForASKey tm (key s)); [|done].
    apply safe_bind; [auto with safety|]. intros _ _. destruct rq; auto with safety.
  - intros _ _. apply safe_bind; auto with safety.
Qed.

(** What [agreedMode] checked. *)
Lemma agreedMode_Ok tm rq s mode :
  agreedMode tm rq s = Ok mode →
  let D := default (default 0 rq) (configuredForASKey tm (key s)) in
  closed s = false ∧ mode = (if D =? 0 then trafficMode s else D) ∧
  (D ≠ 0 → trafficMode s ≠ 0 → trafficMode s = D) ∧
  (mode = TrafficModeOverride → requiredActive s = 1) ∧
  (∀ m, configuredForASKey tm (key s) = Some m →
     validTrafficMode m = true ∧ (∀ r, rq = Some r → m = r)).
Proof.
  unfold agreedMode. intros H. inv_ok H. unfold ensure in *. cbv zeta.
  set (D := default _ _) in *. split_and!; [done|done| | |].
  - intros HD Hs. destruct (D =? 0) eqn:HD0; to_prop; [done|].
    destruct (trafficMode s =? 0) eqn:Hs0; to_prop; [done|].
    rewrite (proj2 (Z.eqb_neq D 0)) in Ha0 by done.
    destruct (trafficMode s =? D) eqn:He; to_prop; [done|discriminate Ha0].
  - intros Hm. rewrite Hm in Ha1. rewrite Z.eqb_refl in Ha1.
    destruct (requiredActive s =? 1) eqn:Hr; [by to_prop|discriminate Ha1].
  - intros m Hm. rewrite Hm in Ha. destruct (validTrafficMode m); [|discriminate Ha].
    split; [done|]. intros r ->. cbn in Ha. destruct (m =? r) eqn:Hr; [by to_prop|discriminate Ha].
Qed.

Lemma agreedMode_agreed tm rq s mode :
  agreedMode tm rq s = Ok mode → agreed tm rq s (commitMode s mode) ∧
  trafficMode (commitMode s mode) = mode.
Proof.
  intros (Hc & Hmode & Hkeep & Hov & Hconf)%agreedMode_Ok.
  assert (Htm : trafficMode (commitMode s mode) = mode).
  { unfold commitMode. destruct (trafficMode s =? 0) eqn:Hs; [done|]. to_prop.
    rewrite Hmode. case_match; to_prop; [done|]. by apply Hkeep. }
  split; [|done]. constructor; rewrite ?Htm; auto.
  - revert Htm. unfold commitMode. destruct (trafficMode s =? 0); [done|].
    intros <-. by destruct s.
  - intros Hs. rewrite <-Htm. unfold commitMode. by rewrite (proj2 (Z.eqb_neq _ _)).
  - intros m Hm. destruct (Hconf m Hm) as [Hv _]. split; [|done].
    rewrite Hmode, Hm. cbn. destruct (m =? 0) eqn:Hz; [|done]. to_prop. by subst.
  - intros m Hm Hz. rewrite Hmode. destruct (configuredForASKey tm (key s)) as [c|] eqn:Hcf; cbn.
    + destruct (Hconf c eq_refl) as [_ Hr]. rewrite (Hr m Hm).
      by rewrite (proj2 (Z.eqb_neq m 0)).
    + rewrite Hm. cbn. by rewrite (proj2 (Z.eqb_neq m 0)).
Qed.

(** The agreement on a traffic mode is made for all the Application Servers
    named or for none.  A mode once known is kept; where it is made, each
    Application Server runs in the mode configured for it and in the mode
    requested, and none that needs several active ASPs runs in Override mode.
    It fails only where one of them refuses. *)
Theorem agreeTrafficModeForKeys_sound tm requested servers :
  match agreeTrafficModeForKeys tm requested servers with
  | Ok (servers', _) => Forall2 (agreed tm requested) servers servers'
  | Err e => ∃ s, s ∈ servers ∧ agreedMode tm requested s = Err e
  | _ => False
  end.
Proof.
  unfold agreeTrafficModeForKeys.
  assert (H : ∀ ms, match foldM (λ ms s, m ← agreedMode tm requested s; Ok (ms ++ [m])) ms servers with
    | Ok ms' => ∃ new, ms' = ms ++ new ∧ Forall2 (agreed tm requested) servers (zip_with commitMode servers new)
    | Err e => ∃ s, s ∈ servers ∧ agreedMode tm requested s = Err e
    | _ => False end).
  { induction servers as [|s servers IH]; intros ms; cbn [foldM].
    { exists []. by rewrite app_nil_r. }
    destruct (agreedMode tm requested s) as [m|e| |] eqn:Hm; cbn [mbind result_bind].
    - specialize (IH (ms ++ [m])). destruct (foldM _ (ms ++ [m]) servers) as [ms'|e| |]; [|set_solver..].
      destruct IH as (new & -> & Hall). exists (m :: new). rewrite <-(assoc_L (++)). split; [done|].
      constructor; [by apply agreedMode_agreed|done].
    - exists s. set_solver.
    - pose proof (agreedMode_total tm requested s) as Ht. by rewrite Hm in Ht.
    - pose proof (agreedMode_total tm requested s) as Ht. by rewrite Hm in Ht. }
  specialize (H []). destruct (foldM _ [] servers) as [ms|e| |]; cbn [mbind result_bind]; [|done..].
  destruct H as (new & -> & Hall). done.
Qed.
End theory.

(** ** The Application Server from its creation *)

Definition as_run (peers : gmap association Param) (ops : list asOp) (s : applicationServer) :=
  foldl (λ s op, e_state (as_step peers op s)) s ops.

Lemma as_run_ok peers ops s : as_ok s → as_ok (as_run peers ops s).
Proof. revert s. induction ops as [|op ops IH]; intros s H; [done|]. by apply IH, as_step_ok. Qed.

(** C31: the state of an Application Server always agrees with its ASPs.  After
    any sequence of operations: it is active only with an active ASP, pending
    only with none and with T(r) running, down only with no ASP up; T(r) runs
    in no other state; traffic goes to the active ASPs, each once; and the ASPs
    known to have been told of a shortage are the inactive ones, while there is
    a shortage. *)
Theorem as_state_sound peers ops k policy limit :
  0 ≤ RequiredActiveASPs policy →
  let s := as_run peers ops (newApplicationServer k policy limit) in
  (closed s = false → state_fits s ∧ active s ≡ₚ members is_active s ∧
     insufficientNotified s =
       if resourcesInsufficient s then list_to_set (members is_inactive s) else ∅) ∧
  (closed s = true → state s = ASDown) ∧
  (is_Some (recovery s) ↔ state s = ASPending) ∧
  (∀ gen, recovery s = Some gen → gen = recoveryGen s ∧ recoveryExpiredGen s < gen).
Proof.
  intros Hp s. assert (Hok : as_ok s) by by apply as_run_ok, newApplicationServer_ok.
  clearbody s. destruct Hok. split_and!.
  - intros Hc. split_and!; auto.
  - done.
  - rewrite ok_recovery. case_bool_decide; split; try done; by intros [].
  - rewrite ok_recovery. intros gen. case_bool_decide; [|done]. intros [= <-]. split; auto.
Qed.

Module Concrete.
Definition server : applicationServer :=
  newApplicationServer (mkASKey 0 false 1 true) (mkActivationPolicy 0 false) 4096.

(** Two inactive ASPs, the first of which then takes over. *)
Definition ops : list asOp :=
  [RecordASPState 1 StateASPInactive false; RecordASPState 2 StateASPActive false].
Definition serving : applicationServer := as_run ∅ ops server.

Lemma serving_ok : as_ok serving.
Proof. by apply as_run_ok, newApplicationServer_ok. Qed.

Lemma as_state_sound_witness :
  state serving = ASActive ∧ state_fits serving.
Proof.
  split; [by vm_compute|].
  destruct (as_state_sound ∅ ops (mkASKey 0 false 1 true) (mkActivationPolicy 0 false) 4096) as [H _];
    [done|].
  apply H. vm_compute. reflexivity.
Defined.

Lemma as_transition_witness :
  state serving = ASActive ∧ state (e_state (as_step ∅ (MarkASPDown 2) serving)) = ASPending ∧
  transition (MarkASPDown 2) serving (e_state (as_step ∅ (MarkASPDown 2) serving)).
Proof.
  split; [by vm_compute|]. split; [by vm_compute|]. exact (as_transition ∅ _ _ serving_ok).
Defined.

(** An ASP enters an AS that is down as ASP-ACTIVE. *)
Example down_to_active :
  let s := newApplicationServer (mkASKey 0 false 1 true) (mkActivationPolicy 0 false) 4096 in
  state s = ASDown ∧ state (e_state (as_step ∅ (RecordASPState 1 StateASPActive false) s)) = ASActive.
Proof. by vm_compute. Qed.

Lemma serving_open : closed serving = false.
Proof. by vm_compute. Qed.

Lemma serving_still_open : closed (e_state (as_step ∅ (MarkASPDown 2) serving)) = false.
Proof. by vm_compute. Qed.

Lemma as_announces_witness :
  ∃ l, told <$> (e_sent (as_step ∅ (MarkASPDown 2) serving) ++
                 notifications (e_state (as_step ∅ (MarkASPDown 2) serving))) =
         announcements serving ++ l ∧
       announces serving (e_state (as_step ∅ (MarkASPDown 2) serving)) l.
Proof. exact (as_announces ∅ (MarkASPDown 2) serving serving_open serving_still_open). Defined.

Lemma activateOverride_exclusive_witness :
  match activateOverride ∅ 1 serving with
  | (s', displaced, _, _) => displaced = [2]%nat ∧ active s' = [1]%nat ∧ sole_active 1 s'
  end.
Proof.
  destruct (activateOverride ∅ 1 serving) as [[[s' displaced] notify] drain] eqn:Ho.
  pose proof (activateOverride_exclusive ∅ 1 serving s' displaced notify drain serving_ok serving_open Ho)
    as (H1 & H2 & _).
  split; [|by split]. vm_compute in Ho. by injection Ho as _ <-.
Defined.
End Concrete.
