(* ===== verification/Distribution.v ===== *)
(** * Distribution of traffic over the ASPs (distribution.go)

    How an Application Server sends a DATA message to its active ASPs, retains
    it while it cannot, and drains what it retained.  The functions of the
    first part are the critical sections of the code, each a function of the
    state; the second part is the interleaving: callers of [distribute] and
    drains are workers that hold the delivery mutex between their critical
    sections, with every other operation of the Application Server free to run
    in between. *)

From coqutil Require Import Datatypes.RecordSettersUsingExistingGetters.
From S2P Require Import Prelude Params ParamValues PayloadData Inventory MsgData AppServer.
#[local] Open Scope Z_scope.

(** ** Configuration *)

Record distributionPolicy : Set := mkDistributionPolicy {
  messageLimit : Z;
  byteLimit : Z;
  broadcastFlowCacheEntries : Z;
  broadcastFlowIdentifierBytes : Z;
}.

(** Durations in nanoseconds. *)
Definition initialRecoveryDrainRetry : Z := 10000000.
Definition maximumRecoveryDrainRetry : Z := 1000000000.
Definition DefaultBroadcastFlowCacheEntries : Z := 4096.

(** ** Targets *)

Definition targetsLocked (sls : Z) (s : applicationServer) : result m3ua_error (list association) :=
  match active s with
  | [] => Err ErrNoActiveASP
  | first :: _ =>
      if trafficMode s =? TrafficModeBroadcast then Ok (active s)
      else if trafficMode s =? TrafficModeOverride then Ok [first]
      else if (trafficMode s =? 0) || (trafficMode s =? TrafficModeLoadshare) then
        match active s !! Z.to_nat (sls mod len (active s)) with
        | Some target => Ok [target]
        | None => Panic
        end
      else Err ErrUnsupportedTrafficMode
  end.

Definition allocateCorrelationIDLocked (s : applicationServer) : applicationServer * Z :=
  let id := u32 (nextCorrelationID s + 1) in
  let id := if id =? 0 then u32 (id + 1) else id in
  (s <| nextCorrelationID := id |>, id).

Definition set_CorrelationID (d : Data.Data) (id : Z) : Data.Data :=
  Data.SetLength (Data.mk (Data.header d) (Data.NetworkAppearance d) (Data.RoutingContext d)
    (Data.ProtocolData d) (Some (NewCorrelationID id)) (Data.Others d)).

(** ** One attempt to deliver

    [deliverAttemptLocked] has two critical sections around the writes. *)

(** The writes of one attempt: [at_item] carries the epoch, the marker and the
    message as they are now, [at_rest] the targets still to be written. *)
Record attempt : Type := mkAttempt {
  at_item : queuedData;
  at_broadcast : bool;
  at_rest : list association;
  at_failed : list association;
  at_delivered : Z;
}.

(** The targets of a Broadcast retry are those still active of the ones whose
    copy failed. *)
Definition retryTargets (s : applicationServer) (targets : list association) : list association :=
  filter (λ c, asps s !! c = Some StateASPActive) targets.

Definition needs_marker (s : applicationServer) (flow : broadcastFlowKey) : bool :=
  (trafficMode s =? TrafficModeBroadcast) && negb (broadcastEpoch s =? 0) &&
  negb (default 0 (broadcastTagged s !! flow) =? broadcastEpoch s).

(** The first section. *)
Definition selectTargets (sls : Z) (i : queuedData) (s : applicationServer)
    : result m3ua_error (applicationServer * attempt) :=
  let broadcast := trafficMode s =? TrafficModeBroadcast in
  if qd_broadcastTargetsSet i
  then Ok (s, mkAttempt i true (retryTargets s (qd_broadcastTargets i)) [] 0)
  else
    targets ← targetsLocked sls s;
    let epoch := broadcastEpoch s in
    let '(s, data, tagged) :=
      if needs_marker s (qd_flow i) then
        let '(s, id) := allocateCorrelationIDLocked s in
        (s, set_CorrelationID (qd_data i) id, true)
      else (s, qd_data i, qd_broadcastMarker i) in
    let i := mkQueued data (qd_flow i) (qd_size i) (qd_recoveryGen i) (qd_broadcastTargets i)
               false epoch tagged (qd_ticket i) in
    Ok (s, mkAttempt i broadcast targets [] 0).

(** One write; [ok] is what the Association answers. *)
Definition writeTarget (target : association) (ok : bool) (a : attempt) : attempt :=
  mkAttempt (at_item a) (at_broadcast a) (tail (at_rest a))
    (if ok then at_failed a else at_failed a ++ [target])
    (if ok then at_delivered a + 1 else at_delivered a).

(** The second section: the marker counts only if every copy was accepted. *)
Definition commitMarker (flow : broadcastFlowKey) (epoch : Z) (s : applicationServer)
    : applicationServer :=
  if negb (broadcastEpoch s =? epoch) then s else
  let flowLimit := if broadcastFlowLimit s <=? 0 then DefaultBroadcastFlowCacheEntries
                   else broadcastFlowLimit s in
  let tagged := broadcastTagged s in
  let tagged := if bool_decide (tagged !! flow = None) && (flowLimit <=? Z.of_nat (size tagged))
                then ∅ else tagged in
  s <| broadcastTagged := <[flow := epoch]> tagged |>.

Definition commitAttempt (a : attempt) (s : applicationServer) : applicationServer :=
  if qd_broadcastMarker (at_item a) && (len (at_failed a) =? 0)
  then commitMarker (qd_flow (at_item a)) (qd_broadcastEpoch (at_item a)) s else s.

(** The item as a later attempt finds it. *)
Definition attempted (a : attempt) : queuedData :=
  let i := at_item a in
  mkQueued (qd_data i) (qd_flow i) (qd_size i) (qd_recoveryGen i) (at_failed a)
    (at_broadcast a) (qd_broadcastEpoch i) (qd_broadcastMarker i) (qd_ticket i).

(** The same when no target could be selected. *)
Definition unselected (i : queuedData) : queuedData :=
  mkQueued (qd_data i) (qd_flow i) (qd_size i) (qd_recoveryGen i) []
    (qd_broadcastTargetsSet i) (qd_broadcastEpoch i) (qd_broadcastMarker i) (qd_ticket i).

(** ** Accounting *)

(** The code panics when the bytes accounted for fall below zero. *)
Definition finishDeliveryItemLocked (size : Z) (s : applicationServer) (b : recoveryBudget)
    : result () (applicationServer * recoveryBudget) :=
  let s := s <| deliveryInFlightBytes := 0 |>
             <| recoveryQueueBytes := recoveryQueueBytes s - size |> in
  if recoveryQueueBytes s <? 0 then Panic
  else b ← release_budget b 1 size; Ok (s, b).

Definition queuedDataRecoveryGenerationLocked (s : applicationServer) : applicationServer * Z :=
  let s := if bool_decide (state s = ASActive) && (recoveryGen s <=? recoveryExpiredGen s)
           then s <| recoveryGen ::= Z.add 1 |> else s in
  (s, recoveryGen s).

(** A queued item with nothing attempted yet. *)
Definition fresh_item (data : Data.Data) (flow : broadcastFlowKey) (size gen : Z) (ticket : nat)
    : queuedData :=
  mkQueued data flow size gen [] false 0 false ticket.

(** ** Acceptance: the first critical section of [distribute] *)

Inductive admission : Type :=
| Refused (e : m3ua_error)
| Queued (s : applicationServer) (b : recoveryBudget) (drain : bool)
| Direct (s : applicationServer) (b : recoveryBudget).

Definition enqueueRecoveryLocked (policy : distributionPolicy) (data : Data.Data)
    (flow : broadcastFlowKey) (encodedSize : Z) (ticket : nat)
    (s : applicationServer) (b : recoveryBudget) : admission :=
  let retainedMessages := len (recoveryQueue s) in
  let retainedMessages := if 0 <? deliveryInFlightBytes s then retainedMessages + 1
                          else retainedMessages in
  if (messageLimit policy <=? retainedMessages) ||
     (byteLimit policy - recoveryQueueBytes s <? encodedSize)
  then Refused ErrRecoveryQueueFull else
  match claim b encodedSize with
  | None => Refused ErrRecoveryQueueFull
  | Some b =>
      let '(s, gen) := queuedDataRecoveryGenerationLocked s in
      let s := s <| recoveryQueue ::= λ q, q ++ [fresh_item data flow encodedSize gen ticket] |>
                 <| recoveryQueueBytes ::= Z.add encodedSize |> in
      if bool_decide (state s = ASActive) && negb (draining s) && negb (activeSending s)
      then Queued (startDrain s) b true else Queued s b false
  end.

Definition distribute_admit (policy : distributionPolicy) (data : Data.Data)
    (flow : broadcastFlowKey) (encodedSize : Z) (ticket : nat)
    (s : applicationServer) (b : recoveryBudget) : admission :=
  if closed s then Refused ErrAssociationClosed
  else if bool_decide (state s = ASPending) || draining s || activeSending s ||
     (bool_decide (state s = ASActive) && (0 <? len (recoveryQueue s)))
  then enqueueRecoveryLocked policy data flow encodedSize ticket s b
  else if negb (bool_decide (state s = ASActive)) then Refused ErrNoActiveASP
  else if byteLimit policy <? encodedSize then Refused ErrRecoveryQueueFull
  else
    match claim b encodedSize with
    | None => Refused ErrRecoveryQueueFull
    | Some b =>
        Direct (s <| activeSending := true |>
                  <| deliveryInFlightBytes := encodedSize |>
                  <| recoveryQueueBytes ::= Z.add encodedSize |>) b
    end.

(** The second critical section of [distribute], once the caller has the
    delivery mutex. *)
Inductive resumption : Type :=
| Abandoned (s : applicationServer) (b : recoveryBudget) (e : m3ua_error)
| Requeued (s : applicationServer) (drain : bool)
| Delivers.

Definition distribute_resume (i : queuedData) (s : applicationServer) (b : recoveryBudget)
    : result () resumption :=
  if closed s then
    '(s, b) ← finishDeliveryItemLocked (qd_size i) s b;
    Ok (Abandoned (s <| activeSending := false |>) b ErrAssociationClosed)
  else if bool_decide (state s = ASPending) || draining s ||
     (bool_decide (state s = ASActive) && (0 <? len (recoveryQueue s)))
  then
    let s := s <| activeSending := false |> <| deliveryInFlightBytes := 0 |> in
    let '(s, gen) := queuedDataRecoveryGenerationLocked s in
    let s := s <| recoveryQueue ::=
      cons (fresh_item (qd_data i) (qd_flow i) (qd_size i) gen (qd_ticket i)) |> in
    if bool_decide (state s = ASActive) && negb (draining s)
    then Ok (Requeued (startDrain s) true) else Ok (Requeued s false)
  else if negb (bool_decide (state s = ASActive)) then
    '(s, b) ← finishDeliveryItemLocked (qd_size i) s b;
    Ok (Abandoned (s <| activeSending := false |>) b ErrNoActiveASP)
  else Ok Delivers.

(** The last critical section of [distribute]. *)
Definition distribute_finish (i : queuedData) (s : applicationServer) (b : recoveryBudget)
    : result () (applicationServer * recoveryBudget * bool) :=
  '(s, b) ← finishDeliveryItemLocked (qd_size i) s b;
  let s := s <| activeSending := false |> in
  if bool_decide (state s = ASActive) && (0 <? len (recoveryQueue s)) && negb (draining s)
  then Ok (startDrain s, b, true) else Ok (s, b, false).

(** ** Draining *)

Inductive taking : Type :=
| Stops (s : applicationServer)
| Takes (i : queuedData) (s : applicationServer).

(** The head of the loop of [drainRecoveryQueue]. *)
Definition drain_take (s : applicationServer) : taking :=
  if negb (bool_decide (state s = ASActive)) then Stops (s <| draining := false |>)
  else match recoveryQueue s with
  | [] => Stops ((stopDrainRetryLocked (s <| draining := false |>)) <| drainRetryDelay := 0 |>)
  | i :: rest =>
      Takes i (s <| recoveryQueue := rest |> <| deliveryInFlightBytes := qd_size i |>)
  end.

Definition scheduleDrainRetryLocked (s : applicationServer) : applicationServer :=
  if drainRetry s || closed s || negb (bool_decide (state s = ASActive)) || activeSending s ||
     (len (recoveryQueue s) =? 0)
  then s
  else
    let delay :=
      if drainRetryDelay s <=? 0 then initialRecoveryDrainRetry
      else if maximumRecoveryDrainRetry <? drainRetryDelay s * 2 then maximumRecoveryDrainRetry
      else drainRetryDelay s * 2 in
    s <| drainRetryDelay := delay |> <| drainRetry := true |>.

(** The timer of [scheduleDrainRetryLocked] fires. *)
Definition drain_retry (s : applicationServer) : applicationServer * bool :=
  let s := s <| drainRetry := false |> in
  if closed s || negb (bool_decide (state s = ASActive)) || draining s || activeSending s ||
     (len (recoveryQueue s) =? 0)
  then (s, false) else (s <| draining := true |>, true).

(** The item was delivered. *)
Definition drain_delivered (i : queuedData) (s : applicationServer) (b : recoveryBudget)
    : result () (applicationServer * recoveryBudget) :=
  '(s, b) ← finishDeliveryItemLocked (qd_size i) s b;
  Ok (s <| drainRetryDelay := 0 |>, b).

Definition with_gen (i : queuedData) (gen : Z) : queuedData :=
  mkQueued (qd_data i) (qd_flow i) (qd_size i) gen (qd_broadcastTargets i)
    (qd_broadcastTargetsSet i) (qd_broadcastEpoch i) (qd_broadcastMarker i) (qd_ticket i).

(** The item was not delivered; the last result says whether it is retained. *)
Definition drain_failed (i : queuedData) (s : applicationServer) (b : recoveryBudget)
    : result () (applicationServer * recoveryBudget * bool) :=
  let restored := negb (closed s) &&
    (bool_decide (state s = ASPending) || bool_decide (state s = ASActive)) &&
    (recoveryExpiredGen s <? qd_recoveryGen i) in
  '(s, b) ←
    (if restored then
       let i := if bool_decide (state s = ASPending) then with_gen i (recoveryGen s) else i in
       Ok (s <| recoveryQueue ::= cons i |> <| deliveryInFlightBytes := 0 |>, b)
     else finishDeliveryItemLocked (qd_size i) s b);
  let s := s <| draining := false |> in
  let s := if restored && bool_decide (state s = ASActive) then scheduleDrainRetryLocked s else s in
  Ok (s, b, restored).

(** ** Interleaving

    A worker is a caller of [distribute] past its first critical section, or a
    goroutine of [drainRecoveryQueue].  Past [SenderWaiting] and
    [DrainerWaiting] it holds the delivery mutex. *)

Inductive worker : Type :=
| SenderWaiting (i : queuedData)
| SenderSelecting (i : queuedData)
| SenderWriting (a : attempt)
| SenderFinishing (i : queuedData) (delivered : bool)
| DrainerWaiting
| DrainerSelecting (i : queuedData)
| DrainerWriting (a : attempt)
| DrainerFinishing (i : queuedData) (delivered : bool).

Definition holds (w : worker) : bool :=
  match w with SenderWaiting _ | DrainerWaiting => false | _ => true end.

Inductive ending : Set := Delivered | Failed | Discarded.
#[export] Instance ending_eq_dec : EqDecision ending.
Proof. solve_decision. Defined.

(** What can be observed.  [EvSent] is one write of one copy; [EvMarked] the
    record that a flow has its marker; [EvEnded] the end of an accepted
    message. *)
Inductive event : Type :=
| EvSent (ticket : nat) (target : association) (flow : broadcastFlowKey) (epoch : Z)
    (broadcast marked ok : bool)
| EvMarked (ticket : nat) (flow : broadcastFlowKey) (epoch : Z)
| EvEnded (ticket : nat) (how : ending)
| EvNotified (n : asNotification).

(** [w_others] holds the sizes that the other Application Servers have claimed
    from the shared budget, [w_releases] what is to be given back to it, and
    [w_ticket] numbers the next accepted message. *)
Record world : Type := mkWorld {
  w_as : applicationServer;
  w_budget : recoveryBudget;
  w_policy : distributionPolicy;
  w_others : list Z;
  w_workers : list worker;
  w_releases : list (Z * Z);
  w_log : list event;
  w_ticket : nat;
}.

(** Labels name the operation that runs next, and answers from outside. *)
Inductive label : Type :=
| LOp (peers : gmap association Param) (op : asOp)
| LDistribute (data : Data.Data) (flow : broadcastFlowKey) (encodedSize : Z)
| LWork (n : nat) (ok : bool)
| LRetry
| LRelease
| LClaim (size : Z)
| LUnclaim (size : Z).

Definition set_worker (n : nat) (ws : list worker) (w : worker) : list worker :=
  <[n := w]> ws.

Definition with_drainer (drain : bool) (ws : list worker) : list worker :=
  if drain then ws ++ [DrainerWaiting] else ws.

Definition discards (s s' : applicationServer) : list event :=
  if (0 <? len (recoveryQueue s)) && (len (recoveryQueue s') =? 0)
  then (λ i, EvEnded (qd_ticket i) Discarded) <$> recoveryQueue s else [].

Definition op_step (peers : gmap association Param) (op : asOp) (w : world) : world :=
  let eff := as_step peers op (w_as w) in
  w <| w_as := e_state eff |>
    <| w_workers ::= with_drainer (e_drain eff) |>
    <| w_releases ::= λ r, if bool_decide (e_release eff = (0, 0)) then r else r ++ [e_release eff] |>
    <| w_log := w_log w ++ discards (w_as w) (e_state eff) ++ (EvNotified <$> e_sent eff) |>.

Definition distribute_step (data : Data.Data) (flow : broadcastFlowKey) (encodedSize : Z)
    (w : world) : world :=
  match distribute_admit (w_policy w) data flow encodedSize (w_ticket w) (w_as w) (w_budget w) with
  | Refused _ => w
  | Queued s b drain =>
      w <| w_as := s |> <| w_budget := b |> <| w_ticket ::= S |>
        <| w_workers ::= with_drainer drain |>
  | Direct s b =>
      w <| w_as := s |> <| w_budget := b |> <| w_ticket ::= S |>
        <| w_workers ::= λ ws, ws ++ [SenderWaiting (fresh_item data flow encodedSize 0 (w_ticket w))] |>
  end.

(** The signalling link selection of a message, if its Protocol Data is sound. *)
Definition sls_of (d : Data.Data) : option Z :=
  match Data.ProtocolData d with
  | None => None
  | Some p => match get_ProtocolData p with Ok pd => Some (SignallingLinkSelection pd) | _ => None end
  end.

Definition sent_event (a : attempt) (target : association) (ok : bool) : event :=
  EvSent (qd_ticket (at_item a)) target (qd_flow (at_item a)) (qd_broadcastEpoch (at_item a))
    (at_broadcast a) (qd_broadcastMarker (at_item a)) ok.

Definition mark_events (a : attempt) (s s' : applicationServer) : list event :=
  if qd_broadcastMarker (at_item a) && (len (at_failed a) =? 0) &&
     (broadcastEpoch s =? qd_broadcastEpoch (at_item a))
  then [EvMarked (qd_ticket (at_item a)) (qd_flow (at_item a)) (qd_broadcastEpoch (at_item a))]
  else [].

Definition dropped (restored : bool) (i : queuedData) : list event :=
  if restored then [] else [EvEnded (qd_ticket i) Discarded].

(** The step of worker [n], whose phase is [x]. *)
Definition work_step (n : nat) (x : worker) (ok : bool) (w : world) : result () world :=
  let s := w_as w in
  let b := w_budget w in
  let next x' := <[n := x']> in
  let gone := delete n in
  match x with
  | SenderWaiting i =>
      if existsb holds (w_workers w) then Err () else
      r ← distribute_resume i s b;
      match r with
      | Abandoned s b _ =>
          Ok (w <| w_as := s |> <| w_budget := b |> <| w_workers ::= gone |>
                <| w_log := w_log w ++ [EvEnded (qd_ticket i) Failed] |>)
      | Requeued s drain =>
          Ok (w <| w_as := s |> <| w_workers ::= λ ws, with_drainer drain (gone ws) |>)
      | Delivers => Ok (w <| w_workers ::= next (SenderSelecting i) |>)
      end
  | SenderSelecting i =>
      match sls_of (qd_data i) with
      | None => Err ()
      | Some sls =>
          match selectTargets sls i s with
          | Ok (s, a) => Ok (w <| w_as := s |> <| w_workers ::= next (SenderWriting a) |>)
          | Err _ => Ok (w <| w_workers ::= next (SenderFinishing (unselected i) false) |>)
          | Panic => Panic
          | OutOfFuel => OutOfFuel
          end
      end
  | SenderWriting a =>
      match at_rest a with
      | target :: _ =>
          Ok (w <| w_workers ::= next (SenderWriting (writeTarget target ok a)) |>
                <| w_log := w_log w ++ [sent_event a target ok] |>)
      | [] =>
          let s' := commitAttempt a s in
          Ok (w <| w_as := s' |>
                <| w_workers ::= next (SenderFinishing (attempted a) (len (at_failed a) =? 0)) |>
                <| w_log := w_log w ++ mark_events a s s' |>)
      end
  | SenderFinishing i delivered =>
      '(s, b, drain) ← distribute_finish i s b;
      Ok (w <| w_as := s |> <| w_budget := b |>
            <| w_workers ::= λ ws, with_drainer drain (gone ws) |>
            <| w_log := w_log w ++ [EvEnded (qd_ticket i) (if delivered then Delivered else Failed)] |>)
  | DrainerWaiting =>
      if existsb holds (w_workers w) then Err () else
      match drain_take s with
      | Stops s => Ok (w <| w_as := s |> <| w_workers ::= gone |>)
      | Takes i s => Ok (w <| w_as := s |> <| w_workers ::= next (DrainerSelecting i) |>)
      end
  | DrainerSelecting i =>
      match sls_of (qd_data i) with
      | None =>
          '(s, b) ← finishDeliveryItemLocked (qd_size i) s b;
          Ok (w <| w_as := s |> <| w_budget := b |> <| w_workers ::= next DrainerWaiting |>
                <| w_log := w_log w ++ [EvEnded (qd_ticket i) Discarded] |>)
      | Some sls =>
          match selectTargets sls i s with
          | Ok (s, a) => Ok (w <| w_as := s |> <| w_workers ::= next (DrainerWriting a) |>)
          | Err _ => Ok (w <| w_workers ::= next (DrainerFinishing (unselected i) false) |>)
          | Panic => Panic
          | OutOfFuel => OutOfFuel
          end
      end
  | DrainerWriting a =>
      match at_rest a with
      | target :: _ =>
          Ok (w <| w_workers ::= next (DrainerWriting (writeTarget target ok a)) |>
                <| w_log := w_log w ++ [sent_event a target ok] |>)
      | [] =>
          let s' := commitAttempt a s in
          Ok (w <| w_as := s' |>
                <| w_workers ::= next (DrainerFinishing (attempted a) (len (at_failed a) =? 0)) |>
                <| w_log := w_log w ++ mark_events a s s' |>)
      end
  | DrainerFinishing i true =>
      '(s, b) ← drain_delivered i s b;
      Ok (w <| w_as := s |> <| w_budget := b |> <| w_workers ::= next DrainerWaiting |>
            <| w_log := w_log w ++ [EvEnded (qd_ticket i) Delivered] |>)
  | DrainerFinishing i false =>
      '(s, b, restored) ← drain_failed i s b;
      Ok (w <| w_as := s |> <| w_budget := b |> <| w_workers ::= gone |>
            <| w_log := w_log w ++ dropped restored i |>)
  end.

(** A step that is not enabled is [Err]; [Panic] is a panic of the program. *)
Definition step (l : label) (w : world) : result () world :=
  match l with
  | LOp peers op => Ok (op_step peers op w)
  | LDistribute data flow encodedSize =>
      if (encodedSize <=? 0) || bool_decide (sls_of data = None) then Err ()
      else Ok (distribute_step data flow encodedSize w)
  | LWork n ok => match w_workers w !! n with Some x => work_step n x ok w | None => Err () end
  | LRetry =>
      let '(s, drain) := drain_retry (w_as w) in
      Ok (w <| w_as := s |> <| w_workers ::= with_drainer drain |>)
  | LRelease =>
      match w_releases w with
      | [] => Err ()
      | (messages, bytes) :: rest =>
          b ← release_budget (w_budget w) messages bytes;
          Ok (w <| w_budget := b |> <| w_releases := rest |>)
      end
  | LClaim size =>
      if size <=? 0 then Err () else
      match claim (w_budget w) size with
      | None => Err ()
      | Some b => Ok (w <| w_budget := b |> <| w_others ::= cons size |>)
      end
  | LUnclaim size =>
      match list_find (λ x, x = size) (w_others w) with
      | None => Err ()
      | Some (n, _) =>
          b ← release_budget (w_budget w) 1 size;
          Ok (w <| w_budget := b |> <| w_others ::= delete n |>)
      end
  end.

Definition run (ls : list label) (w : world) : result () world := foldM (λ w l, step l w) w ls.
