(* ===== verification/DistributionInvariant.v ===== *)
(** * The accounting of traffic in an Application Server

    As long as T(r) does not expire while a message is in flight, at most one
    worker is alive, and with the recovery queue it forms one pipeline: the
    message it holds, then the queue.  The counters of the Application Server
    and its share of the recovery budget are the totals of the pipeline, the
    configured limits bound it, and no retained traffic waits for nobody. *)

From coqutil Require Import Datatypes.RecordSettersUsingExistingGetters.
From S2P Require Import Prelude Params ParamsFacts ParamValues PayloadData Inventory MsgData.
From S2P Require Import AppServer AppServerInvariant AppServerTheory Distribution.
#[local] Open Scope Z_scope.

(** ** The pipeline *)

(** The message a worker holds. *)
Definition held (x : worker) : list queuedData :=
  match x with
  | SenderWaiting i | SenderSelecting i | SenderFinishing i _ => [i]
  | SenderWriting a | DrainerWriting a => [at_item a]
  | DrainerWaiting => []
  | DrainerSelecting i | DrainerFinishing i _ => [i]
  end.

Definition is_sender (x : worker) : bool :=
  match x with
  | SenderWaiting _ | SenderSelecting _ | SenderWriting _ | SenderFinishing _ _ => true
  | _ => false
  end.

Definition in_flight (ws : list worker) : list queuedData := ws ≫= held.
Definition pipeline (w : world) : list queuedData :=
  in_flight (w_workers w) ++ recoveryQueue (w_as w).

Fixpoint bytes_of (l : list queuedData) : Z :=
  match l with [] => 0 | i :: l => qd_size i + bytes_of l end.

Lemma bytes_of_app l k : bytes_of (l ++ k) = bytes_of l + bytes_of k.
Proof. induction l as [|i l IH]; cbn; [done|lia]. Qed.

Lemma bytes_of_restamp g l : bytes_of (map (restamp g) l) = bytes_of l.
Proof. induction l as [|i l IH]; cbn; [done|lia]. Qed.

Fixpoint sum_Z (l : list Z) : Z := match l with [] => 0 | x :: l => x + sum_Z l end.

(** ** The invariant *)

(** What the flags say about the workers.  Closing clears [draining] under a
    running drain. *)
Definition workers_ok (s : applicationServer) (ws : list worker) : Prop :=
  match ws with
  | [] => activeSending s = false ∧ draining s = false
  | [x] => activeSending s = is_sender x ∧
           (if is_sender x then draining s = false
            else draining s = true ∨ closed s = true)
  | _ => False
  end.

(** Traffic can be retained. *)
Definition retains (s : applicationServer) : Prop := state s = ASActive ∨ state s = ASPending.

(** Retained traffic of an active AS is looked after. *)
Definition attended (s : applicationServer) : Prop :=
  state s = ASActive → recoveryQueue s ≠ [] →
  activeSending s = true ∨ draining s = true ∨ drainRetry s = true.

Definition item_ok (i : queuedData) : Prop := 0 < qd_size i ∧ sls_of (qd_data i) ≠ None.

Record core_ok (s : applicationServer) (ws : list worker) : Prop := {
  co_as : as_ok s;
  co_workers : workers_ok s ws;
  co_inflight : deliveryInFlightBytes s = bytes_of (in_flight ws);
  co_bytes : recoveryQueueBytes s = bytes_of (in_flight ws ++ recoveryQueue s);
  co_items : Forall item_ok (in_flight ws ++ recoveryQueue s);
  co_retains : recoveryQueue s ≠ [] ∨ draining s = true ∨
    (activeSending s = true ∧ closed s = false) → retains s;
  co_gens : closed s = false →
    Forall (λ i, recoveryExpiredGen s < qd_recoveryGen i) (recoveryQueue s) ∧
    (draining s = true → Forall (λ i, recoveryExpiredGen s < qd_recoveryGen i) (in_flight ws));
  co_attended : attended s;
}.

(** The budget: what the other Application Servers hold, what is to be given
    back, and the pipeline. *)
Definition budget_ok (b : recoveryBudget) (others : list Z) (releases : list (Z * Z))
    (items : list queuedData) : Prop :=
  b_messages b = len others + sum_Z releases.*1 + len items ∧
  b_bytes b = sum_Z others + sum_Z releases.*2 + bytes_of items ∧
  Forall (λ x, 0 < x) others ∧
  Forall (λ r, 0 ≤ r.1 ∧ 0 ≤ r.2 ∧ (r.1 = 0 → r.2 = 0)) releases.

Definition limits_ok (policy : distributionPolicy) (items : list queuedData) : Prop :=
  len items ≤ messageLimit policy ∧ bytes_of items ≤ byteLimit policy.

Record delivery_ok (w : world) : Prop := {
  do_core : core_ok (w_as w) (w_workers w);
  do_budget : budget_ok (w_budget w) (w_others w) (w_releases w) (pipeline w);
  do_policy : 1 ≤ messageLimit (w_policy w);
  do_limits : limits_ok (w_policy w) (pipeline w);
}.

(** [T(r)] does not expire while a message is in flight. *)
Definition timely (l : label) (w : world) : Prop :=
  match l with
  | LOp _ (RecoveryExpired gen) => expires gen (w_as w) = true →
      draining (w_as w) = false ∧ activeSending (w_as w) = false
  | _ => True
  end.

(** ** Operations on the ASPs *)

(** What an operation that neither ends T(r) nor closes the Application Server
    does to the traffic, before it may start a drain. *)
Record traffic_frame (s s' : applicationServer) : Prop := {
  tf_closed : closed s' = closed s;
  tf_queue : recoveryQueue s' = recoveryQueue s ∨
    ∃ g, recoveryQueue s' = map (restamp g) (recoveryQueue s) ∧ recoveryExpiredGen s < g;
  tf_expired : recoveryExpiredGen s' = recoveryExpiredGen s;
  tf_bytes : recoveryQueueBytes s' = recoveryQueueBytes s;
  tf_inflight : deliveryInFlightBytes s' = deliveryInFlightBytes s;
  tf_sending : activeSending s' = activeSending s;
  tf_draining : draining s' = draining s;
  tf_retains : retains s → retains s';
}.

(** The same once it may have started one. *)
Definition op_frame (s s' : applicationServer) (drain : bool) : Prop :=
  ∃ s2, traffic_frame s s2 ∧
    if drain then s' = startDrain s2 ∧ wantsDrain s2 = true ∧ closed s = false
    else s' = s2 ∧ (attended s → attended s').

Lemma wantsDrain_spec s :
  wantsDrain s = true ↔
  state s = ASActive ∧ recoveryQueue s ≠ [] ∧ draining s = false ∧ activeSending s = false.
Proof.
  unfold wantsDrain. destruct (recoveryQueue s) as [|i q].
  - rewrite andb_false_r. cbn. naive_solver.
  - rewrite len_cons. pose proof (len_nonneg q). rewrite (proj2 (Z.ltb_lt 0 _)) by lia.
    rewrite andb_true_r. destruct (draining s), (activeSending s); cbn;
      rewrite ?andb_false_r, ?andb_true_r; rewrite ?bool_decide_eq_true; naive_solver.
Qed.

Lemma startDrain_eq s : startDrain s = s <| drainRetry := false |> <| draining := true |>.
Proof. done. Qed.

Lemma transition_retains s s' :
  edge DeliverNotification s s' → retains s → retains s'.
Proof.
  unfold edge, retains.
  destruct (state s), (state s'); naive_solver.
Qed.

Section ops.
Context (peers : gmap association Param).

Lemma recomputed_frame s s1 s' :
  as_ok s → closed s = false → reassigned s s1 → recomputed s1 s' → traffic_frame s s'.
Proof.
  intros Hok Hc Hra Hrc.
  pose proof (recomputed_edge DeliverNotification s s1 s' Hok Hc Hra Hrc) as Ht.
  pose proof (ok_gen _ Hok) as Hg. destruct Hra, Hrc. constructor; try congruence.
  - rewrite rc_queue, ra_queue. destruct (pends s1) eqn:Hp; [|by left].
    right. eexists. split; [done|]. rewrite rc_gen. lia.
  - by apply transition_retains.
Qed.

Lemma drained_frame s s2 s' drain :
  closed s = false → traffic_frame s s2 → drained s2 s' drain → op_frame s s' drain.
Proof.
  intros Hc Hf [Hd ->]. exists s2. split; [done|]. destruct drain; [done|]. split; [done|].
  intros _ Ha Hq. destruct (draining s2) eqn:Hdr; [auto|]. destruct (activeSending s2) eqn:Hse; [auto|].
  assert (wantsDrain s2 = true) by by apply wantsDrain_spec. congruence.
Qed.

Lemma traffic_frame_refl s : traffic_frame s s.
Proof. constructor; auto. Qed.

Lemma quiet_frame s s' : quiet s s' → op_frame s s' false.
Proof.
  intros []. exists s'. split; [|split; [done|]].
  - constructor; try done; [by left|]. unfold retains. by rewrite q_state.
  - unfold attended. by rewrite q_state, q_queue, q_sending, q_draining, q_retry.
Qed.

(** An operation that makes no ASP active cannot make a pending AS active, and
    leaves the retry timer of an active one alone. *)
Lemma withdraw_frame s s1 s' :
  as_ok s → closed s = false → reassigned s s1 → members is_active s1 ⊆ members is_active s →
  recomputed s1 s' → (recoveryQueue s ≠ [] → retains s) → op_frame s s' false.
Proof.
  intros Hok Hc Hra Hsub Hrc Hret. exists s'. pose proof (recomputed_frame _ _ _ Hok Hc Hra Hrc) as Hf.
  split; [done|]. split; [done|]. intros Hatt Ha Hq.
  assert (Hq' : recoveryQueue s ≠ []).
  { destruct (tf_queue _ _ Hf) as [<-|(g & Heq & _)]; [done|]. rewrite Heq in Hq. by destruct (recoveryQueue s). }
  assert (Hst : state s = ASActive).
  { destruct (Hret Hq') as [?|Hp]; [done|].
    pose proof (ok_state _ Hok Hc) as Hfit. unfold state_fits in Hfit. rewrite Hp in Hfit.
    apply len_0_nil in Hfit. rewrite Hfit in Hsub.
    assert (Hn : members is_active s1 = []) by (destruct (members is_active s1); set_solver).
    destruct Hrc. rewrite rc_state in Ha. unfold next_of, nextState in Ha.
    rewrite Hn, (ra_state _ _ Hra), Hp in Ha. change (len []) with 0 in Ha.
    pose proof (requiredActive_pos s1) as Hr. rewrite (ra_policy _ _ Hra) in Hr.
    specialize (Hr (ok_policy _ Hok)). rewrite (proj2 (Z.leb_gt _ _)) in Ha by lia. done. }
  rewrite (tf_sending _ _ Hf), (tf_draining _ _ Hf).
  destruct (Hatt Hst Hq') as [?|[?|Hr]]; [auto..|]. right; right.
  destruct Hrc. rewrite rc_retry. rewrite rc_state in Ha.
  rewrite Ha, (ra_state _ _ Hra), Hst. cbn. by rewrite (ra_retry _ _ Hra).
Qed.
End ops.

(** ** The invariant under operations on the ASPs *)

Lemma items_restamp g l : Forall item_ok l → Forall item_ok (map (restamp g) l).
Proof. intros H. apply Forall_fmap. eapply Forall_impl; [exact H|]. by intros []. Qed.

Lemma gens_restamp e g l : e < g → Forall (λ i, e < qd_recoveryGen i) (map (restamp g) l).
Proof. intros H. apply Forall_fmap, Forall_true. done. Qed.

Lemma workers_idle s ws :
  workers_ok s ws → activeSending s = false → draining s = false → closed s = false → ws = [].
Proof.
  intros H Hs Hd Hc. destruct ws as [|x [|]]; cbn in H; [done| |done].
  destruct H as [Hx H]. rewrite <-Hx, Hs, Hd, Hc in H. naive_solver.
Qed.

Lemma workers_ok_ext s s' ws :
  activeSending s' = activeSending s → draining s' = draining s → closed s' = closed s →
  workers_ok s ws → workers_ok s' ws.
Proof. intros H1 H2 H3. unfold workers_ok. by rewrite H1, H2, H3. Qed.

Lemma traffic_core s s' ws :
  core_ok s ws → traffic_frame s s' → as_ok s' → attended s' → core_ok s' ws.
Proof.
  intros [] [] Hok Hatt. constructor; try done.
  - by eapply workers_ok_ext.
  - congruence.
  - rewrite tf_bytes0, co_bytes0, !bytes_of_app. f_equal.
    destruct tf_queue0 as [->|(g & -> & _)]; [done|]. by rewrite bytes_of_restamp.
  - apply Forall_app in co_items0 as [Hf Hq]. apply Forall_app. split; [done|].
    destruct tf_queue0 as [->|(g & -> & _)]; [done|]. by apply items_restamp.
  - intros Hq. apply tf_retains0, co_retains0. rewrite <-tf_draining0, <-tf_sending0, <-tf_closed0.
    destruct Hq as [Hq|Hd]; [left|by right]. destruct tf_queue0 as [<-|(g & Heq & _)]; [done|].
    rewrite Heq in Hq. by destruct (recoveryQueue s).
  - rewrite tf_closed0, tf_expired0, tf_draining0. intros Hc.
    destruct (co_gens0 Hc) as [Hq Hf]. split; [|done].
    destruct tf_queue0 as [->|(g & -> & Hg)]; [done|]. by apply gens_restamp.
Qed.

Lemma op_core s ws s' drain :
  core_ok s ws → op_frame s s' drain → as_ok s' → core_ok s' (with_drainer drain ws).
Proof.
  intros Hcore (s2 & Hf & Hd) Hok. destruct drain; cbn [with_drainer].
  - destruct Hd as (-> & Hw & Hc). apply wantsDrain_spec in Hw as (Hst & Hq & Hdr & Hse).
    assert (Hws : ws = []).
    { apply (workers_idle s); [apply Hcore| | |done].
      - by rewrite <-(tf_sending _ _ Hf).
      - by rewrite <-(tf_draining _ _ Hf). }
    subst ws. rewrite startDrain_eq.
    assert (Hok2 : as_ok s2).
    { eapply same_members_ok, Hok. constructor; auto. }
    assert (Hcore2 : core_ok (s2 <| drainRetry := true |>) []).
    { assert (Hok3 : as_ok (s2 <| drainRetry := true |>))
        by (eapply same_members_ok, Hok2; constructor; auto).
      apply (traffic_core s); [done| |done|]; [by destruct Hf|]. intros _ _. auto. }
    destruct Hcore2. constructor; try done; cbn.
    + auto.
    + intros _. by left.
    + intros Hc'. destruct (co_gens0 Hc') as [? _]. auto.
    + intros _ _. auto.
  - destruct Hd as [-> Hatt]. eapply traffic_core; [done..|]. apply Hatt, Hcore.
Qed.

(** The expiry of T(r) discards the queue. *)
Lemma expired_core gen s ws s' notify release :
  core_ok s ws → recoveryExpired gen s = (s', notify, release) →
  expires gen s = true → draining s = false → activeSending s = false →
  core_ok s' ws ∧ recoveryQueue s' = [] ∧
  release = (len (recoveryQueue s), bytes_of (recoveryQueue s)).
Proof.
  intros Hcore He Hx Hd Hs. pose proof (recoveryExpired_ok _ _ _ _ _ He (co_as _ _ Hcore)) as Hok.
  apply recoveryExpired_eq in He. rewrite Hx in He. destruct He as [-> (ns & n & w & Hs')].
  destruct Hcore. rewrite bytes_of_app in co_bytes0. apply Forall_app in co_items0 as [Hi _].
  split_and!; [|by rewrite Hs'|f_equal; lia].
  assert (Hst : recoveryQueue s' = [] ∧ state s' = next_expired s ∧ draining s' = false ∧
    activeSending s' = activeSending s ∧ closed s' = closed s ∧
    deliveryInFlightBytes s' = deliveryInFlightBytes s ∧
    recoveryQueueBytes s' = deliveryInFlightBytes s) by by rewrite Hs'.
  destruct Hst as (Hq & Hstate & Hdr & Hse & Hc & Hif & Hby). clear Hs'.
  constructor; rewrite ?Hq, ?app_nil_r; try done.
  - eapply workers_ok_ext, co_workers0; congruence.
  - congruence.
  - by rewrite Hby, co_inflight0.
  - intros [?|[?|[? _]]]; [done|congruence..].
  - split; [done|]. congruence.
  - intros Ha. by rewrite Hq.
Qed.

Lemma workers_ok_close s s' ws :
  workers_ok s ws → activeSending s' = activeSending s → closed s' = true → draining s' = false →
  workers_ok s' ws.
Proof.
  intros H Hse Hc Hd. unfold workers_ok in *. rewrite Hse, Hc, Hd.
  destruct ws as [|x [|]]; [by destruct H| |done]. destruct H as [Hx H]. split; [done|].
  destruct (is_sender x); auto.
Qed.

Lemma closed_core s ws s' release :
  core_ok s ws → close s = (s', release) → closed s = false →
  core_ok s' ws ∧ recoveryQueue s' = [] ∧
  release = (len (recoveryQueue s), bytes_of (recoveryQueue s)).
Proof.
  intros Hcore He Hc. pose proof (close_ok _ _ _ He (co_as _ _ Hcore)) as Hok.
  apply close_eq in He. rewrite Hc in He. destruct He as [-> Hs'].
  destruct Hcore. rewrite bytes_of_app in co_bytes0. apply Forall_app in co_items0 as [Hi _].
  split_and!; [|by rewrite Hs'|f_equal; lia].
  assert (Hst : recoveryQueue s' = [] ∧ state s' = ASDown ∧ draining s' = false ∧
    activeSending s' = activeSending s ∧ closed s' = true ∧
    deliveryInFlightBytes s' = deliveryInFlightBytes s ∧
    recoveryQueueBytes s' = deliveryInFlightBytes s) by by rewrite Hs'.
  destruct Hst as (Hq & Hstate & Hdr & Hse & Hc' & Hif & Hby). clear Hs'.
  constructor; rewrite ?Hq, ?app_nil_r; try done.
  - by eapply workers_ok_close.
  - congruence.
  - by rewrite Hby, co_inflight0.
  - intros [?|[?|[_ ?]]]; [done|congruence..].
  - split; [done|]. congruence.
  - intros Ha. by rewrite Hq.
Qed.

(** An operation keeps the queue, or discards all of it. *)
Definition same_queue (s s' : applicationServer) : Prop :=
  len (recoveryQueue s') = len (recoveryQueue s) ∧
  bytes_of (recoveryQueue s') = bytes_of (recoveryQueue s) ∧
  qd_ticket <$> recoveryQueue s' = qd_ticket <$> recoveryQueue s.

Lemma op_frame_queue s s' drain : op_frame s s' drain → same_queue s s'.
Proof.
  intros (s2 & Hf & Hd). assert (recoveryQueue s' = recoveryQueue s2) as Hq.
  { destruct drain; by destruct Hd as [-> _]. }
  unfold same_queue. rewrite Hq.
  destruct (tf_queue _ _ Hf) as [->|(g & -> & _)]; [done|]. split_and!.
  - unfold len. by rewrite length_map.
  - apply bytes_of_restamp.
  - rewrite <-list_fmap_compose. done.
Qed.

Lemma op_frame_refl s : op_frame s s false.
Proof. exists s. split; [apply traffic_frame_refl|done]. Qed.

Inductive op_outcome (s : applicationServer) (op : asOp) (eff : effect) : Prop :=
| outcome_frame :
    op_frame s (e_state eff) (e_drain eff) → e_release eff = (0, 0) → op_outcome s op eff
| outcome_expired gen notify :
    op = RecoveryExpired gen → expires gen s = true → e_drain eff = false →
    recoveryExpired gen s = (e_state eff, notify, e_release eff) → op_outcome s op eff
| outcome_closed :
    op = Close → closed s = false → e_drain eff = false →
    close s = (e_state eff, e_release eff) → op_outcome s op eff.

Lemma as_step_outcome peers op s :
  as_ok s → (recoveryQueue s ≠ [] → retains s) → op_outcome s op (as_step peers op s).
Proof.
  intros Hok Hret. destruct (as_step_shape peers op s) as
    [? s' sent Hq _|? s1 s2 s' ai n drain Hc Hra Hrc Hdr|? s1 s' ai tg n Hc Hra Hsub Hrc
    |? s' drain Hc Hdr|gen s' n release He|s' release He].
  - apply outcome_frame; [by apply quiet_frame|done].
  - apply outcome_frame; [|done]. eapply drained_frame; [done| |exact Hdr].
    eapply recomputed_frame; [done..|]. by eapply recomputeLocked_recomputed.
  - apply outcome_frame; [|done].
    eapply withdraw_frame; [done..| |done]. by eapply recomputeLockedFor_recomputed.
  - apply outcome_frame; [|done]. eapply drained_frame; [done|apply traffic_frame_refl|done].
  - destruct (expires gen s) eqn:Hx.
    + by eapply (outcome_expired _ _ _ gen).
    + apply recoveryExpired_eq in He. rewrite Hx in He. destruct He as (-> & -> & ->).
      apply outcome_frame; [apply op_frame_refl|done].
  - destruct (closed s) eqn:Hc; [|by apply outcome_closed].
    apply close_eq in He. rewrite Hc in He. destruct He as [-> ->].
    apply outcome_frame; [apply op_frame_refl|done].
Qed.

(** The two cases of an operation on the ASPs. *)
Definition discarded_queue (s : applicationServer) (eff : effect) : Prop :=
  e_drain eff = false ∧ recoveryQueue (e_state eff) = [] ∧
  e_release eff = (len (recoveryQueue s), bytes_of (recoveryQueue s)).

Lemma as_step_core peers op s ws :
  core_ok s ws →
  (∀ gen, op = RecoveryExpired gen → expires gen s = true →
     draining s = false ∧ activeSending s = false) →
  core_ok (e_state (as_step peers op s)) (with_drainer (e_drain (as_step peers op s)) ws) ∧
  ((e_release (as_step peers op s) = (0, 0) ∧ same_queue s (e_state (as_step peers op s))) ∨
   discarded_queue s (as_step peers op s)).
Proof.
  intros Hcore Htimely. pose proof (as_step_ok peers op s (co_as _ _ Hcore)) as Hok.
  assert (Hret : recoveryQueue s ≠ [] → retains s) by (intros; apply (co_retains _ _ Hcore); auto).
  destruct (as_step_outcome peers op s (co_as _ _ Hcore) Hret) as [Hf Hr|gen n Hop Hx Hd He|Hop Hc Hd He].
  - split; [by eapply op_core|]. left. split; [done|by eapply op_frame_queue].
  - destruct (Htimely gen Hop Hx) as [Hdr Hse].
    destruct (expired_core _ _ _ _ _ _ Hcore He Hx Hdr Hse) as (Hc' & Hq & Hr).
    rewrite Hd. split; [done|]. by right.
  - destruct (closed_core _ _ _ _ Hcore He Hc) as (Hc' & Hq & Hr).
    rewrite Hd. split; [done|]. by right.
Qed.

(** ** The budget *)

Lemma sum_Z_app l k : sum_Z (l ++ k) = sum_Z l + sum_Z k.
Proof. induction l as [|x l IH]; cbn [app sum_Z]; lia. Qed.

Lemma sum_Z_nonneg l : Forall (λ x, 0 ≤ x) l → 0 ≤ sum_Z l.
Proof. induction 1; cbn [sum_Z]; lia. Qed.

Lemma bytes_of_nonneg l : Forall item_ok l → 0 ≤ bytes_of l.
Proof. induction 1 as [|i l [Hi _] _ IH]; cbn [bytes_of]; lia. Qed.

Lemma budget_parts b others releases items :
  budget_ok b others releases items →
  0 ≤ len others ∧ 0 ≤ sum_Z others ∧ 0 ≤ sum_Z releases.*1 ∧ 0 ≤ sum_Z releases.*2.
Proof.
  intros (_ & _ & Ho & Hr). split_and!; [apply len_nonneg|apply sum_Z_nonneg..].
  - eapply Forall_impl; [exact Ho|]. intros; cbn in *; lia.
  - apply Forall_fmap. eapply Forall_impl; [exact Hr|]. intros r; cbn; lia.
  - apply Forall_fmap. eapply Forall_impl; [exact Hr|]. intros r; cbn; lia.
Qed.

Lemma budget_ok_items b others releases l k :
  budget_ok b others releases l → len k = len l → bytes_of k = bytes_of l →
  budget_ok b others releases k.
Proof. intros (H1 & H2 & H3 & H4) Hl Hb. split_and!; try done; lia. Qed.

Lemma claim_ok b size b' others releases l k :
  claim b size = Some b' → budget_ok b others releases l →
  len k = len l + 1 → bytes_of k = bytes_of l + size →
  budget_ok b' others releases k.
Proof.
  unfold claim. destruct (_ || _); [done|]. intros [= <-] (H1 & H2 & H3 & H4) Hl Hb.
  split_and!; cbn; try done; lia.
Qed.

(** Giving back what the budget holds does not panic. *)
Lemma release_ok b messages bytes :
  0 ≤ b_messages b - messages → 0 ≤ b_bytes b - bytes → (messages = 0 → bytes = 0) →
  ∃ b', release_budget b messages bytes = Ok b' ∧
    b_messages b' = b_messages b - messages ∧ b_bytes b' = b_bytes b - bytes.
Proof.
  intros Hm Hb Hz. unfold release_budget. destruct (messages =? 0) eqn:H0; to_prop.
  - exists b. split; [done|]. rewrite H0, (Hz H0). lia.
  - cbn. rewrite (proj2 (Z.ltb_ge _ _)) by done. rewrite (proj2 (Z.ltb_ge _ _)) by done.
    cbn. by eexists.
Qed.

Lemma finish_ok s b others releases i l :
  budget_ok b others releases (i :: l) → recoveryQueueBytes s = bytes_of (i :: l) →
  Forall item_ok (i :: l) →
  ∃ b', finishDeliveryItemLocked (qd_size i) s b =
    Ok (s <| deliveryInFlightBytes := 0 |> <| recoveryQueueBytes := bytes_of l |>, b') ∧
    budget_ok b' others releases l.
Proof.
  intros Hb Hs Hi. pose proof (budget_parts _ _ _ _ Hb) as (Ho1 & Ho2 & Hr1 & Hr2).
  destruct Hb as (Hm & Hby & Ho & Hr). apply Forall_cons in Hi as [[Hsz _] Hl].
  pose proof (bytes_of_nonneg _ Hl). rewrite len_cons in Hm. cbn [bytes_of] in *.
  pose proof (len_nonneg l).
  unfold finishDeliveryItemLocked. rewrite Hs.
  replace (qd_size i + bytes_of l - qd_size i) with (bytes_of l) by lia. cbn -[release_budget].
  rewrite (proj2 (Z.ltb_ge _ _)) by done.
  destruct (release_ok b 1 (qd_size i)) as (b' & -> & Hm' & Hb'); [lia..|].
  exists b'. split; [done|]. split_and!; try done; lia.
Qed.

(** ** Acceptance *)

(** The parts of the state, apart from the queue and its accounting. *)
Lemma generation_spec s s' gen :
  queuedDataRecoveryGenerationLocked s = (s', gen) → as_ok s → retains s →
  recoveryExpiredGen s < gen ∧ s' = s <| recoveryGen := gen |> ∧ as_ok s'.
Proof.
  unfold queuedDataRecoveryGenerationLocked. intros H Hok Hret.
  pose proof (ok_gen _ Hok). pose proof (ok_pending _ Hok).
  destruct (bool_decide (state s = ASActive)) eqn:Ha; cbn [andb] in H.
  - apply bool_decide_eq_true in Ha. destruct (recoveryGen s <=? recoveryExpiredGen s) eqn:Hg; to_prop.
    + apply pair_equal_spec in H as [<- <-]. cbn. split_and!; [lia|done|].
      eapply same_members_ok, Hok. constructor; try done. right. split; [done|]. cbn. lia.
    + apply pair_equal_spec in H as [<- <-]. split_and!; [lia|by destruct s|done].
  - apply bool_decide_eq_false in Ha. apply pair_equal_spec in H as [<- <-].
    destruct Hret as [?|Hp]; [done|]. split_and!; [auto|by destruct s|done].
Qed.

Lemma flight_len s ws :
  core_ok s ws → len (in_flight ws) = if 0 <? deliveryInFlightBytes s then 1 else 0.
Proof.
  intros []. rewrite co_inflight0. apply Forall_app in co_items0 as [Hi _].
  destruct ws as [|x [|]]; cbn in co_workers0; [done| |done].
  unfold in_flight in *. cbn in *. rewrite app_nil_r in *.
  assert (Hh : held x = [] ∨ ∃ i, held x = [i]) by (destruct x; cbn; eauto).
  destruct Hh as [->|(i & Heq)]; [done|]. rewrite Heq in *. apply Forall_cons in Hi as [[Hs _] _].
  cbn [bytes_of]. rewrite (proj2 (Z.ltb_lt _ _)) by lia. done.
Qed.

Lemma retains_open s : as_ok s → retains s → closed s = false.
Proof.
  intros Hok Hr. destruct (closed s) eqn:Hc; [|done]. pose proof (ok_closed _ Hok Hc).
  destruct Hr; congruence.
Qed.

(** The end of a section that may start a drain with no worker alive. *)
Lemma start_core s ws :
  core_ok (s <| drainRetry := true |>) ws → closed s = false → state s = ASActive →
  draining s = false → activeSending s = false →
  core_ok (startDrain s) (ws ++ [DrainerWaiting]).
Proof.
  intros Hcore Hc Ha Hd Hs. assert (ws = []) as ->.
  { eapply workers_idle; [apply Hcore|done..]. }
  rewrite startDrain_eq. destruct Hcore. constructor; try done.
  - eapply same_members_ok, co_as0. constructor; auto.
  - cbn. auto.
  - intros _. by left.
  - cbn. intros Hc'. destruct (co_gens0 Hc') as [? _]. auto.
  - intros _ _. auto.
Qed.

(** A message joins the tail of the queue. *)
Lemma push_core s ws i gen :
  core_ok s ws → retains s → as_ok (s <| recoveryGen := gen |>) →
  item_ok i → recoveryExpiredGen s < qd_recoveryGen i →
  let s' := s <| recoveryGen := gen |> <| recoveryQueue ::= λ q, q ++ [i] |>
              <| recoveryQueueBytes ::= Z.add (qd_size i) |> in
  attended s' → core_ok s' ws.
Proof.
  intros [] Hret Hok Hi Hg s' Hatt. constructor; try done.
  - eapply same_members_ok, Hok. constructor; auto.
  - cbn. rewrite co_bytes0, !bytes_of_app. cbn [bytes_of]. lia.
  - cbn. rewrite (assoc_L (++)). apply Forall_app. auto.
  - cbn. intros Hc. destruct (co_gens0 Hc) as [Hq Hf]. split; [|done].
    apply Forall_app. auto.
Qed.

Lemma enqueue_core policy data flow sz t s b s' b' drain ws :
  core_ok s ws → retains s → 0 < sz → sls_of data ≠ None →
  limits_ok policy (in_flight ws ++ recoveryQueue s) →
  enqueueRecoveryLocked policy data flow sz t s b = Queued s' b' drain →
  core_ok s' (with_drainer drain ws) ∧ claim b sz = Some b' ∧
  (∃ i, recoveryQueue s' = recoveryQueue s ++ [i] ∧ qd_ticket i = t ∧ qd_size i = sz) ∧
  limits_ok policy (in_flight ws ++ recoveryQueue s').
Proof.
  intros Hcore Hret Hsz Hsls Hlim. unfold enqueueRecoveryLocked.
  pose proof (flight_len _ _ Hcore) as Hfl.
  destruct (_ || _) eqn:Hfull; [done|]. apply orb_false_iff in Hfull as [Hfm Hfb]. to_prop.
  destruct (claim b sz) as [b1|]; [|done].
  destruct (queuedDataRecoveryGenerationLocked s) as [s1 gen] eqn:Hgen.
  pose proof (retains_open _ (co_as _ _ Hcore) Hret) as Hc.
  apply generation_spec in Hgen as (Hg & -> & Hok); [|apply Hcore|done].
  set (i := fresh_item data flow sz gen t).
  set (s2 := s <| recoveryGen := gen |> <| recoveryQueue ::= λ q, q ++ [i] |>
               <| recoveryQueueBytes ::= Z.add sz |>).
  assert (Hlim' : limits_ok policy (in_flight ws ++ (recoveryQueue s ++ [i]))).
  { pose proof (co_bytes _ _ Hcore) as Hb. unfold limits_ok. rewrite (assoc_L (++)), bytes_of_app, len_app, <-Hb, len_app, Hfl.
    cbn [bytes_of]. change (len [i]) with 1. change (qd_size i) with sz.
    revert Hfm. destruct (0 <? deliveryInFlightBytes s); split; lia. }
  assert (Hitem : item_ok i) by by split.
  destruct (bool_decide (state s2 = ASActive) && negb (draining s2) && negb (activeSending s2)) eqn:Hd.
  - intros [= <- <- <-]. apply andb_true_iff in Hd as [[Ha Hdr]%andb_true_iff Hse]. to_prop.
    apply bool_decide_eq_true in Ha. split_and!; [|done|by exists i|done].
    apply start_core; try done.
    assert (Hcr : core_ok (s <| drainRetry := true |>) ws).
    { destruct Hcore. constructor; try done; [|intros _ _; auto].
      eapply same_members_ok, co_as0. constructor; auto. }
    apply (push_core _ _ i gen) in Hcr; [|done| |done|done|intros _ _; auto]; [exact Hcr|].
    eapply same_members_ok, Hok. constructor; auto.
  - intros [= <- <- <-]. split_and!; [|done|by exists i|done].
    apply (push_core s ws i gen); try done. intros Ha _.
    apply andb_false_iff in Hd as [[Hd|Hd]%andb_false_iff|Hd].
    + by apply bool_decide_eq_false in Hd.
    + to_prop. auto.
    + to_prop. auto.
Qed.

Lemma len_pos {A} (l : list A) : (0 <? len l) = true ↔ l ≠ [].
Proof.
  destruct l; [done|]. rewrite len_cons, Z.ltb_lt. pose proof (len_nonneg l). split; [done|lia].
Qed.

Lemma direct_core s sz i :
  core_ok s [] → state s = ASActive → recoveryQueue s = [] → item_ok i → qd_size i = sz →
  core_ok (s <| activeSending := true |> <| deliveryInFlightBytes := sz |>
             <| recoveryQueueBytes ::= Z.add sz |>) [SenderWaiting i].
Proof.
  intros [] Ha Hq Hi <-. rewrite Hq in *. destruct co_workers0 as [Hs Hd].
  change (in_flight []) with (@nil queuedData) in *. cbn [app bytes_of] in *.
  constructor; change (in_flight [SenderWaiting i]) with [i]; try done; cbn; rewrite ?Hq.
  - eapply same_members_ok, co_as0. constructor; auto.
  - cbn. lia.
  - rewrite co_bytes0. cbn. lia.
  - repeat constructor; apply Hi.
  - intros _. by left.
  - intros _. split; [done|]. cbn. congruence.
  - intros _. cbn. auto.
Qed.

(** What accepting a message does. *)
Lemma admit_core policy data flow sz t s b ws :
  core_ok s ws → 0 < sz → sls_of data ≠ None →
  1 ≤ messageLimit policy → limits_ok policy (in_flight ws ++ recoveryQueue s) →
  match distribute_admit policy data flow sz t s b with
  | Refused _ => True
  | Queued s' b' drain =>
      core_ok s' (with_drainer drain ws) ∧ claim b sz = Some b' ∧
      (∃ i, recoveryQueue s' = recoveryQueue s ++ [i] ∧ qd_ticket i = t ∧ qd_size i = sz) ∧
      limits_ok policy (in_flight ws ++ recoveryQueue s')
  | Direct s' b' =>
      ws = [] ∧ recoveryQueue s = [] ∧ recoveryQueue s' = [] ∧
      core_ok s' [SenderWaiting (fresh_item data flow sz 0 t)] ∧ claim b sz = Some b' ∧
      sz ≤ byteLimit policy
  end.
Proof.
  intros Hcore Hsz Hsls Hml Hlim. unfold distribute_admit.
  destruct (closed s) eqn:Hc; [done|].
  destruct (bool_decide (state s = ASPending) || draining s || activeSending s || _) eqn:Hq.
  - assert (Hret : retains s).
    { apply orb_true_iff in Hq as [[[H|H]%orb_true_iff|H]%orb_true_iff|H].
      - right. by apply bool_decide_eq_true in H.
      - apply (co_retains _ _ Hcore). auto.
      - apply (co_retains _ _ Hcore). auto.
      - left. apply andb_true_iff in H as [H _]. by apply bool_decide_eq_true in H. }
    destruct (enqueueRecoveryLocked _ _ _ _ _ _ _) as [e|s' b' drain|s' b'] eqn:He; [done| |].
    + by eapply enqueue_core.
    + unfold enqueueRecoveryLocked in He. repeat case_match; discriminate He.
  - apply orb_false_iff in Hq as [[[Hp Hd]%orb_false_iff Hs]%orb_false_iff Hq].
    apply bool_decide_eq_false in Hp.
    destruct (bool_decide (state s = ASActive)) eqn:Ha; cbn [negb andb] in *; [|done].
    apply bool_decide_eq_true in Ha.
    assert (Hnil : recoveryQueue s = []).
    { destruct (recoveryQueue s) eqn:Hr; [done|]. rewrite <-Hr in Hq.
      assert ((0 <? len (recoveryQueue s)) = true); [|congruence]. apply len_pos. by rewrite Hr. }
    assert (Hws : ws = []) by (eapply workers_idle; [apply Hcore|done..]). subst ws.
    destruct (byteLimit policy <? sz) eqn:Hby; [done|]. to_prop.
    destruct (claim b sz) as [b'|] eqn:Hcl; [|done].
    split_and!; try done. by apply direct_core.
Qed.

(** ** The phases of a worker *)

(** A worker moves on with its message; only markers change in the state. *)
Lemma swap_core s x x' i i' tags corr :
  core_ok s [x] → is_sender x' = is_sender x → held x = [i] → held x' = [i'] →
  qd_size i' = qd_size i → sls_of (qd_data i') = sls_of (qd_data i) →
  qd_recoveryGen i' = qd_recoveryGen i →
  core_ok (s <| broadcastTagged := tags |> <| nextCorrelationID := corr |>) [x'].
Proof.
  intros [] Hsd Hx Hx' Hsz Hsls Hg. unfold in_flight in *. cbn in *. rewrite app_nil_r in *.
  rewrite Hx in *. cbn in *.
  constructor; try done; unfold in_flight; cbn; rewrite ?app_nil_r, ?Hx'; cbn.
  - eapply same_members_ok, co_as0. constructor; auto.
  - by rewrite Hsd.
  - by rewrite Hsz.
  - by rewrite Hsz.
  - apply Forall_cons in co_items0 as [[Hi1 Hi2] Hi]. apply Forall_cons. split; [|done].
    split; [by rewrite Hsz|by rewrite Hsls].
  - intros Hc. destruct (co_gens0 Hc) as [Hq Hf]. split; [done|]. intros Hd.
    specialize (Hf Hd). apply Forall_cons in Hf as [Hi _]. repeat constructor. by rewrite Hg.
Qed.

Lemma markers_eq s :
  s = s <| broadcastTagged := broadcastTagged s |> <| nextCorrelationID := nextCorrelationID s |>.
Proof. by destruct s. Qed.

(** The message in flight is finished with: the state that remains. *)
Lemma finished_core s x i ws' delay :
  core_ok s [x] → held x = [i] →
  let s' := s <| deliveryInFlightBytes := 0 |> <| recoveryQueueBytes := bytes_of (recoveryQueue s) |> in
  (is_sender x = true → ws' = []) → (is_sender x = false → ws' = [DrainerWaiting]) →
  attended (s' <| activeSending := false |>) →
  core_ok (s' <| activeSending := false |> <| drainRetryDelay := delay |>) ws'.
Proof.
  intros [] Hx s' Hsd Hdr Hatt. unfold in_flight in *. cbn in *. rewrite Hx in *. cbn in *.
  apply Forall_cons in co_items0 as [_ Hi]. destruct co_workers0 as [Hse Hw].
  assert (Hws : ws' = [] ∨ ws' = [DrainerWaiting]) by (destruct (is_sender x); auto).
  assert (Hfl : in_flight ws' = []) by (by destruct Hws as [->| ->]).
  constructor; rewrite ?Hfl; try done.
  - eapply same_members_ok, co_as0. constructor; auto.
  - destruct (is_sender x) eqn:Hxs.
    + rewrite Hsd by done. done.
    + rewrite Hdr by done. done.
  - intros [Hq|[Hd|[? _]]]; [| |done].
    + apply co_retains0. auto.
    + apply co_retains0. auto.
  - intros Hc. destruct (co_gens0 Hc) as [Hq _]. done.
Qed.

(** The message in flight goes back to the head of the queue. *)
Lemma returned_core s x i i' gen :
  core_ok s [x] → held x = [i] → as_ok (s <| recoveryGen := gen |>) → closed s = false →
  retains s → recoveryExpiredGen s < qd_recoveryGen i' →
  qd_size i' = qd_size i → sls_of (qd_data i') = sls_of (qd_data i) →
  let s' := s <| activeSending := false |> <| deliveryInFlightBytes := 0 |>
              <| recoveryGen := gen |> <| recoveryQueue ::= cons i' |> <| draining := false |> in
  attended s' → core_ok s' [].
Proof.
  intros [] Hx Hok Hc Hret Hg Hsz Hsls s' Hatt. unfold in_flight in *. cbn in *.
  rewrite Hx in *. cbn in *. apply Forall_cons in co_items0 as [[Hi1 Hi2] Hi].
  constructor; try done; cbn.
  - eapply same_members_ok, Hok. constructor; auto.
  - by rewrite co_bytes0, Hsz.
  - apply Forall_cons. split; [|done]. split; [by rewrite Hsz|by rewrite Hsls].
  - intros _. destruct (co_gens0 Hc) as [Hq _]. split; [|done]. by apply Forall_cons.
Qed.

Lemma delay_eq s : s <| drainRetryDelay := drainRetryDelay s |> = s.
Proof. by destruct s. Qed.

Lemma flight_budget b others releases x i s :
  held x = [i] → budget_ok b others releases (in_flight [x] ++ recoveryQueue s) →
  budget_ok b others releases (i :: recoveryQueue s).
Proof. intros Hx. unfold in_flight. cbn. by rewrite Hx. Qed.

Lemma flight_items s x i :
  core_ok s [x] → held x = [i] →
  Forall item_ok (i :: recoveryQueue s) ∧ recoveryQueueBytes s = bytes_of (i :: recoveryQueue s).
Proof. intros [] Hx. unfold in_flight in *. cbn in *. by rewrite Hx in *. Qed.

(** Finishing the message in flight neither panics nor loses count. *)
Lemma finish_flight s b others releases x i :
  core_ok s [x] → held x = [i] → budget_ok b others releases (in_flight [x] ++ recoveryQueue s) →
  ∃ b', finishDeliveryItemLocked (qd_size i) s b =
    Ok (s <| deliveryInFlightBytes := 0 |> <| recoveryQueueBytes := bytes_of (recoveryQueue s) |>, b') ∧
    budget_ok b' others releases (recoveryQueue s).
Proof.
  intros Hcore Hx Hb. destruct (flight_items _ _ _ Hcore Hx) as [Hi Hby].
  apply finish_ok; [by eapply flight_budget|done..].
Qed.

(** A queue with the message that was in flight back at its head. *)
Definition returned (i : queuedData) (s s' : applicationServer) : Prop :=
  ∃ i', recoveryQueue s' = i' :: recoveryQueue s ∧ qd_ticket i' = qd_ticket i ∧
        qd_size i' = qd_size i.

Lemma not_active_attended s : state s ≠ ASActive → attended s.
Proof. intros H Ha. done. Qed.

Lemma resume_core i s b others releases :
  core_ok s [SenderWaiting i] → budget_ok b others releases (i :: recoveryQueue s) →
  match distribute_resume i s b with
  | Ok (Abandoned s' b' _) =>
      core_ok s' [] ∧ recoveryQueue s' = recoveryQueue s ∧ closed s = true ∧
      budget_ok b' others releases (recoveryQueue s')
  | Ok (Requeued s' drain) => core_ok s' (with_drainer drain []) ∧ returned i s s'
  | Ok Delivers => True
  | _ => False
  end.
Proof.
  intros Hcore Hb. unfold distribute_resume. destruct (closed s) eqn:Hc.
  - destruct (finish_flight s b others releases (SenderWaiting i) i Hcore eq_refl Hb)
      as (b' & -> & Hb'). cbn [mbind result_bind]. split_and!; try done.
    pose proof (finished_core s (SenderWaiting i) i [] (drainRetryDelay s) Hcore eq_refl
      ltac:(done) ltac:(done)) as Hf. apply Hf.
    apply not_active_attended. cbn. rewrite (ok_closed _ (co_as _ _ Hcore) Hc). done.
  - pose proof (co_workers _ _ Hcore) as [Hse Hdr]. cbn in Hse, Hdr.
    assert (Hret : retains s) by (apply (co_retains _ _ Hcore); auto).
    rewrite Hdr, orb_false_r.
    destruct (bool_decide (state s = ASPending) || _) eqn:Hq.
    + match goal with |- context [queuedDataRecoveryGenerationLocked ?x] => set (s0 := x) end.
      assert (Hok0 : as_ok s0).
      { eapply same_members_ok, (co_as _ _ Hcore). constructor; auto. }
      destruct (queuedDataRecoveryGenerationLocked s0) as [s1 gen] eqn:Hgen.
      apply generation_spec in Hgen as (Hg & -> & Hok1); [|done..].
      set (i' := fresh_item _ _ _ _ _).
      assert (Hok2 : as_ok (s <| drainRetry := true |> <| recoveryGen := gen |>))
        by (eapply same_members_ok, Hok1; constructor; auto).
      assert (Hok3 : as_ok (s <| recoveryGen := gen |>))
        by (eapply same_members_ok, Hok1; constructor; auto).
      change (draining (s0 <| recoveryGen := gen |> <| recoveryQueue ::= cons i' |>)) with (draining s).
      change (state (s0 <| recoveryGen := gen |> <| recoveryQueue ::= cons i' |>)) with (state s).
      rewrite Hdr. cbn [negb andb].
      destruct (bool_decide (state s = ASActive)) eqn:Ha; cbn [andb].
      * apply bool_decide_eq_true in Ha. split; [|by exists i'].
        apply (start_core _ []); try done.
        assert (Hc1 : core_ok (s <| drainRetry := true |>) [SenderWaiting i]).
        { destruct Hcore. constructor; try done; [|intros _ _; auto].
          eapply same_members_ok, co_as0. constructor; auto. }
        pose proof (returned_core _ _ i i' gen Hc1 eq_refl Hok2 Hc Hret Hg eq_refl eq_refl
          ltac:(intros _ _; auto)) as H.
        refine (eq_ind _ (λ y, core_ok y []) H _ _). clear -Hdr. destruct s; cbn in *; by subst.
      * apply bool_decide_eq_false in Ha. split; [|by exists i'].
        pose proof (returned_core _ _ i i' gen Hcore eq_refl Hok3 Hc Hret Hg eq_refl eq_refl
          ltac:(by apply not_active_attended)) as H.
        refine (eq_ind _ (λ y, core_ok y []) H _ _). clear -Hdr. destruct s; cbn in *; by subst.
    + apply orb_false_iff in Hq as [Hp _]. apply bool_decide_eq_false in Hp.
      destruct Hret as [Ha|?]; [|done]. rewrite bool_decide_eq_true_2 by done. done.
Qed.

Lemma set_retry_core s ws : core_ok s ws → core_ok (s <| drainRetry := true |>) ws.
Proof.
  intros []. constructor; try done; [|intros _ _; auto].
  eapply same_members_ok, co_as0. constructor; auto.
Qed.

(** The caller of [distribute] that has written its message. *)
Lemma distribute_finish_core x i s b others releases :
  core_ok s [x] → is_sender x = true → held x = [i] →
  budget_ok b others releases (i :: recoveryQueue s) →
  ∃ s' b' drain, distribute_finish i s b = Ok (s', b', drain) ∧
    core_ok s' (with_drainer drain []) ∧ recoveryQueue s' = recoveryQueue s ∧
    budget_ok b' others releases (recoveryQueue s').
Proof.
  intros Hcore Hsd Hx Hb. unfold distribute_finish.
  assert (Hb' : budget_ok b others releases (in_flight [x] ++ recoveryQueue s))
    by (unfold in_flight; cbn; by rewrite Hx).
  destruct (finish_flight s b others releases x i Hcore Hx Hb') as (b' & -> & Hbo).
  cbn [mbind result_bind].
  set (s1 := s <| deliveryInFlightBytes := 0 |> <| recoveryQueueBytes := bytes_of (recoveryQueue s) |>).
  assert (Hfin : ∀ d, attended (s1 <| activeSending := false |> <| drainRetry := d |>) →
    core_ok (s1 <| activeSending := false |> <| drainRetry := d |>) []).
  { intros d Hatt.
    assert (Hcd : core_ok (s <| drainRetry := true |>) [x]) by by apply set_retry_core.
    pose proof (finished_core _ x i [] (drainRetryDelay s) Hcd Hx ltac:(done) ltac:(by rewrite Hsd)
      ltac:(intros _ _; auto)) as H.
    destruct H. constructor; try done. eapply same_members_ok, co_as0. constructor; auto. }
  destruct (bool_decide _ && _ && _) eqn:Hd.
  - apply andb_true_iff in Hd as [[Ha%bool_decide_eq_true Hq]%andb_true_iff Hdr]. to_prop.
    eexists _, _, _. split; [done|]. split_and!; [|done..].
    apply (start_core _ []); try done.
    + apply (Hfin true). intros _ _; auto.
    + apply (retains_open s); [apply Hcore|by left].
  - eexists _, _, _. split; [done|]. split_and!; [|done..]. cbn [with_drainer].
    pose proof (Hfin (drainRetry s)) as H.
    refine (eq_ind _ (λ y, core_ok y []) (H _) _ _).
    + intros Ha Hq. cbn in *. rewrite bool_decide_eq_true_2 in Hd by done.
      rewrite (proj2 (len_pos _)) in Hd by done. cbn in Hd. to_prop. auto.
    + clear. by destruct s.
Qed.

(** The head of the drain loop. *)
Lemma drain_take_core s :
  core_ok s [DrainerWaiting] →
  match drain_take s with
  | Stops s' => core_ok s' [] ∧ recoveryQueue s' = recoveryQueue s
  | Takes i s' => core_ok s' [DrainerSelecting i] ∧ recoveryQueue s = i :: recoveryQueue s'
  end.
Proof.
  intros []. unfold drain_take. unfold in_flight in *. cbn in *. destruct co_workers0 as [Hse Hdr].
  assert (Hstop : ∀ d k, attended (s <| draining := false |> <| drainRetry := d |>) →
    core_ok (s <| draining := false |> <| drainRetry := d |> <| drainRetryDelay := k |>) []).
  { intros d k Hatt. constructor; try done.
    - eapply same_members_ok, co_as0. constructor; auto.
    - cbn. intros [Hq|[?|[? _]]]; [auto|done|congruence].
    - cbn. intros Hc. destruct (co_gens0 Hc) as [Hq _]. done. }
  destruct (bool_decide (state s = ASActive)) eqn:Ha; cbn [negb].
  - apply bool_decide_eq_true in Ha. destruct (recoveryQueue s) as [|i q] eqn:Hq.
    + split; [|done]. refine (eq_ind _ (λ y, core_ok y []) (Hstop false 0 _) _ _).
      * intros _ Hq'. cbn in Hq'. by rewrite Hq in Hq'.
      * clear. by destruct s.
    + split; [|done].
      assert (Hc : closed s = false) by (apply (retains_open s); [done|by left]).
      destruct (co_gens0 Hc) as [Hg _]. apply Forall_cons in Hg as [Hg1 Hg2].
      assert (Hd : draining s = true) by (destruct Hdr; congruence).
      constructor; try done; unfold in_flight; cbn.
      * eapply same_members_ok, co_as0. constructor; auto.
      * lia.
      * intros _. by left.
      * intros _. split; [done|]. intros _. repeat constructor. done.
      * intros _ _. auto.
  - apply bool_decide_eq_false in Ha. split; [|done].
    refine (eq_ind _ (λ y, core_ok y []) (Hstop (drainRetry s) (drainRetryDelay s) _) _ _).
    + by apply not_active_attended.
    + clear. by destruct s.
Qed.

Lemma drain_delivered_core x i s b others releases :
  core_ok s [x] → is_sender x = false → held x = [i] →
  budget_ok b others releases (i :: recoveryQueue s) →
  ∃ s' b', drain_delivered i s b = Ok (s', b') ∧ core_ok s' [DrainerWaiting] ∧
    recoveryQueue s' = recoveryQueue s ∧ budget_ok b' others releases (recoveryQueue s').
Proof.
  intros Hcore Hsd Hx Hb. unfold drain_delivered.
  assert (Hb' : budget_ok b others releases (in_flight [x] ++ recoveryQueue s))
    by (unfold in_flight; cbn; by rewrite Hx).
  destruct (finish_flight s b others releases x i Hcore Hx Hb') as (b' & -> & Hbo).
  cbn [mbind result_bind]. eexists _, _. split; [done|]. split_and!; [|done..].
  pose proof (co_workers _ _ Hcore) as [Hse Hdr]. rewrite Hsd in Hse, Hdr.
  refine (eq_ind _ (λ y, core_ok y [DrainerWaiting])
    (finished_core s x i [DrainerWaiting] 0 Hcore Hx ltac:(by rewrite Hsd) ltac:(done) _) _ _).
  - intros Ha Hq. destruct (co_attended _ _ Hcore Ha Hq) as [?|?]; [congruence|auto].
  - clear -Hse. destruct s; cbn in *; by subst.
Qed.

Lemma delay_core s ws k : core_ok s ws → core_ok (s <| drainRetryDelay := k |>) ws.
Proof.
  intros []. constructor; try done. eapply same_members_ok, co_as0. constructor; auto.
Qed.

(** Scheduling a retry leaves a retry scheduled. *)
Lemma schedule_eq s :
  closed s = false → state s = ASActive → activeSending s = false → recoveryQueue s ≠ [] →
  ∃ k, scheduleDrainRetryLocked s = s <| drainRetryDelay := k |> <| drainRetry := true |>.
Proof.
  intros Hc Ha Hs Hq. unfold scheduleDrainRetryLocked.
  rewrite Hc, Ha, Hs. rewrite bool_decide_eq_true_2 by done.
  assert (len (recoveryQueue s) ≠ 0) by (intros H%len_0_nil; done).
  rewrite (proj2 (Z.eqb_neq _ _)) by done. cbn [negb]. rewrite !orb_false_r.
  destruct (drainRetry s) eqn:Hr; [|by eexists].
  exists (drainRetryDelay s). clear -Hr. destruct s; cbn in *; by subst.
Qed.

(** A drain that could not deliver: unless the Application Server is closed,
    the message is retained. *)
Lemma drain_failed_core x i s b others releases :
  core_ok s [x] → is_sender x = false → held x = [i] →
  budget_ok b others releases (i :: recoveryQueue s) →
  ∃ s' b' restored, drain_failed i s b = Ok (s', b', restored) ∧ core_ok s' [] ∧
    if restored then returned i s s' ∧ b' = b
    else closed s = true ∧ recoveryQueue s' = recoveryQueue s ∧
         budget_ok b' others releases (recoveryQueue s').
Proof.
  intros Hcore Hsd Hx Hb. unfold drain_failed.
  pose proof (co_workers _ _ Hcore) as [Hse Hdr]. rewrite Hsd in Hse, Hdr.
  destruct (closed s) eqn:Hc; cbn [negb andb].
  - assert (Hb' : budget_ok b others releases (in_flight [x] ++ recoveryQueue s))
      by (unfold in_flight; cbn; by rewrite Hx).
    destruct (finish_flight s b others releases x i Hcore Hx Hb') as (b' & -> & Hbo).
    cbn [mbind result_bind]. eexists _, _, _. split; [done|]. split; [|done].
    pose proof (ok_closed _ (co_as _ _ Hcore) Hc) as Hst.
    destruct (flight_items _ _ _ Hcore Hx) as [[_ Hi]%Forall_cons _].
    destruct Hcore. constructor; try done.
    + eapply same_members_ok, co_as0. constructor; auto.
    + cbn. intros [Hq|[?|[_ ?]]]; [auto|done|congruence].
    + intros ?. cbn in *. congruence.
    + by apply not_active_attended; cbn; rewrite Hst.
  - destruct Hdr as [Hdr|?]; [|done].
    assert (Hret : retains s) by (apply (co_retains _ _ Hcore); auto).
    destruct (co_gens _ _ Hcore Hc) as [_ Hg]. specialize (Hg Hdr).
    unfold in_flight in Hg. cbn in Hg. rewrite Hx in Hg. apply Forall_cons in Hg as [Hg _].
    rewrite (proj2 (Z.ltb_lt _ _)) by done. rewrite andb_true_r.
    assert (Hres : bool_decide (state s = ASPending) || bool_decide (state s = ASActive) = true).
    { destruct Hret as [-> | ->]; done. }
    rewrite Hres. cbn [mbind result_bind andb negb].
    assert (Hok : as_ok (s <| recoveryGen := recoveryGen s |>)).
    { eapply same_members_ok, (co_as _ _ Hcore). constructor; auto. }
    destruct (bool_decide (state s = ASActive)) eqn:Ha.
    + apply bool_decide_eq_true in Ha. rewrite (bool_decide_eq_false_2 (state s = ASPending)) by congruence.
      set (s2 := s <| recoveryQueue ::= cons i |> <| deliveryInFlightBytes := 0 |> <| draining := false |>).
      destruct (schedule_eq s2) as [k Hk]; [done..|]. cbn. rewrite bool_decide_eq_true_2 by done.
      fold s2. rewrite Hk. eexists _, _, _. split; [done|]. split; [|by split; [exists i|]].
      assert (Hok' : as_ok (s <| drainRetry := true |> <| recoveryGen := recoveryGen s |>)).
      { eapply same_members_ok, Hok. constructor; auto. }
      pose proof (returned_core _ x i i (recoveryGen s) (set_retry_core _ _ Hcore) Hx Hok' Hc Hret
        Hg eq_refl eq_refl ltac:(intros _ _; auto)) as H.
      apply (delay_core _ _ k) in H. refine (eq_ind _ (λ y, core_ok y []) H _ _).
      clear -Hse. unfold s2. destruct s; cbn in *; by subst.
    + apply bool_decide_eq_false in Ha. destruct Hret as [?|Hp]; [done|].
      rewrite (bool_decide_eq_true_2 (state s = ASPending)) by done.
      rewrite bool_decide_eq_false_2 by (cbn; congruence).
      eexists _, _, _. split; [done|].
      split; [|by split; [exists (with_gen i (recoveryGen s))|]].
      pose proof (returned_core _ x i (with_gen i (recoveryGen s)) (recoveryGen s) Hcore Hx Hok Hc
        ltac:(by right) (ok_pending _ (co_as _ _ Hcore) Hp) eq_refl eq_refl
        ltac:(by apply not_active_attended)) as H.
      refine (eq_ind _ (λ y, core_ok y []) H _ _). clear -Hse. destruct s; cbn in *; by subst.
Qed.

(** The retry timer. *)
Lemma drain_retry_core s ws s' drain :
  core_ok s ws → drain_retry s = (s', drain) →
  core_ok s' (with_drainer drain ws) ∧ recoveryQueue s' = recoveryQueue s.
Proof.
  intros Hcore. unfold drain_retry.
  change (closed (s <| drainRetry := false |>)) with (closed s).
  change (state (s <| drainRetry := false |>)) with (state s).
  change (draining (s <| drainRetry := false |>)) with (draining s).
  change (activeSending (s <| drainRetry := false |>)) with (activeSending s).
  change (recoveryQueue (s <| drainRetry := false |>)) with (recoveryQueue s).
  destruct (closed s || _ || _ || _ || _) eqn:Hd; intros [<- <-]%pair_equal_spec; cbn [with_drainer].
  - split; [|done]. destruct Hcore. constructor; try done.
    + eapply same_members_ok, co_as0. constructor; auto.
    + intros Ha Hq. cbn in *. destruct (draining s); [auto|]. destruct (activeSending s); [auto|].
      rewrite bool_decide_eq_true_2 in Hd by done.
      assert (Hc : closed s = false) by (apply (retains_open s); [done|by left]).
      rewrite Hc, (proj2 (Z.eqb_neq _ _)) in Hd by (intros H%len_0_nil; done). done.
  - apply orb_false_iff in Hd as [[[[Hc Ha]%orb_false_iff Hdr]%orb_false_iff Hse]%orb_false_iff Hq].
    to_prop. apply bool_decide_eq_true in Ha. split; [|done].
    apply start_core; [by apply set_retry_core|done..].
Qed.
