(* ===== verification/DistributionTheory.v ===== *)
(** * Theorems on the distribution of traffic

    The code's workers, flags, counters and queue refine a single queue of
    accepted messages: a message joins at the tail, ends at the head, and only
    the expiry of T(r) or closing empties it; all of it as long as T(r) does not
    expire while a message is in flight.  The accounting never falls below zero on
    the way; a message is not written to an ASP after that ASP has been
    withdrawn, and reaches each ASP at most once. *)

From stdpp Require Import sorting.
From coqutil Require Import Datatypes.RecordSettersUsingExistingGetters.
From S2P Require Import Prelude Params ParamsFacts ParamValues PayloadData Nested Inventory MsgData.
From S2P Require Import AppServer AppServerInvariant AppServerTheory Distribution DistributionInvariant.
#[local] Open Scope Z_scope.

(** ** The abstract queue *)

(** The messages accepted so far are numbered; [q_fifo] are those still to
    end, [q_ended] those that have, and how. *)
Record fifo : Type := mkFifo {
  q_next : nat;
  q_fifo : list nat;
  q_ended : list (nat * ending);
}.

Inductive fifo_step : fifo → fifo → Prop :=
| fifo_stays q : fifo_step q q
| fifo_accepts n l e : fifo_step (mkFifo n l e) (mkFifo (S n) (l ++ [n]) e)
| fifo_ends n t l e how : fifo_step (mkFifo n (t :: l) e) (mkFifo n l (e ++ [(t, how)]))
| fifo_flushes n k l e : (length k ≤ 1)%nat →
    fifo_step (mkFifo n (k ++ l) e) (mkFifo n k (e ++ ((λ t, (t, Discarded)) <$> l))).

Definition ended_of (e : event) : option (nat * ending) :=
  match e with EvEnded t how => Some (t, how) | _ => None end.

Definition abs (w : world) : fifo :=
  mkFifo (w_ticket w) (qd_ticket <$> pipeline w) (omap ended_of (w_log w)).

(** The tickets of the messages that left at the head with an answer of their
    own, in the order they left. *)
Definition answered (l : list (nat * ending)) : list nat :=
  omap (λ e : nat * ending, if bool_decide (e.2 = Discarded) then None else Some e.1) l.

(** The invariant of the abstract queue: every accepted message has ended once
    or is still waiting, and those answered and those waiting are in the order
    of acceptance. *)
Definition fifo_ok (q : fifo) : Prop :=
  (q_ended q).*1 ++ q_fifo q ≡ₚ seq 0 (q_next q) ∧
  StronglySorted lt (answered (q_ended q) ++ q_fifo q).

Lemma answered_app l k : answered (l ++ k) = answered l ++ answered k.
Proof. apply omap_app. Qed.

Lemma answered_flush l : answered ((λ t : nat, (t, Discarded)) <$> l) = [].
Proof. induction l as [|t l IH]; [done|exact IH]. Qed.

Lemma answered_sub t e : t ∈ answered e → t ∈ e.*1.
Proof.
  unfold answered. rewrite list_elem_of_omap. intros ([t' how] & Hin & Ht).
  cbn in Ht. case_bool_decide; [done|]. injection Ht as ->.
  apply list_elem_of_fmap. by exists (t, how).
Qed.

Lemma StronglySorted_drop_mid l k : ∀ t : nat, StronglySorted lt (l ++ t :: k) → StronglySorted lt (l ++ k).
Proof.
  intros t. rewrite !StronglySorted_app. intros (H1 & H2 & H3). inversion H3; subst.
  split_and!; [|done..]. set_solver.
Qed.

Lemma fifo_step_ok q q' : fifo_step q q' → fifo_ok q → fifo_ok q'.
Proof.
  intros Hs. destruct Hs as [q|n l e|n t l e how|n k l e Hk]; unfold fifo_ok; cbn -[seq]; [done| | |].
  - intros [Hp Hs]. split.
    + replace (S n) with (n + 1)%nat by lia. by rewrite (assoc_L (++)), Hp, seq_app.
    + rewrite (assoc_L (++)). apply StronglySorted_app_2; [|done|repeat constructor].
      intros x y Hx ->%list_elem_of_singleton.
      assert (Hin : x ∈ seq 0 n).
      { rewrite <-Hp. apply elem_of_app in Hx as [Hx%answered_sub|Hx]; set_solver. }
      apply elem_of_seq in Hin. lia.
  - intros [Hp Hs]. split; [by rewrite fmap_app, <-(assoc_L (++))|].
    rewrite answered_app. unfold answered at 2. cbn. case_bool_decide.
    + rewrite app_nil_r. by eapply StronglySorted_drop_mid.
    + by rewrite <-(assoc_L (++)).
  - intros [Hp Hs]. split.
    + rewrite fmap_app, <-list_fmap_compose, list_fmap_id, <-Hp. solve_Permutation.
    + rewrite answered_app, answered_flush, app_nil_r. rewrite (assoc_L (++)) in Hs.
      by apply StronglySorted_app_1_l in Hs.
Qed.

(** ** The writes of one attempt keep the message *)

Lemma sls_of_set_CorrelationID d id : sls_of (set_CorrelationID d id) = sls_of d.
Proof.
  unfold sls_of, set_CorrelationID. cbn. unfold Data.SetLength. cbn.
  destruct (Data.ProtocolData d) as [p|]; [|done]. unfold set_length. cbn.
  unfold get_ProtocolData. by rewrite Tag_SetLength, Data_SetLength.
Qed.

(** Items that differ in what an attempt may change. *)
Record same_item (i i' : queuedData) : Prop := {
  si_ticket : qd_ticket i' = qd_ticket i;
  si_flow : qd_flow i' = qd_flow i;
  si_size : qd_size i' = qd_size i;
  si_gen : qd_recoveryGen i' = qd_recoveryGen i;
  si_sls : sls_of (qd_data i') = sls_of (qd_data i);
}.

Lemma targetsLocked_safe sls s : safe (targetsLocked sls s).
Proof.
  unfold targetsLocked. destruct (active s) as [|c l] eqn:Ha; [done|]. repeat case_match; try done.
  pose proof (len_nonneg l). assert (0 < len (c :: l)) by (rewrite len_cons; lia).
  apply lookup_ge_None in H2. unfold len in *.
  pose proof (Z.mod_pos_bound sls (Z.of_nat (length (c :: l)))). lia.
Qed.

Lemma selectTargets_ok sls i s :
  match selectTargets sls i s with
  | Ok (s', a) => same_item i (at_item a) ∧
      ∃ corr, s' = s <| broadcastTagged := broadcastTagged s |> <| nextCorrelationID := corr |>
  | Err _ => True
  | _ => False
  end.
Proof.
  unfold selectTargets. destruct (qd_broadcastTargetsSet i).
  { split; [done|]. eexists. apply markers_eq. }
  pose proof (targetsLocked_safe sls s) as Hsafe.
  destruct (targetsLocked sls s) as [targets|e| |]; cbn [mbind result_bind]; try done.
  destruct (needs_marker s (qd_flow i)).
  - unfold allocateCorrelationIDLocked. split.
    + constructor; try done. cbn -[set_CorrelationID]. apply sls_of_set_CorrelationID.
    + eexists. by destruct s.
  - split; [done|]. eexists. apply markers_eq.
Qed.

Lemma commitAttempt_eq a s :
  ∃ tags, commitAttempt a s = s <| broadcastTagged := tags |> <| nextCorrelationID := nextCorrelationID s |>.
Proof.
  unfold commitAttempt, commitMarker.
  destruct (_ && _); [|exists (broadcastTagged s); apply markers_eq].
  destruct (negb _); [exists (broadcastTagged s); apply markers_eq|].
  match goal with |- ∃ _, ?x = _ => exists (broadcastTagged x) end. by destruct s.
Qed.

Lemma attempted_same a : same_item (at_item a) (attempted a).
Proof. done. Qed.

(** ** One step *)

(** Conclusion of every case: no panic, the invariant, a step of the queue. *)
Definition stepped (w : world) (r : result () world) : Prop :=
  match r with
  | Ok w' => delivery_ok w' ∧ fifo_step (abs w) (abs w')
  | Err _ => True
  | _ => False
  end.

#[local] Arguments stepped : simpl never.

Lemma lone_worker w n x :
  delivery_ok w → w_workers w !! n = Some x → n = 0%nat ∧ w_workers w = [x].
Proof.
  intros [Hc _ _ _] Hx. pose proof (co_workers _ _ Hc) as Hw.
  destruct (w_workers w) as [|y [|]]; cbn in Hw; [done| |done].
  destruct n; [|done]. by injection Hx as ->.
Qed.

Lemma limits_drop policy i l :
  limits_ok policy (i :: l) → item_ok i → limits_ok policy l.
Proof.
  intros [Hm Hb] [Hs _]. rewrite len_cons in Hm. cbn in Hb. split; lia.
Qed.

Lemma limits_same policy l k :
  limits_ok policy l → len k = len l → bytes_of k = bytes_of l → limits_ok policy k.
Proof. intros [Hm Hb] H1 H2. split; lia. Qed.

(** The state with its markers changed. *)
Definition remarked tags corr (s : applicationServer) : applicationServer :=
  s <| broadcastTagged := tags |> <| nextCorrelationID := corr |>.

Definition marked_from (s s' : applicationServer) : Prop := ∃ tags corr, s' = remarked tags corr s.
Definition quiet_from (log log' : list event) : Prop :=
  ∃ news, log' = log ++ news ∧ omap ended_of news = [].

Lemma marked_refl s : marked_from s s.
Proof. eexists _, _. apply markers_eq. Qed.

Lemma unheard_refl log : quiet_from log log.
Proof. exists []. by rewrite app_nil_r. Qed.

Lemma quiet_mark log a s s' : quiet_from log (log ++ mark_events a s s').
Proof. eexists. split; [done|]. unfold mark_events. by destruct (_ && _). Qed.

Lemma quiet_sent log a target ok : quiet_from log (log ++ [sent_event a target ok]).
Proof. by eexists. Qed.

Lemma marked_commit a s : marked_from s (commitAttempt a s).
Proof. destruct (commitAttempt_eq a s) as [tags ->]. by eexists _, _. Qed.

(** What the world looks like while one worker [x] holds [i]. *)
Section lone.
Context (s : applicationServer) (b : recoveryBudget) (policy : distributionPolicy)
  (others : list Z) (x : worker) (releases : list (Z * Z)) (log : list event) (ticket : nat).
Let w := mkWorld s b policy others [x] releases log ticket.
Context (Hok : delivery_ok w).

Lemma lone_pipeline i : held x = [i] → pipeline w = i :: recoveryQueue s.
Proof. intros Hx. unfold pipeline, in_flight, w. cbn. by rewrite Hx. Qed.

Lemma lone_item i : held x = [i] → item_ok i.
Proof.
  intros Hx. destruct (flight_items _ _ _ (do_core _ Hok) Hx) as [Hi _].
  by apply Forall_cons in Hi as [? _].
Qed.

Lemma lone_budget i : held x = [i] → budget_ok b others releases (i :: recoveryQueue s).
Proof. intros Hx. pose proof (do_budget _ Hok) as H. rewrite (lone_pipeline i Hx) in H. exact H. Qed.

Lemma lone_limits i : held x = [i] → limits_ok policy (i :: recoveryQueue s).
Proof. intros Hx. pose proof (do_limits _ Hok) as H. rewrite (lone_pipeline i Hx) in H. exact H. Qed.

(** The worker moves on with its message. *)
Lemma lone_moves x' i i' s' log' :
  held x = [i] → held x' = [i'] → is_sender x' = is_sender x → same_item i i' →
  marked_from s s' → quiet_from log log' →
  stepped w (Ok (mkWorld s' b policy others [x'] releases log' ticket)).
Proof.
  intros Hx Hx' Hsd [] (tags & corr & ->) (news & -> & Hn). split.
  - constructor; try apply Hok.
    + by apply (swap_core s x x' i i' tags corr (do_core _ Hok)).
    + eapply budget_ok_items; [exact (lone_budget i Hx)|..]; unfold pipeline, in_flight;
        cbn; rewrite Hx'; cbn; [by rewrite !len_cons|by rewrite si_size0].
    + eapply limits_same; [exact (lone_limits i Hx)|..]; unfold pipeline, in_flight;
        cbn; rewrite Hx'; cbn; [by rewrite !len_cons|by rewrite si_size0].
  - unfold abs, w. cbn. rewrite omap_app, Hn. unfold pipeline, in_flight. cbn.
    rewrite Hx, Hx'. cbn. rewrite si_ticket0, app_nil_r. constructor.
Qed.

(** The message of the worker ends. *)
Lemma lone_ends s' b' ws' i how :
  held x = [i] → core_ok s' ws' → in_flight ws' = [] → recoveryQueue s' = recoveryQueue s →
  budget_ok b' others releases (recoveryQueue s') →
  stepped w (Ok (mkWorld s' b' policy others ws' releases (log ++ [EvEnded (qd_ticket i) how]) ticket)).
Proof.
  intros Hx Hc Hw Hq Hb. split.
  - assert (Hp : pipeline (mkWorld s' b' policy others ws' releases
      (log ++ [EvEnded (qd_ticket i) how]) ticket) = recoveryQueue s')
      by (unfold pipeline; cbn [w_workers w_as]; by rewrite Hw).
    constructor; rewrite ?Hp; [done|done|apply Hok|]. rewrite Hq. eapply limits_drop; [by apply lone_limits|by apply lone_item].
  - unfold abs, w, pipeline, in_flight in *. cbn. rewrite Hx, Hw, Hq, omap_app. constructor.
Qed.

(** The message of the worker goes back to the head of the queue. *)
Lemma lone_returns s' ws' i :
  held x = [i] → core_ok s' ws' → in_flight ws' = [] → returned i s s' →
  stepped w (Ok (mkWorld s' b policy others ws' releases log ticket)).
Proof.
  intros Hx Hc Hw (i' & Hq & Ht & Hs). split.
  - assert (Hp : pipeline (mkWorld s' b policy others ws' releases log ticket) = recoveryQueue s')
      by (unfold pipeline; cbn [w_workers w_as]; by rewrite Hw).
    constructor; rewrite ?Hp, ?Hq; [done| |apply Hok|].
    + eapply budget_ok_items; [exact (lone_budget i Hx)|by rewrite !len_cons|cbn; by rewrite Hs].
    + eapply limits_same; [exact (lone_limits i Hx)|by rewrite !len_cons|cbn; by rewrite Hs].
  - unfold abs, w, pipeline, in_flight in *. cbn. rewrite Hx, Hw, Hq. cbn. rewrite Ht. constructor.
Qed.

End lone.

Lemma holding_sound s ws x i :
  core_ok s ws → ws = [x] → held x = [i] → ∃ sls, sls_of (qd_data i) = Some sls.
Proof.
  intros Hc -> Hx. destruct (flight_items _ _ _ Hc Hx) as [Hi _]. apply Forall_cons in Hi as [[_ Hi] _].
  destruct (sls_of (qd_data i)) as [sls|]; [by exists sls|done].
Qed.

Ltac moves Hok :=
  eapply (lone_moves _ _ _ _ _ _ _ _ Hok);
  [reflexivity|reflexivity|done|done || apply attempted_same
  |apply marked_refl || apply marked_commit || done
  |apply unheard_refl || apply quiet_sent || apply quiet_mark].

Lemma selecting_moves s b policy others x mk fin releases log ticket i sls :
  (x = SenderSelecting i ∧ mk = SenderWriting ∧ fin = SenderFinishing (unselected i) false ∨
   x = DrainerSelecting i ∧ mk = DrainerWriting ∧ fin = DrainerFinishing (unselected i) false) →
  delivery_ok (mkWorld s b policy others [x] releases log ticket) →
  stepped (mkWorld s b policy others [x] releases log ticket)
    match selectTargets sls i s with
    | Ok (s', a) => Ok (mkWorld s' b policy others [mk a] releases log ticket)
    | Err _ => Ok (mkWorld s b policy others [fin] releases log ticket)
    | Panic => Panic
    | OutOfFuel => OutOfFuel
    end.
Proof.
  intros Hx Hok. pose proof (selectTargets_ok sls i s) as Hsel.
  destruct (selectTargets sls i s) as [[s' a]|e| |]; try done.
  - destruct Hsel as [Hi Hs]. assert (marked_from s s') by (eexists; exact Hs).
    destruct Hx as [(-> & -> & _)|(-> & -> & _)]; moves Hok.
  - destruct Hx as [(-> & _ & ->)|(-> & _ & ->)]; moves Hok.
Qed.

(** A drain that has the delivery mutex takes the head of the queue, or stops. *)
Lemma drainer_waiting_ok s b policy others releases log ticket :
  delivery_ok (mkWorld s b policy others [DrainerWaiting] releases log ticket) →
  stepped (mkWorld s b policy others [DrainerWaiting] releases log ticket)
    match drain_take s with
    | Stops s' => Ok (mkWorld s' b policy others [] releases log ticket)
    | Takes i s' => Ok (mkWorld s' b policy others [DrainerSelecting i] releases log ticket)
    end.
Proof.
  intros Hok. pose proof (drain_take_core s (do_core _ Hok)) as Ht. destruct Hok as [_ Hb Hp Hl].
  destruct (drain_take s) as [s'|i s']; destruct Ht as [Hc Hq]; split;
    try (constructor; try done; unfold pipeline, in_flight in *; cbn in *; by rewrite <-Hq || by rewrite Hq).
  - unfold abs, pipeline, in_flight. cbn. rewrite Hq. constructor.
  - unfold abs, pipeline, in_flight. cbn. rewrite Hq. constructor.
Qed.

(** A drain that has written its message. *)
Lemma drainer_finishing_ok s b policy others releases log ticket i d :
  let w := mkWorld s b policy others [DrainerFinishing i d] releases log ticket in
  delivery_ok w → stepped w (work_step 0 (DrainerFinishing i d) true w).
Proof.
  intros w Hok. pose proof (do_core _ Hok) as Hc.
  pose proof (lone_budget _ _ _ _ _ _ _ _ Hok i eq_refl) as Hb.
  destruct d; unfold w; cbn -[drain_delivered drain_failed].
  - destruct (drain_delivered_core _ i s b others releases Hc eq_refl eq_refl Hb)
      as (s' & b' & -> & Hc' & Hq & Hb'). cbn.
    by apply (lone_ends s b policy others (DrainerFinishing i true)).
  - destruct (drain_failed_core _ i s b others releases Hc eq_refl eq_refl Hb)
      as (s' & b' & restored & -> & Hc' & Hr). cbn. destruct restored.
    + destruct Hr as [Hr ->]. cbn. rewrite app_nil_r.
      by eapply (lone_returns s b policy others (DrainerFinishing i false)).
    + destruct Hr as (_ & Hq & Hb').
      by apply (lone_ends s b policy others (DrainerFinishing i false)).
Qed.

Lemma work_ok n x ok w :
  delivery_ok w → w_workers w !! n = Some x → stepped w (work_step n x ok w).
Proof.
  intros Hok Hx. destruct (lone_worker w n x Hok Hx) as [-> Hws].
  destruct w as [s b policy others ws releases log ticket]. cbn in Hws. subst ws.
  pose proof (do_core _ Hok) as Hc. cbn in Hc.
  destruct x as [i|i|a|i d| |i|a|i d].
  - pose proof (resume_core i s b others releases Hc
      (lone_budget _ _ _ _ _ _ _ _ Hok i eq_refl)) as Hr. cbn.
    destruct (distribute_resume i s b) as [[s' b' e|s' drain|]|[]| |]; try done; cbn.
    + destruct Hr as (Hc' & Hq & _ & Hb). by apply (lone_ends s b policy others (SenderWaiting i)).
    + destruct Hr as (Hc' & Hret). eapply (lone_returns s b policy others (SenderWaiting i)); try done.
      by destruct drain.
    + moves Hok.
  - cbn -[selectTargets]. destruct (sls_of (qd_data i)) as [sls|]; [|done].
    pose proof (selecting_moves s b policy others (SenderSelecting i) SenderWriting
      (SenderFinishing (unselected i) false) releases log ticket i sls ltac:(auto) Hok) as H.
    destruct (selectTargets sls i s) as [[s' a]|e| |]; exact H.
  - cbn -[commitAttempt]. destruct (at_rest a) as [|target rest];
      moves Hok.
  - destruct (distribute_finish_core (SenderFinishing i d) i s b others releases Hc eq_refl eq_refl
      (lone_budget _ _ _ _ _ _ _ _ Hok i eq_refl)) as (s' & b' & drain & He & Hc' & Hq & Hb).
    cbn -[distribute_finish]. rewrite He. cbn.
    eapply (lone_ends s b policy others (SenderFinishing i d)); try done.
    by destruct drain.
  - pose proof (drainer_waiting_ok s b policy others releases log ticket Hok) as H. cbn -[drain_take].
    destruct (drain_take s) as [s'|i s']; exact H.
  - cbn -[selectTargets].
    destruct (holding_sound s _ (DrainerSelecting i) i Hc eq_refl eq_refl) as [sls Hs]. rewrite Hs.
    pose proof (selecting_moves s b policy others (DrainerSelecting i) DrainerWriting
      (DrainerFinishing (unselected i) false) releases log ticket i sls ltac:(auto) Hok) as H.
    destruct (selectTargets sls i s) as [[s' a]|e| |]; exact H.
  - cbn -[commitAttempt]. destruct (at_rest a) as [|target rest];
      moves Hok.
  - pose proof (drainer_finishing_ok s b policy others releases log ticket i d Hok) as H.
    destruct d; exact H.
Qed.

(** *** The other steps *)

Lemma in_flight_with_drainer drain ws : in_flight (with_drainer drain ws) = in_flight ws.
Proof. destruct drain; [|done]. unfold in_flight. cbn. rewrite bind_app. by rewrite app_nil_r. Qed.

Lemma in_flight_short s ws : core_ok s ws → (length (in_flight ws) ≤ 1)%nat.
Proof. intros H%flight_len. unfold len in H. destruct (0 <? _); lia. Qed.

Lemma ended_notified l : omap ended_of (EvNotified <$> l) = [].
Proof. by induction l. Qed.

Lemma ended_discarded (l : list queuedData) :
  omap ended_of ((λ i, EvEnded (qd_ticket i) Discarded) <$> l) =
  (λ t, (t, Discarded)) <$> (qd_ticket <$> l).
Proof. induction l as [|i l IH]; [done|]. cbn. f_equal. exact IH. Qed.

Lemma discards_kept s s' : same_queue s s' → discards s s' = [].
Proof.
  intros (Hl & _). unfold discards. rewrite Hl.
  destruct (0 <? len (recoveryQueue s)) eqn:H1, (len (recoveryQueue s) =? 0) eqn:H2; try done.
  to_prop. lia.
Qed.

Lemma discards_flushed s s' :
  recoveryQueue s' = [] →
  omap ended_of (discards s s') = (λ t, (t, Discarded)) <$> (qd_ticket <$> recoveryQueue s).
Proof.
  intros Hq. unfold discards. rewrite Hq. cbn. destruct (recoveryQueue s) as [|i q] eqn:Hs; [done|].
  rewrite (proj2 (len_pos _)) by done. apply ended_discarded.
Qed.

Lemma op_ok peers op w :
  delivery_ok w → timely (LOp peers op) w → stepped w (Ok (op_step peers op w)).
Proof.
  intros Hok Ht. pose proof (do_core _ Hok) as Hcore.
  destruct (as_step_core peers op (w_as w) (w_workers w) Hcore) as [Hc Hcase].
  { intros gen -> Hx. by apply Ht. }
  destruct w as [s b policy others ws releases log ticket].
  cbn [w_as w_workers] in *. set (eff := as_step peers op s) in *.
  change (stepped (mkWorld s b policy others ws releases log ticket)
    (Ok (mkWorld (e_state eff) b policy others (with_drainer (e_drain eff) ws)
      (if bool_decide (e_release eff = (0, 0)) then releases else releases ++ [e_release eff])
      (log ++ discards s (e_state eff) ++ (EvNotified <$> e_sent eff)) ticket))).
  destruct Hok as [_ Hb Hp Hl]. cbn [w_as w_workers w_budget w_policy w_others w_releases] in *.
  unfold pipeline in Hb, Hl. cbn [w_as w_workers] in Hb, Hl.
  assert (Hpl : ∀ a b c d e f g, pipeline (mkWorld (e_state eff) a b c (with_drainer d ws) e f g) =
    in_flight ws ++ recoveryQueue (e_state eff)).
  { intros. unfold pipeline. cbn [w_as w_workers]. by rewrite in_flight_with_drainer. }
  destruct Hcase as [[Hr (Hql & Hqb & Hqt)]|(Hd & Hq & Hr)].
  - rewrite (discards_kept s (e_state eff)) by done. rewrite Hr. rewrite bool_decide_eq_true_2 by done. split.
    + constructor; cbn [w_as w_workers w_budget w_policy w_others w_releases]; rewrite ?Hpl; try done.
      * eapply budget_ok_items; [exact Hb|by rewrite !len_app, Hql|by rewrite !bytes_of_app, Hqb].
      * eapply limits_same; [exact Hl|by rewrite !len_app, Hql|by rewrite !bytes_of_app, Hqb].
    + unfold abs. rewrite Hpl. cbn -[pipeline]. unfold pipeline. cbn [w_as w_workers].
      rewrite omap_app, ended_notified, app_nil_r, !fmap_app, Hqt. constructor.
  - rewrite Hr. split.
    + constructor; cbn [w_as w_workers w_budget w_policy w_others w_releases]; rewrite ?Hpl, ?Hq, ?app_nil_r; try done.
      * destruct Hb as (H1 & H2 & H3 & H4). rewrite bytes_of_app in H2. rewrite len_app in H1.
        pose proof (len_nonneg (recoveryQueue s)).
        case_bool_decide as H0.
        -- apply pair_equal_spec in H0 as [E1 E2]. split_and!; try done; lia.
        -- unfold budget_ok. rewrite !fmap_app, !sum_Z_app. cbn [fmap list_fmap sum_Z fst snd].
           split_and!; try done; [lia..|].
           apply Forall_app. split; [done|]. repeat constructor; cbn; try done.
           ++ apply bytes_of_nonneg. pose proof (co_items _ _ Hcore) as Hi.
              by apply Forall_app in Hi as [_ ?].
           ++ intros ->%len_0_nil. done.
      * destruct Hl as [H1 H2]. rewrite len_app in H1. rewrite bytes_of_app in H2.
        pose proof (co_items _ _ Hcore) as Hi. apply Forall_app in Hi as [_ Hi].
        apply bytes_of_nonneg in Hi. pose proof (len_nonneg (recoveryQueue s)). split; lia.
    + unfold abs. rewrite Hpl. cbn -[pipeline]. unfold pipeline. cbn [w_as w_workers].
      rewrite Hq, app_nil_r, !omap_app, ended_notified, app_nil_r, discards_flushed, fmap_app by done.
      apply fifo_flushes. rewrite length_fmap. by eapply in_flight_short.
Qed.

Lemma distribute_ok data flow sz w :
  delivery_ok w → 0 < sz → sls_of data ≠ None →
  stepped w (Ok (distribute_step data flow sz w)).
Proof.
  intros Hok Hsz Hsls. pose proof (admit_core (w_policy w) data flow sz (w_ticket w) (w_as w)
    (w_budget w) (w_workers w) (do_core _ Hok) Hsz Hsls (do_policy _ Hok) (do_limits _ Hok)) as Ha.
  unfold distribute_step.
  destruct (distribute_admit _ _ _ _ _ _ _) as [e|s' b' drain|s' b'];
    [by split; [|constructor]|..];
    destruct w as [s b policy others ws releases log ticket];
    cbn [w_as w_workers w_budget w_policy w_ticket] in *.
  - destruct Ha as (Hc & Hcl & (i & Hq & Ht & Hs) & Hl).
    change (stepped (mkWorld s b policy others ws releases log ticket)
      (Ok (mkWorld s' b' policy others (with_drainer drain ws) releases log (S ticket)))).
    destruct Hok as [_ Hb Hp _].
    assert (Hpl : pipeline (mkWorld s' b' policy others (with_drainer drain ws) releases log (S ticket))
      = in_flight ws ++ recoveryQueue s').
    { unfold pipeline. cbn [w_as w_workers]. by rewrite in_flight_with_drainer. }
    split.
    + constructor; rewrite ?Hpl; cbn [w_as w_workers w_budget w_policy w_others w_releases]; try done.
      eapply claim_ok; [exact Hcl|exact Hb|..]; unfold pipeline; cbn [w_as w_workers];
        rewrite Hq, (assoc_L (++)).
      * by rewrite len_app.
      * rewrite bytes_of_app. cbn. lia.
    + unfold abs. rewrite Hpl, Hq. unfold pipeline. cbn [w_as w_workers w_log w_ticket].
      rewrite (assoc_L (++)), (fmap_app _ _ [i]). cbn. rewrite Ht. constructor.
  - destruct Ha as (-> & Hq & Hq' & Hc & Hcl & Hsz').
    set (i := fresh_item data flow sz 0 ticket) in *.
    change (stepped (mkWorld s b policy others [] releases log ticket)
      (Ok (mkWorld s' b' policy others [SenderWaiting i] releases log (S ticket)))).
    destruct Hok as [_ Hb Hp _]. unfold pipeline, in_flight in *. cbn in *. rewrite Hq in Hb.
    split.
    + constructor; unfold pipeline, in_flight; cbn; rewrite ?Hq'; try done.
      * eapply claim_ok; [exact Hcl|exact Hb|done|cbn; lia].
      * split; [exact Hp|cbn; lia].
    + unfold abs, pipeline, in_flight. cbn. rewrite Hq, Hq'. apply (fifo_accepts ticket []).
Qed.

Lemma retry_ok w :
  delivery_ok w → stepped w (step LRetry w).
Proof.
  intros Hok. destruct w as [s b policy others ws releases log ticket]. cbn -[drain_retry].
  destruct (drain_retry s) as [s' drain] eqn:He.
  destruct (drain_retry_core s ws s' drain (do_core _ Hok) He) as [Hc Hq].
  change (stepped (mkWorld s b policy others ws releases log ticket)
    (Ok (mkWorld s' b policy others (with_drainer drain ws) releases log ticket))).
  destruct Hok as [_ Hb Hp Hl].
  assert (Hpl : pipeline (mkWorld s' b policy others (with_drainer drain ws) releases log ticket)
    = pipeline (mkWorld s b policy others ws releases log ticket)).
  { unfold pipeline. cbn [w_as w_workers]. by rewrite in_flight_with_drainer, Hq. }
  split; [by constructor; rewrite ?Hpl|]. unfold abs. rewrite Hpl. constructor.
Qed.

(** The steps that only concern the budget. *)
Lemma budget_step w b' others' releases' :
  delivery_ok w → budget_ok b' others' releases' (pipeline w) →
  stepped w (Ok (mkWorld (w_as w) b' (w_policy w) others' (w_workers w) releases' (w_log w) (w_ticket w))).
Proof. intros [Hc _ Hp Hl] Hb. split; [by constructor|constructor]. Qed.

Lemma giving_back b others releases items messages bytes :
  budget_ok b others releases items → 0 ≤ bytes_of items → 
  0 ≤ messages ≤ len others + sum_Z releases.*1 → 0 ≤ bytes ≤ sum_Z others + sum_Z releases.*2 →
  (messages = 0 → bytes = 0) →
  ∃ b', release_budget b messages bytes = Ok b' ∧
    b_messages b' = b_messages b - messages ∧ b_bytes b' = b_bytes b - bytes.
Proof.
  intros (H1 & H2 & _ & _) Hi Hm Hb Hz. pose proof (len_nonneg items). apply release_ok; [lia..|done].
Qed.

Lemma pipeline_bytes w : delivery_ok w → 0 ≤ bytes_of (pipeline w).
Proof. intros [Hc _ _ _]. apply bytes_of_nonneg, (co_items _ _ Hc). Qed.

Lemma release_step w : delivery_ok w → stepped w (step LRelease w).
Proof.
  intros Hok. cbn -[release_budget]. destruct (w_releases w) as [|[m by_] rest] eqn:Hr; [done|].
  pose proof (do_budget _ Hok) as Hb. rewrite Hr in Hb.
  pose proof (budget_parts _ _ _ _ Hb) as (Ho1 & Ho2 & _ & _).
  pose proof Hb as (Hbm & Hbb & Hbo & Hbr). apply Forall_cons in Hbr as [(Hm & Hbz & Hz) Hrest].
  cbn [fst snd] in *.
  assert (Hpos : 0 ≤ sum_Z rest.*1 ∧ 0 ≤ sum_Z rest.*2).
  { split; apply sum_Z_nonneg, Forall_fmap; (eapply Forall_impl; [exact Hrest|]); intros r; cbn; lia. }
  destruct (giving_back _ _ _ _ m by_ Hb (pipeline_bytes w Hok)) as (b' & He & Hm' & Hb');
    [cbn; lia|cbn; lia|done|].
  rewrite He. cbn [mbind result_bind].
  pose proof (budget_step w b' (w_others w) rest Hok) as H.
  destruct w as [s b policy others ws releases log ticket]. apply H.
  rewrite fmap_cons in Hbm, Hbb. cbn [fst snd sum_Z w_budget w_others] in *.
  split_and!; try done; lia.
Qed.

Lemma claim_step size w : delivery_ok w → stepped w (step (LClaim size) w).
Proof.
  intros Hok. cbn -[claim]. destruct (size <=? 0) eqn:Hs; [done|]. to_prop.
  destruct (claim (w_budget w) size) as [b'|] eqn:Hcl; [|done].
  pose proof (budget_step w b' (size :: w_others w) (w_releases w) Hok) as H.
  pose proof (do_budget _ Hok) as (H1 & H2 & H3 & H4).
  destruct w as [s b policy others ws releases log ticket]. apply H.
  unfold claim in Hcl. destruct (_ || _); [done|]. injection Hcl as <-.
  cbn [w_budget w_others w_releases b_messages b_bytes] in *.
  split_and!; [cbn [b_messages]; rewrite len_cons; lia|cbn [b_bytes sum_Z]; lia|by constructor|done].
Qed.

Lemma sum_Z_delete n l x : l !! n = Some x → sum_Z l = x + sum_Z (delete n l).
Proof.
  intros H. rewrite <-(take_drop_middle l n x) at 1 by done. rewrite delete_take_drop, !sum_Z_app.
  cbn [sum_Z]. lia.
Qed.

Lemma len_delete {A} n (l : list A) x : l !! n = Some x → len l = 1 + len (delete n l).
Proof.
  intros H. unfold len. rewrite length_delete by by eexists. apply lookup_lt_Some in H. lia.
Qed.

Lemma unclaim_step size w : delivery_ok w → stepped w (step (LUnclaim size) w).
Proof.
  intros Hok. cbn -[release_budget]. destruct (list_find _ (w_others w)) as [[n y]|] eqn:Hf; [|done].
  apply list_find_Some in Hf as (Hn & -> & _).
  pose proof (do_budget _ Hok) as Hb. pose proof (budget_parts _ _ _ _ Hb) as (_ & _ & Hr1 & Hr2).
  pose proof (sum_Z_delete _ _ _ Hn) as Hsum. pose proof (len_delete _ _ _ Hn) as Hlen.
  pose proof Hb as (Hbm & Hbb & Hbo & Hbr).
  assert (Ho : Forall (λ x, 0 < x) (delete n (w_others w))) by by apply Forall_delete.
  assert (Hsz : 0 < size) by by eapply Forall_lookup_1 in Hbo.
  assert (0 ≤ sum_Z (delete n (w_others w))).
  { apply sum_Z_nonneg. eapply Forall_impl; [exact Ho|]. cbn. lia. }
  pose proof (len_nonneg (delete n (w_others w))).
  destruct (giving_back _ _ _ _ 1 size Hb (pipeline_bytes w Hok)) as (b' & He & Hm' & Hb');
    [lia|lia|done|].
  rewrite He. cbn [mbind result_bind].
  pose proof (budget_step w b' (delete n (w_others w)) (w_releases w) Hok) as H'.
  destruct w as [s b policy others ws releases log ticket]. apply H'.
  cbn [w_budget w_others w_releases] in *. split_and!; try done; lia.
Qed.

(** Every step keeps the accounting exact and is a step of the queue. *)
Lemma step_ok l w : delivery_ok w → timely l w → stepped w (step l w).
Proof.
  intros Hok Ht. destruct l as [peers op|data flow sz|n ok| | |size|size].
  - by apply op_ok.
  - cbn. destruct (sz <=? 0) eqn:Hsz; [done|]. to_prop. case_bool_decide; [done|]. cbn.
    by apply distribute_ok.
  - cbn -[work_step]. destruct (w_workers w !! n) as [x|] eqn:Hx; [|done]. by apply work_ok.
  - by apply retry_ok.
  - by apply release_step.
  - by apply claim_step.
  - by apply unclaim_step.
Qed.

(** ** Runs *)

Definition initial (k : ASKey) (activation : ASActivationPolicy) (flowLimit : Z)
    (b : recoveryBudget) (policy : distributionPolicy) : world :=
  mkWorld (newApplicationServer k activation flowLimit) b policy [] [] [] [] 0.

(** A new Application Server, with a budget nobody has claimed from yet. *)
Inductive started : world → Prop :=
| starts k activation flowLimit messages bytes policy :
    0 ≤ RequiredActiveASPs activation → 1 ≤ messageLimit policy → 0 ≤ byteLimit policy →
    started (initial k activation flowLimit (mkBudget messages bytes 0 0) policy).

Definition evolves (w w' : world) : Prop := ∃ l, timely l w ∧ step l w = Ok w'.
Definition reachable (w : world) : Prop := ∃ w0, started w0 ∧ rtc evolves w0 w.

Lemma started_ok w : started w → delivery_ok w.
Proof.
  intros Hs. destruct Hs as [k act fl m b policy Ha Hm Hb]. constructor; [|done|done|].
  - constructor; [by constructor|done..| |done|done]. intros [?|[?|[? _]]]; done.
  - split; cbn in *; [change (len _) with 0|]; lia.
Qed.

Lemma evolves_ok w w' : delivery_ok w → evolves w w' → delivery_ok w' ∧ fifo_step (abs w) (abs w').
Proof. intros Hok (l & Ht & Hs). pose proof (step_ok l w Hok Ht) as H. by rewrite Hs in H. Qed.

Lemma run_ok w w' :
  rtc evolves w w' → delivery_ok w → delivery_ok w' ∧ rtc fifo_step (abs w) (abs w').
Proof.
  induction 1 as [w|w w1 w2 H1 _ IH]; intros Hok; [by split|].
  destruct (evolves_ok _ _ Hok H1) as [Hok1 Hs]. destruct (IH Hok1) as [Hok2 Hs2].
  split; [done|]. by eapply rtc_l.
Qed.

Lemma reachable_delivery w : reachable w → delivery_ok w.
Proof. intros (w0 & Hs & Hr). by eapply run_ok, started_ok. Qed.

Lemma started_abs w : started w → abs w = mkFifo 0 [] [].
Proof. by destruct 1. Qed.

Lemma reachable_fifo w : reachable w → rtc fifo_step (mkFifo 0 [] []) (abs w).
Proof.
  intros (w0 & Hs & Hr). rewrite <-(started_abs w0 Hs). by eapply run_ok, started_ok.
Qed.

(** C21: The accounting of retained traffic is exact, and never panics.  As long
    as T(r) does not expire while a message is in flight, the bytes an
    Application Server counts are those of the message in flight and of the
    queue, within the configured limits; the shared budget is the sum of what
    every Application Server holds and of what is still to be given back; and
    no step underflows a counter. *)
Theorem accounting_exact w :
  reachable w →
  recoveryQueueBytes (w_as w) = bytes_of (pipeline w) ∧
  deliveryInFlightBytes (w_as w) = bytes_of (in_flight (w_workers w)) ∧
  len (pipeline w) ≤ messageLimit (w_policy w) ∧
  recoveryQueueBytes (w_as w) ≤ byteLimit (w_policy w) ∧
  b_messages (w_budget w) = len (w_others w) + sum_Z (w_releases w).*1 + len (pipeline w) ∧
  b_bytes (w_budget w) = sum_Z (w_others w) + sum_Z (w_releases w).*2 + recoveryQueueBytes (w_as w) ∧
  ∀ l, timely l w → step l w ≠ Panic.
Proof.
  intros Hr. pose proof (reachable_delivery w Hr) as Hok. pose proof Hok as [Hc (Hm & Hb & _) _ [Hl1 Hl2]].
  rewrite (co_bytes _ _ Hc). split_and!; try done; [apply Hc|].
  intros l Ht Hp. pose proof (step_ok l w Hok Ht) as H. by rewrite Hp in H.
Qed.

(** C2: As long as T(r) does not expire while a message is in flight ([timely],
    which [reachable] asks of every earlier step too; [untimely_expiry_panics] shows
    what such an expiry does), the distribution refines a queue. Every step of the
    workers, of the callers, of the timers and of the operations on the ASPs is, on
    the accepted messages that have not ended, one step of a FIFO: a message joins
    at the tail, the head ends, nothing changes, or everything that waits is
    discarded at once. *)
Theorem distribution_refines_fifo l w w' :
  reachable w → timely l w → step l w = Ok w' → fifo_step (abs w) (abs w').
Proof. intros Hr Ht Hs. by apply (evolves_ok w w' (reachable_delivery w Hr)); exists l. Qed.

(** C34: As long as T(r) does not expire while a message is in flight, no accepted
    message is lost, duplicated or overtaken. At any time each accepted message
    either has ended, once, or waits in the pipeline; and the messages that were
    answered, followed by those waiting, are in the order of acceptance. *)
Theorem messages_conserved w :
  reachable w →
  (omap ended_of (w_log w)).*1 ++ (qd_ticket <$> pipeline w) ≡ₚ seq 0 (w_ticket w) ∧
  StronglySorted lt (answered (omap ended_of (w_log w)) ++ (qd_ticket <$> pipeline w)).
Proof.
  intros Hr%reachable_fifo. change (fifo_ok (abs w)).
  eapply (rtc_ind_r (λ q, fifo_ok q)); [| |exact Hr]; [by split; constructor|].
  intros q q' _ Hs IH. by eapply fifo_step_ok.
Qed.

(** ** Draining

    Left alone, and while the Associations accept what they are given, a drain
    delivers the whole queue. *)







Section draining.
Context (policy : distributionPolicy) (others : list Z) (releases : list (Z * Z)) (ticket : nat).






End draining.



(** ** Concrete runs *)

Definition no_expiry (l : label) : bool :=
  match l with LOp _ (RecoveryExpired _) => false | _ => true end.

Lemma run_app ls ks w : run (ls ++ ks) w = w' ← run ls w; run ks w'.
Proof.
  unfold run. revert w. induction ls as [|l ls IH]; intros w; [done|]. cbn.
  destruct (step l w); cbn; [apply IH|done..].
Qed.

Lemma run_evolves ls w w' :
  Forall (λ l, ∀ w, timely l w) ls → run ls w = Ok w' → rtc evolves w w'.
Proof.
  intros Hl. revert w. induction Hl as [|l ls Hl _ IH]; intros w; cbn.
  - intros [= ->]. constructor.
  - destruct (step l w) as [w1|e| |] eqn:Hs; cbn; try done. intros Hr.
    eapply rtc_l; [by exists l|by apply IH].
Qed.

Lemma run_reachable ls w w' :
  started w → forallb no_expiry ls = true → run ls w = Ok w' → reachable w'.
Proof.
  intros Hs Hf Hr. exists w. split; [done|]. eapply run_evolves, Hr.
  rewrite forallb_forall in Hf. apply Forall_forall. intros l Hin w1.
  apply list_elem_of_In, Hf in Hin. by destruct l as [? []| | | | | |].
Qed.

Module Concrete.
Definition server : ASKey := mkASKey 0 false 1 true.
Definition policy : distributionPolicy := mkDistributionPolicy 1024 4194304 4096 255.
Definition start : world :=
  initial server (mkActivationPolicy 0 false) 4096 (mkBudget 4096 16777216 0 0) policy.

Lemma start_started : started start.
Proof. by constructor. Qed.

(** A DATA message with the given signalling link selection. *)
Definition data (sls : Z) : Data.Data :=
  Data.NewData None (Some (NewRoutingContext [1]))
    (Some (NewProtocolData (mkPayload 1 2 3 2 0 sls [Byte.x01]))) None.
Definition flow : broadcastFlowKey := mkFlow 0 false 1 1 2 3 2 0 "".

Definition activate (c : association) : label := LOp ∅ (RecordASPState c StateASPActive false).
Definition deactivate (c : association) : label := LOp ∅ (MarkASPsInactive [c]).
Definition send (sls size : Z) : label := LDistribute (data sls) flow size.
Definition work (n : nat) : list label := replicate n (LWork 0 true).

(** Two messages are accepted, the ASP deactivates, and the sender queues its
    message again. *)
Definition waiting_labels : list label :=
  [activate 1; send 0 40; send 1 41; deactivate 1] ++ work 1.

Definition after (ls : list label) : world := match run ls start with Ok w => w | _ => start end.

Lemma after_run ls : match run ls start with Ok _ => true | _ => false end = true →
  run ls start = Ok (after ls).
Proof. unfold after. by destruct (run ls start). Qed.

Lemma waiting_reachable : reachable (after waiting_labels).
Proof.
  eapply run_reachable; [exact start_started| |apply after_run]; by vm_compute.
Qed.

Example waiting_queue : qd_ticket <$> recoveryQueue (w_as (after waiting_labels)) = [0; 1]%nat.
Proof. by vm_compute. Qed.

Lemma accounting_exact_witness :
  reachable (after waiting_labels) ∧
  recoveryQueueBytes (w_as (after waiting_labels)) = bytes_of (pipeline (after waiting_labels)) ∧
  recoveryQueueBytes (w_as (after waiting_labels)) = 81.
Proof.
  split; [exact waiting_reachable|]. split; [|by vm_compute].
  exact (proj1 (accounting_exact _ waiting_reachable)).
Defined.

Lemma distribution_refines_fifo_witness :
  abs (after waiting_labels) = mkFifo 2 [0; 1]%nat [] ∧
  fifo_step (abs (after waiting_labels)) (abs (after (waiting_labels ++ [activate 1]))).
Proof.
  split; [by vm_compute|].
  apply (distribution_refines_fifo (activate 1)); [exact waiting_reachable|done|].
  by vm_compute.
Defined.

Lemma messages_conserved_witness :
  StronglySorted lt (answered (omap ended_of (w_log (after waiting_labels))) ++
    (qd_ticket <$> pipeline (after waiting_labels))).
Proof. exact (proj2 (messages_conserved _ waiting_reachable)). Defined.




(** ** T(r) may expire while a message is in flight

    A drain is writing when the last ASP deactivates and T(r) expires, which
    clears [draining] and counts the message in flight only.  The ASP
    activates again and another caller sends: its message overwrites the bytes
    in flight, and the old drain then clears them.  Closing forgets the bytes
    of the sender's message, whose end takes the count below zero. *)
Definition untimely_labels : list label :=
  [activate 1; send 0 40; send 1 41] ++ work 7 ++
  [deactivate 1; LOp ∅ (RecoveryExpired 2); activate 1; send 2 42] ++ work 4 ++
  [LWork 1 true; LOp ∅ Close; LWork 1 true; LWork 1 true].

(** C38: the accounting is exact only while T(r) does not expire under a message
    in flight: this run of a new Application Server ends in the panic of
    [finishDeliveryItemLocked]. *)
Lemma untimely_expiry_panics : started start ∧ run untimely_labels start = Panic.
Proof. split; [exact start_started|]. by vm_compute. Qed.

(** A message accepted behind a blocked write after T(r) has expired, while the state
    is AS-INACTIVE, is not newer than the expiry.  Once the Application Server
    is active again, one failing write ends it, and the message behind it is
    left in the queue with neither a drain nor a retry timer. *)
Definition stranded_labels : list label :=
  [activate 1; send 0 40] ++ work 2 ++
  [deactivate 1; LOp ∅ (RecoveryExpired 1); send 1 41; send 2 42; activate 1] ++ work 5 ++
  [LWork 0 false] ++ work 2.

Lemma late_message_stranded :
  started start ∧
  match run stranded_labels start with
  | Ok w => omap ended_of (w_log w) = [(0, Delivered); (1, Discarded)]%nat ∧
      state (w_as w) = ASActive ∧ qd_ticket <$> recoveryQueue (w_as w) = [2]%nat ∧
      w_workers w = [] ∧ drainRetry (w_as w) = false
  | _ => False
  end.
Proof. split; [exact start_started|]. vm_compute. split_and!; reflexivity. Qed.
End Concrete.
