(* ===== verification/DeliveryTheory.v ===== *)
(** * Theorems on the copies of a message

    Which Associations the copies of a DATA message are written to: each gets
    at most one copy it accepted, across retries and retention; none is written
    to once it has been withdrawn and the delivery mutex has been free; and a
    Broadcast copy without a Correlation Id is only sent in a flow whose marker
    every target accepted.  All of it as long as T(r) does not expire while a
    message is in flight. *)

From coqutil Require Import Datatypes.RecordSettersUsingExistingGetters.
From S2P Require Import Prelude Params ParamsFacts ParamValues PayloadData Nested Inventory MsgData.
From S2P Require Import AppServer AppServerInvariant AppServerTheory Distribution.
From S2P Require Import DistributionInvariant DistributionTheory.
#[local] Open Scope Z_scope.

(** ** Copies *)

(** The Associations that accepted a copy of message [t], in order. *)
Definition copy_of (t : nat) (e : event) : option association :=
  match e with
  | EvSent t' c _ _ _ _ true => if bool_decide (t' = t) then Some c else None
  | _ => None
  end.
Definition copies (log : list event) (t : nat) : list association := omap (copy_of t) log.
#[local] Arguments copies : simpl never.

Definition is_sent (e : event) : bool :=
  match e with EvSent _ _ _ _ _ _ _ => true | _ => false end.

(** The flow has its marker for the epoch, or needs none. *)
Definition marked_in (log : list event) (flow : broadcastFlowKey) (epoch : Z) : Prop :=
  epoch ≠ 0 → ∃ t, EvMarked t flow epoch ∈ log.

(** Every Broadcast copy that carries no Correlation Id comes after the record
    that its flow has its marker. *)
Definition markers_first (log : list event) : Prop :=
  ∀ before after t c flow epoch ok,
    log = before ++ EvSent t c flow epoch true false ok :: after → marked_in before flow epoch.

Lemma copies_app l k t : copies (l ++ k) t = copies l t ++ copies k t.
Proof. apply omap_app. Qed.

Lemma copies_quiet l t : forallb (λ e, negb (is_sent e)) l = true → copies l t = [].
Proof.
  induction l as [|e l IH]; [done|]. cbn. intros [He Hl]%andb_true_iff.
  destruct e; try done; by apply IH.
Qed.

Lemma marked_in_app l k flow epoch : marked_in l flow epoch → marked_in (l ++ k) flow epoch.
Proof. intros H He. destruct (H He) as [t Ht]. exists t. set_solver. Qed.

(** ** The invariant *)

Record item_sound (log : list event) (i : queuedData) : Prop := {
  is_once : if qd_broadcastTargetsSet i
            then NoDup (qd_broadcastTargets i ++ copies log (qd_ticket i))
            else copies log (qd_ticket i) = [];
  is_marked : qd_broadcastTargetsSet i = true → qd_broadcastMarker i = false →
    marked_in log (qd_flow i) (qd_broadcastEpoch i);
}.

Record attempt_sound (log : list event) (a : attempt) : Prop := {
  at_once : NoDup (at_failed a ++ at_rest a ++ copies log (qd_ticket (at_item a)));
  at_single : at_broadcast a = false →
    (length (at_failed a ++ at_rest a ++ copies log (qd_ticket (at_item a))) ≤ 1)%nat;
  at_marked : at_broadcast a = true → qd_broadcastMarker (at_item a) = false →
    marked_in log (qd_flow (at_item a)) (qd_broadcastEpoch (at_item a));
}.

Definition worker_sound (log : list event) (x : worker) : Prop :=
  match x with
  | SenderWaiting i => copies log (qd_ticket i) = [] ∧ qd_broadcastTargetsSet i = false
  | SenderSelecting i | DrainerSelecting i => item_sound log i
  | SenderWriting a | DrainerWriting a => attempt_sound log a
  | SenderFinishing i d | DrainerFinishing i d => d = false → item_sound log i
  | DrainerWaiting => True
  end.

(** The markers an Application Server remembers have been recorded. *)
Definition tags_sound (log : list event) (s : applicationServer) : Prop :=
  ∀ flow epoch, broadcastTagged s !! flow = Some epoch → marked_in log flow epoch.

(** The ASPs traffic goes to are members that are active, each once. *)
Definition active_sound (s : applicationServer) : Prop :=
  NoDup (active s) ∧ active s ⊆ members is_active s.

Record sound (w : world) : Prop := {
  so_workers : Forall (worker_sound (w_log w)) (w_workers w);
  so_queue : Forall (item_sound (w_log w)) (recoveryQueue (w_as w));
  so_new : ∀ t, (w_ticket w ≤ t)%nat → copies (w_log w) t = [];
  so_all : ∀ t, NoDup (copies (w_log w) t);
  so_first : markers_first (w_log w);
  so_tags : tags_sound (w_log w) (w_as w);
  so_active : active_sound (w_as w);
}.

(** ** Growing logs *)

Lemma item_grow log news i :
  item_sound log i → copies news (qd_ticket i) = [] → item_sound (log ++ news) i.
Proof.
  intros [] Hn. constructor.
  - by rewrite copies_app, Hn, app_nil_r.
  - intros Hs Hm. by apply marked_in_app, is_marked0.
Qed.

Lemma attempt_grow log news a :
  attempt_sound log a → copies news (qd_ticket (at_item a)) = [] → attempt_sound (log ++ news) a.
Proof.
  intros [] Hn. constructor; rewrite ?copies_app, ?Hn, ?app_nil_r; try done.
  intros Hb Hm. by apply marked_in_app, at_marked0.
Qed.

Lemma worker_grow log news x :
  worker_sound log x → (∀ t, copies news t = []) → worker_sound (log ++ news) x.
Proof.
  intros Hx Hn. destruct x; cbn in *; auto using item_grow, attempt_grow.
  destruct Hx as [Hx ?]. by rewrite copies_app, Hx, Hn.
Qed.

Lemma tags_grow log news s : tags_sound log s → tags_sound (log ++ news) s.
Proof. intros H flow epoch Ht. by apply marked_in_app, H. Qed.

Lemma first_quiet log news :
  markers_first log → forallb (λ e, negb (is_sent e)) news = true → markers_first (log ++ news).
Proof.
  intros Hl Hn before after t c flow epoch ok Heq.
  apply app_eq_inv in Heq as [(k & -> & Hk)|(k & -> & Hk)].
  - destruct k as [|e k].
    + rewrite app_nil_r in *. cbn in Hk. subst news. discriminate Hn.
    + injection Hk as <- Hk. by eapply Hl.
  - rewrite Hk, forallb_app in Hn. apply andb_true_iff in Hn as [_ Hn]. discriminate Hn.
Qed.

Lemma first_sent log t c flow epoch br marked ok :
  markers_first log → (br = true → marked = false → marked_in log flow epoch) →
  markers_first (log ++ [EvSent t c flow epoch br marked ok]).
Proof.
  intros Hl Hn before after t' c' flow' epoch' ok' Heq.
  destruct after as [|e after _] using rev_ind.
  - apply app_inj_tail in Heq as [-> [= -> -> -> -> -> -> ->]]. by apply Hn.
  - rewrite app_comm_cons, (assoc_L (++)) in Heq. apply app_inj_tail in Heq as [-> _].
    by eapply Hl.
Qed.

(** ** One attempt *)

Lemma item_sound_restamp log g i : item_sound log i → item_sound log (restamp g i).
Proof. intros []. by constructor. Qed.

Lemma item_sound_with_gen log g i : item_sound log i → item_sound log (with_gen i g).
Proof. intros []. by constructor. Qed.

Lemma fresh_sound log data flow sz gen t : copies log t = [] → item_sound log (fresh_item data flow sz gen t).
Proof. by constructor. Qed.

Lemma targets_sound sls s targets :
  active_sound s → targetsLocked sls s = Ok targets →
  NoDup targets ∧ targets ⊆ members is_active s ∧
  ((trafficMode s =? TrafficModeBroadcast) = false → (length targets ≤ 1)%nat).
Proof.
  intros [Hn Hs]. unfold targetsLocked. destruct (active s) as [|c l] eqn:Ha; [done|].
  destruct (trafficMode s =? TrafficModeBroadcast); [by intros [= <-]|].
  assert (Hone : ∀ x, x ∈ c :: l → NoDup [x] ∧ [x] ⊆ members is_active s ∧ (false = false → (length [x] ≤ 1)%nat)).
  { intros x Hx. split_and!; [apply NoDup_singleton|set_solver|done]. }
  destruct (_ =? TrafficModeOverride); [intros [= <-]; apply Hone; set_solver|].
  destruct (_ || _); [|done]. destruct (_ !! _) as [x|] eqn:Hx; [|done].
  intros [= <-]. by apply list_elem_of_lookup_2, Hone in Hx.
Qed.

Lemma retry_active s targets : retryTargets s targets ⊆ members is_active s.
Proof.
  intros c Hc. apply list_elem_of_filter in Hc as [Hc _]. by apply elem_of_active.
Qed.

Lemma select_sound log sls i s s' a :
  item_sound log i → active_sound s → tags_sound log s → selectTargets sls i s = Ok (s', a) →
  attempt_sound log a ∧ at_rest a ⊆ members is_active s.
Proof.
  intros [Honce Hmark] Hact Htags. unfold selectTargets.
  destruct (qd_broadcastTargetsSet i) eqn:Hset.
  - intros [= <- <-]. split; [|apply retry_active].
    constructor; cbn; [|done|by intros _; apply Hmark].
    apply NoDup_app in Honce as (H1 & H2 & H3). apply NoDup_app. split_and!; try done.
    + by apply NoDup_filter.
    + intros c [_ Hc]%list_elem_of_filter. by apply H2.
  - destruct (targetsLocked sls s) as [targets|e| |] eqn:Ht; cbn [mbind result_bind]; try done.
    destruct (targets_sound _ _ _ Hact Ht) as (Hn & Hsub & Hone).
    assert (Hcopies : ∀ item, qd_ticket item = qd_ticket i →
      ((trafficMode s =? TrafficModeBroadcast) = true → qd_broadcastMarker item = false →
        marked_in log (qd_flow item) (qd_broadcastEpoch item)) →
      attempt_sound log (mkAttempt item (trafficMode s =? TrafficModeBroadcast) targets [] 0)).
    { intros item Htk Hm. by constructor; cbn; rewrite ?Htk, ?Honce, ?app_nil_r. }
    destruct (needs_marker s (qd_flow i)) eqn:Hnm.
    + intros [= <- <-]. split; [by apply Hcopies|done].
    + intros [= <- <-]. split; [|done]. apply Hcopies; [done|]. cbn. intros Hb _ Hz.
      unfold needs_marker in Hnm. rewrite Hb in Hnm. rewrite (proj2 (Z.eqb_neq _ _)) in Hnm by done.
      cbn in Hnm. apply negb_false_iff, Z.eqb_eq in Hnm.
      destruct (broadcastTagged s !! qd_flow i) as [e|] eqn:He; cbn in Hnm; [|congruence].
      subst e. by apply (Htags _ _ He).
Qed.

Lemma write_sound log a c rest ok :
  attempt_sound log a → at_rest a = c :: rest →
  attempt_sound (log ++ [sent_event a c ok]) (writeTarget c ok a).
Proof.
  intros [Honce Hone Hmark] Hr. rewrite Hr in *.
  assert (Hcs : copies (log ++ [sent_event a c ok]) (qd_ticket (at_item a)) =
    copies log (qd_ticket (at_item a)) ++ if ok then [c] else []).
  { rewrite copies_app. unfold copies at 2. cbn. destruct ok; [|done]. by rewrite bool_decide_eq_true_2. }
  assert (Hperm : (if ok then at_failed a else at_failed a ++ [c]) ++ rest ++
      copies log (qd_ticket (at_item a)) ++ (if ok then [c] else []) ≡ₚ
    at_failed a ++ (c :: rest) ++ copies log (qd_ticket (at_item a))).
  { destruct ok; rewrite ?app_nil_r; solve_Permutation. }
  constructor; unfold writeTarget; cbn [at_item at_failed at_rest at_broadcast];
    rewrite ?Hr; cbn [tail]; rewrite ?Hcs.
  - by rewrite Hperm.
  - intros Hb. rewrite Hperm. by apply Hone.
  - intros Hb Hm. by apply marked_in_app, Hmark.
Qed.

Lemma attempted_sound log a :
  attempt_sound log a → at_rest a = [] → at_failed a ≠ [] → item_sound log (attempted a).
Proof.
  intros [Honce Hone Hmark] Hr Hf. rewrite Hr in *. constructor; cbn; [|done].
  destruct (at_broadcast a); [done|]. specialize (Hone eq_refl). cbn in Hone.
  destruct (at_failed a); [done|]. cbn in Hone. rewrite length_app in Hone.
  destruct (copies _ _); [done|cbn in Hone; lia].
Qed.

Lemma mark_quiet a s s' : forallb (λ e, negb (is_sent e)) (mark_events a s s') = true.
Proof. unfold mark_events. by destruct (_ && _). Qed.

Lemma commit_sound log a s :
  tags_sound log s → tags_sound (log ++ mark_events a s (commitAttempt a s)) (commitAttempt a s).
Proof.
  intros Ht. unfold mark_events, commitAttempt, commitMarker.
  destruct (qd_broadcastMarker (at_item a) && _); cbn [andb]; [|by apply tags_grow].
  destruct (broadcastEpoch s =? qd_broadcastEpoch (at_item a)) eqn:He; cbn [negb];
    [|by apply tags_grow].
  intros flow epoch. cbn. rewrite lookup_insert_Some. intros [[<- <-]|[_ H]].
  - intros _. exists (qd_ticket (at_item a)). apply elem_of_app. right. by apply list_elem_of_singleton.
  - apply marked_in_app, Ht. destruct (_ && _); [by rewrite lookup_empty in H|done].
Qed.

(** ** Operations on the ASPs *)

Definition queue_from (s s' : applicationServer) : Prop :=
  recoveryQueue s' = recoveryQueue s ∨ recoveryQueue s' = [] ∨
  ∃ g, recoveryQueue s' = map (restamp g) (recoveryQueue s).

Record kept (s s' : applicationServer) : Prop := {
  kp_tags : tags_kept s s';
  kp_queue : queue_from s s';
}.

Lemma quiet_kept s s' : quiet s s' → kept s s'.
Proof. intros []. split; [done|]. by left. Qed.

Lemma recomputed_kept s s1 s' : reassigned s s1 → recomputed s1 s' → kept s s'.
Proof.
  intros [] []. split.
  - unfold tags_kept in *. by rewrite rc_tagged, rc_epoch.
  - unfold queue_from. rewrite rc_queue, ra_queue. destruct (pends s1); eauto.
Qed.

Lemma drained_kept s s2 s' drain : kept s s2 → drained s2 s' drain → kept s s'.
Proof. intros [H1 H2] [_ ->]. destruct drain; split; assumption. Qed.

Lemma kept_refl s : kept s s.
Proof. split; by left. Qed.

Lemma as_step_kept peers op s : kept s (e_state (as_step peers op s)).
Proof.
  destruct (as_step_shape peers op s) as
    [? s' sent Hq _|? s1 s2 s' ai n drain Hc Hra Hrc Hdr|? s1 s' ai tg n Hc Hra Hsub Hrc
    |? s' drain Hc Hdr|gen s' n release He|s' release He].
  - by apply quiet_kept.
  - eapply drained_kept, Hdr. eapply recomputed_kept; [done|]. by eapply recomputeLocked_recomputed.
  - eapply recomputed_kept; [done|]. by eapply recomputeLockedFor_recomputed.
  - eapply drained_kept, Hdr. apply kept_refl.
  - apply recoveryExpired_eq in He. destruct (expires gen s).
    + destruct He as [_ (ns & k & w & ->)]. split; [by left|by right; left].
    + destruct He as (-> & _). apply kept_refl.
  - apply close_eq in He. destruct (closed s); [destruct He as [-> _]; apply kept_refl|].
    destruct He as [_ ->]. split; [by left|by right; left].
Qed.

Lemma active_sound_open s : as_ok s → closed s = false → active_sound s.
Proof.
  intros Hok Hc. pose proof (ok_active _ Hok Hc) as Hp. split.
  - rewrite Hp. apply NoDup_members.
  - by rewrite Hp.
Qed.

Lemma active_sound_members s s' : 
  asps s' = asps s → active s' = active s ∨ active s' ≡ₚ members is_active s →
  active_sound s → active_sound s'.
Proof.
  intros Ha Hm [Hn Hs]. unfold active_sound. rewrite (members_ext _ s' s Ha).
  destruct Hm as [->|Hp]; [done|]. split; rewrite Hp; [apply NoDup_members|done].
Qed.

(** A closed Application Server has no ASP, unless its ordering is refreshed,
    which rebuilds it from the members. *)
Lemma as_step_active peers op s :
  as_ok s → active_sound s → active_sound (e_state (as_step peers op s)).
Proof.
  intros Hok Hact. pose proof (as_step_ok peers op s Hok) as Hok'.
  destruct (closed (e_state (as_step peers op s))) eqn:Hc'; [|by apply active_sound_open].
  revert Hok' Hc'. destruct (as_step_shape peers op s) as
    [? s' sent Hq _|? s1 s2 s' ai n drain Hc Hra Hrc Hdr|? s1 s' ai tg n Hc Hra Hsub Hrc
    |? s' drain Hc Hdr|gen s' n release He|s' release He]; cbn; intros Hok' Hc'.
  - eapply active_sound_members; [apply Hq|apply Hq|done].
  - apply recomputeLocked_recomputed in Hrc. destruct Hdr as [_ ->], Hra, Hrc.
    destruct drain; cbn in Hc'; congruence.
  - apply recomputeLockedFor_recomputed in Hrc. destruct Hra, Hrc. congruence.
  - destruct Hdr as [_ ->]. destruct drain; cbn in Hc'; congruence.
  - apply recoveryExpired_eq in He. destruct (expires gen s).
    + destruct He as [_ (ns & k & w & ->)]. exact Hact.
    + by destruct He as (-> & _).
  - apply close_eq in He. destruct (closed s); [by destruct He as [-> _]|].
    destruct He as [_ ->]. split; [constructor|]. intros c Hc. by apply not_elem_of_nil in Hc.
Qed.

(** ** The traffic's own sections leave the ASPs and the markers alone *)

Record calm (s s' : applicationServer) : Prop := {
  cm_asps : asps s' = asps s;
  cm_active : active s' = active s;
  cm_tagged : broadcastTagged s' = broadcastTagged s;
}.

Lemma calm_active s s' : calm s s' → active_sound s → active_sound s'.
Proof. intros []. apply active_sound_members; auto. Qed.

Lemma calm_tags log s s' : calm s s' → tags_sound log s → tags_sound log s'.
Proof. intros [] H flow epoch. rewrite cm_tagged0. apply H. Qed.

Lemma finish_calm sz s b s' b' :
  finishDeliveryItemLocked sz s b = Ok (s', b') → calm s s' ∧ recoveryQueue s' = recoveryQueue s.
Proof.
  unfold finishDeliveryItemLocked. destruct (_ <? 0); [done|].
  destruct (release_budget b 1 sz); cbn [mbind result_bind]; [|done..].
  intros [= <- <-]. split; [by constructor|done].
Qed.

Lemma generation_calm s s' gen :
  queuedDataRecoveryGenerationLocked s = (s', gen) →
  calm s s' ∧ recoveryQueue s' = recoveryQueue s ∧ state s' = state s ∧ draining s' = draining s.
Proof.
  unfold queuedDataRecoveryGenerationLocked.
  destruct (_ && _); intros [<- <-]%pair_equal_spec; by split; [constructor|].
Qed.

Lemma resume_calm i s b :
  match distribute_resume i s b with
  | Ok (Abandoned s' _ _) => calm s s' ∧ recoveryQueue s' = recoveryQueue s
  | Ok (Requeued s' _) => calm s s' ∧ ∃ gen, recoveryQueue s' =
      fresh_item (qd_data i) (qd_flow i) (qd_size i) gen (qd_ticket i) :: recoveryQueue s
  | _ => True
  end.
Proof.
  assert (Hfin : ∀ e, match (s' ← finishDeliveryItemLocked (qd_size i) s b;
      let '(s', b') := s' in Ok (Abandoned (s' <| activeSending := false |>) b' e)) with
    | Ok (Abandoned s' _ _) => calm s s' ∧ recoveryQueue s' = recoveryQueue s
    | Ok _ => False | _ => True end).
  { intros e. destruct (finishDeliveryItemLocked _ s b) as [[s' b']|[]| |] eqn:He; try done.
    apply finish_calm in He as [[] Hq]. by split; [constructor|]. }
  unfold distribute_resume. destruct (closed s).
  { specialize (Hfin ErrAssociationClosed). destruct (finishDeliveryItemLocked _ s b) as [[s' b']|[]| |]; done. }
  destruct (_ || _).
  - match goal with |- context [queuedDataRecoveryGenerationLocked ?x] => set (s0 := x) end.
    destruct (queuedDataRecoveryGenerationLocked s0) as [s1 gen] eqn:Hg.
    apply generation_calm in Hg as ([] & Hq & _).
    destruct (_ && _); (split; [by constructor|]); exists gen; cbn; by rewrite Hq.
  - destruct (negb _); [|done].
    specialize (Hfin ErrNoActiveASP). destruct (finishDeliveryItemLocked _ s b) as [[s' b']|[]| |]; done.
Qed.

Lemma distribute_finish_calm i s b s' b' drain :
  distribute_finish i s b = Ok (s', b', drain) → calm s s' ∧ recoveryQueue s' = recoveryQueue s.
Proof.
  unfold distribute_finish. destruct (finishDeliveryItemLocked _ s b) as [[s1 b1]|[]| |] eqn:He; try done.
  apply finish_calm in He as [[] Hq]. cbn [mbind result_bind].
  destruct (_ && _); intros [= <- <- <-]; by split; [constructor|].
Qed.

Lemma drain_take_calm s :
  match drain_take s with
  | Stops s' => calm s s' ∧ recoveryQueue s' = recoveryQueue s
  | Takes i s' => calm s s' ∧ recoveryQueue s = i :: recoveryQueue s'
  end.
Proof.
  unfold drain_take. destruct (negb _); [by split; [constructor|]|].
  destruct (recoveryQueue s) as [|i q] eqn:Hq; by split; [constructor|].
Qed.

Lemma drain_delivered_calm i s b s' b' :
  drain_delivered i s b = Ok (s', b') → calm s s' ∧ recoveryQueue s' = recoveryQueue s.
Proof.
  unfold drain_delivered. destruct (finishDeliveryItemLocked _ s b) as [[s1 b1]|[]| |] eqn:He; try done.
  apply finish_calm in He as [[] Hq]. intros [= <- <-]. by split; [constructor|].
Qed.

Lemma schedule_calm s : calm s (scheduleDrainRetryLocked s) ∧
  recoveryQueue (scheduleDrainRetryLocked s) = recoveryQueue s.
Proof. unfold scheduleDrainRetryLocked. destruct (_ || _); by split; [constructor|]. Qed.

Lemma calm_trans s1 s2 s3 : calm s1 s2 → calm s2 s3 → calm s1 s3.
Proof. intros [] []. constructor; congruence. Qed.

Lemma drain_failed_calm i s b s' b' restored :
  drain_failed i s b = Ok (s', b', restored) →
  calm s s' ∧ recoveryQueue s' = if restored
    then (if bool_decide (state s = ASPending) then with_gen i (recoveryGen s) else i) :: recoveryQueue s
    else recoveryQueue s.
Proof.
  unfold drain_failed. set (r := negb (closed s) && _ && _). destruct r; cbn [andb].
  - cbn [mbind result_bind]. set (s1 := s <| recoveryQueue ::= _ |> <| deliveryInFlightBytes := _ |>).
    assert (H1 : calm s s1) by by constructor.
    destruct (bool_decide (state _ = ASActive)).
    + destruct (schedule_calm (s1 <| draining := false |>)) as [Hc Hq].
      intros [= <- <- <-]. split; [|by rewrite Hq].
      eapply calm_trans, Hc. by destruct H1.
    + intros [= <- <- <-]. by split; [constructor|].
  - destruct (finishDeliveryItemLocked _ s b) as [[s1 b1]|[]| |] eqn:He; try done.
    apply finish_calm in He as [[] Hq]. intros [= <- <- <-]. by split; [constructor|].
Qed.

Lemma drain_retry_calm s s' drain :
  drain_retry s = (s', drain) → calm s s' ∧ recoveryQueue s' = recoveryQueue s.
Proof.
  unfold drain_retry. destruct (_ || _); intros [<- <-]%pair_equal_spec; by split; [constructor|].
Qed.

Lemma enqueue_calm policy data flow sz t s b s' b' drain :
  enqueueRecoveryLocked policy data flow sz t s b = Queued s' b' drain →
  calm s s' ∧ ∃ gen, recoveryQueue s' = recoveryQueue s ++ [fresh_item data flow sz gen t].
Proof.
  unfold enqueueRecoveryLocked. destruct (_ || _); [done|]. destruct (claim b sz); [|done].
  destruct (queuedDataRecoveryGenerationLocked s) as [s1 gen] eqn:Hg.
  apply generation_calm in Hg as ([] & Hq & _).
  destruct (_ && _); intros [= <- <- <-]; (split; [by constructor|]); exists gen; cbn; by rewrite Hq.
Qed.

Lemma admit_calm policy data flow sz t s b :
  match distribute_admit policy data flow sz t s b with
  | Refused _ => True
  | Queued s' _ _ => calm s s' ∧ ∃ gen, recoveryQueue s' = recoveryQueue s ++ [fresh_item data flow sz gen t]
  | Direct s' _ => calm s s' ∧ recoveryQueue s' = recoveryQueue s
  end.
Proof.
  unfold distribute_admit. destruct (closed s); [done|]. destruct (_ || _).
  - destruct (enqueueRecoveryLocked _ _ _ _ _ _ _) as [|s' b' d|s' b'] eqn:He; [done| |].
    + by eapply enqueue_calm.
    + unfold enqueueRecoveryLocked in He. repeat case_match; discriminate He.
  - destruct (negb _); [done|]. destruct (_ <? _); [done|]. destruct (claim b sz); [|done].
    by split; [constructor|].
Qed.

(** ** One step *)

(** Every step but a write. *)
Lemma sound_build w s b others ws releases news ticket :
  sound w → forallb (λ e, negb (is_sent e)) news = true → (w_ticket w ≤ ticket)%nat →
  Forall (worker_sound (w_log w ++ news)) ws →
  Forall (item_sound (w_log w)) (recoveryQueue s) →
  tags_sound (w_log w ++ news) s → active_sound s →
  sound (mkWorld s b (w_policy w) others ws releases (w_log w ++ news) ticket).
Proof.
  intros [] Hn Ht Hw Hq Htags Hact. pose proof (λ t, copies_quiet news t Hn) as Hc.
  constructor; cbn; try done.
  - eapply Forall_impl; [exact Hq|]. intros i Hi. by apply item_grow.
  - intros t Hle. rewrite copies_app, Hc, so_new0 by lia. done.
  - intros t. by rewrite copies_app, Hc, app_nil_r.
  - by apply first_quiet.
Qed.

(** The messages of the pipeline are distinct. *)
Lemma tickets_distinct w : fifo_ok (abs w) → NoDup (qd_ticket <$> pipeline w).
Proof.
  intros [Hp _]. cbn in Hp. assert (H : NoDup ((omap ended_of (w_log w)).*1 ++ (qd_ticket <$> pipeline w))).
  { rewrite Hp. apply NoDup_seq. }
  by apply NoDup_app in H as (_ & _ & ?).
Qed.

Lemma tickets_old w i : fifo_ok (abs w) → i ∈ pipeline w → (qd_ticket i < w_ticket w)%nat.
Proof.
  intros [Hp _] Hi. cbn in Hp. assert (H : qd_ticket i ∈ seq 0 (w_ticket w)).
  { rewrite <-Hp. apply elem_of_app. right. by apply list_elem_of_fmap_2. }
  apply elem_of_seq in H. lia.
Qed.

Lemma copies_sent a c ok t :
  copies [sent_event a c ok] t = if ok && bool_decide (qd_ticket (at_item a) = t) then [c] else [].
Proof. unfold copies. cbn. by destruct ok; cbn; [case_bool_decide|]. Qed.

(** A write. *)
Lemma sound_write s b policy others x mk releases log ticket a c rest ok :
  (x = SenderWriting a ∧ mk = SenderWriting ∨ x = DrainerWriting a ∧ mk = DrainerWriting) →
  let w := mkWorld s b policy others [x] releases log ticket in
  sound w → fifo_ok (abs w) → at_rest a = c :: rest →
  sound (mkWorld s b policy others [mk (writeTarget c ok a)] releases (log ++ [sent_event a c ok]) ticket).
Proof.
  intros Hx w [Hw Hq Hnew Hall Hfirst Htags Hact] Hfifo Hr. cbn in *.
  assert (Ha : attempt_sound log a).
  { apply Forall_cons in Hw as [Hw _]. by destruct Hx as [[-> _]|[-> _]]. }
  pose proof (write_sound log a c rest ok Ha Hr) as Ha'.
  assert (Hpl : pipeline w = at_item a :: recoveryQueue s)
    by (unfold pipeline, in_flight; by destruct Hx as [[-> _]|[-> _]]).
  constructor; cbn.
  - apply Forall_singleton. by destruct Hx as [[_ ->]|[_ ->]].
  - pose proof (tickets_distinct w Hfifo) as Hd. rewrite Hpl in Hd. cbn in Hd.
    apply NoDup_cons in Hd as [Hd _].
    rewrite Forall_forall in Hq |- *. intros i Hi. apply item_grow; [by apply Hq|].
    rewrite copies_sent. rewrite bool_decide_eq_false_2; [by rewrite andb_false_r|].
    intros He. apply Hd. rewrite He. by apply list_elem_of_fmap_2.
  - intros t Ht. rewrite copies_app, Hnew, copies_sent by done. cbn.
    rewrite bool_decide_eq_false_2; [by rewrite andb_false_r|].
    pose proof (tickets_old w (at_item a) Hfifo) as Hold. rewrite Hpl in Hold. cbn in Hold.
    specialize (Hold ltac:(by apply list_elem_of_here)). lia.
  - intros t. destruct (decide (qd_ticket (at_item a) = t)) as [<-|Hne].
    + destruct Ha' as [Hn _ _]. by apply NoDup_app in Hn as (_ & _ & (_ & _ & ?)%NoDup_app).
    + rewrite copies_app, copies_sent, bool_decide_eq_false_2 by done.
      by rewrite andb_false_r, app_nil_r.
  - apply first_sent; [done|]. apply Ha.
  - by apply tags_grow.
  - done.
Qed.

Lemma commit_active a s : active_sound s → active_sound (commitAttempt a s).
Proof.
  destruct (commitAttempt_eq a s) as [tags ->]. apply active_sound_members; auto.
Qed.

Lemma commit_queue a s : recoveryQueue (commitAttempt a s) = recoveryQueue s.
Proof. by destruct (commitAttempt_eq a s) as [tags ->]. Qed.

(** The end of the writes. *)
Lemma sound_commit s b policy others x x' releases log ticket a :
  (x = SenderWriting a ∧ x' = SenderFinishing (attempted a) (len (at_failed a) =? 0) ∨
   x = DrainerWriting a ∧ x' = DrainerFinishing (attempted a) (len (at_failed a) =? 0)) →
  sound (mkWorld s b policy others [x] releases log ticket) → at_rest a = [] →
  sound (mkWorld (commitAttempt a s) b policy others [x'] releases
    (log ++ mark_events a s (commitAttempt a s)) ticket).
Proof.
  intros Hx Hs Hr. pose proof Hs as [Hw Hq Hnew Hall Hfirst Htags Hact]. cbn in *.
  assert (Ha : attempt_sound log a).
  { apply Forall_cons in Hw as [Hw _]. by destruct Hx as [[-> _]|[-> _]]. }
  apply (sound_build _ _ _ _ _ _ _ _ Hs); cbn; [apply mark_quiet|done| |by rewrite commit_queue
    |by apply commit_sound|by apply commit_active].
  apply Forall_singleton.
  assert (Hfin : (len (at_failed a) =? 0) = false → 
    item_sound (log ++ mark_events a s (commitAttempt a s)) (attempted a)).
  { intros Hf. to_prop. apply item_grow; [|apply copies_quiet, mark_quiet].
    apply attempted_sound; [done..|]. by intros Hz; rewrite Hz in Hf. }
  by destruct Hx as [[_ ->]|[_ ->]].
Qed.

(** The worker moves on, with the state calm. *)
Lemma sound_moves s s' b b' policy others x ws' releases log news ticket :
  sound (mkWorld s b policy others [x] releases log ticket) → calm s s' →
  forallb (λ e, negb (is_sent e)) news = true →
  Forall (worker_sound (log ++ news)) ws' → Forall (item_sound log) (recoveryQueue s') →
  sound (mkWorld s' b' policy others ws' releases (log ++ news) ticket).
Proof.
  intros Hs Hc Hn Hw Hq. apply (sound_build _ _ _ _ _ _ _ _ Hs); try done.
  - eapply calm_tags; [exact Hc|]. apply tags_grow, Hs.
  - eapply calm_active; [exact Hc|apply Hs].
Qed.

Lemma with_drainer_sound log drain ws : Forall (worker_sound log) ws → Forall (worker_sound log) (with_drainer drain ws).
Proof. intros H. destruct drain; [|done]. apply Forall_app. split; [done|]. by apply Forall_singleton. Qed.

Lemma unselected_sound log i : item_sound log i → qd_broadcastTargetsSet i = false → item_sound log (unselected i).
Proof. intros [] Hs. by constructor; cbn; rewrite Hs in *. Qed.

Lemma select_err sls i s e : selectTargets sls i s = Err e → qd_broadcastTargetsSet i = false.
Proof. unfold selectTargets. by destruct (qd_broadcastTargetsSet i). Qed.

Lemma calm_marked s s' : marked_from s s' → broadcastTagged s' = broadcastTagged s → calm s s'.
Proof. intros (tags & corr & ->) H. by constructor. Qed.

Lemma select_calm sls i s s' a : selectTargets sls i s = Ok (s', a) → calm s s' ∧ recoveryQueue s' = recoveryQueue s.
Proof.
  intros H. pose proof (selectTargets_ok sls i s) as Hs. rewrite H in Hs.
  destruct Hs as [_ (corr & ->)]. by split; [constructor|].
Qed.

(** What [worker_sound] says of a worker that holds an unwritten message. *)
Lemma sound_item s b policy others x releases log ticket :
  sound (mkWorld s b policy others [x] releases log ticket) → worker_sound log x.
Proof. intros H. pose proof (so_workers _ H) as Hw. by apply Forall_cons in Hw as [? _]. Qed.

Lemma waiting_item log i : copies log (qd_ticket i) = [] ∧ qd_broadcastTargetsSet i = false → item_sound log i.
Proof. intros [Hc Hs]. constructor; by rewrite Hs. Qed.

(** The phases in which senders and drains do the same. *)
Lemma sound_selecting s b policy others x mk fin releases log ticket i sls :
  (x = SenderSelecting i ∧ mk = SenderWriting ∧ fin = SenderFinishing (unselected i) false ∨
   x = DrainerSelecting i ∧ mk = DrainerWriting ∧ fin = DrainerFinishing (unselected i) false) →
  sound (mkWorld s b policy others [x] releases log ticket) →
  match selectTargets sls i s with
  | Ok (s', a) => sound (mkWorld s' b policy others [mk a] releases log ticket)
  | Err _ => sound (mkWorld s b policy others [fin] releases log ticket)
  | _ => True
  end.
Proof.
  intros Hx Hs. pose proof (sound_item _ _ _ _ _ _ _ _ Hs) as Hi.
  assert (Hit : item_sound log i) by by destruct Hx as [[-> _]|[-> _]].
  pose proof (so_queue _ Hs) as Hq. cbn in Hq.
  destruct (selectTargets sls i s) as [[s' a]|e| |] eqn:Hsel; try done; rewrite <-(app_nil_r log).
  - destruct (select_calm _ _ _ _ _ Hsel) as [Hc Hq'].
    destruct (select_sound log sls i s s' a Hit (so_active _ Hs) (so_tags _ Hs) Hsel) as [Ha _].
    eapply sound_moves; [exact Hs|exact Hc|done| |by rewrite Hq'].
    rewrite app_nil_r. apply Forall_singleton. by destruct Hx as [(_ & -> & _)|(_ & -> & _)].
  - eapply sound_moves; [exact Hs|done|done| |done]. rewrite app_nil_r. apply Forall_singleton.
    pose proof (unselected_sound log i Hit (select_err _ _ _ _ Hsel)).
    destruct Hx as [(_ & _ & ->)|(_ & _ & ->)]; intros _; done.
Qed.

Lemma sound_sender s b policy others releases log ticket x ok :
  is_sender x = true → let w := mkWorld s b policy others [x] releases log ticket in
  sound w → fifo_ok (abs w) →
  match work_step 0 x ok w with Ok w' => sound w' | _ => True end.
Proof.
  intros Hx w Hs Hf. pose proof (sound_item _ _ _ _ _ _ _ _ Hs) as Hi.
  pose proof (so_queue _ Hs) as Hq. cbn in Hq. unfold w.
  destruct x as [i|i|a|i d| | | |]; try done; cbn in Hi.
  - pose proof (resume_calm i s b) as Hr. cbn -[distribute_resume].
    destruct (distribute_resume i s b) as [[s' b' e|s' drain|]|[]| |]; try done; cbn.
    + destruct Hr as [Hc Hq'].
      change (sound (mkWorld s' b' policy others [] releases (log ++ [EvEnded (qd_ticket i) Failed]) ticket)).
      eapply sound_moves; [exact Hs|exact Hc|done|constructor|by rewrite Hq'].
    + destruct Hr as [Hc [gen Hq']].
      change (sound (mkWorld s' b policy others (with_drainer drain []) releases log ticket)).
      rewrite <-(app_nil_r log).
      eapply sound_moves; [exact Hs|exact Hc|done|by apply with_drainer_sound|].
      rewrite Hq'. constructor; [by apply fresh_sound, Hi|done].
    + change (sound (mkWorld s b policy others [SenderSelecting i] releases log ticket)).
      rewrite <-(app_nil_r log). eapply sound_moves; [exact Hs|done|done| |done].
      rewrite app_nil_r. apply Forall_singleton. by apply waiting_item.
  - cbn -[selectTargets]. destruct (sls_of (qd_data i)) as [sls|]; [|done].
    pose proof (sound_selecting s b policy others _ SenderWriting (SenderFinishing (unselected i) false)
      releases log ticket i sls ltac:(auto) Hs) as H.
    destruct (selectTargets sls i s) as [[s' a]|e| |]; exact H.
  - cbn -[commitAttempt]. destruct (at_rest a) as [|c rest] eqn:Hr.
    + by eapply (sound_commit s b policy others (SenderWriting a)); [left| |].
    + by eapply (sound_write s b policy others (SenderWriting a) SenderWriting); [left| | |].
  - cbn -[distribute_finish]. destruct (distribute_finish i s b) as [[[s' b'] drain]|[]| |] eqn:He; try done.
    apply distribute_finish_calm in He as [Hc Hq'].
    match goal with |- context [EvEnded ?t ?how] =>
      change (sound (mkWorld s' b' policy others (with_drainer drain []) releases (log ++ [EvEnded t how]) ticket)) end.
    eapply sound_moves; [exact Hs|exact Hc|done|by apply with_drainer_sound|by rewrite Hq'].
Qed.

Lemma sound_drainer s b policy others releases log ticket x ok :
  is_sender x = false → let w := mkWorld s b policy others [x] releases log ticket in
  sound w → fifo_ok (abs w) →
  match work_step 0 x ok w with Ok w' => sound w' | _ => True end.
Proof.
  intros Hx w Hs Hf. pose proof (sound_item _ _ _ _ _ _ _ _ Hs) as Hi.
  pose proof (so_queue _ Hs) as Hq. cbn in Hq. unfold w.
  destruct x as [| | | | |i|a|i d]; try done; cbn in Hi.
  - pose proof (drain_take_calm s) as Hr. cbn -[drain_take].
    destruct (drain_take s) as [s'|i s']; destruct Hr as [Hc Hq'].
    + change (sound (mkWorld s' b policy others [] releases log ticket)). rewrite <-(app_nil_r log).
      eapply sound_moves; [exact Hs|exact Hc|done|constructor|by rewrite Hq'].
    + change (sound (mkWorld s' b policy others [DrainerSelecting i] releases log ticket)).
      rewrite Hq' in Hq. apply Forall_cons in Hq as [Hi' Hq]. rewrite <-(app_nil_r log).
      eapply sound_moves; [exact Hs|exact Hc|done| |done]. rewrite app_nil_r. by apply Forall_singleton.
  - cbn -[selectTargets]. destruct (sls_of (qd_data i)) as [sls|].
    + pose proof (sound_selecting s b policy others _ DrainerWriting (DrainerFinishing (unselected i) false)
        releases log ticket i sls ltac:(auto) Hs) as H.
      destruct (selectTargets sls i s) as [[s' a]|e| |]; exact H.
    + destruct (finishDeliveryItemLocked _ s b) as [[s' b']|[]| |] eqn:He; try done.
      apply finish_calm in He as [Hc Hq'].
      change (sound (mkWorld s' b' policy others [DrainerWaiting] releases
        (log ++ [EvEnded (qd_ticket i) Discarded]) ticket)).
      eapply sound_moves; [exact Hs|exact Hc|done|by apply Forall_singleton|by rewrite Hq'].
  - cbn -[commitAttempt]. destruct (at_rest a) as [|c rest] eqn:Hr.
    + by eapply (sound_commit s b policy others (DrainerWriting a)); [right| |].
    + by eapply (sound_write s b policy others (DrainerWriting a) DrainerWriting); [right| | |].
  - destruct d; cbn -[drain_delivered drain_failed].
    + destruct (drain_delivered i s b) as [[s' b']|[]| |] eqn:He; try done.
      apply drain_delivered_calm in He as [Hc Hq'].
      change (sound (mkWorld s' b' policy others [DrainerWaiting] releases
        (log ++ [EvEnded (qd_ticket i) Delivered]) ticket)).
      eapply sound_moves; [exact Hs|exact Hc|done|by apply Forall_singleton|by rewrite Hq'].
    + destruct (drain_failed i s b) as [[[s' b'] restored]|[]| |] eqn:He; try done.
      apply drain_failed_calm in He as [Hc Hq'].
      change (sound (mkWorld s' b' policy others [] releases (log ++ dropped restored i) ticket)).
      eapply sound_moves; [exact Hs|exact Hc|by destruct restored|constructor|].
      rewrite Hq'. destruct restored; [|done]. constructor; [|done].
      case_bool_decide; [by apply item_sound_with_gen, Hi|by apply Hi].
Qed.

Lemma kept_tags log s s' : tags_kept s s' → tags_sound log s → tags_sound log s'.
Proof.
  intros [[He _]|He] H flow epoch; rewrite He; [apply H|by rewrite lookup_empty].
Qed.

Lemma queue_sound log s s' :
  queue_from s s' → Forall (item_sound log) (recoveryQueue s) → Forall (item_sound log) (recoveryQueue s').
Proof.
  intros [->|[->|(g & ->)]] H; [done|constructor|].
  apply Forall_fmap. eapply Forall_impl; [exact H|]. intros i. apply item_sound_restamp.
Qed.

Lemma discards_quiet s s' l :
  forallb (λ e, negb (is_sent e)) (discards s s' ++ (EvNotified <$> l)) = true.
Proof.
  rewrite forallb_app. apply andb_true_iff. split.
  - unfold discards. destruct (_ && _); [|done]. by induction (recoveryQueue s).
  - by induction l.
Qed.

Lemma workers_grow log news ws :
  Forall (worker_sound log) ws → (∀ t, copies news t = []) → Forall (worker_sound (log ++ news)) ws.
Proof. intros H Hn. eapply Forall_impl; [exact H|]. intros x Hx. by apply worker_grow. Qed.

Lemma op_sound peers op w : as_ok (w_as w) → sound w → sound (op_step peers op w).
Proof.
  intros Hok Hs. destruct w as [s b policy others ws releases log ticket]. cbn in Hok.
  pose proof (as_step_kept peers op s) as [Htags Hq].
  pose proof (as_step_active peers op s Hok (so_active _ Hs)) as Hact.
  set (eff := as_step peers op s) in *.
  pose proof (discards_quiet s (e_state eff) (e_sent eff)) as Hn.
  apply (sound_build _ (e_state eff) b others (with_drainer (e_drain eff) ws) 
    (if bool_decide (e_release eff = (0, 0)) then releases else releases ++ [e_release eff])
    _ ticket Hs); cbn; try done.
  - apply with_drainer_sound, workers_grow; [apply Hs|]. intros t. by apply copies_quiet.
  - eapply queue_sound, Hs. done.
  - apply tags_grow. eapply kept_tags, Hs. done.
Qed.

Lemma distribute_sound data flow sz w : sound w → sound (distribute_step data flow sz w).
Proof.
  intros Hs. pose proof (admit_calm (w_policy w) data flow sz (w_ticket w) (w_as w) (w_budget w)) as Ha.
  unfold distribute_step. pose proof (so_new _ Hs (w_ticket w) ltac:(lia)) as Hnew.
  destruct (distribute_admit _ _ _ _ _ _ _) as [e|s' b' drain|s' b']; [done|..];
    destruct w as [s b policy others ws releases log ticket]; cbn in *; destruct Ha as [Hc Hq'].
  - change (sound (mkWorld s' b' policy others (with_drainer drain ws) releases log (S ticket))).
    rewrite <-(app_nil_r log). apply (sound_build _ _ _ _ _ _ _ _ Hs); cbn; rewrite ?app_nil_r; [done|lia|..].
    + apply with_drainer_sound, Hs.
    + destruct Hq' as [gen ->]. apply Forall_app. split; [apply Hs|].
      apply Forall_singleton. by apply fresh_sound.
    + eapply calm_tags, Hs. done.
    + eapply calm_active, Hs. done.
  - match goal with |- context [fresh_item ?d ?f ?z ?g ?t] =>
      change (sound (mkWorld s' b' policy others (ws ++ [SenderWaiting (fresh_item d f z g t)]) releases log (S ticket))) end.
    rewrite <-(app_nil_r log). apply (sound_build _ _ _ _ _ _ _ _ Hs); cbn; rewrite ?app_nil_r; [done|lia|..].
    + apply Forall_app. split; [apply Hs|]. by apply Forall_singleton.
    + rewrite Hq'. apply Hs.
    + eapply calm_tags, Hs. done.
    + eapply calm_active, Hs. done.
Qed.

Lemma retry_sound w :
  sound w → match step LRetry w with Ok w' => sound w' | _ => True end.
Proof.
  intros Hs. destruct w as [s b policy others ws releases log ticket]. cbn -[drain_retry].
  destruct (drain_retry s) as [s' drain] eqn:He. apply drain_retry_calm in He as [Hc Hq].
  change (sound (mkWorld s' b policy others (with_drainer drain ws) releases log ticket)).
  rewrite <-(app_nil_r log). apply (sound_build _ _ _ _ _ _ _ _ Hs); cbn; rewrite ?app_nil_r; try done.
  - apply with_drainer_sound, Hs.
  - rewrite Hq. apply Hs.
  - eapply calm_tags, Hs. done.
  - eapply calm_active, Hs. done.
Qed.

Lemma budget_sound w b others releases :
  sound w → sound (mkWorld (w_as w) b (w_policy w) others (w_workers w) releases (w_log w) (w_ticket w)).
Proof. by intros []. Qed.

Lemma step_sound l w w' :
  delivery_ok w → fifo_ok (abs w) → sound w → step l w = Ok w' → sound w'.
Proof.
  intros Hok Hf Hs Hstep. destruct l as [peers op|data flow sz|n ok| | |size|size].
  - injection Hstep as <-. apply op_sound; [apply Hok|done].
  - cbn in Hstep. destruct (_ || _); [done|]. injection Hstep as <-. by apply distribute_sound.
  - cbn -[work_step] in Hstep. destruct (w_workers w !! n) as [x|] eqn:Hx; [|done].
    destruct (lone_worker w n x Hok Hx) as [-> Hws].
    destruct w as [s b policy others ws releases log ticket]. cbn in Hws. subst ws.
    destruct (is_sender x) eqn:Hsd.
    + pose proof (sound_sender _ _ _ _ _ _ _ x ok Hsd Hs Hf) as H. by rewrite Hstep in H.
    + pose proof (sound_drainer _ _ _ _ _ _ _ x ok Hsd Hs Hf) as H. by rewrite Hstep in H.
  - pose proof (retry_sound w Hs) as H. by rewrite Hstep in H.
  - cbn -[release_budget] in Hstep. destruct (w_releases w) as [|[m z] rest]; [done|].
    destruct (release_budget _ _ _) as [b| | |]; try done. injection Hstep as <-.
    destruct w. by apply (budget_sound _ b _ rest Hs).
  - cbn -[claim] in Hstep. destruct (size <=? 0); [done|]. destruct (claim _ _) as [b|]; [|done].
    injection Hstep as <-. destruct w. by apply (budget_sound _ b _ _ Hs).
  - cbn -[release_budget] in Hstep. destruct (list_find _ _) as [[n y]|]; [|done].
    destruct (release_budget _ _ _) as [b| | |]; try done. injection Hstep as <-.
    destruct w. by apply (budget_sound _ b _ _ Hs).
Qed.

Lemma started_sound w : started w → sound w.
Proof.
  intros [k act fl m b policy Ha Hm Hb]. constructor; cbn.
  - constructor.
  - constructor.
  - done.
  - intros t. constructor.
  - intros before after t c flow epoch ok H. by destruct before.
  - intros flow epoch H. cbn in H. by rewrite lookup_empty in H.
  - split; [constructor|]. intros c Hc. by apply not_elem_of_nil in Hc.
Qed.

Lemma run_sound w w' :
  rtc evolves w w' → delivery_ok w → fifo_ok (abs w) → sound w →
  delivery_ok w' ∧ fifo_ok (abs w') ∧ sound w'.
Proof.
  induction 1 as [w|w w1 w2 H1 _ IH]; intros Hok Hf Hs; [done|].
  destruct (evolves_ok _ _ Hok H1) as [Hok1 Hstep]. destruct H1 as (l & Ht & Hl).
  apply IH; [done|by eapply fifo_step_ok|by apply (step_sound l w)].
Qed.

Lemma reachable_sound w : reachable w → delivery_ok w ∧ fifo_ok (abs w) ∧ sound w.
Proof.
  intros (w0 & Hst & Hr). eapply run_sound; [exact Hr|by apply started_ok| |by apply started_sound].
  rewrite started_abs by done. by split; constructor.
Qed.

(** ** Theorems *)

(** C27: At most once. As long as T(r) does not expire while a message is in flight,
    and whatever the retries, retentions and changes of the ASPs, no Association
    accepts two copies of the same message. *)
Theorem at_most_once w t : reachable w → NoDup (copies (w_log w) t).
Proof. intros Hr. by apply reachable_sound in Hr as (_ & _ & []). Qed.

(** C32: The Correlation Id comes first. As long as T(r) does not expire while a
    message is in flight: in Broadcast mode, after an ASP has become active (a
    non-zero epoch), a copy without a Correlation Id is written only when an earlier
    message of the same flow carried one in that epoch and every ASP it was written
    to accepted it. *)
Theorem broadcast_marker_first w before after t c flow epoch ok :
  reachable w → w_log w = before ++ EvSent t c flow epoch true false ok :: after → epoch ≠ 0 →
  ∃ t', EvMarked t' flow epoch ∈ before.
Proof. intros Hr Hl He. apply reachable_sound in Hr as (_ & _ & []). by eapply so_first0. Qed.

(** *** The withdrawal of an ASP *)

(** The Associations a worker is about to write to. *)
Definition pending_targets (x : worker) : list association :=
  match x with SenderWriting a | DrainerWriting a => at_rest a | _ => [] end.

Definition sent_to (c : association) (e : event) : bool :=
  match e with EvSent _ c' _ _ _ _ _ => bool_decide (c' = c) | _ => false end.

Definition withdrawn (c : association) (w : world) : Prop :=
  asps (w_as w) !! c ≠ Some StateASPActive.

(** Steps during which [c] stays withdrawn. *)
Definition evolves_without (c : association) (w w' : world) : Prop :=
  evolves w w' ∧ withdrawn c w'.

Definition spares (c : association) (w : world) : Prop :=
  Forall (λ x, c ∉ pending_targets x) (w_workers w).

(** What a step without writes to [c] looks like. *)
Definition spared (c : association) (w w' : world) : Prop :=
  spares c w' ∧ ∃ news, w_log w' = w_log w ++ news ∧ forallb (λ e, negb (sent_to c e)) news = true.

Lemma quiet_spared c news : forallb (λ e, negb (is_sent e)) news = true → forallb (λ e, negb (sent_to c e)) news = true.
Proof.
  intros H. apply forallb_forall. intros e He. rewrite forallb_forall in H. specialize (H e He).
  by destruct e.
Qed.

Lemma spares_drainer c drain ws :
  Forall (λ x, c ∉ pending_targets x) ws → Forall (λ x, c ∉ pending_targets x) (with_drainer drain ws).
Proof. intros H. destruct drain; [|done]. apply Forall_app. split; [done|]. apply Forall_singleton, not_elem_of_nil. Qed.

Lemma no_news c w w' : spares c w' → w_log w' = w_log w → spared c w w'.
Proof. intros H Hl. split; [done|]. exists []. by rewrite app_nil_r. Qed.

Lemma idle_spares c s b policy others x releases log ticket :
  pending_targets x = [] → spares c (mkWorld s b policy others [x] releases log ticket).
Proof. intros Hx. apply Forall_singleton. rewrite Hx. apply not_elem_of_nil. Qed.

Lemma selecting_spared c s b policy others x mk fin releases log ticket i sls :
  (mk = SenderWriting ∧ fin = SenderFinishing (unselected i) false ∨
   mk = DrainerWriting ∧ fin = DrainerFinishing (unselected i) false) →
  let w := mkWorld s b policy others [x] releases log ticket in
  sound w → item_sound log i → withdrawn c w →
  match selectTargets sls i s with
  | Ok (s', a) => spared c w (mkWorld s' b policy others [mk a] releases log ticket)
  | Err _ => spared c w (mkWorld s b policy others [fin] releases log ticket)
  | _ => True
  end.
Proof.
  intros Hx w Hs Hi Hw. destruct (selectTargets sls i s) as [[s' a]|e| |] eqn:Hsel; try done.
  - destruct (select_sound log sls i s s' a Hi (so_active _ Hs) (so_tags _ Hs) Hsel) as [_ Hsub].
    apply no_news; [|done]. apply Forall_singleton.
    assert (Hc : c ∉ at_rest a) by (intros Hc%Hsub; by apply elem_of_active in Hc).
    by destruct Hx as [[-> _]|[-> _]].
  - apply no_news; [|done]. apply idle_spares. by destruct Hx as [[_ ->]|[_ ->]].
Qed.

Lemma writing_spared c s b policy others x mk releases log ticket a target rest ok :
  (x = SenderWriting a ∧ mk = SenderWriting ∨ x = DrainerWriting a ∧ mk = DrainerWriting) →
  let w := mkWorld s b policy others [x] releases log ticket in
  spares c w → at_rest a = target :: rest →
  spared c w (mkWorld s b policy others [mk (writeTarget target ok a)] releases
    (log ++ [sent_event a target ok]) ticket).
Proof.
  intros Hx w Hs Hr. assert (Hc : c ∉ at_rest a).
  { apply Forall_cons in Hs as [Hs _]. by destruct Hx as [[-> _]|[-> _]]. }
  rewrite Hr in Hc. apply not_elem_of_cons in Hc as [Hne Hc]. split.
  - apply Forall_singleton. destruct Hx as [[_ ->]|[_ ->]]; cbn; by rewrite Hr.
  - eexists. split; [done|]. cbn. by rewrite bool_decide_eq_false_2.
Qed.

Lemma news_spared c w w' news :
  spares c w' → w_log w' = w_log w ++ news → forallb (λ e, negb (is_sent e)) news = true → spared c w w'.
Proof. intros H Hl Hn. split; [done|]. exists news. split; [done|]. by apply quiet_spared. Qed.

Lemma spares_after c drain :
  Forall (λ x, c ∉ pending_targets x) (with_drainer drain []).
Proof. apply spares_drainer. constructor. Qed.

Lemma work_spared c s b policy others x releases log ticket ok :
  let w := mkWorld s b policy others [x] releases log ticket in
  sound w → withdrawn c w → spares c w →
  match work_step 0 x ok w with Ok w' => spared c w w' | _ => True end.
Proof.
  intros w Hs Hw Hsp. pose proof (sound_item _ _ _ _ _ _ _ _ Hs) as Hi. unfold w.
  destruct x as [i|i|a|i d| |i|a|i d]; cbn in Hi.
  - cbn -[distribute_resume].
    destruct (distribute_resume i s b) as [[s' b' e|s' drain|]|[]| |]; try done; cbn.
    + by eapply news_spared; [constructor| |].
    + by apply no_news; [apply spares_after|].
    + by apply no_news; [apply Forall_singleton, not_elem_of_nil|].
  - cbn -[selectTargets]. destruct (sls_of (qd_data i)) as [sls|]; [|done].
    pose proof (selecting_spared c s b policy others (SenderSelecting i) SenderWriting
      (SenderFinishing (unselected i) false) releases log ticket i sls ltac:(auto) Hs Hi Hw) as H.
    destruct (selectTargets sls i s) as [[s' a]|e| |]; exact H.
  - cbn -[commitAttempt]. destruct (at_rest a) as [|target rest] eqn:Hr.
    + eapply news_spared; [apply Forall_singleton, not_elem_of_nil|done|apply mark_quiet].
    + by eapply (writing_spared c s b policy others (SenderWriting a) SenderWriting); [left| |].
  - cbn -[distribute_finish]. destruct (distribute_finish i s b) as [[[s' b'] drain]|[]| |]; try done.
    by eapply news_spared; [apply spares_after| |].
  - cbn -[drain_take]. destruct (drain_take s) as [s'|i s'].
    + by apply no_news; [constructor|].
    + by apply no_news; [apply Forall_singleton, not_elem_of_nil|].
  - cbn -[selectTargets]. destruct (sls_of (qd_data i)) as [sls|].
    + pose proof (selecting_spared c s b policy others (DrainerSelecting i) DrainerWriting
        (DrainerFinishing (unselected i) false) releases log ticket i sls ltac:(auto) Hs Hi Hw) as H.
      destruct (selectTargets sls i s) as [[s' a]|e| |]; exact H.
    + destruct (finishDeliveryItemLocked _ s b) as [[s' b']|[]| |]; try done.
      by eapply news_spared; [apply Forall_singleton, not_elem_of_nil| |].
  - cbn -[commitAttempt]. destruct (at_rest a) as [|target rest] eqn:Hr.
    + eapply news_spared; [apply Forall_singleton, not_elem_of_nil|done|apply mark_quiet].
    + by eapply (writing_spared c s b policy others (DrainerWriting a) DrainerWriting); [right| |].
  - destruct d; cbn -[drain_delivered drain_failed].
    + destruct (drain_delivered i s b) as [[s' b']|[]| |]; try done.
      by eapply news_spared; [apply Forall_singleton, not_elem_of_nil| |].
    + destruct (drain_failed i s b) as [[[s' b'] restored]|[]| |]; try done.
      by eapply news_spared; [constructor| |destruct restored].
Qed.

Lemma step_spared c l w w' :
  delivery_ok w → sound w → withdrawn c w → spares c w → step l w = Ok w' → spared c w w'.
Proof.
  intros Hok Hs Hw Hsp Hstep. destruct l as [peers op|data flow sz|n ok| | |size|size].
  - injection Hstep as <-. eapply news_spared; [by apply spares_drainer|done|apply discards_quiet].
  - cbn in Hstep. destruct (_ || _); [done|]. injection Hstep as <-. unfold distribute_step.
    destruct (distribute_admit _ _ _ _ _ _ _) as [e|s' b' drain|s' b']; apply no_news; try done.
    + by apply spares_drainer.
    + apply Forall_app. split; [done|]. apply Forall_singleton, not_elem_of_nil.
  - cbn -[work_step] in Hstep. destruct (w_workers w !! n) as [x|] eqn:Hx; [|done].
    destruct (lone_worker w n x Hok Hx) as [-> Hws].
    destruct w as [s b policy others ws releases log ticket]. cbn in Hws. subst ws.
    pose proof (work_spared c _ _ _ _ x _ _ _ ok Hs Hw Hsp) as H. by rewrite Hstep in H.
  - cbn -[drain_retry] in Hstep. destruct (drain_retry _) as [s' drain]. injection Hstep as <-.
    by apply no_news; [apply spares_drainer|].
  - cbn -[release_budget] in Hstep. destruct (w_releases w) as [|[m z] rest]; [done|].
    destruct (release_budget _ _ _) as [b| | |]; try done. injection Hstep as <-. by apply no_news.
  - cbn -[claim] in Hstep. destruct (size <=? 0); [done|]. destruct (claim _ _) as [b|]; [|done].
    injection Hstep as <-. by apply no_news.
  - cbn -[release_budget] in Hstep. destruct (list_find _ _) as [[n y]|]; [|done].
    destruct (release_budget _ _ _) as [b| | |]; try done. injection Hstep as <-. by apply no_news.
Qed.

Lemma run_spared c w w' :
  rtc (evolves_without c) w w' → delivery_ok w → fifo_ok (abs w) → sound w →
  withdrawn c w → spares c w → spared c w w'.
Proof.
  induction 1 as [w|w w1 w2 [H1 Hw1] _ IH]; intros Hok Hf Hs Hw Hsp; [by apply no_news|].
  destruct (evolves_ok _ _ Hok H1) as [Hok1 Hstep]. destruct H1 as (l & Ht & Hl).
  destruct (step_spared c l w w1 Hok Hs Hw Hsp Hl) as [Hsp1 (n1 & Hl1 & Hn1)].
  destruct IH as [Hsp2 (n2 & Hl2 & Hn2)]; [done|by eapply fifo_step_ok|by apply (step_sound l w)|done..|].
  split; [done|]. exists (n1 ++ n2). rewrite Hl2, Hl1, (assoc_L (++)). split; [done|].
  by rewrite forallb_app, Hn1, Hn2.
Qed.

(** C30: The traffic barrier. As long as T(r) does not expire while a message is in
    flight: once an ASP has left ASP-ACTIVE and the delivery mutex has been free,
    nothing is written to it for as long as it stays out of ASP-ACTIVE, whatever
    else happens in between. *)
Theorem withdrawal_stops_traffic c w w' :
  reachable w → withdrawn c w → Forall (λ x, holds x = false) (w_workers w) →
  rtc (evolves_without c) w w' →
  ∃ news, w_log w' = w_log w ++ news ∧ forallb (λ e, negb (sent_to c e)) news = true.
Proof.
  intros Hr Hw Hfree Hrun. destruct (reachable_sound w Hr) as (Hok & Hf & Hs).
  eapply run_spared; try done. eapply Forall_impl; [exact Hfree|].
  intros x Hx. destruct x; try done; apply not_elem_of_nil.
Qed.

Module Concrete.
Import DistributionTheory.Concrete.

(** Two ASPs in Broadcast mode.  The first message is retained, its second
    copy fails, and the retry reaches only the target that had none; the second
    message of the flow needs no marker. *)
Definition broadcast_labels : list label :=
  [LOp ∅ (SetTrafficMode TrafficModeBroadcast); activate 1; activate 2; send 0 40;
   LOp ∅ (MarkASPsInactive [1; 2]%nat); LWork 0 true; activate 1; activate 2] ++
  work 3 ++ [LWork 0 false] ++ work 2 ++ [LRetry] ++ work 6 ++ [send 0 41] ++ work 6.

Lemma broadcast_reachable : reachable (after broadcast_labels).
Proof. eapply run_reachable; [exact start_started| |apply after_run]; by vm_compute. Qed.

Definition shown (e : event) : option (nat * association * Z * bool * bool) :=
  match e with
  | EvSent t c _ epoch _ marked ok => Some (t, c, epoch, marked, ok)
  | EvMarked t _ epoch => Some (t, 0%nat, epoch, true, true)
  | _ => None
  end.

Lemma at_most_once_witness :
  copies (w_log (after broadcast_labels)) 0 = [1; 2]%nat ∧
  NoDup (copies (w_log (after broadcast_labels)) 0).
Proof. split; [by vm_compute|]. exact (at_most_once _ 0%nat broadcast_reachable). Defined.

Lemma broadcast_split : ∃ n after_,
  w_log (after broadcast_labels) =
    take n (w_log (after broadcast_labels)) ++ EvSent 1 1 flow 4 true false true :: after_.
Proof.
  destruct (list_find (λ e, shown e = Some (1%nat, 1%nat, 4, false, true))
    (w_log (after broadcast_labels))) as [[n e]|] eqn:Hf.
  - exists n, (drop (S n) (w_log (after broadcast_labels))). vm_compute in Hf.
    injection Hf as <- _. by vm_compute.
  - by vm_compute in Hf.
Qed.

Lemma broadcast_marker_first_witness :
  ∃ (before : list event) t', EvMarked t' flow 4 ∈ before.
Proof.
  destruct broadcast_split as (n & after_ & Heq).
  destruct (broadcast_marker_first _ _ _ 1 1 flow 4 true broadcast_reachable Heq ltac:(done)) as [t' Ht].
  exists (take n (w_log (after broadcast_labels))), t'. exact Ht.
Defined.

(** The second ASP is withdrawn while nothing is being written; the message
    that follows goes to the first alone. *)
Definition withdrawal_labels : list label :=
  broadcast_labels ++ [deactivate 2].

Lemma withdrawal_reachable : reachable (after withdrawal_labels).
Proof. eapply run_reachable; [exact start_started| |apply after_run]; by vm_compute. Qed.

Definition then_labels (n : nat) : list label := withdrawal_labels ++ take n (send 0 42 :: work 4).

Lemma withdrawal_step n :
  (n < 5)%nat → evolves_without 2 (after (then_labels n)) (after (then_labels (S n))).
Proof.
  intros Hn. split.
  - exists (default LRetry ((send 0 42 :: work 4) !! n)).
    do 5 (destruct n as [|n]; [by split; [|vm_compute]|]). lia.
  - do 5 (destruct n as [|n]; [by vm_compute|]). lia.
Qed.

Lemma withdrawal_steps : rtc (evolves_without 2) (after (then_labels 0)) (after (then_labels 5)).
Proof. do 5 (eapply rtc_l; [apply withdrawal_step; lia|]). constructor. Qed.

Lemma withdrawal_stops_traffic_witness :
  ∃ news, w_log (after (then_labels 5)) = w_log (after (then_labels 0)) ++ news ∧
    forallb (λ e, negb (sent_to 2 e)) news = true.
Proof.
  apply (withdrawal_stops_traffic 2 (after (then_labels 0))).
  - exact withdrawal_reachable.
  - by vm_compute.
  - vm_compute. constructor.
  - exact withdrawal_steps.
Defined.
End Concrete.
