(* ===== verification/RkmRegistry.v ===== *)
(** * Routing Key Management: the registry (rkm_registry.go)

    The Routing Keys of an Endpoint and the Associations registered for them,
    with the answers kept for retransmitted requests.  A registration and a
    deregistration work on a copy of the registry, outside its mutex, and
    install the copy only if no other operation changed the registry meanwhile;
    [RegAttempt] and [DeregAttempt] are that work, [commit_*] the installation
    under the mutexes, and [rkm_step] interleaves any number of calls.

    What the registry reads elsewhere is given to each attempt and commit: the
    configuration of the Association, the identifiers of the peers, the answers
    of the application's callbacks, the Application Servers.  A callback and a
    read may answer differently each time.  Maps are copied by value, so the
    clone functions of the code are the identity; where the code ranges over a
    map the model takes one order.  A nil Association occurs in tests only and
    is not modelled; a nil registry is one without configuration. *)

From stdpp Require Import sorting.
From coqutil Require Import Datatypes.RecordSettersUsingExistingGetters.
From S2P Require Import Prelude Params ParamValues Inventory AppServer RoutingKey.
#[local] Open Scope Z_scope.

(** ** Statuses *)

Definition RegistrationSuccessfullyRegistered : Z := 0.
Definition RegistrationStatusUnknown : Z := 1.
Definition RegistrationInvalidRoutingKey : Z := 4.
Definition RegistrationPermissionDenied : Z := 5.
Definition RegistrationCannotSupportUniqueRouting : Z := 6.
Definition RegistrationRoutingKeyNotCurrentlyProvisioned : Z := 7.
Definition RegistrationInsufficientResources : Z := 8.
Definition RegistrationUnsupportedRoutingKeyParameterField : Z := 9.
Definition RegistrationUnsupportedTrafficHandlingMode : Z := 10.
Definition RegistrationRoutingKeyChangeRefused : Z := 11.
Definition RegistrationRoutingKeyAlreadyRegistered : Z := 12.

Definition DeregistrationSuccessfullyDeregistered : Z := 0.
Definition DeregistrationStatusUnknown : Z := 1.
Definition DeregistrationInvalidRoutingContext : Z := 2.
Definition DeregistrationPermissionDenied : Z := 3.
Definition DeregistrationNotRegistered : Z := 4.
Definition DeregistrationASPActiveForRoutingContext : Z := 5.

Definition defaultMaxDynamicRoutingKeys : Z := 1024.
Definition registrationReplayLimit : Z := 1024.
Definition deregistrationReplayLimit : Z := 1024.

(** ** Data *)

(** The canonical name of a remote Application Server (asp_config.go). *)
Record SGASKey : Set := mkSGASKey { SignallingGateway : string; ApplicationServer : string }.

Record RoutingKeyRegistrationResult : Set := mkRegistrationResult {
  rr_LocalRoutingKeyIdentifier : Z;
  rr_Status : Z;
  rr_RoutingContext : Z;
  rr_RemoteAS : SGASKey;
  rr_ASKey : ASKey;
}.

Record RoutingKeyDeregistrationResult : Set := mkDeregistrationResult {
  dr_RoutingContext : Z;
  dr_Status : Z;
  dr_ASKey : ASKey;
  dr_removeAS : bool;
}.

#[export] Instance SGASKey_eq_dec : EqDecision SGASKey.
Proof. solve_decision. Defined.
#[export] Instance RoutingKeyRegistrationResult_eq_dec : EqDecision RoutingKeyRegistrationResult.
Proof. solve_decision. Defined.
#[export] Instance RoutingKeyDeregistrationResult_eq_dec : EqDecision RoutingKeyDeregistrationResult.
Proof. solve_decision. Defined.

Record routingKeyEntry : Type := mkEntry {
  e_routingKey : RoutingKey;
  e_canonical : canonicalRoutingKey;
  e_routingContext : Z;
  e_provisioned : bool;
  e_members : gset association;
}.

(** [registrationReplayState] and [deregistrationReplayState] differ in what
    they keep per key: Local Routing Key Identifiers and Routing Contexts. *)
Record replayState (A : Type) : Type := mkReplays {
  byKey : gmap Z A;
  order : list Z;
  pending : gset Z;
}.
Arguments mkReplays {A}.
Arguments byKey {A}.
Arguments order {A}.
Arguments pending {A}.

Record registrationReplay : Set := mkReplay {
  rp_request : RoutingKeyRegistrationRequest;
  rp_result : RoutingKeyRegistrationResult;
}.

Abbreviation registrationReplayState := (replayState registrationReplay).
Abbreviation deregistrationReplayState := (replayState RoutingKeyDeregistrationResult).

Definition noReplays {A} : replayState A := mkReplays ∅ [] ∅.

(** The callbacks are parameters of the attempts; of the optional ones the
    configuration says whether they are set. *)
Record RoutingKeyManagementConfig : Type := mkRkmConfig {
  AuthorizeRegistration : bool;
  AuthorizeDeregistration : bool;
  AllocateRoutingContext : bool;
  ProvisionedRoutingKeys : list ProvisionedRoutingKey;
  AllowDynamicRoutingKeys : bool;
  MaxDynamicRoutingKeys : Z;
  RemoveUnusedRoutingKeys : bool;
}.

Record routingKeyRegistry : Type := mkRegistry {
  revision : Z;
  config : option RoutingKeyManagementConfig;
  entries : gmap Z routingKeyEntry;
  replays : gmap association registrationReplayState;
  deregReplays : gmap association deregistrationReplayState;
  dynamic : Z;
}.

(** ** Construction *)

Definition snapshotProvisioned (p : ProvisionedRoutingKey) : ProvisionedRoutingKey :=
  mkProvisioned (p_RoutingContext p) (snapshotRoutingKey (p_RoutingKey p)).

Definition snapshotRoutingKeyManagementConfig (c : RoutingKeyManagementConfig)
    : RoutingKeyManagementConfig :=
  mkRkmConfig (AuthorizeRegistration c) (AuthorizeDeregistration c) (AllocateRoutingContext c)
    (map snapshotProvisioned (ProvisionedRoutingKeys c)) (AllowDynamicRoutingKeys c)
    (MaxDynamicRoutingKeys c) (RemoveUnusedRoutingKeys c).

Definition validateRoutingKeyManagementConfig (c : option RoutingKeyManagementConfig)
    : result rk_error () :=
  match c with
  | None => Ok tt
  | Some c =>
      if negb (AuthorizeRegistration c) then Err MissingAuthorization
      else if MaxDynamicRoutingKeys c <? 0 then Err NegativeMaximum
      else _ ← foldM validateProvisioned ([], []) (ProvisionedRoutingKeys c); Ok tt
  end.

Definition installProvisioned (es : gmap Z routingKeyEntry) (p : ProvisionedRoutingKey)
    : result rk_error (gmap Z routingKeyEntry) :=
  canonical ← canonicalizeRoutingKey (p_RoutingKey p);
  Ok (<[p_RoutingContext p :=
         mkEntry (snapshotRoutingKey (p_RoutingKey p)) canonical (p_RoutingContext p) true ∅]> es).

Definition newRoutingKeyRegistry (c : option RoutingKeyManagementConfig)
    : result rk_error routingKeyRegistry :=
  let c := snapshotRoutingKeyManagementConfig <$> c in
  _ ← validateRoutingKeyManagementConfig c;
  es ← match c with
       | None => Ok ∅
       | Some c => foldM installProvisioned ∅ (ProvisionedRoutingKeys c)
       end;
  Ok (mkRegistry 0 c es ∅ ∅ 0).

(** ** Replays *)

(** The loop of [trim*ReplayState] over the order, oldest first: what is not
    pending goes until the excess is gone. *)
Fixpoint trimLoop {A} (excess : Z) (waiting : gset Z) (l : list Z) (kept : gmap Z A)
    : list Z * gmap Z A :=
  match l with
  | [] => ([], kept)
  | k :: l =>
      if (0 <? excess) && bool_decide (k ∉ waiting)
      then trimLoop (excess - 1) waiting l (delete k kept)
      else let '(retained, kept) := trimLoop excess waiting l kept in (k :: retained, kept)
  end.

Definition trimReplayState {A} (limit : Z) (state : replayState A) : replayState A :=
  let excess := len (order state) - limit in
  if excess <=? 0 then state
  else
    let '(retained, kept) := trimLoop excess (pending state) (order state) (byKey state) in
    mkReplays kept retained (pending state).

(** [store*Replay] before it trims. *)
Definition putReplay {A} (k : Z) (v : A) (state : replayState A) : replayState A :=
  mkReplays (<[k := v]> (byKey state))
    (if bool_decide (is_Some (byKey state !! k)) then order state else order state ++ [k])
    ({[k]} ∪ pending state).

Definition storeReplay {A} (limit : Z) (k : Z) (v : A) (state : replayState A) : replayState A :=
  trimReplayState limit (putReplay k v state).

Definition storeRegistrationReplay (request : RoutingKeyRegistrationRequest)
    (result : RoutingKeyRegistrationResult) (state : registrationReplayState)
    : registrationReplayState :=
  storeReplay registrationReplayLimit (LocalRoutingKeyIdentifier request)
    (mkReplay (snapshotRoutingKeyRegistrationRequest request) result) state.

Definition storeDeregistrationReplay (result : RoutingKeyDeregistrationResult)
    (state : deregistrationReplayState) : deregistrationReplayState :=
  storeReplay deregistrationReplayLimit (dr_RoutingContext result) result state.

Definition clearDeregistrationReplayState (routingContext : Z)
    (state : deregistrationReplayState) : deregistrationReplayState :=
  mkReplays (delete routingContext (byKey state))
    (List.filter (λ retained, negb (retained =? routingContext)) (order state))
    (pending state ∖ {[routingContext]}).

(** An identifier of the order without an answer is dropped from the order. *)
Definition purgeStep (routingContext : Z) (state : registrationReplayState) (identifier : Z)
    : registrationReplayState :=
  match byKey state !! identifier with
  | None => state
  | Some replay =>
      if rr_RoutingContext (rp_result replay) =? routingContext
      then mkReplays (delete identifier (byKey state)) (order state)
             (pending state ∖ {[identifier]})
      else mkReplays (byKey state) (order state ++ [identifier]) (pending state)
  end.

Definition purgeRegistrationReplayState (routingContext : Z) (state : registrationReplayState)
    : registrationReplayState :=
  foldl (purgeStep routingContext) (mkReplays (byKey state) [] (pending state)) (order state).

(** ** Comparison of requests *)

Definition canonical_equal (first second : RoutingKey) : bool :=
  match canonicalizeRoutingKey first, canonicalizeRoutingKey second with
  | Ok first, Ok second => bool_decide (first = second)
  | _, _ => false
  end.

Definition same_mode (first second : RoutingKey) : bool :=
  (rk_TrafficMode first =? rk_TrafficMode second) &&
  bool_decide (rk_TrafficModeSet first = rk_TrafficModeSet second).

Definition routingKeyRegistrationRequestsEqual (first second : RoutingKeyRegistrationRequest)
    : bool :=
  (LocalRoutingKeyIdentifier first =? LocalRoutingKeyIdentifier second) &&
  (RequestedRoutingContext first =? RequestedRoutingContext second) &&
  bool_decide (RoutingContextRequested first = RoutingContextRequested second) &&
  bool_decide (unsupportedParameterField first = unsupportedParameterField second) &&
  same_mode (req_RoutingKey first) (req_RoutingKey second) &&
  canonical_equal (req_RoutingKey first) (req_RoutingKey second).

Definition routingKeyPeersEqual (first second : RoutingKeyPeer) : bool :=
  bool_decide (first = second).

Record RoutingKeyDeregistrationRequest : Set := mkDeregistrationRequest {
  dq_Peer : RoutingKeyPeer;
  dq_RoutingContext : Z;
  dq_RoutingKey : RoutingKey;
  dq_Provisioned : bool;
}.

Definition routingKeyDeregistrationRequestsEqual (first second : RoutingKeyDeregistrationRequest)
    : bool :=
  (dq_RoutingContext first =? dq_RoutingContext second) &&
  bool_decide (dq_Provisioned first = dq_Provisioned second) &&
  same_mode (dq_RoutingKey first) (dq_RoutingKey second) &&
  routingKeyPeersEqual (dq_Peer first) (dq_Peer second) &&
  canonical_equal (dq_RoutingKey first) (dq_RoutingKey second).

(** ** Entries *)

Definition registrationResult (identifier status routingContext : Z)
    : RoutingKeyRegistrationResult :=
  mkRegistrationResult identifier status routingContext (mkSGASKey "" "") zeroASKey.

Definition entry_asKey (entry : routingKeyEntry) : ASKey :=
  mkASKey (rk_NetworkAppearance (e_routingKey entry)) (rk_NetworkAppearanceSet (e_routingKey entry))
    (e_routingContext entry) true.

Definition hasMember (c : association) (entry : routingKeyEntry) : bool :=
  bool_decide (c ∈ e_members entry).

Definition adoptTrafficMode (requested : RoutingKey) (entry : routingKeyEntry) : routingKeyEntry :=
  if rk_TrafficModeSet (e_routingKey entry) || negb (rk_TrafficModeSet requested) then entry
  else
    let key := e_routingKey entry in
    mkEntry (mkRK (rk_NetworkAppearance key) (rk_NetworkAppearanceSet key)
               (rk_TrafficMode requested) true (rk_Groups key))
      (e_canonical entry) (e_routingContext entry) (e_provisioned entry) (e_members entry).

Definition addMember (c : association) (entry : routingKeyEntry) : routingKeyEntry :=
  mkEntry (e_routingKey entry) (e_canonical entry) (e_routingContext entry)
    (e_provisioned entry) ({[c]} ∪ e_members entry).

Definition deleteMember (c : association) (entry : routingKeyEntry) : routingKeyEntry :=
  mkEntry (e_routingKey entry) (e_canonical entry) (e_routingContext entry)
    (e_provisioned entry) (e_members entry ∖ {[c]}).

Definition registrationTrafficModeCompatible (existing requested : RoutingKey) : bool :=
  negb (rk_TrafficModeSet existing) || negb (rk_TrafficModeSet requested) ||
  (rk_TrafficMode existing =? rk_TrafficMode requested).

(** The last exact entry the loop meets, with its key in the map, and whether
    another entry overlaps. *)
Definition findRoutingKeyEntry (es : gmap Z routingKeyEntry) (key : canonicalRoutingKey)
    : option (Z * routingKeyEntry) * bool :=
  foldl (λ '(exact, overlap) '(routingContext, entry),
      if bool_decide (e_canonical entry = key) then (Some (routingContext, entry), overlap)
      else (exact, overlap || overlaps (e_canonical entry) key))
    (None, false) (map_to_list es).

Definition associationHasNetworkAppearanceConflict (es : gmap Z routingKeyEntry)
    (c : association) (requested : canonicalRoutingKey) : bool :=
  existsb (λ '(_, entry),
      hasMember c entry && negb (bool_decide (e_canonical entry = requested)) &&
      (negb (ck_networkAppearanceSet (e_canonical entry)) ||
       negb (ck_networkAppearanceSet requested)))
    (map_to_list es).

Fixpoint routingContextConflictsWithAssociationScope (configured : list ASKey)
    (candidate : ASKey) : bool :=
  match configured with
  | [] => false
  | key :: configured =>
      if negb (RoutingContextSet key) || negb (RoutingContext key =? RoutingContext candidate)
      then routingContextConflictsWithAssociationScope configured candidate
      else negb (bool_decide (key = candidate))
  end.

(** ** What an attempt reads

    [rd_identifier] is [PeerASPIdentifier] of each Association,
    [rd_staticMember] [hasStaticApplicationServerMembership] and [rd_active]
    whether the Association is ASP-ACTIVE, and active for the key. *)
Record reads : Type := mkReads {
  rd_configuredRoutingContexts : list Z;
  rd_staticallyConfiguredASKeys : list ASKey;
  rd_staticMember : ASKey → bool;
  rd_identifier : association → option Z;
  rd_active : ASKey → bool;
  rd_peer : RoutingKeyPeer;
}.

(** The callbacks as they answer during one attempt, for the request at each
    index; an allocation answers with a Routing Context and whether it failed. *)
Record callbacks : Type := mkCallbacks {
  cb_authorizeRegistration : nat → RoutingKeyRegistrationRequest → Z;
  cb_allocateRoutingContext : nat → RoutingKeyRegistrationRequest → list Z → Z * bool;
  cb_authorizeDeregistration : nat → RoutingKeyDeregistrationRequest → bool;
}.

Definition hasASPIdentifierConflict (rd : reads) (c : association) (entry : routingKeyEntry)
    : bool :=
  match rd_identifier rd c with
  | None => false
  | Some identifier =>
      existsb (λ member, negb (bool_decide (member = c)) &&
                 bool_decide (rd_identifier rd member = Some identifier))
        (elements (e_members entry))
  end.

(** ** Registration: the work of one attempt *)

Record allocationDecision : Set := mkAllocation {
  ad_routingContext : Z;
  ad_err : bool;
  ad_inUse : list Z;
}.

(** What the attempts of one call have asked the callbacks already. *)
Record registrationDecisions : Type := mkDecisions {
  authorizations : gmap nat Z;
  allocations : gmap nat allocationDecision;
}.

Definition noDecisions : registrationDecisions := mkDecisions ∅ ∅.

(** The copy an attempt works on. *)
Record work : Type := mkWork {
  w_entries : gmap Z routingKeyEntry;
  w_dynamic : Z;
  w_replays : registrationReplayState;
  w_deregs : deregistrationReplayState;
  w_decisions : registrationDecisions;
}.

(** The conflicts that earlier commits of the call found. *)
Record forced : Type := mkForced {
  f_ASPIdentifierConflicts : gset ASKey;
  f_trafficModeConflicts : gset nat;
}.

Definition noForced : forced := mkForced ∅ ∅.

Fixpoint lowestFree (candidate : Z) (used : list Z) : option Z :=
  match used with
  | [] => if candidate =? 0 then None else Some candidate
  | routingContext :: used =>
      if routingContext <? candidate then lowestFree candidate used
      else if candidate <? routingContext then Some candidate
      else if candidate =? 2 ^ 32 - 1 then None
      else lowestFree (candidate + 1) used
  end.

(** The Routing Contexts in use, sorted. *)
Definition usedRoutingContexts (es : gmap Z routingKeyEntry) (configured : list Z) : list Z :=
  sort_by compareZ (elements (dom es ∪ list_to_set configured)).

(** [allocator] is the wrapper of [register] around the callback. *)
Definition allocateRoutingContext (es : gmap Z routingKeyEntry) (configured : list Z)
    (allocator : option (list Z → Z * bool)) : option Z :=
  let used := usedRoutingContexts es configured in
  match allocator with
  | Some allocator =>
      let '(routingContext, err) := allocator used in
      if err || (routingContext =? 0) || bool_decide (routingContext ∈ used) then None
      else Some routingContext
  | None => lowestFree 1 used
  end.

Definition maxDynamicRoutingKeys (c : RoutingKeyManagementConfig) : Z :=
  if 0 <? MaxDynamicRoutingKeys c then MaxDynamicRoutingKeys c else defaultMaxDynamicRoutingKeys.

Section attempt.
Context (cfg : RoutingKeyManagementConfig) (c : association) (cb : callbacks) (frc : forced).

(** [authorize], and the closure of [register] that asks once per request. *)
Definition authorize (index : nat) (request : RoutingKeyRegistrationRequest) (w : work)
    : Z * work :=
  match authorizations (w_decisions w) !! index with
  | Some status => (status, w)
  | None =>
      let status := cb_authorizeRegistration cb index (snapshotRoutingKeyRegistrationRequest request) in
      let status := if RegistrationRoutingKeyAlreadyRegistered <=? status
                    then RegistrationInvalidRoutingKey else status in
      (status,
       w <| w_decisions := mkDecisions (<[index := status]> (authorizations (w_decisions w)))
                             (allocations (w_decisions w)) |>)
  end.

(** The wrapped allocator: it asks again only when what is in use changed. *)
Definition allocate (index : nat) (request : RoutingKeyRegistrationRequest) (w : work)
    (inUse : list Z) : allocationDecision :=
  let asked :=
    let '(routingContext, err) := cb_allocateRoutingContext cb index
        (snapshotRoutingKeyRegistrationRequest request) inUse in
    mkAllocation routingContext err inUse in
  match allocations (w_decisions w) !! index with
  | Some d => if bool_decide (ad_inUse d = inUse) then d else asked
  | None => asked
  end.

(** Admitting the Association to the entry at [routingContext]. *)
Definition admitMember (request : RoutingKeyRegistrationRequest) (routingContext : Z)
    (entry : routingKeyEntry) (w : work) : work :=
  w <| w_entries := <[routingContext := addMember c (adoptTrafficMode (req_RoutingKey request) entry)]>
                      (w_entries w) |>
    <| w_deregs ::= clearDeregistrationReplayState (e_routingContext entry) |>.

Definition adopt (request : RoutingKeyRegistrationRequest) (routingContext : Z)
    (entry : routingKeyEntry) (w : work) : work :=
  w <| w_entries := <[routingContext := adoptTrafficMode (req_RoutingKey request) entry]>
                      (w_entries w) |>.

Definition refuse (request : RoutingKeyRegistrationRequest) (status : Z)
    : RoutingKeyRegistrationResult :=
  registrationResult (LocalRoutingKeyIdentifier request) status 0.

Definition accept (request : RoutingKeyRegistrationRequest) (status : Z) (entry : routingKeyEntry)
    : RoutingKeyRegistrationResult :=
  registrationResult (LocalRoutingKeyIdentifier request) status (e_routingContext entry).

(** The cases both switches share, once the entry is the one the key names. *)
Definition registerExisting (rd : reads) (index : nat) (request : RoutingKeyRegistrationRequest)
    (routingContext : Z) (entry : routingKeyEntry) (w : work)
    : RoutingKeyRegistrationResult * work :=
  if routingContextConflictsWithAssociationScope (rd_staticallyConfiguredASKeys rd) (entry_asKey entry)
  then (refuse request RegistrationCannotSupportUniqueRouting, w)
  else if negb (registrationTrafficModeCompatible (e_routingKey entry) (req_RoutingKey request))
  then (refuse request RegistrationUnsupportedTrafficHandlingMode, w)
  else if rd_staticMember rd (entry_asKey entry)
  then (accept request RegistrationRoutingKeyAlreadyRegistered entry,
        admitMember request routingContext entry w)
  else if hasMember c entry
  then (accept request RegistrationRoutingKeyAlreadyRegistered entry,
        adopt request routingContext entry w)
  else if hasASPIdentifierConflict rd c entry ||
          bool_decide (entry_asKey entry ∈ f_ASPIdentifierConflicts frc)
  then (refuse request RegistrationPermissionDenied, w)
  else
    let '(status, w) := authorize index request w in
    if status =? RegistrationSuccessfullyRegistered
    then (accept request status entry, admitMember request routingContext entry w)
    else (refuse request status, w).

(** A request that names a Routing Context. *)
Definition registerRequested (rd : reads) (index : nat) (request : RoutingKeyRegistrationRequest)
    (canonical : canonicalRoutingKey) (w : work) : RoutingKeyRegistrationResult * work :=
  match w_entries w !! RequestedRoutingContext request with
  | None => (refuse request RegistrationRoutingKeyChangeRefused, w)
  | Some entry =>
      if negb (bool_decide (e_canonical entry = canonical))
      then (refuse request RegistrationRoutingKeyChangeRefused, w)
      else registerExisting rd index request (RequestedRoutingContext request) entry w
  end.

(** The default case: a Routing Key that nobody has and that overlaps none. *)
Definition registerNew (rd : reads) (index : nat) (request : RoutingKeyRegistrationRequest)
    (canonical : canonicalRoutingKey) (w : work) : RoutingKeyRegistrationResult * work :=
  let '(status, w) := authorize index request w in
  if negb (status =? RegistrationSuccessfullyRegistered) then (refuse request status, w)
  else if negb (AllowDynamicRoutingKeys cfg)
  then (refuse request RegistrationRoutingKeyNotCurrentlyProvisioned, w)
  else if maxDynamicRoutingKeys cfg <=? w_dynamic w
  then (refuse request RegistrationInsufficientResources, w)
  else
    let d := allocate index request w (usedRoutingContexts (w_entries w) (rd_configuredRoutingContexts rd)) in
    let w := if AllocateRoutingContext cfg
             then w <| w_decisions := mkDecisions (authorizations (w_decisions w))
                                        (<[index := d]> (allocations (w_decisions w))) |>
             else w in
    match allocateRoutingContext (w_entries w) (rd_configuredRoutingContexts rd)
            (if AllocateRoutingContext cfg
             then Some (λ _, (ad_routingContext d, ad_err d)) else None) with
    | None => (refuse request RegistrationInsufficientResources, w)
    | Some routingContext =>
        (registrationResult (LocalRoutingKeyIdentifier request)
           RegistrationSuccessfullyRegistered routingContext,
         w <| w_entries := <[routingContext :=
                mkEntry (snapshotRoutingKey (req_RoutingKey request)) canonical routingContext
                  false {[c]}]> (w_entries w) |>
           <| w_dynamic ::= Z.add 1 |>
           <| w_deregs ::= clearDeregistrationReplayState routingContext |>)
    end.

(** A request that leaves the choice of the Routing Context to the registry. *)
Definition registerUnrequested (rd : reads) (index : nat) (request : RoutingKeyRegistrationRequest)
    (canonical : canonicalRoutingKey) (w : work) : RoutingKeyRegistrationResult * work :=
  match findRoutingKeyEntry (w_entries w) canonical with
  | (Some (routingContext, entry), _) => registerExisting rd index request routingContext entry w
  | (None, true) => (refuse request RegistrationCannotSupportUniqueRouting, w)
  | (None, false) => registerNew rd index request canonical w
  end.

(** The answer kept for an equal request. *)
Definition replayed (request : RoutingKeyRegistrationRequest) (state : registrationReplayState)
    : option RoutingKeyRegistrationResult :=
  match byKey state !! LocalRoutingKeyIdentifier request with
  | Some replay => if routingKeyRegistrationRequestsEqual (rp_request replay) request
                   then Some (rp_result replay) else None
  | None => None
  end.

Definition decideRegistration (rd : reads) (index : nat) (request : RoutingKeyRegistrationRequest)
    (w : work) : RoutingKeyRegistrationResult * work :=
  match replayed request (w_replays w) with
  | Some result => (result, w)
  | None =>
      if unsupportedParameterField request
      then (refuse request RegistrationUnsupportedRoutingKeyParameterField, w)
      else if bool_decide (index ∈ f_trafficModeConflicts frc)
      then (refuse request RegistrationUnsupportedTrafficHandlingMode, w)
      else
        match canonicalizeRoutingKey (req_RoutingKey request) with
        | Ok canonical =>
            if associationHasNetworkAppearanceConflict (w_entries w) c canonical
            then (refuse request RegistrationCannotSupportUniqueRouting, w)
            else if RoutingContextRequested request
            then registerRequested rd index request canonical w
            else registerUnrequested rd index request canonical w
        | _ => (refuse request RegistrationInvalidRoutingKey, w)
        end
  end.

(** One iteration of the loop over the requests: the answer is kept. *)
Definition registerOne (rd : reads) (index : nat) (originalRequest : RoutingKeyRegistrationRequest)
    (w : work) : RoutingKeyRegistrationResult * work :=
  let request := snapshotRoutingKeyRegistrationRequest originalRequest in
  let '(result, w) := decideRegistration rd index request w in
  (result, w <| w_replays ::= storeRegistrationReplay request result |>).

(** [rds] gives what is read while each request is decided. *)
Fixpoint registerLoop (rds : nat → reads) (index : nat)
    (requests : list RoutingKeyRegistrationRequest) (w : work)
    : list RoutingKeyRegistrationResult * work :=
  match requests with
  | [] => ([], w)
  | request :: requests =>
      let '(result, w) := registerOne (rds index) index request w in
      let '(results, w) := registerLoop rds (S index) requests w in
      (result :: results, w)
  end.
End attempt.

(** ** Registration: the commit *)

(** The registry of Application Servers as a commit finds it, under its mutex:
    [av_identifierConflict key identifier] is [hasASPIdentifierConflictLocked]
    for the Association and [av_requiredActive] the activation policy's. *)
Record serversView : Type := mkServersView {
  av_closed : bool;
  av_as : gmap ASKey applicationServer;
  av_identifierConflict : ASKey → Z → bool;
  av_requiredActive : ASKey → Z;
}.

(** [v_identifier] is the Association's [PeerASPIdentifier] and [v_trafficModes]
    its [trafficModePolicy]. *)
Record commitView : Type := mkCommitView {
  v_servers : option serversView;
  v_identifier : option Z;
  v_trafficModes : trafficModePolicy;
}.

Definition is_registered (status : Z) : bool :=
  (status =? RegistrationSuccessfullyRegistered) ||
  (status =? RegistrationRoutingKeyAlreadyRegistered).

(** The entries of the successful results. *)
Definition registeredEntries (es : gmap Z routingKeyEntry)
    (results : list RoutingKeyRegistrationResult) : list routingKeyEntry :=
  omap (λ result, if is_registered (rr_Status result) then es !! rr_RoutingContext result
                  else None) results.

(** The order in which the mutexes are taken is not modelled. *)
Definition lockRegistrationApplicationServersLocked (servers : option serversView)
    (es : gmap Z routingKeyEntry) (results : list RoutingKeyRegistrationResult)
    : gmap ASKey applicationServer :=
  match servers with
  | None => ∅
  | Some servers =>
      if av_closed servers then ∅
      else filter (λ ks, ks.1 ∈ entry_asKey <$> registeredEntries es results) (av_as servers)
  end.

Definition registrationASPIdentifierConflictsLocked (view : commitView) (c : association)
    (currentEntries nextEntries : gmap Z routingKeyEntry)
    (results : list RoutingKeyRegistrationResult) : list ASKey :=
  match v_servers view, v_identifier view with
  | Some servers, Some identifier =>
      omap (λ result,
          if negb (rr_Status result =? RegistrationSuccessfullyRegistered) then None
          else if match currentEntries !! rr_RoutingContext result with
                  | Some current => hasMember c current
                  | None => false
                  end then None
          else
            entry ← nextEntries !! rr_RoutingContext result;
            if av_identifierConflict servers (entry_asKey entry) identifier
            then Some (entry_asKey entry) else None)
        results
  | _, _ => []
  end.

(** The mode in force for an entry when the loop meets it first. *)
Definition initialMode (view : commitView) (committedEntries : gmap Z routingKeyEntry)
    (routingContext : Z) (key : ASKey) : option Z :=
  match committedEntries !! routingContext with
  | Some committed =>
      if rk_TrafficModeSet (e_routingKey committed)
      then Some (rk_TrafficMode (e_routingKey committed))
      else configuredForASKey (v_trafficModes view) key
  | None => configuredForASKey (v_trafficModes view) key
  end.

Definition requestedMode (request : RoutingKeyRegistrationRequest) : option Z :=
  if rk_TrafficModeSet (req_RoutingKey request)
  then Some (rk_TrafficMode (req_RoutingKey request)) else None.

Definition requiresSeveralActive (view : commitView) (key : ASKey) : bool :=
  match v_servers view with
  | Some servers => negb (av_requiredActive servers key =? 1)
  | None => false
  end.

(** One iteration: the effective modes by key, and the conflicts found. *)
Definition trafficModeStep (view : commitView) (locked : gmap ASKey applicationServer)
    (committedEntries es : gmap Z routingKeyEntry)
    (acc : gmap ASKey (option Z) * list nat)
    (item : nat * (RoutingKeyRegistrationRequest * RoutingKeyRegistrationResult))
    : gmap ASKey (option Z) * list nat :=
  let '(effectiveModes, conflicts) := acc in
  let '(index, (request, result)) := item in
  if negb (is_registered (rr_Status result)) then acc else
  match es !! rr_RoutingContext result with
  | None => acc
  | Some entry =>
      let key := entry_asKey entry in
      let effective := default (initialMode view committedEntries (rr_RoutingContext result) key)
                         (effectiveModes !! key) in
      let effectiveModes := <[key := effective]> effectiveModes in
      let candidate := match requestedMode request with
                       | Some mode => Some mode | None => effective end in
      if bool_decide (candidate = Some TrafficModeOverride) && requiresSeveralActive view key
      then (effectiveModes, conflicts ++ [index])
      else
        match requestedMode request with
        | None => (effectiveModes, conflicts)
        | Some mode =>
            if match locked !! key with
               | Some s => negb (trafficMode s =? 0) && negb (trafficMode s =? mode)
               | None => false
               end
            then (effectiveModes, conflicts ++ [index])
            else (<[key := candidate]> effectiveModes, conflicts)
        end
  end.

Definition registrationTrafficModeConflictsLocked (view : commitView)
    (locked : gmap ASKey applicationServer) (requests : list RoutingKeyRegistrationRequest)
    (committedEntries es : gmap Z routingKeyEntry) (results : list RoutingKeyRegistrationResult)
    : list nat :=
  (foldl (trafficModeStep view locked committedEntries es) (∅, [])
     (zip (seq 0 (length results)) (zip requests results))).2.

Definition adoptRegistrationTrafficModesLocked (locked : gmap ASKey applicationServer)
    (es : gmap Z routingKeyEntry) (results : list RoutingKeyRegistrationResult)
    : gmap ASKey applicationServer :=
  let desired : gmap ASKey Z := foldl (λ desired entry,
      if rk_TrafficModeSet (e_routingKey entry)
      then <[entry_asKey entry := rk_TrafficMode (e_routingKey entry)]> desired else desired)
    ∅ (registeredEntries es results) in
  map_imap (λ key s, let mode := default 0 (desired !! key) in
              Some (if mode =? 0 then s else setTrafficModeLocked mode s)) locked.

(** What the commit of an attempt leads to. *)
Inductive commitOutcome : Type :=
| CommitEnded
| CommitRetry (frc : forced)
| CommitDone (registry : routingKeyRegistry) (servers : gmap ASKey applicationServer)
    (results : list RoutingKeyRegistrationResult).

(** The copy an attempt has worked on, with the revision it was taken at. *)
Record registrationAttempt : Type := mkAttempt {
  at_revision : Z;
  at_results : list RoutingKeyRegistrationResult;
  at_work : work;
}.

Definition startWork (c : association) (registry : routingKeyRegistry)
    (decisions : registrationDecisions) : work :=
  mkWork (entries registry) (dynamic registry) (default noReplays (replays registry !! c))
    (default noReplays (deregReplays registry !! c)) decisions.

(** One pass of the loop of [register], up to the mutexes. *)
Definition attemptRegistration (cfg : RoutingKeyManagementConfig) (c : association)
    (cb : callbacks) (frc : forced) (decisions : registrationDecisions) (rds : nat → reads)
    (requests : list RoutingKeyRegistrationRequest) (registry : routingKeyRegistry)
    : registrationAttempt :=
  let '(results, w) := registerLoop cfg c cb frc rds 0 requests (startWork c registry decisions) in
  mkAttempt (revision registry) results w.

(** The replacement of the registry's state. *)
Definition installRegistration (c : association) (w : work) (registry : routingKeyRegistry)
    : routingKeyRegistry :=
  mkRegistry (u64 (revision registry + 1)) (config registry) (w_entries w)
    (<[c := w_replays w]> (replays registry)) (<[c := w_deregs w]> (deregReplays registry))
    (w_dynamic w).

(** [ended] is [associationEnded]. *)
Definition commitRegistration (c : association) (ended : bool) (frc : forced)
    (requests : list RoutingKeyRegistrationRequest) (view : commitView)
    (attempt : registrationAttempt) (registry : routingKeyRegistry) : commitOutcome :=
  let w := at_work attempt in
  let results := at_results attempt in
  let locked := lockRegistrationApplicationServersLocked (v_servers view) (w_entries w) results in
  if negb (revision registry =? at_revision attempt) then CommitRetry frc
  else if ended then CommitEnded
  else
    let identifierConflicts :=
      registrationASPIdentifierConflictsLocked view c (entries registry) (w_entries w) results in
    if negb (len identifierConflicts =? 0)
    then CommitRetry (mkForced (list_to_set identifierConflicts ∪ f_ASPIdentifierConflicts frc)
                        (f_trafficModeConflicts frc))
    else
      let trafficModeConflicts :=
        registrationTrafficModeConflictsLocked view locked requests (entries registry)
          (w_entries w) results in
      if negb (len trafficModeConflicts =? 0)
      then CommitRetry (mkForced (f_ASPIdentifierConflicts frc)
                          (list_to_set trafficModeConflicts ∪ f_trafficModeConflicts frc))
      else CommitDone (installRegistration c w registry)
             (adoptRegistrationTrafficModesLocked locked (w_entries w) results) results.

(** ** Deregistration *)

Definition deregDecisions : Type := gmap nat (RoutingKeyDeregistrationRequest * bool).

Record deregWork : Type := mkDeregWork {
  d_entries : gmap Z routingKeyEntry;
  d_dynamic : Z;
  d_regs : registrationReplayState;
  d_deregs : deregistrationReplayState;
  d_decisions : deregDecisions;
  d_batchResults : gmap Z RoutingKeyDeregistrationResult;
}.

Section deregister.
Context (cfg : RoutingKeyManagementConfig) (c : association) (cb : callbacks).

(** The callback is asked again only when the request changed. *)
Definition authorizeDereg (index : nat) (request : RoutingKeyDeregistrationRequest)
    (decisions : deregDecisions) : bool * deregDecisions :=
  if negb (AuthorizeDeregistration cfg) then (true, decisions) else
  let ask := let allow := cb_authorizeDeregistration cb index request in
             (allow, <[index := (request, allow)]> decisions) in
  match decisions !! index with
  | Some (asked, allow) =>
      if routingKeyDeregistrationRequestsEqual asked request then (allow, decisions) else ask
  | None => ask
  end.

Definition deregResult (routingContext status : Z) : RoutingKeyDeregistrationResult :=
  mkDeregistrationResult routingContext status zeroASKey false.

(** The default case: the member leaves the entry, and an entry nobody needs
    leaves the registry. *)
Definition leaveEntry (routingContext : Z) (entry : routingKeyEntry) (w : deregWork)
    : RoutingKeyDeregistrationResult * deregWork :=
  let entry' := deleteMember c entry in
  let unused := negb (e_provisioned entry) && bool_decide (e_members entry' = ∅) &&
                RemoveUnusedRoutingKeys cfg in
  let result := mkDeregistrationResult routingContext DeregistrationSuccessfullyDeregistered
                  (entry_asKey entry) false in
  let w := w <| d_entries := <[routingContext := entry']> (d_entries w) |>
             <| d_deregs ::= storeDeregistrationReplay result |>
             <| d_regs ::= purgeRegistrationReplayState routingContext |> in
  if unused then
    let result := mkDeregistrationResult routingContext DeregistrationSuccessfullyDeregistered
                    (entry_asKey entry) true in
    (result,
     w <| d_deregs ::= storeDeregistrationReplay result |>
       <| d_entries ::= delete routingContext |>
       <| d_dynamic ::= λ n, n - 1 |>)
  else (result, w).

Definition decideDeregistration (rd : reads) (index : nat) (routingContext : Z) (w : deregWork)
    : RoutingKeyDeregistrationResult * deregWork :=
  match byKey (d_deregs w) !! routingContext with
  | Some replay => (replay, w <| d_deregs ::= storeDeregistrationReplay replay |>)
  | None =>
      match d_entries w !! routingContext with
      | None => (deregResult routingContext DeregistrationInvalidRoutingContext, w)
      | Some entry =>
          if negb (hasMember c entry)
          then (deregResult routingContext DeregistrationNotRegistered, w)
          else if rd_active rd (entry_asKey entry)
          then (deregResult routingContext DeregistrationASPActiveForRoutingContext, w)
          else
            let request := mkDeregistrationRequest (rd_peer rd) routingContext
                             (snapshotRoutingKey (e_routingKey entry)) (e_provisioned entry) in
            let '(allowed, decisions) := authorizeDereg index request (d_decisions w) in
            let w := w <| d_decisions := decisions |> in
            if negb allowed
            then (deregResult routingContext DeregistrationPermissionDenied, w)
            else leaveEntry routingContext entry w
      end
  end.

Definition deregisterOne (rd : reads) (index : nat) (routingContext : Z) (w : deregWork)
    : RoutingKeyDeregistrationResult * deregWork :=
  match d_batchResults w !! routingContext with
  | Some previous => (previous, w)
  | None =>
      let '(result, w) := decideDeregistration rd index routingContext w in
      (result, w <| d_batchResults ::= <[routingContext := result]> |>)
  end.

Fixpoint deregisterLoop (rds : nat → reads) (index : nat) (routingContexts : list Z)
    (w : deregWork) : list RoutingKeyDeregistrationResult * deregWork :=
  match routingContexts with
  | [] => ([], w)
  | routingContext :: routingContexts =>
      let '(result, w) := deregisterOne (rds index) index routingContext w in
      let '(results, w) := deregisterLoop rds (S index) routingContexts w in
      (result :: results, w)
  end.
End deregister.

Definition startDeregWork (c : association) (registry : routingKeyRegistry)
    (decisions : deregDecisions) : deregWork :=
  mkDeregWork (entries registry) (dynamic registry) (default noReplays (replays registry !! c))
    (default noReplays (deregReplays registry !! c)) decisions ∅.

Record deregistrationAttempt : Type := mkDeregAttempt {
  da_revision : Z;
  da_results : list RoutingKeyDeregistrationResult;
  da_work : deregWork;
}.

Definition attemptDeregistration (cfg : RoutingKeyManagementConfig) (c : association)
    (cb : callbacks) (decisions : deregDecisions) (rds : nat → reads)
    (routingContexts : list Z) (registry : routingKeyRegistry) : deregistrationAttempt :=
  let '(results, w) :=
    deregisterLoop cfg c cb rds 0 routingContexts (startDeregWork c registry decisions) in
  mkDeregAttempt (revision registry) results w.

Definition installDeregistration (c : association) (w : deregWork) (registry : routingKeyRegistry)
    : routingKeyRegistry :=
  mkRegistry (u64 (revision registry + 1)) (config registry) (d_entries w)
    (<[c := d_regs w]> (replays registry)) (<[c := d_deregs w]> (deregReplays registry))
    (d_dynamic w).

Inductive deregOutcome : Type :=
| DeregEnded
| DeregRetry
| DeregDone (registry : routingKeyRegistry) (results : list RoutingKeyDeregistrationResult).

Definition commitDeregistration (c : association) (ended : bool) (attempt : deregistrationAttempt)
    (registry : routingKeyRegistry) : deregOutcome :=
  if negb (revision registry =? da_revision attempt) then DeregRetry
  else if ended then DeregEnded
  else DeregDone (installDeregistration c (da_work attempt) registry) (da_results attempt).

Definition unknownDeregistrationResults (routingContexts : list Z)
    : list RoutingKeyDeregistrationResult :=
  map (λ rc, deregResult rc DeregistrationStatusUnknown) routingContexts.

(** Without configuration both procedures answer without a registry. *)
Definition unknownRegistrationResults (requests : list RoutingKeyRegistrationRequest)
    : list RoutingKeyRegistrationResult :=
  map (λ r, registrationResult (LocalRoutingKeyIdentifier r) RegistrationStatusUnknown 0) requests.

(** ** The other operations *)

(** One iteration of [forgetAssociation]: the keys of the entries removed. *)
Definition forgetStep (removeUnused : bool) (c : association)
    (acc : gmap Z routingKeyEntry * Z * list ASKey) (item : Z * routingKeyEntry)
    : gmap Z routingKeyEntry * Z * list ASKey :=
  let '(es, n, removed) := acc in
  let '(routingContext, entry) := item in
  if negb (hasMember c entry) then acc
  else
    let entry' := deleteMember c entry in
    if negb (e_provisioned entry) && bool_decide (e_members entry' = ∅) && removeUnused
    then (delete routingContext es, n - 1, removed ++ [entry_asKey entry])
    else (<[routingContext := entry']> es, n, removed).

Definition removesUnused (registry : routingKeyRegistry) : bool :=
  match config registry with Some cfg => RemoveUnusedRoutingKeys cfg | None => false end.

Definition forgetAssociation (c : association) (registry : routingKeyRegistry)
    : routingKeyRegistry * list ASKey :=
  let '(es, n, removed) :=
    foldl (forgetStep (removesUnused registry) c) (entries registry, dynamic registry, [])
      (map_to_list (entries registry)) in
  (mkRegistry (u64 (revision registry + 1)) (config registry) es (delete c (replays registry))
     (delete c (deregReplays registry)) n, removed).

(** What an answer that has been written leaves pending. *)
Definition writtenStep {A} (matches : A → bool) (acc : replayState A * bool) (k : Z)
    : replayState A * bool :=
  let '(state, changed) := acc in
  match byKey state !! k with
  | Some replay =>
      if matches replay && bool_decide (k ∈ pending state)
      then (mkReplays (byKey state) (order state) (pending state ∖ {[k]}), true)
      else acc
  | None => acc
  end.

Definition set_replays (c : association) (state : registrationReplayState) (bump : bool)
    (registry : routingKeyRegistry) : routingKeyRegistry :=
  mkRegistry (if bump then u64 (revision registry + 1) else revision registry) (config registry)
    (entries registry) (<[c := state]> (replays registry)) (deregReplays registry)
    (dynamic registry).

Definition set_deregReplays (c : association) (state : deregistrationReplayState) (bump : bool)
    (registry : routingKeyRegistry) : routingKeyRegistry :=
  mkRegistry (if bump then u64 (revision registry + 1) else revision registry) (config registry)
    (entries registry) (replays registry) (<[c := state]> (deregReplays registry))
    (dynamic registry).

Definition registrationResponseWritten (c : association)
    (requests : list RoutingKeyRegistrationRequest)
    (results : list RoutingKeyRegistrationResult) (registry : routingKeyRegistry)
    : routingKeyRegistry :=
  match replays registry !! c with
  | None => registry
  | Some state =>
      let '(state', changed) :=
        foldl (λ acc '(request, result),
            writtenStep (λ replay, bool_decide (rp_result replay = result) &&
                           routingKeyRegistrationRequestsEqual (rp_request replay) request)
              acc (LocalRoutingKeyIdentifier request))
          (state, false) (zip requests results) in
      let before := len (order state') in
      let state' := trimReplayState registrationReplayLimit state' in
      set_replays c state' (changed || negb (len (order state') =? before)) registry
  end.

Definition deregistrationResponseWritten (c : association)
    (results : list RoutingKeyDeregistrationResult) (registry : routingKeyRegistry)
    : routingKeyRegistry :=
  match deregReplays registry !! c with
  | None => registry
  | Some state =>
      let '(state', changed) :=
        foldl (λ acc result, writtenStep (λ replay, bool_decide (replay = result)) acc
                               (dr_RoutingContext result))
          (state, false) results in
      let before := len (order state') in
      let state' := trimReplayState deregistrationReplayLimit state' in
      set_deregReplays c state' (changed || negb (len (order state') =? before)) registry
  end.

(** ** Queries *)

Definition registry_asKey (registry : routingKeyRegistry) (routingContext : Z) : option ASKey :=
  entry_asKey <$> entries registry !! routingContext.

Definition registry_routingKey (registry : routingKeyRegistry) (routingContext : Z)
    : option RoutingKey :=
  (λ entry, snapshotRoutingKey (e_routingKey entry)) <$> entries registry !! routingContext.

Definition askey_order : list ASKey → list ASKey := sort_by compareASKey.

(** [None] when there are no entries. *)
Definition matchingASKeys (registry : routingKeyRegistry) (networkAppearance : Z)
    (networkAppearanceSet : bool) (originatingPointCode destinationPointCode serviceIndicator : Z)
    : option (list ASKey) :=
  if bool_decide (entries registry = ∅) then None
  else Some (askey_order (entry_asKey <$> List.filter (λ entry,
         matchesTraffic (e_canonical entry) networkAppearance networkAppearanceSet
           originatingPointCode destinationPointCode serviceIndicator)
         (map_to_list (entries registry)).*2)).

(** The keys are the [configuredASKeys] of the two Associations. *)
Definition associationsShareRoutingKey (registry : routingKeyRegistry)
    (first second : association) (firstKeys secondKeys : list ASKey) : bool :=
  existsb (λ '(_, entry),
      (hasMember first entry &&
         (hasMember second entry || bool_decide (entry_asKey entry ∈ secondKeys))) ||
      (hasMember second entry && bool_decide (entry_asKey entry ∈ firstKeys)))
    (map_to_list (entries registry)).

(** ** Concurrent calls

    A call of [register] or [deregister] alternates attempts and commits;
    between any two steps of it, other calls and the other operations of the
    registry run.  An Association that has ended ([done] is closed) stays so,
    and is forgotten only then. *)

Inductive callState : Type :=
| Registering (c : association) (requests : list RoutingKeyRegistrationRequest)
    (decisions : registrationDecisions) (frc : forced) (attempt : option registrationAttempt)
| Deregistering (c : association) (routingContexts : list Z) (decisions : deregDecisions)
    (attempt : option deregistrationAttempt)
| Registered (results : list RoutingKeyRegistrationResult)
| Deregistered (results : list RoutingKeyDeregistrationResult)
| Aborted.

Record world : Type := mkWorld {
  w_registry : routingKeyRegistry;
  w_ended : gset association;
  w_forgotten : gset association;
  w_calls : gmap nat callState;
}.

Inductive event : Type :=
| ECall (id : nat) (c : association) (requests : list RoutingKeyRegistrationRequest)
| ECallDereg (id : nat) (c : association) (routingContexts : list Z)
| EAttempt (id : nat) (cb : callbacks) (rds : nat → reads)
| ECommit (id : nat) (view : commitView)
| EAbort (id : nat)
| EEnd (c : association)
| EForget (c : association)
| EWritten (c : association) (requests : list RoutingKeyRegistrationRequest)
    (results : list RoutingKeyRegistrationResult)
| EDeregWritten (c : association) (results : list RoutingKeyDeregistrationResult).

Definition set_registry (registry : routingKeyRegistry) (w : world) : world :=
  mkWorld registry (w_ended w) (w_forgotten w) (w_calls w).
Definition set_call (id : nat) (call : callState) (w : world) : world :=
  mkWorld (w_registry w) (w_ended w) (w_forgotten w) (<[id := call]> (w_calls w)).

Definition startCall (id : nat) (call without : callState) (w : world) : option world :=
  match w_calls w !! id with
  | Some _ => None
  | None => Some (set_call id (if bool_decide (is_Some (config (w_registry w))) then call
                               else without) w)
  end.

Definition call_association (call : callState) : option association :=
  match call with
  | Registering c _ _ _ _ | Deregistering c _ _ _ => Some c
  | _ => None
  end.

Definition stepAttempt (id : nat) (cb : callbacks) (rds : nat → reads) (w : world) : option world :=
  cfg ← config (w_registry w);
  call ← w_calls w !! id;
  match call with
  | Registering c requests decisions frc None =>
      if bool_decide (c ∈ w_ended w) then None else
      let attempt := attemptRegistration cfg c cb frc decisions rds requests (w_registry w) in
      Some (set_call id (Registering c requests (w_decisions (at_work attempt)) frc (Some attempt)) w)
  | Deregistering c routingContexts decisions None =>
      if bool_decide (c ∈ w_ended w) then None else
      let attempt := attemptDeregistration cfg c cb decisions rds routingContexts (w_registry w) in
      Some (set_call id (Deregistering c routingContexts (d_decisions (da_work attempt))
                           (Some attempt)) w)
  | _ => None
  end.

Definition stepCommit (id : nat) (view : commitView) (w : world) : option world :=
  call ← w_calls w !! id;
  match call with
  | Registering c requests decisions frc (Some attempt) =>
      Some match commitRegistration c (bool_decide (c ∈ w_ended w)) frc requests view attempt
                   (w_registry w) with
           | CommitEnded => set_call id Aborted w
           | CommitRetry frc => set_call id (Registering c requests decisions frc None) w
           | CommitDone registry _ results => set_registry registry (set_call id (Registered results) w)
           end
  | Deregistering c routingContexts decisions (Some attempt) =>
      Some match commitDeregistration c (bool_decide (c ∈ w_ended w)) attempt (w_registry w) with
           | DeregEnded => set_call id Aborted w
           | DeregRetry => set_call id (Deregistering c routingContexts decisions None) w
           | DeregDone registry results =>
               set_registry registry (set_call id (Deregistered results) w)
           end
  | _ => None
  end.

(** A call of an Association that has ended may find so at any time. *)
Definition stepAbort (id : nat) (w : world) : option world :=
  call ← w_calls w !! id;
  c ← call_association call;
  if bool_decide (c ∈ w_ended w) then Some (set_call id Aborted w) else None.

Definition rkm_step (e : event) (w : world) : option world :=
  match e with
  | ECall id c requests =>
      startCall id (Registering c requests noDecisions noForced None)
        (Registered (unknownRegistrationResults requests)) w
  | ECallDereg id c routingContexts =>
      startCall id (Deregistering c routingContexts ∅ None)
        (Deregistered (unknownDeregistrationResults routingContexts)) w
  | EAttempt id cb rds => stepAttempt id cb rds w
  | ECommit id view => stepCommit id view w
  | EAbort id => stepAbort id w
  | EEnd c => Some (mkWorld (w_registry w) ({[c]} ∪ w_ended w) (w_forgotten w) (w_calls w))
  | EForget c =>
      if bool_decide (c ∈ w_ended w)
      then Some (mkWorld (forgetAssociation c (w_registry w)).1 (w_ended w)
                   ({[c]} ∪ w_forgotten w) (w_calls w))
      else None
  | EWritten c requests results =>
      Some (set_registry (registrationResponseWritten c requests results (w_registry w)) w)
  | EDeregWritten c results =>
      Some (set_registry (deregistrationResponseWritten c results (w_registry w)) w)
  end.

Fixpoint rkm_run (es : list event) (w : world) : option world :=
  match es with
  | [] => Some w
  | e :: es => w' ← rkm_step e w; rkm_run es w'
  end.

Definition initialWorld (registry : routingKeyRegistry) : world := mkWorld registry ∅ ∅ ∅.
