(* ===== verification/RkmInvariant.v ===== *)
(** * Routing Key Management: invariants of the registry

    What the entries, the members and the kept answers satisfy, and that
    registration, deregistration and the end of an Association preserve it. *)

From stdpp Require Import sorting.
From coqutil Require Import Datatypes.RecordSettersUsingExistingGetters.
From S2P Require Import Prelude Params ParamValues Inventory AppServer RoutingKey RoutingKeyTheory.
From S2P Require Import RkmRegistry.
#[local] Open Scope Z_scope.
Set Default Goal Selector "!".

(** ** The entries *)

Record entry_ok (routingContext : Z) (entry : routingKeyEntry) : Prop := {
  eo_context : e_routingContext entry = routingContext;
  eo_nonzero : routingContext ≠ 0;
  eo_canonical : canonicalizeRoutingKey (e_routingKey entry) = Ok (e_canonical entry);
  eo_key : ok_key (e_canonical entry);
}.

Definition unprovisioned (es : gmap Z routingKeyEntry) : gmap Z routingKeyEntry :=
  filter (λ ke, e_provisioned ke.2 = false) es.

(** No two entries overlap, and the counter counts the dynamic ones. *)
Record entries_ok (cfg : RoutingKeyManagementConfig) (es : gmap Z routingKeyEntry) (n : Z)
    : Prop := {
  eso_entry : map_Forall entry_ok es;
  eso_disjoint : ∀ rc rc' e e', es !! rc = Some e → es !! rc' = Some e' → rc ≠ rc' →
    overlaps (e_canonical e) (e_canonical e') = false;
  eso_count : n = Z.of_nat (size (unprovisioned es));
  eso_bound : n ≤ maxDynamicRoutingKeys cfg;
  eso_static : AllowDynamicRoutingKeys cfg = false → n = 0;
}.

(** An entry but for its members and an adopted traffic mode. *)
Record same_entry (e e' : routingKeyEntry) : Prop := {
  se_canonical : e_canonical e' = e_canonical e;
  se_context : e_routingContext e' = e_routingContext e;
  se_provisioned : e_provisioned e' = e_provisioned e;
  se_asKey : entry_asKey e' = entry_asKey e;
  se_valid : canonicalizeRoutingKey (e_routingKey e) = Ok (e_canonical e) →
    canonicalizeRoutingKey (e_routingKey e') = Ok (e_canonical e');
}.

#[export] Instance same_entry_preorder : PreOrder same_entry.
Proof.
  split; [split; auto|]. intros x y z [] []. split; try congruence. auto.
Qed.

Lemma canonicalize_mode key mode set ck :
  canonicalizeRoutingKey key = Ok ck → (set = true → validTrafficMode mode = true) →
  canonicalizeRoutingKey (mkRK (rk_NetworkAppearance key) (rk_NetworkAppearanceSet key)
    mode set (rk_Groups key)) = Ok ck.
Proof.
  intros H Hm. eapply canonicalize_same; [|done|exact H].
  unfold same_selectors. cbn. split_and!; [done..| |]; intros g Hg; exists g; by split.
Qed.

Lemma adoptTrafficMode_same request canonical e :
  canonicalizeRoutingKey request = Ok canonical → same_entry e (adoptTrafficMode request e).
Proof.
  intros Hr. unfold adoptTrafficMode. destruct (_ || _) eqn:Hc; [done|].
  to_prop. split; cbn; try done. intros He. apply canonicalize_mode; [done|].
  intros _. apply canonicalizeRoutingKey_Ok in Hr as (? & _ & _ & _ & Hm). auto.
Qed.

Lemma adoptTrafficMode_members request e : e_members (adoptTrafficMode request e) = e_members e.
Proof. unfold adoptTrafficMode. by case_match. Qed.

Lemma addMember_same c e : same_entry e (addMember c e).
Proof. by split. Qed.

Lemma deleteMember_same c e : same_entry e (deleteMember c e).
Proof. by split. Qed.

Lemma same_entry_ok rc e e' : same_entry e e' → entry_ok rc e → entry_ok rc e'.
Proof.
  intros [Hc Hx Hp Hk Hv] [H1 H2 H3 H4]. split; [congruence|done|auto|by rewrite Hc].
Qed.

Lemma unprovisioned_insert rc e e' es :
  es !! rc = Some e → e_provisioned e' = e_provisioned e →
  size (unprovisioned (<[rc := e']> es)) = size (unprovisioned es).
Proof.
  intros He Hp. unfold unprovisioned. destruct (decide (e_provisioned e = false)) as [Hf|Hf].
  - rewrite map_filter_insert_True by (cbn; congruence).
    rewrite map_size_insert_Some; [done|]. exists e. by apply map_lookup_filter_Some.
  - rewrite map_filter_insert_False by (cbn; congruence).
    rewrite map_filter_delete_not; [done|]. intros y Hy. cbn. congruence.
Qed.

(** Replacing an entry by one that differs in its members only. *)
Lemma entries_ok_insert_same cfg es n rc e e' :
  entries_ok cfg es n → es !! rc = Some e → same_entry e e' →
  entries_ok cfg (<[rc := e']> es) n.
Proof.
  intros [Hentry Hdis Hcount Hb Hs] He Hsame. split; [..|done|done].
  - apply map_Forall_insert_2; [|done]. eapply same_entry_ok; [done|]. by apply Hentry.
  - assert (Hlook : ∀ k x, <[rc := e']> es !! k = Some x →
      ∃ y, es !! k = Some y ∧ e_canonical x = e_canonical y).
    { intros k x. rewrite lookup_insert_Some. intros [[<- <-]|[_ ?]]; [|eauto].
      exists e. split; [done|]. by destruct Hsame. }
    intros k k' x x' Hx Hx' Hne. destruct (Hlook k x Hx) as (y & ? & ->).
    destruct (Hlook k' x' Hx') as (y' & ? & ->). eauto.
  - rewrite (unprovisioned_insert _ e) by (done || by destruct Hsame). done.
Qed.

(** A new dynamic entry. *)
Lemma entries_ok_insert_new cfg es n rc e :
  entries_ok cfg es n → es !! rc = None → entry_ok rc e → e_provisioned e = false →
  (∀ k x, es !! k = Some x → overlaps (e_canonical x) (e_canonical e) = false) →
  AllowDynamicRoutingKeys cfg = true → n < maxDynamicRoutingKeys cfg →
  entries_ok cfg (<[rc := e]> es) (1 + n).
Proof.
  intros [Hentry Hdis Hcount Hb Hs] Hnone Hok Hp Hov Hallow Hn. split; [..|lia|congruence].
  - by apply map_Forall_insert_2.
  - intros k k' x x'. rewrite !lookup_insert_Some.
    intros [[<- <-]|[Hk Hx]] [[<- <-]|[Hk' Hx']] Hne; [done|..|eauto|eauto].
    rewrite overlaps_sym; [eauto|by destruct Hok|]. by apply Hentry in Hx' as [].
  - unfold unprovisioned in *. rewrite map_filter_insert_True by done.
    rewrite map_size_insert_None; [lia|]. apply map_lookup_filter_None. by left.
Qed.

(** The loss of a dynamic entry. *)
Lemma entries_ok_delete cfg es n rc e :
  entries_ok cfg es n → es !! rc = Some e → e_provisioned e = false →
  entries_ok cfg (delete rc es) (n - 1).
Proof.
  intros [Hentry Hdis Hcount Hb Hs] He Hp.
  assert (Hsize : size (unprovisioned es) = S (size (unprovisioned (delete rc es)))).
  { unfold unprovisioned. rewrite map_filter_delete.
    assert (Hin : filter (λ ke, e_provisioned ke.2 = false) es !! rc = Some e)
      by by apply map_lookup_filter_Some.
    rewrite <-(insert_delete_id _ _ _ Hin) at 1. rewrite map_size_insert_None; [done|].
    by rewrite lookup_delete_eq. }
  split.
  - by apply map_Forall_delete.
  - intros k k' x x' [_ Hx]%lookup_delete_Some [_ Hx']%lookup_delete_Some. eauto.
  - lia.
  - lia.
  - intros Hf. specialize (Hs Hf). lia.
Qed.

(** ** Kept answers *)

(** The order lists the keys, each once, and what is pending is kept. *)
Record replays_wf {A} (state : replayState A) : Prop := {
  rw_nodup : NoDup (order state);
  rw_order : ∀ k, k ∈ order state ↔ is_Some (byKey state !! k);
  rw_pending : ∀ k, k ∈ pending state → k ∈ order state;
}.

Section replays.
Context {A : Type}.
Implicit Types (state : replayState A) (kept : gmap Z A).

Lemma trimLoop_spec excess waiting l kept : NoDup l →
  let '(retained, kept') := trimLoop excess waiting l kept in
  retained `sublist_of` l ∧
  (∀ k, kept' !! k = if bool_decide (k ∈ l ∧ k ∉ retained) then None else kept !! k) ∧
  (∀ k, k ∈ l → k ∈ waiting → k ∈ retained) ∧
  (excess ≤ 0 → retained = l) ∧
  (0 ≤ excess → len l - len retained ≤ excess) ∧
  (len l - len retained < excess → ∀ k, k ∈ retained → k ∈ waiting).
Proof.
  revert excess kept. induction l as [|x l IH]; intros excess kept Hnd; cbn [trimLoop].
  { split_and!; [reflexivity|intros k|set_solver|done|unfold len; cbn; lia|set_solver].
    by rewrite bool_decide_eq_false_2 by set_solver. }
  apply NoDup_cons in Hnd as [Hx Hnd]. rewrite len_cons.
  destruct ((0 <? excess) && bool_decide (x ∉ waiting)) eqn:Hc.
  - to_prop. apply bool_decide_eq_true in H0.
    specialize (IH (excess - 1) (delete x kept) Hnd).
    destruct (trimLoop _ _ _ _) as [retained kept'].
    destruct IH as (Hsub & Hkept & Hpend & Hle & Hn & Hall). split_and!.
    + by apply sublist_cons.
    + intros k. rewrite Hkept, lookup_delete. destruct (decide (k = x)) as [->|Hne].
      * rewrite (bool_decide_eq_true_2 (x ∈ x :: l ∧ _)).
        -- rewrite decide_True by done. by case_bool_decide.
        -- split; [set_solver|]. intros Hin. apply Hx.
           eapply elem_of_submseteq; [exact Hin|by apply sublist_submseteq].
      * rewrite decide_False by congruence.
        rewrite (bool_decide_ext _ (k ∈ x :: l ∧ k ∉ retained)) by set_solver. done.
    + intros k [->|Hk]%elem_of_cons Hw; [done|auto].
    + lia.
    + lia.
    + intros. apply Hall; [lia|done].
  - specialize (IH excess kept Hnd). destruct (trimLoop _ _ _ _) as [retained kept'].
    destruct IH as (Hsub & Hkept & Hpend & Hle & Hn & Hall). rewrite len_cons. split_and!.
    + by apply sublist_skip.
    + intros k. rewrite Hkept. destruct (decide (k = x)) as [->|Hne].
      * rewrite !bool_decide_eq_false_2; [done|set_solver..].
      * rewrite (bool_decide_ext _ (k ∈ x :: l ∧ k ∉ x :: retained)) by set_solver. done.
    + intros k [->|Hk]%elem_of_cons Hw; [set_solver|]. apply elem_of_cons. auto.
    + intros. f_equal. auto.
    + lia.
    + intros Hlt k [->|Hk]%elem_of_cons; [|by apply Hall; [lia|]].
      apply andb_false_iff in Hc as [Hc|Hc]; [|by apply bool_decide_eq_false, dec_stable in Hc].
      apply Z.ltb_ge in Hc. specialize (Hle Hc). subst retained. lia.
Qed.

Lemma trim_wf limit state : replays_wf state → replays_wf (trimReplayState limit state).
Proof.
  intros [Hnd Hord Hpend]. unfold trimReplayState. case_match; [done|].
  pose proof (trimLoop_spec (len (order state) - limit) (pending state) (order state)
                (byKey state) Hnd) as Hspec.
  destruct (trimLoop _ _ _ _) as [retained kept']. destruct Hspec as (Hsub & Hkept & Hw & _).
  assert (Hin : ∀ k, k ∈ retained → k ∈ order state).
  { intros k Hk. eapply elem_of_submseteq; [exact Hk|by apply sublist_submseteq]. }
  split; cbn.
  - by eapply sublist_NoDup.
  - intros k. rewrite Hkept. case_bool_decide as Hc.
    + rewrite is_Some_alt. set_solver.
    + rewrite <-Hord. split; [auto|]. intros Hk. destruct (decide (k ∈ retained)); tauto.
  - intros k Hk. auto.
Qed.

(** Trimming forgets answers only, and none that is pending. *)
Lemma trim_lookup limit state k v : replays_wf state →
  byKey (trimReplayState limit state) !! k = Some v → byKey state !! k = Some v.
Proof.
  intros [Hnd Hord Hpend]. unfold trimReplayState. case_match; [done|].
  pose proof (trimLoop_spec (len (order state) - limit) (pending state) (order state)
                (byKey state) Hnd) as Hspec.
  destruct (trimLoop _ _ _ _) as [retained kept']. destruct Hspec as (_ & Hkept & _).
  cbn. rewrite Hkept. by case_bool_decide.
Qed.

Lemma trim_pending limit state k : replays_wf state → k ∈ pending state →
  byKey (trimReplayState limit state) !! k = byKey state !! k.
Proof.
  intros [Hnd Hord Hpend] Hk. unfold trimReplayState. case_match; [done|].
  pose proof (trimLoop_spec (len (order state) - limit) (pending state) (order state)
                (byKey state) Hnd) as Hspec.
  destruct (trimLoop _ _ _ _) as [retained kept']. destruct Hspec as (_ & Hkept & Hw & _).
  cbn. rewrite Hkept, bool_decide_eq_false_2; [done|]. intros [Hin Hnin]. auto.
Qed.

Lemma trim_pending_eq limit state : pending (trimReplayState limit state) = pending state.
Proof. unfold trimReplayState. case_match; [done|]. by destruct (trimLoop _ _ _ _). Qed.

(** No more answers are kept than the limit, but for those still pending. *)
Lemma trim_bound limit state : 0 ≤ limit → replays_wf state →
  len (order (trimReplayState limit state)) ≤ Z.max limit (Z.of_nat (size (pending state))).
Proof.
  intros Hlim [Hnd Hord Hpend]. unfold trimReplayState. case_match; [to_prop; lia|].
  pose proof (trimLoop_spec (len (order state) - limit) (pending state) (order state)
                (byKey state) Hnd) as Hspec.
  destruct (trimLoop _ _ _ _) as [retained kept'].
  destruct Hspec as (Hsub & _ & _ & _ & Hn & Hall). cbn.
  to_prop. destruct (Z.lt_ge_cases (len (order state) - len retained) (len (order state) - limit))
    as [Hlt|]; [|lia].
  specialize (Hall Hlt).
  assert (length retained ≤ size (pending state))%nat; [|unfold len; lia].
  rewrite <-(size_list_to_set (C := gset Z) retained) by by eapply sublist_NoDup.
  apply subseteq_size. intros k. rewrite elem_of_list_to_set. apply Hall.
Qed.

Lemma trim_unchanged limit state : replays_wf state →
  len (order (trimReplayState limit state)) = len (order state) →
  trimReplayState limit state = state.
Proof.
  intros [Hnd Hord Hpend]. unfold trimReplayState. case_match; [done|].
  pose proof (trimLoop_spec (len (order state) - limit) (pending state) (order state)
                (byKey state) Hnd) as Hspec.
  destruct (trimLoop _ _ _ _) as [retained kept']. destruct Hspec as (Hsub & Hkept & _).
  cbn. intros Hlen. assert (retained = order state) as ->.
  { revert Hlen. clear -Hsub. induction Hsub as [|x l k Hs IH|x l k Hs IH]; rewrite ?len_cons.
    - done.
    - intros. f_equal. apply IH. lia.
    - apply sublist_length in Hs. unfold len. lia. }
  destruct state as [b o p]; cbn in *. f_equal. apply map_eq. intros k.
  rewrite Hkept, bool_decide_eq_false_2; [done|tauto].
Qed.

Lemma put_wf k v state : replays_wf state → replays_wf (putReplay k v state).
Proof.
  intros [Hnd Hord Hpend]. split; cbn.
  - case_bool_decide as Hk; [done|]. apply NoDup_app. split_and!; [done| |apply NoDup_singleton].
    intros x Hx ->%list_elem_of_singleton. by apply Hk, Hord.
  - intros x. rewrite lookup_insert_is_Some. case_bool_decide as Hk.
    + rewrite Hord. destruct (decide (k = x)) as [<-|]; tauto.
    + rewrite elem_of_app, list_elem_of_singleton, Hord. destruct (decide (k = x)); [subst; tauto|].
      split; [intros [?| ->]; tauto|tauto].
  - intros x. rewrite elem_of_union, elem_of_singleton. intros [->|Hx].
    + case_bool_decide as Hk; [by apply Hord|]. set_solver.
    + case_bool_decide; [auto|]. apply elem_of_app. auto.
Qed.

Lemma store_wf limit k v state : replays_wf state → replays_wf (storeReplay limit k v state).
Proof. intros. by apply trim_wf, put_wf. Qed.

Lemma store_lookup limit k v state k' v' : replays_wf state →
  byKey (storeReplay limit k v state) !! k' = Some v' →
  (k' = k ∧ v' = v) ∨ (k' ≠ k ∧ byKey state !! k' = Some v').
Proof.
  intros Hwf Hk. apply trim_lookup in Hk; [|by apply put_wf]. cbn in Hk.
  apply lookup_insert_Some in Hk. naive_solver.
Qed.
End replays.

Definition is_member (es : gmap Z routingKeyEntry) (c : association) (routingContext : Z) : Prop :=
  ∃ e, es !! routingContext = Some e ∧ c ∈ e_members e.

(** What a result says about the entries: success names an entry the
    Association is a member of and that has the requested selectors. *)
Definition result_ok (es : gmap Z routingKeyEntry) (c : association)
    (request : RoutingKeyRegistrationRequest) (result : RoutingKeyRegistrationResult) : Prop :=
  rr_LocalRoutingKeyIdentifier result = LocalRoutingKeyIdentifier request ∧
  if is_registered (rr_Status result)
  then ∃ e, es !! rr_RoutingContext result = Some e ∧ c ∈ e_members e ∧
         canonicalizeRoutingKey (req_RoutingKey request) = Ok (e_canonical e)
  else rr_RoutingContext result = 0.

Definition replays_ok (es : gmap Z routingKeyEntry) (c : association)
    (state : registrationReplayState) : Prop :=
  replays_wf state ∧
  ∀ k replay, byKey state !! k = Some replay →
    LocalRoutingKeyIdentifier (rp_request replay) = k ∧
    result_ok es c (rp_request replay) (rp_result replay).

(** A kept answer to a deregistration is a success, and still true. *)
Definition deregs_ok (es : gmap Z routingKeyEntry) (c : association)
    (state : deregistrationReplayState) : Prop :=
  replays_wf state ∧
  ∀ k result, byKey state !! k = Some result →
    dr_RoutingContext result = k ∧ dr_Status result = DeregistrationSuccessfullyDeregistered ∧
    ¬ is_member es c k.

Lemma noReplays_wf {A} : replays_wf (@noReplays A).
Proof.
  split; cbn; [constructor|..].
  - intros k. rewrite lookup_empty, is_Some_alt. set_solver.
  - set_solver.
Qed.

(** How the entries change on behalf of an Association that registers ... *)
Record grows (c : association) (es es' : gmap Z routingKeyEntry) : Prop := {
  gr_old : ∀ rc e, es !! rc = Some e → ∃ e', es' !! rc = Some e' ∧ same_entry e e' ∧
    (e_members e' = e_members e ∨ e_members e' = {[c]} ∪ e_members e);
  gr_new : ∀ rc e', es' !! rc = Some e' → es !! rc = None → e_members e' = {[c]};
}.

(** ... and that leaves. *)
Record shrinks (c : association) (es es' : gmap Z routingKeyEntry) : Prop := {
  sh_old : ∀ rc e', es' !! rc = Some e' → ∃ e, es !! rc = Some e ∧ same_entry e e' ∧
    (e_members e' = e_members e ∨ e_members e' = e_members e ∖ {[c]});
  sh_gone : ∀ rc e, es !! rc = Some e → es' !! rc = None → e_members e ⊆ {[c]};
}.

Section members.
Context (c x : association) (m m' : gset association).

Lemma in_grown : m' = m ∨ m' = {[c]} ∪ m → x ≠ c → x ∈ m' ↔ x ∈ m.
Proof. intros [->| ->] ?; set_solver. Qed.

Lemma in_grown_mono : m' = m ∨ m' = {[c]} ∪ m → x ∈ m → x ∈ m'.
Proof. intros [->| ->] ?; set_solver. Qed.

Lemma in_shrunk : m' = m ∨ m' = m ∖ {[c]} → x ≠ c → x ∈ m' ↔ x ∈ m.
Proof. intros [->| ->] ?; set_solver. Qed.

Lemma in_shrunk_mono : m' = m ∨ m' = m ∖ {[c]} → x ∈ m' → x ∈ m.
Proof. intros [->| ->] ?; set_solver. Qed.
End members.

#[export] Instance grows_preorder c : PreOrder (grows c).
Proof.
  split.
  - intros es. split; [|congruence]. intros rc e He. exists e. split_and!; [done..|by left].
  - intros x y z [H1 H2] [H3 H4]. split.
    + intros rc e He. destruct (H1 rc e He) as (e' & He' & Hs & Hm).
      destruct (H3 rc e' He') as (e'' & He'' & Hs' & Hm'). exists e''.
      split_and!; [done|by etrans|]. clear -Hm Hm'.
      destruct Hm as [Hm|Hm], Hm' as [Hm'|Hm']; rewrite Hm', ?Hm; set_solver.
    + intros rc e'' He'' Hx. destruct (y !! rc) as [e'|] eqn:Hy; [|eauto].
      destruct (H3 rc e' Hy) as (e & He & _ & Hm). simplify_eq.
      specialize (H2 rc e' Hy Hx). rewrite H2 in Hm. clear -Hm. destruct Hm as [->| ->]; set_solver.
Qed.

#[export] Instance shrinks_preorder c : PreOrder (shrinks c).
Proof.
  split.
  - intros es. split; [|congruence]. intros rc e He. exists e. split_and!; [done..|by left].
  - intros x y z [H1 H2] [H3 H4]. split.
    + intros rc e He. destruct (H3 rc e He) as (e' & He' & Hs & Hm).
      destruct (H1 rc e' He') as (e'' & He'' & Hs' & Hm'). exists e''.
      split_and!; [done|by etrans|]. clear -Hm Hm'.
      destruct Hm as [Hm|Hm], Hm' as [Hm'|Hm']; rewrite Hm, ?Hm'; set_solver.
    + intros rc e He Hz. destruct (y !! rc) as [e'|] eqn:Hy; [|eauto].
      specialize (H4 rc e' Hy Hz). destruct (H1 rc e' Hy) as (e'' & He'' & _ & Hm).
      simplify_eq. intros d Hd. destruct (decide (d = c)) as [->|Hne]; [set_solver|].
      apply H4. by apply (in_shrunk c d _ _ Hm Hne).
Qed.

Lemma grows_member c c' es es' rc : grows c es es' → c' ≠ c →
  is_member es' c' rc ↔ is_member es c' rc.
Proof.
  intros [Hold Hnew] Hne. split.
  - intros (e' & He' & Hc'). destruct (es !! rc) as [e|] eqn:He.
    + destruct (Hold rc e He) as (e'' & He'' & _ & Hm). simplify_eq.
      exists e. split; [done|]. by apply (in_grown c c' _ _ Hm Hne).
    + specialize (Hnew rc e' He' He). rewrite Hnew in Hc'. set_solver.
  - intros (e & He & Hc'). destruct (Hold rc e He) as (e' & He' & _ & Hm).
    exists e'. split; [done|]. by eapply in_grown_mono.
Qed.

Lemma shrinks_member c c' es es' rc : shrinks c es es' → c' ≠ c →
  is_member es' c' rc ↔ is_member es c' rc.
Proof.
  intros [Hold Hgone] Hne. split.
  - intros (e' & He' & Hc'). destruct (Hold rc e' He') as (e & He & _ & Hm).
    exists e. split; [done|]. by eapply in_shrunk_mono.
  - intros (e & He & Hc'). destruct (es' !! rc) as [e'|] eqn:He'.
    + destruct (Hold rc e' He') as (e'' & He'' & _ & Hm). simplify_eq.
      exists e'. split; [done|]. by apply (in_shrunk c c' _ _ Hm Hne).
    + specialize (Hgone rc e He He' c' Hc'). set_solver.
Qed.

Lemma result_ok_grows c c' es es' request result :
  grows c es es' → result_ok es c' request result → result_ok es' c' request result.
Proof.
  intros [Hold _] [Hid Hres]. split; [done|]. case_match; [|done].
  destruct Hres as (e & He & Hm & Hc). destruct (Hold _ _ He) as (e' & He' & [Hs] & Hm').
  exists e'. split_and!; [done|by eapply in_grown_mono|congruence].
Qed.

Lemma replays_ok_grows c c' es es' state :
  grows c es es' → replays_ok es c' state → replays_ok es' c' state.
Proof.
  intros Hg [Hwf H]. split; [done|]. intros k replay Hk. destruct (H k replay Hk).
  eauto using result_ok_grows.
Qed.

Lemma deregs_ok_grows c c' es es' state :
  grows c es es' → c' ≠ c → deregs_ok es c' state → deregs_ok es' c' state.
Proof.
  intros Hg Hne [Hwf H]. split; [done|]. intros k result Hk.
  destruct (H k result Hk) as (? & ? & ?). split_and!; [done..|].
  by rewrite grows_member by done.
Qed.

Lemma result_ok_shrinks c c' es es' request result :
  shrinks c es es' → c' ≠ c → result_ok es c' request result → result_ok es' c' request result.
Proof.
  intros Hs Hne [Hid Hres]. split; [done|]. case_match; [|done].
  destruct Hres as (e & He & Hm & Hc).
  assert (is_member es' c' (rr_RoutingContext result)) as (e' & He' & Hm').
  { eapply shrinks_member; [done..|by exists e]. }
  destruct Hs as [Hold _]. destruct (Hold _ _ He') as (e'' & He'' & [Hs'] & _). simplify_eq.
  exists e'. split_and!; [done..|congruence].
Qed.

Lemma replays_ok_shrinks c c' es es' state :
  shrinks c es es' → c' ≠ c → replays_ok es c' state → replays_ok es' c' state.
Proof.
  intros Hg Hne [Hwf H]. split; [done|]. intros k replay Hk. destruct (H k replay Hk).
  eauto using result_ok_shrinks.
Qed.

Lemma deregs_ok_shrinks c c' es es' state :
  shrinks c es es' → deregs_ok es c' state → deregs_ok es' c' state.
Proof.
  intros Hs [Hwf H]. split; [done|]. intros k result Hk.
  destruct (H k result Hk) as (? & ? & Hm). split_and!; [done..|]. contradict Hm.
  destruct Hm as (e' & He' & Hc'). destruct Hs as [Hold _].
  destruct (Hold _ _ He') as (e & He & _ & ?). exists e. split; [done|].
  by eapply in_shrunk_mono.
Qed.

(** ** Registration *)

Definition decisions_ok (d : registrationDecisions) : Prop :=
  ∀ i status, authorizations d !! i = Some status →
    status < RegistrationRoutingKeyAlreadyRegistered.

Record work_ok (cfg : RoutingKeyManagementConfig) (c : association) (w : work) : Prop := {
  wo_entries : entries_ok cfg (w_entries w) (w_dynamic w);
  wo_replays : replays_ok (w_entries w) c (w_replays w);
  wo_deregs : deregs_ok (w_entries w) c (w_deregs w);
  wo_decisions : decisions_ok (w_decisions w);
}.

Definition wf_request (request : RoutingKeyRegistrationRequest) : Prop :=
  wf_key (req_RoutingKey request).

Lemma grows_insert c es rc e e' :
  es !! rc = Some e → same_entry e e' →
  e_members e' = e_members e ∨ e_members e' = {[c]} ∪ e_members e →
  grows c es (<[rc := e']> es).
Proof.
  intros He Hs Hm. split.
  - intros k x Hx. destruct (decide (rc = k)) as [<-|Hne].
    + simplify_eq. exists e'. by rewrite lookup_insert_eq.
    + exists x. rewrite lookup_insert_ne by done. split_and!; [done..|by left].
  - intros k x. rewrite lookup_insert_Some. intros [[<- <-]|[_ ?]]; congruence.
Qed.

Lemma grows_new c es rc e :
  es !! rc = None → e_members e = {[c]} → grows c es (<[rc := e]> es).
Proof.
  intros Hnone Hm. split.
  - intros k x Hx. assert (rc ≠ k) by congruence.
    exists x. rewrite lookup_insert_ne by done. split_and!; [done..|by left].
  - intros k x. rewrite lookup_insert_Some. intros [[<- <-]|[_ ?]]; congruence.
Qed.

Lemma clear_wf rc state : replays_wf state → replays_wf (clearDeregistrationReplayState rc state).
Proof.
  intros [Hnd Hord Hpend]. split; cbn.
  - rewrite NoDup_ListNoDup in *. by apply List.NoDup_filter.
  - intros k. rewrite list_elem_of_In, List.filter_In, <-list_elem_of_In, negb_true_iff, Z.eqb_neq.
    rewrite Hord, lookup_delete_is_Some. naive_solver.
  - intros k. rewrite elem_of_difference, elem_of_singleton. intros [Hk Hne].
    rewrite list_elem_of_In, List.filter_In, <-list_elem_of_In, negb_true_iff, Z.eqb_neq. auto.
Qed.

(** Admission at [rc] leaves no kept answer about [rc]. *)
Lemma deregs_ok_clear c es es' rc state :
  grows c es es' → (∀ k, k ≠ rc → is_member es' c k → is_member es c k) →
  deregs_ok es c state → deregs_ok es' c (clearDeregistrationReplayState rc state).
Proof.
  intros Hg Hmem [Hwf H]. split; [by apply clear_wf|]. cbn. intros k result Hk.
  apply lookup_delete_Some in Hk as [Hne Hk]. destruct (H k result Hk) as (? & ? & Hnot).
  split_and!; [done..|]. contradict Hnot. by apply Hmem.
Qed.

Lemma is_member_insert_ne es c rc e k : k ≠ rc → is_member (<[rc := e]> es) c k → is_member es c k.
Proof. intros Hne (x & Hx & ?). rewrite lookup_insert_ne in Hx by done. by exists x. Qed.

Lemma findRoutingKeyEntry_spec es key :
  match findRoutingKeyEntry es key with
  | (Some (rc, e), _) => es !! rc = Some e ∧ e_canonical e = key
  | (None, overlap) => ∀ rc e, es !! rc = Some e →
      e_canonical e ≠ key ∧ (overlap = false → overlaps (e_canonical e) key = false)
  end.
Proof.
  unfold findRoutingKeyEntry.
  assert (Hin : ∀ rc e, es !! rc = Some e ↔ (rc, e) ∈ map_to_list es)
    by (intros; by rewrite elem_of_map_to_list).
  revert Hin. generalize (map_to_list es) as l. intros l Hin.
  set (f := λ '(exact, overlap) '(routingContext, entry), _).
  enough (Hgen : ∀ k, (∀ x, x ∈ k → x ∈ l) →
    match foldl f (None, false) k with
    | (Some (rc, e), _) => es !! rc = Some e ∧ e_canonical e = key
    | (None, overlap) => ∀ rc e, (rc, e) ∈ k →
        e_canonical e ≠ key ∧ (overlap = false → overlaps (e_canonical e) key = false)
    end).
  { specialize (Hgen l (λ _ H, H)). destruct (foldl f _ l) as [[[rc e]|] overlap]; [done|].
    intros rc e He. apply (Hgen rc e). by apply Hin. }
  induction k as [|[rc e] k IH] using rev_ind; intros Hk; [cbn; set_solver|].
  rewrite foldl_app. cbn [foldl]. specialize (IH ltac:(set_solver)).
  destruct (foldl f _ k) as [exact overlap]. cbn [f]. case_bool_decide as Hc.
  { split; [apply Hin, Hk|done]. set_solver. }
  destruct exact as [[rc' e']|]; [done|].
  intros rc' e' [Hin'|Hin']%elem_of_app.
  - destruct (IH rc' e' Hin') as [? Ho]. split; [done|]. intros [? ?]%orb_false_iff. auto.
  - apply list_elem_of_singleton in Hin' as [= -> ->]. split; [done|]. by intros [? ?]%orb_false_iff.
Qed.

(** ** Allocation *)

Lemma compareZ_before x y : before compareZ x y ↔ x < y.
Proof. unfold before, compareZ. repeat case_match; to_prop; lia. Qed.

(** The lowest value from [candidate] on that is not in use. *)
Lemma lowestFree_spec candidate used :
  StronglySorted (not_after compareZ) used → 0 < candidate →
  match lowestFree candidate used with
  | Some rc => candidate ≤ rc ∧ (rc ∉ used) ∧ (∀ x, candidate ≤ x < rc → x ∈ used)
  | None => (∀ x, candidate ≤ x < 2 ^ 32 → x ∈ used)
  end.
Proof.
  assert (Hle : ∀ x y, not_after compareZ x y → x ≤ y).
  { intros x y. unfold not_after, compareZ. repeat case_match; to_prop; lia. }
  revert candidate. induction used as [|rc used IH]; intros candidate Hs Hpos; cbn.
  { destruct (Z.eqb_spec candidate 0); [lia|]. split_and!; [done|set_solver|lia]. }
  apply StronglySorted_cons in Hs as [Hrc Hs]. rewrite Forall_forall in Hrc.
  destruct (Z.ltb_spec rc candidate).
  { specialize (IH candidate Hs Hpos). destruct (lowestFree candidate used).
    - destruct IH as (? & ? & Hx). split_and!; [done| |].
      + intros [?|?]%elem_of_cons; [lia|done].
      + intros x ?. apply elem_of_cons. right. by apply Hx.
    - intros x ?. apply elem_of_cons. right. by apply IH. }
  destruct (Z.ltb_spec candidate rc).
  { split_and!; [done| |lia]. intros [?|Hin]%elem_of_cons; [lia|].
    specialize (Hle _ _ (Hrc _ Hin)). lia. }
  assert (rc = candidate) as -> by lia.
  destruct (Z.eqb_spec candidate (2 ^ 32 - 1)) as [->|Hne].
  { intros x ?. apply elem_of_cons. left. lia. }
  specialize (IH (candidate + 1) Hs ltac:(lia)). destruct (lowestFree (candidate + 1) used).
  - destruct IH as (? & ? & Hx). split_and!; [lia| |].
    + intros [?|?]%elem_of_cons; [lia|done].
    + intros x ?. destruct (decide (x = candidate)) as [->|]; [set_solver|].
      apply elem_of_cons. right. apply Hx. lia.
  - intros x ?. destruct (decide (x = candidate)) as [->|]; [set_solver|].
    apply elem_of_cons. right. apply IH. lia.
Qed.

Lemma elem_of_used es configured rc :
  rc ∈ usedRoutingContexts es configured ↔ is_Some (es !! rc) ∨ rc ∈ configured.
Proof.
  unfold usedRoutingContexts. rewrite sort_by_Permutation, elem_of_elements, elem_of_union.
  by rewrite elem_of_dom, elem_of_list_to_set.
Qed.

Lemma allocateRoutingContext_spec es configured allocator rc :
  allocateRoutingContext es configured allocator = Some rc →
  rc ≠ 0 ∧ es !! rc = None ∧ rc ∉ configured.
Proof.
  unfold allocateRoutingContext. intros H.
  assert (rc ≠ 0 ∧ rc ∉ usedRoutingContexts es configured) as [H0 Hu].
  { destruct allocator as [allocator|].
    - destruct (allocator _) as [r err]. destruct (_ || _) eqn:Hc; [done|]. simplify_eq.
      to_prop. by apply bool_decide_eq_false in H0.
    - pose proof (lowestFree_spec 1 (usedRoutingContexts es configured)) as Hspec.
      rewrite H in Hspec. destruct Hspec as (? & ? & _); [|lia|split; [lia|done]].
      apply sort_by_sorted; apply _. }
  split; [done|]. rewrite elem_of_used, <-not_eq_None_Some in Hu.
  destruct (es !! rc); naive_solver.
Qed.

(** ** One request *)

Section register.
Context (cfg : RoutingKeyManagementConfig) (c : association) (cb : callbacks) (frc : forced).

Lemma authorize_spec index request w status w' :
  decisions_ok (w_decisions w) → authorize cb index request w = (status, w') →
  status < RegistrationRoutingKeyAlreadyRegistered ∧ decisions_ok (w_decisions w') ∧
  w_entries w' = w_entries w ∧ w_dynamic w' = w_dynamic w ∧
  w_replays w' = w_replays w ∧ w_deregs w' = w_deregs w.
Proof.
  unfold authorize. intros Hd. destruct (authorizations (w_decisions w) !! index) as [s|] eqn:Hs.
  - intros [= <- <-]. split_and!; eauto.
  - intros [= <- <-]. cbn.
    assert (Hlt : (if RegistrationRoutingKeyAlreadyRegistered <=? cb_authorizeRegistration cb index
              (snapshotRoutingKeyRegistrationRequest request) then RegistrationInvalidRoutingKey
            else cb_authorizeRegistration cb index (snapshotRoutingKeyRegistrationRequest request))
            < RegistrationRoutingKeyAlreadyRegistered).
    { case_match; to_prop; [|done]. unfold RegistrationInvalidRoutingKey,
        RegistrationRoutingKeyAlreadyRegistered. lia. }
    split_and!; [exact Hlt| |done..]. intros i st. cbn.
    intros [[_ <-]|[_ Hi]]%lookup_insert_Some; [exact Hlt|by eapply Hd].
Qed.

Lemma admit_ok request canonical rc e w :
  work_ok cfg c w → w_entries w !! rc = Some e →
  canonicalizeRoutingKey (req_RoutingKey request) = Ok canonical →
  work_ok cfg c (admitMember c request rc e w) ∧
  grows c (w_entries w) (w_entries (admitMember c request rc e w)) ∧
  ∃ e', w_entries (admitMember c request rc e w) !! rc = Some e' ∧ c ∈ e_members e' ∧
        e_canonical e' = e_canonical e.
Proof.
  intros [He Hr Hd Hdec] Hrc Hcan.
  set (e' := addMember c (adoptTrafficMode (req_RoutingKey request) e)).
  assert (Hsame : same_entry e e').
  { etrans; [by eapply adoptTrafficMode_same|apply addMember_same]. }
  assert (Hg : grows c (w_entries w) (<[rc := e']> (w_entries w))).
  { apply (grows_insert c _ _ e); [done..|right]. cbn. by rewrite adoptTrafficMode_members. }
  assert (Hctx : e_routingContext e = rc) by by apply (eso_entry _ _ _ He rc e Hrc).
  split_and!; [|exact Hg|].
  - split.
    + by eapply entries_ok_insert_same.
    + by eapply replays_ok_grows.
    + change (w_deregs (admitMember c request rc e w))
        with (clearDeregistrationReplayState (e_routingContext e) (w_deregs w)).
      rewrite Hctx. eapply deregs_ok_clear; [exact Hg| |done]. intros k Hk. by apply is_member_insert_ne.
    + done.
  - exists e'. change (w_entries (admitMember c request rc e w)) with (<[rc := e']> (w_entries w)).
    rewrite lookup_insert_eq. split_and!; [done|cbn; set_solver|by destruct Hsame].
Qed.

Lemma adopt_ok request canonical rc e w :
  work_ok cfg c w → w_entries w !! rc = Some e → c ∈ e_members e →
  canonicalizeRoutingKey (req_RoutingKey request) = Ok canonical →
  work_ok cfg c (adopt request rc e w) ∧
  grows c (w_entries w) (w_entries (adopt request rc e w)) ∧
  ∃ e', w_entries (adopt request rc e w) !! rc = Some e' ∧ c ∈ e_members e' ∧
        e_canonical e' = e_canonical e.
Proof.
  intros [He Hr Hd Hdec] Hrc Hc Hcan.
  set (e' := adoptTrafficMode (req_RoutingKey request) e).
  assert (Hsame : same_entry e e') by by eapply adoptTrafficMode_same.
  assert (Hm : e_members e' = e_members e) by apply adoptTrafficMode_members.
  assert (Hg : grows c (w_entries w) (<[rc := e']> (w_entries w))).
  { apply (grows_insert c _ _ e); [done..|by left]. }
  split_and!; [|exact Hg|].
  - split; [by eapply entries_ok_insert_same|by eapply replays_ok_grows| |done].
    destruct Hd as [Hwf Hd]. split; [done|]. intros k result Hk.
    destruct (Hd k result Hk) as (? & ? & Hnot). split_and!; [done..|]. contradict Hnot.
    destruct (decide (k = rc)) as [->|]; [by exists e|by apply (is_member_insert_ne _ _ rc e')].
  - exists e'. change (w_entries (adopt request rc e w)) with (<[rc := e']> (w_entries w)).
    rewrite lookup_insert_eq, Hm. split_and!; [done..|by destruct Hsame].
Qed.

(** What deciding one request guarantees. *)
Definition decided (request : RoutingKeyRegistrationRequest) (w : work)
    (r : RoutingKeyRegistrationResult * work) : Prop :=
  work_ok cfg c r.2 ∧ grows c (w_entries w) (w_entries r.2) ∧ w_replays r.2 = w_replays w ∧
  result_ok (w_entries r.2) c request r.1.

Lemma decided_refuse request w w' status :
  work_ok cfg c w' → w_entries w' = w_entries w → w_replays w' = w_replays w →
  is_registered status = false → decided request w (refuse request status, w').
Proof.
  intros Hok He Hr Hs. unfold decided; cbn [fst snd].
  rewrite He. split_and!; [done|reflexivity|done|split; [done|]]. cbn. by rewrite Hs.
Qed.

Lemma decided_accept request canonical w w' rc e e' status :
  w_entries w !! rc = Some e → entries_ok cfg (w_entries w) (w_dynamic w) →
  canonicalizeRoutingKey (req_RoutingKey request) = Ok canonical → e_canonical e = canonical →
  work_ok cfg c w' → grows c (w_entries w) (w_entries w') → w_replays w' = w_replays w →
  w_entries w' !! rc = Some e' → c ∈ e_members e' → e_canonical e' = e_canonical e →
  is_registered status = true → decided request w (accept request status e, w').
Proof.
  intros He Hok Hcan Heq Hw Hg Hr He' Hm Hc Hs. unfold decided; cbn [fst snd].
  split_and!; [done..|split; [done|]]. cbn. rewrite Hs.
  assert (e_routingContext e = rc) as -> by by apply (eso_entry _ _ _ Hok rc e He).
  exists e'. split_and!; [done..|congruence].
Qed.

Lemma registered_refusal status :
  status < RegistrationRoutingKeyAlreadyRegistered →
  (status =? RegistrationSuccessfullyRegistered) = false → is_registered status = false.
Proof. unfold is_registered. intros ? ->. cbn. apply Z.eqb_neq. lia. Qed.

Lemma work_ok_eq w w' :
  work_ok cfg c w → decisions_ok (w_decisions w') → w_entries w' = w_entries w →
  w_dynamic w' = w_dynamic w → w_replays w' = w_replays w → w_deregs w' = w_deregs w →
  work_ok cfg c w'.
Proof. intros [] ? He Hn Hr Hd. split; rewrite ?He, ?Hn, ?Hr, ?Hd; done. Qed.

Lemma registerExisting_decided rd index request canonical rc e w :
  work_ok cfg c w → w_entries w !! rc = Some e → e_canonical e = canonical →
  canonicalizeRoutingKey (req_RoutingKey request) = Ok canonical →
  decided request w (registerExisting c cb frc rd index request rc e w).
Proof.
  intros Hok Hrc Hec Hcan. assert (Hent := wo_entries _ _ _ Hok). unfold registerExisting.
  destruct (routingContextConflictsWithAssociationScope _ _); [by apply decided_refuse|].
  destruct (negb _); [by apply decided_refuse|].
  destruct (rd_staticMember _ _).
  { destruct (admit_ok request canonical rc e w) as (? & ? & e' & ? & ? & ?); [done..|].
    by eapply decided_accept. }
  destruct (hasMember c e) eqn:Hm.
  { apply bool_decide_eq_true in Hm.
    destruct (adopt_ok request canonical rc e w) as (? & ? & e' & ? & ? & ?); [done..|].
    by eapply decided_accept. }
  destruct (_ || _); [by apply decided_refuse|].
  destruct (authorize _ _ _ _) as [status w'] eqn:Ha.
  apply authorize_spec in Ha as (Hs & Hd' & He & Hn & Hr & Hd); [|by destruct Hok].
  assert (Hok' : work_ok cfg c w') by by eapply work_ok_eq.
  destruct (status =? _) eqn:Hst.
  - apply Z.eqb_eq in Hst as ->.
    destruct (admit_ok request canonical rc e w') as (? & Hg & e' & ? & ? & ?); [done| |done|].
    { congruence. }
    rewrite He in Hg. by eapply decided_accept.
  - apply decided_refuse; [done..|]. by apply registered_refusal.
Qed.
Lemma registerRequested_decided rd index request canonical w :
  work_ok cfg c w → canonicalizeRoutingKey (req_RoutingKey request) = Ok canonical →
  decided request w (registerRequested c cb frc rd index request canonical w).
Proof.
  intros Hok Hcan. unfold registerRequested.
  destruct (w_entries w !! _) as [e|] eqn:He; [|by apply decided_refuse].
  destruct (negb _) eqn:Hc; [by apply decided_refuse|]. to_prop.
  apply bool_decide_eq_true in Hc. by eapply registerExisting_decided.
Qed.

Lemma snapshot_canonical key : canonicalizeRoutingKey (snapshotRoutingKey key) = canonicalizeRoutingKey key.
Proof.
  unfold canonicalizeRoutingKey, snapshotRoutingKey. cbn. by destruct (rk_NetworkAppearanceSet key).
Qed.

Lemma registerNew_decided rd index request canonical w :
  work_ok cfg c w → canonicalizeRoutingKey (req_RoutingKey request) = Ok canonical →
  ok_key canonical →
  (∀ k x, w_entries w !! k = Some x → overlaps (e_canonical x) canonical = false) →
  decided request w (registerNew cfg c cb rd index request canonical w).
Proof.
  intros Hok Hcan Hkey Hov. unfold registerNew.
  destruct (authorize _ _ _ _) as [status w'] eqn:Ha.
  apply authorize_spec in Ha as (Hs & Hd' & He & Hn & Hr & Hd); [|by destruct Hok].
  assert (Hok' : work_ok cfg c w') by by eapply work_ok_eq.
  destruct (negb (status =? _)) eqn:Hst.
  { apply decided_refuse; [done..|]. apply registered_refusal; [done|]. by apply negb_true_iff. }
  destruct (negb (AllowDynamicRoutingKeys cfg)) eqn:Hallow; [by apply decided_refuse|].
  destruct (_ <=? _) eqn:Hmax; [by apply decided_refuse|].
  set (d := allocate _ _ _ _ _).
  set (w'' := if AllocateRoutingContext cfg then _ else w').
  assert (w_entries w'' = w_entries w' ∧ w_dynamic w'' = w_dynamic w' ∧ w_replays w'' = w_replays w' ∧
          w_deregs w'' = w_deregs w' ∧ decisions_ok (w_decisions w'')) as (He'' & Hn'' & Hr'' & Hd'' & Hdec).
  { unfold w''. by destruct (AllocateRoutingContext cfg). }
  clearbody w'' d.
  assert (Hok'' : work_ok cfg c w'') by by eapply (work_ok_eq w').
  destruct (allocateRoutingContext _ _ _) as [rc|] eqn:Hal.
  2: { apply decided_refuse; [done|congruence|congruence|done]. }
  apply allocateRoutingContext_spec in Hal as (H0 & Hnone & _).
  set (e := mkEntry _ _ _ _ _). destruct Hok'' as [Hent Hrep Hder _].
  assert (Hg : grows c (w_entries w) (<[rc := e]> (w_entries w''))).
  { rewrite He'', He. apply grows_new; [congruence|done]. }
  unfold decided; cbn [fst snd]. split_and!; [|exact Hg|cbn; congruence|].
  - split; cbn.
    + apply entries_ok_insert_new; [done|done| |done| |by apply negb_false_iff|].
      * split; [done|done|cbn; by rewrite snapshot_canonical|done].
      * intros k x. rewrite He'', He. apply Hov.
      * to_prop. lia.
    + rewrite <-He, <-He'' in Hg. by eapply replays_ok_grows.
    + rewrite <-He, <-He'' in Hg. eapply deregs_ok_clear; [done| |done].
      intros k ?. by apply is_member_insert_ne.
    + done.
  - split; [done|]. cbn. exists e. rewrite lookup_insert_eq. split_and!; [done|cbn; set_solver|done].
Qed.

Lemma registerUnrequested_decided rd index request canonical w :
  work_ok cfg c w → canonicalizeRoutingKey (req_RoutingKey request) = Ok canonical →
  ok_key canonical →
  decided request w (registerUnrequested cfg c cb frc rd index request canonical w).
Proof.
  intros Hok Hcan Hkey. unfold registerUnrequested.
  pose proof (findRoutingKeyEntry_spec (w_entries w) canonical) as Hf.
  destruct (findRoutingKeyEntry _ _) as [[[rc e]|] overlap].
  - destruct Hf. by eapply registerExisting_decided.
  - destruct overlap; [by apply decided_refuse|]. apply registerNew_decided; [done..|].
    intros k x Hx. by apply (Hf k x).
Qed.

Lemma canonical_equal_spec k l ck : canonical_equal k l = true →
  canonicalizeRoutingKey k = Ok ck → canonicalizeRoutingKey l = Ok ck.
Proof.
  unfold canonical_equal. intros H Hk. rewrite Hk in H.
  destruct (canonicalizeRoutingKey l); [|done..]. apply bool_decide_eq_true in H. congruence.
Qed.

Lemma requestsEqual_spec q r : routingKeyRegistrationRequestsEqual q r = true →
  LocalRoutingKeyIdentifier q = LocalRoutingKeyIdentifier r ∧
  canonical_equal (req_RoutingKey q) (req_RoutingKey r) = true.
Proof. unfold routingKeyRegistrationRequestsEqual. intros H. to_prop. by split. Qed.

Lemma result_ok_equal es q r result : routingKeyRegistrationRequestsEqual q r = true →
  result_ok es c q result → result_ok es c r result.
Proof.
  intros [Hid Hcan]%requestsEqual_spec [Hl Hres]. split; [congruence|].
  case_match; [|done]. destruct Hres as (e & ? & ? & Hc). exists e.
  split_and!; [done..|]. by eapply canonical_equal_spec.
Qed.

Lemma decideRegistration_decided rd index request w :
  work_ok cfg c w → wf_request request →
  decided request w (decideRegistration cfg c cb frc rd index request w).
Proof.
  intros Hok Hwf. unfold decideRegistration, replayed.
  assert (Hnone : decided request w
    (if unsupportedParameterField request
     then (refuse request RegistrationUnsupportedRoutingKeyParameterField, w)
     else if bool_decide (index ∈ f_trafficModeConflicts frc)
     then (refuse request RegistrationUnsupportedTrafficHandlingMode, w)
     else match canonicalizeRoutingKey (req_RoutingKey request) with
          | Ok canonical =>
              if associationHasNetworkAppearanceConflict (w_entries w) c canonical
              then (refuse request RegistrationCannotSupportUniqueRouting, w)
              else if RoutingContextRequested request
              then registerRequested c cb frc rd index request canonical w
              else registerUnrequested cfg c cb frc rd index request canonical w
          | _ => (refuse request RegistrationInvalidRoutingKey, w)
          end)).
  { destruct (unsupportedParameterField request); [by apply decided_refuse|].
    destruct (bool_decide _); [by apply decided_refuse|].
    destruct (canonicalizeRoutingKey (req_RoutingKey request)) as [canonical| | |] eqn:Hcan;
      [|by apply decided_refuse..].
    destruct (associationHasNetworkAppearanceConflict _ _ _); [by apply decided_refuse|].
    destruct (RoutingContextRequested request); [by apply registerRequested_decided|].
    apply registerUnrequested_decided; [done..|]. by eapply canonicalizeRoutingKey_ok. }
  destruct (byKey (w_replays w) !! _) as [replay|] eqn:Hk; [|exact Hnone].
  destruct (routingKeyRegistrationRequestsEqual _ _) eqn:Heq; [|exact Hnone].
  destruct Hok as [He [Hw Hr] Hd Hdec]. destruct (Hr _ _ Hk) as [_ Hres].
  unfold decided; cbn [fst snd]. split_and!; [by split|reflexivity|done|by eapply result_ok_equal].
Qed.

(** ** A call *)

Lemma snapshot_request_ok es request result :
  result_ok es c (snapshotRoutingKeyRegistrationRequest request) result ↔ result_ok es c request result.
Proof. unfold result_ok. cbn. by rewrite snapshot_canonical. Qed.

Lemma store_replays_ok es request result state :
  replays_ok es c state → result_ok es c request result →
  replays_ok es c (storeRegistrationReplay request result state).
Proof.
  intros [Hwf H] Hres. split; [by apply store_wf|]. intros k replay Hk.
  unfold storeRegistrationReplay in Hk.
  apply store_lookup in Hk as [[-> ->]|[_ Hk]]; [|by apply H|done].
  split; [done|]. cbn. by rewrite snapshot_request_ok.
Qed.

Lemma registerOne_decided rd index request w :
  work_ok cfg c w → wf_request request →
  let r := registerOne cfg c cb frc rd index request w in
  work_ok cfg c r.2 ∧ grows c (w_entries w) (w_entries r.2) ∧ result_ok (w_entries r.2) c request r.1.
Proof.
  intros Hok Hwf. unfold registerOne.
  assert (Hwf' : wf_request (snapshotRoutingKeyRegistrationRequest request)).
  { destruct Hwf as [Hna Hg]. split; cbn; [|done]. intros Hs. rewrite Hs. auto. }
  pose proof (decideRegistration_decided rd index _ w Hok Hwf') as Hd.
  destruct (decideRegistration _ _ _ _ _ _ _ _) as [result w']. destruct Hd as (Hw & Hg & Hr & Hres).
  cbn [fst snd] in *. destruct Hw as [He Hrep Hder Hdec]. split_and!; [|done|by apply snapshot_request_ok].
  split; cbn; [done| |done..]. by apply store_replays_ok.
Qed.

Lemma registerLoop_ok rds index requests w :
  work_ok cfg c w → Forall wf_request requests →
  let r := registerLoop cfg c cb frc rds index requests w in
  work_ok cfg c r.2 ∧ grows c (w_entries w) (w_entries r.2) ∧
  Forall2 (result_ok (w_entries r.2) c) requests r.1.
Proof.
  revert index w. induction requests as [|request requests IH]; intros index w Hok Hwf; cbn.
  { split_and!; [done|reflexivity|constructor]. }
  apply Forall_cons in Hwf as [Hw Hwf].
  pose proof (registerOne_decided (rds index) index request w Hok Hw) as Hone.
  destruct (registerOne _ _ _ _ _ _ _ _) as [result w1]. cbn [fst snd] in Hone.
  destruct Hone as (Hok1 & Hg1 & Hres). specialize (IH (S index) w1 Hok1 Hwf).
  destruct (registerLoop _ _ _ _ _ _ _ _) as [results w2]. cbn [fst snd] in IH |- *.
  destruct IH as (Hok2 & Hg2 & Hall). split_and!; [done|by etrans|].
  constructor; [by eapply result_ok_grows|done].
Qed.
End register.

(** ** Deregistration *)

(** The loop keeps the answers about other Routing Contexts. *)
Lemma purge_spec rc state : replays_wf state →
  let state' := purgeRegistrationReplayState rc state in
  replays_wf state' ∧
  ∀ k v, byKey state' !! k = Some v ↔ byKey state !! k = Some v ∧ rr_RoutingContext (rp_result v) ≠ rc.
Proof.
  intros [Hnd Hord Hpend]. unfold purgeRegistrationReplayState.
  set (bad k := ∃ v, byKey state !! k = Some v ∧ rr_RoutingContext (rp_result v) = rc).
  enough (Hgen : ∀ done todo, done ++ todo = order state →
    let s := foldl (purgeStep rc) (mkReplays (byKey state) [] (pending state)) done in
    (∀ k v, byKey s !! k = Some v ↔ byKey state !! k = Some v ∧ ¬ (k ∈ done ∧ bad k)) ∧
    (∀ k, k ∈ order s ↔ k ∈ done ∧ ¬ bad k) ∧ NoDup (order s) ∧
    (∀ k, k ∈ pending s ↔ k ∈ pending state ∧ ¬ (k ∈ done ∧ bad k))).
  { destruct (Hgen (order state) [] (app_nil_r _)) as (Hb & Ho & Hn & Hp).
    assert (Hbad : ∀ k v, byKey state !! k = Some v → bad k ↔ rr_RoutingContext (rp_result v) = rc).
    { intros k v Hk. unfold bad. split; [intros (v' & ? & ?); congruence|eauto]. }
    split; [split; [done| |]|].
    - intros k. rewrite Ho. split.
      + intros [Hk Hnb]. apply Hord in Hk as [v Hv]. exists v. apply Hb. tauto.
      + intros [v Hv]. apply Hb in Hv as [Hv Hnb].
        assert (k ∈ order state) by by (apply Hord; exists v). tauto.
    - intros k Hk. apply Hp in Hk as [Hk Hnb]. apply Ho. specialize (Hpend k Hk). tauto.
    - intros k v. rewrite Hb. split; intros [Hv Hnb]; (split; [done|]).
      + intros Hrc. apply Hnb. split; [apply Hord; by exists v|]. by apply (Hbad k v).
      + intros [_ Hbk]. by apply Hnb, (Hbad k v). }
  intros done. induction done as [|x done IH] using rev_ind; intros todo Heq.
  { cbn. split_and!; [set_solver|set_solver|constructor|set_solver]. }
  rewrite foldl_app. cbn [foldl]. rewrite <-app_assoc in Heq.
  destruct (IH (x :: todo) Heq) as (Hb & Ho & Hn & Hp). cbn zeta in *.
  set (s := foldl (purgeStep rc) _ done) in *.
  assert (Hx : x ∉ done).
  { rewrite <-Heq in Hnd. apply NoDup_app in Hnd as (_ & Hdis & _).
    intros Hin. apply (Hdis x Hin). set_solver. }
  assert (is_Some (byKey state !! x)) as [v Hv].
  { apply Hord. rewrite <-Heq. set_solver. }
  assert (Hsx : byKey s !! x = Some v) by (apply Hb; tauto).
  assert (Hbad : bad x ↔ rr_RoutingContext (rp_result v) = rc).
  { unfold bad. split; [intros (v' & ? & ?); congruence|eauto]. }
  unfold purgeStep. rewrite Hsx. setoid_rewrite elem_of_app. setoid_rewrite list_elem_of_singleton.
  destruct (Z.eqb_spec (rr_RoutingContext (rp_result v)) rc) as [Hrc|Hrc]; cbn.
  - split_and!.
    + intros k w. rewrite lookup_delete_Some, Hb. destruct (decide (k = x)); subst; naive_solver.
    + intros k. rewrite Ho. destruct (decide (k = x)); subst; naive_solver.
    + done.
    + intros k. rewrite elem_of_difference, elem_of_singleton, Hp.
      destruct (decide (k = x)); subst; naive_solver.
  - split_and!.
    + intros k w. rewrite Hb. destruct (decide (k = x)); subst; naive_solver.
    + intros k. rewrite elem_of_app, list_elem_of_singleton, Ho.
      destruct (decide (k = x)); subst; naive_solver.
    + apply NoDup_app. split_and!; [done| |apply NoDup_singleton].
      intros y Hy ->%list_elem_of_singleton. apply Ho in Hy. tauto.
    + intros k. rewrite Hp. destruct (decide (k = x)); subst; naive_solver.
Qed.

Lemma shrinks_insert c es rc e :
  es !! rc = Some e → shrinks c es (<[rc := deleteMember c e]> es).
Proof.
  intros He. split.
  - intros k x. rewrite lookup_insert_Some. intros [[<- <-]|[Hne Hx]].
    + exists e. split_and!; [done|apply deleteMember_same|by right].
    + exists x. split_and!; [done..|by left].
  - intros k x Hx Hnone. apply lookup_insert_None in Hnone as [? ?]. congruence.
Qed.

Lemma shrinks_delete c es rc e :
  es !! rc = Some e → e_members e ⊆ {[c]} → shrinks c es (delete rc es).
Proof.
  intros He Hm. split.
  - intros k x [_ Hx]%lookup_delete_Some. exists x. split_and!; [done..|by left].
  - intros k x Hx Hnone. apply lookup_delete_None in Hnone as [<-|?]; [by simplify_eq|congruence].
Qed.

Lemma not_member_left c es rc e : ¬ is_member (<[rc := deleteMember c e]> es) c rc.
Proof.
  intros (x & Hx & Hc). rewrite lookup_insert_eq in Hx. injection Hx as <-.
  cbn in Hc. set_solver.
Qed.

Lemma shrinks_not_member c es es' rc :
  shrinks c es es' → ¬ is_member es c rc → ¬ is_member es' c rc.
Proof.
  intros [Hold _] Hn (x & Hx & Hc). destruct (Hold _ _ Hx) as (e & He & _ & Hm).
  apply Hn. exists e. split; [done|]. by eapply in_shrunk_mono.
Qed.

Record dereg_work_ok (cfg : RoutingKeyManagementConfig) (c : association) (w : deregWork)
    : Prop := {
  dw_entries : entries_ok cfg (d_entries w) (d_dynamic w);
  dw_regs : replays_ok (d_entries w) c (d_regs w);
  dw_deregs : deregs_ok (d_entries w) c (d_deregs w);
}.

(** A successful deregistration says that the Association is no member. *)
Definition dereg_result_ok (es : gmap Z routingKeyEntry) (c : association) (routingContext : Z)
    (result : RoutingKeyDeregistrationResult) : Prop :=
  dr_RoutingContext result = routingContext ∧
  (dr_Status result = DeregistrationSuccessfullyDeregistered → ¬ is_member es c routingContext).

Lemma dereg_result_ok_shrinks c es es' rc result :
  shrinks c es es' → dereg_result_ok es c rc result → dereg_result_ok es' c rc result.
Proof. intros Hs [H1 H2]. split; [done|]. eauto using shrinks_not_member. Qed.

(** The replays of the Association that do not name [rc] survive its leaving. *)
Lemma replays_ok_left es es' c rc e state :
  es !! rc = Some e → (∀ k, k ≠ rc → es' !! k = es !! k) →
  replays_ok es c state → replays_ok es' c (purgeRegistrationReplayState rc state).
Proof.
  intros He Hes [Hwf H]. destruct (purge_spec rc state Hwf) as [Hwf' Hp]. split; [done|].
  intros k v Hk. apply Hp in Hk as [Hk Hne]. destruct (H k v Hk) as [Hid [Hl Hr]].
  split; [done|]. split; [done|]. case_match; [|done]. by rewrite Hes.
Qed.

Lemma store_deregs_ok es c result state :
  deregs_ok es c state → dr_Status result = DeregistrationSuccessfullyDeregistered →
  ¬ is_member es c (dr_RoutingContext result) →
  deregs_ok es c (storeDeregistrationReplay result state).
Proof.
  intros [Hwf H] Hs Hm. split; [by apply store_wf|]. intros k r Hk.
  apply store_lookup in Hk as [[-> ->]|[_ Hk]]; [done|by apply H|done].
Qed.

Section deregister.
Context (cfg : RoutingKeyManagementConfig) (c : association) (cb : callbacks).

Lemma leaveEntry_ok rc e w :
  dereg_work_ok cfg c w → d_entries w !! rc = Some e →
  let r := leaveEntry cfg c rc e w in
  dereg_work_ok cfg c r.2 ∧ shrinks c (d_entries w) (d_entries r.2) ∧
  dereg_result_ok (d_entries r.2) c rc r.1.
Proof.
  intros [Hent Hreg Hder] He. set (e' := deleteMember c e).
  assert (Hs : shrinks c (d_entries w) (<[rc := e']> (d_entries w))) by by apply shrinks_insert.
  assert (Hn : ¬ is_member (<[rc := e']> (d_entries w)) c rc) by apply not_member_left.
  assert (Hent' : entries_ok cfg (<[rc := e']> (d_entries w)) (d_dynamic w)).
  { eapply entries_ok_insert_same; [done..|apply deleteMember_same]. }
  assert (Hreg' : ∀ es', (∀ k, k ≠ rc → es' !! k = d_entries w !! k) →
    replays_ok es' c (purgeRegistrationReplayState rc (d_regs w))).
  { intros es' Hes. by eapply replays_ok_left. }
  assert (Hder' : deregs_ok (<[rc := e']> (d_entries w)) c (d_deregs w)) by by eapply deregs_ok_shrinks.
  unfold leaveEntry. fold e'. destruct (_ && _ && _) eqn:Hunused; cbn [fst snd].
  - apply andb_true_iff in Hunused as [[Hprov Hempty]%andb_true_iff _].
    apply negb_true_iff in Hprov. apply bool_decide_eq_true in Hempty.
    assert (Hs' : shrinks c (<[rc := e']> (d_entries w)) (delete rc (<[rc := e']> (d_entries w)))).
    { apply (shrinks_delete _ _ _ e'); [apply lookup_insert_eq|]. rewrite Hempty. set_solver. }
    assert (Hn' : ¬ is_member (delete rc (<[rc := e']> (d_entries w))) c rc)
      by by eapply shrinks_not_member.
    split_and!; [|by etrans|by split].
    split; cbn.
    + eapply entries_ok_delete; [done|apply lookup_insert_eq|done].
    + apply Hreg'. intros k Hk. by rewrite lookup_delete_ne, lookup_insert_ne.
    + apply store_deregs_ok; [apply store_deregs_ok|..]; [|done..].
      by eapply deregs_ok_shrinks.
  - split_and!; [|done|by split].
    split; cbn; [done| |by apply store_deregs_ok].
    apply Hreg'. intros k Hk. by rewrite lookup_insert_ne.
Qed.

Lemma authorizeDereg_irrelevant d w :
  dereg_work_ok cfg c w →
  dereg_work_ok cfg c (mkDeregWork (d_entries w) (d_dynamic w) (d_regs w) (d_deregs w) d
    (d_batchResults w)).
Proof. intros []. by split. Qed.

Lemma decideDeregistration_ok rd index rc w :
  dereg_work_ok cfg c w →
  let r := decideDeregistration cfg c cb rd index rc w in
  dereg_work_ok cfg c r.2 ∧ shrinks c (d_entries w) (d_entries r.2) ∧
  dereg_result_ok (d_entries r.2) c rc r.1 ∧ d_batchResults r.2 = d_batchResults w.
Proof.
  intros Hok. unfold decideDeregistration.
  assert (Hkeep : ∀ status w', status ≠ DeregistrationSuccessfullyDeregistered →
    dereg_work_ok cfg c w' → d_entries w' = d_entries w → d_batchResults w' = d_batchResults w →
    let r := (deregResult rc status, w') in
    dereg_work_ok cfg c r.2 ∧ shrinks c (d_entries w) (d_entries r.2) ∧
    dereg_result_ok (d_entries r.2) c rc r.1 ∧ d_batchResults r.2 = d_batchResults w).
  { intros status w' Hst Hw He Hb. cbn. rewrite He. split_and!; [done|reflexivity| |done].
    split; [done|]. cbn. congruence. }
  destruct (byKey (d_deregs w) !! rc) as [replay|] eqn:Hk.
  { destruct Hok as [Hent Hreg [Hwf Hder]]. destruct (Hder _ _ Hk) as (Hrc & Hst & Hn). cbn.
    split_and!; [|reflexivity|by split|done]. split; cbn; [done..|].
    apply store_deregs_ok; [by split|done|by rewrite Hrc]. }
  destruct (d_entries w !! rc) as [e|] eqn:He; [|by apply Hkeep].
  destruct (negb (hasMember c e)); [by apply Hkeep|].
  destruct (rd_active _ _); [by apply Hkeep|].
  destruct (authorizeDereg _ _ _ _ _) as [allowed d] eqn:Ha.
  set (w' := mkDeregWork (d_entries w) (d_dynamic w) (d_regs w) (d_deregs w) d (d_batchResults w)).
  change (_ <| d_decisions := d |>) with w'.
  assert (Hok' : dereg_work_ok cfg c w') by by apply authorizeDereg_irrelevant.
  destruct (negb allowed); [by apply (Hkeep _ w')|].
  destruct (leaveEntry_ok rc e w' Hok' He) as (? & ? & ?). split_and!; [done..|].
  unfold leaveEntry. by destruct (_ && _ && _).
Qed.

Definition batch_ok (es : gmap Z routingKeyEntry) (batch : gmap Z RoutingKeyDeregistrationResult)
    : Prop := map_Forall (dereg_result_ok es c) batch.

Lemma deregisterLoop_ok rds index rcs w :
  dereg_work_ok cfg c w → batch_ok (d_entries w) (d_batchResults w) →
  let r := deregisterLoop cfg c cb rds index rcs w in
  dereg_work_ok cfg c r.2 ∧ shrinks c (d_entries w) (d_entries r.2) ∧
  Forall2 (dereg_result_ok (d_entries r.2) c) rcs r.1.
Proof.
  revert index w. induction rcs as [|rc rcs IH]; intros index w Hok Hb; cbn.
  { split_and!; [done|reflexivity|constructor]. }
  assert (let r := deregisterOne cfg c cb (rds index) index rc w in
    dereg_work_ok cfg c r.2 ∧ shrinks c (d_entries w) (d_entries r.2) ∧
    dereg_result_ok (d_entries r.2) c rc r.1 ∧ batch_ok (d_entries r.2) (d_batchResults r.2))
    as Hone.
  { unfold deregisterOne. destruct (d_batchResults w !! rc) as [previous|] eqn:Hp; cbn.
    { split_and!; [done|reflexivity|by apply Hb|done]. }
    pose proof (decideDeregistration_ok (rds index) index rc w Hok) as Hd.
    destruct (decideDeregistration _ _ _ _ _ _ _) as [result w1]. cbn [fst snd] in Hd |- *.
    destruct Hd as ([? ? ?] & Hs & Hres & Hbe). split_and!; [by split|done|done|]. cbn.
    rewrite Hbe. apply map_Forall_insert_2; [done|].
    intros k x Hk. eapply dereg_result_ok_shrinks; [done|]. by apply Hb. }
  destruct (deregisterOne _ _ _ _ _ _ _) as [result w1]. cbn [fst snd] in Hone.
  destruct Hone as (Hok1 & Hs1 & Hres & Hb1). specialize (IH (S index) w1 Hok1 Hb1).
  destruct (deregisterLoop _ _ _ _ _ _ _) as [results w2]. cbn [fst snd] in IH |- *.
  destruct IH as (Hok2 & Hs2 & Hall). split_and!; [done|by etrans|].
  constructor; [by eapply dereg_result_ok_shrinks|done].
Qed.
End deregister.

(** ** The registry *)

Record registry_ok (cfg : RoutingKeyManagementConfig) (R : routingKeyRegistry) : Prop := {
  ro_config : config R = Some cfg;
  ro_entries : entries_ok cfg (entries R) (dynamic R);
  ro_replays : ∀ c state, replays R !! c = Some state → replays_ok (entries R) c state;
  ro_deregs : ∀ c state, deregReplays R !! c = Some state → deregs_ok (entries R) c state;
}.

Lemma noReplays_regs_ok es c : replays_ok es c noReplays.
Proof. split; [apply noReplays_wf|]. intros k v. cbn. by rewrite lookup_empty. Qed.

Lemma noReplays_deregs_ok es c : deregs_ok es c noReplays.
Proof. split; [apply noReplays_wf|]. intros k v. cbn. by rewrite lookup_empty. Qed.

Lemma default_replays_ok cfg R c : registry_ok cfg R →
  replays_ok (entries R) c (default noReplays (replays R !! c)).
Proof.
  intros [_ _ Hr _]. destruct (replays R !! c) eqn:Hc; cbn; [by apply Hr|apply noReplays_regs_ok].
Qed.

Lemma default_deregs_ok cfg R c : registry_ok cfg R →
  deregs_ok (entries R) c (default noReplays (deregReplays R !! c)).
Proof.
  intros [_ _ _ Hd]. destruct (deregReplays R !! c) eqn:Hc; cbn; [by apply Hd|apply noReplays_deregs_ok].
Qed.

Lemma startWork_ok cfg c R d : registry_ok cfg R → decisions_ok d → work_ok cfg c (startWork c R d).
Proof.
  intros HR Hd. split; cbn; [by apply ro_entries|by eapply default_replays_ok|by eapply default_deregs_ok|done].
Qed.

Lemma startDeregWork_ok cfg c R d : registry_ok cfg R → dereg_work_ok cfg c (startDeregWork c R d).
Proof.
  intros HR. split; cbn; [by apply ro_entries|by eapply default_replays_ok|by eapply default_deregs_ok].
Qed.

Lemma installRegistration_ok cfg c R w :
  registry_ok cfg R → work_ok cfg c w → grows c (entries R) (w_entries w) →
  registry_ok cfg (installRegistration c w R).
Proof.
  intros [Hc He Hr Hd] [We Wr Wd _] Hg. split; cbn; [done|done|..].
  - intros c' state. rewrite lookup_insert_Some. intros [[<- <-]|[Hne Hs]]; [done|].
    eapply replays_ok_grows; eauto.
  - intros c' state. rewrite lookup_insert_Some. intros [[<- <-]|[Hne Hs]]; [done|].
    eapply deregs_ok_grows; eauto.
Qed.

Lemma installDeregistration_ok cfg c R w :
  registry_ok cfg R → dereg_work_ok cfg c w → shrinks c (entries R) (d_entries w) →
  registry_ok cfg (installDeregistration c w R).
Proof.
  intros [Hc He Hr Hd] [We Wr Wd] Hs. split; cbn; [done|done|..].
  - intros c' state. rewrite lookup_insert_Some. intros [[<- <-]|[Hne Hst]]; [done|].
    eapply replays_ok_shrinks; eauto.
  - intros c' state. rewrite lookup_insert_Some. intros [[<- <-]|[Hne Hst]]; [done|].
    eapply deregs_ok_shrinks; eauto.
Qed.

(** *** The end of an Association *)

Lemma forgetStep_ok cfg c acc rc e :
  entries_ok cfg acc.1.1 acc.1.2 → acc.1.1 !! rc = Some e →
  let acc' := forgetStep (RemoveUnusedRoutingKeys cfg) c acc (rc, e) in
  entries_ok cfg acc'.1.1 acc'.1.2 ∧ shrinks c acc.1.1 acc'.1.1 ∧
  ¬ is_member acc'.1.1 c rc ∧ ∀ k, k ≠ rc → acc'.1.1 !! k = acc.1.1 !! k.
Proof.
  destruct acc as [[es n] removed]. cbn [fst snd]. intros Hok He. unfold forgetStep.
  destruct (negb (hasMember c e)) eqn:Hm; cbn [fst snd].
  { split_and!; [done|reflexivity| |done]. intros (x & Hx & Hc). simplify_eq.
    apply negb_true_iff, bool_decide_eq_false in Hm. done. }
  set (e' := deleteMember c e).
  assert (Hs : shrinks c es (<[rc := e']> es)) by by apply shrinks_insert.
  destruct (_ && _ && _) eqn:Hunused; cbn [fst snd].
  - apply andb_true_iff in Hunused as [[Hprov Hempty]%andb_true_iff _].
    apply negb_true_iff in Hprov. apply bool_decide_eq_true in Hempty.
    assert (Hmem : e_members e ⊆ {[c]}).
    { intros x Hx. destruct (decide (x = c)); [set_solver|]. cbn in Hempty. set_solver. }
    split_and!.
    + by eapply entries_ok_delete.
    + by eapply shrinks_delete.
    + intros (x & Hx & _). by rewrite lookup_delete_eq in Hx.
    + intros k Hk. by rewrite lookup_delete_ne.
  - split_and!; [|done|apply not_member_left|].
    + eapply entries_ok_insert_same; [done..|apply deleteMember_same].
    + intros k Hk. by rewrite lookup_insert_ne.
Qed.

Lemma forget_loop_ok cfg c l acc :
  entries_ok cfg acc.1.1 acc.1.2 → NoDup l.*1 →
  (∀ rc e, (rc, e) ∈ l → acc.1.1 !! rc = Some e) →
  let acc' := foldl (forgetStep (RemoveUnusedRoutingKeys cfg) c) acc l in
  entries_ok cfg acc'.1.1 acc'.1.2 ∧ shrinks c acc.1.1 acc'.1.1 ∧
  (∀ rc, rc ∈ l.*1 → ¬ is_member acc'.1.1 c rc).
Proof.
  revert acc. induction l as [|[rc e] l IH]; intros acc Hok Hnd Hl; cbn [foldl].
  { split_and!; [done|reflexivity|set_solver]. }
  rewrite fmap_cons in Hnd. apply NoDup_cons in Hnd as [Hrc Hnd].
  destruct (forgetStep_ok cfg c acc rc e) as (Hok' & Hs & Hm & Hother); [done|apply Hl; set_solver|].
  destruct (IH (forgetStep (RemoveUnusedRoutingKeys cfg) c acc (rc, e))) as (Hok'' & Hs' & Hm').
  - done.
  - done.
  - intros k x Hin. rewrite Hother; [apply Hl; set_solver|]. intros ->. apply Hrc.
    apply list_elem_of_fmap. by exists (rc, x).
  - split_and!; [done|by etrans|]. rewrite fmap_cons. cbn.
    intros k [->|Hk]%elem_of_cons; [by eapply shrinks_not_member|auto].
Qed.

Lemma forgetAssociation_ok cfg c R :
  registry_ok cfg R →
  let R' := (forgetAssociation c R).1 in
  registry_ok cfg R' ∧ shrinks c (entries R) (entries R') ∧ (∀ rc, ¬ is_member (entries R') c rc) ∧
  revision R' = u64 (revision R + 1).
Proof.
  intros [Hc He Hr Hd]. unfold forgetAssociation, removesUnused. rewrite Hc.
  destruct (forget_loop_ok cfg c (map_to_list (entries R)) (entries R, dynamic R, []))
    as (Hok & Hs & Hm).
  - done.
  - apply NoDup_fst_map_to_list.
  - intros rc e. cbn. by rewrite elem_of_map_to_list.
  - cbn [fst snd] in Hs. destruct (foldl _ _ _) as [[es n] removed]. cbn [fst snd] in *.
    split_and!; [split; cbn; [done|done|..]|done| |done].
    + intros c' state [Hne Hst]%lookup_delete_Some. eapply replays_ok_shrinks; [done|congruence|auto].
    + intros c' state [Hne Hst]%lookup_delete_Some. eapply deregs_ok_shrinks; [done|auto].
    + intros rc Hmem. destruct Hmem as (e & He' & Hin).
      apply (Hm rc); [|by exists e]. destruct Hs as [Hold _]. destruct (Hold rc e He') as (x & Hx & _).
      apply list_elem_of_fmap. exists (rc, x). split; [done|]. by apply elem_of_map_to_list.
Qed.

(** *** Answers that have been written *)

Section written.
Context {A : Type}.
Implicit Types (state : replayState A).

Lemma writtenStep_spec matches (acc : replayState A * bool) k :
  replays_wf acc.1 →
  let acc' := writtenStep matches acc k in
  replays_wf acc'.1 ∧ byKey acc'.1 = byKey acc.1 ∧ (acc'.2 = false → acc' = acc).
Proof.
  destruct acc as [state changed]. cbn [fst snd]. intros Hwf. unfold writtenStep.
  destruct (byKey state !! k); [|by split_and!]. destruct (_ && _); [|by split_and!].
  cbn. split_and!; [|done|done]. destruct Hwf as [? ? Hp]. split; cbn; [done..|]. set_solver.
Qed.
End written.

Lemma written_loop_spec {A B} (f : B → A → bool) (g : B → Z) (l : list B) (acc : replayState A * bool) :
  replays_wf acc.1 →
  let acc' := foldl (λ acc x, writtenStep (f x) acc (g x)) acc l in
  replays_wf acc'.1 ∧ byKey acc'.1 = byKey acc.1 ∧ (acc'.2 = false → acc' = acc).
Proof.
  revert acc. induction l as [|x l IH]; intros acc Hwf; cbn [foldl]; [by split_and!|].
  destruct (writtenStep_spec (f x) acc (g x) Hwf) as (Hwf' & Hb & Hsame).
  destruct (IH _ Hwf') as (Hwf'' & Hb' & Hsame'). split_and!; [done|congruence|].
  intros Hf. specialize (Hsame' Hf). rewrite Hsame' in Hf |- *. auto.
Qed.

(** The revision tells whether the kept answers changed. *)
Lemma registrationResponseWritten_spec cfg c requests results R :
  registry_ok cfg R →
  let R' := registrationResponseWritten c requests results R in
  registry_ok cfg R' ∧ entries R' = entries R ∧ dynamic R' = dynamic R ∧
  (revision R' = u64 (revision R + 1) ∨ R' = R).
Proof.
  intros HR. unfold registrationResponseWritten.
  destruct (replays R !! c) as [state|] eqn:Hs; [|by split_and!; [..|right]].
  assert (Hst := ro_replays _ _ HR c state Hs). destruct Hst as [Hwf Hst].
  pose proof (written_loop_spec
    (λ p replay, bool_decide (rp_result replay = p.2) &&
       routingKeyRegistrationRequestsEqual (rp_request replay) p.1)
    (λ p, LocalRoutingKeyIdentifier p.1) (zip requests results) (state, false) Hwf) as Hloop.
  assert (Hfold : ∀ (l : list (RoutingKeyRegistrationRequest * RoutingKeyRegistrationResult)) acc,
    foldl (λ acc '(request, result), writtenStep (λ replay,
        bool_decide (rp_result replay = result) &&
        routingKeyRegistrationRequestsEqual (rp_request replay) request) acc
        (LocalRoutingKeyIdentifier request)) acc l =
    foldl (λ acc x, writtenStep (λ replay, bool_decide (rp_result replay = x.2) &&
        routingKeyRegistrationRequestsEqual (rp_request replay) x.1) acc
        (LocalRoutingKeyIdentifier x.1)) acc l).
  { induction l as [|[q r] l IH]; intros acc; [done|]. cbn [foldl]. apply IH. }
  rewrite Hfold. destruct (foldl _ _ _) as [state' changed]. cbn [fst snd] in Hloop.
  destruct Hloop as (Hwf' & Hb & Hsame). destruct HR as [Hc He Hr Hd].
  split_and!; [|done|done|].
  - split; cbn; [done|done| |done]. intros c' s. rewrite lookup_insert_Some.
    intros [[<- <-]|[_ ?]]; [|by apply Hr]. split; [by apply trim_wf|].
    intros k v Hk. apply trim_lookup in Hk; [|done]. rewrite Hb in Hk. by apply Hst.
  - unfold set_replays. destruct changed; [by left|]. cbn [orb].
    destruct (Z.eqb_spec (len (order (trimReplayState registrationReplayLimit state')))
                (len (order state'))) as [Hlen|]; [right|by left].
    apply trim_unchanged in Hlen; [|done]. rewrite Hlen. cbn [negb].
    specialize (Hsame eq_refl). injection Hsame as ->. rewrite insert_id by done. by destruct R.
Qed.

Lemma deregistrationResponseWritten_spec cfg c results R :
  registry_ok cfg R →
  let R' := deregistrationResponseWritten c results R in
  registry_ok cfg R' ∧ entries R' = entries R ∧ dynamic R' = dynamic R ∧
  (revision R' = u64 (revision R + 1) ∨ R' = R).
Proof.
  intros HR. unfold deregistrationResponseWritten.
  destruct (deregReplays R !! c) as [state|] eqn:Hs; [|by split_and!; [..|right]].
  assert (Hst := ro_deregs _ _ HR c state Hs). destruct Hst as [Hwf Hst].
  pose proof (written_loop_spec (λ result replay, bool_decide (replay = result))
    dr_RoutingContext results (state, false) Hwf) as Hloop.
  destruct (foldl _ _ _) as [state' changed]. cbn [fst snd] in Hloop.
  destruct Hloop as (Hwf' & Hb & Hsame). destruct HR as [Hc He Hr Hd].
  split_and!; [|done|done|].
  - split; cbn; [done|done|done|]. intros c' s. rewrite lookup_insert_Some.
    intros [[<- <-]|[_ ?]]; [|by apply Hd]. split; [by apply trim_wf|].
    intros k v Hk. apply trim_lookup in Hk; [|done]. rewrite Hb in Hk. by apply Hst.
  - unfold set_deregReplays. destruct changed; [by left|]. cbn [orb].
    destruct (Z.eqb_spec (len (order (trimReplayState deregistrationReplayLimit state')))
                (len (order state'))) as [Hlen|]; [right|by left].
    apply trim_unchanged in Hlen; [|done]. rewrite Hlen. cbn [negb].
    specialize (Hsame eq_refl). injection Hsame as ->. rewrite insert_id by done. by destruct R.
Qed.

(** ** Construction *)

(** What validation has seen, and the entries installed from it. *)
Record installed_ok (seen : list Z * list canonicalRoutingKey) (es : gmap Z routingKeyEntry)
    : Prop := {
  io_entry : map_Forall entry_ok es;
  io_contexts : ∀ rc, is_Some (es !! rc) → rc ∈ seen.1;
  io_keys : ∀ rc e, es !! rc = Some e → e_canonical e ∈ seen.2;
  io_disjoint : ∀ rc rc' e e', es !! rc = Some e → es !! rc' = Some e' → rc ≠ rc' →
    overlaps (e_canonical e) (e_canonical e') = false;
  io_provisioned : ∀ rc e, es !! rc = Some e → e_provisioned e = true ∧ e_members e = ∅;
}.

Lemma snapshot_wf key : wf_key key → wf_key (snapshotRoutingKey key).
Proof. intros [Hna Hg]. split; cbn; [|done]. intros Hs. rewrite Hs. auto. Qed.

Lemma install_step seen es p seen' es' :
  installed_ok seen es → wf_key (p_RoutingKey p) →
  validateProvisioned seen p = Ok seen' → installProvisioned es p = Ok es' →
  installed_ok seen' es'.
Proof.
  destruct seen as [contexts keys]. intros [Hent Hctx Hkeys Hdis Hprov] Hwf Hv Hi.
  unfold validateProvisioned in Hv. unfold installProvisioned in Hi.
  destruct (Z.eqb_spec (p_RoutingContext p) 0) as [|H0]; [done|].
  case_bool_decide as Hdup; [done|].
  destruct (canonicalizeRoutingKey (p_RoutingKey p)) as [canonical| | |] eqn:Hcan; [|done..].
  cbn in Hv, Hi. destruct (existsb _ keys) eqn:Hov; [done|].
  injection Hv as <-. injection Hi as <-.
  assert (Hnone : es !! p_RoutingContext p = None).
  { apply eq_None_not_Some. intros Hs. by apply Hdup, Hctx. }
  set (e := mkEntry _ _ _ _ _).
  assert (Hok : entry_ok (p_RoutingContext p) e).
  { split; [done|done|cbn; by rewrite snapshot_canonical|]. by eapply canonicalizeRoutingKey_ok. }
  assert (Hfree : ∀ rc x, es !! rc = Some x → overlaps canonical (e_canonical x) = false).
  { intros rc x Hx. apply not_true_iff_false. intros Ho. apply not_true_iff_false in Hov.
    apply Hov, existsb_exists. exists (e_canonical x). split; [|done].
    apply list_elem_of_In. by eapply Hkeys. }
  split; cbn.
  - by apply map_Forall_insert_2.
  - intros rc. rewrite lookup_insert_is_Some. intros [->|[_ Hs]]; [left|right; auto].
  - intros rc x. rewrite lookup_insert_Some. intros [[_ <-]|[_ Hx]]; [set_solver|].
    apply elem_of_app. left. eauto.
  - intros rc rc' x x'. rewrite !lookup_insert_Some.
    intros [[<- <-]|[Hk Hx]] [[<- <-]|[Hk' Hx']] Hne; [done|eauto| |eauto].
    rewrite overlaps_sym; [by eapply Hfree|by apply Hent in Hx as []|by destruct Hok].
  - intros rc x. rewrite lookup_insert_Some. intros [[_ <-]|[_ Hx]]; [done|eauto].
Qed.

Lemma install_loop l seen es seen' es' :
  installed_ok seen es → Forall (λ p, wf_key (p_RoutingKey p)) l →
  foldM validateProvisioned seen l = Ok seen' → foldM installProvisioned es l = Ok es' →
  installed_ok seen' es'.
Proof.
  revert seen es. induction l as [|p l IH]; intros seen es Hok Hwf; cbn.
  { by intros [= <-] [= <-]. }
  apply Forall_cons in Hwf as [Hp Hwf]. intros Hv Hi.
  apply bind_Ok in Hv as (seen1 & Hv1 & Hv). apply bind_Ok in Hi as (es1 & Hi1 & Hi).
  eapply IH; [|done..]. by eapply install_step.
Qed.

Definition wf_config (cfg : RoutingKeyManagementConfig) : Prop :=
  Forall (λ p, wf_key (p_RoutingKey p)) (ProvisionedRoutingKeys cfg).

Lemma newRoutingKeyRegistry_ok cfg R :
  wf_config cfg → newRoutingKeyRegistry (Some cfg) = Ok R →
  registry_ok (snapshotRoutingKeyManagementConfig cfg) R ∧ revision R = 0 ∧
  ∀ rc e, entries R !! rc = Some e → e_members e = ∅.
Proof.
  intros Hwf. unfold newRoutingKeyRegistry. cbn [fmap option_fmap option_map].
  set (cfg' := snapshotRoutingKeyManagementConfig cfg). intros H.
  apply bind_Ok in H as ([] & Hv & H). apply bind_Ok in H as (es & Hes & H). injection H as <-.
  unfold validateRoutingKeyManagementConfig in Hv.
  destruct (negb _); [done|]. destruct (MaxDynamicRoutingKeys cfg' <? 0); [done|].
  apply bind_Ok in Hv as (seen & Hv & _).
  assert (installed_ok seen es) as [Hent Hctx Hkeys Hdis Hprov].
  { eapply install_loop; [| |exact Hv|exact Hes].
    - split; cbn; [apply map_Forall_empty|..]; intros ?; rewrite ?lookup_empty; [by intros []|done..].
    - apply Forall_fmap. eapply Forall_impl; [exact Hwf|]. intros p Hp. by apply snapshot_wf. }
  assert (Hun : unprovisioned es = ∅).
  { apply map_empty. intros rc. apply map_lookup_filter_None. right. intros e He.
    cbn. destruct (Hprov _ _ He). congruence. }
  split_and!; [|done|intros rc e He; by destruct (Hprov _ _ He)].
  split; cbn; [done| |intros ? ?; by rewrite lookup_empty..].
  split; [done|done| | |done].
  - by rewrite Hun, map_size_empty.
  - unfold maxDynamicRoutingKeys, defaultMaxDynamicRoutingKeys. case_match; to_prop; lia.
Qed.
