(* ===== verification/RkmTheory.v ===== *)
(** * Theory of Routing Key Management

    Calls that overlap in time take effect one at a time, at their commits; so
    every registry reached by any interleaving satisfies the invariant, traffic
    has one Routing Key at most, an Association that was forgotten stays out,
    a retransmitted request gets its answer again, and a call that nobody
    disturbs terminates. *)

From stdpp Require Import sorting.
From coqutil Require Import Datatypes.RecordSettersUsingExistingGetters.
From S2P Require Import Prelude Params ParamValues Inventory AppServer RoutingKey RoutingKeyTheory.
From S2P Require Import RkmRegistry RkmInvariant.
#[local] Open Scope Z_scope.
Set Default Goal Selector "!".

(** ** The atomic registry

    The specification: each operation of the registry is one step of it. *)

Inductive operation : Type :=
| OpRegister (c : association) (requests : list RoutingKeyRegistrationRequest)
    (results : list RoutingKeyRegistrationResult)
| OpDeregister (c : association) (routingContexts : list Z)
    (results : list RoutingKeyDeregistrationResult)
| OpForget (c : association)
| OpWritten (c : association)
| OpNone.

Inductive atomic (cfg : RoutingKeyManagementConfig)
    : routingKeyRegistry → operation → routingKeyRegistry → Prop :=
| atomic_register R c cb frc rds requests d view results w :
    decisions_ok d → Forall wf_request requests →
    registerLoop cfg c cb frc rds 0 requests (startWork c R d) = (results, w) →
    registrationASPIdentifierConflictsLocked view c (entries R) (w_entries w) results = [] →
    registrationTrafficModeConflictsLocked view
      (lockRegistrationApplicationServersLocked (v_servers view) (w_entries w) results)
      requests (entries R) (w_entries w) results = [] →
    atomic cfg R (OpRegister c requests results) (installRegistration c w R)
| atomic_deregister R c cb rds routingContexts d results w :
    deregisterLoop cfg c cb rds 0 routingContexts (startDeregWork c R d) = (results, w) →
    atomic cfg R (OpDeregister c routingContexts results) (installDeregistration c w R)
| atomic_forget R c : atomic cfg R (OpForget c) (forgetAssociation c R).1
| atomic_written R c requests results :
    atomic cfg R (OpWritten c) (registrationResponseWritten c requests results R)
| atomic_dereg_written R c results :
    atomic cfg R (OpWritten c) (deregistrationResponseWritten c results R)
| atomic_none R : atomic cfg R OpNone R.

Lemma u64_succ n : 0 ≤ n → n + 1 < 2 ^ 64 → u64 (n + 1) = n + 1.
Proof. intros. unfold u64. apply Z.mod_small. lia. Qed.

Lemma atomic_register_spec cfg R c cb frc rds requests d results w :
  registry_ok cfg R → decisions_ok d → Forall wf_request requests →
  registerLoop cfg c cb frc rds 0 requests (startWork c R d) = (results, w) →
  work_ok cfg c w ∧ grows c (entries R) (w_entries w) ∧
  Forall2 (result_ok (w_entries w) c) requests results.
Proof.
  intros HR Hd Hwf Hloop.
  pose proof (registerLoop_ok cfg c cb frc rds 0 requests _ (startWork_ok cfg c R d HR Hd) Hwf) as H.
  by rewrite Hloop in H.
Qed.

Lemma atomic_deregister_spec cfg R c cb rds rcs d results w :
  registry_ok cfg R →
  deregisterLoop cfg c cb rds 0 rcs (startDeregWork c R d) = (results, w) →
  dereg_work_ok cfg c w ∧ shrinks c (entries R) (d_entries w) ∧
  Forall2 (dereg_result_ok (d_entries w) c) rcs results.
Proof.
  intros HR Hloop.
  pose proof (deregisterLoop_ok cfg c cb rds 0 rcs _ (startDeregWork_ok cfg c R d HR)) as H.
  rewrite Hloop in H. apply H. apply map_Forall_empty.
Qed.

(** The invariant is one of the atomic registry. *)
Lemma atomic_ok cfg R op R' : registry_ok cfg R → atomic cfg R op R' → registry_ok cfg R'.
Proof.
  intros HR. destruct 1 as [? ? ? ? ? ? ? ? ? ? Hd Hwf Hloop _ _|? ? ? ? ? ? ? ? Hloop| | | |].
  - apply atomic_register_spec in Hloop as (? & ? & _); [|done..]. by apply installRegistration_ok.
  - apply atomic_deregister_spec in Hloop as (? & ? & _); [|done]. by apply installDeregistration_ok.
  - by apply forgetAssociation_ok.
  - by apply (registrationResponseWritten_spec cfg).
  - by apply (deregistrationResponseWritten_spec cfg).
  - done.
Qed.

(** Every change of the registry shows in the revision. *)
Lemma atomic_revision cfg R op R' : registry_ok cfg R → atomic cfg R op R' →
  revision R' = u64 (revision R + 1) ∨ R' = R.
Proof.
  intros HR. destruct 1; [by left|by left| | | |by right].
  - by left; apply (forgetAssociation_ok cfg).
  - by apply (registrationResponseWritten_spec cfg).
  - by apply (deregistrationResponseWritten_spec cfg).
Qed.

(** ** Overlapping calls *)

(** A call's attempt was made on a registry that is the present one if its
    revision is. *)
Definition snapshot_ok (R0 R : routingKeyRegistry) : Prop :=
  0 ≤ revision R0 ≤ revision R ∧ (revision R0 = revision R → R0 = R).

Inductive call_ok (cfg : RoutingKeyManagementConfig) (R : routingKeyRegistry) : callState → Prop :=
| call_registering c requests d frc :
    decisions_ok d → Forall wf_request requests →
    call_ok cfg R (Registering c requests d frc None)
| call_attempted c requests d frc R0 d0 cb rds :
    decisions_ok d → Forall wf_request requests → decisions_ok d0 → snapshot_ok R0 R →
    call_ok cfg R (Registering c requests d frc
      (Some (attemptRegistration cfg c cb frc d0 rds requests R0)))
| call_deregistering c rcs d : call_ok cfg R (Deregistering c rcs d None)
| call_dereg_attempted c rcs d R0 d0 cb rds :
    snapshot_ok R0 R →
    call_ok cfg R (Deregistering c rcs d (Some (attemptDeregistration cfg c cb d0 rds rcs R0)))
| call_registered results : call_ok cfg R (Registered results)
| call_deregistered results : call_ok cfg R (Deregistered results)
| call_aborted : call_ok cfg R Aborted.

(** The invariant after [n] steps. *)
Record world_ok (cfg : RoutingKeyManagementConfig) (n : Z) (w : world) : Prop := {
  wo_registry : registry_ok cfg (w_registry w);
  wo_revision : 0 ≤ revision (w_registry w) ≤ n;
  wo_calls : map_Forall (λ _, call_ok cfg (w_registry w)) (w_calls w);
  wo_forgotten : w_forgotten w ⊆ w_ended w;
  wo_gone : ∀ c rc, c ∈ w_forgotten w → ¬ is_member (entries (w_registry w)) c rc;
}.

Definition event_ok (e : event) : Prop :=
  match e with
  | ECall _ _ requests => Forall wf_request requests
  | _ => True
  end.

(** The Association an operation serves, if it is one that may add members. *)
Definition serves (op : operation) : option association :=
  match op with
  | OpRegister c _ _ | OpDeregister c _ _ => Some c
  | _ => None
  end.

Lemma snapshot_ok_grows R0 R R' :
  snapshot_ok R0 R → revision R' = revision R + 1 ∨ R' = R → snapshot_ok R0 R'.
Proof. intros [H1 H2] [Hr| ->]; [|done]. split; [lia|lia]. Qed.

Lemma call_ok_grows cfg R R' call :
  call_ok cfg R call → revision R' = revision R + 1 ∨ R' = R → call_ok cfg R' call.
Proof. destruct 1; intros; econstructor; eauto using snapshot_ok_grows. Qed.

Lemma snapshot_now n cfg w : world_ok cfg n w → snapshot_ok (w_registry w) (w_registry w).
Proof. intros []. split; [lia|done]. Qed.

(** Members change for the Association an operation serves or forgets. *)
Lemma atomic_members cfg R op R' c rc :
  registry_ok cfg R → atomic cfg R op R' → serves op ≠ Some c →
  is_member (entries R') c rc → is_member (entries R) c rc.
Proof.
  intros HR. destruct 1 as [? ? ? ? ? ? ? ? ? ? Hd Hwf Hloop _ _|? ? ? ? ? ? ? ? Hloop|?|?|?|?];
    cbn [serves]; intros Hc.
  - apply atomic_register_spec in Hloop as (_ & Hg & _); [|done..].
    apply (grows_member _ c _ _ rc Hg). congruence.
  - apply atomic_deregister_spec in Hloop as (_ & Hs & _); [|done].
    apply (shrinks_member _ c _ _ rc Hs). congruence.
  - destruct (forgetAssociation_ok cfg c0 R HR) as (_ & Hs & Hn & _). intros Hm.
    destruct (decide (c = c0)) as [->|Hne]; [by apply Hn in Hm|].
    by apply (shrinks_member _ _ _ _ rc Hs Hne).
  - by destruct (registrationResponseWritten_spec cfg c0 requests results R HR) as (_ & -> & _).
  - by destruct (deregistrationResponseWritten_spec cfg c0 results R HR) as (_ & -> & _).
  - done.
Qed.

(** A step that is one of the atomic registry keeps the world's invariant. *)
Lemma world_ok_atomic cfg n w op R' calls' ended' forgotten' :
  world_ok cfg n w → n + 1 < 2 ^ 64 → atomic cfg (w_registry w) op R' →
  (∀ c, serves op = Some c → c ∉ w_ended w) →
  map_Forall (λ _, call_ok cfg R') calls' →
  w_ended w ⊆ ended' → forgotten' ⊆ ended' →
  (∀ c, c ∈ forgotten' → c ∈ w_forgotten w ∨ op = OpForget c) →
  world_ok cfg (n + 1) (mkWorld R' ended' forgotten' calls').
Proof.
  intros [HR Hrev Hcalls Hsub Hgone] Hn Hat Hserve Hcalls' Hended Hsub' Hforg.
  split; cbn; [by eapply atomic_ok| |done|done|].
  - destruct (atomic_revision _ _ _ _ HR Hat) as [Hr| ->]; [|lia].
    rewrite u64_succ in Hr by lia. lia.
  - intros c rc Hc Hm. destruct (Hforg c Hc) as [Hw| ->].
    + eapply (Hgone c rc Hw), atomic_members; [done..| |done].
      intros Hs. apply (Hserve c Hs). set_solver.
    + inversion Hat; subst. destruct (forgetAssociation_ok cfg c (w_registry w) HR) as (_ & _ & Hno & _).
      by apply Hno in Hm.
Qed.

Lemma calls_grow cfg n w op R' :
  world_ok cfg n w → n + 1 < 2 ^ 64 → atomic cfg (w_registry w) op R' →
  map_Forall (λ _, call_ok cfg R') (w_calls w).
Proof.
  intros [HR Hrev Hcalls _ _] Hn Hat id call Hid. apply Hcalls in Hid.
  eapply call_ok_grows; [done|].
  destruct (atomic_revision _ _ _ _ HR Hat) as [Hr| ->]; [left|by right].
  rewrite Hr. apply u64_succ; lia.
Qed.

(** ** The simulation *)

(** A call that a step finishes with results got them from the operation. *)
Definition answers (before call : option callState) (op : operation) : Prop :=
  match call with
  | Some (Registered results) =>
      before = call ∨ ∃ c requests d frc attempt,
        before = Some (Registering c requests d frc attempt) ∧ op = OpRegister c requests results
  | Some (Deregistered results) =>
      before = call ∨ ∃ c rcs d attempt,
        before = Some (Deregistering c rcs d attempt) ∧ op = OpDeregister c rcs results
  | _ => True
  end.

(** A step of the calls is a step of the atomic registry, taken on the present
    registry and not on behalf of an Association that has ended. *)
Definition simulates (cfg : RoutingKeyManagementConfig) (n : Z) (w : world) (op : operation)
    (w' : world) : Prop :=
  atomic cfg (w_registry w) op (w_registry w') ∧
  (∀ c, serves op = Some c → c ∉ w_ended w) ∧
  (∀ id, answers (w_calls w !! id) (w_calls w' !! id) op) ∧
  world_ok cfg (n + 1) w'.

Lemma answers_same call op : answers call call op.
Proof. destruct call as [[]|]; cbn; auto. Qed.

(** Steps that leave the registry alone. *)
Lemma simulates_idle cfg n w ended' calls' :
  world_ok cfg n w → n + 1 < 2 ^ 64 →
  map_Forall (λ _, call_ok cfg (w_registry w)) calls' → w_ended w ⊆ ended' →
  (∀ id, answers (w_calls w !! id) (calls' !! id) OpNone) →
  simulates cfg n w OpNone (mkWorld (w_registry w) ended' (w_forgotten w) calls').
Proof.
  intros Hw Hn Hcalls Hended Hans. assert (Hsub := wo_forgotten _ _ _ Hw).
  split_and!; [constructor|done|done|].
  eapply world_ok_atomic; [done|done|apply atomic_none|done|done|done|set_solver|by left].
Qed.

Lemma simulates_call cfg n w id call :
  world_ok cfg n w → n + 1 < 2 ^ 64 → call_ok cfg (w_registry w) call →
  answers (w_calls w !! id) (Some call) OpNone →
  simulates cfg n w OpNone (set_call id call w).
Proof.
  intros Hw Hn Hc Ha. unfold set_call. apply simulates_idle; [done|done| |done|].
  - apply map_Forall_insert_2; [done|by eapply wo_calls].
  - intros id'. rewrite lookup_insert. case_decide; [by subst|apply answers_same].
Qed.

(** Steps that change the registry and finish the calls at [ids]. *)
Lemma simulates_change cfg n w op R' forgotten' calls' :
  world_ok cfg n w → n + 1 < 2 ^ 64 → atomic cfg (w_registry w) op R' →
  (∀ c, serves op = Some c → c ∉ w_ended w) →
  (∀ id call, calls' !! id = Some call → w_calls w !! id = Some call ∨ call_association call = None) →
  (∀ id, answers (w_calls w !! id) (calls' !! id) op) →
  forgotten' ⊆ w_ended w →
  (∀ c, c ∈ forgotten' → c ∈ w_forgotten w ∨ op = OpForget c) →
  simulates cfg n w op (mkWorld R' (w_ended w) forgotten' calls').
Proof.
  intros Hw Hn Hat Hserve Hcalls Hans Hsub Hforg. split_and!; [done|done|done|].
  eapply world_ok_atomic; [done..| |done|done|done].
  intros id call Hid. destruct (Hcalls id call Hid) as [Hold|Hnew].
  - by eapply (calls_grow cfg n w op R').
  - destruct call; try done; constructor.
Qed.

Lemma attempt_decisions cfg c cb frc d rds requests R :
  registry_ok cfg R → decisions_ok d → Forall wf_request requests →
  decisions_ok (w_decisions (at_work (attemptRegistration cfg c cb frc d rds requests R))).
Proof.
  intros HR Hd Hwf. unfold attemptRegistration.
  destruct (registerLoop _ _ _ _ _ _ _ _) as [results w] eqn:Hl.
  apply atomic_register_spec in Hl as ([_ _ _ Hdec] & _); done.
Qed.

Lemma step_attempt cfg n w id cb rds w' :
  world_ok cfg n w → n + 1 < 2 ^ 64 → stepAttempt id cb rds w = Some w' →
  simulates cfg n w OpNone w'.
Proof.
  intros Hw Hn. unfold stepAttempt. assert (HR := wo_registry _ _ _ Hw).
  rewrite (ro_config _ _ HR). cbn.
  destruct (w_calls w !! id) as [call|] eqn:Hid; [cbn|done].
  assert (Hcall := wo_calls _ _ _ Hw id call Hid). assert (Hsnap := snapshot_now _ _ _ Hw).
  destruct call as [c requests d frc [att|]|c rcs d [att|]| | |]; try done.
  - case_bool_decide; [done|]. intros [= <-]. inversion Hcall; subst.
    apply simulates_call; [done|done| |done]. constructor; [|done|done|done].
    by apply attempt_decisions.
  - case_bool_decide; [done|]. intros [= <-]. apply simulates_call; [done|done| |done].
    by constructor.
Qed.

Lemma step_start cfg n w id call without w' :
  world_ok cfg n w → n + 1 < 2 ^ 64 → call_ok cfg (w_registry w) call →
  is_Some (call_association call) →
  startCall id call without w = Some w' → simulates cfg n w OpNone w'.
Proof.
  intros Hw Hn Hc Hc' H. unfold startCall in H. assert (HR := wo_registry _ _ _ Hw).
  destruct (w_calls w !! id) eqn:Hid; [done|]. injection H as <-.
  rewrite (ro_config _ _ HR), bool_decide_eq_true_2 by done.
  apply simulates_call; [done..|]. rewrite Hid. by destruct call; inversion Hc'.
Qed.

Lemma commitRegistration_done cfg c cb frc frc0 d rds requests view ended R0 R R' servers results :
  snapshot_ok R0 R →
  commitRegistration c ended frc requests view (attemptRegistration cfg c cb frc0 d rds requests R0) R
    = CommitDone R' servers results →
  ended = false ∧ R0 = R ∧ ∃ w,
    registerLoop cfg c cb frc0 rds 0 requests (startWork c R d) = (results, w) ∧
    R' = installRegistration c w R ∧
    registrationASPIdentifierConflictsLocked view c (entries R) (w_entries w) results = [] ∧
    registrationTrafficModeConflictsLocked view
      (lockRegistrationApplicationServersLocked (v_servers view) (w_entries w) results)
      requests (entries R) (w_entries w) results = [].
Proof.
  intros [_ Hsame]. unfold commitRegistration, attemptRegistration.
  destruct (registerLoop _ _ _ _ _ _ _ _) as [results' w] eqn:Hloop. cbn.
  destruct (Z.eqb_spec (revision R) (revision R0)) as [Hrev|]; [|done]. cbn [negb].
  specialize (Hsame (eq_sym Hrev)). subst R0. destruct ended; [done|].
  destruct (negb (len (registrationASPIdentifierConflictsLocked _ _ _ _ _) =? 0)) eqn:Hi; [done|].
  destruct (negb (len (registrationTrafficModeConflictsLocked _ _ _ _ _ _) =? 0)) eqn:Ht; [done|].
  intros [= <- <- <-]. apply negb_false_iff, len_0 in Hi, Ht. eauto 10.
Qed.

Lemma step_commit cfg n w id view w' :
  world_ok cfg n w → n + 1 < 2 ^ 64 → stepCommit id view w = Some w' →
  ∃ op, simulates cfg n w op w'.
Proof.
  intros Hw Hn. unfold stepCommit. assert (HR := wo_registry _ _ _ Hw).
  assert (Hforg := wo_forgotten _ _ _ Hw).
  destruct (w_calls w !! id) as [call|] eqn:Hid; [cbn|done].
  assert (Hcall := wo_calls _ _ _ Hw id call Hid).
  destruct call as [c requests d frc [att|]|c rcs d [att|]| | |]; try done; intros [= <-];
    inversion Hcall; subst.
  - destruct (commitRegistration _ _ _ _ _ _ _) as [|frc'|R' servers results] eqn:Hc.
    + exists OpNone. apply simulates_call; [done..|constructor|done].
    + exists OpNone. apply simulates_call; [done..|by constructor|done].
    + apply commitRegistration_done in Hc as (Hended & -> & w1 & Hloop & -> & Hi & Ht); [|done].
      apply bool_decide_eq_false in Hended. exists (OpRegister c requests results).
      apply (simulates_change _ _ w _ _ (w_forgotten w) (<[id := Registered results]> (w_calls w)));
        [done|done|by eapply atomic_register|..].
      * by intros ? [= <-].
      * cbn. intros i call. rewrite lookup_insert_Some. intros [[_ <-]|[_ ?]]; auto.
      * cbn. intros i. rewrite lookup_insert. case_decide; [subst|apply answers_same].
        rewrite Hid. right. eauto 10.
      * done.
      * by left.
  - destruct (commitDeregistration _ _ _ _) as [| |R' results] eqn:Hc.
    + exists OpNone. apply simulates_call; [done..|constructor|done].
    + exists OpNone. apply simulates_call; [done..|by constructor|done].
    + unfold commitDeregistration, attemptDeregistration in Hc.
      destruct (deregisterLoop _ _ _ _ _ _ _) as [results' w1] eqn:Hloop. cbn in Hc.
      destruct (Z.eqb_spec (revision (w_registry w)) (revision R0)) as [Hrev|]; [|done].
      destruct (bool_decide _) eqn:Hended; [done|]. injection Hc as <- <-.
      apply bool_decide_eq_false in Hended.
      match goal with H : snapshot_ok _ _ |- _ => destruct H as [_ Hsame] end.
      specialize (Hsame (eq_sym Hrev)). subst R0. exists (OpDeregister c rcs results').
      apply (simulates_change _ _ w _ _ (w_forgotten w) (<[id := Deregistered results']> (w_calls w)));
        [done|done|by eapply atomic_deregister|..].
      * by intros ? [= <-].
      * cbn. intros i call. rewrite lookup_insert_Some. intros [[_ <-]|[_ ?]]; auto.
      * cbn. intros i. rewrite lookup_insert. case_decide; [subst|apply answers_same].
        rewrite Hid. right. eauto 10.
      * done.
      * by left.
Qed.

(** Any step. *)
Lemma rkm_step_simulates cfg n w e w' :
  world_ok cfg n w → n + 1 < 2 ^ 64 → event_ok e → rkm_step e w = Some w' →
  ∃ op, simulates cfg n w op w'.
Proof.
  intros Hw Hn He. assert (HR := wo_registry _ _ _ Hw). assert (Hforg := wo_forgotten _ _ _ Hw).
  destruct e as [id c requests|id c rcs|id cb rds|id view|id|c|c|c requests results|c results];
    cbn [rkm_step]; intros H.
  - exists OpNone. eapply step_start; [done|done| | |done]; [constructor; done|done].
  - exists OpNone. eapply step_start; [done|done| | |done]; [constructor|done].
  - exists OpNone. by eapply step_attempt.
  - by eapply step_commit.
  - exists OpNone. unfold stepAbort in H.
    destruct (w_calls w !! id) as [call|] eqn:Hid; [cbn in H|done].
    destruct (call_association call); [cbn in H|done]. case_bool_decide; [|done].
    injection H as <-. apply simulates_call; [done..|constructor|done].
  - exists OpNone. injection H as <-.
    apply simulates_idle; [done|done|by eapply wo_calls|set_solver|]. intros id. apply answers_same.
  - case_bool_decide as Hend; [|done]. injection H as <-. exists (OpForget c).
    apply simulates_change; [done|done|constructor|done|by left| |set_solver|].
    + intros id. apply answers_same.
    + intros c'. rewrite elem_of_union, elem_of_singleton. intros [->|?]; [by right|by left].
  - injection H as <-. exists (OpWritten c).
    apply simulates_change; [done|done|constructor|done|by left| |done|by left].
    intros id. apply answers_same.
  - injection H as <-. exists (OpWritten c).
    apply simulates_change; [done|done|constructor|done|by left| |done|by left].
    intros id. apply answers_same.
Qed.

(** ** Runs *)

Lemma rkm_run_ok cfg n es w w' :
  world_ok cfg n w → Forall event_ok es → n + len es < 2 ^ 64 →
  rkm_run es w = Some w' → world_ok cfg (n + len es) w'.
Proof.
  revert n w. induction es as [|e es IH]; intros n w Hw Hes Hn; cbn [rkm_run].
  - intros [= <-]. by rewrite len_nil, Z.add_0_r.
  - rewrite len_cons in Hn |- *. apply Forall_cons in Hes as [He Hes].
    pose proof (len_nonneg es). destruct (rkm_step e w) as [w1|] eqn:Hs; [cbn|done].
    destruct (rkm_step_simulates cfg n w e w1) as (op & _ & _ & _ & Hw1); [done|lia|done..|].
    intros Hrun. replace (n + (1 + len es)) with (n + 1 + len es) by lia.
    apply (IH (n + 1) w1); [done|done|lia|done].
Qed.

(** A world that calls of the registry of [cfg] lead to; the revision does not
    wrap around within so many steps. *)
Definition reachable (cfg : RoutingKeyManagementConfig) (w : world) : Prop :=
  ∃ R es, newRoutingKeyRegistry (Some cfg) = Ok R ∧ Forall event_ok es ∧
    len es < 2 ^ 64 - 1 ∧ rkm_run es (initialWorld R) = Some w.

Lemma initialWorld_ok cfg R : wf_config cfg → newRoutingKeyRegistry (Some cfg) = Ok R →
  world_ok (snapshotRoutingKeyManagementConfig cfg) 0 (initialWorld R).
Proof.
  intros Hwf HR. destruct (newRoutingKeyRegistry_ok cfg R Hwf HR) as (Hok & Hrev & _).
  split; cbn; [done|lia|apply map_Forall_empty|done|set_solver].
Qed.

Lemma reachable_world cfg w : wf_config cfg → reachable cfg w →
  ∃ n, n + 1 < 2 ^ 64 ∧ world_ok (snapshotRoutingKeyManagementConfig cfg) n w.
Proof.
  intros Hwf (R & es & HR & Hes & Hlen & Hrun). exists (len es). split; [lia|].
  rewrite <-(Z.add_0_l (len es)). eapply rkm_run_ok; [by apply initialWorld_ok|done|lia|done].
Qed.

Lemma reachable_registry cfg w : wf_config cfg → reachable cfg w →
  registry_ok (snapshotRoutingKeyManagementConfig cfg) (w_registry w).
Proof. intros Hwf (n & _ & [])%reachable_world; done. Qed.

(** ** Retransmission *)

(** The answers to [l] are kept, and pending. *)
Definition keeps (l : list (RoutingKeyRegistrationRequest * RoutingKeyRegistrationResult))
    (state : registrationReplayState) : Prop :=
  replays_wf state ∧ ∀ q r, (q, r) ∈ l →
    byKey state !! LocalRoutingKeyIdentifier q =
      Some (mkReplay (snapshotRoutingKeyRegistrationRequest q) r) ∧
    LocalRoutingKeyIdentifier q ∈ pending state.

Lemma store_pending {A} limit k (v : A) state : pending (storeReplay limit k v state) = {[k]} ∪ pending state.
Proof. apply trim_pending_eq. Qed.

Lemma store_own {A} limit k (v : A) state :
  replays_wf state → byKey (storeReplay limit k v state) !! k = Some v.
Proof.
  intros Hwf. unfold storeReplay. rewrite trim_pending; [apply lookup_insert_eq|by apply put_wf|].
  cbn. set_solver.
Qed.

Lemma store_other {A} limit k (v : A) state k' :
  replays_wf state → k' ≠ k → k' ∈ pending state →
  byKey (storeReplay limit k v state) !! k' = byKey state !! k'.
Proof.
  intros Hwf Hne Hp. unfold storeReplay.
  rewrite trim_pending; [by apply lookup_insert_ne|by apply put_wf|]. cbn. set_solver.
Qed.

Definition identifiers (l : list (RoutingKeyRegistrationRequest * RoutingKeyRegistrationResult))
    : list Z := (λ qr, LocalRoutingKeyIdentifier qr.1) <$> l.

Lemma identifiers_inj l q r q' r' : NoDup (identifiers l) → (q, r) ∈ l → (q', r') ∈ l →
  LocalRoutingKeyIdentifier q = LocalRoutingKeyIdentifier q' → q = q' ∧ r = r'.
Proof.
  intros Hnd Hq Hq' Heq. apply list_elem_of_lookup in Hq as [i Hi], Hq' as [j Hj].
  assert (i = j) as ->; [|naive_solver].
  eapply (NoDup_lookup (identifiers l)); [done|..];
    unfold identifiers; rewrite list_lookup_fmap; [by rewrite Hi|by rewrite Hj; cbn; rewrite <-Heq].
Qed.

(** Keeping one more answer, or one of them again. *)
Lemma keeps_store l q r state :
  keeps l state → NoDup (identifiers (l ++ [(q, r)])) ∨ (NoDup (identifiers l) ∧ (q, r) ∈ l) →
  keeps (l ++ [(q, r)]) (storeRegistrationReplay (snapshotRoutingKeyRegistrationRequest q) r state).
Proof.
  intros [Hwf Hk] Hor. split; [by apply store_wf|]. unfold storeRegistrationReplay.
  assert (Hsnap : snapshotRoutingKeyRegistrationRequest (snapshotRoutingKeyRegistrationRequest q) =
                  snapshotRoutingKeyRegistrationRequest q).
  { unfold snapshotRoutingKeyRegistrationRequest, set_RoutingKey, snapshotRoutingKey. cbn.
    by destruct (rk_NetworkAppearanceSet (req_RoutingKey q)). }
  cbn [LocalRoutingKeyIdentifier snapshotRoutingKeyRegistrationRequest set_RoutingKey].
  rewrite Hsnap, store_pending. intros q' r' Hin.
  destruct (decide (LocalRoutingKeyIdentifier q' = LocalRoutingKeyIdentifier q)) as [Heq|Hne].
  - assert (q' = q ∧ r' = r) as [-> ->].
    { destruct Hor as [Hnd|[Hnd Hl]].
      - eapply identifiers_inj; [done..| |done]. set_solver.
      - apply elem_of_app in Hin as [Hin|[= -> ->]%list_elem_of_singleton]; [|done].
        by eapply identifiers_inj. }
    rewrite store_own by done. split; [done|set_solver].
  - apply elem_of_app in Hin as [Hin|[= -> ->]%list_elem_of_singleton]; [|done].
    destruct (Hk q' r' Hin). rewrite store_other by done. split; [done|set_solver].
Qed.

Lemma keeps_weaken l l' state : keeps l state → l' ⊆ l → keeps l' state.
Proof. intros [Hwf Hk] Hl. split; [done|]. intros q r Hin. by apply Hk, Hl. Qed.

(** A call keeps its answers. *)
Lemma registerLoop_keeps cfg c cb frc rds index requests w l results w' :
  work_ok cfg c w → Forall wf_request requests → keeps l (w_replays w) →
  registerLoop cfg c cb frc rds index requests w = (results, w') →
  NoDup (identifiers (l ++ zip requests results)) →
  keeps (l ++ zip requests results) (w_replays w').
Proof.
  revert index w l results. induction requests as [|q requests IH];
    intros index w l results Hok Hwf Hk; cbn [registerLoop].
  { intros [= <- <-] _. by rewrite app_nil_r. }
  apply Forall_cons in Hwf as [Hq Hwf].
  pose proof (registerOne_decided cfg c cb frc (rds index) index q w Hok Hq) as (Hok1 & _ & _).
  assert (Hq' : wf_request (snapshotRoutingKeyRegistrationRequest q)) by by apply snapshot_wf.
  pose proof (decideRegistration_decided cfg c cb frc (rds index) index _ w Hok Hq')
    as (_ & _ & Hrep & _).
  unfold registerOne in *. destruct (decideRegistration _ _ _ _ _ _ _ _) as [r w0].
  cbn [fst snd] in *. destruct (registerLoop _ _ _ _ _ _ _ _) as [results' w2] eqn:Hloop.
  intros [= <- <-]. cbn [zip zip_with]. rewrite cons_middle, app_assoc. intros Hnd.
  eapply IH; [exact Hok1|done| |exact Hloop|done]. cbn. rewrite Hrep.
  apply keeps_store; [done|left]. unfold identifiers in *. rewrite fmap_app in Hnd.
  by apply NoDup_app in Hnd as [? _].
Qed.

Lemma replayed_kept l state q r ck :
  keeps l state → (q, r) ∈ l → canonicalizeRoutingKey (req_RoutingKey q) = Ok ck →
  replayed (snapshotRoutingKeyRegistrationRequest q) state = Some r.
Proof.
  intros [_ Hk] Hin Hck. unfold replayed.
  cbn [LocalRoutingKeyIdentifier snapshotRoutingKeyRegistrationRequest set_RoutingKey].
  destruct (Hk q r Hin) as [-> _]. cbn [rp_request rp_result].
  assert (routingKeyRegistrationRequestsEqual (snapshotRoutingKeyRegistrationRequest q)
            (snapshotRoutingKeyRegistrationRequest q) = true) as ->; [|done].
  unfold routingKeyRegistrationRequestsEqual, same_mode, canonical_equal. cbn [req_RoutingKey set_RoutingKey snapshotRoutingKeyRegistrationRequest].
  rewrite !Z.eqb_refl, !bool_decide_eq_true_2 by done.
  rewrite snapshot_canonical, Hck. by rewrite bool_decide_eq_true_2.
Qed.

(** A call whose answers are kept gets them, and changes no entry and asks no
    callback. *)
Lemma registerLoop_replayed cfg c cb frc rds index requests results0 w l results w' :
  keeps l (w_replays w) → NoDup (identifiers l) → length results0 = length requests →
  zip requests results0 ⊆ l →
  Forall (λ q, ∃ ck, canonicalizeRoutingKey (req_RoutingKey q) = Ok ck) requests →
  registerLoop cfg c cb frc rds index requests w = (results, w') →
  results = results0 ∧ w_entries w' = w_entries w ∧ w_decisions w' = w_decisions w.
Proof.
  revert index w results0 results. induction requests as [|q requests IH];
    intros index w [|r results0] results Hk Hnd Hlen Hsub Hcan; try done; cbn [registerLoop].
  { by intros [= <- <-]. }
  apply Forall_cons in Hcan as [[ck Hck] Hcan].
  assert (Hin : (q, r) ∈ l) by (apply Hsub; cbn; set_solver).
  unfold registerOne, decideRegistration. rewrite (replayed_kept l _ q r ck) by done.
  destruct (registerLoop _ _ _ _ _ _ _ _) as [results' w2] eqn:Hloop. intros [= <- <-].
  eapply IH in Hloop as (-> & He & Hd); [|..|done].
  - split_and!; [done|by rewrite He|by rewrite Hd].
  - cbn. eapply keeps_weaken; [apply (keeps_store l q r); [done|by right]|set_solver].
  - done.
  - by injection Hlen.
  - intros x Hx. apply Hsub. cbn. set_solver.
Qed.

(** Operations of others leave the kept answers alone. *)
Definition op_association (op : operation) : option association :=
  match op with
  | OpRegister c _ _ | OpDeregister c _ _ | OpForget c | OpWritten c => Some c
  | OpNone => None
  end.

Lemma atomic_replays cfg R op R' c : atomic cfg R op R' → op_association op ≠ Some c →
  replays R' !! c = replays R !! c.
Proof.
  destruct 1; cbn; intros Hne.
  - apply lookup_insert_ne. congruence.
  - apply lookup_insert_ne. congruence.
  - unfold forgetAssociation. destruct (foldl _ _ _) as [[es n] removed]. cbn.
    apply lookup_delete_ne. congruence.
  - unfold registrationResponseWritten. destruct (replays R !! c0) eqn:Hc; [|done].
    destruct (foldl _ _ _) as [state changed]. cbn. apply lookup_insert_ne. congruence.
  - unfold deregistrationResponseWritten. destruct (deregReplays R !! c0) eqn:Hc; [|done].
    by destruct (foldl _ _ _) as [state changed].
  - done.
Qed.

(** Steps of the atomic registry that others than [c] take. *)
Inductive others (cfg : RoutingKeyManagementConfig) (c : association)
    : routingKeyRegistry → routingKeyRegistry → Prop :=
| others_refl R : others cfg c R R
| others_step R op R1 R2 : atomic cfg R op R1 → op_association op ≠ Some c →
    others cfg c R1 R2 → others cfg c R R2.

Lemma others_replays cfg c R R' : others cfg c R R' → replays R' !! c = replays R !! c.
Proof. induction 1 as [|R op R1 R2 Hat Hop _ IH]; [done|]. rewrite IH. by eapply atomic_replays. Qed.

Lemma identifiers_zip requests (results : list RoutingKeyRegistrationResult) :
  length requests = length results →
  identifiers (zip requests results) = LocalRoutingKeyIdentifier <$> requests.
Proof.
  intros Hlen. unfold identifiers.
  revert results Hlen. induction requests as [|q requests IH]; intros [|r results] Hlen; try done.
  cbn. f_equal. apply IH. by injection Hlen.
Qed.

(** ** Termination of an undisturbed call *)

Section rounds.
Context (cfg : RoutingKeyManagementConfig) (c : association).

(** A new identifier is answered from no kept answer. *)
Definition fresh_in (state : registrationReplayState) (q : RoutingKeyRegistrationRequest) : Prop :=
  byKey state !! LocalRoutingKeyIdentifier q = None.

Lemma fresh_store state q' q r : replays_wf state → fresh_in state q →
  LocalRoutingKeyIdentifier q' ≠ LocalRoutingKeyIdentifier q →
  fresh_in (storeRegistrationReplay q' r state) q.
Proof.
  intros Hwf Hf Hne. unfold fresh_in in *. apply eq_None_not_Some. intros [v Hv].
  apply store_lookup in Hv as [[? _]|[_ ?]]; [congruence|congruence|done].
Qed.

(** A successful answer that is not a kept one: either the entry was there and
    its key is not among the forced conflicts, or the entry is new. *)
Lemma registerExisting_success cb frc rd index q rc e w r w' :
  work_ok cfg c w → w_entries w !! rc = Some e →
  registerExisting c cb frc rd index q rc e w = (r, w') →
  rr_Status r = RegistrationSuccessfullyRegistered →
  rr_RoutingContext r = rc ∧ entry_asKey e ∉ f_ASPIdentifierConflicts frc.
Proof.
  intros Hok He. unfold registerExisting.
  assert (Hctx : e_routingContext e = rc) by by apply (eso_entry _ _ _ (wo_entries _ _ _ Hok) rc e He).
  destruct (routingContextConflictsWithAssociationScope _ _); [by intros [= <- _]|].
  destruct (negb _); [by intros [= <- _]|]. destruct (rd_staticMember _ _); [by intros [= <- _]|].
  destruct (hasMember c e); [by intros [= <- _]|].
  destruct (_ || _) eqn:Hc; [by intros [= <- _]|].
  apply orb_false_iff in Hc as [_ Hc]. apply bool_decide_eq_false in Hc.
  destruct (authorize _ _ _ _) as [status w1]. destruct (status =? _) eqn:Hst.
  - by intros [= <- _].
  - intros [= <- _]. cbn. intros ->. done.
Qed.

Lemma registerNew_success cb rd index q canonical w r w' :
  work_ok cfg c w → registerNew cfg c cb rd index q canonical w = (r, w') →
  rr_Status r = RegistrationSuccessfullyRegistered → w_entries w !! rr_RoutingContext r = None.
Proof.
  intros Hok. unfold registerNew. destruct (authorize _ _ _ _) as [status w1] eqn:Ha.
  apply authorize_spec in Ha as (_ & _ & He & _); [|by destruct Hok].
  destruct (negb (status =? _)) eqn:Hst.
  { intros [= <- _]. cbn. intros ->. done. }
  destruct (negb (AllowDynamicRoutingKeys cfg)); [by intros [= <- _]|].
  destruct (_ <=? _); [by intros [= <- _]|].
  set (w2 := if AllocateRoutingContext cfg then _ else w1).
  assert (w_entries w2 = w_entries w) as He2.
  { unfold w2. by destruct (AllocateRoutingContext cfg). }
  clearbody w2. destruct (allocateRoutingContext _ _ _) as [rc|] eqn:Hal; [|by intros [= <- _]].
  intros [= <- _] _. apply allocateRoutingContext_spec in Hal as (_ & Hnone & _).
  cbn. congruence.
Qed.

Lemma decide_success cb frc rd index q w r w' :
  work_ok cfg c w → wf_request q → fresh_in (w_replays w) q →
  decideRegistration cfg c cb frc rd index q w = (r, w') →
  (is_registered (rr_Status r) = true → index ∉ f_trafficModeConflicts frc) ∧
  (rr_Status r = RegistrationSuccessfullyRegistered →
   match w_entries w !! rr_RoutingContext r with
   | Some e => entry_asKey e ∉ f_ASPIdentifierConflicts frc
   | None => True
   end).
Proof.
  intros Hok Hwf Hf. unfold decideRegistration, replayed. rewrite Hf.
  destruct (unsupportedParameterField q); [by intros [= <- _]|].
  case_bool_decide as Hfr; [by intros [= <- _]|].
  destruct (canonicalizeRoutingKey (req_RoutingKey q)) as [canonical| | |] eqn:Hcan;
    [|by intros [= <- _]..].
  destruct (associationHasNetworkAppearanceConflict _ _ _); [by intros [= <- _]|].
  intros H. split; [done|]. intros Hs.
  assert (Hex : ∀ rc e, w_entries w !! rc = Some e →
    registerExisting c cb frc rd index q rc e w = (r, w') →
    match w_entries w !! rr_RoutingContext r with
    | Some e => entry_asKey e ∉ f_ASPIdentifierConflicts frc | None => True end).
  { intros rc e He Hr. eapply registerExisting_success in Hr as [-> ?]; [|done..]. by rewrite He. }
  destruct (RoutingContextRequested q).
  - unfold registerRequested in H.
    destruct (w_entries w !! RequestedRoutingContext q) as [e|] eqn:He;
      [|by injection H as <- _].
    destruct (negb _); [by injection H as <- _|]. by apply (Hex _ e He).
  - unfold registerUnrequested in H. pose proof (findRoutingKeyEntry_spec (w_entries w) canonical) as Hfind.
    destruct (findRoutingKeyEntry _ _) as [[[rc e]|] overlap];
      [destruct Hfind as [He _]; by apply (Hex rc e He)|].
    destruct overlap; [by injection H as <- _|].
    eapply registerNew_success in H as ->; done.
Qed.

(** The same of every request of a call, for the entries it started from. *)
Definition unforced (frc : forced) (es : gmap Z routingKeyEntry) (index : nat)
    (r : RoutingKeyRegistrationResult) : Prop :=
  (is_registered (rr_Status r) = true → index ∉ f_trafficModeConflicts frc) ∧
  (rr_Status r = RegistrationSuccessfullyRegistered →
   match es !! rr_RoutingContext r with
   | Some e => entry_asKey e ∉ f_ASPIdentifierConflicts frc
   | None => True
   end).

Lemma unforced_shrink frc es es' index r :
  grows c es es' → unforced frc es' index r → unforced frc es index r.
Proof.
  intros [Hold _] [H1 H2]. split; [done|]. intros Hs. specialize (H2 Hs).
  destruct (es !! rr_RoutingContext r) as [e|] eqn:He; [|done].
  destruct (Hold _ _ He) as (e' & He' & [_ _ _ Hkey _] & _). rewrite He' in H2. congruence.
Qed.

Lemma registerLoop_unforced cb frc rds index requests w results w' :
  work_ok cfg c w → Forall wf_request requests → Forall (fresh_in (w_replays w)) requests →
  NoDup (LocalRoutingKeyIdentifier <$> requests) →
  registerLoop cfg c cb frc rds index requests w = (results, w') →
  ∀ i r, results !! i = Some r → unforced frc (w_entries w) (index + i) r.
Proof.
  revert index w results. induction requests as [|q requests IH];
    intros index w results Hok Hwf Hfr Hnd; cbn [registerLoop].
  { intros [= <- <-] i r. done. }
  apply Forall_cons in Hwf as [Hq Hwf]. apply Forall_cons in Hfr as [Hfq Hfr].
  rewrite fmap_cons in Hnd. apply NoDup_cons in Hnd as [Hnin Hnd].
  pose proof (registerOne_decided cfg c cb frc (rds index) index q w Hok Hq) as (Hok1 & Hg1 & _).
  assert (Hq' : wf_request (snapshotRoutingKeyRegistrationRequest q)) by by apply snapshot_wf.
  pose proof (decideRegistration_decided cfg c cb frc (rds index) index _ w Hok Hq')
    as (_ & _ & Hrep & _).
  unfold registerOne in *. destruct (decideRegistration _ _ _ _ _ _ _ _) as [r0 w0] eqn:Hdec.
  apply decide_success in Hdec; [|done..].
  cbn [fst snd] in *. destruct (registerLoop _ _ _ _ _ _ _ _) as [results' w2] eqn:Hloop.
  intros [= <- <-] [|i] r; cbn [lookup list_lookup].
  - intros [= <-]. by rewrite Nat.add_0_r.
  - intros Hi. eapply unforced_shrink; [exact Hg1|].
    replace (index + S i)%nat with (S index + i)%nat by lia.
    eapply IH; [exact Hok1|done| |done|exact Hloop|done]. cbn. rewrite Hrep.
    apply Forall_forall. intros q' Hin. rewrite Forall_forall in Hfr.
    assert (replays_wf (w_replays w)) by by destruct Hok as [_ [? _] _ _].
    apply fresh_store; [done|by apply Hfr|]. cbn. intros Heq. apply Hnin.
    rewrite Heq. by apply list_elem_of_fmap_2.
Qed.
End rounds.

(** The loop of [register] while nothing else changes the registry: round [k]
    asks the callbacks [cbs k] and reads [rdss k]. *)
Fixpoint register_alone (cfg : RoutingKeyManagementConfig) (c : association)
    (cbs : nat → callbacks) (rdss : nat → nat → reads) (view : commitView)
    (requests : list RoutingKeyRegistrationRequest) (R : routingKeyRegistry)
    (fuel k : nat) (d : registrationDecisions) (frc : forced) : option commitOutcome :=
  match fuel with
  | O => None
  | S fuel =>
      let attempt := attemptRegistration cfg c (cbs k) frc d (rdss k) requests R in
      match commitRegistration c false frc requests view attempt R with
      | CommitRetry frc =>
          register_alone cfg c cbs rdss view requests R fuel (S k)
            (w_decisions (at_work attempt)) frc
      | outcome => Some outcome
      end
  end.

Lemma size_list_to_set_le `{Countable A} (l : list A) :
  (size (list_to_set l : gset A) ≤ length l)%nat.
Proof.
  induction l as [|x l IH]; cbn; [by rewrite size_empty|].
  rewrite size_union_alt, size_singleton.
  assert (size ((list_to_set l : gset A) ∖ {[x]}) ≤ size (list_to_set l : gset A))%nat; [|lia].
  apply subseteq_size. set_solver.
Qed.

Section termination.
Context (cfg : RoutingKeyManagementConfig) (c : association) (view : commitView)
  (requests : list RoutingKeyRegistrationRequest) (R : routingKeyRegistry).

Definition entry_keys (es : gmap Z routingKeyEntry) : gset ASKey :=
  list_to_set (entry_asKey <$> (map_to_list es).*2).

Lemma elem_of_entry_keys es key :
  key ∈ entry_keys es ↔ ∃ rc e, es !! rc = Some e ∧ entry_asKey e = key.
Proof.
  unfold entry_keys. rewrite elem_of_list_to_set, list_elem_of_fmap. split.
  - intros (e & -> & Hin). apply list_elem_of_fmap in Hin as ([rc e'] & -> & Hin).
    apply elem_of_map_to_list in Hin. eauto.
  - intros (rc & e & He & <-). exists e. split; [done|]. apply list_elem_of_fmap.
    exists (rc, e). split; [done|]. by apply elem_of_map_to_list.
Qed.

Lemma size_entry_keys es : (size (entry_keys es) ≤ size es)%nat.
Proof.
  unfold entry_keys. etrans; [apply size_list_to_set_le|]. by rewrite !length_fmap, length_map_to_list.
Qed.

(** Conflicts concern Application Servers of the registry. *)
Definition conflicts_known : Prop := ∀ servers key identifier,
  v_servers view = Some servers → av_identifierConflict servers key identifier = true →
  key ∈ entry_keys (entries R).

(** An identifier conflict that a commit finds is a new one. *)
Lemma identifier_conflict_new w frc results key :
  entries_ok cfg (w_entries w) (w_dynamic w) → entries_ok cfg (entries R) (dynamic R) →
  conflicts_known → grows c (entries R) (w_entries w) →
  (∀ i r, results !! i = Some r → unforced frc (entries R) i r) →
  key ∈ registrationASPIdentifierConflictsLocked view c (entries R) (w_entries w) results →
  key ∈ entry_keys (entries R) ∧ key ∉ f_ASPIdentifierConflicts frc.
Proof.
  intros Hok HR Hknown [Hold _] Hun. unfold registrationASPIdentifierConflictsLocked.
  destruct (v_servers view) as [servers|] eqn:Hs; [|set_solver].
  destruct (v_identifier view) as [identifier|]; [|set_solver].
  intros Hin. apply list_elem_of_omap in Hin as (r & Hr & Hconf).
  destruct (negb (rr_Status r =? _)) eqn:Hst; [done|]. apply negb_false_iff, Z.eqb_eq in Hst.
  match type of Hconf with (if ?b then _ else _) = _ => destruct b; [done|] end.
  destruct (w_entries w !! rr_RoutingContext r) as [e|] eqn:He; [|done]. cbn in Hconf.
  destruct (av_identifierConflict _ _ _) eqn:Hc; [|done]. injection Hconf as <-.
  specialize (Hknown _ _ _ Hs Hc). split; [done|].
  apply elem_of_entry_keys in Hknown as (rc & e0 & He0 & Hkey).
  assert (rc = rr_RoutingContext r) as ->.
  { destruct (eso_entry _ _ _ HR _ _ He0) as [<- _ _ _].
    destruct (eso_entry _ _ _ Hok _ _ He) as [<- _ _ _].
    unfold entry_asKey in Hkey. by injection Hkey. }
  apply list_elem_of_lookup in Hr as [i Hi]. destruct (Hun i r Hi) as [_ Hf].
  specialize (Hf Hst). rewrite He0 in Hf. by rewrite <-Hkey.
Qed.

Lemma trafficModeStep_conflicts locked ces es acc item :
  let acc' := trafficModeStep view locked ces es acc item in
  acc'.2 = acc.2 ∨ (acc'.2 = acc.2 ++ [item.1] ∧ is_registered (rr_Status item.2.2) = true).
Proof.
  destruct acc as [modes conflicts], item as [i [q r]]. unfold trafficModeStep. cbn [fst snd].
  destruct (negb (is_registered (rr_Status r))) eqn:Hr; [by left|]. apply negb_false_iff in Hr.
  destruct (es !! _); [|by left]. destruct (_ && _); [by right|].
  destruct (requestedMode q); [|by left].
  match goal with |- context [if ?b then _ else _] => destruct b end; [by right|by left].
Qed.

(** So is a traffic mode conflict. *)
Lemma traffic_conflict_new locked ces es frc results i :
  (∀ i r, results !! i = Some r → unforced frc (entries R) i r) →
  i ∈ registrationTrafficModeConflictsLocked view locked requests ces es results →
  (i < length requests)%nat ∧ i ∉ f_trafficModeConflicts frc.
Proof.
  intros Hun. unfold registrationTrafficModeConflictsLocked.
  assert (Hgen : ∀ items acc,
    (∀ i q r, (i, (q, r)) ∈ items → requests !! i = Some q ∧ results !! i = Some r) →
    (∀ i, i ∈ acc.2 → (i < length requests)%nat ∧ i ∉ f_trafficModeConflicts frc) →
    ∀ i, i ∈ (foldl (trafficModeStep view locked ces es) acc items).2 →
      (i < length requests)%nat ∧ i ∉ f_trafficModeConflicts frc).
  { induction items as [|[j [q r]] items IH]; intros acc Hit Hacc; [done|]. cbn [foldl].
    apply IH; [set_solver|].
    destruct (trafficModeStep_conflicts locked ces es acc (j, (q, r))) as [->|[-> Hr]]; [done|].
    intros k [Hk|Hk]%elem_of_app; [by apply Hacc|]. cbn in Hk, Hr.
    apply list_elem_of_singleton in Hk as ->.
    destruct (Hit j q r) as [Hq Hres]; [set_solver|]. split; [by eapply lookup_lt_Some|].
    by apply (Hun j r). }
  apply Hgen; [|cbn; set_solver]. intros j q r Hin.
  apply list_elem_of_lookup in Hin as [k Hk]. apply lookup_zip_Some in Hk as [Hj Hk].
  apply lookup_zip_Some in Hk as [Hq Hr].
  apply lookup_seq in Hj as [-> _]. by rewrite Nat.add_0_l.
Qed.
(** A round ends the call or adds a conflict to those it works around. *)
Definition fuel_left (frc : forced) : nat :=
  (length requests - size (f_trafficModeConflicts frc)) +
  (size (entry_keys (entries R)) - size (f_ASPIdentifierConflicts frc)).

Definition forced_ok (frc : forced) : Prop :=
  f_trafficModeConflicts frc ⊆ set_seq 0 (length requests) ∧
  f_ASPIdentifierConflicts frc ⊆ entry_keys (entries R).

Lemma grown_set `{Countable A} (l : list A) (X Y : gset A) :
  l ≠ [] → (∀ x, x ∈ l → x ∈ Y ∧ x ∉ X) → X ⊆ Y →
  list_to_set l ∪ X ⊆ Y ∧ (size Y - size (list_to_set l ∪ X) < size Y - size X)%nat.
Proof.
  intros Hl Hnew Hsub.
  assert (Hsub' : list_to_set l ∪ X ⊆ Y).
  { intros x. rewrite elem_of_union, elem_of_list_to_set. intros [Hx|Hx]; [by apply Hnew|auto]. }
  split; [done|]. destruct l as [|x l]; [done|]. destruct (Hnew x) as [_ Hx]; [set_solver|].
  assert (size X < size (list_to_set (x :: l) ∪ X))%nat.
  { apply subset_size. split; [set_solver|]. intros Hle. apply Hx, Hle. set_solver. }
  pose proof (subseteq_size _ _ Hsub'). lia.
Qed.

Lemma round_progress cb rds d frc :
  registry_ok cfg R → decisions_ok d → Forall wf_request requests →
  NoDup (LocalRoutingKeyIdentifier <$> requests) →
  Forall (fresh_in (default noReplays (replays R !! c))) requests → conflicts_known →
  forced_ok frc →
  let attempt := attemptRegistration cfg c cb frc d rds requests R in
  decisions_ok (w_decisions (at_work attempt)) ∧
  match commitRegistration c false frc requests view attempt R with
  | CommitEnded => False
  | CommitRetry frc' => forced_ok frc' ∧ (fuel_left frc' < fuel_left frc)%nat
  | CommitDone _ _ _ => True
  end.
Proof.
  intros HR Hd Hwf Hnd Hfr Hknown [Ht Ha]. cbn zeta. split; [by apply attempt_decisions|].
  unfold attemptRegistration, commitRegistration.
  destruct (registerLoop _ _ _ _ _ _ _ _) as [results w] eqn:Hloop. cbn [at_work at_results at_revision].
  assert (Hun : ∀ i r, results !! i = Some r → unforced frc (entries R) i r).
  { intros i r. eapply (registerLoop_unforced cfg c cb frc rds 0 requests (startWork c R d));
      [by apply startWork_ok|done..]. }
  apply atomic_register_spec in Hloop as ([He _ _ _] & Hg & _); [|done..].
  rewrite Z.eqb_refl. cbn [negb].
  destruct (len (registrationASPIdentifierConflictsLocked _ _ _ _ _) =? 0) eqn:Hi; cbn [negb].
  - destruct (len (registrationTrafficModeConflictsLocked _ _ _ _ _ _) =? 0) eqn:Hm; cbn [negb]; [done|].
    assert (Hne : ∀ {A} (l : list A), (len l =? 0) = false → l ≠ []) by (by intros A l H' ->).
    apply Hne in Hm.
    edestruct (grown_set _ (f_trafficModeConflicts frc) (set_seq 0 (length requests)) Hm)
      as [Hsub Hlt]; [|done|].
    { intros i Hin. apply (traffic_conflict_new _ _ _ frc) in Hin as [? ?]; [|done].
      split; [apply elem_of_set_seq; lia|done]. }
    rewrite size_set_seq in Hlt. unfold forced_ok, fuel_left. cbn. split; [done|]. lia.
  - assert (Hne : ∀ {A} (l : list A), (len l =? 0) = false → l ≠ []) by (by intros A l H' ->).
    apply Hne in Hi.
    edestruct (grown_set _ (f_ASPIdentifierConflicts frc) (entry_keys (entries R)) Hi)
      as [Hsub Hlt]; [|done|].
    { intros key Hin. eapply identifier_conflict_new; [done|by apply ro_entries|done..]. }
    unfold forced_ok, fuel_left. cbn. split; [done|]. lia.
Qed.

Lemma register_alone_done cbs rdss fuel k d frc :
  registry_ok cfg R → decisions_ok d → Forall wf_request requests →
  NoDup (LocalRoutingKeyIdentifier <$> requests) →
  Forall (fresh_in (default noReplays (replays R !! c))) requests → conflicts_known →
  forced_ok frc → (fuel_left frc < fuel)%nat →
  ∃ R' servers results,
    register_alone cfg c cbs rdss view requests R fuel k d frc = Some (CommitDone R' servers results).
Proof.
  intros HR Hd Hwf Hnd Hfr Hknown. revert k d frc Hd. induction fuel as [|fuel IH];
    intros k d frc Hd Hfrc Hfuel; [lia|]. cbn [register_alone].
  pose proof (round_progress (cbs k) (rdss k) d frc HR Hd Hwf Hnd Hfr Hknown Hfrc) as [Hd' Hround].
  destruct (commitRegistration _ _ _ _ _ _ _) as [|frc'|R' servers results]; [done| |eauto].
  destruct Hround as [Hfrc' Hlt]. apply IH; [done|done|lia].
Qed.
End termination.

(** ** Traffic *)

Lemma sort_by_single {A} (compare : A → A → Z) x : sort_by compare [x] = [x].
Proof. done. Qed.

(** At most one entry satisfies [f], so the sorted list of keys holds one. *)
Lemma matching_list (f : routingKeyEntry → bool) (es : gmap Z routingKeyEntry) :
  (∀ rc rc' e e', es !! rc = Some e → es !! rc' = Some e' → f e = true → f e' = true → rc = rc') →
  let ks := askey_order (entry_asKey <$> List.filter f (map_to_list es).*2) in
  len ks ≤ 1 ∧ ∀ rc e, es !! rc = Some e → f e = true → ks = [entry_asKey e].
Proof.
  intros Hone. cbn zeta.
  assert (Hl : ∀ l, (∀ rc e, (rc, e) ∈ l → es !! rc = Some e) → NoDup l.*1 →
    List.filter f l.*2 = [] ∨ ∃ rc e, (rc, e) ∈ l ∧ f e = true ∧ List.filter f l.*2 = [e]).
  { induction l as [|[rc e] l IH]; intros Hin Hnd; [by left|].
    rewrite fmap_cons in Hnd. apply NoDup_cons in Hnd as [Hrc Hnd]. cbn in Hrc.
    destruct IH as [IH|(rc' & e' & Hin' & Hf' & IH)]; [intros; apply Hin; set_solver|done| |].
    - cbn. destruct (f e) eqn:Hf; rewrite IH; [right; exists rc, e; set_solver|by left].
    - right. exists rc', e'. split_and!; [set_solver|done|]. cbn.
      destruct (f e) eqn:Hf; [|done]. exfalso. apply Hrc.
      rewrite (Hone rc rc' e e') by (done || (apply Hin; set_solver)).
      apply list_elem_of_fmap. by exists (rc', e'). }
  assert (Hall : ∀ rc e, es !! rc = Some e → f e = true →
    e ∈ List.filter f (map_to_list es).*2).
  { intros rc e He Hf. apply list_elem_of_In, List.filter_In. split; [|done].
    apply list_elem_of_In, list_elem_of_fmap. exists (rc, e). split; [done|].
    by apply elem_of_map_to_list. }
  destruct (Hl (map_to_list es)) as [Hnil|(rc & e & Hin & Hf & Hsingle)].
  - intros rc e. by rewrite elem_of_map_to_list.
  - apply NoDup_fst_map_to_list.
  - rewrite Hnil in *. split; [unfold len; cbn; lia|]. intros rc e He Hf. specialize (Hall rc e He Hf). set_solver.
  - rewrite Hsingle in *. split; [unfold len; cbn; lia|]. intros rc' e' He' Hf'.
    specialize (Hall rc' e' He' Hf'). apply list_elem_of_singleton in Hall as ->. done.
Qed.

(** ** Properties *)

(** C5: Calls of [register] and [deregister] that overlap in time, each working
    on a copy of the registry, take effect one at a time: every step of any
    interleaving is one operation of the atomic registry, applied to the
    present registry; only an Association that has not ended changes it; and a
    call that finishes finishes with the results of its operation. *)
Theorem calls_take_effect_atomically cfg w e w' :
  wf_config cfg → reachable cfg w → event_ok e → rkm_step e w = Some w' →
  ∃ op, atomic (snapshotRoutingKeyManagementConfig cfg) (w_registry w) op (w_registry w') ∧
    (∀ c, serves op = Some c → c ∉ w_ended w) ∧
    (∀ id, answers (w_calls w !! id) (w_calls w' !! id) op).
Proof.
  intros Hwf (n & Hn & Hw)%reachable_world He Hs; [|done].
  destruct (rkm_step_simulates (snapshotRoutingKeyManagementConfig cfg) n w e w')
    as (op & Hat & Hserve & Hans & _); eauto.
Qed.

(** C9: In every registry that any interleaving of calls leads to, each Routing
    Context names the entry it is stored under and is not zero, no traffic is
    described by the Routing Keys of two entries, and the dynamic entries are
    counted and bounded by the configured maximum. *)
Theorem routing_keys_stay_disjoint cfg w :
  wf_config cfg → reachable cfg w →
  let es := entries (w_registry w) in
  (∀ rc e, es !! rc = Some e → e_routingContext e = rc ∧ rc ≠ 0) ∧
  (∀ rc rc' e e' na opc dpc si, es !! rc = Some e → es !! rc' = Some e' →
     is_u32 na → 0 < si < 2 ^ 8 →
     matchesTraffic (e_canonical e) na true opc dpc si = true →
     matchesTraffic (e_canonical e') na true opc dpc si = true → rc = rc') ∧
  dynamic (w_registry w) = Z.of_nat (size (unprovisioned es)) ∧
  dynamic (w_registry w) ≤ maxDynamicRoutingKeys cfg.
Proof.
  intros Hwf Hw. apply reachable_registry in Hw as [_ [He Hd Hc Hb _] _ _]; [|done].
  cbn zeta. split_and!; [|..|done|done].
  - intros rc e Hrc. by destruct (He _ _ Hrc).
  - intros rc rc' e e' na opc dpc si Hrc Hrc' Hna Hsi Hm Hm'.
    destruct (decide (rc = rc')) as [|Hne]; [done|]. exfalso.
    destruct (He _ _ Hrc) as [_ _ _ Hk]. destruct (He _ _ Hrc') as [_ _ _ Hk'].
    pose proof (Hd _ _ _ _ Hrc Hrc' Hne). pose proof (common_traffic_overlaps _ _ na opc dpc si Hk Hk').
    intuition congruence.
Qed.

(** Traffic of a given Network Appearance has at most one Application
    Server by Routing Key, and it has one when some entry's Routing Key
    describes the traffic. *)
Theorem traffic_has_one_routing_key cfg w na opc dpc si ks :
  wf_config cfg → reachable cfg w → is_u32 na → 0 < si < 2 ^ 8 →
  matchingASKeys (w_registry w) na true opc dpc si = Some ks →
  len ks ≤ 1 ∧
  ∀ rc e, entries (w_registry w) !! rc = Some e →
    matchesTraffic (e_canonical e) na true opc dpc si = true → ks = [entry_asKey e].
Proof.
  intros Hwf Hw Hna Hsi. unfold matchingASKeys. case_bool_decide; [done|]. intros [= <-].
  apply reachable_registry in Hw as [_ [He Hd _ _ _] _ _]; [|done].
  set (R := w_registry w) in *.
  set (f := λ e, matchesTraffic (e_canonical e) na true opc dpc si).
  assert (Hone : ∀ rc rc' e e', entries R !! rc = Some e → entries R !! rc' = Some e' →
    f e = true → f e' = true → rc = rc').
  { intros rc rc' e e' Hrc Hrc' Hm Hm'. destruct (decide (rc = rc')) as [|Hne]; [done|]. exfalso.
    destruct (He _ _ Hrc) as [_ _ _ Hk]. destruct (He _ _ Hrc') as [_ _ _ Hk'].
    pose proof (Hd _ _ _ _ Hrc Hrc' Hne). pose proof (common_traffic_overlaps _ _ na opc dpc si Hk Hk').
    intuition congruence. }
  apply (matching_list f (entries R) Hone).
Qed.

(** What a call is told is true when it is told: a registration that
    finishes answers every request, in order, with its identifier, and answers
    it with success exactly for an entry that the Association is a member of
    and that has the requested selectors; a deregistration that reports success
    leaves the Association no member. *)
Theorem answers_mean_membership cfg w e w' id :
  wf_config cfg → reachable cfg w → event_ok e → rkm_step e w = Some w' →
  (∀ c requests d frc attempt results,
     w_calls w !! id = Some (Registering c requests d frc attempt) →
     w_calls w' !! id = Some (Registered results) →
     Forall2 (result_ok (entries (w_registry w')) c) requests results) ∧
  (∀ c rcs d attempt results,
     w_calls w !! id = Some (Deregistering c rcs d attempt) →
     w_calls w' !! id = Some (Deregistered results) →
     Forall2 (dereg_result_ok (entries (w_registry w')) c) rcs results).
Proof.
  intros Hwf (n & Hn & Hw)%reachable_world He Hs; [|done].
  destruct (rkm_step_simulates (snapshotRoutingKeyManagementConfig cfg) n w e w')
    as (op & Hat & _ & Hans & _); [done..|].
  specialize (Hans id). assert (HR := wo_registry _ _ _ Hw). split.
  - intros c requests d frc attempt results Hid Hid'. rewrite Hid, Hid' in Hans.
    destruct Hans as [|(c' & q' & d' & frc' & att' & [= <- <- <- <- <-] & ->)]; [done|].
    inversion Hat as [? ? ? ? ? ? ? ? ? w1 Hd Hq Hloop| | | | |]; subst.
    by apply atomic_register_spec in Hloop as (_ & _ & ?).
  - intros c rcs d attempt results Hid Hid'. rewrite Hid, Hid' in Hans.
    destruct Hans as [|(c' & q' & d' & att' & [= <- <- <- <-] & ->)]; [done|].
    inversion Hat as [|? ? ? ? ? ? ? w1 Hloop| | | |]; subst.
    by apply atomic_deregister_spec in Hloop as (_ & _ & ?).
Qed.

(** C36: Once the registry has forgotten an Association, it is a member of no
    entry in any later state, whatever calls of its own were under way. *)
Theorem forgotten_association_stays_out cfg w c rc :
  wf_config cfg → reachable cfg w → c ∈ w_forgotten w →
  ¬ is_member (entries (w_registry w)) c rc.
Proof. intros Hwf (n & _ & [])%reachable_world Hc; eauto. Qed.

(** A registration that is sent again, before its answer is written and
    whatever other Associations did in between, is answered as before; the
    entries stay as they are and no callback is asked. *)
Theorem retransmission_is_answered_again cfg R c requests results R1 R2 cb frc rds d results' w :
  registry_ok cfg R → NoDup (LocalRoutingKeyIdentifier <$> requests) →
  Forall (λ q, ∃ ck, canonicalizeRoutingKey (req_RoutingKey q) = Ok ck) requests →
  atomic cfg R (OpRegister c requests results) R1 → others cfg c R1 R2 →
  registerLoop cfg c cb frc rds 0 requests (startWork c R2 d) = (results', w) →
  results' = results ∧ w_entries w = entries R2 ∧ w_decisions w = d.
Proof.
  intros HR Hnd Hcan Hat Hoth Hloop. apply others_replays in Hoth.
  inversion Hat as [? ? cb0 frc0 rds0 ? d0 view ? w0 Hd Hq Hloop0| | | | |]; subst.
  destruct (atomic_register_spec _ _ _ _ _ _ _ _ _ _ HR Hd Hq Hloop0) as (_ & _ & Hres).
  apply Forall2_length in Hres as Hlen.
  assert (Hids : NoDup (identifiers (zip requests results))) by by rewrite identifiers_zip.
  assert (Hk : keeps (zip requests results) (w_replays w0)).
  { apply (registerLoop_keeps cfg c cb0 frc0 rds0 0 requests (startWork c R d0) [] results w0);
      [by apply startWork_ok|done| |done|done].
    split; [by destruct (default_replays_ok cfg R c HR)|]. intros q r Hin. by apply not_elem_of_nil in Hin. }
  cbn in Hoth. rewrite lookup_insert_eq in Hoth.
  eapply registerLoop_replayed in Hloop; [exact Hloop| |exact Hids|done|done|done].
  cbn. by rewrite Hoth.
Qed.

(** C37: A call of [register] that nothing disturbs ends, when its
    Local-RK-Identifiers differ from each other and none has an answer on record,
    and when the conflicts of ASP Identifiers that commits find concern Application
    Servers of the registry: after at most one round per request and per entry its
    copy is installed, whatever the callbacks answer. [replayed_conflict_never_ends]
    shows a call that the conditions leave out. *)
Theorem undisturbed_registration_ends cfg c view requests R cbs rdss :
  registry_ok cfg R → Forall wf_request requests →
  NoDup (LocalRoutingKeyIdentifier <$> requests) →
  Forall (fresh_in (default noReplays (replays R !! c))) requests →
  conflicts_known view R →
  ∃ R' servers results,
    register_alone cfg c cbs rdss view requests R (length requests + size (entries R) + 1) 0
      noDecisions noForced = Some (CommitDone R' servers results).
Proof.
  intros HR Hwf Hnd Hfr Hknown. apply register_alone_done; [done| |done..| |].
  - intros i status. cbn. by rewrite lookup_empty.
  - split; cbn; set_solver.
  - unfold fuel_left. cbn. pose proof (size_entry_keys (entries R)). rewrite !size_empty. lia.
Qed.

(** C39: A registration that is sent again never ends while the Application
    Server of its kept answer runs in another traffic mode: each commit finds
    the conflict, and each new round takes the kept answer before it looks at
    the conflicts found. *)
Theorem replayed_conflict_never_ends cfg c cbs rdss view R q r e s servers fuel k d frc :
  replayed (snapshotRoutingKeyRegistrationRequest q) (default noReplays (replays R !! c)) = Some r →
  is_registered (rr_Status r) = true → entries R !! rr_RoutingContext r = Some e →
  rk_TrafficModeSet (req_RoutingKey q) = true →
  v_servers view = Some servers → av_closed servers = false →
  av_as servers !! entry_asKey e = Some s →
  trafficMode s ≠ 0 → trafficMode s ≠ rk_TrafficMode (req_RoutingKey q) →
  register_alone cfg c cbs rdss view [q] R fuel k d frc = None.
Proof.
  intros Hrep Hreg He Hset Hserv Hopen Has H0 Hmode. revert k d frc.
  induction fuel as [|fuel IH]; intros k d frc; [done|]. cbn [register_alone].
  set (attempt := attemptRegistration _ _ _ _ _ _ _ _).
  assert (at_revision attempt = revision R ∧ at_results attempt = [r] ∧
          w_entries (at_work attempt) = entries R) as (Hrev & Hres & Hent).
  { unfold attempt, attemptRegistration. cbn [registerLoop]. unfold registerOne, decideRegistration.
    cbn [startWork w_replays]. by rewrite Hrep. }
  unfold commitRegistration. rewrite Hrev, Hres, Hent, Z.eqb_refl. cbn [negb].
  destruct (negb (len (registrationASPIdentifierConflictsLocked _ _ _ _ _) =? 0)); [apply IH|].
  assert (registrationTrafficModeConflictsLocked view
    (lockRegistrationApplicationServersLocked (v_servers view) (entries R) [r]) [q] (entries R)
    (entries R) [r] = [0%nat]) as ->; [|apply IH].
  assert (Hlock : lockRegistrationApplicationServersLocked (v_servers view) (entries R) [r]
                    !! entry_asKey e = Some s).
  { unfold lockRegistrationApplicationServersLocked, registeredEntries. rewrite Hserv, Hopen.
    cbn [omap list_omap]. rewrite Hreg, He. apply map_lookup_filter_Some. split; [done|].
    cbn. set_solver. }
  unfold registrationTrafficModeConflictsLocked. cbn [length seq zip zip_with foldl].
  unfold trafficModeStep. rewrite Hreg, He, Hlock. cbn [negb].
  unfold requestedMode. rewrite Hset.
  destruct (_ && requiresSeveralActive _ _); [done|].
  rewrite (proj2 (Z.eqb_neq _ _) H0), (proj2 (Z.eqb_neq _ _) Hmode). done.
Qed.

(** ** Witnesses

    One provisioned Routing Key under Routing Context 10; Association 1
    registers it, and a key of its own, for which the registry allocates
    Routing Context 1. *)
Module Concrete.
Definition cfg : RoutingKeyManagementConfig :=
  mkRkmConfig true false false [mkProvisioned 10 RoutingKeyTheory.Concrete.selector] true 8 true.
Definition peer : RoutingKeyPeer := mkPeer 0 0 false None.
Definition loadshared : RoutingKey :=
  mkRK 7 true TrafficModeLoadshare true
    [mkRKGroup 5 [5; 3] [mkRange 0x2000 0; mkRange 0x1010 8]].
Definition own_key : RoutingKey := mkRK 7 true 0 false [mkRKGroup 6 [] []].
Definition q1 : RoutingKeyRegistrationRequest := mkRequest peer 1 0 false false loadshared false.
Definition q2 : RoutingKeyRegistrationRequest := mkRequest peer 2 0 false false own_key false.
Definition cb : callbacks := mkCallbacks (λ _ _, 0) (λ _ _ _, (0, true)) (λ _ _, true).
Definition rds : nat → reads :=
  λ _, mkReads [] [] (λ _, false) (λ _, None) (λ _, false) peer.
Definition view : commitView := mkCommitView None None noTrafficModePolicy.

Definition unset : routingKeyRegistry := mkRegistry 0 None ∅ ∅ ∅ 0.
Definition R0 : routingKeyRegistry :=
  match newRoutingKeyRegistry (Some cfg) with Ok R => R | _ => unset end.

Lemma R0_eq : newRoutingKeyRegistry (Some cfg) = Ok R0.
Proof. vm_compute. reflexivity. Qed.

Lemma cfg_wf : wf_config cfg.
Proof. apply Forall_singleton, RoutingKeyTheory.Concrete.selector_wf. Qed.

Lemma own_key_wf : wf_key own_key.
Proof.
  split; [unfold is_u32; cbn; lia|]. intros g Hg. cbn in Hg.
  apply list_elem_of_singleton in Hg as ->. unfold wf_group; cbn.
  split_and!; [lia|set_solver|set_solver].
Qed.

Lemma loadshared_wf : wf_key loadshared.
Proof. destruct RoutingKeyTheory.Concrete.selector_wf as [H1 H2]. by split. Qed.

Lemma requests_wf : Forall wf_request [q1; q2].
Proof. apply Forall_cons; split; [apply loadshared_wf|apply Forall_singleton, own_key_wf]. Qed.

Definition run (es : list event) : world := default (initialWorld R0) (rkm_run es (initialWorld R0)).

Definition attempted : list event := [ECall 0 1 [q1; q2]; EAttempt 0 cb rds].
Definition committed : list event := attempted ++ [ECommit 0 view].
(** The Association ends between the attempt and the commit. *)
Definition overtaken : list event := attempted ++ [EEnd 1; EForget 1; ECommit 0 view].

Lemma reachable_run es :
  Forall event_ok es → len es < 2 ^ 64 - 1 →
  rkm_run es (initialWorld R0) = Some (run es) → reachable cfg (run es).
Proof. intros. exists R0, es. split_and!; [apply R0_eq|done..]. Qed.

Lemma events_ok : Forall event_ok attempted.
Proof. apply Forall_cons; split; [apply requests_wf|by apply Forall_singleton]. Qed.

Lemma reachable_attempted : reachable cfg (run attempted).
Proof.
  apply reachable_run; [apply events_ok|unfold len; cbn; lia|]. vm_compute. reflexivity.
Qed.

Lemma reachable_committed : reachable cfg (run committed).
Proof.
  apply reachable_run; [|unfold len; cbn; lia|vm_compute; reflexivity].
  apply Forall_app. split; [apply events_ok|by repeat (apply Forall_cons; split)].
Qed.

Lemma reachable_overtaken : reachable cfg (run overtaken).
Proof.
  apply reachable_run; [|unfold len; cbn; lia|vm_compute; reflexivity].
  apply Forall_app. split; [apply events_ok|by repeat (apply Forall_cons; split)].
Qed.

Lemma commit_step : rkm_step (ECommit 0 view) (run attempted) = Some (run committed).
Proof. vm_compute. reflexivity. Qed.

Lemma calls_take_effect_atomically_witness :
  ∃ op, atomic (snapshotRoutingKeyManagementConfig cfg) (w_registry (run attempted)) op
          (w_registry (run committed)) ∧
    (∀ c, serves op = Some c → c ∉ w_ended (run attempted)) ∧
    (∀ id, answers (w_calls (run attempted) !! id) (w_calls (run committed) !! id) op).
Proof.
  exact (calls_take_effect_atomically cfg (run attempted) (ECommit 0 view) (run committed)
           cfg_wf reachable_attempted I commit_step).
Defined.

Lemma routing_keys_stay_disjoint_witness :
  dynamic (w_registry (run committed)) ≤ maxDynamicRoutingKeys cfg.
Proof. apply (routing_keys_stay_disjoint cfg (run committed) cfg_wf reachable_committed). Defined.

Lemma matching_run :
  matchingASKeys (w_registry (run committed)) 7 true 0x10ff 5 3 = Some [mkASKey 7 true 10 true].
Proof. vm_compute. reflexivity. Qed.

Lemma sevens : is_u32 7 ∧ 0 < 3 < 2 ^ 8.
Proof. unfold is_u32. lia. Qed.

Lemma traffic_has_one_routing_key_witness : len [mkASKey 7 true 10 true] ≤ 1.
Proof.
  apply (traffic_has_one_routing_key cfg (run committed) 7 0x10ff 5 3 _ cfg_wf
           reachable_committed (proj1 sevens) (proj2 sevens) matching_run).
Defined.

Definition answered : list RoutingKeyRegistrationResult :=
  [registrationResult 1 0 10; registrationResult 2 0 1].
Definition final_call : callState := Registered answered.

Lemma call_before : ∃ d frc attempt,
  w_calls (run attempted) !! 0%nat = Some (Registering 1 [q1; q2] d frc (Some attempt)).
Proof. eexists _, _, _. vm_compute. reflexivity. Qed.

Lemma call_after : w_calls (run committed) !! 0%nat = Some (Registered answered).
Proof. vm_compute. reflexivity. Qed.

Lemma answers_mean_membership_witness :
  Forall2 (result_ok (entries (w_registry (run committed))) 1) [q1; q2] answered.
Proof.
  destruct call_before as (d & frc & attempt & Hcall).
  exact (proj1 (answers_mean_membership cfg (run attempted) (ECommit 0 view) (run committed) 0
           cfg_wf reachable_attempted I commit_step) 1%nat [q1; q2] d frc (Some attempt) answered
           Hcall call_after).
Defined.

Lemma gone : 1%nat ∈ w_forgotten (run overtaken).
Proof. vm_compute. reflexivity. Qed.

Lemma forgotten_association_stays_out_witness :
  ¬ is_member (entries (w_registry (run overtaken))) 1 10.
Proof.
  exact (forgotten_association_stays_out cfg (run overtaken) 1 10 cfg_wf reachable_overtaken gone).
Defined.

Definition cfg' : RoutingKeyManagementConfig := snapshotRoutingKeyManagementConfig cfg.
Definition R1 : routingKeyRegistry := w_registry (run committed).
Definition looped : list RoutingKeyRegistrationResult * work :=
  registerLoop cfg' 1 cb noForced rds 0 [q1; q2] (startWork 1 R0 noDecisions).
(** Nobody is asked the second time: this callback would refuse. *)
Definition deaf : callbacks := mkCallbacks (λ _ _, 5) (λ _ _ _, (0, true)) (λ _ _, false).
Definition again : list RoutingKeyRegistrationResult * work :=
  registerLoop cfg' 1 deaf noForced rds 0 [q1; q2] (startWork 1 R1 noDecisions).

Lemma R0_ok : registry_ok cfg' R0.
Proof. by destruct (newRoutingKeyRegistry_ok cfg R0 cfg_wf R0_eq). Qed.

Lemma identifiers_new : NoDup (LocalRoutingKeyIdentifier <$> [q1; q2]).
Proof. apply (bool_decide_unpack _). vm_compute. exact I. Qed.

Lemma requests_canonical :
  Forall (λ q, ∃ ck, canonicalizeRoutingKey (req_RoutingKey q) = Ok ck) [q1; q2].
Proof. repeat (apply Forall_cons; split); [eexists; vm_compute; reflexivity..|constructor]. Qed.

Lemma noDecisions_ok : decisions_ok noDecisions.
Proof. intros i status. cbn. by rewrite lookup_empty. Qed.

Lemma looped_eq : registerLoop cfg' 1 cb noForced rds 0 [q1; q2] (startWork 1 R0 noDecisions) =
  (answered, looped.2).
Proof. vm_compute. reflexivity. Qed.

Lemma R1_eq : R1 = installRegistration 1 looped.2 R0.
Proof. vm_compute. reflexivity. Qed.

Lemma registered_atomically : atomic cfg' R0 (OpRegister 1 [q1; q2] answered) R1.
Proof.
  rewrite R1_eq. apply (atomic_register cfg' R0 1 cb noForced rds [q1; q2] noDecisions view).
  - apply noDecisions_ok.
  - apply requests_wf.
  - apply looped_eq.
  - vm_compute. reflexivity.
  - vm_compute. reflexivity.
Qed.

Lemma again_eq : registerLoop cfg' 1 deaf noForced rds 0 [q1; q2] (startWork 1 R1 noDecisions) =
  (again.1, again.2).
Proof. vm_compute. reflexivity. Qed.

Lemma retransmission_is_answered_again_witness :
  again.1 = answered ∧ w_entries again.2 = entries R1 ∧ w_decisions again.2 = noDecisions.
Proof.
  exact (retransmission_is_answered_again cfg' R0 1 [q1; q2] answered R1 R1 deaf noForced rds
           noDecisions again.1 again.2 R0_ok identifiers_new requests_canonical
           registered_atomically (others_refl cfg' 1 R1) again_eq).
Defined.

Lemma all_fresh : Forall (fresh_in (default noReplays (replays R0 !! 1%nat))) [q1; q2].
Proof. repeat (apply Forall_cons; split); [vm_compute; reflexivity..|constructor]. Qed.

Lemma view_known : conflicts_known view R0.
Proof. intros servers key identifier. done. Qed.

Lemma undisturbed_registration_ends_witness : ∃ R' servers results,
  register_alone cfg' 1 (λ _, cb) (λ _, rds) view [q1; q2] R0
    (length [q1; q2] + size (entries R0) + 1) 0 noDecisions noForced =
  Some (CommitDone R' servers results).
Proof.
  exact (undisturbed_registration_ends cfg' 1 view [q1; q2] R0 (λ _, cb) (λ _, rds) R0_ok
           requests_wf identifiers_new all_fresh view_known).
Defined.

(** The Application Server of Routing Context 10 has come to run in Override. *)
Definition overriding : applicationServer :=
  setTrafficModeLocked TrafficModeOverride
    (newApplicationServer (mkASKey 7 true 10 true) (mkActivationPolicy 1 false) 16).
Definition servers : serversView :=
  mkServersView false {[ mkASKey 7 true 10 true := overriding ]} (λ _ _, false) (λ _, 1).
Definition conflicting : commitView := mkCommitView (Some servers) None noTrafficModePolicy.
Definition entry10 : routingKeyEntry :=
  mkEntry loadshared RoutingKeyTheory.Concrete.selector_canonical 10 true {[ 1%nat ]}.

Lemma kept_answer :
  replayed (snapshotRoutingKeyRegistrationRequest q1) (default noReplays (replays R1 !! 1%nat)) =
  Some (registrationResult 1 0 10).
Proof. vm_compute. reflexivity. Qed.

Lemma entry_at_10 : entries R1 !! 10 = Some entry10.
Proof. vm_compute. reflexivity. Qed.

Lemma server_at_10 : av_as servers !! entry_asKey entry10 = Some overriding.
Proof. vm_compute. reflexivity. Qed.

Lemma modes_differ : trafficMode overriding ≠ 0 ∧ trafficMode overriding ≠ rk_TrafficMode loadshared.
Proof. split; vm_compute; discriminate. Qed.

Lemma replayed_conflict_never_ends_witness :
  register_alone cfg' 1 (λ _, cb) (λ _, rds) conflicting [q1] R1 100 0 noDecisions noForced = None.
Proof.
  exact (replayed_conflict_never_ends cfg' 1 (λ _, cb) (λ _, rds) conflicting R1 q1
           (registrationResult 1 0 10) entry10 overriding servers 100 0 noDecisions noForced
           kept_answer eq_refl entry_at_10 eq_refl eq_refl eq_refl server_at_10
           (proj1 modes_differ) (proj2 modes_differ)).
Defined.
End Concrete.
