(* ===== verification/Tack.v ===== *)
(** * T(ack): the requests that await an acknowledgement (tack.go)

    An ASP Up, ASP Down, ASP Active or ASP Inactive request is kept until the
    peer has acknowledged it, piecewise when it names several Routing Contexts.
    The operations here are the ones that run under [tack.mu]; the writes that
    go with them, and the timer, are in Association.v.

    A [*pendingRequest] is a number, the objects are the map [requests] and
    never leave it, and [pending] is the set of those in the Go map of that
    name (its keys, the messages, are as fresh as the requests).  A nil
    [tack], which only tests have, is not modelled. *)

From coqutil Require Import Datatypes.RecordSettersUsingExistingGetters.
From S2P Require Import Prelude Params ParamsFacts ParamValues Inventory Header.
From S2P Require Import MsgAspsm MsgAsptm Message.
#[local] Open Scope Z_scope.

(** ** Errors (errors.go)

    The errors the ASP procedures return; [errDuplicateASPDownAck] is
    aspsm.go's.  [ErrWrite] stands for whatever error a write returned. *)

Inductive asp_error : Type :=
| UnexpectedMessageError (m : M3UA)
| InvalidSCTPStreamIDError (id : Z)
| InvalidVersionError (ver : Z) (raw : bytes)
| UnsupportedClassError (raw : bytes)
| UnsupportedMessageError (raw : bytes)
| ParameterFaultError (raw : bytes) (code : Z)
| RoutingContextError (code : Z) (contexts : list Z)
| ErrMissingRoutingContext
| ErrMissingStatus
| ErrManagementBlocking
| ErrInvalidParameterValue
| ErrInvalidASPIdentifier
| ErrUnsupportedTrafficMode
| ErrUnsupportedRole
| ErrUnsupportedIPSPExchangeModel
| ErrNoConfiguredAS
| ErrInvalidState
| ErrSCTPNotAlive
| ErrAssociationClosed
| ErrASPProcedureSuperseded
| ErrTAckExpired
| errDuplicateASPDownAck
| ErrFailedToWriteSignal
| ErrHeartbeatExpired
| ErrWrite
| ErrInvalidApplicationServerConfig.

Definition NewInvalidRoutingContextError (rcs : list Z) : asp_error :=
  RoutingContextError Params.ErrInvalidRoutingContext rcs.
Definition NewNoConfiguredASError (rcs : list Z) : asp_error :=
  RoutingContextError Params.ErrNoConfiguredAsForAsp rcs.

(** [p.RoutingContexts()]: nil for no parameter, another tag or a value that
    is not a whole number of words. *)
Definition RoutingContexts (p : option Param) : list Z :=
  match get_RoutingContexts p with Ok rcs => rcs | _ => [] end.

(** ** Kinds of request *)

Inductive requestKind : Set :=
| requestNone
| requestAspUp
| requestAspDown
| requestAspActive
| requestAspInactive.

#[export] Instance requestKind_eq_dec : EqDecision requestKind.
Proof. solve_decision. Defined.

Definition requestKindOf (m : M3UA) : requestKind :=
  match m with
  | Typed KAspUp _ => requestAspUp
  | Typed KAspDown _ => requestAspDown
  | Typed KAspActive _ => requestAspActive
  | Typed KAspInactive _ => requestAspInactive
  | _ => requestNone
  end.

Definition requestRoutingContext (m : M3UA) : option Param :=
  match m with
  | Typed KAspActive m => AspActive.RoutingContext m
  | Typed KAspInactive m => AspInactive.RoutingContext m
  | _ => None
  end.

Definition is_asptm (kind : requestKind) : bool :=
  bool_decide (kind = requestAspActive) || bool_decide (kind = requestAspInactive).
Definition is_aspsm (kind : requestKind) : bool :=
  bool_decide (kind = requestAspUp) || bool_decide (kind = requestAspDown).

(** ** Data *)

(** [routingContexts] is [None] for nil; [remaining] is empty for nil;
    [stopped] says that [stop] is closed, [result] is what [finish] sent, and
    [attempt] is the counter of the goroutine [runTAck] of the request. *)
Record pendingRequest : Type := mkRequest {
  r_msg : M3UA;
  r_kind : requestKind;
  r_routingContexts : option (gset Z);
  r_remaining : gset Z;
  r_routingContextOmitted : bool;
  r_stopped : bool;
  r_result : option (option asp_error);
  r_attempt : Z;
}.

Record acknowledgedASPTMScope : Type := mkScope {
  sc_routingContextOmitted : bool;
  sc_routingContexts : gset Z;
}.

(** The fields of [tackRetransmitter]; [acknowledgedASPTM] has the two kinds
    [recordASPTMAcknowledgementLocked] stores. *)
Record tackRetransmitter : Type := mkTack {
  requests : gmap Z pendingRequest;
  pending : gset Z;
  nextRequest : Z;
  acknowledgedActive : option acknowledgedASPTMScope;
  acknowledgedInactive : option acknowledgedASPTMScope;
  aspUpAcknowledged : bool;
  aspDownAcksOutstanding : Z;
  awaitingAspUp : bool;
  peerDownSuperseded : bool;
  peerDownHandling : bool;
}.

Definition newTAckRetransmitter : tackRetransmitter :=
  mkTack ∅ ∅ 0 None None false 0 false false false.

(** ** Requests *)

(** [finish] settles a request once; [stopRetries] alone leaves its waiter. *)
Definition stopRetries (r : pendingRequest) : pendingRequest := r <| r_stopped := true |>.

Definition finish (err : option asp_error) (r : pendingRequest) : pendingRequest :=
  match r_result r with
  | Some _ => r
  | None => (stopRetries r) <| r_result := Some err |>
  end.

Definition update_request (id : Z) (f : pendingRequest → pendingRequest) (t : tackRetransmitter)
    : tackRetransmitter :=
  t <| requests := alter f id (requests t) |>.

(** [delete(c.tack.pending, message)]. *)
Definition drop_request (id : Z) (t : tackRetransmitter) : tackRetransmitter :=
  t <| pending := pending t ∖ {[id]} |>.

Definition cancel : pendingRequest → pendingRequest := finish (Some ErrAssociationClosed).
Definition acknowledge : pendingRequest → pendingRequest := finish None.

(** The pending requests a loop over the Go map meets, in one order. *)
Definition pendingRequestEntries (t : tackRetransmitter) : list (Z * pendingRequest) :=
  omap (λ id, r ← requests t !! id; Some (id, r)) (elements (pending t)).

Definition pendingRequestEntriesLocked (kind : requestKind) (t : tackRetransmitter)
    : list (Z * pendingRequest) :=
  List.filter (λ e, bool_decide (r_kind e.2 = kind)) (pendingRequestEntries t).

Definition pendingRequestsLocked (kind : requestKind) (t : tackRetransmitter)
    : list pendingRequest := (pendingRequestEntriesLocked kind t).*2.

(** Settling and dropping some of the pending requests. *)
Definition settle (f : pendingRequest → pendingRequest) (ids : list Z) (t : tackRetransmitter)
    : tackRetransmitter :=
  foldl (λ t id, drop_request id (update_request id f t)) t ids.

Definition ids_where (keep : pendingRequest → bool) (t : tackRetransmitter) : list Z :=
  (List.filter (λ e, keep e.2) (pendingRequestEntries t)).*1.

Definition cancelAllTAckLocked (t : tackRetransmitter) : tackRetransmitter :=
  settle cancel (ids_where (λ _, true) t) t.

(** ** Starting a request *)

Definition cloneTAckMessage (m : M3UA) : result msg_error M3UA :=
  '(_, raw) ← MarshalBinary m; Parse raw.

(** The object, before [startTAck] registers it. *)
Definition newPendingRequest (servers : list ASConfig) (retryMessage : M3UA) (ackFor : requestKind)
    : pendingRequest :=
  let own := requestRoutingContext retryMessage in
  let omitted := bool_decide (own = None) && is_asptm ackFor in
  let routingContext := if omitted then asConfigRoutingContextParam servers else own in
  let named : option (gset Z) :=
    match routingContext with
    | None => None
    | Some p => Some (list_to_set (RoutingContexts (Some p)))
    end in
  mkRequest retryMessage ackFor named (default ∅ named) omitted false None 0.

(** An object that is not registered keeps its number and its result. *)
Definition put_request (r : pendingRequest) (t : tackRetransmitter) : Z * tackRetransmitter :=
  (nextRequest t, t <| requests ::= insert (nextRequest t) r |> <| nextRequest ::= Z.succ |>).

Definition startTAck (servers : list ASConfig) (terminating : bool) (msg : M3UA)
    (ackFor : requestKind) (t : tackRetransmitter) : Z * tackRetransmitter :=
  match cloneTAckMessage msg with
  | Ok retryMessage =>
      let req := newPendingRequest servers retryMessage ackFor in
      let terminationBoundary := terminating &&
        (bool_decide (ackFor = requestAspInactive) || bool_decide (ackFor = requestAspDown)) in
      let t := if terminationBoundary then cancelAllTAckLocked t else t in
      if peerDownHandling t && negb (bool_decide (ackFor = requestAspDown)) ||
         peerDownSuperseded t && is_asptm ackFor
      then put_request (finish (Some ErrASPProcedureSuperseded) req) t
      else
        let t := if bool_decide (ackFor = requestAspUp)
                 then t <| aspUpAcknowledged := false |> <| peerDownSuperseded := false |>
                 else t in
        let t := if is_aspsm ackFor
                 then settle cancel (ids_where (λ r, bool_decide (r_kind r = ackFor)) t) t
                 else t in
        let '(id, t) := put_request req t in
        (id, t <| pending ::= union {[id]} |>)
  | _ => put_request (finish (Some ErrWrite) (mkRequest msg ackFor None ∅ false false None 0)) t
  end.

(** ** Acknowledgements *)

(** The condition under which an Ack without a Routing Context, or naming
    [rtCtx], answers a request. *)
Definition unscoped (r : pendingRequest) : bool :=
  r_routingContextOmitted r || bool_decide (r_routingContexts r = None).

Definition names (r : pendingRequest) (rtCtx : Z) : bool :=
  match r_routingContexts r with None => true | Some rcs => bool_decide (rtCtx ∈ rcs) end.

Definition validateTAckRoutingContexts (kind : requestKind) (acknowledged : option Param)
    (t : tackRetransmitter) : option asp_error :=
  let requests := pendingRequestsLocked kind t in
  if len requests =? 0 then None
  else
    match acknowledged with
    | None => if existsb unscoped requests then None else Some ErrMissingRoutingContext
    | Some _ =>
        let offending :=
          List.filter (λ rtCtx, negb (existsb (λ r, names r rtCtx) requests))
            (RoutingContexts acknowledged) in
        if 0 <? len offending then Some (NewInvalidRoutingContextError offending) else None
    end.

Record pendingTAckAcknowledgement : Type := mkAcknowledgement {
  solicited : bool;
  completed : list Z;
}.

(** Whether the Ack answers the request, and what then remains of it. *)
Definition answer (acknowledged : option Param) (r : pendingRequest) : bool * gset Z :=
  match acknowledged, r_routingContexts r with
  | None, _ => if unscoped r then (true, ∅) else (false, r_remaining r)
  | Some _, None => (true, r_remaining r)
  | Some _, Some rcs =>
      let named := List.filter (λ rtCtx, bool_decide (rtCtx ∈ rcs)) (RoutingContexts acknowledged) in
      (0 <? len named, r_remaining r ∖ list_to_set named)
  end.

(** One iteration of [claimTAckAcknowledgementForScope]. *)
Definition claimStep (acknowledged : option Param)
    (acc : pendingTAckAcknowledgement * tackRetransmitter) (entry : Z * pendingRequest)
    : pendingTAckAcknowledgement * tackRetransmitter :=
  let '(result, t) := acc in
  let '(id, req) := entry in
  let '(matched, remaining) := answer acknowledged req in
  if negb matched then acc
  else
    let t := update_request id (λ r, r <| r_remaining := remaining |>) t in
    if bool_decide (remaining ≠ ∅) then (mkAcknowledgement true (completed result), t)
    else (mkAcknowledgement true (completed result ++ [id]),
          drop_request id (update_request id stopRetries t)).

Definition record_scope (acknowledged : option Param) (scope : option acknowledgedASPTMScope)
    : acknowledgedASPTMScope :=
  let scope := default (mkScope false ∅) scope in
  match acknowledged with
  | None => mkScope true (sc_routingContexts scope)
  | Some _ => mkScope (sc_routingContextOmitted scope)
                (list_to_set (RoutingContexts acknowledged) ∪ sc_routingContexts scope)
  end.

Definition recordASPTMAcknowledgementLocked (kind : requestKind) (acknowledged : option Param)
    (t : tackRetransmitter) : tackRetransmitter :=
  match kind with
  | requestAspActive => t <| acknowledgedActive ::= λ s, Some (record_scope acknowledged s) |>
  | requestAspInactive => t <| acknowledgedInactive ::= λ s, Some (record_scope acknowledged s) |>
  | _ => t
  end.

Definition acknowledgedScope (kind : requestKind) (t : tackRetransmitter)
    : option acknowledgedASPTMScope :=
  match kind with
  | requestAspActive => acknowledgedActive t
  | requestAspInactive => acknowledgedInactive t
  | _ => None
  end.

Definition claimTAckAcknowledgementForScope (kind : requestKind)
    (acknowledged wireRoutingContext : option Param) (t : tackRetransmitter)
    : pendingTAckAcknowledgement * tackRetransmitter :=
  let '(result, t) :=
    foldl (claimStep acknowledged) (mkAcknowledgement false [], t)
      (pendingRequestEntriesLocked kind t) in
  let t :=
    if solicited result then
      let t := recordASPTMAcknowledgementLocked kind acknowledged t in
      match wireRoutingContext with
      | None => recordASPTMAcknowledgementLocked kind None t
      | Some _ => t
      end
    else t in
  (result, t).

Definition claimTAckAcknowledgement (kind : requestKind) (acknowledged : option Param)
    : tackRetransmitter → pendingTAckAcknowledgement * tackRetransmitter :=
  claimTAckAcknowledgementForScope kind acknowledged acknowledged.

(** [acknowledgement.complete()]. *)
Definition complete (acknowledgement : pendingTAckAcknowledgement) (t : tackRetransmitter)
    : tackRetransmitter :=
  foldl (λ t id, update_request id acknowledge t) t (completed acknowledgement).

Definition acknowledgeTAck (kind : requestKind) (acknowledged : option Param)
    (t : tackRetransmitter) : bool * tackRetransmitter :=
  let '(acknowledgement, t) := claimTAckAcknowledgement kind acknowledged t in
  (solicited acknowledgement, complete acknowledgement t).

Definition forgetTAck (kind : requestKind) (t : tackRetransmitter) : bool * tackRetransmitter :=
  let ids := ids_where (λ r, bool_decide (r_kind r = kind)) t in
  let found := 0 <? len ids in
  let t := settle acknowledge ids t in
  (found,
   if found && bool_decide (kind = requestAspUp)
   then t <| aspUpAcknowledged := true |> <| awaitingAspUp := false |> else t).

Definition stopTAck : requestKind → tackRetransmitter → bool * tackRetransmitter := forgetTAck.

Definition pendingTAckRoutingContexts (kind : requestKind) (t : tackRetransmitter) : gset Z :=
  ⋃ (r_remaining <$> pendingRequestsLocked kind t).

Definition pendingTAck (t : tackRetransmitter) : Z := Z.of_nat (size (pending t)).

(** The Acks of a repeated request. *)

Definition isRepeatedASPUpAcknowledgement (t : tackRetransmitter) : bool := aspUpAcknowledged t.

Definition isPeerDownSupersededASPUpAck (t : tackRetransmitter) : bool := peerDownSuperseded t.

(** Whether the loop over the pending requests returns false. *)
Definition answers_current (kind : requestKind) (acknowledged wireRoutingContext : option Param)
    (r : pendingRequest) : bool :=
  if bool_decide (kind = requestAspInactive) && bool_decide (wireRoutingContext = None) then true
  else
    match acknowledged with
    | None => unscoped r
    | Some _ =>
        bool_decide (r_routingContexts r = None) || existsb (names r) (RoutingContexts acknowledged)
    end.

Definition isRepeatedASPTMAcknowledgementForScope (kind : requestKind)
    (acknowledged wireRoutingContext : option Param) (t : tackRetransmitter) : bool :=
  if existsb (answers_current kind acknowledged wireRoutingContext) (pendingRequestsLocked kind t)
  then false
  else
    match acknowledgedScope kind t with
    | None => false
    | Some scope =>
        if bool_decide (wireRoutingContext = None) && sc_routingContextOmitted scope then true
        else
          match acknowledged with
          | None => sc_routingContextOmitted scope
          | Some _ =>
              let routingContexts := RoutingContexts acknowledged in
              if len routingContexts =? 0 then false
              else forallb (λ rc, bool_decide (rc ∈ sc_routingContexts scope)) routingContexts
          end
    end.

Definition isRepeatedASPTMAcknowledgement (kind : requestKind) (acknowledged : option Param)
    : tackRetransmitter → bool :=
  isRepeatedASPTMAcknowledgementForScope kind acknowledged acknowledged.

Definition rejectStaleASPTMAck (terminating : bool) (kind : requestKind) (t : tackRetransmitter)
    : bool :=
  if negb (awaitingAspUp t) && negb terminating then false
  else len (pendingRequestsLocked kind t) =? 0.

(** ** ASP Down *)

(** The count a successful write of an ASP Down adds to (association.go). *)
Definition countASPDown (t : tackRetransmitter) : tackRetransmitter :=
  t <| aspDownAcksOutstanding ::= λ n, u64 (n + 1) |>.

Definition claimASPDownAcknowledgement (t : tackRetransmitter)
    : pendingTAckAcknowledgement * bool * tackRetransmitter :=
  let '(acknowledgement, t) := claimTAckAcknowledgement requestAspDown None t in
  let outstanding := 0 <? aspDownAcksOutstanding t in
  (acknowledgement, negb (solicited acknowledgement) && outstanding,
   if outstanding then t <| aspDownAcksOutstanding ::= λ n, n - 1 |> else t).

(** [applies] is the condition on the role; [None] is its early return. *)
Definition supersedePeerDownProcedures (applies : bool) (t : tackRetransmitter)
    : list Z * tackRetransmitter :=
  if negb applies then ([], t)
  else
    let t := t <| peerDownSuperseded := true |> <| peerDownHandling := true |>
               <| awaitingAspUp := true |> <| aspUpAcknowledged := false |>
               <| acknowledgedActive := None |> <| acknowledgedInactive := None |> in
    let ids := ids_where (λ r, bool_decide (r_kind r = requestAspUp) || is_asptm (r_kind r)) t in
    (ids, settle stopRetries ids t).

Definition finishPeerDownProcedures (requests : list Z) (t : tackRetransmitter)
    : tackRetransmitter :=
  foldl (λ t id, update_request id (finish (Some ErrASPProcedureSuperseded)) t)
    (t <| peerDownHandling := false |>) requests.

(** ** Giving up *)

Definition forgetTAckRequest (req : Z) (kind : requestKind) (err : asp_error)
    (t : tackRetransmitter) : bool * tackRetransmitter :=
  if bool_decide (req ∈ pending t) &&
     bool_decide (r_kind <$> requests t !! req = Some kind)
  then (true, settle (finish (Some err)) [req] t)
  else (false, t).

Definition cancelTAckRequest (req : Z) (t : tackRetransmitter) : tackRetransmitter :=
  if bool_decide (req ∈ pending t) then settle cancel [req] t else t.

Definition stopAllTAck : tackRetransmitter → tackRetransmitter := cancelAllTAckLocked.

(** [initiator] says that the role is ASP or IPSP. *)
Definition resetTAckEpoch (initiator : bool) (t : tackRetransmitter) : tackRetransmitter :=
  (cancelAllTAckLocked
    (t <| awaitingAspUp := initiator |> <| peerDownSuperseded := false |>
       <| aspUpAcknowledged := false |> <| aspDownAcksOutstanding := 0 |>))
    <| acknowledgedActive := None |> <| acknowledgedInactive := None |>.

Definition completeRestartASPSM (t : tackRetransmitter) : tackRetransmitter :=
  t <| awaitingAspUp := false |> <| peerDownSuperseded := false |>.

(** What [waitTAck] finds in the result channel. *)
Definition waitTAck (req : Z) (t : tackRetransmitter) : option (option asp_error) :=
  r ← requests t !! req; r_result r.
