(* ===== verification/Association.v ===== *)
(** * An Association: its state and the operations its procedures share

    The control state of an Association (association.go, fsm.go): what the
    dispatcher, the monitor and the retransmission timers read and write, and
    the operations they have in common.  AspProcedures.v has the handlers.

    An operation is a function of the state, in the monad [M]; it may append to
    the trace [a_out] what it does outside the Association: writes to the
    peer, reports, and calls of the Application Servers of the node.  What those
    answer is the environment [env] of the call.  An operation under one mutex
    is one function.  A nil Association and a nil configuration are not
    modelled. *)

From stdpp Require Import sorting.
From coqutil Require Import Datatypes.RecordSettersUsingExistingGetters.
From S2P Require Import Prelude Params ParamsFacts ParamValues Inventory AppServer Header.
From S2P Require Import MsgAspsm MsgAsptm MsgMgmt Message Tack.
#[local] Open Scope Z_scope.

(** ** Configuration (config.go, asp_procedure.go) *)

Inductive Role : Set := RoleASP | RoleSGP | RoleIPSP.
#[export] Instance Role_eq_dec : EqDecision Role.
Proof. solve_decision. Defined.

Inductive IPSPExchangeModel : Set := IPSPExchangeSingle | IPSPExchangeDouble.
Inductive IPSPASPSMExchangeModel : Set := IPSPASPSMExchangeDouble | IPSPASPSMExchangeSingle.

(** A direction is [None] when it carries no traffic. *)
Record IPSPConfig : Set := mkIPSPConfig {
  ExchangeModel : IPSPExchangeModel;
  ASPSMExchange : IPSPASPSMExchangeModel;
  TrafficToLocal : option (list ASConfig);
  TrafficToPeer : option (list ASConfig);
}.

Inductive ASPProcedureMode : Set := ASPProcedureAutomatic | ASPProcedureExplicit.
#[export] Instance ASPProcedureMode_eq_dec : EqDecision ASPProcedureMode.
Proof. solve_decision. Defined.

Record ASPProcedurePolicy : Set := mkPolicy {
  ASPUp : ASPProcedureMode;
  ASPDown : ASPProcedureMode;
  ASPActive : ASPProcedureMode;
  ASPInactive : ASPProcedureMode;
}.

Inductive aspProcedure : Set :=
| aspProcedureUp | aspProcedureDown | aspProcedureActive | aspProcedureInactive.

(** [hasAS] says that the node has Application Servers ([c.as] is not nil),
    [hasAuthorizer] that [AuthorizeASP] is set. *)
Record AssociationConfig : Set := mkAssociationConfig {
  role : Role;
  IPSP : option IPSPConfig;
  ASPProcedures : option ASPProcedurePolicy;
  ApplicationServers : list ASConfig;
  cfgASPIdentifier : option Param;
  hasAS : bool;
  hasAuthorizer : bool;
  TAckRetries : Z;
}.

(** ** State *)

(** The fields under [muState], with [terminating], [resumeStray], the stream
    of the message being handled, and whether [done] is closed. *)
Record coreState : Type := mkCore {
  ended : bool;
  terminating : bool;
  state : State;
  localIPSPState : State;
  appliedState : State;
  stateEntered : bool;
  peerDownAwaitingEntry : bool;
  resumeTo : State;
  resumeStray : bool;
  recvStream : Z;
}.

(** The fields under [muAckedRCs]; a nil map is an empty set. *)
Record scopeState : Type := mkScopes {
  ackedRCs : gset Z;
  ackedRCsScoped : bool;
  ackedContextlessAS : bool;
  overriddenRCs : gset Z;
  activeRCs : gset Z;
  activeRCsScoped : bool;
  activeScopeInitialized : bool;
  contextlessASActive : bool;
  inactiveDynamicRCs : gset Z;
}.

(** Routing Keys registered dynamically, and what an ASP Up settled. *)
Record membership : Type := mkMembership {
  dynamicPeerASKeys : gmap Z ASKey;
  dynamicLocalASKeys : gmap Z ASKey;
  dynamicPeerASKeyVersions : gmap Z Z;
  dynamicLocalASKeyVersions : gmap Z Z;
  dynamicASKeyVersion : Z;
  dynamicPeerTrafficModes : gmap Z Z;
  dynamicLocalTrafficModes : gmap Z Z;
  authorizedRCs : list Z;
  authorizationResolved : bool;
  authorizationExplicit : bool;
  authorizationIdentifier : option Z;
  peerASPIdentifier : option Param;
}.

(** The fields under [muStateEvent]; the channel holds 16 states. *)
Record stateEvents : Type := mkEvents {
  stateEventSubscribed : bool;
  stateEventPending : list State;
  stateEventChan : list State;
  stateEventClosed : bool;
  indicationOverflow : bool;
}.

(** States on their way to the monitor: [stateChan] is unbuffered, so each
    sender waits with the one it publishes. [published] is the dispatcher's,
    [publishedByOthers] those of the Associations that override this one,
    [taken] the one the monitor has received and not applied yet. The errors
    on their way to it are in [a_reports]. *)
Record publications : Type := mkPublications {
  published : option State;
  publishedByOthers : list State;
  taken : option State;
  established : bool;
}.

(** What happens outside the Association. *)
Inductive action : Type :=
| AWrite (m : M3UA) (err : option asp_error)
| ARestrictASP
| ARefreshASPOrdering
| AQuiesceASPFor (routingContexts : list Z)
| AQuiesceASPDown
| AQuiesceUnscopedTraffic
| AQuiesceLocalIPSPSSNMTraffic
| ACommitASPStates (states : list (ASKey * State))
| APostNotify
| AOverride (key : ASKey)
| AASPStateChanged (current : State)
| ARouteStateChanged
| ASyncSSNMBindings
| APauseDestinations
| AAllowHeartbeat
| AManagement
| AMTP3RestartStatus.

Record association : Type := mkAssociation {
  a_cfg : AssociationConfig;
  a_core : coreState;
  a_scope : scopeState;
  a_member : membership;
  a_tack : tackRetransmitter;
  a_events : stateEvents;
  a_pub : publications;
  a_beatData : bytes;
  a_reports : list (option (M3UA * bytes) * asp_error);
  a_writes : nat;
  a_out : list action;
}.

(** [newAssociation]. *)
Definition newAssociation (cfg : AssociationConfig) : association :=
  mkAssociation cfg
    (mkCore false false StateASPDown StateASPDown StateASPDown false false StateASPActive false 0)
    (mkScopes ∅ false false ∅ ∅ false false false ∅)
    (mkMembership ∅ ∅ ∅ ∅ 0 ∅ ∅ [] false false None None)
    newTAckRetransmitter (mkEvents false [] [] false false)
    (mkPublications None [] None false) [] [] 0 [].

(** ** The monad of operations *)

(** The answers an operation gets: the outcome of the [n]th write of the
    Association, the application's callback, the registries of the node, and
    the handlers of the messages that leave this state alone.  A refusal of a
    traffic mode says whether the registry is closed. *)
Record environment : Type := mkEnvironment {
  e_write : nat → bool;
  e_AuthorizeASP : option Z → list Z;
  e_activationPolicy : list ASKey → bool;
  e_claimASPIdentifier : Z → bool;
  e_isolatedEntirely : bool;
  e_servicable : list ASKey → bool;
  e_agreeTrafficMode : list Z → option Param → option Param + bool;
  e_mtp3RestartStatus : list Z → bool;
  e_isOverride : ASKey → bool;
  e_otherHandler : M3UA → option asp_error;
}.

Definition refusal (closed : bool) : asp_error :=
  if closed then ErrAssociationClosed else ErrUnsupportedTrafficMode.

Definition M (A : Type) : Type := association → A * association.

#[export] Instance M_ret : MRet M := λ A a c, (a, c).
#[export] Instance M_bind : MBind M := λ A B f m c, let '(a, c) := m c in f a c.

Definition get : M association := λ c, (c, c).
Definition modify (f : association → association) : M () := λ c, (tt, f c).
Definition gets {A} (f : association → A) : M A := λ c, (f c, c).
Definition emit (a : action) : M () := modify (λ c, c <| a_out ::= λ l, l ++ [a] |>).
Definition when (b : bool) (m : M ()) : M () := if b then m else mret tt.

(** Running an operation of the T(ack) inventory. *)
Definition with_tack {A} (f : tackRetransmitter → A * tackRetransmitter) : M A :=
  λ c, let '(a, t) := f (a_tack c) in (a, c <| a_tack := t |>).
Definition modify_tack (f : tackRetransmitter → tackRetransmitter) : M () :=
  modify (λ c, c <| a_tack ::= f |>).

(** [if err := m; err != nil { return err }]. *)
Notation "'try!' m ;; k" :=
  (mbind (λ err : option asp_error, match err with Some e => mret (Some e) | None => k end) m)
  (at level 100, m at next level, k at level 200, right associativity).

(** Several operations in a row. *)
Fixpoint forM_ {A} (l : list A) (f : A → M ()) : M () :=
  match l with [] => mret tt | x :: l => f x;; forM_ l f end.

(** ** Queries *)

Definition isIPSPDoubleExchange (c : association) : bool :=
  match role (a_cfg c), IPSP (a_cfg c) with
  | RoleIPSP, Some ipsp => match ExchangeModel ipsp with IPSPExchangeDouble => true | _ => false end
  | _, _ => false
  end.

Definition usesSingleASPSMExchange (c : association) : bool :=
  isIPSPDoubleExchange c &&
  match IPSP (a_cfg c) with
  | Some ipsp => match ASPSMExchange ipsp with IPSPASPSMExchangeSingle => true | _ => false end
  | None => false
  end.

Definition hasLocalIPSPTrafficDirection (c : association) : bool :=
  isIPSPDoubleExchange c &&
  match IPSP (a_cfg c) with Some ipsp => bool_decide (is_Some (TrafficToLocal ipsp)) | None => false end.

Definition hasPeerIPSPTrafficDirection (c : association) : bool :=
  isIPSPDoubleExchange c &&
  match IPSP (a_cfg c) with Some ipsp => bool_decide (is_Some (TrafficToPeer ipsp)) | None => false end.

Definition aspProcedureMode (procedure : aspProcedure) (c : association) : ASPProcedureMode :=
  match ASPProcedures (a_cfg c) with
  | Some policy =>
      match procedure with
      | aspProcedureUp => ASPUp policy
      | aspProcedureDown => ASPDown policy
      | aspProcedureActive => ASPActive policy
      | aspProcedureInactive => ASPInactive policy
      end
  | None => if bool_decide (role (a_cfg c) = RoleASP) then ASPProcedureAutomatic
            else ASPProcedureExplicit
  end.

Definition automatic (procedure : aspProcedure) (c : association) : bool :=
  bool_decide (aspProcedureMode procedure c = ASPProcedureAutomatic).

(** [State()] and [localIPSPStateValue]; the latter does not look at [done]. *)
Definition State_ (c : association) : State :=
  if ended (a_core c) then StateASPDown else state (a_core c).

Definition localIPSPStateValue (c : association) : State := localIPSPState (a_core c).

(** The state of the local direction, where the code reads one or the other. *)
Definition localState (c : association) : State :=
  if isIPSPDoubleExchange c then localIPSPStateValue c else State_ c.

(** [IPSPState]: traffic to local, traffic to peer. *)
Definition IPSPState (c : association) : State * State :=
  if ended (a_core c) then (StateASPDown, StateASPDown)
  else if negb (isIPSPDoubleExchange c) then (state (a_core c), state (a_core c))
  else (localIPSPState (a_core c), state (a_core c)).

Definition inboundDataActive (c : association) : bool :=
  bool_decide (localState c = StateASPActive).

(** *** Inventories *)

Definition applicationServerInventory (local : bool) (c : association) : list ASConfig :=
  if negb (isIPSPDoubleExchange c) then ApplicationServers (a_cfg c)
  else
    match IPSP (a_cfg c) with
    | Some ipsp => default [] (if local then TrafficToLocal ipsp else TrafficToPeer ipsp)
    | None => []
    end.

Definition hasExplicitlyEmptyASPAuthorization (c : association) : bool :=
  let m := a_member c in
  authorizationResolved m && authorizationExplicit m && (len (authorizedRCs m) =? 0).

Definition staticallyConfiguredRoutingContexts (c : association) : list Z :=
  if bool_decide (role (a_cfg c) = RoleSGP) && authorizationResolved (a_member c)
  then authorizedRCs (a_member c)
  else asConfigRoutingContexts (applicationServerInventory false c).

(** [slices.Sort] of the keys. *)
Definition sorted_keys {A} (m : gmap Z A) : list Z := merge_sort Z.le (map_to_list m).*1.

Definition dynamicRoutingContexts (local : bool) (c : association) : list Z :=
  sorted_keys (if local then dynamicLocalASKeys (a_member c) else dynamicPeerASKeys (a_member c)).

(** Appending what is not there yet. *)
Fixpoint appendNew `{EqDecision A} (combined l : list A) : list A :=
  match l with
  | [] => combined
  | x :: l => appendNew (if bool_decide (x ∈ combined) then combined else combined ++ [x]) l
  end.

Definition appendRoutingContexts (configured dynamic : list Z) : list Z :=
  appendNew (appendNew [] configured) dynamic.

Definition uniqueASKeys (keys : list ASKey) : list ASKey := appendNew [] keys.

Definition configuredRoutingContexts (c : association) : list Z :=
  appendRoutingContexts (staticallyConfiguredRoutingContexts c) (dynamicRoutingContexts false c).

Definition configuredLocalRoutingContexts (c : association) : list Z :=
  if isIPSPDoubleExchange c
  then appendRoutingContexts (asConfigRoutingContexts (applicationServerInventory true c))
         (dynamicRoutingContexts true c)
  else configuredRoutingContexts c.

Definition param_of (configured : list Z) : option Param :=
  if len configured =? 0 then None else Some (NewRoutingContext configured).

Definition configuredRoutingContextParam (c : association) : option Param :=
  param_of (configuredRoutingContexts c).
Definition configuredLocalRoutingContextParam (c : association) : option Param :=
  param_of (configuredLocalRoutingContexts c).

Definition hasStaticallyConfiguredContextlessAS (c : association) : bool :=
  if hasExplicitlyEmptyASPAuthorization c then false
  else if isIPSPDoubleExchange c && negb (hasPeerIPSPTrafficDirection c) then false
  else len (staticallyConfiguredRoutingContexts c) =? 0.

Definition hasConfiguredLocalContextlessAS (c : association) : bool :=
  if negb (isIPSPDoubleExchange c) then hasStaticallyConfiguredContextlessAS c
  else if negb (hasLocalIPSPTrafficDirection c) then false
  else len (asConfigRoutingContexts (applicationServerInventory true c)) =? 0.

Definition contextlessASKey (local : bool) (c : association) : ASKey :=
  let servers := applicationServerInventory local c in
  match asConfigContextlessASKey servers with
  | Some key => key
  | None => let '(na, set) := asConfigNetworkAppearance servers in mkASKey na set 0 false
  end.

Definition staticASKeyForRoutingContext (rtCtx : Z) (local : bool) (c : association) : ASKey :=
  let servers := applicationServerInventory local c in
  match asConfigASKeyFor servers rtCtx with
  | Some key => key
  | None => let '(na, set) := asConfigNetworkAppearance servers in mkASKey na set rtCtx true
  end.

Definition dynamicASKey (routingContext : Z) (local : bool) (c : association) : option ASKey :=
  (if local then dynamicLocalASKeys (a_member c) else dynamicPeerASKeys (a_member c))
    !! routingContext.

Definition asKeysForRoutingContexts (routingContexts : list Z) (c : association) : list ASKey :=
  if len routingContexts =? 0 then [contextlessASKey false c]
  else uniqueASKeys ((λ rc, match dynamicASKey rc false c with
                            | Some key => key
                            | None => staticASKeyForRoutingContext rc false c
                            end) <$> routingContexts).

Definition configuredASKeys (c : association) : list ASKey :=
  if hasExplicitlyEmptyASPAuthorization c && (len (dynamicRoutingContexts false c) =? 0) then []
  else if isIPSPDoubleExchange c && negb (hasPeerIPSPTrafficDirection c) then []
  else
    let routingContexts := configuredRoutingContexts c in
    let keys := asKeysForRoutingContexts routingContexts c in
    uniqueASKeys
      (if (0 <? len routingContexts) && hasStaticallyConfiguredContextlessAS c
       then contextlessASKey false c :: keys else keys).

Definition staticallyConfiguredASKeys (c : association) : list ASKey :=
  (λ rc, staticASKeyForRoutingContext rc false c) <$>
    appendNew [] (staticallyConfiguredRoutingContexts c).

(** *** Traffic modes *)

Definition withDynamicTrafficModes (policy : trafficModePolicy) (local : bool) (c : association)
    : trafficModePolicy :=
  let dynamic := if local then dynamicLocalTrafficModes (a_member c)
                 else dynamicPeerTrafficModes (a_member c) in
  mkTrafficModePolicy (contextlessMode policy) (contextlessModeSet policy)
    (dynamic ∪ modes policy).

Definition trafficModePolicy_ (c : association) : trafficModePolicy :=
  withDynamicTrafficModes
    (newApplicationServerTrafficModePolicy (applicationServerInventory false c)) false c.

Definition localTrafficModePolicy (c : association) : trafficModePolicy :=
  withDynamicTrafficModes
    (newApplicationServerTrafficModePolicy (applicationServerInventory true c)) true c.

(** *** Scopes *)

Definition activeForRoutingContext (rtCtx : Z) (c : association) : bool :=
  let s := a_scope c in
  if negb (activeRCsScoped s) then bool_decide (rtCtx ∉ inactiveDynamicRCs s)
  else bool_decide (rtCtx ∈ activeRCs s).

Definition activeForASKey (key : ASKey) (c : association) : bool :=
  if negb (RoutingContextSet key)
  then negb (activeRCsScoped (a_scope c)) || contextlessASActive (a_scope c)
  else activeForRoutingContext (RoutingContext key) c.

Definition peerASPStateForKey (key : ASKey) (c : association) : State :=
  if activeForASKey key c then StateASPActive else StateASPInactive.

Definition routingContextAcked (rc : Z) (c : association) : bool :=
  negb (ackedRCsScoped (a_scope c)) || bool_decide (rc ∈ ackedRCs (a_scope c)).

Definition contextlessASAcked (c : association) : bool :=
  negb (ackedRCsScoped (a_scope c)) || ackedContextlessAS (a_scope c).

Definition routingContextOverridden (rc : Z) (c : association) : bool :=
  bool_decide (rc ∈ overriddenRCs (a_scope c)).

Definition outboundRoutingContextActive (rtCtx : Z) (c : association) : bool :=
  if isIPSPDoubleExchange c then activeForRoutingContext rtCtx c
  else if bool_decide (role (a_cfg c) = RoleASP)
  then routingContextAcked rtCtx c && negb (routingContextOverridden rtCtx c)
  else activeForRoutingContext rtCtx c && negb (routingContextOverridden rtCtx c).

Definition stateForActiveRoutingContexts (c : association) : State :=
  let s := a_scope c in
  if negb (activeRCsScoped s) then State_ c
  else if bool_decide (activeRCs s ≠ ∅) || contextlessASActive s then StateASPActive
  else StateASPInactive.

Definition stateForAcknowledgedRoutingContexts (c : association) : State :=
  let s := a_scope c in
  if negb (ackedRCsScoped s) then localState c
  else if ackedContextlessAS s then StateASPActive
  else if bool_decide (ackedRCs s ∖ overriddenRCs s ≠ ∅) then StateASPActive
  else StateASPInactive.

(** ** Readiness *)

Definition readinessRank (s : State) : option Z :=
  match s with
  | StateASPDown => Some 0
  | StateASPInactive => Some 1
  | StateASPActive => Some 2
  | _ => None
  end.

Definition localASPProcedureDirectionAvailable (c : association) : bool :=
  if bool_decide (role (a_cfg c) = RoleSGP) then false
  else if negb (isIPSPDoubleExchange c) then true
  else hasLocalIPSPTrafficDirection c || usesSingleASPSMExchange c.

Definition localASPTMProcedureDirectionAvailable (c : association) : bool :=
  if bool_decide (role (a_cfg c) = RoleSGP) then false
  else if negb (isIPSPDoubleExchange c) then true
  else hasLocalIPSPTrafficDirection c.

Definition readinessState (c : association) : State :=
  if bool_decide (role (a_cfg c) = RoleSGP) then StateASPActive
  else if bool_decide (ASPProcedures (a_cfg c) = None) then StateASPActive
  else if isIPSPDoubleExchange c && negb (localASPProcedureDirectionAvailable c)
  then StateASPActive
  else if negb (automatic aspProcedureUp c) then StateASPDown
  else if negb (automatic aspProcedureActive c) then StateASPInactive
  else StateASPActive.

Definition currentReadinessState (c : association) : State :=
  if isIPSPDoubleExchange c && localASPProcedureDirectionAvailable c
  then localIPSPStateValue c else State_ c.

(** [established] holds one signal. *)
Definition notifyReady : M () :=
  c ← get;
  match readinessRank (readinessState c), readinessRank (currentReadinessState c) with
  | Some want, Some reached =>
      when ((want <=? reached) && negb (ended (a_core c)))
        (modify (λ c, c <| a_pub ::= λ p, p <| established := true |> |>))
  | _, _ => mret tt
  end.

Definition allowHeartbeat : M () := emit AAllowHeartbeat.

(** ** State changes (StateChanges) *)

Definition stateEventCapacity : Z := 16.

Definition recordStateChangeEvents (s : State) (e : stateEvents) : stateEvents :=
  if stateEventClosed e || negb (stateEventSubscribed e) then e
  else if stateEventCapacity <=? len (stateEventPending e) + len (stateEventChan e)
  then e <| indicationOverflow := true |>
  else e <| stateEventPending ::= λ l, l ++ [s] |>.

Definition notifyStateChangeLocked (e : stateEvents) (s : State) : stateEvents :=
  if stateEventClosed e || negb (stateEventSubscribed e) then e
  else if len (stateEventChan e) <? stateEventCapacity
  then e <| stateEventChan ::= λ l, l ++ [s] |>
  else e <| indicationOverflow := true |>.

(** [over] says that teardown has begun. *)
Definition flushEvents (over final : bool) (e : stateEvents) : stateEvents :=
  if negb final && over then e
  else (foldl notifyStateChangeLocked e (stateEventPending e)) <| stateEventPending := [] |>.

Definition recordStateChange (s : State) : M () :=
  modify (λ c, c <| a_events ::= recordStateChangeEvents s |>).

Definition flushStateChanges (final : bool) : M () :=
  modify (λ c, c <| a_events ::= flushEvents (ended (a_core c)) final |>).

Definition StateChanges : M () :=
  modify (λ c, c <| a_events ::= λ e, e <| stateEventSubscribed := true |> |>).

Definition closeStateChanges : M () :=
  modify (λ c, c <| a_events ::= λ e, e <| stateEventClosed := true |> |>).

(** ** Commits (fsm.go) *)

(** Nil [c.as] and other roles do nothing there; see the callee. *)
Definition notifyASPRouteStateChanged : M () := emit ASyncSSNMBindings;; emit ARouteStateChanged.
Definition syncSSNMBindings : M () := emit ASyncSSNMBindings.

Definition set_core (f : coreState → coreState) : M () := modify (λ c, c <| a_core ::= f |>).
Definition set_scope (f : scopeState → scopeState) : M () := modify (λ c, c <| a_scope ::= f |>).

Definition commitStateGuarded (s : State) (peerDown override : bool) : M bool :=
  if bool_decide (s = stateUnchanged) then mret true
  else
    c ← get;
    if ended (a_core c) then mret false
    else if override && bool_decide (state (a_core c) = StateASPDown) then mret false
    else
      let stateChanged := negb (bool_decide (state (a_core c) = s)) in
      set_core (λ k, k <| state := s |>);;
      when stateChanged (recordStateChange s);;
      when (peerDown || negb (bool_decide (s = StateASPDown)))
        (set_core (λ k, k <| peerDownAwaitingEntry := peerDown |>));;
      when stateChanged notifyASPRouteStateChanged;;
      mret true.

Definition commitState (s : State) : M bool := commitStateGuarded s false false.
Definition commitPeerDownState : M bool := commitStateGuarded StateASPDown true false.
Definition commitOverrideInactiveState : M bool := commitStateGuarded StateASPInactive false true.

Definition commitLocalIPSPState (s : State) : M bool :=
  c ← get;
  if ended (a_core c) then mret false
  else
    let changed := negb (bool_decide (localIPSPState (a_core c) = s)) in
    set_core (λ k, k <| localIPSPState := s |>);;
    when changed notifyASPRouteStateChanged;;
    notifyReady;;
    when (bool_decide (s = StateASPActive)) allowHeartbeat;;
    mret true.

(** The dispatcher waits on [stateChan] with what it publishes; once [done] is
    closed it does not. *)
Definition publishState (s : State) : M () :=
  c ← get;
  when (negb (ended (a_core c))) (modify (λ c, c <| a_pub ::= λ p, p <| published := Some s |> |>)).

Definition sendState (s : State) : M () :=
  committed ← commitState s; when committed (publishState s).

(** The same on the goroutine of another Association. *)
Definition sendOverrideInactiveState : M () :=
  committed ← commitOverrideInactiveState;
  when committed
    (modify (λ c, c <| a_pub ::= λ p, p <| publishedByOthers ::= λ l, l ++ [StateASPInactive] |> |>)).

(** [sendErr] and [sendErrForMessage]: the error waits for the monitor, with
    the message it is about, if any. *)
Definition report (received : option (M3UA * bytes)) (e : asp_error) : M () :=
  modify (λ c, c <| a_reports ::= λ l, l ++ [(received, e)] |>).
Definition sendErr (e : asp_error) : M () := report None e.
Definition sendErrForMessage (m : M3UA) (raw : bytes) (e : asp_error) : M () :=
  report (Some (m, raw)) e.

(** ** Scopes *)

Definition materializeUnscopedActiveRoutingContextsLocked : M () :=
  c ← get;
  let configured := configuredRoutingContexts c in
  let contextless := hasStaticallyConfiguredContextlessAS c in
  set_scope (λ s, s <| activeRCs := list_to_set configured ∖ inactiveDynamicRCs s |>
                    <| activeRCsScoped := true |> <| activeScopeInitialized := true |>
                    <| contextlessASActive := contextless |> <| inactiveDynamicRCs := ∅ |>).

Definition noteRoutingContextsActiveLocked (rcs : list Z) : M () :=
  c ← get;
  let double := isIPSPDoubleExchange c in
  if len rcs =? 0
  then set_scope (λ s, s <| activeRCs := ∅ |> <| activeRCsScoped := false |>
                         <| activeScopeInitialized := true |> <| contextlessASActive := false |>
                         <| inactiveDynamicRCs := ∅ |>
                         <| overriddenRCs ::= λ o, if double then o else ∅ |>)
  else
    when (negb (activeRCsScoped (a_scope c)) && activeScopeInitialized (a_scope c))
      materializeUnscopedActiveRoutingContextsLocked;;
    let named : gset Z := list_to_set rcs in
    set_scope (λ s, s <| activeRCs ::= union named |> <| activeRCsScoped := true |>
                      <| activeScopeInitialized := true |>
                      <| inactiveDynamicRCs ::= λ d, d ∖ named |>
                      <| overriddenRCs ::= λ o, if double then o else o ∖ named |>).

Definition commitASPStates : M () :=
  c ← get;
  when (hasAS (a_cfg c))
    (emit (ACommitASPStates ((λ key, (key, peerASPStateForKey key c)) <$> configuredASKeys c));;
     emit APostNotify).

Definition commitPeerRoutingContextsActive (rcs : list Z) : M bool :=
  c ← get;
  if ended (a_core c) then mret false
  else
    noteRoutingContextsActiveLocked rcs;;
    let stateChanged := negb (bool_decide (state (a_core c) = StateASPActive)) in
    set_core (λ k, k <| state := StateASPActive |>);;
    when stateChanged (recordStateChange StateASPActive);;
    commitASPStates;;
    (if stateChanged then notifyASPRouteStateChanged else syncSSNMBindings);;
    mret true.

Definition noteRoutingContextsInactive (rcs : list Z) : M () :=
  c ← get;
  (if len rcs =? 0
   then set_scope (λ s, s <| activeRCs := ∅ |> <| activeRCsScoped := true |>
                          <| activeScopeInitialized := true |> <| contextlessASActive := false |>
                          <| inactiveDynamicRCs := ∅ |>)
   else
     when (negb (activeRCsScoped (a_scope c))) materializeUnscopedActiveRoutingContextsLocked;;
     let named : gset Z := list_to_set rcs in
     set_scope (λ s, s <| activeRCs ::= λ a, a ∖ named |> <| activeRCsScoped := true |>
                       <| activeScopeInitialized := true |> <| inactiveDynamicRCs := ∅ |>));;
  syncSSNMBindings.

Definition forgetActiveRoutingContexts : M () :=
  set_scope (λ s, s <| activeRCs := ∅ |> <| activeRCsScoped := false |>
                    <| activeScopeInitialized := false |> <| contextlessASActive := false |>
                    <| inactiveDynamicRCs := ∅ |>).

Definition noteRoutingContextsAcked (acked : option Param) : M () :=
  c ← get;
  let contextlessAcked := bool_decide (acked = None) && hasConfiguredLocalContextlessAS c in
  let rcs := if 0 <? len (RoutingContexts acked) then RoutingContexts acked
             else configuredLocalRoutingContexts c in
  let named : gset Z := list_to_set rcs in
  let s := a_scope c in
  let changed := negb (ackedRCsScoped s) || contextlessAcked && negb (ackedContextlessAS s) ||
    existsb (λ rc, bool_decide (rc ∉ ackedRCs s) || bool_decide (rc ∈ overriddenRCs s)) rcs in
  set_scope (λ s, s <| ackedRCsScoped := true |>
                    <| ackedContextlessAS ::= λ b, contextlessAcked || b |>
                    <| ackedRCs ::= union named |> <| overriddenRCs ::= λ o, o ∖ named |>);;
  when changed notifyASPRouteStateChanged.

Definition noteRoutingContextsUnacked (inactive : option Param) : M () :=
  c ← get;
  let configured := configuredLocalRoutingContexts c in
  let rcs := match inactive with None => configured | Some _ => RoutingContexts inactive end in
  let contextlessInactive := bool_decide (inactive = None) in
  let contextlessConfigured := hasConfiguredLocalContextlessAS c in
  set_scope (λ s,
    let s := if negb (ackedRCsScoped s)
             then s <| ackedRCs := list_to_set configured |>
                    <| ackedContextlessAS := contextlessConfigured |>
             else s in
    s <| ackedRCsScoped := true |>
      <| ackedContextlessAS ::= λ b, b && negb contextlessInactive |>
      <| ackedRCs ::= λ a, a ∖ list_to_set rcs |>);;
  notifyASPRouteStateChanged.

Definition noteNoRoutingContextsAcked : M () :=
  set_scope (λ s, s <| ackedRCs := ∅ |> <| ackedRCsScoped := true |>
                    <| ackedContextlessAS := false |>);;
  notifyASPRouteStateChanged.

Definition forgetAckedRoutingContextsWithoutTransferBarrier : M () :=
  set_scope (λ s, s <| ackedRCs := ∅ |> <| ackedRCsScoped := false |>
                    <| ackedContextlessAS := false |> <| overriddenRCs := ∅ |>).

Definition noteRoutingContextsOverridden (rcs : list Z) : M () :=
  c ← get;
  let named : gset Z := list_to_set rcs in
  when (bool_decide (role (a_cfg c) = RoleIPSP) && negb (isIPSPDoubleExchange c))
    (when (negb (activeRCsScoped (a_scope c))) materializeUnscopedActiveRoutingContextsLocked;;
     set_scope (λ s, s <| activeRCs ::= λ a, a ∖ named |>));;
  set_scope (λ s, s <| overriddenRCs ::= union named |>);;
  notifyASPRouteStateChanged.

(** ** Dynamic Routing Keys *)

Definition nextDynamicASKeyVersionLocked (m : membership) : membership :=
  let v := u64 (dynamicASKeyVersion m + 1) in
  m <| dynamicASKeyVersion := if v =? 0 then 1 else v |>.

Definition addDynamicASKey (key : ASKey) (mode : option Z) (local : bool) : M () :=
  c ← get;
  let rc := RoutingContext key in
  when (RoutingContextSet key)
    (when (negb local && negb (bool_decide (role (a_cfg c) = RoleASP)) &&
           bool_decide (dynamicPeerASKeys (a_member c) !! rc = None) &&
           negb (activeRCsScoped (a_scope c)))
       (set_scope (λ s, s <| inactiveDynamicRCs ::= union {[rc]} |>));;
     modify (λ c, c <| a_member ::= λ m,
       let m := nextDynamicASKeyVersionLocked m in
       let version := dynamicASKeyVersion m in
       let add := match mode with Some mode => insert rc mode | None => id end in
       if local
       then m <| dynamicLocalASKeys ::= insert rc key |>
              <| dynamicLocalASKeyVersions ::= insert rc version |>
              <| dynamicLocalTrafficModes ::= add |>
       else m <| dynamicPeerASKeys ::= insert rc key |>
              <| dynamicPeerASKeyVersions ::= insert rc version |>
              <| dynamicPeerTrafficModes ::= add |> |>)).

Definition removeDynamicASKey (routingContext : Z) (local : bool) : M () :=
  c ← get;
  when (negb local && negb (bool_decide (role (a_cfg c) = RoleASP)))
    (set_scope (λ s, s <| inactiveDynamicRCs ::= λ d, d ∖ {[routingContext]} |>));;
  modify (λ c, c <| a_member ::= λ m,
    if local
    then m <| dynamicLocalASKeys ::= delete routingContext |>
           <| dynamicLocalASKeyVersions ::= delete routingContext |>
           <| dynamicLocalTrafficModes ::= delete routingContext |>
    else m <| dynamicPeerASKeys ::= delete routingContext |>
           <| dynamicPeerASKeyVersions ::= delete routingContext |>
           <| dynamicPeerTrafficModes ::= delete routingContext |> |>).

(** Zero when there is none. *)
Definition dynamicASKeyVersionFor (routingContext : Z) (local : bool) (c : association) : Z :=
  default 0 ((if local then dynamicLocalASKeyVersions (a_member c)
              else dynamicPeerASKeyVersions (a_member c)) !! routingContext).

Definition removeDynamicASKeyVersion (routingContext : Z) (local : bool) (expectedVersion : Z)
    : M (option ASKey) :=
  c ← get;
  if negb (dynamicASKeyVersionFor routingContext local c =? expectedVersion) then mret None
  else
    match dynamicASKey routingContext local c with
    | None => mret None
    | Some key => removeDynamicASKey routingContext local;; mret (Some key)
    end.

(** ** Writes *)

(** [writeSignal] of a control message: the environment has its outcome. *)
Definition writeSignal (env : environment) (m : M3UA) : M (option asp_error) :=
  written ← gets (λ c, e_write env (a_writes c));
  let err := if (written : bool) then None else Some ErrWrite in
  modify (λ c, c <| a_writes ::= S |>);;
  emit (AWrite m err);;
  mret err.

Definition writeControl (env : environment) (m : M3UA) : M (option asp_error) :=
  err ← writeSignal env m;
  c ← get;
  when (bool_decide (requestKindOf m = requestAspDown) && isIPSPDoubleExchange c &&
        bool_decide (err = None :> option asp_error))
    (modify_tack countASPDown);;
  mret err.

(** The mandatory control queue: refused once the Association has ended, and
    the messages in order up to the first that fails. *)
Fixpoint writeMandatoryControls (env : environment) (control : list M3UA)
    : M (option asp_error) :=
  match control with
  | [] => mret None
  | m :: control =>
      c ← get;
      if ended (a_core c) then mret (Some ErrAssociationClosed)
      else try! writeSignal env m ;; writeMandatoryControls env control
  end.

(** The barriers that wait for DATA already admitted. *)
Definition quiesceUnscopedTraffic : M () := emit AQuiesceUnscopedTraffic.
Definition quiesceLocalIPSPSSNMTraffic : M () := emit AQuiesceLocalIPSPSSNMTraffic.

(** Standing the peer down in the registry; the Notify this owes comes with
    [postNotify]. *)
Definition quiesceASPFor (routingContexts : list Z) : M () :=
  c ← get; when (hasAS (a_cfg c)) (emit (AQuiesceASPFor routingContexts)).
Definition quiesceASPDown : M () :=
  c ← get; when (hasAS (a_cfg c)) (emit AQuiesceASPDown).
Definition postNotify : M () :=
  c ← get; when (hasAS (a_cfg c)) (emit APostNotify).

Definition startRequest (m : M3UA) (kind : requestKind) : M Z :=
  c ← get;
  with_tack (startTAck (ApplicationServers (a_cfg c)) (terminating (a_core c)) m kind).

(** [writePendingControl]: nothing is written for a request that has stopped. *)
Definition writePendingControl (env : environment) (request : Z) (m : M3UA)
    : M (option asp_error) :=
  c ← get;
  if default true (r_stopped <$> requests (a_tack c) !! request) then mret None
  else writeControl env m.
