(* ===== verification/AspProcedures.v ===== *)
(** * The ASP procedures of an Association (aspsm.go, asptm.go, fsm.go)

    The requests an Association initiates, the handlers of ASPSM and ASPTM
    messages, the dispatcher that calls them and publishes the state they lead
    to, and the monitor that applies it and runs the entry action.  The three
    roles are ASP, SGP and IPSP; an IPSP has the Single and the Double Exchange
    model.

    A handler runs to its end as one function.  Between two handlers anything
    may happen: the monitor, a retransmission, an override by another
    Association, a call of the application, the end of the Association. *)

From coqutil Require Import Datatypes.RecordSettersUsingExistingGetters.
From S2P Require Import Prelude Params ParamsFacts ParamValues Inventory AppServer Header Codec.
From S2P Require Import MsgAspsm MsgAsptm MsgMgmt Message Compat Tack Association.
#[local] Open Scope Z_scope.

Section procedures.
Context (env : environment).

(** ** Requests this end initiates *)

Definition aspIdentifierParam (c : association) : option Param := Copy (cfgASPIdentifier (a_cfg c)).

(** Arming T(ack) and writing the request; the request's number, or the error
    of the write. *)
Definition beginRequest (m : M3UA) (kind : requestKind)
    (write : Z → M (option asp_error)) : M (Z + asp_error) :=
  request ← startRequest m kind;
  err ← write request;
  match err with
  | Some e => modify_tack (cancelTAckRequest request);; mret (inr e)
  | None => mret (inl request)
  end.

(** [_, err := begin(); return err]. *)
Definition error_of {A} (m : M (A + asp_error)) : M (option asp_error) :=
  r ← m; mret (match r with inl _ => None | inr e => Some e end).

Definition beginASPSM : M (Z + asp_error) :=
  c ← get;
  let aspUp := Typed KAspUp (AspUp.NewAspUp (aspIdentifierParam c) None) in
  beginRequest aspUp requestAspUp (λ request, writePendingControl env request aspUp).

Definition initiateASPSM : M (option asp_error) := error_of beginASPSM.

(** The groups of [aspActiveRequests]: the Routing Contexts of one mode, in
    the order in which the modes first occur. *)
Fixpoint addToGroup (mode : option Z) (rc : Z) (groups : list (option Z * list Z))
    : list (option Z * list Z) :=
  match groups with
  | [] => [(mode, [rc])]
  | (m, rcs) :: groups =>
      if bool_decide (m = mode) then (m, rcs ++ [rc]) :: groups
      else (m, rcs) :: addToGroup mode rc groups
  end.

(** [None] is [ErrUnsupportedTrafficMode]. *)
Fixpoint groupByMode (trafficModes : trafficModePolicy) (routingContexts : list Z)
    (groups : list (option Z * list Z)) : option (list (option Z * list Z)) :=
  match routingContexts with
  | [] => Some groups
  | rc :: routingContexts =>
      let mode := configured trafficModes rc in
      if match mode with Some m => negb (validTrafficMode m) | None => false end then None
      else groupByMode trafficModes routingContexts (addToGroup mode rc groups)
  end.

(** The requests, each with its Traffic Mode Type and its Routing Context. *)
Definition aspActiveRequests (routingContext : option Param) (c : association)
    : option (list (option Param * option Param)) :=
  let trafficModes := localTrafficModePolicy c in
  let routingContexts := match routingContext with
                         | Some _ => RoutingContexts routingContext
                         | None => configuredLocalRoutingContexts c
                         end in
  if len routingContexts =? 0 then
    if contextlessModeSet trafficModes && negb (validTrafficMode (contextlessMode trafficModes))
    then None
    else Some [(contextlessParam trafficModes, Copy routingContext)]
  else
    match groupByMode trafficModes routingContexts [] with
    | None => None
    | Some groups =>
        let scoped := bool_decide (is_Some routingContext) || (1 <? len groups) in
        Some (map (λ g : option Z * list Z,
                     (option_map NewTrafficModeType g.1,
                      if scoped then Some (NewRoutingContext g.2) else None)) groups)
    end.

(** The loop of [beginASPActive]. *)
Fixpoint beginASPActiveLoop (todo : list (option Param * option Param)) (started : list Z)
    : M (list Z + asp_error) :=
  match todo with
  | [] => mret (inl started)
  | (mode, rc) :: todo =>
      let aspActive := Typed KAspActive (AspActive.NewAspActive (Copy mode) (Copy rc) None) in
      request ← startRequest aspActive requestAspActive;
      let started := started ++ [request] in
      err ← writePendingControl env request aspActive;
      match err with
      | Some e => modify_tack (λ t, foldl (λ t r, cancelTAckRequest r t) t started);; mret (inr e)
      | None => beginASPActiveLoop todo started
      end
  end.

Definition beginASPActive (routingContext : option Param) : M (list Z + asp_error) :=
  c ← get;
  match aspActiveRequests routingContext c with
  | None => mret (inr ErrUnsupportedTrafficMode)
  | Some todo => beginASPActiveLoop todo []
  end.

Definition initiateASPActive (routingContext : option Param) : M (option asp_error) :=
  error_of (beginASPActive routingContext).

Definition initiateASPTM : M (option asp_error) :=
  c ← get;
  initiateASPActive (if isIPSPDoubleExchange c then configuredLocalRoutingContextParam c
                     else configuredRoutingContextParam c).

Definition beginASPInactive (routingContext : option Param) : M (Z + asp_error) :=
  let aspInactive := Typed KAspInactive (AspInactive.NewAspInactive (Copy routingContext) None) in
  beginRequest aspInactive requestAspInactive
    (λ request, writePendingControl env request aspInactive).

Definition initiateASPDown : M (Z + asp_error) :=
  let aspDown := Typed KAspDown (AspDown.NewAspDown None) in
  beginRequest aspDown requestAspDown (λ _, writeControl env aspDown).

Definition startsASPTM (previous : State) (c : association) : bool :=
  bool_decide (previous = StateASPDown) && automatic aspProcedureActive c &&
  negb (terminating (a_core c)).

Definition enterLocalIPSPState (s : State) : M (option asp_error) :=
  previous ← gets localIPSPStateValue;
  committed ← commitLocalIPSPState s;
  c ← get;
  if committed && bool_decide (s = StateASPInactive) && startsASPTM previous c
  then initiateASPTM else mret None.

(** ** Checks (asptm.go) *)

Definition validateRoutingContextShape (peer : option Param) : option asp_error :=
  if bool_decide (is_Some peer) && (len (RoutingContexts peer) =? 0)
  then Some (NewInvalidRoutingContextError []) else None.

Definition validateRoutingContextAgainst (peer : option Param) (configured : list Z)
    : option asp_error :=
  match validateRoutingContextShape peer with
  | Some e => Some e
  | None =>
      match peer with
      | None => None
      | Some _ =>
          let offending :=
            List.filter (λ rc, negb (bool_decide (rc ∈ configured))) (RoutingContexts peer) in
          if 0 <? len offending then Some (NewInvalidRoutingContextError offending) else None
      end
  end.

Definition validateLocalRoutingContext (peer : option Param) (c : association)
    : option asp_error :=
  validateRoutingContextAgainst peer (configuredLocalRoutingContexts c).

(** [p.TrafficModeType()]: zero for another tag, and where the value is short. *)
Definition TrafficModeOf (p : Param) : Z :=
  match get_TrafficModeType p with Ok m => m | _ => 0 end.

Definition validateTrafficMode (peer : option Param) : option asp_error :=
  match peer with
  | None => None
  | Some p => if validTrafficMode (TrafficModeOf p) then None else Some ErrUnsupportedTrafficMode
  end.

(** The mode differs from the one configured for a context. *)
Definition mode_differs (trafficModes : trafficModePolicy) (mode rc : Z) : bool :=
  match configured trafficModes rc with Some m => negb (m =? mode) | None => false end.

Definition contextless_mode_differs (trafficModes : trafficModePolicy) (mode : Z) : bool :=
  contextlessModeSet trafficModes && negb (contextlessMode trafficModes =? mode).

Definition validateTrafficModeForRoutingContexts (peer : option Param) (routingContexts : list Z)
    (c : association) : option asp_error :=
  match peer with
  | None => None
  | Some p =>
      let trafficModes := trafficModePolicy_ c in
      let differs := if len routingContexts =? 0
                     then contextless_mode_differs trafficModes (TrafficModeOf p)
                     else existsb (mode_differs trafficModes (TrafficModeOf p)) routingContexts in
      if differs then Some ErrUnsupportedTrafficMode else None
  end.

(** The request does not agree with the mode that an Ack for it names. *)
Definition request_mode_differs (acknowledged : option Param) (mode : Z) (r : pendingRequest)
    : bool :=
  let matched := match acknowledged with
                 | None => r_routingContextOmitted r
                 | Some _ => existsb (λ rc, bool_decide (rc ∈ default ∅ (r_routingContexts r)))
                               (RoutingContexts acknowledged)
                 end in
  matched &&
  match r_msg r with
  | Typed KAspActive m =>
      match AspActive.TrafficModeType m with
      | Some p => negb (TrafficModeOf p =? mode)
      | None => false
      end
  | _ => false
  end.

Definition validateAspActiveAckTrafficMode (ack : AspActiveAck.AspActiveAck) (c : association)
    : option asp_error :=
  match AspActiveAck.TrafficModeType ack with
  | None => None
  | Some p =>
      let mode := TrafficModeOf p in
      if negb (validTrafficMode mode) then Some ErrUnsupportedTrafficMode
      else if existsb (request_mode_differs (AspActiveAck.RoutingContext ack) mode)
                (pendingRequestsLocked requestAspActive (a_tack c))
      then Some ErrUnsupportedTrafficMode
      else
        let named := RoutingContexts (AspActiveAck.RoutingContext ack) in
        let contexts := if len named =? 0 then configuredLocalRoutingContexts c else named in
        let trafficModes := localTrafficModePolicy c in
        if existsb (mode_differs trafficModes mode) contexts then Some ErrUnsupportedTrafficMode
        else if (len contexts =? 0) && contextless_mode_differs trafficModes mode
        then Some ErrUnsupportedTrafficMode
        else None
  end.

(** What an Ack names, and the error for what is not served. *)
Definition answerRoutingContexts (requested : option Param) (unservedAs noKeysAs : list Z → asp_error)
    (c : association) : option Param * option asp_error :=
  let asked := RoutingContexts requested in
  if isIPSPDoubleExchange c && negb (hasPeerIPSPTrafficDirection c) then
    (None, Some (if 0 <? len asked then unservedAs asked else noKeysAs []))
  else
    let ours := configuredRoutingContexts c in
    if len asked =? 0 then
      if len ours =? 0 then
        if hasExplicitlyEmptyASPAuthorization c then (None, Some (noKeysAs [])) else (None, None)
      else (configuredRoutingContextParam c, None)
    else if len ours =? 0 then (None, Some (unservedAs asked))
    else
      let served := List.filter (λ rc, bool_decide (rc ∈ ours)) asked in
      let bad := List.filter (λ rc, negb (bool_decide (rc ∈ ours))) asked in
      if len served =? 0 then (None, Some (unservedAs bad))
      else (Some (NewRoutingContext served),
            if 0 <? len bad then Some (unservedAs bad) else None).

(** [asConfigContextless] of the answer: nothing was named, and the one AS of
    the Association has no Routing Context. *)
Definition contextless_served (served requested : option Param) (rcErr : option asp_error)
    (c : association) : bool :=
  bool_decide (served = None) && bool_decide (rcErr = None :> option asp_error) &&
  bool_decide (requested = None) && (len (configuredRoutingContexts c) =? 0).

Definition unambiguousInactiveAckRoutingContext (c : association) : option Param :=
  match applicationServerInventory true c with
  | [] => None
  | server :: servers =>
      let key := c_ASKey server in
      let dynamic := if isIPSPDoubleExchange c then dynamicLocalASKeys (a_member c)
                     else dynamicPeerASKeys (a_member c) in
      if negb (RoutingContextSet key) then None
      else if existsb (λ s, negb (bool_decide (c_ASKey s = key))) servers then None
      else if existsb (λ k, negb (bool_decide (k = key))) (map_to_list dynamic).*2 then None
      else Some (NewRoutingContext [RoutingContext key])
  end.

(** ** Identity of the peer *)

Definition bad_identifier (p : Param) : bool :=
  negb (Tag p =? AspIdentifier) || negb (len (Data p) =? 4).

Definition identifier_of (p : Param) : Z :=
  match get_AspIdentifier p with Ok v => v | _ => 0 end.

Definition claimPeerASPIdentifier (identifier : option Param) : M (option asp_error) :=
  match identifier with
  | None => mret None
  | Some p =>
      c ← get;
      if hasAS (a_cfg c) &&
         (bool_decide (role (a_cfg c) = RoleIPSP) || negb (hasExplicitlyEmptyASPAuthorization c)) &&
         negb (e_claimASPIdentifier env (identifier_of p))
      then mret (Some ErrInvalidASPIdentifier)
      else
        modify (λ c, c <| a_member ::= λ m, m <| peerASPIdentifier := Copy identifier |> |>);;
        when (hasAS (a_cfg c)) (emit ARefreshASPOrdering);;
        mret None
  end.

Definition resolveASPAuthorization (identifier : option Param) : M (option asp_error) :=
  c ← get;
  let value := identifier_of <$> identifier in
  if authorizationResolved (a_member c)
  then mret (if bool_decide (authorizationIdentifier (a_member c) = value) then None
             else Some ErrInvalidASPIdentifier)
  else
    let configured := asConfigRoutingContexts (ApplicationServers (a_cfg c)) in
    let explicit := hasAuthorizer (a_cfg c) in
    let authorized := if explicit then e_AuthorizeASP env value else configured in
    if existsb (λ rc, negb (bool_decide (rc ∈ configured))) authorized
    then mret (Some ErrInvalidASPIdentifier)
    else
      let owned := List.filter (λ rc, bool_decide (rc ∈ authorized)) (appendNew [] configured) in
      let keys := if explicit && (len owned =? 0) then [] else asKeysForRoutingContexts owned c in
      if hasAS (a_cfg c) && negb (e_activationPolicy env keys)
      then mret (Some ErrInvalidApplicationServerConfig)
      else
        modify (λ c, c <| a_member ::= λ m,
          m <| authorizedRCs := owned |> <| authorizationResolved := true |>
            <| authorizationExplicit := explicit |> <| authorizationIdentifier := value |> |>);;
        mret None.

(** ** ASPSM *)

(** Committing ASP-INACTIVE and halting traffic. *)
Definition standDown : M () :=
  commitState StateASPInactive;;
  noteRoutingContextsInactive [];;
  rcs ← gets configuredRoutingContexts;
  quiesceASPFor rcs;;
  quiesceUnscopedTraffic.

Definition writeAspUpAck : M (option asp_error) :=
  c ← get;
  writeMandatoryControls env [Typed KAspUpAck (AspUpAck.NewAspUpAck (aspIdentifierParam c) None)].

Definition handleAspUpDoubleExchange (previousState : State) (aspUp : AspUp.AspUp)
    : M (option asp_error) :=
  c ← get;
  let single := usesSingleASPSMExchange c in
  let startLocalASPTM := single && startsASPTM (localIPSPStateValue c) c in
  when single
    (noteNoRoutingContextsAcked;;
     commitLocalIPSPState StateASPInactive;;
     quiesceLocalIPSPSSNMTraffic);;
  standDown;;
  ackErr ← writeAspUpAck;
  postNotify;;
  match ackErr with
  | Some e => mret (Some e)
  | None =>
      when single (modify_tack completeRestartASPSM);;
      if single && startLocalASPTM then initiateASPTM
      else mret (if bool_decide (previousState = StateASPActive)
                 then Some (UnexpectedMessageError (Typed KAspUp aspUp)) else None)
  end.

Definition handleAspUp (aspUp : AspUp.AspUp) : M (option asp_error) :=
  c ← get;
  let r := role (a_cfg c) in
  if bool_decide (r = RoleASP) then mret (Some (UnexpectedMessageError (Typed KAspUp aspUp)))
  else if bool_decide (r = RoleSGP) && e_isolatedEntirely env
  then mret (Some ErrManagementBlocking)
  else if negb (recvStream (a_core c) =? 0)
  then mret (Some (InvalidSCTPStreamIDError (recvStream (a_core c))))
  else if match AspUp.AspIdentifier aspUp with Some p => bad_identifier p | None => false end
  then mret (Some ErrInvalidParameterValue)
  else
    try! (if bool_decide (r = RoleSGP)
          then
            try! resolveASPAuthorization (AspUp.AspIdentifier aspUp) ;;
            when (hasAS (a_cfg c)) (emit ARestrictASP);; mret None
          else mret None) ;;
    try! claimPeerASPIdentifier (AspUp.AspIdentifier aspUp) ;;
    let previousState := State_ c in
    if isIPSPDoubleExchange c then handleAspUpDoubleExchange previousState aspUp
    else
      standDown;;
      ackErr ← writeAspUpAck;
      postNotify;;
      match ackErr with
      | Some e => mret (Some e)
      | None =>
          when (bool_decide (r = RoleIPSP)) (modify_tack completeRestartASPSM);;
          mret (if bool_decide (r = RoleSGP) && bool_decide (previousState = StateASPActive)
                then Some (UnexpectedMessageError (Typed KAspUp aspUp)) else None)
      end.

(** The part of [handleAspUpAck] that an IPSP runs once the Ack counts. *)
Definition handleAspUpAckAsIPSP : M (option asp_error) :=
  c ← get;
  if isIPSPDoubleExchange c then
    let previousLocalState := localIPSPStateValue c in
    when (usesSingleASPSMExchange c) (standDown;; postNotify);;
    noteNoRoutingContextsAcked;;
    commitLocalIPSPState StateASPInactive;;
    quiesceLocalIPSPSSNMTraffic;;
    (if startsASPTM previousLocalState c then initiateASPTM else mret None)
  else standDown;; postNotify;; mret None.

Definition handleAspUpAck (aspUpAck : AspUpAck.AspUpAck) : M (option asp_error) :=
  c ← get;
  let r := role (a_cfg c) in
  let unexpected := Some (UnexpectedMessageError (Typed KAspUpAck aspUpAck)) in
  if negb (recvStream (a_core c) =? 0)
  then mret (Some (InvalidSCTPStreamIDError (recvStream (a_core c))))
  else if bool_decide (r = RoleIPSP) &&
          match AspUpAck.AspIdentifier aspUpAck with Some p => bad_identifier p | None => false end
  then mret (Some ErrInvalidParameterValue)
  else
    try! (if bool_decide (r = RoleIPSP)
          then claimPeerASPIdentifier (AspUpAck.AspIdentifier aspUpAck) else mret None) ;;
    solicited ← with_tack (stopTAck requestAspUp);
    c ← get;
    if bool_decide (r = RoleSGP) then mret unexpected
    else if negb solicited && isPeerDownSupersededASPUpAck (a_tack c) then mret unexpected
    else if negb solicited && isRepeatedASPUpAcknowledgement (a_tack c) then mret None
    else if bool_decide (r = RoleIPSP) then handleAspUpAckAsIPSP
    else if solicited then mret None
    else if bool_decide (State_ c = StateASPActive)
    then set_core (λ k, k <| resumeStray := true |>);; mret unexpected
    else mret None.

(** The condition on the role of [supersedePeerDownProcedures]. *)
Definition supersedes (c : association) : bool :=
  bool_decide (role (a_cfg c) = RoleIPSP) &&
  negb (isIPSPDoubleExchange c && negb (usesSingleASPSMExchange c)).

Definition writeAspDownAck : M (option asp_error) :=
  writeMandatoryControls env [Typed KAspDownAck (AspDownAck.NewAspDownAck None)].

Definition handleAspDownDoubleExchange : M (option asp_error) :=
  c ← get;
  let single := usesSingleASPSMExchange c in
  superseded ← with_tack (supersedePeerDownProcedures (supersedes c));
  commitPeerDownState;;
  when single (commitLocalIPSPState StateASPDown;; noteNoRoutingContextsAcked);;
  quiesceASPDown;;
  quiesceUnscopedTraffic;;
  when single quiesceLocalIPSPSSNMTraffic;;
  ackErr ← writeAspDownAck;
  postNotify;;
  modify_tack (finishPeerDownProcedures superseded);;
  mret ackErr.

Definition handleAspDown (aspDown : AspDown.AspDown) : M (option asp_error) :=
  c ← get;
  let r := role (a_cfg c) in
  if negb (recvStream (a_core c) =? 0)
  then mret (Some (InvalidSCTPStreamIDError (recvStream (a_core c))))
  else if bool_decide (r = RoleASP)
  then mret (Some (UnexpectedMessageError (Typed KAspDown aspDown)))
  else if isIPSPDoubleExchange c then handleAspDownDoubleExchange
  else
    superseded ← with_tack (supersedePeerDownProcedures (supersedes c));
    (if bool_decide (r = RoleIPSP) then commitPeerDownState else commitState StateASPDown);;
    quiesceASPDown;;
    quiesceUnscopedTraffic;;
    ackErr ← writeAspDownAck;
    postNotify;;
    modify_tack (finishPeerDownProcedures superseded);;
    mret ackErr.

Definition handleAspDownAckAsIPSP : M (option asp_error) :=
  c ← get;
  if isIPSPDoubleExchange c then
    claim ← with_tack (λ t, let '(a, d, t) := claimASPDownAcknowledgement t in ((a, d), t));
    if claim.2 : bool then mret (Some errDuplicateASPDownAck)
    else
      commitLocalIPSPState StateASPDown;;
      noteNoRoutingContextsAcked;;
      quiesceLocalIPSPSSNMTraffic;;
      when (usesSingleASPSMExchange c)
        (commitState StateASPDown;; quiesceASPDown;; quiesceUnscopedTraffic;; postNotify);;
      modify_tack (complete claim.1);;
      mret None
  else
    acknowledgement ← with_tack (claimTAckAcknowledgement requestAspDown None);
    commitState StateASPDown;;
    quiesceASPDown;;
    quiesceUnscopedTraffic;;
    postNotify;;
    modify_tack (complete acknowledgement);;
    mret None.

Definition handleAspDownAck (aspDownAck : AspDownAck.AspDownAck) : M (option asp_error) :=
  c ← get;
  let r := role (a_cfg c) in
  let unexpected := Some (UnexpectedMessageError (Typed KAspDownAck aspDownAck)) in
  if negb (recvStream (a_core c) =? 0)
  then mret (Some (InvalidSCTPStreamIDError (recvStream (a_core c))))
  else if bool_decide (r = RoleSGP) then mret unexpected
  else if bool_decide (r = RoleIPSP) then handleAspDownAckAsIPSP
  else
    solicited ← with_tack (stopTAck requestAspDown);
    if solicited : bool then mret None
    else
      let st := State_ c in
      if bool_decide (st = StateASPInactive) || bool_decide (st = StateASPActive)
      then set_core (λ k, k <| resumeTo := st |>);; mret unexpected
      else mret None.

(** ** ASPTM *)

(** This Association's part of [overrideOtherASPs]; displacing the others is
    [AOverride]. *)
Definition overrideOtherASPs (activated : list Z) : M () :=
  c ← get;
  when (hasAS (a_cfg c))
    (forM_ (asKeysForRoutingContexts activated c) (λ key,
       when (e_isOverride env key)
         (committed ← commitPeerRoutingContextsActive
            (if RoutingContextSet key then [RoutingContext key] else []);
          when committed (emit (AOverride key))))).

Definition handleAspActive (aspActive : AspActive.AspActive) : M (option asp_error) :=
  c ← get;
  let r := role (a_cfg c) in
  let named := AspActive.RoutingContext aspActive in
  let mode := AspActive.TrafficModeType aspActive in
  let unexpected := Some (UnexpectedMessageError (Typed KAspActive aspActive)) in
  if bool_decide (r = RoleASP) then mret unexpected
  else if bool_decide (State_ c = StateASPDown) then mret unexpected
  else
    try! mret (validateRoutingContextShape named) ;;
    let requested := if 0 <? len (RoutingContexts named) then RoutingContexts named
                     else configuredRoutingContexts c in
    if bool_decide (r = RoleSGP) && negb (e_servicable env (asKeysForRoutingContexts requested c))
    then mret (Some ErrManagementBlocking)
    else
    try! mret (validateTrafficMode mode) ;;
    let '(served, rcErr) :=
      answerRoutingContexts named NewNoConfiguredASError NewInvalidRoutingContextError c in
    try! mret (if bool_decide (is_Some served)
               then validateTrafficModeForRoutingContexts mode (RoutingContexts served) c
               else None) ;;
    let refused := bool_decide (is_Some rcErr) && bool_decide (served = None) in
    if refused && negb (bool_decide (State_ c = StateASPActive)) then mret rcErr
    else
      let acknowledged := if refused then Copy named else served in
      let contextless := contextless_served served named rcErr c in
      let activates := bool_decide (is_Some served) || contextless in
      let servedContexts := RoutingContexts served in
      let ownMode := match mode with
                     | Some _ => Copy mode
                     | None => contextlessParam (trafficModePolicy_ c)
                     end in
      match (if activates && hasAS (a_cfg c) then e_agreeTrafficMode env servedContexts mode
             else inl ownMode) with
      | inr closed => mret (Some (refusal closed))
      | inl acknowledgedMode =>
          try! (if bool_decide (is_Some served)
                then emit AMTP3RestartStatus;;
                     mret (if e_mtp3RestartStatus env servedContexts then None else Some ErrWrite)
                else mret None) ;;
          try! writeMandatoryControls env
                 [Typed KAspActiveAck (AspActiveAck.NewAspActiveAck acknowledgedMode acknowledged None)] ;;
          when activates
            (commitPeerRoutingContextsActive servedContexts;;
             when ((0 <? len servedContexts) || contextless) (overrideOtherASPs servedContexts));;
          mret rcErr
      end.

Definition handleAspActiveAckAsIPSP (aspAcAck : AspActiveAck.AspActiveAck)
    : M (option asp_error) :=
  c ← get;
  let named := AspActiveAck.RoutingContext aspAcAck in
  if isIPSPDoubleExchange c then
    acknowledgement ← with_tack (claimTAckAcknowledgement requestAspActive named);
    noteRoutingContextsAcked named;;
    modify_tack (complete acknowledgement);;
    enterLocalIPSPState StateASPActive
  else
    let routingContexts := match named with
                           | None => configuredRoutingContexts c
                           | Some _ => RoutingContexts named
                           end in
    match (if hasAS (a_cfg c)
           then e_agreeTrafficMode env routingContexts (AspActiveAck.TrafficModeType aspAcAck)
           else inl None) with
    | inr closed => mret (Some (refusal closed))
    | inl _ =>
        acknowledgement ← with_tack (claimTAckAcknowledgement requestAspActive named);
        commitPeerRoutingContextsActive routingContexts;;
        overrideOtherASPs routingContexts;;
        modify_tack (complete acknowledgement);;
        mret None
    end.

Definition handleAspActiveAck (aspAcAck : AspActiveAck.AspActiveAck) : M (option asp_error) :=
  c ← get;
  let r := role (a_cfg c) in
  let named := AspActiveAck.RoutingContext aspAcAck in
  let unexpected := Some (UnexpectedMessageError (Typed KAspActiveAck aspAcAck)) in
  if bool_decide (r = RoleSGP) then mret unexpected
  else if isRepeatedASPTMAcknowledgement requestAspActive named (a_tack c) then
    try! mret (validateAspActiveAckTrafficMode aspAcAck c) ;;
    mret (validateLocalRoutingContext named c)
  else if rejectStaleASPTMAck (terminating (a_core c)) requestAspActive (a_tack c)
  then mret unexpected
  else if negb (bool_decide (localState c = StateASPInactive) ||
                bool_decide (localState c = StateASPActive))
  then mret unexpected
  else
    try! mret (validateAspActiveAckTrafficMode aspAcAck c) ;;
    try! mret (validateLocalRoutingContext named c) ;;
    try! mret (validateTAckRoutingContexts requestAspActive named (a_tack c)) ;;
    if bool_decide (r = RoleIPSP) then handleAspActiveAckAsIPSP aspAcAck
    else
      noteRoutingContextsAcked named;;
      with_tack (acknowledgeTAck requestAspActive named);;
      mret None.

Definition handleAspInactive (aspInactive : AspInactive.AspInactive) : M (option asp_error) :=
  c ← get;
  let r := role (a_cfg c) in
  let named := AspInactive.RoutingContext aspInactive in
  let unexpected := Some (UnexpectedMessageError (Typed KAspInactive aspInactive)) in
  if bool_decide (r = RoleASP) then mret unexpected
  else if bool_decide (State_ c = StateASPDown) then mret unexpected
  else
    try! mret (validateRoutingContextShape named) ;;
    let '(served, rcErr) :=
      answerRoutingContexts named NewInvalidRoutingContextError NewNoConfiguredASError c in
    let contextless := contextless_served served named rcErr c in
    let refused := bool_decide (is_Some rcErr) && bool_decide (served = None) in
    if refused && negb (bool_decide (State_ c = StateASPInactive)) then mret rcErr
    else
      let acknowledged := if refused then Copy named else served in
      let stands := (bool_decide (is_Some served) || contextless) &&
                    bool_decide (State_ c = StateASPActive) in
      let routingContexts := RoutingContexts served in
      when stands
        (noteRoutingContextsInactive routingContexts;; quiesceASPFor routingContexts);;
      quiesceUnscopedTraffic;;
      ackErr ← writeMandatoryControls env
                 [Typed KAspInactiveAck (AspInactiveAck.NewAspInactiveAck acknowledged None)];
      when stands postNotify;;
      mret (match ackErr with Some e => Some e | None => rcErr end).

Definition handleAspInactiveAckAsIPSP (previousState : State) (acknowledgedContext wire : option Param)
    : M (option asp_error) :=
  c ← get;
  let wasActive := bool_decide (previousState = StateASPActive) in
  acknowledgement ←
    with_tack (claimTAckAcknowledgementForScope requestAspInactive acknowledgedContext wire);
  if isIPSPDoubleExchange c then
    (if wasActive then noteRoutingContextsUnacked acknowledgedContext
     else noteNoRoutingContextsAcked);;
    s ← gets stateForAcknowledgedRoutingContexts;
    commitLocalIPSPState s;;
    quiesceLocalIPSPSSNMTraffic;;
    modify_tack (complete acknowledgement);;
    mret None
  else
    let routingContexts := match acknowledgedContext with
                           | None => configuredRoutingContexts c
                           | Some _ => RoutingContexts acknowledgedContext
                           end in
    noteRoutingContextsInactive (if wasActive then routingContexts else []);;
    s ← gets stateForActiveRoutingContexts;
    commitState s;;
    quiesceASPFor (if wasActive then routingContexts else configuredRoutingContexts c);;
    quiesceUnscopedTraffic;;
    postNotify;;
    modify_tack (complete acknowledgement);;
    mret None.

Definition handleAspInactiveAck (aspAcAck : AspInactiveAck.AspInactiveAck) : M (option asp_error) :=
  c ← get;
  let r := role (a_cfg c) in
  let wire := AspInactiveAck.RoutingContext aspAcAck in
  let unexpected := Some (UnexpectedMessageError (Typed KAspInactiveAck aspAcAck)) in
  if bool_decide (r = RoleSGP) then mret unexpected
  else
    let acknowledgedContext := match wire with
                               | Some _ => wire
                               | None => unambiguousInactiveAckRoutingContext c
                               end in
    if isRepeatedASPTMAcknowledgementForScope requestAspInactive acknowledgedContext wire (a_tack c)
    then mret (validateLocalRoutingContext acknowledgedContext c)
    else if rejectStaleASPTMAck (terminating (a_core c)) requestAspInactive (a_tack c)
    then mret unexpected
    else
      let previousState := localState c in
      if negb (bool_decide (previousState = StateASPDown) ||
               bool_decide (previousState = StateASPInactive) ||
               bool_decide (previousState = StateASPActive))
      then mret unexpected
      else
        try! mret (validateLocalRoutingContext acknowledgedContext c) ;;
        try! mret (validateTAckRoutingContexts requestAspInactive acknowledgedContext (a_tack c)) ;;
        if bool_decide (r = RoleIPSP)
        then handleAspInactiveAckAsIPSP previousState acknowledgedContext wire
        else
          let wasActive := bool_decide (previousState = StateASPActive) in
          (if wasActive then noteRoutingContextsUnacked acknowledgedContext
           else noteNoRoutingContextsAcked);;
          acknowledgement ←
            with_tack (claimTAckAcknowledgementForScope requestAspInactive acknowledgedContext wire);
          modify_tack (complete acknowledgement);;
          if solicited acknowledgement || negb wasActive then mret None
          else
            s ← gets stateForAcknowledgedRoutingContexts;
            if bool_decide (s = StateASPActive) then initiateASPActive acknowledgedContext
            else set_core (λ k, k <| resumeStray := true |>);; mret None.
End procedures.
