(* ===== verification/AspMachine.v ===== *)
(** * The Association as a state machine (fsm.go, errors.go, tack.go, restart.go)

    The dispatcher of received messages, the monitor with the entry actions of
    each state, the answers to errors, the retransmission timer, the restart of
    the SCTP association, the procedures an application starts, and the end of
    the Association; [step] is one of these in any order.

    The dispatcher hands states to the monitor over an unbuffered channel: it
    handles no further message until the monitor has received the state, and
    the entry action runs after that, possibly at the same time as the next
    handler.  The handlers of DATA, SSNM, RKM and Error messages leave this
    state alone; their error is the environment's. *)

From coqutil Require Import Datatypes.RecordSettersUsingExistingGetters.
From S2P Require Import Prelude Params ParamsFacts ParamValues Inventory AppServer Header Codec.
From S2P Require Import MsgData MsgSsnm MsgAspsm MsgAsptm MsgMgmt Message Compat.
From S2P Require Import Tack Association AspProcedures.
#[local] Open Scope Z_scope.

Section machine.
Context (env : environment).

(** ** The end (association.go) *)

Definition endWith : M () :=
  c ← get;
  when (negb (ended (a_core c)))
    (set_core (λ k, k <| ended := true |>);;
     modify_tack stopAllTAck;;
     let previousState := state (a_core c) in
     set_core (λ k, k <| state := StateASPDown |> <| localIPSPState := StateASPDown |>
                      <| appliedState := StateASPDown |>);;
     when (isIPSPDoubleExchange c)
       (set_scope (λ _, mkScopes ∅ true false ∅ ∅ true true false ∅));;
     notifyASPRouteStateChanged;;
     when (negb (bool_decide (previousState = StateASPDown))) (recordStateChange StateASPDown);;
     flushStateChanges true;;
     emit APauseDestinations;;
     closeStateChanges;;
     emit AManagement).

(** ** Entry actions (fsm.go) *)

Definition handleStateUpdateAsIPSPDoubleExchange (current : State) (entering : bool)
    : M (option asp_error) :=
  match current with
  | StateASPDown =>
      c ← get;
      let peerDown := peerDownAwaitingEntry (a_core c) in
      set_core (λ k, k <| peerDownAwaitingEntry := false |>);;
      when entering forgetActiveRoutingContexts;;
      if negb entering || peerDown || terminating (a_core c) ||
         negb (automatic aspProcedureUp c) ||
         negb (bool_decide (localIPSPState (a_core c) = StateASPDown))
      then mret None else initiateASPSM env
  | StateASPInactive => when entering forgetActiveRoutingContexts;; mret None
  | StateASPActive => mret None
  | StateSCTPCDI | StateSCTPRI => mret (Some ErrSCTPNotAlive)
  | stateUnchanged => mret (Some ErrInvalidState)
  end.

Definition handleStateUpdateAsIPSPSingleExchange (current previous : State) (entering : bool)
    : M (option asp_error) :=
  c ← get;
  if bool_decide (IPSP (a_cfg c) = None) then mret (Some ErrUnsupportedIPSPExchangeModel)
  else
    match current with
    | StateASPDown =>
        let peerDown := peerDownAwaitingEntry (a_core c) in
        set_core (λ k, k <| peerDownAwaitingEntry := false |>);;
        when entering forgetActiveRoutingContexts;;
        if negb entering || peerDown || terminating (a_core c) ||
           negb (automatic aspProcedureUp c)
        then mret None else initiateASPSM env
    | StateASPInactive =>
        when entering forgetActiveRoutingContexts;;
        if negb entering || negb (bool_decide (previous = StateASPDown)) ||
           negb (automatic aspProcedureActive c)
        then mret None else initiateASPTM env
    | StateASPActive => mret None
    | StateSCTPCDI | StateSCTPRI => mret (Some ErrSCTPNotAlive)
    | stateUnchanged => mret (Some ErrInvalidState)
    end.

Definition handleStateUpdateAsASP (current previous : State) (entering : bool)
    : M (option asp_error) :=
  match current with
  | StateASPDown =>
      forgetAckedRoutingContextsWithoutTransferBarrier;;
      c ← get;
      if negb entering || terminating (a_core c) || negb (automatic aspProcedureUp c)
      then mret None else initiateASPSM env
  | StateASPInactive =>
      c ← get;
      if entering && resumeStray (a_core c)
      then set_core (λ k, k <| resumeStray := false |>);; initiateASPTM env
      else if negb entering || negb (bool_decide (previous = StateASPDown)) then mret None
      else if bool_decide (resumeTo (a_core c) = StateASPInactive) then mret None
      else if negb (automatic aspProcedureActive c) then mret None
      else initiateASPTM env
  | StateASPActive => mret None
  | StateSCTPCDI | StateSCTPRI => mret (Some ErrSCTPNotAlive)
  | stateUnchanged => mret (Some ErrInvalidState)
  end.

Definition handleStateUpdateAsSGP (current : State) (entering : bool) : M (option asp_error) :=
  match current with
  | StateASPDown | StateASPInactive => when entering forgetActiveRoutingContexts;; mret None
  | StateASPActive => mret None
  | StateSCTPCDI | StateSCTPRI => mret (Some ErrSCTPNotAlive)
  | stateUnchanged => mret (Some ErrInvalidState)
  end.

Definition entryAction (current previous : State) (entering : bool) : M (option asp_error) :=
  c ← get;
  match role (a_cfg c) with
  | RoleASP => handleStateUpdateAsASP current previous entering
  | RoleSGP => handleStateUpdateAsSGP current entering
  | RoleIPSP => if isIPSPDoubleExchange c
                then handleStateUpdateAsIPSPDoubleExchange current entering
                else handleStateUpdateAsIPSPSingleExchange current previous entering
  end.

Definition applyStateUpdateLocked (current : State) : M (option asp_error) :=
  c ← get;
  if ended (a_core c) then mret None
  else
    let k := a_core c in
    let previous := if stateEntered k then appliedState k else state k in
    let entering := negb (bool_decide (current = previous)) || negb (stateEntered k) in
    set_core (λ k, k <| stateEntered := true |> <| appliedState := current |>);;
    when (negb (bool_decide (state k = current))) (recordStateChange current);;
    set_core (λ k, k <| state := current |>);;
    flushStateChanges false;;
    entryAction current previous entering.

Definition applyStateUpdate (current : State) : M (option asp_error) :=
  c ← get;
  err ← applyStateUpdateLocked current;
  when (negb (bool_decide (state (a_core c) = current))) notifyASPRouteStateChanged;;
  mret err.

Definition applyPublishedStateUpdate (current : State) : M (bool * option asp_error) :=
  c ← get;
  if ended (a_core c) then mret (false, None)
  else
    flushStateChanges false;;
    if negb (bool_decide (state (a_core c) = current)) then mret (false, None)
    else err ← applyStateUpdateLocked current; mret (true, err).

Definition handleStateUpdateFrom (current : State) (published : bool) : M (option asp_error) :=
  if bool_decide (current = stateUnchanged) && negb published then mret None
  else
    '(applied, err) ← (if published then applyPublishedStateUpdate current
                       else err ← applyStateUpdate current; mret (true, err));
    if negb applied then mret err
    else
      c ← get;
      when (hasAS (a_cfg c)) (emit (AASPStateChanged current));;
      notifyReady;;
      c ← get;
      when (bool_decide (current = StateASPActive) && bool_decide (State_ c = StateASPActive))
        allowHeartbeat;;
      mret err.

Definition handleStateUpdate (current : State) : M (option asp_error) :=
  handleStateUpdateFrom current false.
Definition handlePublishedStateUpdate (current : State) : M (option asp_error) :=
  handleStateUpdateFrom current true.

(** ** Answers to errors (errors.go) *)

Definition routingContextOf (m : M3UA) : option Param :=
  match m with
  | Typed KData m => Data.RoutingContext m
  | Typed KDestinationUnavailable m => DestinationUnavailable.RoutingContext m
  | Typed KDestinationAvailable m => DestinationAvailable.RoutingContext m
  | Typed KDestinationStateAudit m => DestinationStateAudit.RoutingContext m
  | Typed KSignallingCongestion m => SignallingCongestion.RoutingContext m
  | Typed KDestinationUserPartUnavailable m => DestinationUserPartUnavailable.RoutingContext m
  | Typed KDestinationRestricted m => DestinationRestricted.RoutingContext m
  | Typed KAspActive m => AspActive.RoutingContext m
  | Typed KAspActiveAck m => AspActiveAck.RoutingContext m
  | Typed KAspInactive m => AspInactive.RoutingContext m
  | Typed KAspInactiveAck m => AspInactiveAck.RoutingContext m
  | Typed KNotify m => Notify.RoutingContext m
  | _ => None
  end.

Definition networkAppearanceOf (m : M3UA) : option Param :=
  match m with
  | Typed KData m => Data.NetworkAppearance m
  | Typed KDestinationUnavailable m => DestinationUnavailable.NetworkAppearance m
  | Typed KDestinationAvailable m => DestinationAvailable.NetworkAppearance m
  | Typed KDestinationStateAudit m => DestinationStateAudit.NetworkAppearance m
  | Typed KSignallingCongestion m => SignallingCongestion.NetworkAppearance m
  | Typed KDestinationUserPartUnavailable m => DestinationUserPartUnavailable.NetworkAppearance m
  | Typed KDestinationRestricted m => DestinationRestricted.NetworkAppearance m
  | Typed KError m => Error.NetworkAppearance m
  | _ => None
  end.

Definition rawClass (raw : bytes) : Z :=
  if len raw <? 4 then 0 else default 0 (byte_to_Z <$> raw !! 2%nat).
Definition rawType (raw : bytes) : Z :=
  if len raw <? 4 then 0 else default 0 (byte_to_Z <$> raw !! 3%nat).

Definition maxDiagnosticInformationLen : Z := 65535 - 4.
Definition diagnosticInformation (raw : bytes) : bytes :=
  take (Z.to_nat maxDiagnosticInformationLen) raw.
Definition first40 (raw : bytes) : bytes := take 40 (diagnosticInformation raw).
Definition diagnosticInformationFor (octets : bytes) : option Param :=
  if len octets =? 0 then None else Some (NewDiagnosticInformation octets).

Definition NewParameterFaultErrorFor (raw : bytes) (cause : msg_error) : asp_error :=
  ParameterFaultError raw
    match cause with
    | Header.ErrMissingParameter => ErrMissingParameterCode
    | ParamsError Params.ErrInvalidValue => Params.ErrInvalidParameterValue
    | Header.ErrInvalidMessageLength => ErrProtocolError
    | ParamsError Params.ErrInvalidLength => ErrParameterFieldError
    | _ => ErrUnexpectedParameter
    end.

(** The Error message that answers an error; [None] ends the Association. *)
Definition errorAnswer (received : option (M3UA * bytes)) (e : asp_error) (c : association)
    : option Error.Error :=
  let new code rtCtx nwApr diag :=
    Some (Error.NewError (Some (NewErrorCode code)) rtCtx nwApr None diag) in
  let '(rtCtx, nwApr) :=
    match received with
    | Some (m, _) => (Copy (routingContextOf m), Copy (networkAppearanceOf m))
    | None =>
        let '(na, set) := asConfigNetworkAppearance (applicationServerInventory false c) in
        (configuredRoutingContextParam c, networkAppearanceParam na set)
    end in
  match e with
  | InvalidVersionError _ raw =>
      new Params.InvalidVersionError None None (diagnosticInformationFor (diagnosticInformation raw))
  | UnsupportedClassError raw =>
      new UnsupportedMessageErrorClass None None (Some (NewDiagnosticInformation (first40 raw)))
  | UnsupportedMessageError raw =>
      new UnsupportedMessageErrorType None None (Some (NewDiagnosticInformation (first40 raw)))
  | ErrManagementBlocking => new ErrRefusedManagementBlocking rtCtx nwApr None
  | ErrInvalidParameterValue => new Params.ErrInvalidParameterValue rtCtx nwApr None
  | ParameterFaultError raw code => new code None None (diagnosticInformationFor (first40 raw))
  | UnexpectedMessageError m =>
      let raw := match received with Some (_, raw) => raw | None => [] end in
      new Params.UnexpectedMessageError (Copy (routingContextOf m)) (Copy (networkAppearanceOf m))
        (Some (NewDiagnosticInformation (first40 raw)))
  | InvalidSCTPStreamIDError _ => new ErrInvalidStreamIdentifier None None None
  | ErrInvalidASPIdentifier => new ErrInvalidAspIdentifier None None None
  | ErrUnsupportedTrafficMode => new ErrUnsupportedTrafficModeType rtCtx nwApr None
  | RoutingContextError code contexts =>
      new code (if 0 <? len contexts then Some (NewRoutingContext contexts) else None) nwApr None
  | ErrMissingRoutingContext => new ErrMissingParameterCode None nwApr None
  | ErrMissingStatus => new ErrMissingParameterCode None None None
  | _ => None
  end.

(** [handleErrors]; the error it returns ends the Association. *)
Definition handleErrors (received : option (M3UA * bytes)) (e : asp_error)
    : M (option asp_error) :=
  c ← get;
  match errorAnswer received e c with
  | None => mret (Some e)
  | Some res => writeControl env (Typed KError res)
  end.

(** ** Notify (management.go) *)

Definition statusOf (p : Param) : Z := match get_Status p with Ok v => v | _ => 0 end.

Definition is_defined_status (status : Z) : bool :=
  (status =? AsStateInactive) || (status =? AsStateActive) || (status =? AsStatePending) ||
  (status =? InsufficientAspResources) || (status =? AlternateAspActive) ||
  (status =? AspFailure).

Definition handleNotify (n : Notify.Notify) : M (option asp_error) :=
  c ← get;
  let unexpected := Some (UnexpectedMessageError (Typed KNotify n)) in
  match localState c with
  | StateSCTPCDI | StateSCTPRI | StateASPDown => mret unexpected
  | _ =>
      if bool_decide (role (a_cfg c) = RoleSGP) then mret unexpected
      else
        match Notify.Status n with
        | None => mret (Some ErrMissingStatus)
        | Some st =>
            if match Notify.AspIdentifier n with
               | Some p => (Tag p =? AspIdentifier) && negb (len (Data p) =? 4)
               | None => false
               end then mret (Some ErrInvalidParameterValue)
            else if negb (is_defined_status (statusOf st)) then mret (Some ErrInvalidParameterValue)
            else
              try! mret (validateLocalRoutingContext (Notify.RoutingContext n) c) ;;
              if bool_decide (Notify.RoutingContext n = None) &&
                 (len (configuredLocalRoutingContexts c) =? 0) &&
                 hasExplicitlyEmptyASPAuthorization c
              then mret (Some (NewNoConfiguredASError []))
              else emit AManagement;; mret None
        end
  end.

Definition overriddenByAlternateAsp (n : Notify.Notify) (c : association) : bool :=
  negb (bool_decide (role (a_cfg c) = RoleSGP)) &&
  match Notify.Status n with Some st => statusOf st =? AlternateAspActive | None => false end.

(** Whether the whole Association stands down. *)
Definition overrideScope (n : Notify.Notify) : M bool :=
  c ← get;
  let named := RoutingContexts (Notify.RoutingContext n) in
  let configured := configuredLocalRoutingContexts c in
  let wholeAssociation := (len named =? 0) || (len configured =? 0) ||
    forallb (λ rc, bool_decide (rc ∈ named)) configured in
  if negb (bool_decide (role (a_cfg c) = RoleIPSP)) then
    when (negb wholeAssociation) (noteRoutingContextsOverridden named);;
    mret wholeAssociation
  else if isIPSPDoubleExchange c then
    if wholeAssociation then
      noteNoRoutingContextsAcked;;
      commitLocalIPSPState StateASPInactive;;
      quiesceLocalIPSPSSNMTraffic;;
      mret true
    else
      noteRoutingContextsOverridden named;;
      s ← gets stateForAcknowledgedRoutingContexts;
      let inactive := bool_decide (s = StateASPInactive) in
      (if inactive then commitLocalIPSPState StateASPInactive else mret false);;
      quiesceLocalIPSPSSNMTraffic;;
      mret inactive
  else
    (if wholeAssociation
     then commitState StateASPInactive;; noteRoutingContextsInactive []
     else noteRoutingContextsOverridden named);;
    quiesceASPFor (if wholeAssociation then configured else named);;
    quiesceUnscopedTraffic;;
    postNotify;;
    s ← gets stateForActiveRoutingContexts;
    mret (wholeAssociation || bool_decide (s = StateASPInactive)).

(** ** Heartbeat (asptm.go) *)

Definition setBeatData (data : bytes) : M () := modify (λ c, c <| a_beatData := data |>).

Definition consumeBeatData : M bool :=
  c ← get;
  if len (a_beatData c) =? 0 then mret false else setBeatData [];; mret true.

Definition handleHeartbeat (beat : Heartbeat.Heartbeat) : M (option asp_error) :=
  let ack := Heartbeat.HeartbeatData beat in
  writeControl env (Typed KHeartbeatAck
    (HeartbeatAck.SetLength
       (let m := HeartbeatAck.NewHeartbeatAck (Copy ack) in
        HeartbeatAck.mk (HeartbeatAck.header m) (HeartbeatAck.HeartbeatData m)
          (Copy <$> Heartbeat.Others beat)))).

Definition handleHeartbeatAck (beatAck : HeartbeatAck.HeartbeatAck) : M (option asp_error) :=
  c ← get;
  let unexpected := Some (UnexpectedMessageError (Typed KHeartbeatAck beatAck)) in
  if len (a_beatData c) =? 0 then mret unexpected
  else
    match HeartbeatAck.HeartbeatData beatAck with
    | None => mret unexpected
    | Some p =>
        if negb (bool_decide (get_HeartbeatData p = a_beatData c)) then mret unexpected
        else consumed ← consumeBeatData; mret (if consumed : bool then None else unexpected)
    end.

(** ** The dispatcher (fsm.go) *)

Definition implementedClass (class : Z) : bool :=
  (class =? MsgClassManagement) || (class =? MsgClassTransfer) || (class =? MsgClassSSNM) ||
  (class =? MsgClassASPSM) || (class =? MsgClassASPTM) || (class =? MsgClassRKM).

Definition is_unexpected (e : asp_error) : bool :=
  match e with UnexpectedMessageError _ => true | _ => false end.
Definition is_routing_context (e : asp_error) : bool :=
  match e with RoutingContextError _ _ => true | _ => false end.

(** A handler whose error is reported, and what is published then. *)
Definition handled (m : M3UA) (raw : bytes) (handler : M (option asp_error))
    (onError : asp_error → M State) (onSuccess : M State) : M () :=
  err ← handler;
  match err with
  | Some e => sendErrForMessage m raw e;; s ← onError e; sendState s
  | None => s ← onSuccess; sendState s
  end.

Definition unchanged_on_error : asp_error → M State := λ _, mret stateUnchanged.

(** The state a message about the other direction of a Double Exchange leaves. *)
Definition unless_double (single : association → bool) (s : State) : M State :=
  c ← get; mret (if isIPSPDoubleExchange c && negb (single c) then stateUnchanged else s).

Definition dispatch (m : M3UA) (raw : bytes) : M () :=
  match m with
  | Typed KAspUp msg =>
      handled m raw (handleAspUp env msg)
        (λ e, c ← get;
          mret (if is_unexpected e &&
                   (bool_decide (role (a_cfg c) = RoleSGP) || isIPSPDoubleExchange c)
                then StateASPInactive else stateUnchanged))
        (mret StateASPInactive)
  | Typed KAspUpAck msg =>
      handled m raw (handleAspUpAck env msg)
        (λ e, c ← get;
          mret (if is_unexpected e && bool_decide (role (a_cfg c) = RoleASP)
                then StateASPInactive else stateUnchanged))
        (unless_double usesSingleASPSMExchange StateASPInactive)
  | Typed KAspDown msg =>
      handled m raw (handleAspDown env msg) unchanged_on_error (mret StateASPDown)
  | Typed KAspDownAck msg =>
      err ← handleAspDownAck msg;
      match err with
      | Some errDuplicateASPDownAck => sendState stateUnchanged
      | Some e =>
          sendErrForMessage m raw e;;
          c ← get;
          sendState (if is_unexpected e && bool_decide (role (a_cfg c) = RoleASP)
                     then StateASPDown else stateUnchanged)
      | None => s ← unless_double usesSingleASPSMExchange StateASPDown; sendState s
      end
  | Typed KAspActive msg =>
      handled m raw (handleAspActive env msg)
        (λ e, c ← get;
          let server := negb (bool_decide (role (a_cfg c) = RoleASP)) in
          mret (if is_unexpected e && server && negb (bool_decide (State_ c = StateASPDown))
                then StateASPActive
                else if server && is_routing_context e &&
                        bool_decide (stateForActiveRoutingContexts c = StateASPActive)
                then StateASPActive else stateUnchanged))
        (mret StateASPActive)
  | Typed KAspActiveAck msg =>
      handled m raw (handleAspActiveAck env msg) unchanged_on_error
        (unless_double (λ _, false) StateASPActive)
  | Typed KAspInactive msg =>
      handled m raw (handleAspInactive env msg)
        (λ e, c ← get;
          let server := negb (bool_decide (role (a_cfg c) = RoleASP)) in
          mret (if is_unexpected e && server && negb (bool_decide (State_ c = StateASPDown))
                then stateForActiveRoutingContexts c
                else if server && is_routing_context e then stateForActiveRoutingContexts c
                else stateUnchanged))
        (gets stateForActiveRoutingContexts)
  | Typed KAspInactiveAck msg =>
      handled m raw (handleAspInactiveAck env msg) unchanged_on_error
        (c ← get;
         mret (if isIPSPDoubleExchange c then stateUnchanged
               else if bool_decide (role (a_cfg c) = RoleIPSP) then stateForActiveRoutingContexts c
               else if bool_decide (stateForAcknowledgedRoutingContexts c = StateASPActive)
               then StateASPActive else StateASPInactive))
  | Typed KHeartbeat msg =>
      handled m raw (handleHeartbeat msg) unchanged_on_error (mret stateUnchanged)
  | Typed KHeartbeatAck msg =>
      handled m raw (handleHeartbeatAck msg) unchanged_on_error (mret stateUnchanged)
  | Typed KNotify msg =>
      handled m raw (handleNotify msg) unchanged_on_error
        (c ← get;
         if overriddenByAlternateAsp msg c
         then whole ← overrideScope msg;
              mret (if (whole : bool) && negb (isIPSPDoubleExchange c) then StateASPInactive
                    else stateUnchanged)
         else mret stateUnchanged)
  | Typed _ _ =>
      handled m raw (mret (e_otherHandler env m)) unchanged_on_error (mret stateUnchanged)
  | GenericMessage _ =>
      sendErr (if implementedClass (message_Class m) then UnsupportedMessageError raw
               else UnsupportedClassError raw);;
      sendState stateUnchanged
  end.

Definition handleReceivedSignals (m : M3UA) (raw : bytes) : M () :=
  c ← get;
  if ended (a_core c) then mret tt
  else if negb (message_Version m =? 1) then
    emit AManagement;; sendErr (InvalidVersionError (message_Version m) raw)
  else dispatch m raw.

Definition M3UAPPID : Z := 3.

(** [rkmEnabled] is [routingKeyRegistry().enabled()]. *)
Definition rkmResponderUnsupported (rkmEnabled : bool) (raw : bytes) (c : association) : bool :=
  if (len raw <? 8) || negb (bool_decide (raw !! 0%nat = Some Byte.x01)) ||
     negb (rawClass raw =? MsgClassRKM) then false
  else if negb ((rawType raw =? MsgTypeRegistrationRequest) ||
                (rawType raw =? MsgTypeDeregistrationRequest)) then false
  else if bool_decide (role (a_cfg c) = RoleASP) then false
  else negb rkmEnabled.

(** A message as read from the SCTP association. *)
Record inbound : Type := mkInbound {
  in_data : bytes;
  in_stream : Z;
  in_ppid : Z;
  in_rkmEnabled : bool;
  in_options : ParseOptions;
}.

Definition dispatchRaw (raw : inbound) : M () :=
  if negb (in_ppid raw =? 0) && negb (in_ppid raw =? M3UAPPID) then mret tt
  else
    let data := in_data raw in
    set_core (λ k, k <| recvStream := in_stream raw |>);;
    c ← get;
    if rkmResponderUnsupported (in_rkmEnabled raw) data c
    then sendErr (UnsupportedClassError data)
    else
      match ParseWithOptions data (in_options raw) with
      | Ok msg => handleReceivedSignals msg data
      | Err e =>
          if len data <? 8 then mret tt
          else if (rawClass data =? MsgClassManagement) && (rawType data =? MsgTypeError)
          then mret tt
          else sendErr (if IsSupported (rawClass data) (rawType data)
                        then NewParameterFaultErrorFor data e
                        else if implementedClass (rawClass data) then UnsupportedMessageError data
                        else UnsupportedClassError data)
      | _ => mret tt
      end.

(** ** The retransmission timer (tack.go) *)

Definition DefaultTAckRetries : Z := 5.

Definition retries (c : association) : Z :=
  if 0 <? TAckRetries (a_cfg c) then TAckRetries (a_cfg c) else DefaultTAckRetries.

(** The timer of a request fires: one iteration of [runTAck], or its end. *)
Definition runTAckStep (req : Z) : M () :=
  c ← get;
  match requests (a_tack c) !! req with
  | None => mret tt
  | Some r =>
      if r_stopped r || ended (a_core c) then mret tt
      else if r_attempt r <? retries c then
        err ← writeControl env (r_msg r);
        match err with
        | Some e => with_tack (forgetTAckRequest req (r_kind r) e);; mret tt
        | None => modify_tack (update_request req (λ r, r <| r_attempt ::= Z.succ |>))
        end
      else
        expired ← with_tack (forgetTAckRequest req (r_kind r) ErrTAckExpired);
        when expired (sendErr ErrTAckExpired)
  end.

(** ** Restart of the SCTP association (restart.go) *)

Definition initiatesASPSM (c : association) : bool :=
  match role (a_cfg c) with
  | RoleASP => automatic aspProcedureUp c
  | RoleIPSP => bool_decide (is_Some (IPSP (a_cfg c))) && automatic aspProcedureUp c
  | RoleSGP => false
  end.

(** Up to [sendRestartState]; the result is [restartWhileDown].  The monitor
    applies ASP-DOWN before the dispatcher goes on. *)
Definition beginSCTPRestart : M bool :=
  c ← get;
  let restartWhileDown := initiatesASPSM c && bool_decide (state (a_core c) = StateASPDown) &&
                          stateEntered (a_core c) in
  let r := role (a_cfg c) in
  set_core (λ k, k <| peerDownAwaitingEntry := false |>);;
  modify_tack (resetTAckEpoch (negb (bool_decide (r = RoleSGP))));;
  when (isIPSPDoubleExchange c)
    (commitLocalIPSPState StateASPDown;; noteNoRoutingContextsAcked;; forgetActiveRoutingContexts);;
  when (bool_decide (r = RoleIPSP))
    (commitState StateASPDown;; quiesceLocalIPSPSSNMTraffic;; quiesceUnscopedTraffic);;
  emit APauseDestinations;;
  mret restartWhileDown.

Definition handleSCTPRestart : M () :=
  restartWhileDown ← beginSCTPRestart;
  committed ← commitState StateASPDown;
  when committed
    (err ← handlePublishedStateUpdate StateASPDown;
     when (match err with Some ErrSCTPNotAlive => true | _ => false end) endWith);;
  emit AManagement;;
  c ← get;
  when (restartWhileDown && negb (terminating (a_core c)))
    (err ← initiateASPSM env;
     match err with Some e => sendErr e | None => mret tt end).

(** ** Procedures an application starts (asp_procedure.go, asptm.go) *)

Definition outboundRoutingContexts (routingContexts : list Z) (c : association)
    : option Param + asp_error :=
  if len routingContexts =? 0
  then inl (if isIPSPDoubleExchange c then configuredLocalRoutingContextParam c
            else configuredRoutingContextParam c)
  else
    let routingContext := Some (NewRoutingContext routingContexts) in
    match validateLocalRoutingContext routingContext c with
    | Some e => inr e
    | None => inl routingContext
    end.

(** The conditions the two calls below share. *)
Definition checkTrafficCall (allowed : State → bool) (c : association) : option asp_error :=
  if bool_decide (role (a_cfg c) = RoleSGP) then Some ErrUnsupportedRole
  else if isIPSPDoubleExchange c && negb (hasLocalIPSPTrafficDirection c)
  then Some ErrNoConfiguredAS
  else if negb (allowed (localState c)) then Some ErrInvalidState
  else None.

Definition is_up (s : State) : bool :=
  bool_decide (s = StateASPInactive) || bool_decide (s = StateASPActive).

Definition ActivateRoutingContexts (routingContexts : list Z) : M (option asp_error) :=
  c ← get;
  try! mret (checkTrafficCall is_up c) ;;
  match outboundRoutingContexts routingContexts c with
  | inr e => mret (Some e)
  | inl routingContext => initiateASPActive env routingContext
  end.

Definition DeactivateRoutingContexts (routingContexts : list Z) : M (option asp_error) :=
  c ← get;
  try! mret (checkTrafficCall (λ s, bool_decide (s = StateASPActive)) c) ;;
  match outboundRoutingContexts routingContexts c with
  | inr e => mret (Some e)
  | inl routingContext => error_of (beginASPInactive env routingContext)
  end.

(** [validateExplicitASPProcedure] without the caller's context. *)
Definition validateExplicitASPProcedure (c : association) : option asp_error :=
  if bool_decide (role (a_cfg c) = RoleSGP) then Some ErrUnsupportedRole
  else if ended (a_core c) then Some ErrAssociationClosed else None.

(** [ASPUp] and [ASPDown] up to the wait for the Ack. *)
Definition ASPUp_ : M (Z + asp_error) :=
  c ← get;
  match validateExplicitASPProcedure c with
  | Some e => mret (inr e)
  | None =>
      if negb (localASPProcedureDirectionAvailable c) then mret (inr ErrNoConfiguredAS)
      else if negb (bool_decide (localState c = StateASPDown)) then mret (inr ErrInvalidState)
      else beginASPSM env
  end.

Definition ASPDown_ : M (Z + asp_error) :=
  c ← get;
  match validateExplicitASPProcedure c with
  | Some e => mret (inr e)
  | None =>
      if negb (localASPProcedureDirectionAvailable c) then mret (inr ErrNoConfiguredAS)
      else if negb (is_up (localState c)) then mret (inr ErrInvalidState)
      else initiateASPDown env
  end.

(** [ASPActive] and [ASPInactive] with the Routing Context parameter that
    [routingContextParamForASPProcedure] made of the caller's keys. *)
Definition ASPActive_ (routingContext : option Param) : M (list Z + asp_error) :=
  c ← get;
  match validateExplicitASPProcedure c with
  | Some e => mret (inr e)
  | None =>
      if negb (localASPTMProcedureDirectionAvailable c) then mret (inr ErrNoConfiguredAS)
      else if negb (is_up (localState c)) then mret (inr ErrInvalidState)
      else beginASPActive env routingContext
  end.

Definition ASPInactive_ (routingContext : option Param) : M (Z + asp_error) :=
  c ← get;
  match validateExplicitASPProcedure c with
  | Some e => mret (inr e)
  | None =>
      if negb (localASPTMProcedureDirectionAvailable c) then mret (inr ErrNoConfiguredAS)
      else if negb (bool_decide (localState c = StateASPActive)) then mret (inr ErrInvalidState)
      else beginASPInactive env routingContext
  end.

(** [ShutdownContext], in its steps: the flag, then a request at a time, each
    awaited, then [endWith]. *)
Definition beginShutdown : M bool :=
  c ← get;
  if terminating (a_core c) then mret false
  else set_core (λ k, k <| terminating := true |>);; mret true.

Definition shutdownInactive : M (option (Z + asp_error)) :=
  c ← get;
  if negb (bool_decide (role (a_cfg c) = RoleSGP)) &&
     bool_decide (localState c = StateASPActive) && automatic aspProcedureInactive c
  then r ← beginASPInactive env
             (if isIPSPDoubleExchange c then configuredLocalRoutingContextParam c
              else asConfigRoutingContextParam (ApplicationServers (a_cfg c)));
       mret (Some r)
  else mret None.

(** [st] is the state the Association had when the call began. *)
Definition shutdownDown (st : State) : M (option (Z + asp_error)) :=
  c ← get;
  if negb (bool_decide (role (a_cfg c) = RoleSGP)) && is_up st && automatic aspProcedureDown c
  then r ← initiateASPDown env; mret (Some r)
  else mret None.

(** ** Overrides by another Association (asptm.go) *)

(** What [overrideOtherASPs] does to a peer, before and after the barrier. *)
Definition displaced (key : ASKey) : M () :=
  noteRoutingContextsInactive (if RoutingContextSet key then [RoutingContext key] else []);;
  s ← gets stateForActiveRoutingContexts;
  if bool_decide (s = StateASPInactive) then commitOverrideInactiveState;; mret tt else mret tt.

Definition displacedAfterBarrier : M () :=
  s ← gets stateForActiveRoutingContexts;
  when (bool_decide (s = StateASPInactive)) sendOverrideInactiveState.

(** ** Steps *)

Inductive event : Type :=
| EOpen
| EReceive (raw : inbound)
| ERestart
| ETake
| ETakeOther
| EApply
| EError
| ETimer (req : Z)
| EActivate (routingContexts : list Z)
| EDeactivate (routingContexts : list Z)
| EASPUp
| EASPDown
| EASPActive (routingContext : option Param)
| EASPInactive (routingContext : option Param)
| EShutdown
| EShutdownInactive
| EShutdownDown (st : State)
| ECancel (req : Z)
| EDisplaced (key : ASKey)
| EDisplacedAfterBarrier
| EAddKey (key : ASKey) (mode : option Z) (local : bool)
| ERemoveKey (routingContext : Z) (local : bool)
| EBeat (data : bytes)
| ESubscribe
| EReadStateChange
| EEnd.

(** The monitor has nothing in hand. *)
Definition monitor_free (c : association) : bool := bool_decide (taken (a_pub c) = None).
(** The dispatcher is not waiting for the monitor. *)
Definition dispatcher_free (c : association) : bool := bool_decide (published (a_pub c) = None).

Definition guarded (b : association → bool) (m : M ()) (c : association) : option association :=
  if b c then Some (m c).2 else None.

Definition ignore {A} (m : M A) : M () := m;; mret tt.

Definition step (e : event) (c : association) : option association :=
  match e with
  | EOpen =>
      guarded (λ c, negb (stateEntered (a_core c)) && negb (ended (a_core c)))
        (err ← handleStateUpdate StateASPDown; when (bool_decide (is_Some err)) endWith) c
  | EReceive raw =>
      guarded (λ c, dispatcher_free c && stateEntered (a_core c) && negb (ended (a_core c)))
        (dispatchRaw raw) c
  | ERestart =>
      guarded (λ c, dispatcher_free c && stateEntered (a_core c) && negb (ended (a_core c)))
        handleSCTPRestart c
  | ETake =>
      if monitor_free c && negb (dispatcher_free c)
      then Some (c <| a_pub ::= λ p, p <| taken := published p |> <| published := None |> |>)
      else None
  | ETakeOther =>
      match publishedByOthers (a_pub c) with
      | s :: others =>
          if monitor_free c
          then Some (c <| a_pub ::= λ p, p <| taken := Some s |> <| publishedByOthers := others |> |>)
          else None
      | [] => None
      end
  | EApply =>
      match taken (a_pub c) with
      | None => None
      | Some s =>
          Some (((modify (λ c, c <| a_pub ::= λ p, p <| taken := None |> |>);;
            err ← handlePublishedStateUpdate s;
            when (match err with Some ErrSCTPNotAlive => true | _ => false end) endWith) c).2)
      end
  | EError =>
      match a_reports c with
      | (received, err) :: reports =>
          if monitor_free c
          then Some (((modify (λ c, c <| a_reports := reports |>);;
            err ← handleErrors received err;
            when (bool_decide (is_Some err)) endWith) c).2)
          else None
      | [] => None
      end
  | ETimer req => Some ((runTAckStep req c).2)
  | EActivate rcs => Some ((ActivateRoutingContexts rcs c).2)
  | EDeactivate rcs => Some ((DeactivateRoutingContexts rcs c).2)
  | EASPUp => Some ((ASPUp_ c).2)
  | EASPDown => Some ((ASPDown_ c).2)
  | EASPActive rc => Some ((ASPActive_ rc c).2)
  | EASPInactive rc => Some ((ASPInactive_ rc c).2)
  | EShutdown => Some ((beginShutdown c).2)
  | EShutdownInactive => guarded (λ c, terminating (a_core c)) (ignore shutdownInactive) c
  | EShutdownDown st => guarded (λ c, terminating (a_core c)) (ignore (shutdownDown st)) c
  | ECancel req => Some ((modify_tack (cancelTAckRequest req) c).2)
  | EDisplaced key => Some ((displaced key c).2)
  | EDisplacedAfterBarrier => Some ((displacedAfterBarrier c).2)
  | EAddKey key mode local => Some ((addDynamicASKey key mode local c).2)
  | ERemoveKey rc local => Some ((removeDynamicASKey rc local c).2)
  | EBeat data => Some ((setBeatData data;; ignore (writeControl env (Typed KHeartbeat
                          (Heartbeat.NewHeartbeat (Some (NewHeartbeatData data)))))) c).2
  | ESubscribe => Some (StateChanges c).2
  | EReadStateChange =>
      Some (c <| a_events ::= λ e, e <| stateEventChan ::= tail |> |>)
  | EEnd => Some (endWith c).2
  end.

End machine.

(** A run: each step has the answers it gets. *)
Definition run (l : list (environment * event)) (c : association) : option association :=
  foldl (λ oc '(env, e), c ← oc; step env e c) (Some c) l.
