(* ===== verification/AssociationFacts.v ===== *)
(** * Facts about the operations of an Association

    A calculus for the monad [M] ([wp], and [steps] for what every run of an
    operation keeps), and the frame [quiet]: the operations that leave the
    control state, the reports and the wire alone.  The tactics [wp_go] and
    the hints [quiet] walk through an operation with them. *)

From coqutil Require Import Datatypes.RecordSettersUsingExistingGetters.
From S2P Require Import Prelude Params ParamValues Inventory AppServer Header.
From S2P Require Import MsgAspsm MsgAsptm Message Tack Association.
#[local] Open Scope Z_scope.

(** ** The calculus *)

Definition wp {A} (m : M A) (Q : A → association → Prop) (c : association) : Prop :=
  Q (m c).1 (m c).2.

Lemma wp_ret {A} (a : A) Q c : Q a c → wp (mret a) Q c.
Proof. done. Qed.
Lemma wp_bind {A B} (m : M A) (f : A → M B) Q c :
  wp m (λ a, wp (f a) Q) c → wp (m ≫= f) Q c.
Proof. unfold wp, mbind, M_bind. by destruct (m c). Qed.
Lemma wp_get Q c : Q c c → wp get Q c.
Proof. done. Qed.
Lemma wp_gets {A} (f : association → A) Q c : Q (f c) c → wp (gets f) Q c.
Proof. done. Qed.
Lemma wp_modify f Q c : Q tt (f c) → wp (modify f) Q c.
Proof. done. Qed.
Lemma wp_when b m Q c :
  (b = true → wp m Q c) → (b = false → Q tt c) → wp (when b m) Q c.
Proof. destruct b; cbn; eauto using wp_ret. Qed.
Lemma wp_mono {A} (m : M A) (P Q : A → association → Prop) c :
  wp m P c → (∀ a c', P a c' → Q a c') → wp m Q c.
Proof. unfold wp. eauto. Qed.
Lemma wp_with_tack {A} (f : tackRetransmitter → A * tackRetransmitter) Q c :
  Q (f (a_tack c)).1 (c <| a_tack := (f (a_tack c)).2 |>) → wp (with_tack f) Q c.
Proof. unfold wp, with_tack. by destruct (f (a_tack c)). Qed.
Lemma wp_elim {A} (m : M A) Q c a c' : wp m Q c → m c = (a, c') → Q a c'.
Proof. unfold wp. intros H E. by rewrite E in H. Qed.

(** What every run of an operation keeps. *)
Definition steps {A} (R : relation association) (m : M A) : Prop := ∀ c, R c (m c).2.

Section steps.
Context (R : relation association) `{!PreOrder R}.

Lemma steps_ret {A} (a : A) : steps R (mret a).
Proof. intros c. cbn. reflexivity. Qed.
Lemma steps_get : steps R get.
Proof. intros c. cbn. reflexivity. Qed.
Lemma steps_gets {A} (f : association → A) : steps R (gets f).
Proof. intros c. cbn. reflexivity. Qed.
Lemma steps_bind {A B} (m : M A) (f : A → M B) :
  steps R m → (∀ a, steps R (f a)) → steps R (m ≫= f).
Proof.
  intros Hm Hf c. unfold mbind, M_bind. specialize (Hm c). destruct (m c) as [a c'].
  specialize (Hf a c'). cbn in *. by transitivity c'.
Qed.
Lemma steps_when b m : steps R m → steps R (when b m).
Proof. intros Hm. destruct b; [done|]. apply steps_ret. Qed.
Lemma steps_forM {A} (l : list A) f : (∀ x, steps R (f x)) → steps R (forM_ l f).
Proof.
  intros Hf. induction l as [|x l IH]; [apply steps_ret|]. cbn. by apply steps_bind.
Qed.
Lemma wp_steps {A} (m : M A) Q c :
  steps R m → (∀ a c', m c = (a, c') → R c c' → Q a c') → wp m Q c.
Proof. intros Hm HQ. unfold wp. specialize (Hm c). destruct (m c) eqn:E. cbn in *. eauto. Qed.
End steps.

(** Walking through an operation. *)
Ltac wp_step :=
  lazymatch goal with
  | |- wp (mbind _ get) _ _ => apply wp_bind, wp_get; cbn beta
  | |- wp (mbind _ (gets _)) _ _ => apply wp_bind, wp_gets; cbn beta
  | |- wp (mbind _ (mret _)) _ _ => apply wp_bind, wp_ret; cbn beta
  | |- wp (mbind _ (mbind _ _)) _ _ => apply wp_bind
  | |- wp (mret _) _ _ => apply wp_ret
  | |- wp get _ _ => apply wp_get
  | |- wp (if ?b then _ else _) _ _ => let E := fresh "E" in destruct b eqn:E
  | |- wp (let '(_, _) := ?p in _) _ _ => let E := fresh "E" in destruct p eqn:E
  end.

(** ** The frame *)

Definition is_write (a : action) : bool := match a with AWrite _ _ => true | _ => false end.

(** The states on their way to the monitor. *)
Definition waiting (c : association) : option State * list State * option State :=
  (published (a_pub c), publishedByOthers (a_pub c), taken (a_pub c)).

(** [quiet true] leaves the scopes alone as well. *)
Record quiet (same : bool) (c c' : association) : Prop := mk_quiet {
  q_cfg : a_cfg c' = a_cfg c;
  q_core : a_core c' = a_core c;
  q_pub : waiting c' = waiting c;
  q_reports : a_reports c' = a_reports c;
  q_writes : a_writes c' = a_writes c;
  q_scope : same = true → a_scope c' = a_scope c;
  q_out : ∃ l, a_out c' = a_out c ++ l ∧ Forall (λ a, is_write a = false) l;
}.

#[export] Instance quiet_preorder same : PreOrder (quiet same).
Proof.
  split.
  - intros c. split; try done. exists []. by rewrite app_nil_r.
  - intros c1 c2 c3 [? ? ? ? ? Hs (l & Hl & Hw)] [? ? ? ? ? Hs' (l' & Hl' & Hw')].
    split; try congruence; [intros E; by rewrite Hs', Hs|]. exists (l ++ l'). rewrite Hl', Hl, (assoc_L (++)).
    split; [done|]. by apply Forall_app.
Qed.

Create HintDb quiet.
#[export] Hint Resolve steps_ret steps_get steps_gets : quiet.

Lemma quiet_silent same f :
  (∀ c, a_cfg (f c) = a_cfg c) → (∀ c, a_core (f c) = a_core c) →
  (∀ c, waiting (f c) = waiting c) → (∀ c, a_reports (f c) = a_reports c) →
  (∀ c, a_writes (f c) = a_writes c) → (same = true → ∀ c, a_scope (f c) = a_scope c) →
  (∀ c, a_out (f c) = a_out c) → steps (quiet same) (modify f).
Proof.
  intros H1 H2 H3 H4 H5 H6 Hout c.
  split; cbn; [apply H1|apply H2|apply H3|apply H4|apply H5|intros E; by apply H6|].
  exists []. by rewrite app_nil_r, Hout.
Qed.

Lemma quiet_set_scope f : steps (quiet false) (set_scope f).
Proof. by apply quiet_silent. Qed.
Lemma quiet_modify_tack same f : steps (quiet same) (modify_tack f).
Proof. by apply quiet_silent. Qed.
Lemma quiet_with_tack same {A} (f : tackRetransmitter → A * tackRetransmitter) :
  steps (quiet same) (with_tack f).
Proof.
  intros c. unfold with_tack. destruct (f (a_tack c)). split; try done.
  exists []. by rewrite app_nil_r.
Qed.
Lemma quiet_emit same a : is_write a = false → steps (quiet same) (emit a).
Proof. intros Ha c. split; try done. exists [a]. split; [done|]. by constructor. Qed.
#[export] Hint Resolve quiet_set_scope quiet_modify_tack quiet_with_tack : quiet.
#[export] Hint Extern 1 (steps (quiet _) (emit _)) => apply quiet_emit; reflexivity : quiet.
#[export] Hint Extern 2 (steps (quiet _) (modify _)) => apply quiet_silent; reflexivity : quiet.
#[export] Hint Extern 1 (steps (quiet _) (when _ _)) => apply steps_when : quiet.
#[export] Hint Extern 1 (steps (quiet _) (forM_ _ _)) => apply steps_forM; intros : quiet.
#[export] Hint Extern 1 (steps (quiet _) (if ?b then _ else _)) => destruct b : quiet.
#[export] Hint Extern 1 (steps (quiet _) (match ?x with _ => _ end)) => destruct x : quiet.
#[export] Hint Extern 3 (steps (quiet _) (mbind _ _)) => apply steps_bind; intros : quiet.
#[export] Hint Extern 0 (PreOrder (quiet _)) => exact (quiet_preorder _) : quiet.

(** Unfolds one operation and lets the hints do the rest. *)
Tactic Notation "quiet" constr(op) := unfold op; cbn zeta; eauto 20 with quiet.

Lemma quiet_sync same : steps (quiet same) syncSSNMBindings.
Proof. quiet syncSSNMBindings. Qed.
Lemma quiet_notifyRoute same : steps (quiet same) notifyASPRouteStateChanged.
Proof. quiet notifyASPRouteStateChanged. Qed.
#[export] Hint Resolve quiet_sync quiet_notifyRoute : quiet.
Lemma quiet_materialize : steps (quiet false) materializeUnscopedActiveRoutingContextsLocked.
Proof. quiet materializeUnscopedActiveRoutingContextsLocked. Qed.
#[export] Hint Resolve quiet_materialize : quiet.
Lemma quiet_noteActive rcs : steps (quiet false) (noteRoutingContextsActiveLocked rcs).
Proof. quiet noteRoutingContextsActiveLocked. Qed.
Lemma quiet_noteInactive rcs : steps (quiet false) (noteRoutingContextsInactive rcs).
Proof. quiet noteRoutingContextsInactive. Qed.
Lemma quiet_forgetActive : steps (quiet false) forgetActiveRoutingContexts.
Proof. quiet forgetActiveRoutingContexts. Qed.
Lemma quiet_noteAcked p : steps (quiet false) (noteRoutingContextsAcked p).
Proof. quiet noteRoutingContextsAcked. Qed.
Lemma quiet_noteUnacked p : steps (quiet false) (noteRoutingContextsUnacked p).
Proof. quiet noteRoutingContextsUnacked. Qed.
Lemma quiet_noteNone : steps (quiet false) noteNoRoutingContextsAcked.
Proof. quiet noteNoRoutingContextsAcked. Qed.
Lemma quiet_forgetAcked : steps (quiet false) forgetAckedRoutingContextsWithoutTransferBarrier.
Proof. quiet forgetAckedRoutingContextsWithoutTransferBarrier. Qed.
Lemma quiet_noteOverridden rcs : steps (quiet false) (noteRoutingContextsOverridden rcs).
Proof. quiet noteRoutingContextsOverridden. Qed.
Lemma quiet_recordStateChange same s : steps (quiet same) (recordStateChange s).
Proof. quiet recordStateChange. Qed.
Lemma quiet_flushStateChanges same b : steps (quiet same) (flushStateChanges b).
Proof. quiet flushStateChanges. Qed.
Lemma quiet_closeStateChanges same : steps (quiet same) closeStateChanges.
Proof. quiet closeStateChanges. Qed.
Lemma quiet_commitASPStates same : steps (quiet same) commitASPStates.
Proof. quiet commitASPStates. Qed.
Lemma quiet_notifyReady same : steps (quiet same) notifyReady.
Proof.
  unfold notifyReady. apply steps_bind; [exact _|auto with quiet|]. intros c.
  destruct (readinessRank (readinessState c)), (readinessRank (currentReadinessState c));
    auto with quiet.
Qed.
#[export] Hint Resolve quiet_notifyReady : quiet.
Lemma quiet_allowHeartbeat same : steps (quiet same) allowHeartbeat.
Proof. quiet allowHeartbeat. Qed.
Lemma quiet_quiesceUnscoped same : steps (quiet same) quiesceUnscopedTraffic.
Proof. quiet quiesceUnscopedTraffic. Qed.
Lemma quiet_quiesceLocal same : steps (quiet same) quiesceLocalIPSPSSNMTraffic.
Proof. quiet quiesceLocalIPSPSSNMTraffic. Qed.
Lemma quiet_quiesceFor same rcs : steps (quiet same) (quiesceASPFor rcs).
Proof. quiet quiesceASPFor. Qed.
Lemma quiet_quiesceDown same : steps (quiet same) quiesceASPDown.
Proof. quiet quiesceASPDown. Qed.
Lemma quiet_postNotify same : steps (quiet same) postNotify.
Proof. quiet postNotify. Qed.
Lemma quiet_addDynamic k m l : steps (quiet false) (addDynamicASKey k m l).
Proof. quiet addDynamicASKey. Qed.
Lemma quiet_removeDynamic rc l : steps (quiet false) (removeDynamicASKey rc l).
Proof. quiet removeDynamicASKey. Qed.
Lemma quiet_startRequest same m k : steps (quiet same) (startRequest m k).
Proof. quiet startRequest. Qed.
#[export] Hint Resolve quiet_noteActive quiet_noteInactive quiet_forgetActive quiet_noteAcked
  quiet_noteUnacked quiet_noteNone quiet_forgetAcked quiet_noteOverridden
  quiet_recordStateChange quiet_flushStateChanges quiet_closeStateChanges
  quiet_commitASPStates quiet_allowHeartbeat quiet_quiesceUnscoped quiet_quiesceLocal
  quiet_quiesceFor quiet_quiesceDown quiet_postNotify quiet_addDynamic quiet_removeDynamic
  quiet_startRequest : quiet.

(** ** What an operation did so far

    [moves c s ws c']: from [c] to [c'] the state became [s] and the messages
    [ws] were handed to the transport, in this order; the Association did not
    end. *)

Definition writes_of (l : list action) : list action := List.filter is_write l.

Record moves (c : association) (s : State) (ws : list action) (c' : association) : Prop := mk_moves {
  mv_cfg : a_cfg c' = a_cfg c;
  mv_ended : ended (a_core c') = ended (a_core c);
  mv_state : state (a_core c') = s;
  mv_out : ∃ l, a_out c' = a_out c ++ l ∧ writes_of l = ws;
}.

Lemma moves_refl c : moves c (state (a_core c)) [] c.
Proof. split; try done. exists []. by rewrite app_nil_r. Qed.

Lemma writes_of_app l1 l2 : writes_of (l1 ++ l2) = writes_of l1 ++ writes_of l2.
Proof. apply List.filter_app. Qed.

Lemma writes_of_quiet l : Forall (λ a, is_write a = false) l → writes_of l = [].
Proof. induction 1 as [|a l Ha _ IH]; [done|]. unfold writes_of in *. cbn. by rewrite Ha. Qed.

Lemma moves_trans c1 c2 c3 s s' ws ws' :
  moves c1 s ws c2 → moves c2 s' ws' c3 → moves c1 s' (ws ++ ws') c3.
Proof.
  intros [? ? _ (l & Hl & <-)] [? ? ? (l' & Hl' & <-)]. split; try congruence.
  exists (l ++ l'). by rewrite Hl', Hl, (assoc_L (++)), writes_of_app.
Qed.

Lemma quiet_moves same c c' : quiet same c c' → moves c (state (a_core c)) [] c'.
Proof.
  intros [Hcfg Hcore _ _ _ _ (l & Hl & Hw)]. split; [done|by rewrite Hcore..|].
  exists l. eauto using writes_of_quiet.
Qed.

Lemma moves_quiet same c s ws c1 c2 : moves c s ws c1 → quiet same c1 c2 → moves c s ws c2.
Proof.
  intros H Hq. apply quiet_moves in Hq. rewrite (mv_state _ _ _ _ H) in Hq.
  rewrite <-(app_nil_r ws). by eapply moves_trans.
Qed.

Lemma wp_quiet {A} same (m : M A) (Q : A → association → Prop) c :
  steps (quiet same) m → (∀ a c', quiet same c c' → Q a c') → wp m Q c.
Proof. intros Hm HQ. apply (wp_steps (quiet same)); [done|]. intros a c' _. apply HQ. Qed.

(** The rules for an operation met after [moves c0 s ws c]; the scopes are
    those of [c] afterwards unless the rule is for an operation on them. *)
Definition still (c0 : association) (s : State) (ws : list action) (c c' : association) : Prop :=
  moves c0 s ws c' ∧ a_scope c' = a_scope c.

Lemma still_quiet c0 s ws c c1 c2 : still c0 s ws c c1 → quiet true c1 c2 → still c0 s ws c c2.
Proof. intros [Hm Hs] Hq. split; [eauto using moves_quiet|]. by rewrite (q_scope _ _ _ Hq). Qed.

Section rules.
Context (c0 : association) (s : State) (ws : list action) (c : association).
Context (H : moves c0 s ws c).

Lemma mwp_quiet {A} (m : M A) (Q : A → association → Prop) :
  steps (quiet false) m → (∀ a c', moves c0 s ws c' → Q a c') → wp m Q c.
Proof. intros Hm HQ. apply (wp_quiet false); [done|]. intros a c' Hq. eauto using moves_quiet. Qed.

Lemma mwp_steady {A} (m : M A) (Q : A → association → Prop) :
  steps (quiet true) m → (∀ a c', still c0 s ws c c' → Q a c') → wp m Q c.
Proof.
  intros Hm HQ. apply (wp_quiet true); [done|]. intros a c' Hq. apply HQ. by eapply still_quiet.
Qed.

(** Changing a part of the state that none of this is about. *)
Lemma still_modify s' f :
  (∀ c, a_cfg (f c) = a_cfg c) → (∀ c, ended (a_core (f c)) = ended (a_core c)) →
  state (a_core (f c)) = s' → (∀ c, a_out (f c) = a_out c) → (∀ c, a_scope (f c) = a_scope c) →
  still c0 s' ws c (f c).
Proof.
  intros H1 H2 H3 H4 H5. destruct H as [? ? ? (l & Hl & ?)]. split; [|apply H5].
  split; [by rewrite H1|by rewrite H2|done|]. exists l. by rewrite H4.
Qed.

Lemma mwp_set_core f (Q : () → association → Prop) :
  (∀ k, ended (f k) = ended k) →
  (∀ k, state (f k) = state k) →
  (∀ c', still c0 s ws c c' → Q tt c') → wp (set_core f) Q c.
Proof.
  intros He Hs HQ. apply wp_modify, HQ.
  apply (still_modify s (λ c, c <| a_core ::= f |>)); cbn; try done.
  rewrite Hs. apply (mv_state _ _ _ _ H).
Qed.
End rules.

Lemma mwp_commitGuarded c0 s ws c s' peerDown override (Q : bool → association → Prop) :
  moves c0 s ws c → ended (a_core c0) = false → s' ≠ stateUnchanged →
  (override = true → s ≠ StateASPDown → ∀ c', still c0 s' ws c c' → Q true c') →
  (override = true → s = StateASPDown → Q false c) →
  (override = false → ∀ c', still c0 s' ws c c' → Q true c') →
  wp (commitStateGuarded s' peerDown override) Q c.
Proof.
  intros H He Hs' H1 H2 H3. unfold commitStateGuarded. rewrite bool_decide_eq_false_2 by done.
  wp_step. rewrite (mv_ended _ _ _ _ H), He, (mv_state _ _ _ _ H).
  destruct (override && bool_decide (s = StateASPDown)) eqn:E.
  { apply andb_true_iff in E as [-> E%bool_decide_eq_true]. wp_step. by apply H2. }
  assert (Hgo : ∀ c', still c0 s' ws c c' → Q true c').
  { destruct override; [|by apply H3]. apply H1; [done|].
    cbn in E. by apply bool_decide_eq_false in E. }
  clear H1 H2 H3 E. apply wp_bind, wp_modify.
  assert (Hm : still c0 s' ws c (c <| a_core ::= λ k, k <| state := s' |> |>))
    by (by apply (still_modify _ _ _ _ H s' (λ c, c <| a_core ::= λ k, k <| state := s' |> |>))).
  revert Hm. generalize (c <| a_core ::= λ k, k <| state := s' |> |>). intros c1 Hm.
  apply wp_bind, (wp_quiet true); [eauto with quiet|]. intros [] c2 Hq.
  assert (Hm2 : still c0 s' ws c c2) by eauto using still_quiet. clear Hq Hm c1.
  apply wp_bind, wp_when; intros _.
  - eapply mwp_set_core; [apply Hm2|done..|]. intros c3 [Hm3 Hs3].
    assert (Hst : still c0 s' ws c c3) by (split; [done|by rewrite Hs3; apply Hm2]).
    apply wp_bind, (wp_quiet true); [eauto with quiet|]. intros [] c4 Hq.
    wp_step. eauto using still_quiet.
  - apply wp_bind, (wp_quiet true); [eauto with quiet|]. intros [] c4 Hq.
    wp_step. eauto using still_quiet.
Qed.

Section rules.
Context (c0 : association) (s : State) (ws : list action) (c : association).
Context (H : moves c0 s ws c) (He : ended (a_core c0) = false).

Lemma mwp_commit s' (Q : bool → association → Prop) :
  s' ≠ stateUnchanged → (∀ c', still c0 s' ws c c' → Q true c') → wp (commitState s') Q c.
Proof. intros Hs HQ. eapply mwp_commitGuarded; [done..|]. done. Qed.

(** A write that fails says no more than that. *)
Definition write_outcome (err : option asp_error) : Prop := err = None ∨ err = Some ErrWrite.

Lemma mwp_writeSignal env m (Q : option asp_error → association → Prop) :
  (∀ err c', write_outcome err → still c0 s (ws ++ [AWrite m err]) c c' → Q err c') →
  wp (writeSignal env m) Q c.
Proof.
  intros HQ. unfold writeSignal. wp_step. cbn zeta.
  apply wp_bind, wp_modify, wp_bind, wp_modify, wp_ret, HQ;
    [unfold write_outcome; case_match; auto|].
  destruct H as [? ? ? (l & Hl & <-)]. split; [|done]. split; cbn; try done.
  eexists. rewrite Hl, <-(assoc_L (++)). split; [done|]. by rewrite writes_of_app.
Qed.

Lemma mwp_writeControl env m (Q : option asp_error → association → Prop) :
  (∀ err c', write_outcome err → still c0 s (ws ++ [AWrite m err]) c c' → Q err c') →
  wp (writeControl env m) Q c.
Proof.
  intros HQ. unfold writeControl. apply wp_bind, mwp_writeSignal. intros err c1 Herr H1.
  wp_step. apply wp_bind, (wp_quiet true); [eauto with quiet|]. intros [] c2 Hq.
  wp_step. eauto using still_quiet.
Qed.

Lemma mwp_writeMandatory env m (Q : option asp_error → association → Prop) :
  (∀ err c', write_outcome err → still c0 s (ws ++ [AWrite m err]) c c' → Q err c') →
  wp (writeMandatoryControls env [m]) Q c.
Proof.
  intros HQ. cbn [writeMandatoryControls]. wp_step. rewrite (mv_ended _ _ _ _ H), He.
  apply wp_bind, mwp_writeSignal. intros [e|] c1 Herr H1; [by wp_step; apply HQ|].
  apply wp_ret. by apply HQ.
Qed.

Lemma mwp_report received e (Q : () → association → Prop) :
  (∀ c', still c0 s ws c c' → a_reports c' = a_reports c ++ [(received, e)] → Q tt c') →
  wp (report received e) Q c.
Proof.
  intros HQ. apply wp_modify, HQ; [|done].
  apply (still_modify _ _ _ _ H s (λ c, c <| a_reports ::= _ |>)); cbn; try done.
  apply (mv_state _ _ _ _ H).
Qed.

Lemma mwp_publish s' (Q : () → association → Prop) :
  (∀ c', still c0 s ws c c' → Q tt c') → wp (publishState s') Q c.
Proof.
  intros HQ. unfold publishState. wp_step. apply wp_when; intros _; [|apply HQ; by split].
  apply wp_modify, HQ, (still_modify _ _ _ _ H s (λ c, c <| a_pub ::= _ |>)); cbn; try done.
  apply (mv_state _ _ _ _ H).
Qed.
End rules.

Lemma mwp_sendState c0 s ws c s' (Q : () → association → Prop) :
  moves c0 s ws c → ended (a_core c0) = false →
  (∀ c', still c0 (if bool_decide (s' = stateUnchanged) then s else s') ws c c' → Q tt c') →
  wp (sendState s') Q c.
Proof.
  intros H He HQ. unfold sendState. case_bool_decide as Hs.
  - subst. unfold commitState, commitStateGuarded. cbn [bool_decide]. 
    rewrite bool_decide_eq_true_2 by done. wp_step. cbn [when]. by eapply mwp_publish.
  - apply wp_bind. eapply mwp_commit; [done..|]. intros c1 [H1 Hs1]. cbn [when].
    eapply mwp_publish; [done|]. intros c2 [H2 Hs2]. apply HQ. split; [done|]. congruence.
Qed.

Lemma mwp_commitActive c0 s ws c rcs (Q : bool → association → Prop) :
  moves c0 s ws c → ended (a_core c0) = false →
  (∀ c', moves c0 StateASPActive ws c' → Q true c') →
  wp (commitPeerRoutingContextsActive rcs) Q c.
Proof.
  intros H He HQ. unfold commitPeerRoutingContextsActive. wp_step.
  rewrite (mv_ended _ _ _ _ H), He. apply wp_bind. eapply mwp_quiet; [done|eauto with quiet|].
  intros [] c1 H1. apply wp_bind, wp_modify.
  assert (Hm : moves c0 StateASPActive ws (c1 <| a_core ::= λ k, k <| state := StateASPActive |> |>))
    by (by apply (still_modify _ _ _ _ H1 StateASPActive
                    (λ c, c <| a_core ::= λ k, k <| state := StateASPActive |> |>))).
  revert Hm. generalize (c1 <| a_core ::= λ k, k <| state := StateASPActive |> |>).
  intros c2 Hm. apply wp_bind. eapply mwp_quiet; [done|eauto with quiet|]. intros [] c3 H3.
  apply wp_bind. eapply mwp_quiet; [done|eauto with quiet|]. intros [] c4 H4.
  apply wp_bind. eapply mwp_quiet; [done|eauto with quiet|]. intros [] c5 H5.
  wp_step. by apply HQ.
Qed.
