(* ===== verification/AspTheory.v ===== *)
(** * The ASP procedures follow RFC 4666 *)

From coqutil Require Import Datatypes.RecordSettersUsingExistingGetters.
From S2P Require Import Prelude Params ParamsFacts ParamValues Inventory AppServer Header Codec.
From S2P Require Import MsgAspsm MsgAsptm MsgMgmt Message Compat.
From S2P Require Import Tack Association AspProcedures AspMachine AssociationFacts.
#[local] Open Scope Z_scope.

(** Nothing is active: the scopes do not contradict ASP-INACTIVE. *)
Definition idle (c : association) : Prop :=
  activeRCsScoped (a_scope c) = true →
  activeRCs (a_scope c) = ∅ ∧ contextlessASActive (a_scope c) = false.

Section sgp.
Context (env : environment) (c0 : association).
Context (Hrole : role (a_cfg c0) = RoleSGP) (Hended : ended (a_core c0) = false).

Lemma sgp_role s ws c : moves c0 s ws c → role (a_cfg c) = RoleSGP.
Proof. intros H. by rewrite (mv_cfg _ _ _ _ H). Qed.

Lemma sgp_state s ws c : moves c0 s ws c → State_ c = s.
Proof. intros H. unfold State_. by rewrite (mv_ended _ _ _ _ H), Hended, (mv_state _ _ _ _ H). Qed.

Lemma sgp_not_double s ws c : moves c0 s ws c → isIPSPDoubleExchange c = false.
Proof. intros H. unfold isIPSPDoubleExchange. by rewrite (sgp_role _ _ _ H). Qed.

Lemma quiet_claim same p : steps (quiet same) (claimPeerASPIdentifier env p).
Proof. quiet claimPeerASPIdentifier. Qed.
Lemma quiet_resolve same p : steps (quiet same) (resolveASPAuthorization env p).
Proof. quiet resolveASPAuthorization. Qed.
#[local] Hint Resolve quiet_claim quiet_resolve : quiet.

(** No error of the checks before an ASP Up counts is "Unexpected Message". *)
Definition refused (err : option asp_error) : Prop := ∃ e, err = Some e ∧ is_unexpected e = false.

Lemma wp_standDown s ws c (Q : () → association → Prop) :
  moves c0 s ws c → (∀ c', moves c0 StateASPInactive ws c' → idle c' → Q tt c') →
  wp standDown Q c.
Proof.
  intros H HQ. unfold standDown. apply wp_bind. eapply mwp_commit; [done..|]. intros c1 [H1 _].
  apply wp_bind. unfold noteRoutingContextsInactive. wp_step. apply wp_bind.
  cbn [len length Z.of_nat Z.eqb]. apply wp_modify.
  match goal with |- wp _ _ ?c => assert (H2 : moves c0 StateASPInactive ws c) end.
  { destruct H1 as [? ? ? (l & ? & ?)]. split; try done. by exists l. }
  match goal with |- wp _ _ ?c => assert (Hi : idle c) by done; revert H2 Hi; generalize c end.
  intros c2 H2 Hi. eapply mwp_steady; [done|eauto with quiet|]. intros [] c3 [H3 Hs3].
  wp_step. apply wp_bind. eapply mwp_steady; [done|eauto with quiet|]. intros [] c4 [H4 Hs4].
  eapply mwp_steady; [done|eauto with quiet|]. intros [] c5 [H5 Hs5]. apply HQ; [done|].
  unfold idle in *. by rewrite Hs5, Hs4, Hs3.
Qed.

(** The outcome of a handler that refuses before it changes anything. *)
Definition untouched (c' : association) : Prop :=
  moves c0 (state (a_core c0)) [] c' ∧ a_scope c' = a_scope c0.

Lemma untouched_quiet c c' : untouched c → quiet true c c' → untouched c'.
Proof. intros [H Hs] Hq. split; [eauto using moves_quiet|]. by rewrite (q_scope _ _ _ Hq). Qed.

Lemma resolve_error p c : default ErrWrite (resolveASPAuthorization env p c).1 = ErrWrite ∨
  is_unexpected (default ErrWrite (resolveASPAuthorization env p c).1) = false.
Proof.
  right. unfold resolveASPAuthorization, get, mbind, M_bind, modify. cbn zeta.
  repeat case_match; simplify_eq/=; done.
Qed.

Lemma claim_error p c err :
  (claimPeerASPIdentifier env p c).1 = Some err → is_unexpected err = false.
Proof.
  destruct p; [|done]. unfold claimPeerASPIdentifier, get, mbind, M_bind, modify, when, emit, modify.
  repeat case_match; cbn; intros; simplify_eq/=; done.
Qed.

Lemma wp_handleAspUp m c :
  untouched c →
  wp (handleAspUp env m) (λ err c',
    (refused err ∧ untouched c') ∨
    (∃ ack werr, moves c0 StateASPInactive [AWrite (Typed KAspUpAck ack) werr] c' ∧ idle c')) c.
Proof.
  intros Hu. pose proof Hu as [H Hs]. unfold handleAspUp. wp_step. rewrite (sgp_role _ _ _ H).
  cbn zeta. rewrite bool_decide_eq_false_2, bool_decide_eq_true_2 by done.
  repeat (wp_step; [wp_step; left; split; [by eexists|done]|]).
  apply wp_bind, wp_bind. eapply (wp_steps (quiet true)); [auto with quiet|]. intros err c1 Herr Hq.
  assert (Hu1 : untouched c1) by eauto using untouched_quiet.
  destruct err as [e|].
  { wp_step. left. split; [|done]. exists e. split; [done|].
    destruct (resolve_error (AspUp.AspIdentifier m) c) as [He|He]; rewrite Herr in He; cbn in He; by subst. }
  apply wp_bind. eapply (wp_steps (quiet true)); [auto with quiet|]. intros [] c2 _ Hq2.
  assert (Hu2 : untouched c2) by eauto using untouched_quiet. wp_step.
  apply wp_bind. eapply (wp_steps (quiet true)); [auto with quiet|]. intros err c3 Herr3 Hq3.
  assert (Hu3 : untouched c3) by eauto using untouched_quiet.
  destruct err as [e|].
  { wp_step. left. split; [|done]. exists e. split; [done|].
    apply (claim_error (AspUp.AspIdentifier m) c2). by rewrite Herr3. }
  rewrite (sgp_not_double _ _ _ H). destruct Hu3 as [H3 _].
  apply wp_bind. eapply wp_standDown; [done|]. intros c4 H4 Hi4.
  apply wp_bind. unfold writeAspUpAck. wp_step. eapply mwp_writeMandatory; [done..|].
  intros werr c5 Herr5 [H5 Hs5]. apply wp_bind. eapply mwp_steady; [done|eauto with quiet|].
  intros [] c6 [H6 Hs6].
  assert (Hi6 : idle c6) by (unfold idle in *; by rewrite Hs6, Hs5).
  destruct werr as [e|]; [wp_step; right; eauto|].
  rewrite (bool_decide_eq_false_2 (RoleSGP = RoleIPSP)) by done. cbn [when]. do 2 wp_step.
  right; eauto.
Qed.

Lemma wp_handleAspDown m c :
  untouched c →
  wp (handleAspDown env m) (λ err c',
    (refused err ∧ untouched c') ∨
    (∃ ack werr, moves c0 StateASPDown [AWrite (Typed KAspDownAck ack) werr] c')) c.
Proof.
  intros Hu. pose proof Hu as [H Hs]. unfold handleAspDown. wp_step. rewrite (sgp_role _ _ _ H).
  cbn zeta. rewrite (bool_decide_eq_false_2 (RoleSGP = RoleASP)) by done.
  wp_step; [wp_step; left; split; [by eexists|done]|].
  rewrite (sgp_not_double _ _ _ H), (bool_decide_eq_false_2 (RoleSGP = RoleIPSP)) by done.
  apply wp_bind. eapply mwp_steady; [done|auto with quiet|]. intros sup c1 [H1 _].
  apply wp_bind. eapply mwp_commit; [done..|]. intros c2 [H2 _].
  apply wp_bind. eapply mwp_steady; [done|auto with quiet|]. intros [] c3 [H3 _].
  apply wp_bind. eapply mwp_steady; [done|auto with quiet|]. intros [] c4 [H4 _].
  apply wp_bind. eapply mwp_writeMandatory; [done..|]. intros werr c5 Herr5 [H5 _].
  apply wp_bind. eapply mwp_steady; [done|auto with quiet|]. intros [] c6 [H6 _].
  apply wp_bind. eapply mwp_steady; [done|auto with quiet|]. intros [] c7 [H7 _].
  wp_step. right; eauto.
Qed.

Lemma mwp_override rcs ws c (Q : () → association → Prop) :
  moves c0 StateASPActive ws c → (∀ c', moves c0 StateASPActive ws c' → Q tt c') →
  wp (overrideOtherASPs env rcs) Q c.
Proof.
  intros H HQ. unfold overrideOtherASPs. wp_step. apply wp_when; intros _; [|by apply HQ].
  generalize (asKeysForRoutingContexts rcs c). intros keys. revert c H.
  induction keys as [|k keys IH]; intros c H; [by apply HQ|]. cbn [forM_]. apply wp_bind.
  apply wp_when; intros _; [|by apply IH].
  apply wp_bind. eapply mwp_commitActive; [done..|]. intros c1 H1. cbn [when].
  eapply mwp_steady; [done|auto with quiet|]. intros [] c2 [H2 _]. by apply IH.
Qed.

(** Nothing is refused and nothing is served only where a single Application Server
    has no Routing Context. *)
Lemma answer_contextless named unserved noKeys c :
  validateRoutingContextShape named = None →
  answerRoutingContexts named unserved noKeys c = (None, None) →
  contextless_served None named None c = true.
Proof.
  unfold validateRoutingContextShape, answerRoutingContexts, contextless_served. cbn zeta.
  intros Hshape. destruct (isIPSPDoubleExchange c && _); [done|].
  destruct (len (RoutingContexts named) =? 0) eqn:E1.
  - destruct named as [p|].
    + rewrite bool_decide_eq_true_2 in Hshape by eauto. done.
    + destruct (len (configuredRoutingContexts c) =? 0) eqn:E2; [done|].
      unfold configuredRoutingContextParam, param_of. by rewrite E2.
  - repeat case_match; done.
Qed.

Lemma shape_refused named e : validateRoutingContextShape named = Some e → is_unexpected e = false.
Proof. unfold validateRoutingContextShape. intros. repeat case_match; by simplify_eq/=. Qed.

Definition no_news (f : list Z → asp_error) : Prop := ∀ l, is_unexpected (f l) = false.

Lemma answer_refused named unserved noKeys c served e :
  no_news unserved → no_news noKeys →
  answerRoutingContexts named unserved noKeys c = (served, Some e) → is_unexpected e = false.
Proof.
  unfold answerRoutingContexts. cbn zeta. intros Hu Hn ?. repeat case_match; simplify_eq; auto.
Qed.

(** The outcomes of an ASP Active. *)
Inductive aspActive_outcome (err : option asp_error) (c' : association) : Prop :=
| aao_refused :
    refused err → state (a_core c0) ≠ StateASPDown → untouched c' → aspActive_outcome err c'
| aao_down m :
    err = Some (UnexpectedMessageError m) → state (a_core c0) = StateASPDown → untouched c' →
    aspActive_outcome err c'
| aao_active ack :
    refused err ∨ err = None → state (a_core c0) ≠ StateASPDown →
    moves c0 StateASPActive [AWrite (Typed KAspActiveAck ack) None] c' → aspActive_outcome err c'
| aao_acked ack werr :
    refused err → state (a_core c0) ≠ StateASPDown →
    werr ≠ None ∧ err = werr ∨ state (a_core c0) = StateASPActive →
    moves c0 (state (a_core c0)) [AWrite (Typed KAspActiveAck ack) werr] c' →
    a_scope c' = a_scope c0 → aspActive_outcome err c'.

Lemma wp_handleAspActive m c :
  untouched c → wp (handleAspActive env m) aspActive_outcome c.
Proof.
  intros Hu. pose proof Hu as [H Hs]. unfold handleAspActive. wp_step. rewrite (sgp_role _ _ _ H).
  cbn zeta. rewrite (bool_decide_eq_false_2 (RoleSGP = RoleASP)) by done.
  rewrite (sgp_state _ _ _ H). cbn match.
  wp_step; [wp_step; apply bool_decide_eq_true in E; by eapply aao_down|].
  apply bool_decide_eq_false in E. rename E into Hup.
  assert (Href : ∀ e, is_unexpected e = false → aspActive_outcome (Some e) c)
    by (intros e He; apply aao_refused; [by exists e|done..]).
  wp_step. destruct (validateRoutingContextShape _) as [e|] eqn:Esh.
  { wp_step. eauto using shape_refused. }
  wp_step; [wp_step; by apply Href|].
  wp_step. destruct (validateTrafficMode _) as [e|] eqn:Emode.
  { wp_step. apply Href. unfold validateTrafficMode in Emode. repeat case_match; by simplify_eq/=. }
  destruct (answerRoutingContexts _ _ _ _) as [served rcErr] eqn:Eans.
  assert (Hrc : ∀ e, rcErr = Some e → is_unexpected e = false)
    by (intros e ->; by eapply answer_refused; [..|exact Eans]).
  wp_step. destruct (if bool_decide (is_Some served) then _ else _) as [e|] eqn:Etm.
  { wp_step. apply Href. unfold validateTrafficModeForRoutingContexts in Etm.
    repeat case_match; by simplify_eq/=. }
  set (ctx := contextless_served served _ rcErr c).
  assert (Hact : bool_decide (is_Some served) || ctx = false → served = None ∧ is_Some rcErr).
  { intros [H1%bool_decide_eq_false H2]%orb_false_iff.
    destruct served as [p|]; [destruct H1; eauto|]. split; [done|].
    destruct rcErr as [e|]; [eauto|]. pose proof (answer_contextless _ _ _ _ Esh Eans).
    unfold ctx in H2. congruence. }
  wp_step.
  { wp_step. destruct rcErr as [e|]; [by apply Href, Hrc|]. done. }
  destruct (if _ && hasAS _ then _ else _) as [mode|closed];
    [|wp_step; apply Href; by destruct closed].
  assert (Hacked : bool_decide (is_Some served) || ctx = false → ∃ e, rcErr = Some e ∧
    state (a_core c0) = StateASPActive).
  { intros Hn. destruct (Hact Hn) as (-> & e & ->). exists e. split; [done|].
    by apply andb_false_iff in E0 as [?|?%negb_false_iff%bool_decide_eq_true]. }
  apply wp_bind. eapply (wp_steps (quiet true)); [auto with quiet|]. intros err c1 Herr Hq.
  assert (Hu1 : untouched c1) by eauto using untouched_quiet.
  destruct err as [e|].
  { wp_step. apply aao_refused; [|done..]. exists e. split; [done|].
    destruct (bool_decide (is_Some served)), (e_mtp3RestartStatus env (RoutingContexts served));
      unfold emit, modify, mret, M_ret, mbind, M_bind in Herr; by simplify_eq/=. }
  destruct Hu1 as [H1 Hs1].
  apply wp_bind. eapply mwp_writeMandatory; [done..|]. intros werr c2 Hw [H2 Hs2].
  destruct werr as [e|].
  { destruct Hw as [?|[= ->]]; [done|]. wp_step.
    eapply (aao_acked _ _ _ (Some ErrWrite)); [by eexists|done|left; by split|done|congruence]. }
  cbn [app] in *. apply wp_bind, wp_when; intros Ha.
  - apply wp_bind. eapply mwp_commitActive; [done..|]. intros c3 H3.
    apply wp_when; intros _.
    + eapply mwp_override; [done|]. intros c4 H4. wp_step. eapply aao_active; [|done..].
      destruct rcErr as [e|]; [left; exists e; auto|auto].
    + wp_step. eapply aao_active; [|done..]. destruct rcErr as [e|]; [left; exists e; auto|auto].
  - wp_step. destruct (Hacked Ha) as (e & -> & Hst). eapply aao_acked; [exists e; auto|done|auto|done|congruence].
Qed.

(** The outcomes of an ASP Inactive. *)
Inductive aspInactive_outcome (err : option asp_error) (c' : association) : Prop :=
| aio_refused :
    refused err → state (a_core c0) ≠ StateASPDown → untouched c' → aspInactive_outcome err c'
| aio_down m :
    err = Some (UnexpectedMessageError m) → state (a_core c0) = StateASPDown → untouched c' →
    aspInactive_outcome err c'
| aio_acked ack werr :
    refused err ∨ err = None → state (a_core c0) ≠ StateASPDown →
    moves c0 (state (a_core c0)) [AWrite (Typed KAspInactiveAck ack) werr] c' →
    a_scope c' = a_scope c0 ∨ state (a_core c0) = StateASPActive → aspInactive_outcome err c'.

Lemma wp_handleAspInactive m c :
  untouched c → wp (handleAspInactive env m) aspInactive_outcome c.
Proof.
  intros Hu. pose proof Hu as [H Hs]. unfold handleAspInactive. wp_step. rewrite (sgp_role _ _ _ H).
  cbn zeta. rewrite (bool_decide_eq_false_2 (RoleSGP = RoleASP)) by done.
  rewrite (sgp_state _ _ _ H). cbn match.
  wp_step; [wp_step; apply bool_decide_eq_true in E; by eapply aio_down|].
  apply bool_decide_eq_false in E. rename E into Hup.
  assert (Href : ∀ e, is_unexpected e = false → aspInactive_outcome (Some e) c)
    by (intros e He; apply aio_refused; [by exists e|done..]).
  wp_step. destruct (validateRoutingContextShape _) as [e|] eqn:Esh.
  { wp_step. eauto using shape_refused. }
  destruct (answerRoutingContexts _ _ _ _) as [served rcErr] eqn:Eans.
  assert (Hrc : ∀ e, rcErr = Some e → is_unexpected e = false)
    by (intros e ->; by eapply answer_refused; [..|exact Eans]).
  wp_step.
  { wp_step. destruct rcErr as [e|]; [by apply Href, Hrc|done]. }
  match goal with |- wp (when ?b _ ;; _) _ _ => set (stands := b) end.
  assert (Hst : stands = true → state (a_core c0) = StateASPActive)
    by (intros Hb; by apply andb_true_iff in Hb as [_ Hb%bool_decide_eq_true]).
  apply wp_bind. eapply (wp_mono _ (λ _ c1, moves c0 (state (a_core c0)) [] c1 ∧
    (a_scope c1 = a_scope c0 ∨ state (a_core c0) = StateASPActive))).
  { apply wp_when; intros Hb; [|by auto]. eapply mwp_quiet; [done|eauto with quiet|]. auto. }
  intros [] c1 [H1 Hs1]. apply wp_bind. eapply mwp_steady; [done|eauto with quiet|].
  intros [] c2 [H2 Hs2]. apply wp_bind. eapply mwp_writeMandatory; [done..|].
  intros werr c3 Hw [H3 Hs3]. apply wp_bind. eapply mwp_steady; [done|eauto with quiet|].
  intros [] c4 [H4 Hs4]. wp_step. eapply aio_acked; [|done|done|].
  - destruct Hw as [->| ->]; [|left; by eexists]. destruct rcErr as [e|]; [left; exists e; auto|auto].
  - rewrite Hs4, Hs3, Hs2. done.
Qed.
End sgp.
