(* ===== verification/AspStates.v ===== *)
(** * The states an SGP keeps for its peer (RFC 4666 section 4.3.1, Figure 3)

    The state of the peer of an SGP changes only as Figure 3 of the RFC allows:
    by a request of the peer that has been answered, by an override, or with
    the Association; as long as an override that reaches the peer is timely. *)

From coqutil Require Import Datatypes.RecordSettersUsingExistingGetters.
From S2P Require Import Prelude Params ParamsFacts ParamValues Inventory AppServer Header Codec.
From S2P Require Import MsgData MsgSsnm MsgAspsm MsgAsptm MsgMgmt Message Compat.
From S2P Require Import Tack Association AspProcedures AspMachine AssociationFacts AspTheory.
#[local] Open Scope Z_scope.

(** ** Transitions *)

(** The peer is in one of the states of Figure 3, and the scopes do not
    contradict ASP-INACTIVE. *)
Definition consistent (c : association) : Prop :=
  match state (a_core c) with
  | StateASPDown | StateASPActive => True
  | StateASPInactive => idle c
  | _ => False
  end.

(** What the message [m] did to the state [s] of the peer: the state [s'], and
    the messages [ws] handed to the transport.  [spent] says that no scope was
    left active. *)
Inductive answered (m : M3UA) (spent : Prop) (s : State) (ws : list action) : State → Prop :=
| answered_hold : answered m spent s ws s
| answered_up up ack err :
    m = Typed KAspUp up → AWrite (Typed KAspUpAck ack) err ∈ ws →
    answered m spent s ws StateASPInactive
| answered_active active ack :
    m = Typed KAspActive active → s ≠ StateASPDown → AWrite (Typed KAspActiveAck ack) None ∈ ws →
    answered m spent s ws StateASPActive
| answered_inactive inactive :
    m = Typed KAspInactive inactive → s = StateASPActive →
    spent ∨ (∃ ack err, AWrite (Typed KAspInactiveAck ack) err ∈ ws) →
    answered m spent s ws StateASPInactive
| answered_down down ack err :
    m = Typed KAspDown down → AWrite (Typed KAspDownAck ack) err ∈ ws →
    answered m spent s ws StateASPDown.

Section sgp.
Context (env : environment) (c0 : association).
Context (Hrole : role (a_cfg c0) = RoleSGP) (Hended : ended (a_core c0) = false).
Context (Hinv : consistent c0).

Definition spent : Prop := stateForActiveRoutingContexts c0 = StateASPInactive.

(** The outcome of a message. *)
Definition outcome (m : M3UA) (c' : association) : Prop :=
  ∃ s ws, moves c0 s ws c' ∧ consistent c' ∧ answered m spent (state (a_core c0)) ws s.

Lemma consistent_scope c c' :
  state (a_core c') = state (a_core c) → a_scope c' = a_scope c → consistent c → consistent c'.
Proof. unfold consistent, idle. by intros -> ->. Qed.

Lemma outcome_hold m ws c' :
  moves c0 (state (a_core c0)) ws c' → a_scope c' = a_scope c0 ∨ state (a_core c0) = StateASPActive →
  outcome m c'.
Proof.
  intros H Hs. exists (state (a_core c0)), ws. split_and!; [done| |constructor].
  destruct Hs as [Hs|Hs].
  - eapply consistent_scope; [|done..]. apply (mv_state _ _ _ _ H).
  - unfold consistent. by rewrite (mv_state _ _ _ _ H), Hs.
Qed.

Lemma untouched_still ws c c' :
  untouched c0 c → still c0 (state (a_core c0)) ws c c' →
  moves c0 (state (a_core c0)) ws c' ∧ a_scope c' = a_scope c0.
Proof. intros [_ Hs] [H Hs']. split; [done|congruence]. Qed.



(** *** The messages one by one *)






















Lemma wp_report_hold m received e : wp (report received e) (λ _, outcome m) c0.
Proof.
  eapply mwp_report; [apply moves_refl|]. intros c1 [H1 Hs1] _. eapply outcome_hold; [done|auto].
Qed.

End sgp.

(** ** Steps *)

Definition received (e : event) (m : M3UA) : Prop :=
  match e with
  | EReceive raw => ParseWithOptions (in_data raw) (in_options raw) = Ok m
  | _ => False
  end.

Definition wrote (c c' : association) (m : M3UA) (err : option asp_error) : Prop :=
  ∃ l, a_out c' = a_out c ++ l ∧ AWrite m err ∈ l.

Definition is_displacement (e : event) : bool :=
  match e with EDisplaced _ | EDisplacedAfterBarrier => true | _ => false end.

(** What Figure 3 lets the event [e] do to the peer's state between [c] and [c']. *)
Inductive figure3 (e : event) (c c' : association) : State → State → Prop :=
| fig_hold s : figure3 e c c' s s
| fig_up s m ack err :
    received e (Typed KAspUp m) → wrote c c' (Typed KAspUpAck ack) err →
    figure3 e c c' s StateASPInactive
| fig_active s m ack :
    received e (Typed KAspActive m) → s ≠ StateASPDown →
    wrote c c' (Typed KAspActiveAck ack) None → figure3 e c c' s StateASPActive
| fig_inactive m :
    received e (Typed KAspInactive m) →
    spent c ∨ (∃ ack err, wrote c c' (Typed KAspInactiveAck ack) err) →
    figure3 e c c' StateASPActive StateASPInactive
| fig_displaced :
    is_displacement e = true → figure3 e c c' StateASPActive StateASPInactive
| fig_down s m ack err :
    received e (Typed KAspDown m) → wrote c c' (Typed KAspDownAck ack) err →
    figure3 e c c' s StateASPDown
| fig_end s :
    e = EOpen ∨ e = ERestart ∨ ended (a_core c') = true → figure3 e c c' s StateASPDown.

(** An override takes a peer that is ASP-ACTIVE, or has gone down since. *)
Definition timely (e : event) (c : association) : Prop :=
  match e with EDisplaced _ => State_ c ≠ StateASPInactive | _ => True end.

(** What an SGP keeps of its peer. *)
Record sgp_sound (c : association) : Prop := mk_sgp_sound {
  ss_role : role (a_cfg c) = RoleSGP;
  ss_consistent : consistent c;
  ss_ended : ended (a_core c) = true → state (a_core c) = StateASPDown;
}.

Definition landed (e : event) (c c' : association) : Prop :=
  sgp_sound c' ∧ figure3 e c c' (State_ c) (State_ c').




Section live.
Context (env : environment) (c0 : association).
Context (Hsound : sgp_sound c0) (Hended : ended (a_core c0) = false).

Lemma live_state : State_ c0 = state (a_core c0).
Proof. unfold State_. by rewrite Hended. Qed.

Lemma moved_sound s ws c' : moves c0 s ws c' → consistent c' → sgp_sound c'.
Proof.
  intros H Hc. split; [|done|].
  - rewrite (mv_cfg _ _ _ _ H). apply Hsound.
  - rewrite (mv_ended _ _ _ _ H), Hended. done.
Qed.

Lemma landed_stays e ws c' :
  moves c0 (state (a_core c0)) ws c' → consistent c' → landed e c0 c'.
Proof.
  intros H Hc. split; [by eapply moved_sound|].
  rewrite (sgp_state c0 Hended _ _ _ H), live_state. constructor.
Qed.

Lemma landed_hold e ws c' :
  moves c0 (state (a_core c0)) ws c' → a_scope c' = a_scope c0 → landed e c0 c'.
Proof.
  intros H Hs. eapply landed_stays; [done|].
  eapply consistent_scope; [|done|apply Hsound]. apply (mv_state _ _ _ _ H).
Qed.

Lemma quiet_landed e c1 c' : landed e c0 c1 → quiet true c1 c' → landed e c0 c'.
Proof.
  intros [Hs Hf] Hq. destruct Hs as [Hr Hc He]. split.
  - split; [by rewrite (q_cfg _ _ _ Hq)| |by rewrite (q_core _ _ _ Hq)].
    eapply consistent_scope; [by rewrite (q_core _ _ _ Hq)|by apply (q_scope _ _ _ Hq)|done].
  - assert (State_ c' = State_ c1) as -> by (unfold State_; by rewrite (q_core _ _ _ Hq)).
    assert (Hw : ∀ m err, wrote c0 c1 m err → wrote c0 c' m err).
    { intros m err (l & Hl & Hin). destruct (q_out _ _ _ Hq) as (l' & Hl' & _).
      exists (l ++ l'). rewrite Hl', Hl, (assoc_L (++)). split; [done|]. apply elem_of_app. by left. }
    destruct Hf; try solve [econstructor; eauto].
    + eapply fig_inactive; [done|]. naive_solver.
    + apply fig_end. by rewrite (q_core _ _ _ Hq).
Qed.
















Lemma live_quiet {A} (m : M A) e : steps (quiet true) m → wp m (λ _, landed e c0) c0.
Proof.
  intros Hm. eapply mwp_steady; [apply moves_refl|done|]. intros a c1 [H1 Hs1]. by eapply landed_hold.
Qed.

(** An SGP starts no procedure. *)
Lemma live_refused {A B} (m : M A) (a : A) (f : A → M B) e :
  (∀ c, role (a_cfg c) = RoleSGP → m c = (a, c)) → (∀ c, (f a c).2 = c) →
  wp (m ≫= f) (λ _, landed e c0) c0.
Proof.
  intros Hm Hf. apply wp_bind. unfold wp. rewrite Hm by apply Hsound. cbn. rewrite Hf.
  eapply landed_hold; [apply moves_refl|done].
Qed.












End live.

(** ** After the end *)

Section over.
Context (env : environment) (c0 : association).
Context (Hsound : sgp_sound c0) (Hended : ended (a_core c0) = true).









End over.

(** ** Runs *)

(** The states of an SGP whose overrides are timely. *)
Inductive sgp_reachable (cfg : AssociationConfig) : association → Prop :=
| sgp_new : sgp_reachable cfg (newAssociation cfg)
| sgp_step env e c c' :
    sgp_reachable cfg c → timely e c → step env e c = Some c' → sgp_reachable cfg c'.




(** A run with one environment, as long as overrides are timely. *)
Definition is_timely (e : event) (c : association) : bool :=
  match e with EDisplaced _ => negb (bool_decide (State_ c = StateASPInactive)) | _ => true end.

Fixpoint run_timely (env : environment) (l : list event) (c : association) : option association :=
  match l with
  | [] => Some c
  | e :: l => if is_timely e c then c ← step env e c; run_timely env l c else None
  end.

Lemma is_timely_spec e c : is_timely e c = true → timely e c.
Proof. destruct e; try done. cbn. rewrite negb_true_iff. apply bool_decide_eq_false. Qed.

Lemma run_timely_reachable cfg env l c c' :
  sgp_reachable cfg c → run_timely env l c = Some c' → sgp_reachable cfg c'.
Proof.
  revert c. induction l as [|e l IH]; intros c Hc; cbn [run_timely]; [by intros [= <-]|].
  destruct (is_timely e c) eqn:Ht; [|done]. destruct (step env e c) as [c1|] eqn:Hs; [|done].
  apply IH. eapply sgp_step; [done|by apply is_timely_spec|done].
Qed.

Module Concrete.
(** Everything works, and every request is granted. *)
Definition granting : environment :=
  mkEnvironment (λ _, true) (λ _, []) (λ _, true) (λ _, true) false (λ _, true) (λ _ mode, inl mode)
    (λ _, true) (λ _, false) (λ _, None).

Definition sgp : AssociationConfig :=
  mkAssociationConfig RoleSGP None None
    [mkASConfig (mkASKey 0 false 1 true) 2; mkASConfig (mkASKey 0 false 2 true) 2]
    None true false 5.

Definition octets (m : M3UA) : bytes :=
  match MarshalBinary m with Ok (_, raw) => raw | _ => [] end.

Definition receive (m : M3UA) : event := EReceive (mkInbound (octets m) 0 3 false None).

Definition up : event := receive (Typed KAspUp (AspUp.NewAspUp None None)).
Definition active : event := receive (Typed KAspActive (AspActive.NewAspActive None None None)).
Definition inactive : event := receive (Typed KAspInactive (AspInactive.NewAspInactive None None)).

(** Up, then active, each state applied by the monitor. *)
Definition to_active : list event := [EOpen; up; ETake; EApply; active; ETake; EApply].

Definition after (l : list event) : association :=
  default (newAssociation sgp) (run_timely granting l (newAssociation sgp)).

Definition resting : association := after (to_active ++ [inactive; ETake; EApply]).
Definition late : event := EDisplaced (mkASKey 0 false 1 true).
Definition next (e : event) (c : association) : association := default c (step granting e c).


Lemma resting_reachable : sgp_reachable sgp resting.
Proof.
  apply (run_timely_reachable sgp granting (to_active ++ [inactive; ETake; EApply]) (newAssociation sgp));
    [constructor|]. vm_compute. reflexivity.
Qed.


End Concrete.

(** C40: An override that reaches a peer only after its ASP Inactive has been
    answered and applied names what is left of all its Routing Contexts as active:
    the next ASP Inactive makes the peer ASP-ACTIVE, with no ASP Active received. *)
Theorem late_displacement_activates :
  ∃ c c1 c2, sgp_reachable Concrete.sgp c ∧ State_ c = StateASPInactive ∧
    step Concrete.granting Concrete.late c = Some c1 ∧ State_ c1 = StateASPInactive ∧
    step Concrete.granting Concrete.inactive c1 = Some c2 ∧ State_ c2 = StateASPActive.
Proof.
  exists Concrete.resting, (Concrete.next Concrete.late Concrete.resting),
    (Concrete.next Concrete.inactive (Concrete.next Concrete.late Concrete.resting)).
  split; [exact Concrete.resting_reachable|].
  repeat (split; [vm_compute; reflexivity|]). vm_compute. reflexivity.
Qed.
