(* ===== verification/TackTheory.v ===== *)
(** * The requests that wait for an acknowledgement

    A request for several Routing Contexts may be acknowledged in parts; it is
    retired with the Ack that names the last of them. *)

From coqutil Require Import Datatypes.RecordSettersUsingExistingGetters.
From S2P Require Import Prelude Params ParamValues Inventory Header Message Tack.
#[local] Open Scope Z_scope.

(** ** One Ack *)

(** What an Ack leaves of a request, and whether the request still waits. *)
Definition claimed (acknowledged : option Param) (r : pendingRequest) : pendingRequest * bool :=
  let '(matched, remaining) := answer acknowledged r in
  if negb matched then (r, true)
  else
    let r := r <| r_remaining := remaining |> in
    if bool_decide (remaining ≠ ∅) then (r, true) else (stopRetries r, false).

Lemma requests_update id f t : requests (update_request id f t) = alter f id (requests t).
Proof. done. Qed.
Lemma pending_update id f t : pending (update_request id f t) = pending t.
Proof. done. Qed.
Lemma requests_drop id t : requests (drop_request id t) = requests t.
Proof. done. Qed.
Lemma pending_drop id t : pending (drop_request id t) = pending t ∖ {[id]}.
Proof. done. Qed.

Lemma claimStep_other acknowledged acc id r id' :
  id' ≠ id →
  requests (claimStep acknowledged acc (id, r)).2 !! id' = requests acc.2 !! id' ∧
  (id' ∈ pending (claimStep acknowledged acc (id, r)).2 ↔ id' ∈ pending acc.2).
Proof.
  intros Hne. destruct acc as [result t]. unfold claimStep.
  destruct (answer acknowledged r) as [[] remaining]; cbn [negb]; [|done].
  case_bool_decide; cbn [snd].
  - by rewrite requests_update, lookup_alter_ne.
  - rewrite requests_drop, pending_drop, !requests_update, !lookup_alter_ne by done.
    rewrite !pending_update. set_solver.
Qed.

Lemma claimStep_self acknowledged acc id r :
  requests acc.2 !! id = Some r → id ∈ pending acc.2 →
  requests (claimStep acknowledged acc (id, r)).2 !! id = Some (claimed acknowledged r).1 ∧
  (id ∈ pending (claimStep acknowledged acc (id, r)).2 ↔ (claimed acknowledged r).2 = true).
Proof.
  intros Hr Hp. destruct acc as [result t]. unfold claimed, claimStep. cbn [snd] in *.
  destruct (answer acknowledged r) as [[] remaining]; cbn [negb]; [|done].
  case_bool_decide; cbn [fst snd].
  - by rewrite requests_update, lookup_alter_eq, Hr.
  - rewrite requests_drop, pending_drop, !requests_update, !lookup_alter_eq, Hr.
    split; [done|]. rewrite !pending_update. set_solver.
Qed.

Lemma claimSteps_other acknowledged entries acc id :
  id ∉ entries.*1 →
  requests (foldl (claimStep acknowledged) acc entries).2 !! id = requests acc.2 !! id ∧
  (id ∈ pending (foldl (claimStep acknowledged) acc entries).2 ↔ id ∈ pending acc.2).
Proof.
  revert acc. induction entries as [|[id' r'] entries IH]; intros acc Hid; [done|].
  cbn in Hid. apply not_elem_of_cons in Hid as [Hne Hid]. cbn [foldl].
  destruct (IH (claimStep acknowledged acc (id', r')) Hid) as [-> ->].
  by apply claimStep_other.
Qed.

Lemma claimSteps_self acknowledged entries acc id r :
  NoDup entries.*1 → (id, r) ∈ entries → requests acc.2 !! id = Some r → id ∈ pending acc.2 →
  requests (foldl (claimStep acknowledged) acc entries).2 !! id = Some (claimed acknowledged r).1 ∧
  (id ∈ pending (foldl (claimStep acknowledged) acc entries).2 ↔ (claimed acknowledged r).2 = true).
Proof.
  revert acc. induction entries as [|[id' r'] entries IH]; intros acc Hnd Hin Hr Hp.
  { by apply elem_of_nil in Hin. }
  cbn in Hnd. apply NoDup_cons in Hnd as [Hnot Hnd]. cbn [foldl].
  apply elem_of_cons in Hin as [[= <- <-]|Hin].
  - destruct (claimSteps_other acknowledged entries (claimStep acknowledged acc (id, r)) id Hnot) as [-> ->].
    by apply claimStep_self.
  - assert (id ≠ id').
    { intros <-. apply Hnot. apply list_elem_of_fmap. by exists (id, r). }
    destruct (claimStep_other acknowledged acc id' r' id) as [Hr' Hp']; [done|].
    apply IH; [done..|by rewrite Hr'|by apply Hp'].
Qed.

Lemma entries_keys t : NoDup (pendingRequestEntries t).*1.
Proof.
  unfold pendingRequestEntries. pose proof (NoDup_elements (pending t)) as Hnd.
  induction (elements (pending t)) as [|id ids IH]; [apply NoDup_nil_2|].
  apply NoDup_cons in Hnd as [Hid Hnd]. cbn.
  destruct (requests t !! id) as [r|]; cbn; [|by apply IH].
  apply NoDup_cons. split; [|by apply IH]. intros Hin. apply Hid.
  apply list_elem_of_fmap in Hin as ([id' r'] & -> & Hin). apply list_elem_of_omap in Hin as (k & Hk & Heq).
  destruct (requests t !! k); cbn in Heq; [|done]. by simplify_eq/=.
Qed.

Lemma elem_of_entries t id r :
  (id, r) ∈ pendingRequestEntries t ↔ id ∈ pending t ∧ requests t !! id = Some r.
Proof.
  unfold pendingRequestEntries. rewrite list_elem_of_omap. setoid_rewrite elem_of_elements.
  split.
  - intros (k & Hk & Heq). destruct (requests t !! k) eqn:E; cbn in Heq; by simplify_eq/=.
  - intros [Hp Hr]. exists id. by rewrite Hr.
Qed.

Lemma elem_of_kind_entries kind t id r :
  (id, r) ∈ pendingRequestEntriesLocked kind t ↔
  id ∈ pending t ∧ requests t !! id = Some r ∧ r_kind r = kind.
Proof.
  unfold pendingRequestEntriesLocked.
  rewrite list_elem_of_In, filter_In, <-list_elem_of_In, elem_of_entries. cbn.
  rewrite bool_decide_eq_true. tauto.
Qed.

Lemma kind_entries_keys kind t : NoDup (pendingRequestEntriesLocked kind t).*1.
Proof.
  unfold pendingRequestEntriesLocked. pose proof (entries_keys t) as Hnd.
  induction (pendingRequestEntries t) as [|[id r] l IH]; [done|].
  cbn in *. apply NoDup_cons in Hnd as [Hid Hnd]. case_bool_decide; cbn; [|by apply IH].
  apply NoDup_cons. split; [|by apply IH]. intros Hin. apply Hid.
  apply list_elem_of_fmap in Hin as ([id' r'] & -> & Hin).
  apply list_elem_of_In, filter_In in Hin as [Hin _].
  apply list_elem_of_fmap. exists (id', r'). split; [done|]. by apply list_elem_of_In.
Qed.

Lemma record_frame kind acknowledged t :
  requests (recordASPTMAcknowledgementLocked kind acknowledged t) = requests t ∧
  pending (recordASPTMAcknowledgementLocked kind acknowledged t) = pending t.
Proof. by destruct kind. Qed.

Lemma claim_frame kind acknowledged wire t :
  let t' := (claimTAckAcknowledgementForScope kind acknowledged wire t).2 in
  let t1 := (foldl (claimStep acknowledged) (mkAcknowledgement false [], t)
               (pendingRequestEntriesLocked kind t)).2 in
  requests t' = requests t1 ∧ pending t' = pending t1.
Proof.
  cbn zeta. unfold claimTAckAcknowledgementForScope. destruct (foldl _ _ _) as [result t1].
  destruct (solicited result); [|done]. cbn.
  destruct wire; [apply record_frame|].
  destruct (record_frame kind None (recordASPTMAcknowledgementLocked kind acknowledged t1)) as [-> ->].
  apply record_frame.
Qed.

(** What an Ack does to a request that waits, and to one that does not. *)
Lemma claim_self kind acknowledged t id r :
  id ∈ pending t → requests t !! id = Some r → r_kind r = kind →
  let t' := (claimTAckAcknowledgement kind acknowledged t).2 in
  requests t' !! id = Some (claimed acknowledged r).1 ∧
  (id ∈ pending t' ↔ (claimed acknowledged r).2 = true).
Proof.
  intros Hp Hr Hk. cbn zeta. unfold claimTAckAcknowledgement.
  destruct (claim_frame kind acknowledged acknowledged t) as [-> ->].
  apply claimSteps_self; [apply kind_entries_keys|by apply elem_of_kind_entries|done|done].
Qed.

Lemma claim_retired kind acknowledged t id :
  id ∉ pending t → id ∉ pending (claimTAckAcknowledgement kind acknowledged t).2.
Proof.
  intros Hp. unfold claimTAckAcknowledgement.
  destruct (claim_frame kind acknowledged acknowledged t) as [_ ->].
  assert (Hn : id ∉ (pendingRequestEntriesLocked kind t).*1).
  2: { by rewrite (proj2 (claimSteps_other acknowledged _ (mkAcknowledgement false [], t) id Hn)). }
  intros Hin. apply list_elem_of_fmap in Hin as ([id' r'] & -> & Hin).
  by apply elem_of_kind_entries in Hin as [? _].
Qed.

(** ** A sequence of Acks *)

Definition claims (kind : requestKind) (acks : list Param) (t : tackRetransmitter)
    : tackRetransmitter :=
  foldl (λ t p, (claimTAckAcknowledgement kind (Some p) t).2) t acks.

(** The Routing Contexts some Ack names. *)
Definition covered (acks : list Param) : gset Z :=
  ⋃ ((λ p, list_to_set (RoutingContexts (Some p))) <$> acks).

Lemma claims_retired kind acks t id : id ∉ pending t → id ∉ pending (claims kind acks t).
Proof.
  revert t. induction acks as [|p acks IH]; intros t Hp; [done|].
  apply (IH _), claim_retired, Hp.
Qed.

Lemma claimed_scoped p r rcs :
  r_routingContexts r = Some rcs → r_remaining r ⊆ rcs → r_remaining r ≠ ∅ →
  let named : gset Z := list_to_set (RoutingContexts (Some p)) in
  let r' := (claimed (Some p) r).1 in
  r_kind r' = r_kind r ∧ r_routingContexts r' = Some rcs ∧
  r_remaining r' = r_remaining r ∖ named ∧
  ((claimed (Some p) r).2 = true ↔ r_remaining r ∖ named ≠ ∅).
Proof.
  intros Hrcs Hsub Hne. cbn zeta. unfold claimed, answer. rewrite Hrcs.
  set (named := List.filter _ _).
  assert (Hnamed : r_remaining r ∖ list_to_set named =
                   r_remaining r ∖ list_to_set (RoutingContexts (Some p))).
  { apply set_eq. intros x. rewrite !elem_of_difference, !elem_of_list_to_set. unfold named.
    rewrite !list_elem_of_In, filter_In, bool_decide_eq_true. specialize (Hsub x). tauto. }
  destruct (0 <? len named) eqn:E; cbn [negb].
  - rewrite Hnamed. case_bool_decide as Hd; cbn; [done|]. split_and!; try done.
  - assert (named = []) as Hnil.
    { destruct named; [done|]. unfold len in E. cbn in E. apply Z.ltb_ge in E. lia. }
    rewrite Hnil in Hnamed. cbn in Hnamed. rewrite difference_empty_L in Hnamed.
    cbn. rewrite <-Hnamed. done.
Qed.

Lemma empty_without (X : gset Z) : ∅ ∖ X = ∅.
Proof. set_solver. Qed.
Lemma without_union (X Y Z' : gset Z) : X ∖ (Y ∪ Z') = (X ∖ Y) ∖ Z'.
Proof. set_solver. Qed.
Lemma without_sub (X Y Z' : gset Z) : X ⊆ Z' → X ∖ Y ⊆ Z'.
Proof. set_solver. Qed.

Lemma claims_remaining kind acks t id r rcs :
  id ∈ pending t → requests t !! id = Some r → r_kind r = kind →
  r_routingContexts r = Some rcs → r_remaining r ⊆ rcs → r_remaining r ≠ ∅ →
  (id ∈ pending (claims kind acks t) ↔ r_remaining r ∖ covered acks ≠ ∅).
Proof.
  revert t r. induction acks as [|p acks IH]; intros t r Hp Hr Hk Hrcs Hsub Hne.
  { unfold covered. cbn. rewrite difference_empty_L. done. }
  destruct (claim_self kind (Some p) t id r Hp Hr Hk) as [Hr' Hp'].
  destruct (claimed_scoped p r rcs Hrcs Hsub Hne) as (Hk' & Hrcs' & Hrem & Hwait).
  assert (Hcov : r_remaining r ∖ covered (p :: acks) =
    r_remaining (claimed (Some p) r).1 ∖ covered acks).
  { rewrite Hrem. unfold covered. cbn [fmap list_fmap union_list]. apply without_union. }
  rewrite Hcov. change (claims kind (p :: acks) t) with
    (claims kind acks (claimTAckAcknowledgement kind (Some p) t).2).
  destruct (decide (r_remaining (claimed (Some p) r).1 = ∅)) as [He|He].
  - rewrite He, empty_without. split; [|done]. intros Hin. exfalso. revert Hin. apply claims_retired.
    rewrite Hp', Hwait, <-Hrem, He. by intros [].
  - apply IH; [|done|by rewrite Hk'|done|rewrite Hrem; by apply without_sub|done].
    apply Hp', Hwait. by rewrite <-Hrem.
Qed.

(** C11: A request that names Routing Contexts waits until the Acks received for its
    kind have named all of them, in one Ack or in many and whatever else they name:
    it is pending exactly while some of its contexts have not been acknowledged. *)
Theorem request_waits_for_all_contexts kind acks t id r rcs :
  id ∈ pending t → requests t !! id = Some r → r_kind r = kind →
  r_routingContexts r = Some rcs → r_remaining r = rcs → rcs ≠ ∅ →
  (id ∈ pending (claims kind acks t) ↔ ¬ rcs ⊆ covered acks).
Proof.
  intros Hp Hr Hk Hrcs <- Hne.
  rewrite (claims_remaining kind acks t id r (r_remaining r)) by done.
  destruct (decide (r_remaining r ⊆ covered acks)) as [Hs|Hs].
  - rewrite subseteq_empty_difference_L by done. tauto.
  - split; [done|]. intros _ He. by apply Hs, empty_difference_subseteq_L.
Qed.

Module Concrete.
(** An ASP Active for the contexts 1, 2 and 3. *)
Definition request : M3UA :=
  Typed KAspActive (MsgAsptm.AspActive.NewAspActive None (Some (NewRoutingContext [1; 2; 3])) None).
Definition waiting : tackRetransmitter := (startTAck [] false request requestAspActive newTAckRetransmitter).2.
Definition acks : list Param := [NewRoutingContext [3; 1]; NewRoutingContext [2; 1]].

Definition armed : pendingRequest := default (mkRequest request requestNone None ∅ false false None 0) (requests waiting !! 0).

Lemma request_waits_for_all_contexts_witness :
  (0 ∈ pending (claims requestAspActive acks waiting) ↔
     ¬ r_remaining armed ⊆ covered acks) ∧
  bool_decide (0 ∈ pending (claims requestAspActive acks waiting)) = false ∧
  bool_decide (0 ∈ pending (claims requestAspActive (take 1 acks) waiting)) = true.
Proof.
  split; [|split; vm_compute; reflexivity].
  apply (request_waits_for_all_contexts requestAspActive acks waiting 0 armed (r_remaining armed)).
  - apply (bool_decide_unpack _). vm_compute. exact I.
  - vm_compute. reflexivity.
  - vm_compute. reflexivity.
  - vm_compute. reflexivity.
  - reflexivity.
  - apply (bool_decide_unpack _). vm_compute. exact I.
Defined.
End Concrete.
