(* ===== verification/AspProperties.v ===== *)
(** * What the ASP procedures promise their peer

    Retransmission ends; the peer stands down and traffic is halted before the Ack
    that says so, and the Notify follows the Ack. *)

From coqutil Require Import Datatypes.RecordSettersUsingExistingGetters.
From S2P Require Import Prelude Params ParamsFacts ParamValues Inventory AppServer Header Codec.
From S2P Require Import MsgData MsgSsnm MsgAspsm MsgAsptm MsgMgmt Message Compat.
From S2P Require Import Tack Association AspProcedures AspMachine AssociationFacts AspTheory AspStates.
#[local] Open Scope Z_scope.

(** ** Retransmission *)

Section retransmission.
Context (env : environment) (req : Z) (r : pendingRequest).
Context (Hwrite : ∀ n, e_write env n = true) (Hrunning : r_stopped r = false).
Context (Hresult : r_result r = None).

(** T(ack) of the request fires. *)
Definition fire (c : association) : association := (runTAckStep env req c).2.

(** The request has been sent [k] times again. *)
Record armed (cfg : AssociationConfig) (k : Z) (c : association) : Prop := mk_armed {
  ar_cfg : a_cfg c = cfg;
  ar_live : ended (a_core c) = false;
  ar_request : requests (a_tack c) !! req = Some (r <| r_attempt := k |>);
  ar_pending : req ∈ pending (a_tack c);
}.

Lemma retries_positive c : 0 < retries c.
Proof. unfold retries, DefaultTAckRetries. destruct (0 <? _) eqn:E; lia. Qed.

Lemma retries_cfg c c' : a_cfg c' = a_cfg c → retries c' = retries c.
Proof. unfold retries. by intros ->. Qed.

Lemma fire_again cfg k c :
  armed cfg k c → k < retries c →
  armed cfg (k + 1) (fire c) ∧ a_out (fire c) = a_out c ++ [AWrite (r_msg r) None] ∧
  a_reports (fire c) = a_reports c.
Proof.
  intros [Hcfg Hlive Hreq Hpend] Hk. apply Z.ltb_lt in Hk. unfold fire.
  change (wp (runTAckStep env req) (λ _ c', armed cfg (k + 1) c' ∧
    a_out c' = a_out c ++ [AWrite (r_msg r) None] ∧ a_reports c' = a_reports c) c).
  unfold runTAckStep. wp_step. rewrite Hreq. cbn [r_stopped r_attempt r_msg].
  change (r_stopped (r <| r_attempt := k |>)) with (r_stopped r).
  change (r_attempt (r <| r_attempt := k |>)) with k. rewrite Hrunning, Hlive, Hk. cbn [orb].
  apply wp_bind. unfold writeControl, writeSignal.
  apply wp_bind, wp_bind, wp_gets. rewrite Hwrite. cbn zeta.
  apply wp_bind, wp_modify, wp_bind, wp_modify, wp_ret, wp_bind, wp_get, wp_bind.
  assert (Hlast : ∀ c1, a_cfg c1 = a_cfg c → ended (a_core c1) = false →
    requests (a_tack c1) = requests (a_tack c) → pending (a_tack c1) = pending (a_tack c) →
    a_out c1 = a_out c ++ [AWrite (r_msg r) None] → a_reports c1 = a_reports c →
    wp (mret None) (λ err : option asp_error, wp (match err with
      | Some e => with_tack (forgetTAckRequest req (r_kind (r <| r_attempt := k |>)) e);; mret tt
      | None => modify_tack (update_request req (λ r, r <| r_attempt ::= Z.succ |>)) end)
      (λ _ c', armed cfg (k + 1) c' ∧ a_out c' = a_out c ++ [AWrite (r_msg r) None] ∧
        a_reports c' = a_reports c)) c1).
  { intros c1 H1 H2 H3 H4 H5 H6. apply wp_ret, wp_modify. split; [|done]. split; cbn.
    - by rewrite H1.
    - done.
    - change (alter (λ r, r <| r_attempt ::= Z.succ |>) req (requests (a_tack c1)) !! req =
              Some (r <| r_attempt := k + 1 |>)).
      by rewrite H3, lookup_alter_eq, Hreq.
    - change (req ∈ pending (a_tack c1)). by rewrite H4. }
  apply wp_when; intros _; [apply wp_modify|]; by apply Hlast.
Qed.

Lemma fire_often cfg n c :
  armed cfg 0 c → Z.of_nat n ≤ retries c →
  let c' := Nat.iter n fire c in
  armed cfg (Z.of_nat n) c' ∧ a_out c' = a_out c ++ replicate n (AWrite (r_msg r) None) ∧
  a_reports c' = a_reports c.
Proof.
  intros Ha. induction n as [|n IH]; intros Hn; cbn zeta.
  { cbn. rewrite app_nil_r. done. }
  destruct IH as (IH & Hout & Hrep); [lia|].
  assert (Hret : retries (Nat.iter n fire c) = retries c).
  { apply retries_cfg. rewrite (ar_cfg _ _ _ IH). symmetry. apply Ha. }
  destruct (fire_again cfg (Z.of_nat n) (Nat.iter n fire c)) as (H1 & H2 & H3); [done|lia|].
  rewrite Nat.iter_succ, Nat2Z.inj_succ. split_and!; [done| |congruence].
  rewrite H2, Hout, <-(assoc_L (++)). f_equal. by rewrite <-replicate_cons_app.
Qed.

(** A settled request sends nothing. *)
Lemma fire_stopped c r' :
  requests (a_tack c) !! req = Some r' → r_stopped r' = true → fire c = c.
Proof.
  intros Hreq Hs. unfold fire, runTAckStep, mbind, M_bind, get. by rewrite Hreq, Hs.
Qed.

Lemma fire_last cfg c :
  armed cfg (retries c) c →
  a_out (fire c) = a_out c ∧ a_reports (fire c) = (a_reports c ++ [(None, ErrTAckExpired)]) ∧
  (req ∉ pending (a_tack (fire c))) ∧
  ∃ r', requests (a_tack (fire c)) !! req = Some r' ∧ r_stopped r' = true ∧
    r_result r' = Some (Some ErrTAckExpired).
Proof.
  intros [Hcfg Hlive Hreq Hpend]. unfold fire, runTAckStep, mbind, M_bind, get. rewrite Hreq.
  change (r_stopped (r <| r_attempt := retries c |>)) with (r_stopped r).
  change (r_attempt (r <| r_attempt := retries c |>)) with (retries c).
  rewrite Hrunning, Hlive, Z.ltb_irrefl. cbn [orb].
  unfold with_tack, forgetTAckRequest.
  rewrite bool_decide_eq_true_2 by done. rewrite Hreq.
  rewrite bool_decide_eq_true_2 by done. cbn [andb when].
  unfold sendErr, report, modify. cbn. split_and!; [done|done| |].
  - change (req ∉ pending (a_tack c) ∖ {[req]}). set_solver.
  - exists (finish (Some ErrTAckExpired) (r <| r_attempt := retries c |>)). split.
    + change (alter (finish (Some ErrTAckExpired)) req (requests (a_tack c)) !! req =
              Some (finish (Some ErrTAckExpired) (r <| r_attempt := retries c |>))).
      by rewrite lookup_alter_eq, Hreq.
    + unfold finish. change (r_result (r <| r_attempt := retries c |>)) with (r_result r).
      by rewrite Hresult.
Qed.
End retransmission.

(** C10: A request that is never acknowledged is sent again exactly as often as the
    Association is configured to retry, whatever else happened before; when T(ack)
    fires once more its waiter gets [ErrTAckExpired], which is reported once and ends
    the Association, and the timer never sends again. *)
Theorem retransmission_ends env req r c :
  (∀ n, e_write env n = true) → r_stopped r = false → r_result r = None → r_attempt r = 0 →
  ended (a_core c) = false → requests (a_tack c) !! req = Some r → req ∈ pending (a_tack c) →
  let n := Z.to_nat (retries c) in
  let c1 := Nat.iter n (fire env req) c in
  let c2 := fire env req c1 in
  (a_out c1 = a_out c ++ replicate n (AWrite (r_msg r) None) ∧ a_reports c1 = a_reports c ∧
   req ∈ pending (a_tack c1)) ∧
  (a_out c2 = a_out c1 ∧ a_reports c2 = a_reports c ++ [(None, ErrTAckExpired)] ∧
   waitTAck req (a_tack c2) = Some (Some ErrTAckExpired) ∧ (req ∉ pending (a_tack c2)) ∧
   errorAnswer None ErrTAckExpired c2 = None) ∧
  ∀ m, Nat.iter m (fire env req) c2 = c2.
Proof.
  intros Hw Hs Hres Hat Hlive Hreq Hpend. cbn zeta.
  assert (Ha : armed req r (a_cfg c) 0 c).
  { split; try done. rewrite Hreq. destruct r. cbn in Hat. by rewrite Hat. }
  pose proof (retries_positive c) as Hpos.
  destruct (fire_often env req r Hw Hs (a_cfg c) (Z.to_nat (retries c)) c Ha) as (H1 & Hout & Hrep);
    [lia|].
  rewrite Z2Nat.id in H1 by lia.
  assert (Hret : retries (Nat.iter (Z.to_nat (retries c)) (fire env req) c) = retries c)
    by (apply retries_cfg, (ar_cfg _ _ _ _ _ H1)).
  rewrite <-Hret in H1 at 1.
  destruct (fire_last env req r Hw Hs Hres (a_cfg c) _ H1) as (Hout' & Hrep' & Hgone & r' & Hr' & Hs' & Hres').
  split_and!; try done.
  - apply (ar_pending _ _ _ _ _ H1).
  - by rewrite Hrep', Hrep.
  - unfold waitTAck. by rewrite Hr'.
  - unfold errorAnswer. by destruct (asConfigNetworkAppearance _).
  - intros m. induction m as [|m IH]; [done|]. rewrite Nat.iter_succ, IH. by eapply fire_stopped.
Qed.

(** ** The order of barrier, Ack and Notify *)

Definition is_barrier (a : action) : bool :=
  match a with
  | AQuiesceASPFor _ | AQuiesceASPDown | AQuiesceUnscopedTraffic | AQuiesceLocalIPSPSSNMTraffic => true
  | _ => false
  end.
Definition is_notify (a : action) : bool := match a with APostNotify => true | _ => false end.

(** Before the Ack nothing is written and no Notify is posted. *)
Definition early (a : action) : bool := negb (is_write a) && negb (is_notify a).
(** After it there is no barrier left. *)
Definition late (a : action) : bool := negb (is_write a) && negb (is_barrier a).

(** What is neither. *)
Definition plain (a : action) : bool := early a && negb (is_barrier a).

(** What an operation appends to the trace. *)
Record did (c : association) (l : list action) (c' : association) : Prop := mk_did {
  d_cfg : a_cfg c' = a_cfg c;
  d_ended : ended (a_core c') = ended (a_core c);
  d_out : a_out c' = a_out c ++ l;
}.

Definition adds (P : action → bool) (c c' : association) : Prop :=
  ∃ l, did c l c' ∧ Forall (λ a, P a = true) l.

Lemma did_refl c : did c [] c.
Proof. split; [done|done|by rewrite app_nil_r]. Qed.

Lemma did_trans c1 c2 c3 l k : did c1 l c2 → did c2 k c3 → did c1 (l ++ k) c3.
Proof. intros [? ? H1] [? ? H2]. split; [congruence..|]. by rewrite H2, H1, (assoc_L (++)). Qed.

#[export] Instance adds_preorder P : PreOrder (adds P).
Proof.
  split.
  - intros c. exists []. eauto using did_refl.
  - intros c1 c2 c3 (l & H1 & Hl) (k & H2 & Hk). exists (l ++ k).
    split; [eauto using did_trans|by apply Forall_app].
Qed.

Create HintDb adds.
#[export] Hint Resolve steps_ret steps_get steps_gets : adds.

Lemma adds_silent P f :
  (∀ c, a_cfg (f c) = a_cfg c) → (∀ c, ended (a_core (f c)) = ended (a_core c)) →
  (∀ c, a_out (f c) = a_out c) → steps (adds P) (modify f).
Proof.
  intros H1 H2 H3 c. exists []. split; [|done]. split; cbn; [done|done|].
  by rewrite H3, app_nil_r.
Qed.
Lemma adds_set_core P f :
  (∀ k, ended (f k) = ended k) → steps (adds P) (set_core f).
Proof. intros H. apply adds_silent; try done. intros c. apply H. Qed.
Lemma adds_emit P a : P a = true → steps (adds P) (emit a).
Proof. intros Ha c. exists [a]. split; [done|]. by constructor. Qed.
Lemma adds_with_tack P {A} (f : tackRetransmitter → A * tackRetransmitter) :
  steps (adds P) (with_tack f).
Proof.
  intros c. unfold with_tack. destruct (f (a_tack c)). exists []. split; [|done].
  split; [done|done|by rewrite app_nil_r].
Qed.
#[export] Hint Resolve adds_with_tack : adds.
#[export] Hint Extern 1 (steps (adds _) (emit _)) => apply adds_emit; reflexivity : adds.
#[export] Hint Extern 1 (steps (adds _) (set_core _)) => apply adds_set_core; reflexivity : adds.
#[export] Hint Extern 1 (steps (adds _) (set_scope _)) => apply adds_silent; reflexivity : adds.
#[export] Hint Extern 1 (steps (adds _) (modify_tack _)) => apply adds_silent; reflexivity : adds.
#[export] Hint Extern 2 (steps (adds _) (modify _)) => apply adds_silent; reflexivity : adds.
#[export] Hint Extern 1 (steps (adds _) (when _ _)) => apply steps_when : adds.
#[export] Hint Extern 1 (steps (adds _) (if ?b then _ else _)) => destruct b : adds.
#[export] Hint Extern 1 (steps (adds _) (match ?x with _ => _ end)) => destruct x : adds.
#[export] Hint Extern 3 (steps (adds _) (mbind _ _)) => apply steps_bind; intros : adds.
#[export] Hint Extern 0 (PreOrder (adds _)) => exact (adds_preorder _) : adds.

Tactic Notation "adds" constr(op) := unfold op; cbn zeta; eauto 20 with adds.

Lemma adds_notifyRoute : steps (adds plain) notifyASPRouteStateChanged.
Proof. adds notifyASPRouteStateChanged. Qed.
Lemma adds_record : ∀ s, steps (adds plain) (recordStateChange s).
Proof. intros s. adds recordStateChange. Qed.
#[export] Hint Resolve adds_notifyRoute adds_record : adds.
Lemma adds_commit s b o : steps (adds plain) (commitStateGuarded s b o).
Proof. adds commitStateGuarded. Qed.
Lemma adds_materialize : steps (adds plain) materializeUnscopedActiveRoutingContextsLocked.
Proof. adds materializeUnscopedActiveRoutingContextsLocked. Qed.
#[export] Hint Resolve adds_commit adds_materialize : adds.
Lemma adds_inactive rcs : steps (adds plain) (noteRoutingContextsInactive rcs).
Proof. unfold noteRoutingContextsInactive, syncSSNMBindings. cbn zeta. eauto 20 with adds. Qed.
Lemma adds_claim env p : steps (adds plain) (claimPeerASPIdentifier env p).
Proof. unfold claimPeerASPIdentifier. destruct p; eauto 20 with adds. Qed.
Lemma adds_resolve env p : steps (adds plain) (resolveASPAuthorization env p).
Proof. adds resolveASPAuthorization. Qed.
#[export] Hint Resolve adds_inactive adds_claim adds_resolve : adds.

(** What leaves the configuration and the membership alone. *)
Definition kept (c c' : association) : Prop := a_cfg c' = a_cfg c ∧ a_member c' = a_member c.

#[export] Instance kept_equivalence : Equivalence kept.
Proof.
  split; [by intros c|by intros c1 c2 []|]. intros c1 c2 c3 [] []. split; congruence.
Qed.
#[export] Instance kept_preorder : PreOrder kept.
Proof. split; apply _. Qed.

Lemma kept_configured c c' : kept c c' → configuredRoutingContexts c' = configuredRoutingContexts c.
Proof.
  intros [Hc Hm]. unfold configuredRoutingContexts, staticallyConfiguredRoutingContexts,
    dynamicRoutingContexts, applicationServerInventory, isIPSPDoubleExchange. by rewrite Hc, Hm.
Qed.

Lemma kept_modify f : (∀ c, kept c (f c)) → steps kept (modify f).
Proof. intros H c. apply H. Qed.
Lemma kept_with_tack {A} (f : tackRetransmitter → A * tackRetransmitter) : steps kept (with_tack f).
Proof. intros c. unfold with_tack. by destruct (f (a_tack c)). Qed.

Ltac keeps :=
  repeat first
    [ progress intros | progress cbn zeta
    | exact kept_preorder | apply steps_ret | apply steps_get | apply steps_gets | apply kept_with_tack
    | apply (steps_when kept) | apply kept_modify; done
    | apply steps_bind
    | match goal with |- steps kept (match ?x with _ => _ end) => destruct x end ].

Lemma wp_kept {A} (m : M A) (Q : A → association → Prop) c :
  steps kept m → wp m (λ a c', kept c c' → Q a c') c → wp m Q c.
Proof. intros Hm HQ. unfold wp in *. apply HQ, Hm. Qed.

Lemma kept_commit s b o : steps kept (commitStateGuarded s b o).
Proof. unfold commitStateGuarded, recordStateChange, notifyASPRouteStateChanged, set_core, emit. keeps. Qed.
Lemma kept_inactive rcs : steps kept (noteRoutingContextsInactive rcs).
Proof.
  unfold noteRoutingContextsInactive, materializeUnscopedActiveRoutingContextsLocked, set_scope, syncSSNMBindings.
  keeps.
Qed.
Lemma kept_quiesceFor rcs : steps kept (quiesceASPFor rcs).
Proof. unfold quiesceASPFor, emit. keeps. Qed.
Lemma kept_unscoped : steps kept quiesceUnscopedTraffic.
Proof. apply kept_modify. done. Qed.
Lemma kept_notify : steps kept postNotify.
Proof. unfold postNotify, emit. keeps. Qed.
Lemma kept_upAck env : steps kept (writeAspUpAck env).
Proof. unfold writeAspUpAck, writeSignal. cbn [writeMandatoryControls]. unfold writeSignal, emit, set_core. keeps. Qed.
Lemma kept_standDown : steps kept standDown.
Proof.
  unfold standDown, commitState. keeps; auto using kept_commit, kept_inactive, kept_quiesceFor, kept_unscoped.
Qed.

Definition is_unscoped (a : action) : bool :=
  match a with AQuiesceUnscopedTraffic => true | _ => false end.

(** Standing the peer down in the registry of Application Servers. *)
Definition is_stand_down (a : action) : bool :=
  match a with AQuiesceASPFor _ | AQuiesceASPDown => true | _ => false end.

(** The stand-downs of a trace. *)
Definition stand_downs (l : list action) : list action := List.filter is_stand_down l.

(** The handler waited for the traffic admitted before, wrote the Ack, and did the
    rest.  [R] relates the Ack to the stand-downs before it; a Notify is posted
    after it exactly when there was one. *)
Definition in_order (R : M3UA → list action → Prop) (c c' : association) : Prop :=
  ∃ l1 m err l2, did c (l1 ++ AWrite m err :: l2) c' ∧ R m (stand_downs l1) ∧
    AQuiesceUnscopedTraffic ∈ l1 ∧ Forall (λ a, early a = true) l1 ∧
    Forall (λ a, late a = true) l2 ∧ existsb is_notify l2 = bool_decide (stand_downs l1 ≠ []).

(** Nothing reached the peer. *)
Definition withheld (c c' : association) : Prop :=
  ∃ l, did c l c' ∧ Forall (λ a, early a = true) l.

Section order.
Context (env : environment) (c0 : association).
Context (Hlive : ended (a_core c0) = false).

(** The handler so far: [downs] are the stand-downs of the peer, [halted] says
    that the barrier has been passed. *)
Record before (downs : list action) (halted : bool) (c : association) : Prop := mk_before {
  b_out : ∃ l, did c0 l c ∧ Forall (λ a, early a = true) l ∧ stand_downs l = downs ∧
    (halted = true → AQuiesceUnscopedTraffic ∈ l);
}.

Lemma before_start : before [] false c0.
Proof. split. exists []. split; [apply did_refl|done]. Qed.

Lemma stand_downs_app l k : stand_downs (l ++ k) = stand_downs l ++ stand_downs k.
Proof. apply List.filter_app. Qed.

Lemma stand_downs_plain k : Forall (λ a, plain a = true) k → stand_downs k = [].
Proof. induction 1 as [|a k Ha _ IH]; [done|]. unfold stand_downs in *. cbn. by destruct a. Qed.

Lemma bwp_plain {A} downs halted c (m : M A) (Q : A → association → Prop) :
  before downs halted c → steps (adds plain) m → (∀ a c', before downs halted c' → Q a c') → wp m Q c.
Proof.
  intros [(l & H & Hl & Hd & Hh)] Hm HQ. apply (wp_steps (adds plain)); [done|].
  intros a c' _ (k & Hk & Hp). apply HQ. split. exists (l ++ k). split_and!.
  - by eapply did_trans.
  - apply Forall_app. split; [done|]. eapply Forall_impl; [exact Hp|]. by intros x [? _]%andb_true_iff.
  - by rewrite stand_downs_app, Hd, stand_downs_plain, app_nil_r.
  - intros E. apply elem_of_app. left. auto.
Qed.

Lemma bwp_emit downs halted c a (Q : () → association → Prop) :
  before downs halted c → early a = true →
  (∀ c', before (downs ++ stand_downs [a]) (is_unscoped a || halted) c' → Q tt c') →
  wp (emit a) Q c.
Proof.
  intros [(l & H & Hl & Hd & Hh)] Ha HQ. apply wp_modify, HQ. split. exists (l ++ [a]). split_and!.
  - eapply did_trans; [done|by split].
  - apply Forall_app. split; [done|by constructor].
  - by rewrite stand_downs_app, Hd.
  - intros E. apply elem_of_app. apply orb_true_iff in E as [E|E]; [right|left; auto].
    destruct a; try done. by left.
Qed.

(** The handler once it has written the Ack. *)
Definition after (R : M3UA → Prop) (downs : list action) (notified : bool) (c : association) : Prop :=
  ∃ l1 m err l2, did c0 (l1 ++ AWrite m err :: l2) c ∧ R m ∧
    AQuiesceUnscopedTraffic ∈ l1 ∧ Forall (λ a, early a = true) l1 ∧
    Forall (λ a, late a = true) l2 ∧ stand_downs l1 = downs ∧ existsb is_notify l2 = notified.

Lemma after_in_order (R : M3UA → list action → Prop) downs c :
  after (λ m, R m downs) downs (bool_decide (downs ≠ [])) c → in_order R c0 c.
Proof. intros (l1 & m & err & l2 & ? & ? & ? & ? & ? & <- & ?). exists l1, m, err, l2. done. Qed.

Lemma before_withheld downs halted c : before downs halted c → withheld c0 c.
Proof. intros [(l & ? & ? & _)]. by exists l. Qed.

Lemma bwp_write downs c m (R : M3UA → Prop) (Q : option asp_error → association → Prop) :
  before downs true c → R m → (∀ err c', after R downs false c' → Q err c') →
  wp (writeMandatoryControls env [m]) Q c.
Proof.
  intros [(l & H & Hl & Hd & Hh)] Hm HQ. cbn [writeMandatoryControls]. wp_step.
  rewrite (d_ended _ _ _ H), Hlive. apply wp_bind. unfold writeSignal. wp_step. cbn zeta.
  apply wp_bind, wp_modify, wp_bind, wp_modify, wp_ret.
  match goal with |- context [AWrite m ?e] => set (err := e) end.
  match goal with |- wp _ _ ?c1 => assert (H1 : after R downs false c1) end.
  { exists l, m, err, []. split_and!; try done; [|by apply Hh]. eapply did_trans; [done|by split]. }
  destruct err; apply wp_ret; by apply HQ.
Qed.

Lemma awp_plain {A} R downs notified c (m : M A) (Q : A → association → Prop) :
  after R downs notified c → steps (adds plain) m → (∀ a c', after R downs notified c' → Q a c') →
  wp m Q c.
Proof.
  intros (l1 & m0 & err & l2 & H & Hack & Hq & He & Hl & Hd & Hn) Hm HQ.
  apply (wp_steps (adds plain)); [done|]. intros a c' _ (k & Hk & Hp). apply HQ.
  assert (Hk' : existsb is_notify k = false).
  { apply not_true_iff_false. rewrite existsb_exists. intros (x & Hx%list_elem_of_In & Hx').
    rewrite Forall_forall in Hp. specialize (Hp x Hx). by destruct x. }
  exists l1, m0, err, (l2 ++ k). split_and!; try done.
  - pose proof (did_trans _ _ _ _ _ H Hk) as H'. by rewrite <-(assoc_L (++)) in H'.
  - apply Forall_app. split; [done|]. eapply Forall_impl; [exact Hp|]. by intros [].
  - by rewrite existsb_app, Hn, Hk', orb_false_r.
Qed.

Lemma awp_notify R downs c (Q : () → association → Prop) :
  after R downs false c → (∀ c', after R downs (hasAS (a_cfg c0)) c' → Q tt c') → wp postNotify Q c.
Proof.
  intros (l1 & m0 & err & l2 & H & Hack & Hq & He & Hl & Hd & Hn) HQ.
  unfold postNotify. wp_step. rewrite (d_cfg _ _ _ H). apply wp_when; intros Has.
  - apply wp_modify, HQ. exists l1, m0, err, (l2 ++ [APostNotify]). split_and!; try done.
    + rewrite (app_comm_cons l2), (assoc_L (++)). eapply did_trans; [done|by split].
    + apply Forall_app. split; [done|by constructor].
    + rewrite existsb_app, Hn. cbn. by rewrite Has.
  - apply HQ. rewrite Has. by exists l1, m0, err, l2.
Qed.

Lemma before_cfg downs halted c : before downs halted c → a_cfg c = a_cfg c0.
Proof. intros [(l & H & _)]. apply H. Qed.

(** What is done where the node has Application Servers. *)
Definition with_AS (a : action) : list action := if hasAS (a_cfg c0) then [a] else [].

Lemma with_AS_some a : bool_decide (with_AS a ≠ []) = hasAS (a_cfg c0).
Proof. unfold with_AS. by destruct (hasAS _). Qed.

(** The barriers. *)
Lemma bwp_quiesceFor rcs halted c (Q : () → association → Prop) :
  before [] halted c → (∀ c', before (with_AS (AQuiesceASPFor rcs)) halted c' → Q tt c') →
  wp (quiesceASPFor rcs) Q c.
Proof.
  intros H HQ. unfold quiesceASPFor. wp_step. rewrite (before_cfg _ _ _ H). unfold with_AS in HQ.
  apply wp_when; intros Has; rewrite Has in HQ; [|by apply HQ]. by eapply bwp_emit.
Qed.
Lemma bwp_quiesceDown halted c (Q : () → association → Prop) :
  before [] halted c → (∀ c', before (with_AS AQuiesceASPDown) halted c' → Q tt c') → wp quiesceASPDown Q c.
Proof.
  intros H HQ. unfold quiesceASPDown. wp_step. rewrite (before_cfg _ _ _ H). unfold with_AS in HQ.
  apply wp_when; intros Has; rewrite Has in HQ; [|by apply HQ]. by eapply bwp_emit.
Qed.
Lemma bwp_unscoped downs halted c (Q : () → association → Prop) :
  before downs halted c → (∀ c', before downs true c' → Q tt c') → wp quiesceUnscopedTraffic Q c.
Proof.
  intros H HQ. unfold quiesceUnscopedTraffic. eapply bwp_emit; [done|done|]. intros c'. cbn.
  rewrite app_nil_r. apply HQ.
Qed.

Context (Hsingle : isIPSPDoubleExchange c0 = false).

Lemma before_single downs halted c : before downs halted c → isIPSPDoubleExchange c = false.
Proof. intros H. unfold isIPSPDoubleExchange. by rewrite (before_cfg _ _ _ H). Qed.

Definition done_right (R : association → M3UA → list action → Prop) (err : option asp_error)
    (c' : association) : Prop :=
  withheld c0 c' ∧ is_Some err ∨ in_order (R c') c0 c'.

Lemma refuse R downs halted c e : before downs halted c → done_right R (Some e) c.
Proof. intros H. left. eauto using before_withheld. Qed.

(** The Acks and the stand-downs before them. *)
Definition up_order (c' : association) (m : M3UA) (downs : list action) : Prop :=
  (∃ a, m = Typed KAspUpAck a) ∧ downs = with_AS (AQuiesceASPFor (configuredRoutingContexts c')).
Definition down_order (m : M3UA) (downs : list action) : Prop :=
  (∃ a, m = Typed KAspDownAck a) ∧ downs = with_AS AQuiesceASPDown.
Definition inactive_order (m : M3UA) (downs : list action) : Prop :=
  ∃ a, m = Typed KAspInactiveAck a ∧
    downs = if bool_decide (State_ c0 = StateASPActive)
            then with_AS (AQuiesceASPFor (RoutingContexts (AspInactiveAck.RoutingContext a))) else [].

Lemma wp_up_in_order m : wp (handleAspUp env m) (done_right up_order) c0.
Proof.
  pose proof before_start as H. unfold handleAspUp. wp_step. cbn zeta.
  repeat (wp_step; [apply wp_ret; by eapply refuse|]). apply wp_bind.
  eapply bwp_plain; [done|eauto 20 with adds|]. intros [e|] c1 H1; [apply wp_ret; by eapply refuse|].
  apply wp_bind. eapply bwp_plain; [done|auto with adds|].
  intros [e|] c2 H2; [apply wp_ret; by eapply refuse|]. rewrite Hsingle.
  apply wp_kept; [unfold modify_tack; keeps; auto using kept_standDown, kept_upAck, kept_notify|].
  apply wp_bind. unfold standDown. apply wp_bind, wp_kept; [apply kept_commit|].
  eapply bwp_plain; [done|unfold commitState; auto with adds|]. intros b c3 H3 K3.
  apply wp_bind, wp_kept; [apply kept_inactive|].
  eapply bwp_plain; [done|auto with adds|]. intros [] c4 H4 K4. wp_step.
  set (downs := with_AS (AQuiesceASPFor (configuredRoutingContexts c4))).
  assert (Hup : ∀ err c', after (λ m, (∃ a, m = Typed KAspUpAck a)) downs (bool_decide (downs ≠ [])) c' →
    kept c2 c' → done_right up_order err c').
  { intros err c' (l1 & m1 & e & l2 & Hd & Hm1 & Hr) K'. right. apply (after_in_order _ downs).
    exists l1, m1, e, l2. split; [done|]. split; [|exact Hr]. split; [done|].
    by rewrite (kept_configured c4 c') by (transitivity c2; [symmetry; by transitivity c3|done]). }
  apply wp_bind.
  eapply bwp_quiesceFor; [done|]. intros c5 H5. eapply bwp_unscoped; [done|]. intros c6 H6.
  apply wp_bind. unfold writeAspUpAck. wp_step.
  eapply (bwp_write _ _ _ (λ m, ∃ a, m = Typed KAspUpAck a)); [done|by eexists|].
  intros err c7 H7. apply wp_bind. eapply awp_notify; [done|].
  rewrite <-(with_AS_some (AQuiesceASPFor (configuredRoutingContexts c4))).
  intros c8 H8. destruct err as [e|]; [apply wp_ret; by eapply Hup|].
  apply wp_bind. eapply awp_plain; [done|auto with adds|]. intros [] c9 H9. apply wp_ret. by eapply Hup.
Qed.

Lemma wp_down_in_order m : wp (handleAspDown env m) (done_right (λ _, down_order)) c0.
Proof.
  pose proof before_start as H. unfold handleAspDown. wp_step. cbn zeta.
  repeat (wp_step; [apply wp_ret; by eapply refuse|]). rewrite Hsingle. apply wp_bind.
  eapply bwp_plain; [done|auto with adds|]. intros sup c1 H1. apply wp_bind.
  eapply bwp_plain; [done|unfold commitPeerDownState, commitState; auto with adds|]. intros b c2 H2.
  apply wp_bind. eapply bwp_quiesceDown; [done|]. intros c3 H3. apply wp_bind.
  eapply bwp_unscoped; [done|]. intros c4 H4. apply wp_bind.
  eapply (bwp_write _ _ _ (λ m, down_order m (with_AS AQuiesceASPDown))); [done|split; eauto|].
  intros err c5 H5. apply wp_bind. eapply awp_notify; [done|]. rewrite <-(with_AS_some AQuiesceASPDown).
  intros c6 H6. apply wp_bind. eapply awp_plain; [done|auto with adds|]. intros [] c7 H7. apply wp_ret. right.
  by eapply after_in_order.
Qed.

Lemma contexts_set_length p : RoutingContexts (Nested.set_length p) = RoutingContexts p.
Proof.
  destruct p as [p|]; [|done]. change (Nested.set_length (Some p)) with (Some (SetLength p)).
  unfold RoutingContexts, get_RoutingContexts, decodeMultiUint32ValData.
  by rewrite Tag_SetLength, Data_SetLength.
Qed.

(** A request that is not refused finds something to stand down from. *)
Lemma inactive_stands named served rcErr :
  validateRoutingContextShape named = None →
  answerRoutingContexts named NewInvalidRoutingContextError NewNoConfiguredASError c0 = (served, rcErr) →
  bool_decide (is_Some rcErr) && bool_decide (served = None) = false →
  bool_decide (is_Some served) || contextless_served served named rcErr c0 = true.
Proof.
  intros Hshape Hans Href. destruct served as [p|]; [done|]. destruct rcErr as [e|]; [done|].
  by eapply answer_contextless.
Qed.

Lemma wp_inactive_in_order m : wp (handleAspInactive env m) (done_right (λ _, inactive_order)) c0.
Proof.
  pose proof before_start as H. unfold handleAspInactive. wp_step. cbn zeta.
  repeat (wp_step; [apply wp_ret; by eapply refuse|]). wp_step.
  destruct (validateRoutingContextShape _) as [e|] eqn:Hshape; [apply wp_ret; by eapply refuse|].
  destruct (answerRoutingContexts _ _ _ _) as [served rcErr] eqn:Hans.
  wp_step.
  { apply andb_true_iff in E1 as [[E1%bool_decide_eq_true _]%andb_true_iff _]. apply wp_ret. left.
    eauto using before_withheld. }
  match goal with |- wp (when ?b _ ;; _) _ _ => set (stands := b) end.
  assert (stands = bool_decide (State_ c0 = StateASPActive) ∧
    (stands = true → bool_decide (is_Some rcErr) && bool_decide (served = None) = false)) as [Hst Href].
  { unfold stands. destruct (bool_decide (State_ c0 = StateASPActive)) eqn:Hact; [|by rewrite andb_false_r].
    apply bool_decide_eq_true in Hact. apply andb_false_iff in E1 as [E1|E1].
    - by rewrite (inactive_stands _ _ _ Hshape Hans E1).
    - apply negb_false_iff, bool_decide_eq_true in E1. congruence. }
  set (downs := if stands then with_AS (AQuiesceASPFor (RoutingContexts served)) else []).
  apply wp_bind. eapply (wp_mono _ (λ _ c1, before downs false c1)).
  { unfold downs. apply wp_when; intros Hs; rewrite Hs; [|done]. apply wp_bind.
    eapply bwp_plain; [done|auto with adds|]. intros [] c1 H1. by eapply bwp_quiesceFor. }
  intros [] c1 H1. apply wp_bind. eapply bwp_unscoped; [done|]. intros c2 H2. apply wp_bind.
  eapply (bwp_write _ _ _ (λ m, inactive_order m downs)); [done| |].
  { eexists. split; [done|]. unfold AspInactiveAck.NewAspInactiveAck. cbn.
    rewrite contexts_set_length, <-Hst. unfold downs. destruct stands; [|done]. by rewrite (Href eq_refl). }
  intros err c3 H3. apply wp_bind.
  eapply (wp_mono _ (λ _ c1, after (λ m, inactive_order m downs) downs (bool_decide (downs ≠ [])) c1)).
  { unfold downs in *. apply wp_when; intros Hs; rewrite Hs in *; [|done]. rewrite with_AS_some.
    by eapply awp_notify. }
  intros [] c4 H4. apply wp_ret. right. by eapply after_in_order.
Qed.
(** *** Where the peer is left *)

Definition unanswered (c' : association) : Prop := ∃ s, moves c0 s [] c'.
Definition left_in (s : State) (c' : association) : Prop := unanswered c' ∨ ∃ ws, moves c0 s ws c'.

Lemma unanswered_quiet {A} (m : M A) (Q : A → association → Prop) c :
  unanswered c → steps (quiet false) m → (∀ a c', unanswered c' → Q a c') → wp m Q c.
Proof.
  intros [s H] Hm HQ. eapply mwp_quiet; [done..|]. intros a c' H'. apply HQ. by exists s.
Qed.

Lemma unanswered_start : unanswered c0.
Proof. eexists. apply moves_refl. Qed.

Lemma wp_up_state m : wp (handleAspUp env m) (λ _ c', left_in StateASPInactive c') c0.
Proof.
  pose proof unanswered_start as H. unfold handleAspUp. wp_step. cbn zeta.
  repeat (wp_step; [apply wp_ret; by left|]). apply wp_bind.
  eapply unanswered_quiet; [done|unfold resolveASPAuthorization; eauto 20 with quiet|].
  intros [e|] c1 H1; [apply wp_ret; by left|]. apply wp_bind.
  eapply unanswered_quiet; [done|apply quiet_claim|]. intros [e|] c2 [s H2]; [apply wp_ret; left; by exists s|].
  rewrite Hsingle. apply wp_bind. eapply wp_standDown; [done..|]. intros c3 H3 _.
  apply wp_bind. unfold writeAspUpAck. wp_step. eapply mwp_writeMandatory; [done..|].
  intros err c4 _ [H4 _]. apply wp_bind. eapply mwp_quiet; [done|auto with quiet|]. intros [] c5 H5.
  destruct err as [e|]; [apply wp_ret; right; eauto|].
  apply wp_bind. eapply mwp_quiet; [done|auto with quiet|]. intros [] c6 H6. apply wp_ret. right; eauto.
Qed.

Lemma wp_down_state m : wp (handleAspDown env m) (λ _ c', left_in StateASPDown c') c0.
Proof.
  pose proof (moves_refl c0) as H. unfold handleAspDown. wp_step. cbn zeta.
  repeat (wp_step; [apply wp_ret; left; by eexists|]). rewrite Hsingle. apply wp_bind.
  eapply mwp_quiet; [done|auto with quiet|]. intros sup c1 H1. apply wp_bind.
  assert (Hgo : ∀ c', moves c0 StateASPDown [] c' → wp (quiesceASPDown;; quiesceUnscopedTraffic;;
    ackErr ← writeAspDownAck env; postNotify;; modify_tack (finishPeerDownProcedures sup);; mret ackErr)
    (λ _ c', left_in StateASPDown c') c').
  { intros c2 H2. apply wp_bind. eapply mwp_quiet; [done|auto with quiet|]. intros [] c3 H3.
    apply wp_bind. eapply mwp_quiet; [done|auto with quiet|]. intros [] c4 H4.
    apply wp_bind. eapply mwp_writeMandatory; [done..|]. intros err c5 _ [H5 _].
    apply wp_bind. eapply mwp_quiet; [done|auto with quiet|]. intros [] c6 H6.
    apply wp_bind. eapply mwp_quiet; [done|auto with quiet|]. intros [] c7 H7. apply wp_ret. right; eauto. }
  destruct (bool_decide (role (a_cfg c0) = RoleIPSP)); [unfold commitPeerDownState; eapply mwp_commitGuarded|eapply mwp_commit];
    try done; intros; first [by apply Hgo|match goal with H : still _ _ _ _ _ |- _ =>
      destruct H as [Hm _]; by apply Hgo end].
Qed.

(** The peer carries none of the traffic the Ack names; all of it when it names
    none. *)
Definition stood_down (rcs : list Z) (c' : association) : Prop :=
  ∀ rc, rcs = [] ∨ rc ∈ rcs → activeForRoutingContext rc c' = false.

Lemma wp_noteInactive rcs c :
  wp (noteRoutingContextsInactive rcs) (λ _ c', stood_down rcs c') c.
Proof.
  unfold noteRoutingContextsInactive. wp_step. apply wp_bind.
  assert (Hq : ∀ c1, stood_down rcs c1 → wp syncSSNMBindings (λ _ c', stood_down rcs c') c1) by done.
  destruct (len rcs =? 0) eqn:Hl.
  - apply wp_modify, Hq. intros rc _. unfold activeForRoutingContext. cbn. by apply bool_decide_eq_false_2.
  - apply wp_bind. unfold wp at 1. apply wp_modify, Hq. intros rc [->|Hrc]; [done|].
    unfold activeForRoutingContext. cbn. apply bool_decide_eq_false_2. set_solver.
Qed.

Lemma wp_inactive_state m :
  wp (handleAspInactive env m) (λ _ c', unanswered c' ∨ ∃ s a err,
    moves c0 s [AWrite (Typed KAspInactiveAck a) err] c' ∧
    (State_ c0 = StateASPActive → stood_down (RoutingContexts (AspInactiveAck.RoutingContext a)) c')) c0.
Proof.
  pose proof (moves_refl c0) as H. unfold handleAspInactive. wp_step. cbn zeta.
  repeat (wp_step; [apply wp_ret; left; by eexists|]). wp_step.
  destruct (validateRoutingContextShape _) as [e|] eqn:Hshape; [apply wp_ret; left; by eexists|].
  destruct (answerRoutingContexts _ _ _ _) as [served rcErr] eqn:Hans.
  wp_step; [apply wp_ret; left; by eexists|].
  match goal with |- wp (when ?b _ ;; _) _ _ => set (stands := b) end.
  set (acked := if _ && _ then Copy _ else served).
  apply wp_bind. eapply (wp_mono _ (λ _ c1, moves c0 (state (a_core c0)) [] c1 ∧
    (State_ c0 = StateASPActive → stood_down (RoutingContexts acked) c1))).
  { unfold wp.
    assert (Hm : moves c0 (state (a_core c0)) []
      (when stands (noteRoutingContextsInactive (RoutingContexts served);; quiesceASPFor (RoutingContexts served)) c0).2).
    { eapply moves_quiet; [exact H|]. apply (steps_when (quiet false)). apply steps_bind; [apply _|..]; eauto with quiet. }
    split; [done|]. intros Hact.
    assert (bool_decide (is_Some rcErr) && bool_decide (served = None) = false) as Hr.
    { apply andb_false_iff in E1 as [E1|E1]; [done|].
      apply negb_false_iff, bool_decide_eq_true in E1. congruence. }
    unfold acked. rewrite Hr. unfold stands. rewrite (inactive_stands _ _ _ Hshape Hans Hr), bool_decide_eq_true_2 by done.
    cbn [andb when]. pose proof (wp_noteInactive (RoutingContexts served) c0) as Hn. unfold wp in Hn.
    unfold mbind, M_bind. destruct (noteRoutingContextsInactive _ c0) as [[] c1]. cbn in Hn.
    intros rc Hrc. rewrite <-(Hn rc Hrc).
    pose proof (quiet_quiesceFor true (RoutingContexts served) c1) as Hq.
    unfold activeForRoutingContext. by rewrite (q_scope _ _ _ Hq eq_refl). }
  intros [] c1 [H1 Hs1]. apply wp_bind. eapply mwp_steady; [done|auto with quiet|]. intros [] c2 [H2 E2].
  apply wp_bind. eapply mwp_writeMandatory; [done..|]. intros err c3 _ [H3 E3].
  apply wp_bind. eapply mwp_steady; [done|auto with quiet|]. intros [] c4 [H4 E4]. apply wp_ret. right.
  eexists _, _, _. split; [exact H4|]. intros Hact rc Hrc. unfold activeForRoutingContext. rewrite E4, E3, E2.
  apply (Hs1 Hact). unfold AspInactiveAck.NewAspInactiveAck in Hrc. cbn in Hrc. by rewrite contexts_set_length in Hrc.
Qed.
End order.

(** The three requests of a peer that end traffic. *)
Definition ending (m : M3UA) : Prop :=
  match m with Typed KAspUp _ | Typed KAspDown _ | Typed KAspInactive _ => True | _ => False end.

Definition handler (env : environment) (m : M3UA) : M (option asp_error) :=
  match m with
  | Typed KAspUp m => handleAspUp env m
  | Typed KAspDown m => handleAspDown env m
  | Typed KAspInactive m => handleAspInactive env m
  | _ => mret None
  end.

(** The Routing Contexts an ASP Inactive Ack names. *)
Definition ack_contexts (ack : M3UA) : list Z :=
  match ack with Typed KAspInactiveAck a => RoutingContexts (AspInactiveAck.RoutingContext a) | _ => [] end.

(** What the Ack [ack] of [m] says, what was stood down in the registry of
    Application Servers before it, and how it leaves the peer. *)
Definition settles (m : M3UA) (c c' : association) (ack : M3UA) (downs : list action) : Prop :=
  match m with
  | Typed KAspUp _ => up_order c c' ack downs ∧ state (a_core c') = StateASPInactive
  | Typed KAspDown _ => down_order c ack downs ∧ state (a_core c') = StateASPDown
  | Typed KAspInactive _ =>
      inactive_order c ack downs ∧
      (State_ c = StateASPActive → stood_down (ack_contexts ack) c')
  | _ => False
  end.

Lemma writes_early l : Forall (λ a, early a = true) l → writes_of l = [].
Proof. intros Hl. apply writes_of_quiet. eapply Forall_impl; [exact Hl|]. by intros []. Qed.
Lemma writes_late l : Forall (λ a, late a = true) l → writes_of l = [].
Proof. intros Hl. apply writes_of_quiet. eapply Forall_impl; [exact Hl|]. by intros []. Qed.

(** The two views of a run that has written its Ack agree on it. *)
Lemma in_order_moves R c c' s ws :
  in_order R c c' → moves c s ws c' →
  ∃ ack err, ws = [AWrite ack err] ∧ in_order (λ m d, m = ack ∧ R m d) c c'.
Proof.
  intros (l1 & m & err & l2 & Hd & HR & Hq & H1 & H2 & Hn) [_ _ _ (l & Hl & <-)].
  rewrite (d_out _ _ _ Hd) in Hl. apply app_inv_head in Hl. subst l.
  exists m, err. split.
  - rewrite writes_of_app, (writes_early _ H1). cbn. f_equal. by apply writes_late.
  - exists l1, m, err, l2. by split_and!.
Qed.

Lemma in_order_mono (R R' : M3UA → list action → Prop) c c' :
  in_order R c c' → (∀ m d, R m d → R' m d) → in_order R' c c'.
Proof. intros (l1 & m & err & l2 & ? & ? & ?) HR. exists l1, m, err, l2. split_and!; try tauto. auto. Qed.

Lemma in_order_left R s c c' : in_order R c c' → left_in c s c' → state (a_core c') = s.
Proof.
  intros Ho [[s' H]|[ws H]]; [|by apply H].
  destruct (in_order_moves _ _ _ _ _ Ho H) as (? & ? & [=] & _).
Qed.

(** C6: At an SGP, and at an IPSP of the Single Exchange model, an ASP Up, ASP Down
    or ASP Inactive is either refused with an error, and nothing is written and no
    Notify posted, or its one Ack is written only after DATA already admitted has
    been waited for and, where the node has Application Servers, after the peer has
    stood down in their registry: for an ASP Up in those of the Routing Contexts it
    is configured for, for an ASP Down in all of them, and for an ASP Inactive of a
    peer that is ASP-ACTIVE in exactly those the Ack names. The peer is left
    ASP-INACTIVE by an ASP Up, ASP-DOWN by an ASP Down, and inactive in what the Ack
    names by an ASP Inactive that finds it ASP-ACTIVE. A Notify is posted after the
    Ack when the peer stood down in the registry, and not otherwise. *)
Theorem ack_between_barrier_and_notify env m c err c' :
  ended (a_core c) = false → isIPSPDoubleExchange c = false → ending m →
  handler env m c = (err, c') →
  (withheld c c' ∧ is_Some err) ∨ in_order (settles m c c') c c'.
Proof.
  intros He Hs Hm Hh. destruct m as [g|k m]; [done|].
  destruct k; try done; cbn [handler] in Hh; unfold settles.
  - destruct (wp_elim _ _ _ _ _ (wp_up_in_order env c He Hs m) Hh) as [|Ho]; [by left|right].
    pose proof (in_order_left _ _ _ _ Ho (wp_elim _ _ _ _ _ (wp_up_state env c He Hs m) Hh)).
    eapply in_order_mono; [exact Ho|]. done.
  - destruct (wp_elim _ _ _ _ _ (wp_down_in_order env c He Hs m) Hh) as [|Ho]; [by left|right].
    pose proof (in_order_left _ _ _ _ Ho (wp_elim _ _ _ _ _ (wp_down_state env c He Hs m) Hh)).
    eapply in_order_mono; [exact Ho|]. done.
  - destruct (wp_elim _ _ _ _ _ (wp_inactive_in_order env c He m) Hh) as [|Ho]; [by left|right].
    destruct (wp_elim _ _ _ _ _ (wp_inactive_state env c He Hs m) Hh) as [[s H]|(s & a & werr & H & Hd)];
      destruct (in_order_moves _ _ _ _ _ Ho H) as (ack & aerr & Hws & Ho'); [done|].
    injection Hws as <- _. eapply in_order_mono; [exact Ho'|]. intros m' d [-> HR]. split; [done|].
    exact Hd.
Qed.

Module Concrete.
Import AspStates.Concrete.

(** An ASP that has sent its ASP Up. *)
Definition client : AssociationConfig :=
  mkAssociationConfig RoleASP None None [mkASConfig (mkASKey 0 false 1 true) 2] None false false 0.
Definition opened : association := default (newAssociation client) (step granting EOpen (newAssociation client)).
Definition sent_up : pendingRequest :=
  default (newPendingRequest [] (Typed KAspUp (AspUp.NewAspUp None None)) requestNone) (requests (a_tack opened) !! 0).

Lemma retransmission_ends_witness :
  retries opened = 5 ∧
  let c1 := Nat.iter 5 (fire granting 0) opened in
  let c2 := fire granting 0 c1 in
  (a_out c1 = a_out opened ++ replicate 5 (AWrite (r_msg sent_up) None) ∧
   a_reports c1 = a_reports opened ∧ 0 ∈ pending (a_tack c1)) ∧
  (a_out c2 = a_out c1 ∧ a_reports c2 = a_reports opened ++ [(None, ErrTAckExpired)] ∧
   waitTAck 0 (a_tack c2) = Some (Some ErrTAckExpired) ∧ (0 ∉ pending (a_tack c2)) ∧
   errorAnswer None ErrTAckExpired c2 = None) ∧
  ∀ m, Nat.iter m (fire granting 0) c2 = c2.
Proof.
  split; [vm_compute; reflexivity|].
  apply (retransmission_ends granting 0 sent_up opened);
    [reflexivity|vm_compute; reflexivity|vm_compute; reflexivity|vm_compute; reflexivity|
     vm_compute; reflexivity|vm_compute; reflexivity|].
  apply (bool_decide_unpack _). vm_compute. exact I.
Defined.

(** The peer of an SGP that is ASP-ACTIVE sends an ASP Inactive. *)
Definition served : association := AspStates.Concrete.after to_active.
Definition leave : M3UA := Typed KAspInactive (AspInactive.NewAspInactive None None).

Lemma ack_between_barrier_and_notify_witness :
  State_ served = StateASPActive ∧
  (handler granting leave served).1 = None ∧
  ((withheld served (handler granting leave served).2 ∧ is_Some (handler granting leave served).1) ∨
   in_order (settles leave served (handler granting leave served).2) served (handler granting leave served).2).
Proof.
  split; [vm_compute; reflexivity|]. split; [vm_compute; reflexivity|].
  apply (ack_between_barrier_and_notify granting leave served);
    [vm_compute; reflexivity|vm_compute; reflexivity|exact I|by destruct (handler granting leave served)].
Defined.
End Concrete.
