(* ===== verification/AspHandshake.v ===== *)
(** * An ASP and an SGP bring each other up

    The product of two Associations, the one of an ASP with automatic procedures
    and the one of an SGP, joined by two streams of octets that keep their
    order.  Any of the enabled steps of the product may come next: the start of
    an end, a delivery, the monitor of either end, a report, a retransmission. *)

From coqutil Require Import Datatypes.RecordSettersUsingExistingGetters.
From S2P Require Import Prelude Params ParamsFacts ParamValues Inventory AppServer Header Codec.
From S2P Require Import MsgData MsgSsnm MsgAspsm MsgAsptm MsgRkm MsgMgmt Message Compat.
From S2P Require Import Tack Association AspProcedures AspMachine.
#[local] Open Scope Z_scope.

(** ** Comparing states

    A sound comparison that evaluates; it knows the messages an ASP and an SGP
    exchange while they come up, and says no for others. *)

Class Same (A : Type) : Type := mkSame {
  same : A → A → bool;
  same_sound x y : same x y = true → x = y;
}.
#[global] Arguments mkSame {A} same same_sound.

Lemma same_andb {A B} `{Same A, Same B} (x x' : A) (y y' : B) :
  same x x' && same y y' = true → (x, y) = (x', y').
Proof. intros [?%same_sound ?%same_sound]%andb_true_iff. congruence. Qed.

#[export] Instance same_Z : Same Z := mkSame Z.eqb (λ x y H, proj1 (Z.eqb_eq x y) H).
#[export] Instance same_nat : Same nat := mkSame Nat.eqb (λ x y H, proj1 (Nat.eqb_eq x y) H).
#[export] Instance same_bool : Same bool := mkSame Bool.eqb Bool.eqb_prop.
#[export] Instance same_byte : Same byte := mkSame Byte.eqb (λ x y H, Byte.byte_dec_bl x y H).
#[export] Instance same_unit : Same () := mkSame (λ _ _, true) (λ x y _, match x, y with tt, tt => eq_refl end).
#[export] Instance same_prod {A B} `{Same A, Same B} : Same (A * B) :=
  mkSame (λ p q : A * B, same p.1 q.1 && same p.2 q.2)
    (λ p q, match p, q with (x, y), (x', y') => same_andb x x' y y' end).

Lemma same_dec_sound `{EqDecision A} (x y : A) : bool_decide (x = y) = true → x = y.
Proof. apply bool_decide_eq_true. Qed.
#[export] Instance same_State : Same State := mkSame _ (@same_dec_sound State _).
#[export] Instance same_Role : Same Role := mkSame _ (@same_dec_sound Role _).
#[export] Instance same_requestKind : Same requestKind := mkSame _ (@same_dec_sound requestKind _).

Definition option_same {A} `{Same A} (x y : option A) : bool :=
  match x, y with Some x, Some y => same x y | None, None => true | _, _ => false end.
Lemma option_same_sound {A} `{Same A} (x y : option A) : option_same x y = true → x = y.
Proof. destruct x, y; try done. by intros ->%same_sound. Qed.
#[export] Instance same_option {A} `{Same A} : Same (option A) := mkSame _ option_same_sound.

Fixpoint list_same {A} `{Same A} (l k : list A) : bool :=
  match l, k with
  | [], [] => true
  | x :: l, y :: k => same x y && list_same l k
  | _, _ => false
  end.
Lemma list_same_sound {A} `{Same A} (l k : list A) : list_same l k = true → l = k.
Proof.
  revert k. induction l as [|x l IH]; intros [|y k]; try done. cbn.
  intros [?%same_sound ?%IH]%andb_true_iff. congruence.
Qed.
#[export] Instance same_list {A} `{Same A} : Same (list A) := mkSame _ list_same_sound.

(** Comparing through an injection. *)
Definition same_via {A B} `{Same B} (f : A → B) (inj : ∀ x y, f x = f y → x = y) : Same A :=
  mkSame (λ x y, same (f x) (f y)) (λ x y E, inj x y (same_sound _ _ E)).

Ltac by_fields := intros [] []; cbn; intros; simplify_eq; reflexivity.

#[export] Instance same_gmap {A} `{Same A} : Same (gmap Z A).
Proof.
  refine (same_via (B := list (Z * A)) map_to_list _). intros m m' E.
  transitivity (list_to_map (map_to_list m) : gmap Z A); [symmetry|rewrite E]; apply list_to_map_to_list.
Defined.
#[export] Instance same_gset : Same (gset Z).
Proof. refine (same_via (B := gmap Z ()) mapset.mapset_car _). by_fields. Defined.

#[export] Instance same_Param : Same Param.
Proof. refine (same_via (λ p, (Tag p, Params.Length p, Params.Data p)) _). by_fields. Defined.
#[export] Instance same_Header : Same Header.
Proof.
  refine (same_via (λ h, (h_Version h, h_Reserved h, h_Class h, h_Type h, h_Length h, h_Payload h)) _).
  by_fields.
Defined.

Definition M3UA_key (m : M3UA) : option (Z * Header * list (option Param) * list (option Param)) :=
  match m with
  | Typed KAspUp m => Some (1, AspUp.header m, [AspUp.AspIdentifier m; AspUp.InfoString m], AspUp.Others m)
  | Typed KAspUpAck m =>
      Some (2, AspUpAck.header m, [AspUpAck.AspIdentifier m; AspUpAck.InfoString m], AspUpAck.Others m)
  | Typed KAspActive m =>
      Some (3, AspActive.header m,
            [AspActive.TrafficModeType m; AspActive.RoutingContext m; AspActive.InfoString m],
            AspActive.Others m)
  | Typed KAspActiveAck m =>
      Some (4, AspActiveAck.header m,
            [AspActiveAck.TrafficModeType m; AspActiveAck.RoutingContext m; AspActiveAck.InfoString m],
            AspActiveAck.Others m)
  | Typed KError m =>
      Some (5, Error.header m,
            [Error.ErrorCode m; Error.RoutingContext m; Error.NetworkAppearance m;
             Error.AffectedPointCode m; Error.DiagnosticInformation m], Error.Others m)
  | _ => None
  end.

Definition M3UA_same (m m' : M3UA) : bool :=
  match M3UA_key m, M3UA_key m' with Some k, Some k' => same k k' | _, _ => false end.

Lemma M3UA_same_sound m m' : M3UA_same m m' = true → m = m'.
Proof.
  unfold M3UA_same. intros H.
  assert (Hk : ∃ k, M3UA_key m = Some k ∧ M3UA_key m' = Some k).
  { destruct (M3UA_key m) as [k|]; [|done]. destruct (M3UA_key m') as [k'|]; [|done].
    apply same_sound in H. subst. eauto. }
  clear H. destruct Hk as (k & Hm & Hm'), m as [|kd m], m' as [|kd' m']; try done.
  destruct kd; try done; destruct kd'; try done; cbn in Hm, Hm';
    destruct m, m'; cbn in Hm, Hm'; congruence.
Qed.
#[export] Instance same_M3UA : Same M3UA := mkSame _ M3UA_same_sound.

Definition asp_error_same (e e' : asp_error) : bool :=
  match e, e' with
  | UnexpectedMessageError m, UnexpectedMessageError m' => same m m'
  | ErrAssociationClosed, ErrAssociationClosed | ErrTAckExpired, ErrTAckExpired => true
  | _, _ => false
  end.
Lemma asp_error_same_sound e e' : asp_error_same e e' = true → e = e'.
Proof. destruct e, e'; try done. by intros ->%same_sound. Qed.
#[export] Instance same_asp_error : Same asp_error := mkSame _ asp_error_same_sound.

#[export] Instance same_pendingRequest : Same pendingRequest.
Proof.
  refine (same_via (λ r, (r_msg r, r_kind r, r_routingContexts r, r_remaining r,
    r_routingContextOmitted r, r_stopped r, r_result r, r_attempt r)) _). by_fields.
Defined.
#[export] Instance same_scope : Same acknowledgedASPTMScope.
Proof. refine (same_via (λ s, (sc_routingContextOmitted s, sc_routingContexts s)) _). by_fields. Defined.
#[export] Instance same_tack : Same tackRetransmitter.
Proof.
  refine (same_via (λ t, (requests t, pending t, nextRequest t, acknowledgedActive t,
    acknowledgedInactive t, aspUpAcknowledged t, aspDownAcksOutstanding t, awaitingAspUp t,
    peerDownSuperseded t, peerDownHandling t)) _). by_fields.
Defined.
#[export] Instance same_ASKey : Same ASKey.
Proof.
  refine (same_via (λ k, (NetworkAppearance k, NetworkAppearanceSet k, RoutingContext k,
    RoutingContextSet k)) _). by_fields.
Defined.
#[export] Instance same_ASConfig : Same ASConfig.
Proof. refine (same_via (λ s, (c_ASKey s, c_TrafficMode s)) _). by_fields. Defined.
Definition is_single (m : IPSPExchangeModel) : bool :=
  match m with IPSPExchangeSingle => true | IPSPExchangeDouble => false end.
Definition is_single_aspsm (m : IPSPASPSMExchangeModel) : bool :=
  match m with IPSPASPSMExchangeSingle => true | IPSPASPSMExchangeDouble => false end.
Definition is_automatic (m : ASPProcedureMode) : bool :=
  match m with ASPProcedureAutomatic => true | ASPProcedureExplicit => false end.

#[export] Instance same_IPSPExchangeModel : Same IPSPExchangeModel.
Proof. refine (same_via is_single _). by intros [] []. Defined.
#[export] Instance same_IPSPASPSMExchangeModel : Same IPSPASPSMExchangeModel.
Proof. refine (same_via is_single_aspsm _). by intros [] []. Defined.
#[export] Instance same_ASPProcedureMode : Same ASPProcedureMode.
Proof. refine (same_via is_automatic _). by intros [] []. Defined.
#[export] Instance same_IPSPConfig : Same IPSPConfig.
Proof.
  refine (same_via (λ i, (ExchangeModel i, ASPSMExchange i, TrafficToLocal i, TrafficToPeer i)) _).
  by_fields.
Defined.
#[export] Instance same_ASPProcedurePolicy : Same ASPProcedurePolicy.
Proof. refine (same_via (λ p, (ASPUp p, ASPDown p, ASPActive p, ASPInactive p)) _). by_fields. Defined.
#[export] Instance same_AssociationConfig : Same AssociationConfig.
Proof.
  refine (same_via (λ c, (role c, IPSP c, ASPProcedures c, ApplicationServers c, cfgASPIdentifier c,
    hasAS c, hasAuthorizer c, TAckRetries c)) _). by_fields.
Defined.
#[export] Instance same_coreState : Same coreState.
Proof.
  refine (same_via (λ k, (ended k, terminating k, state k, localIPSPState k, appliedState k,
    stateEntered k, peerDownAwaitingEntry k, resumeTo k, resumeStray k, recvStream k)) _). by_fields.
Defined.
#[export] Instance same_scopeState : Same scopeState.
Proof.
  refine (same_via (λ s, (ackedRCs s, ackedRCsScoped s, ackedContextlessAS s, overriddenRCs s,
    activeRCs s, activeRCsScoped s, activeScopeInitialized s, contextlessASActive s,
    inactiveDynamicRCs s)) _). by_fields.
Defined.
#[export] Instance same_membership : Same membership.
Proof.
  refine (same_via (λ m, (dynamicPeerASKeys m, dynamicLocalASKeys m, dynamicPeerASKeyVersions m,
    dynamicLocalASKeyVersions m, dynamicASKeyVersion m, dynamicPeerTrafficModes m,
    dynamicLocalTrafficModes m, authorizedRCs m, authorizationResolved m, authorizationExplicit m,
    authorizationIdentifier m, peerASPIdentifier m)) _). by_fields.
Defined.
#[export] Instance same_stateEvents : Same stateEvents.
Proof.
  refine (same_via (λ e, (stateEventSubscribed e, stateEventPending e, stateEventChan e,
    stateEventClosed e, indicationOverflow e)) _). by_fields.
Defined.
#[export] Instance same_publications : Same publications.
Proof.
  refine (same_via (λ p, (published p, publishedByOthers p, taken p, established p)) _). by_fields.
Defined.
#[export] Instance same_action : Same action :=
  mkSame (λ _ _, false) (λ _ _ H, False_rect _ (Bool.diff_false_true H)).
#[export] Instance same_association : Same association.
Proof.
  refine (same_via (λ c, (a_cfg c, a_core c, a_scope c, a_member c, a_tack c, a_events c, a_pub c,
    a_beatData c, a_reports c, a_writes c, a_out c)) _). by_fields.
Defined.

(** ** The product *)

Inductive side : Set := near | far.

(** [p_to_near] is on its way to the near end.  The budgets bound how often T(ack)
    fires before its Ack, and how often an end starts anew. *)
Record product : Type := mkProduct {
  p_near : association;
  p_far : association;
  p_to_near : list bytes;
  p_to_far : list bytes;
  p_retransmissions : nat;
  p_restarts : nat;
}.

Inductive pevent : Set :=
| POpen (s : side)
| PDeliver (s : side)
| PTake (s : side)
| PApply (s : side)
| PReport (s : side)
| PTimer (s : side) (req : Z)
| PRestart (s : side).

Definition other (s : side) : side := match s with near => far | far => near end.

Definition end_ (s : side) (p : product) : association :=
  match s with near => p_near p | far => p_far p end.
Definition arrivals (s : side) (p : product) : list bytes :=
  match s with near => p_to_near p | far => p_to_far p end.
Definition set_arrivals (s : side) (l : list bytes) (p : product) : product :=
  match s with near => p <| p_to_near := l |> | far => p <| p_to_far := l |> end.

(** The octets written. *)
Definition octets (m : M3UA) : bytes :=
  match MarshalBinary m with Ok (_, raw) => raw | _ => [] end.

Definition sent (c : association) : list bytes :=
  omap (λ a, match a with AWrite m None => Some (octets m) | _ => None end) (a_out c).

#[export] Instance same_product : Same product.
Proof.
  refine (same_via (λ p, (p_near p, p_far p, p_to_near p, p_to_far p, p_retransmissions p,
    p_restarts p)) _). by_fields.
Defined.



Section product.
Context (env : environment).

(** An end takes a step; what it writes is on its way then, and its trace is
    empty again. *)
Definition local (s : side) (e : event) (p : product) : option product :=
  c ← step env e (end_ s p);
  let rest := c <| a_out := [] |> in
  Some (match s with
        | near => p <| p_near := rest |> <| p_to_far ::= λ l, l ++ sent c |>
        | far => p <| p_far := rest |> <| p_to_near ::= λ l, l ++ sent c |>
        end).

Definition arrival (raw : bytes) : event := EReceive (mkInbound raw 0 3 false None).

(** An end that starts anew has lost everything, what was on its way is lost, and
    the other end is told that the SCTP association has restarted. *)
Definition restart (s : side) (p : product) : option product :=
  match s with
  | near => local far ERestart (p <| p_near := newAssociation (a_cfg (p_near p)) |>
                                  <| p_to_near := [] |> <| p_to_far := [] |>)
  | far => local near ERestart (p <| p_far := newAssociation (a_cfg (p_far p)) |>
                                  <| p_to_near := [] |> <| p_to_far := [] |>)
  end.

Definition pstep (e : pevent) (p : product) : option product :=
  match e with
  | POpen s => local s EOpen p
  | PDeliver s =>
      match arrivals s p with
      | raw :: l => local s (arrival raw) (set_arrivals s l p)
      | [] => None
      end
  | PTake s => local s ETake p
  | PApply s => local s EApply p
  | PReport s => local s EError p
  | PTimer s req =>
      match p_retransmissions p with
      | S n => if bool_decide (req ∈ pending (a_tack (end_ s p)))
               then local s (ETimer req) (p <| p_retransmissions := n |>) else None
      | O => None
      end
  | PRestart s =>
      match p_restarts p with
      | S n => if monitor_free (end_ (other s) p) then restart s (p <| p_restarts := n |>) else None
      | O => None
      end
  end.


(** ** Exploring every run *)

Definition of_side (s : side) (p : product) : list pevent :=
  [POpen s; PDeliver s; PTake s; PApply s; PReport s; PRestart s] ++
  (PTimer s <$> elements (pending (a_tack (end_ s p)))).

Definition pevents (p : product) : list pevent := of_side near p ++ of_side far p.

Definition successors (p : product) : list product := omap (λ e, pstep e p) (pevents p).


Lemma of_side_complete s e p :
  e = POpen s ∨ e = PDeliver s ∨ e = PTake s ∨ e = PApply s ∨ e = PReport s ∨ e = PRestart s ∨
  (∃ req, e = PTimer s req ∧ req ∈ pending (a_tack (end_ s p))) → e ∈ pevents p.
Proof.
  intros H. assert (Hs : e ∈ of_side s p).
  { unfold of_side. rewrite elem_of_app, !elem_of_cons, list_elem_of_fmap.
    destruct H as [|[|[|[|[|[|(req & -> & Hr)]]]]]]; [tauto..|]. right. exists req.
    split; [done|by apply elem_of_elements]. }
  unfold pevents. apply elem_of_app. destruct s; auto.
Qed.

Lemma pevents_complete e p p' : pstep e p = Some p' → e ∈ pevents p.
Proof.
  intros H. destruct e as [s|s|s|s|s|s req|s]; apply (of_side_complete s); eauto 10.
  do 6 right. exists req. split; [done|]. cbn [pstep] in H.
  destruct (p_retransmissions p); [done|]. by case_bool_decide.
Qed.

Lemma elem_of_successors p p' : p' ∈ successors p ↔ ∃ e, pstep e p = Some p'.
Proof.
  unfold successors. rewrite list_elem_of_omap. split.
  - intros (e & _ & He). eauto.
  - intros (e & He). exists e. split; [by eapply pevents_complete|done].
Qed.

End product.

(** ** Bringing up traffic *)



Definition start (near far : AssociationConfig) (retransmissions restarts : nat) : product :=
  mkProduct (newAssociation near) (newAssociation far) [] [] retransmissions restarts.

(** Every write succeeds and every request is granted. *)
Definition granting : environment :=
  mkEnvironment (λ _, true) (λ _, []) (λ _, true) (λ _, true) false (λ _, true) (λ _ mode, inl mode)
    (λ _, true) (λ _, false) (λ _, None).

Definition asp (servers : list ASConfig) : AssociationConfig :=
  mkAssociationConfig RoleASP None None servers None false false 5.
Definition sgp (servers : list ASConfig) : AssociationConfig :=
  mkAssociationConfig RoleSGP None None servers None true false 5.

Definition one : list ASConfig := [mkASConfig (mkASKey 0 false 1 true) 2].






(** ** A restart while the monitor has a state in hand *)

Fixpoint prun (l : list pevent) (p : product) : option product :=
  match l with [] => Some p | e :: l => p ← pstep granting e p; prun l p end.

Lemma is_default {A} (o : option A) d : match o with Some _ => true | None => false end = true → o = Some (default d o).
Proof. by destruct o. Qed.

Definition until_taken : product :=
  default (start (asp one) (sgp one) 0 0)
    (prun [POpen far; POpen near; PDeliver far; PDeliver near; PTake near] (start (asp one) (sgp one) 0 0)).
Definition restarted : product := default until_taken (restart granting far until_taken).
Definition stalled : product := default restarted (prun [POpen far; PApply near] restarted).

(** C20: The restart of the SCTP association reaches an ASP whose ASP Up has been
    acknowledged, after its monitor has received ASP-INACTIVE and before it applies
    it.  Then ASP-DOWN restates the state applied last, so no ASP Up follows, and
    ASP-INACTIVE is out of date: both ends stay in ASP-DOWN for good. *)
Theorem restart_race_stalls :
  ∃ p p1 p2,
    prun [POpen far; POpen near; PDeliver far; PDeliver near; PTake near]
      (start (asp one) (sgp one) 0 0) = Some p ∧ State_ (p_near p) = StateASPInactive ∧
    restart granting far p = Some p1 ∧ prun [POpen far; PApply near] p1 = Some p2 ∧
    State_ (p_near p2) = StateASPDown ∧ State_ (p_far p2) = StateASPDown ∧
    (∀ e, pstep granting e p2 = None).
Proof.
  exists until_taken, restarted, stalled.
  split; [apply is_default; vm_compute; reflexivity|]. split; [vm_compute; reflexivity|].
  do 2 (split; [apply is_default; vm_compute; reflexivity|]).
  do 2 (split; [vm_compute; reflexivity|]). intros e.
  destruct (pstep granting e stalled) as [p'|] eqn:He; [|done].
  assert (Hin : p' ∈ successors granting stalled) by (apply elem_of_successors; eauto).
  assert (successors granting stalled = []) as Hs by (apply nil_length_inv; vm_compute; reflexivity).
  rewrite Hs in Hin. destruct (not_elem_of_nil _ Hin).
Qed.
