(* ===== verification/Destinations.v ===== *)
(** * The destination table (ssnm.go)

    What a node has been told about SS7 destinations: records of point code
    ranges, scoped to a Network Appearance and to Routing Contexts, each a
    statement about availability, about congestion or about both.  Records are
    numbered in the order in which they were written, and a question is answered
    by the newest record that covers it, in each dimension; the number of records
    is bounded.

    A range over the Go map is a fold over its entries in some order; a mask and
    a point code are integers of 8 and 24 bits.  A nil table, which only tests
    have, is not modelled. *)

From stdpp Require Import sorting.
From coqutil Require Import Datatypes.RecordSettersUsingExistingGetters.
From S2P Require Import Prelude Ssnm.
#[local] Open Scope Z_scope.

(** ** Data *)

Record CongestionState : Set := mkCongestionState {
  Congested : bool;
  Level : Z;
  LevelSet : bool;
}.
#[export] Instance CongestionState_eq_dec : EqDecision CongestionState.
Proof. solve_decision. Defined.

Definition noCongestion : CongestionState := mkCongestionState false 0 false.

Definition reported (c : CongestionState) : bool := Congested c || LevelSet c.

Definition congestionStateFor (level : Z) (levelSet : bool) : CongestionState :=
  mkCongestionState (negb levelSet || negb (level =? 0)) level levelSet.

Definition validCongestionState (c : CongestionState) : bool := negb (LevelSet c) || (Level c <=? 3).

Definition validDestinationAvailability (availability : Z) : bool :=
  (DestinationAvailable <=? availability) && (availability <=? DestinationRestricted).

(** The zero value is [mkNetworkState DestinationAvailable noCongestion]. *)
Record DestinationNetworkState : Set := mkNetworkState {
  ns_Availability : Z;
  ns_Congestion : CongestionState;
}.
#[export] Instance DestinationNetworkState_eq_dec : EqDecision DestinationNetworkState.
Proof. solve_decision. Defined.

Definition zeroNetworkState : DestinationNetworkState := mkNetworkState DestinationAvailable noCongestion.

Definition validDestinationNetworkState (s : DestinationNetworkState) : bool :=
  validDestinationAvailability (ns_Availability s) && validCongestionState (ns_Congestion s).

Record destinationRange : Set := mkRange {
  dr_NetworkAppearance : Z;
  dr_NetworkAppearanceSet : bool;
  dr_RoutingContext : Z;
  dr_RoutingContextSet : bool;
  dr_PointCode : Z;
  dr_Mask : Z;
  dr_State : DestinationNetworkState;
}.

Record destinationKey : Set := mkDestinationKey {
  dk_networkAppearance : Z;
  dk_networkAppearanceSet : bool;
  dk_routingContext : Z;
  dk_routingContextSet : bool;
  dk_routingContextScope : bytes;
  dk_pointCode : Z;
  dk_mask : Z;
}.
#[export] Instance destinationKey_eq_dec : EqDecision destinationKey.
Proof. solve_decision. Defined.
#[export] Instance destinationKey_countable : Countable destinationKey.
Proof.
  refine (inj_countable'
    (λ k, (dk_networkAppearance k, dk_networkAppearanceSet k, dk_routingContext k,
           dk_routingContextSet k, map Byte.to_N (dk_routingContextScope k), dk_pointCode k, dk_mask k))
    (λ '(na, nas, rc, rcs, scope, pc, mask),
      mkDestinationKey na nas rc rcs (omap Byte.of_N scope) pc mask) _).
  intros [na nas rc rcs scope pc mask]. cbn. f_equal.
  induction scope as [|b scope IH]; [done|]. cbn. by rewrite Byte.of_to_N, IH.
Defined.

(** [destinationDimensions]: one bit per dimension. *)
Definition destinationAvailabilityDimension : Z := 1.
Definition destinationCongestionDimension : Z := 2.
Definition carries (d dimension : Z) : bool := negb (Z.land d dimension =? 0).

Record destinationRecord : Set := mkRecord {
  rangeValue : destinationRange;
  routingContexts : list Z;
  routingContextScope : bytes;
  dimensions : Z;
  sequence : Z;
}.

Record destinations : Set := mkDestinations {
  d_state : gmap destinationKey destinationRecord;
  d_sequence : Z;
  maxRecords : Z;
}.

Definition DefaultMaxSSNMDestinationRecords : Z := 16384.

Definition newDestinations : destinations := mkDestinations ∅ 0 DefaultMaxSSNMDestinationRecords.

(** ** Limits *)

Definition setRecordLimit (limit : Z) (d : destinations) : destinations :=
  if limit <=? 0 then d else d <| maxRecords := limit |>.

Definition recordLimitLocked (d : destinations) : Z :=
  if 0 <? maxRecords d then maxRecords d else DefaultMaxSSNMDestinationRecords.

(** [ErrSSNMDestinationRecordLimit] with the number of records refused. *)
Definition recordLimitErrorLocked (refused : Z) : option Z :=
  if refused =? 0 then None else Some refused.

Definition forget (d : destinations) : Z * destinations :=
  (Z.of_nat (size (d_state d)), d <| d_state := ∅ |>).

(** ** Keys *)

Definition normalizeDestinationRange (r : destinationRange) : destinationRange :=
  mkRange (if dr_NetworkAppearanceSet r then dr_NetworkAppearance r else 0) (dr_NetworkAppearanceSet r)
    (if dr_RoutingContextSet r then dr_RoutingContext r else 0) (dr_RoutingContextSet r)
    (Z.land (dr_PointCode r) 0x00ffffff) (dr_Mask r) (dr_State r).

Definition destinationRangeKey (r : destinationRange) : destinationKey :=
  mkDestinationKey (dr_NetworkAppearance r) (dr_NetworkAppearanceSet r)
    (dr_RoutingContext r) (dr_RoutingContextSet r) []
    (destinationRangePrefix (dr_PointCode r) (dr_Mask r)) (dr_Mask r).

Definition destinationRecordKey (r : destinationRecord) : destinationKey :=
  (destinationRangeKey (rangeValue r)) <| dk_routingContextScope := routingContextScope r |>.

Definition destinationRangeCovers (stored : destinationRange) (pointCode mask : Z) : bool :=
  if effectiveDestinationMask (dr_Mask stored) <? effectiveDestinationMask mask then false
  else destinationRangePrefix (dr_PointCode stored) (dr_Mask stored) =?
       destinationRangePrefix pointCode (dr_Mask stored).

Definition destinationScopeMatches (stored : destinationRange) (query : destinationKey) : bool :=
  if negb (dr_NetworkAppearance stored =? dk_networkAppearance query) ||
     negb (Bool.eqb (dr_NetworkAppearanceSet stored) (dk_networkAppearanceSet query)) then false
  else if negb (dr_RoutingContextSet stored) then true
  else dk_routingContextSet query && (dr_RoutingContext stored =? dk_routingContext query).

(** [sort.Search] finds the least index whose element is not below the query. *)
Definition destinationRecordScopeMatches (r : destinationRecord) (query : destinationKey) : bool :=
  if len (routingContexts r) =? 0 then destinationScopeMatches (rangeValue r) query
  else if negb (dr_NetworkAppearance (rangeValue r) =? dk_networkAppearance query) ||
          negb (Bool.eqb (dr_NetworkAppearanceSet (rangeValue r)) (dk_networkAppearanceSet query)) ||
          negb (dk_routingContextSet query) then false
  else
    match list_find (λ rc, dk_routingContext query ≤ rc) (routingContexts r) with
    | Some (_, rc) => rc =? dk_routingContext query
    | None => false
    end.

Definition destinationRecordRangeForScope (r : destinationRecord) (scope : destinationKey)
    : destinationRange :=
  if 0 <? len (routingContexts r)
  then (rangeValue r) <| dr_RoutingContext := dk_routingContext scope |> <| dr_RoutingContextSet := true |>
  else rangeValue r.

(** Dropping an element equal to the one before it. *)
Fixpoint compactSorted (l : list Z) : list Z :=
  match l with
  | x :: ((y :: _) as l') => if x =? y then compactSorted l' else x :: compactSorted l'
  | _ => l
  end.

Definition canonicalRoutingContextScope (routingContexts : list Z) : list Z * bytes :=
  let canonical := compactSorted (merge_sort Z.le routingContexts) in
  (canonical, flat_map PutUint32 canonical).

(** ** Writing *)

Definition sequence_le (r r' : destinationRecord) : Prop := sequence r ≤ sequence r'.
#[export] Instance sequence_le_dec : RelDecision sequence_le.
Proof. intros r r'. unfold sequence_le. apply _. Defined.

(** The records of the table, oldest first. *)
Definition chronicle (d : destinations) : list destinationRecord :=
  merge_sort sequence_le (map_to_list (d_state d)).*2.

(** Numbering the records anew from one. *)
Fixpoint renumber (n : Z) (records : list destinationRecord) (d : destinations) : destinations :=
  match records with
  | [] => d <| d_sequence := n |>
  | r :: records =>
      let r := r <| sequence := n + 1 |> in
      renumber (n + 1) records (d <| d_state ::= insert (destinationRecordKey r) r |>)
  end.

Definition renumberLocked (d : destinations) : destinations := renumber 0 (chronicle d) d.

(** The dimensions a record does not carry stay as the held one left them. *)
Definition restate (r held : destinationRecord) : destinationRecord :=
  r <| rangeValue ::= λ v, v <| dr_State :=
         mkNetworkState
           (if carries (dimensions r) destinationAvailabilityDimension then ns_Availability (dr_State v)
            else ns_Availability (dr_State (rangeValue held)))
           (if carries (dimensions r) destinationCongestionDimension then ns_Congestion (dr_State v)
            else ns_Congestion (dr_State (rangeValue held))) |> |>
    <| dimensions ::= λ n, Z.lor n (dimensions held) |>.

(** [d.sequence++], past zero. *)
Definition advance (d : destinations) : destinations :=
  let d := d <| d_sequence ::= λ n, u64 (n + 1) |> in
  if d_sequence d =? 0 then (renumberLocked d) <| d_sequence ::= λ n, u64 (n + 1) |> else d.

Definition install (r : destinationRecord) (d : destinations) : destinations :=
  let d := advance d in
  d <| d_state ::= insert (destinationRecordKey r) (r <| sequence := d_sequence d |>) |>.

(** Whether the record was retained. *)
Definition storeLocked (r : destinationRecord) (d : destinations) : bool * destinations :=
  match d_state d !! destinationRecordKey r with
  | Some held => (true, install (restate r held) d)
  | None => if recordLimitLocked d <=? Z.of_nat (size (d_state d)) then (false, d)
            else (true, install r d)
  end.

(** The loops of the writers; the result counts the records refused. *)
Fixpoint storeAll (records : list destinationRecord) (d : destinations) : Z * destinations :=
  match records with
  | [] => (0, d)
  | r :: records =>
      let '(retained, d) := storeLocked r d in
      let '(refused, d) := storeAll records d in
      ((if retained : bool then refused else refused + 1), d)
  end.

(** A record of one range, and of one range for several Routing Contexts. *)
Definition plainRecord (dimension : Z) (r : destinationRange) : destinationRecord :=
  mkRecord (normalizeDestinationRange r) [] [] dimension 0.

Definition scopedRecord (dimension : Z) (routingContexts : list Z) (r : destinationRange)
    : destinationRecord :=
  let '(canonical, scope) := canonicalRoutingContextScope routingContexts in
  mkRecord ((normalizeDestinationRange r) <| dr_RoutingContext := 0 |> <| dr_RoutingContextSet := true |>)
    canonical scope dimension 0.

Definition writeRecords (records : list destinationRecord) (d : destinations)
    : option Z * destinations :=
  let '(refused, d) := storeAll records d in (recordLimitErrorLocked refused, d).

Definition setRangesWithinBudget (ranges : list destinationRange) : destinations → option Z * destinations :=
  writeRecords (plainRecord destinationAvailabilityDimension <$> ranges).

Definition setScopedRangesWithinBudget (routingContexts : list Z) (ranges : list destinationRange)
    (d : destinations) : option Z * destinations :=
  if len routingContexts =? 0 then (None, d)
  else writeRecords (scopedRecord destinationAvailabilityDimension routingContexts <$> ranges) d.

Definition setCongestionRangesWithinBudget (ranges : list destinationRange)
    : destinations → option Z * destinations :=
  writeRecords (plainRecord destinationCongestionDimension <$> ranges).

Definition setScopedCongestionRangesWithinBudget (routingContexts : list Z)
    (ranges : list destinationRange) (d : destinations) : option Z * destinations :=
  if len routingContexts =? 0 then (None, d)
  else writeRecords (scopedRecord destinationCongestionDimension routingContexts <$> ranges) d.

Definition setRanges (ranges : list destinationRange) (d : destinations) : destinations :=
  (setRangesWithinBudget ranges d).2.
Definition setScopedRanges (routingContexts : list Z) (ranges : list destinationRange)
    (d : destinations) : destinations :=
  (setScopedRangesWithinBudget routingContexts ranges d).2.

Definition set_ (key : destinationKey) (availability : Z) : destinations → destinations :=
  setRanges [mkRange (dk_networkAppearance key) (dk_networkAppearanceSet key)
               (dk_routingContext key) (dk_routingContextSet key)
               (dk_pointCode key) (dk_mask key) (mkNetworkState availability noCongestion)].

(** ** Reading *)

Record lookupState : Set := mkLookup {
  l_state : DestinationNetworkState;
  availabilitySeq : Z;
  congestionSeq : Z;
  known : bool;
}.

(** One iteration of [lookupRangeLocked], for a record that covers the query. *)
Definition lookupStep (l : lookupState) (r : destinationRecord) : lookupState :=
  let s := dr_State (rangeValue r) in
  let newer dimension seq := carries (dimensions r) dimension && (seq <? sequence r) in
  let available := newer destinationAvailabilityDimension (availabilitySeq l) in
  let congested := newer destinationCongestionDimension (congestionSeq l) in
  mkLookup
    (mkNetworkState (if available then ns_Availability s else ns_Availability (l_state l))
       (if congested then ns_Congestion s else ns_Congestion (l_state l)))
    (if available then sequence r else availabilitySeq l)
    (if congested then sequence r else congestionSeq l) true.

Definition concerns (scope : destinationKey) (pointCode mask : Z) (r : destinationRecord) : bool :=
  destinationRecordScopeMatches r scope && destinationRangeCovers (rangeValue r) pointCode mask.

Definition lookupRecords (records : list destinationRecord) (scope : destinationKey)
    (pointCode mask : Z) : DestinationNetworkState * bool :=
  let l := foldl lookupStep (mkLookup zeroNetworkState 0 0 false)
             (List.filter (concerns scope pointCode mask) records) in
  (l_state l, known l).

Definition lookupRange (scope : destinationKey) (pointCode mask : Z) (d : destinations)
    : DestinationNetworkState * bool :=
  lookupRecords (map_to_list (d_state d)).*2 scope pointCode mask.

Definition lookup_ (key : destinationKey) : destinations → DestinationNetworkState * bool :=
  lookupRange key (dk_pointCode key) (dk_mask key).

(** One iteration of [snapshotForScope]. *)
Definition snapshotStep (scope : destinationKey) (out : gmap Z lookupState) (r : destinationRecord)
    : gmap Z lookupState :=
  if negb (dr_Mask (rangeValue r) =? 0) || negb (destinationRecordScopeMatches r scope) then out
  else
    let pointCode := dr_PointCode (rangeValue r) in
    <[pointCode := lookupStep (default (mkLookup zeroNetworkState 0 0 false) (out !! pointCode)) r]> out.

Definition snapshotForScope (scope : destinationKey) (d : destinations)
    : gmap Z DestinationNetworkState :=
  l_state <$> foldl (snapshotStep scope) ∅ (map_to_list (d_state d)).*2.

Definition rangesForScope (scope : destinationKey) (d : destinations) : list destinationRange :=
  (λ r, destinationRecordRangeForScope r scope) <$>
    List.filter (λ r, destinationRecordScopeMatches r scope) (chronicle d).

(** ** Isolation *)

Definition unavailableRecord (r : destinationRecord) : destinationRecord :=
  r <| rangeValue ::= λ v, v <| dr_State :=
         mkNetworkState DestinationUnavailable (ns_Congestion (dr_State v)) |> |>
    <| dimensions ::= λ n, Z.lor n destinationAvailabilityDimension |>.

Definition pause (d : destinations) : destinations :=
  (storeAll (unavailableRecord <$>
    List.filter (λ r, negb (ns_Availability (dr_State (rangeValue r)) =? DestinationUnavailable))
      (chronicle d)) d).2.
