(* ===== verification/DestinationsTheory.v ===== *)
(** * The destination table answers from a log of statements

    Each accepted report is appended to the log, with what was last said of the
    same range in the dimension the report does not carry, and a question is
    answered by the last statement that concerns it.  The table of Destinations.v,
    with its sequence numbers that are renumbered when they wrap, implements this;
    DestinationsLog.v relates the log to the reports as they were made. *)

From stdpp Require Import sorting.
From coqutil Require Import Datatypes.RecordSettersUsingExistingGetters.
From S2P Require Import Prelude Ssnm Destinations.
#[local] Open Scope Z_scope.

(** ** Operations *)

(** The four writers, by the dimension they write and the Routing Contexts they
    are scoped to; then [pause], [forget] and [setRecordLimit]. *)
Inductive operation : Set :=
| OReport (congestion : bool) (scope : option (list Z)) (ranges : list destinationRange)
| OPause
| OForget
| OLimit (limit : Z).

Definition report (congestion : bool) (scope : option (list Z)) (ranges : list destinationRange)
    : destinations → option Z * destinations :=
  match scope, congestion with
  | None, false => setRangesWithinBudget ranges
  | None, true => setCongestionRangesWithinBudget ranges
  | Some rcs, false => setScopedRangesWithinBudget rcs ranges
  | Some rcs, true => setScopedCongestionRangesWithinBudget rcs ranges
  end.

Definition perform (o : operation) (d : destinations) : option Z * destinations :=
  match o with
  | OReport congestion scope ranges => report congestion scope ranges d
  | OPause => (None, pause d)
  | OForget => let '(released, d) := forget d in (Some released, d)
  | OLimit limit => (None, setRecordLimit limit d)
  end.

Fixpoint performs (ops : list operation) (d : destinations) : list (option Z) * destinations :=
  match ops with
  | [] => ([], d)
  | o :: ops => let '(a, d) := perform o d in let '(l, d) := performs ops d in (a :: l, d)
  end.

(** Routing Contexts are 32-bit and a limit is a 64-bit signed integer. *)
Definition operation_ok (o : operation) : Prop :=
  match o with
  | OReport _ (Some rcs) _ => Forall is_u32 rcs
  | OLimit limit => limit < 2 ^ 63
  | _ => True
  end.

(** ** The log *)

Record log : Set := mkLog { statements : list destinationRecord; bound : Z }.

Definition same_key (k : destinationKey) (r : destinationRecord) : bool :=
  bool_decide (destinationRecordKey r = k).

(** The last statement about each range, in the order of the log. *)
Fixpoint current (l : list destinationRecord) : list destinationRecord :=
  match l with
  | [] => []
  | r :: l => if existsb (same_key (destinationRecordKey r)) l then current l else r :: current l
  end.

Definition log_limit (g : log) : Z :=
  if 0 <? bound g then bound g else DefaultMaxSSNMDestinationRecords.

Definition log_store (r : destinationRecord) (g : log) : bool * log :=
  match last (List.filter (same_key (destinationRecordKey r)) (statements g)) with
  | Some held => (true, mkLog (statements g ++ [restate r held]) (bound g))
  | None => if log_limit g <=? len (current (statements g)) then (false, g)
            else (true, mkLog (statements g ++ [r]) (bound g))
  end.

Fixpoint log_all (records : list destinationRecord) (g : log) : Z * log :=
  match records with
  | [] => (0, g)
  | r :: records =>
      let '(retained, g) := log_store r g in
      let '(refused, g) := log_all records g in
      ((if retained : bool then refused else refused + 1), g)
  end.

Definition records_of (congestion : bool) (scope : option (list Z)) (ranges : list destinationRange)
    : list destinationRecord :=
  let dimension := if congestion then destinationCongestionDimension
                   else destinationAvailabilityDimension in
  match scope with
  | None => plainRecord dimension <$> ranges
  | Some rcs => if len rcs =? 0 then [] else scopedRecord dimension rcs <$> ranges
  end.

Definition is_reachable (r : destinationRecord) : bool :=
  negb (ns_Availability (dr_State (rangeValue r)) =? DestinationUnavailable).

Definition log_perform (o : operation) (g : log) : option Z * log :=
  match o with
  | OReport congestion scope ranges =>
      let '(refused, g) := log_all (records_of congestion scope ranges) g in
      (recordLimitErrorLocked refused, g)
  | OPause =>
      (None, (log_all (unavailableRecord <$> List.filter is_reachable (current (statements g))) g).2)
  | OForget => (Some (len (current (statements g))), mkLog [] (bound g))
  | OLimit limit => (None, if limit <=? 0 then g else mkLog (statements g) limit)
  end.

Fixpoint log_performs (ops : list operation) (g : log) : list (option Z) * log :=
  match ops with
  | [] => ([], g)
  | o :: ops => let '(a, g) := log_perform o g in let '(l, g) := log_performs ops g in (a :: l, g)
  end.

(** The last statement about a destination, in one dimension. *)
Definition last_word (dimension : Z) (scope : destinationKey) (pointCode mask : Z)
    (l : list destinationRecord) : option DestinationNetworkState :=
  (λ r, dr_State (rangeValue r)) <$>
    last (List.filter (λ r, concerns scope pointCode mask r && carries (dimensions r) dimension) l).

Definition log_lookup (scope : destinationKey) (pointCode mask : Z) (l : list destinationRecord)
    : DestinationNetworkState * bool :=
  (mkNetworkState
     (default DestinationAvailable
        (ns_Availability <$> last_word destinationAvailabilityDimension scope pointCode mask l))
     (default noCongestion
        (ns_Congestion <$> last_word destinationCongestionDimension scope pointCode mask l)),
   existsb (concerns scope pointCode mask) l).

(** ** Records without their numbers *)

Definition erase (r : destinationRecord) : destinationRecord := r <| sequence := 0 |>.

Lemma key_erase r : destinationRecordKey (erase r) = destinationRecordKey r.
Proof. done. Qed.
Lemma key_sequence r n : destinationRecordKey (r <| sequence := n |>) = destinationRecordKey r.
Proof. done. Qed.
Lemma erase_sequence r n : erase (r <| sequence := n |>) = erase r.
Proof. done. Qed.
Lemma key_restate r held : destinationRecordKey (restate r held) = destinationRecordKey r.
Proof. done. Qed.
Lemma erase_restate r held : erase (restate r held) = restate (erase r) (erase held).
Proof. done. Qed.
Lemma key_unavailable r : destinationRecordKey (unavailableRecord r) = destinationRecordKey r.
Proof. done. Qed.
Lemma concerns_erase scope pc mask r : concerns scope pc mask (erase r) = concerns scope pc mask r.
Proof. done. Qed.

Lemma carries_lor a b dimension :
  carries (Z.lor a b) dimension = carries a dimension || carries b dimension.
Proof.
  unfold carries. rewrite Z.land_lor_distr_l, <-negb_andb. f_equal. apply eq_true_iff_eq.
  rewrite andb_true_iff, !Z.eqb_eq. apply Z.lor_eq_0_iff.
Qed.

Lemma carries_restate r held dimension :
  carries (dimensions held) dimension = true → carries (dimensions (restate r held)) dimension = true.
Proof. intros H. cbn. by rewrite carries_lor, H, orb_true_r. Qed.

(** ** The current statements *)

Definition other_key (k : destinationKey) (r : destinationRecord) : bool := negb (same_key k r).

Lemma same_key_true k r : same_key k r = true ↔ destinationRecordKey r = k.
Proof. apply bool_decide_eq_true. Qed.
Lemma other_key_true k r : other_key k r = true ↔ destinationRecordKey r ≠ k.
Proof. unfold other_key. rewrite negb_true_iff. apply bool_decide_eq_false. Qed.

Lemma existsb_snoc {A} (f : A → bool) l x : existsb f (l ++ [x]) = existsb f l || f x.
Proof. rewrite existsb_app. cbn. by rewrite orb_false_r. Qed.

Lemma current_snoc l r :
  current (l ++ [r]) = List.filter (other_key (destinationRecordKey r)) (current l) ++ [r].
Proof.
  induction l as [|h l IH]; [done|]. cbn [app current]. rewrite existsb_snoc.
  destruct (existsb (same_key (destinationRecordKey h)) l) eqn:Hl; cbn [orb]; [done|].
  unfold same_key at 1, other_key, same_key. cbn [List.filter].
  destruct (decide (destinationRecordKey r = destinationRecordKey h)) as [Hk|Hk].
  - rewrite bool_decide_eq_true_2 by done. rewrite IH. unfold other_key, same_key.
    by rewrite bool_decide_eq_true_2.
  - rewrite bool_decide_eq_false_2 by done. rewrite IH. unfold other_key, same_key.
    by rewrite bool_decide_eq_false_2 by congruence.
Qed.

Lemma elem_of_filterb {A} (f : A → bool) l x : x ∈ List.filter f l ↔ f x = true ∧ x ∈ l.
Proof. rewrite !list_elem_of_In, filter_In. tauto. Qed.

Lemma filterb_snoc {A} (f : A → bool) l x :
  List.filter f (l ++ [x]) = List.filter f l ++ if f x then [x] else [].
Proof. rewrite List.filter_app. cbn. by destruct (f x). Qed.

Lemma filterb_nil {A} (f : A → bool) l : List.filter f l = [] → ∀ x, x ∈ l → f x = false.
Proof.
  intros Hl x Hx. destruct (f x) eqn:Hf; [|done].
  assert (x ∈ List.filter f l) as Hin by by apply elem_of_filterb.
  rewrite Hl in Hin. by apply elem_of_nil in Hin.
Qed.

Lemma filterb_id {A} (f g : A → bool) l :
  (∀ x, x ∈ l → f x = true → g x = true) → List.filter f (List.filter g l) = List.filter f l.
Proof.
  induction l as [|x l IH]; intros H; [done|]. cbn [List.filter].
  assert (IH' : List.filter f (List.filter g l) = List.filter f l).
  { apply IH. intros y Hy. apply H. by constructor. }
  destruct (g x) eqn:Hg; cbn [List.filter]; rewrite IH'; [done|].
  destruct (f x) eqn:Hf; [|done]. rewrite (H x) in Hg; [done|by constructor|done].
Qed.

Lemma NoDup_current l : NoDup (destinationRecordKey <$> current l).
Proof.
  induction l as [|r l IH] using rev_ind; [constructor|].
  rewrite current_snoc, fmap_app. apply NoDup_app. split; [|split].
  - induction (current l) as [|h c IHc]; [constructor|]. inversion_clear IH. cbn [List.filter].
    destruct (other_key _ h); [cbn|by apply IHc]. constructor; [|by apply IHc].
    rewrite list_elem_of_fmap. intros (x & Hx & (_ & Hin)%elem_of_filterb).
    by apply H, list_elem_of_fmap; exists x.
  - intros k (x & -> & (Hx & _)%elem_of_filterb)%list_elem_of_fmap. cbn. rewrite list_elem_of_singleton.
    by apply other_key_true in Hx.
  - apply NoDup_singleton.
Qed.

(** The last statement of a range is the one in [current]. *)
Lemma last_same_key k l :
  last (List.filter (same_key k) l) = last (List.filter (same_key k) (current l)).
Proof.
  induction l as [|r l IH] using rev_ind; [done|]. rewrite current_snoc, !filterb_snoc.
  destruct (same_key k r) eqn:Hr; [by rewrite !last_snoc|]. rewrite !app_nil_r, IH. f_equal.
  symmetry. apply filterb_id. intros x _ Hx%same_key_true. apply other_key_true.
  intros Hk. apply not_true_iff_false in Hr. by rewrite same_key_true in Hr; rewrite <-Hk, Hx in Hr.
Qed.

Lemma held_in_current k l h :
  last (List.filter (same_key k) l) = Some h → h ∈ current l ∧ destinationRecordKey h = k.
Proof.
  rewrite last_same_key. intros H%last_Some_elem_of. apply elem_of_filterb in H as [H%same_key_true ?].
  done.
Qed.

Lemma held_unique k l h :
  h ∈ current l → destinationRecordKey h = k → last (List.filter (same_key k) l) = Some h.
Proof.
  intros Hin Hk. destruct (last (List.filter (same_key k) l)) as [h'|] eqn:Hl.
  - apply held_in_current in Hl as [Hin' Hk']. f_equal.
    pose proof (NoDup_current l) as Hnd.
    apply list_elem_of_lookup_1 in Hin as [i Hi], Hin' as [j Hj].
    assert (i = j) as ->; [|congruence].
    eapply (NoDup_lookup _ i j k Hnd); rewrite list_lookup_fmap; [rewrite Hi|rewrite Hj]; cbn; congruence.
  - exfalso. apply last_None in Hl.
    assert (Hc : last (List.filter (same_key k) (current l)) = None)
      by (rewrite <-last_same_key, Hl; done).
    apply last_None in Hc. apply (filterb_nil _ _ Hc) in Hin.
    apply not_true_iff_false in Hin. by rewrite same_key_true in Hin.
Qed.

(** ** The key decides what a record concerns *)

Definition well_scoped (r : destinationRecord) : Prop :=
  Forall is_u32 (routingContexts r) ∧ routingContextScope r = flat_map PutUint32 (routingContexts r).

Lemma scope_injective l l' :
  Forall is_u32 l → Forall is_u32 l' → flat_map PutUint32 l = flat_map PutUint32 l' → l = l'.
Proof.
  intros Hl. revert l'. induction Hl as [|x l Hx _ IH]; intros [|y l'] Hl' E; try done.
  inversion_clear Hl' as [|? ? Hy Hl0]. cbn [flat_map] in E. apply app_inj_1 in E as [E1 E2]; [|done].
  f_equal; [|by apply IH].
  pose proof (@Uint32_Put unit x Hx) as Ex. rewrite E1, (@Uint32_Put unit y Hy) in Ex. congruence.
Qed.

Lemma concerns_key scope pc mask r r' :
  well_scoped r → well_scoped r' → destinationRecordKey r = destinationRecordKey r' →
  concerns scope pc mask r = concerns scope pc mask r'.
Proof.
  intros [Hu Hs] [Hu' Hs'] [= Hna Hnas Hrc Hrcs Hscope Hpc Hmask].
  rewrite Hs, Hs' in Hscope. apply scope_injective in Hscope; [|done..].
  unfold concerns, destinationRecordScopeMatches, destinationScopeMatches, destinationRangeCovers.
  by rewrite Hscope, Hna, Hnas, Hrc, Hrcs, Hpc, Hmask.
Qed.

Lemma compactSorted_elem l x : x ∈ compactSorted l → x ∈ l.
Proof.
  induction l as [|y l IH]; [done|]. cbn. destruct l as [|z l]; [done|].
  destruct (y =? z); [intros ?%IH|intros [->|?%IH]%elem_of_cons]; by constructor.
Qed.

Lemma well_scoped_plain dimension r : well_scoped (plainRecord dimension r).
Proof. done. Qed.

Lemma well_scoped_scoped dimension rcs r : Forall is_u32 rcs → well_scoped (scopedRecord dimension rcs r).
Proof.
  intros Hu. split; [|done]. cbn. apply Forall_forall. intros x Hx%compactSorted_elem.
  rewrite Forall_forall in Hu. apply Hu. by rewrite <-(merge_sort_Permutation Z.le rcs).
Qed.

Lemma well_scoped_records o congestion scope ranges :
  o = OReport congestion scope ranges → operation_ok o →
  Forall well_scoped (records_of congestion scope ranges).
Proof.
  intros -> Hok. unfold records_of. destruct scope as [rcs|]; [destruct (len rcs =? 0)|].
  - constructor.
  - apply Forall_fmap, Forall_forall. intros r _. by apply well_scoped_scoped.
  - apply Forall_fmap, Forall_forall. intros r _. apply well_scoped_plain.
Qed.

(** ** The log and its current statements give the same answers *)

Definition agrees (l : list destinationRecord) : Prop :=
  ∀ f : destinationRecord → bool,
    (∀ r r', well_scoped r → well_scoped r' → destinationRecordKey r = destinationRecordKey r' →
       (∀ dimension, carries (dimensions r) dimension = true → carries (dimensions r') dimension = true) →
       f r = true → f r' = true) →
    last (List.filter f l) = last (List.filter f (current l)).

(** What is appended carries at least what is held of the same range. *)
Definition extends (r : destinationRecord) (l : list destinationRecord) : Prop :=
  ∀ h dimension, h ∈ current l → destinationRecordKey h = destinationRecordKey r →
    carries (dimensions h) dimension = true → carries (dimensions r) dimension = true.

Lemma current_subset l r : r ∈ current l → r ∈ l.
Proof.
  induction l as [|h l IH]; [done|]. cbn. destruct (existsb _ l); [intros ?%IH; by constructor|].
  intros [->|?%IH]%elem_of_cons; by constructor.
Qed.

Lemma agrees_snoc l r :
  Forall well_scoped l → well_scoped r → extends r l → agrees l → agrees (l ++ [r]).
Proof.
  intros Hl Hr He Ha f Hf. rewrite current_snoc, !filterb_snoc.
  destruct (f r) eqn:Hfr; [by rewrite !last_snoc|]. rewrite !app_nil_r, (Ha f Hf). f_equal. symmetry.
  apply filterb_id. intros h Hh Hfh. apply other_key_true. intros Hk.
  apply not_true_iff_false in Hfr. apply Hfr, (Hf h); [|done|done| |done].
  - rewrite Forall_forall in Hl. by apply Hl, current_subset.
  - intros dimension. by apply He.
Qed.

Lemma existsb_last {A} (f : A → bool) l : existsb f l = bool_decide (is_Some (last (List.filter f l))).
Proof.
  destruct (existsb f l) eqn:E; symmetry; [apply bool_decide_eq_true|apply bool_decide_eq_false].
  - apply existsb_exists in E as (x & Hx & Hf). apply last_is_Some. intros Hn.
    rewrite (filterb_nil f l Hn x) in Hf; [done|by apply list_elem_of_In].
  - rewrite last_is_Some. intros Hn. apply Hn. destruct (List.filter f l) as [|x k] eqn:Ek; [done|].
    assert (x ∈ List.filter f l) as [Hf Hx]%elem_of_filterb by (rewrite Ek; by constructor).
    apply not_true_iff_false in E. exfalso. apply E, existsb_exists. exists x. by rewrite <-list_elem_of_In.
Qed.

Lemma agrees_lookup l scope pc mask :
  agrees l → log_lookup scope pc mask l = log_lookup scope pc mask (current l).
Proof.
  intros Ha. unfold log_lookup, last_word. rewrite !existsb_last.
  rewrite (Ha (concerns scope pc mask)).
  2: { intros r r' Hr Hr' Hk _ Hf. by rewrite <-(concerns_key scope pc mask r r'). }
  rewrite !(Ha (λ r, concerns scope pc mask r && carries (dimensions r) _)); [done|..];
    intros r r' Hr Hr' Hk Hd [Hc ?]%andb_true_iff; rewrite <-(concerns_key scope pc mask r r'), Hc by done;
    by apply Hd.
Qed.

(** ** The table *)

Definition seq_lt (r r' : destinationRecord) : Prop := sequence r < sequence r'.

Definition keyed (l : list destinationRecord) : gmap destinationKey destinationRecord :=
  list_to_map ((λ r, (destinationRecordKey r, r)) <$> l).
#[local] Arguments keyed : simpl never.

(** The table holds the records of [l], in the order of their numbers. *)
Record table (d : destinations) (l : list destinationRecord) : Prop := mkTable {
  table_sorted : StronglySorted seq_lt l;
  table_NoDup : NoDup (destinationRecordKey <$> l);
  table_numbers : Forall (λ r, 0 < sequence r ≤ d_sequence d) l;
  table_state : d_state d = keyed l;
  table_sequence : 0 ≤ d_sequence d < 2 ^ 64;
  table_length : len l < 2 ^ 63;
}.

Lemma keyed_pairs l : ((λ r, (destinationRecordKey r, r)) <$> l).*1 = destinationRecordKey <$> l.
Proof. by rewrite <-list_fmap_compose. Qed.

Lemma keyed_perm l : NoDup (destinationRecordKey <$> l) → (map_to_list (keyed l)).*2 ≡ₚ l.
Proof.
  intros Hnd. unfold keyed. rewrite map_to_list_to_map by by rewrite keyed_pairs.
  by rewrite <-list_fmap_compose, list_fmap_id.
Qed.

Lemma keyed_lookup l k r :
  NoDup (destinationRecordKey <$> l) → (keyed l !! k = Some r ↔ r ∈ l ∧ destinationRecordKey r = k).
Proof.
  intros Hnd. unfold keyed. rewrite <-elem_of_list_to_map by by rewrite keyed_pairs.
  rewrite list_elem_of_fmap. split.
  - by intros (x & [= -> ->] & Hx).
  - intros [Hr <-]. by exists r.
Qed.

Lemma keyed_size l : NoDup (destinationRecordKey <$> l) → size (keyed l) = length l.
Proof.
  intros Hnd. rewrite <-length_map_to_list, <-(length_fmap snd), (keyed_perm l Hnd). done.
Qed.

#[local] Instance sequence_le_transitive : Transitive sequence_le.
Proof. intros r r' r''. unfold sequence_le. lia. Qed.
#[local] Instance sequence_le_total : Total sequence_le.
Proof. intros r r'. unfold sequence_le. lia. Qed.

Lemma sorted_weaken l : StronglySorted seq_lt l → StronglySorted sequence_le l.
Proof.
  induction 1 as [|r l _ IH Hr]; constructor; [done|]. eapply Forall_impl; [done|].
  unfold seq_lt, sequence_le. lia.
Qed.

Lemma sorted_distinct l r r' :
  StronglySorted seq_lt l → r ∈ l → r' ∈ l → sequence r = sequence r' → r = r'.
Proof.
  intros Hs. induction Hs as [|x l _ IH Hx]; [by intros ?%elem_of_nil|].
  rewrite Forall_forall in Hx. unfold seq_lt in Hx.
  intros [->|Hr]%elem_of_cons [->|Hr']%elem_of_cons E; [done| | |by apply IH].
  - specialize (Hx r' Hr'). lia.
  - specialize (Hx r Hr). lia.
Qed.

Lemma chronicle_table d l : table d l → chronicle d = l.
Proof.
  intros Ht. pose proof (keyed_perm l (table_NoDup _ _ Ht)) as Hp. unfold chronicle.
  rewrite (table_state _ _ Ht).
  apply (StronglySorted_unique_strong sequence_le).
  - intros r r'. rewrite merge_sort_Permutation, Hp. unfold sequence_le. intros Hr Hr' ??.
    eapply sorted_distinct; [apply (table_sorted _ _ Ht)|done..|lia].
  - apply StronglySorted_merge_sort; apply _.
  - apply sorted_weaken, (table_sorted _ _ Ht).
  - by rewrite merge_sort_Permutation.
Qed.

Lemma table_new : table newDestinations [].
Proof. split; try done; constructor. Qed.

(** Renumbering keeps the order. *)
Fixpoint numbered (n : Z) (l : list destinationRecord) : list destinationRecord :=
  match l with
  | [] => []
  | r :: l => r <| sequence := n + 1 |> :: numbered (n + 1) l
  end.

Lemma numbered_keys n l : destinationRecordKey <$> numbered n l = destinationRecordKey <$> l.
Proof. revert n. induction l as [|r l IH]; intros n; [done|]. cbn. by f_equal. Qed.

Lemma numbered_erase n l : erase <$> numbered n l = erase <$> l.
Proof. revert n. induction l as [|r l IH]; intros n; [done|]. cbn. by f_equal. Qed.

Lemma numbered_range n l :
  Forall (λ r, n < sequence r ≤ n + len l) (numbered n l).
Proof.
  revert n. induction l as [|r l IH]; intros n; [constructor|]. cbn [numbered]. rewrite len_cons.
  pose proof (len_nonneg l). constructor; [cbn; lia|]. eapply Forall_impl; [apply IH|]. cbn. lia.
Qed.

Lemma numbered_sorted n l : StronglySorted seq_lt (numbered n l).
Proof.
  revert n. induction l as [|r l IH]; intros n; [constructor|]. cbn [numbered]. constructor; [done|].
  eapply Forall_impl; [apply numbered_range|]. unfold seq_lt. cbn. lia.
Qed.

Lemma keyed_cons r l : keyed (r :: l) = <[destinationRecordKey r := r]> (keyed l).
Proof. done. Qed.

Lemma keyed_None l k : k ∉ destinationRecordKey <$> l → keyed l !! k = None.
Proof. intros Hk. apply not_elem_of_list_to_map_1. by rewrite keyed_pairs. Qed.

Lemma renumber_spec n l d :
  NoDup (destinationRecordKey <$> l) →
  renumber n l d = mkDestinations (keyed (numbered n l) ∪ d_state d) (n + len l) (maxRecords d).
Proof.
  revert n d. induction l as [|r l IH]; intros n d Hnd.
  - destruct d as [s q m]. cbn. change (keyed []) with (∅ : gmap destinationKey destinationRecord).
    by rewrite (left_id_L ∅ (∪)), Z.add_0_r.
  - cbn [fmap list_fmap] in Hnd. apply NoDup_cons in Hnd as [Hr Hnd].
    cbn [renumber numbered]. rewrite IH by done. destruct d as [s q m]. cbn. f_equal.
    + rewrite keyed_cons. change (destinationRecordKey (r <| sequence := n + 1 |>)) with (destinationRecordKey r).
      cbn. rewrite <-insert_union_l, insert_union_r; [done|].
      apply keyed_None. by rewrite numbered_keys.
    + rewrite len_cons. lia.
Qed.

Lemma renumber_table d l :
  table d l → table (renumberLocked d) (numbered 0 l) ∧ d_sequence (renumberLocked d) = len l ∧
  maxRecords (renumberLocked d) = maxRecords d.
Proof.
  intros Ht. unfold renumberLocked. rewrite (chronicle_table d l Ht), renumber_spec by apply Ht.
  cbn. split; [|done]. pose proof (len_nonneg l). pose proof (table_length _ _ Ht).
  assert (len (numbered 0 l) = len l) as Hlen.
  { unfold len. f_equal. rewrite <-(length_fmap destinationRecordKey l), <-(numbered_keys 0 l).
    by rewrite length_fmap. }
  split; cbn; [apply numbered_sorted|rewrite numbered_keys; apply Ht| | |lia|lia].
  - eapply Forall_impl; [apply numbered_range|]. cbn. lia.
  - rewrite (table_state _ _ Ht). apply map_eq. intros k. rewrite lookup_union.
    destruct (keyed (numbered 0 l) !! k) as [r|] eqn:Hk.
    + by destruct (keyed l !! k).
    + rewrite (left_id_L None (∪)). apply keyed_None.
      apply not_elem_of_list_to_map_2 in Hk. by rewrite keyed_pairs, numbered_keys in Hk.
Qed.

(** The next number is above all others. *)
Lemma advance_table d l :
  table d l → ∃ l', table (advance d) l' ∧ erase <$> l' = erase <$> l ∧
    Forall (λ r, sequence r < d_sequence (advance d)) l' ∧ 0 < d_sequence (advance d) ∧
    maxRecords (advance d) = maxRecords d.
Proof.
  intros Ht. unfold advance. cbn.
  pose proof (table_sequence _ _ Ht) as Hs. pose proof (table_numbers _ _ Ht) as Hn.
  destruct (u64 (d_sequence d + 1) =? 0) eqn:E.
  - change (d <| d_sequence ::= λ n, u64 (n + 1) |>) with
      (mkDestinations (d_state d) (u64 (d_sequence d + 1)) (maxRecords d)).
    assert (Hren : renumberLocked (mkDestinations (d_state d) (u64 (d_sequence d + 1)) (maxRecords d)) =
                   renumberLocked d).
    { unfold renumberLocked, chronicle. cbn [d_state].
      rewrite !renumber_spec; [done|..];
        change (merge_sort _ _) with (chronicle d); rewrite (chronicle_table _ _ Ht); apply Ht. }
    rewrite Hren. destruct (renumber_table d l Ht) as (Ht' & Hq & Hm).
    change ((renumberLocked d) <| d_sequence ::= λ n, u64 (n + 1) |>) with
      (mkDestinations (d_state (renumberLocked d)) (u64 (d_sequence (renumberLocked d) + 1))
         (maxRecords (renumberLocked d))).
    rewrite Hq, Hm.
    pose proof (len_nonneg l). pose proof (table_length _ _ Ht) as Hlen.
    assert (u64 (len l + 1) = len l + 1) as -> by (apply Z.mod_small; lia).
    exists (numbered 0 l). split; [|split; [apply numbered_erase|]].
    + destruct Ht' as [? ? Hb ? ? ?]. split; cbn; try done; [|lia]. rewrite Hq in Hb.
      eapply Forall_impl; [exact Hb|]. cbn. lia.
    + split; [|split; [cbn; lia|done]]. cbn. eapply Forall_impl; [apply numbered_range|]. cbn. lia.
  - apply Z.eqb_neq in E. assert (d_sequence d + 1 < 2 ^ 64) as Hlt.
    { destruct (decide (d_sequence d + 1 = 2 ^ 64)) as [Heq|]; [|lia]. by rewrite Heq in E. }
    assert (u64 (d_sequence d + 1) = d_sequence d + 1) as Hu by (apply Z.mod_small; lia).
    exists l. cbn. rewrite Hu. split; [|split; [done|]].
    + destruct Ht as [? ? Hb ? ? ?]. split; cbn; rewrite ?Hu; try done; [|lia].
      eapply Forall_impl; [exact Hb|]. cbn. lia.
    + split; [|split; [lia|done]]. eapply Forall_impl; [exact Hn|]. cbn. lia.
Qed.

Lemma filter_sorted f l : StronglySorted seq_lt l → StronglySorted seq_lt (List.filter f l).
Proof.
  induction 1 as [|r l _ IH Hr]; cbn; [constructor|]. destruct (f r); [|done]. constructor; [done|].
  rewrite Forall_forall in *. intros x [_ Hx]%elem_of_filterb. by apply Hr.
Qed.

Lemma filter_NoDup_keys f l :
  NoDup (destinationRecordKey <$> l) → NoDup (destinationRecordKey <$> List.filter f l).
Proof.
  induction l as [|r l IH]; [done|]. cbn. intros [Hr Hnd]%NoDup_cons.
  destruct (f r); [|by apply IH]. cbn. apply NoDup_cons. split; [|by apply IH].
  rewrite list_elem_of_fmap in *. intros (x & Hx & [_ Hin]%elem_of_filterb). apply Hr. eauto.
Qed.

Lemma NoDup_replace k l r :
  NoDup (destinationRecordKey <$> l) → destinationRecordKey r = k →
  NoDup (destinationRecordKey <$> List.filter (other_key k) l ++ [r]).
Proof.
  intros Hnd Hr. rewrite fmap_app. apply NoDup_app. split; [by apply filter_NoDup_keys|].
  split; [|apply NoDup_singleton].
  intros k' (x & -> & [Hx%other_key_true _]%elem_of_filterb)%list_elem_of_fmap.
  cbn. rewrite list_elem_of_singleton. congruence.
Qed.

Lemma keyed_replace k l r :
  NoDup (destinationRecordKey <$> l) → destinationRecordKey r = k →
  keyed (List.filter (other_key k) l ++ [r]) = <[k:=r]> (keyed l).
Proof.
  intros Hnd Hr. apply map_eq. intros k'. apply option_eq. intros x.
  rewrite (keyed_lookup _ k' x) by by apply NoDup_replace.
  rewrite elem_of_app, elem_of_filterb, list_elem_of_singleton, other_key_true.
  destruct (decide (k = k')) as [<-|Hk].
  - rewrite lookup_insert_eq. split; [|by intros [= <-]; auto]. intros [[[? ?]| ->] ?]; [done|done].
  - rewrite lookup_insert_ne, keyed_lookup by done. split.
    + intros [[[? ?]| ->] Hx]; [done|]. congruence.
    + intros [? <-]. auto.
Qed.

Lemma filter_erase f l :
  (∀ r, f (erase r) = f r) → erase <$> List.filter f l = List.filter f (erase <$> l).
Proof.
  intros Hf. induction l as [|r l IH]; [done|]. cbn. rewrite Hf. destruct (f r); [cbn; by f_equal|done].
Qed.

Lemma len_filter_le {A} (f : A → bool) l : len (List.filter f l) ≤ len l.
Proof. unfold len. pose proof (List.filter_length_le f l). lia. Qed.

Lemma len_filter_lt {A} (f : A → bool) l x : x ∈ l → f x = false → len (List.filter f l) < len l.
Proof.
  induction l as [|y l IH]; [by intros ?%elem_of_nil|]. cbn [List.filter]. pose proof (len_filter_le f l).
  intros [->|Hx]%elem_of_cons Hf; [rewrite Hf, len_cons; lia|].
  destruct (f y); rewrite !len_cons; specialize (IH Hx Hf); lia.
Qed.

Lemma len_erase l : len (erase <$> l) = len l.
Proof. unfold len. by rewrite length_fmap. Qed.

Lemma install_table d l r :
  table d l →
  (destinationRecordKey r ∈ destinationRecordKey <$> l) ∨ len l + 1 < 2 ^ 63 →
  ∃ l', table (install r d) l' ∧
    erase <$> l' = List.filter (other_key (destinationRecordKey r)) (erase <$> l) ++ [erase r] ∧
    maxRecords (install r d) = maxRecords d.
Proof.
  intros Ht Hroom. destruct (advance_table d l Ht) as (l0 & Ht0 & He & Hnew & Hpos & Hm).
  unfold install. set (k := destinationRecordKey r). set (e := advance d) in *. cbn zeta.
  set (r' := r <| sequence := d_sequence e |>).
  change (e <| d_state ::= insert k r' |>) with
    (mkDestinations (<[k := r']> (d_state e)) (d_sequence e) (maxRecords e)).
  assert (Hk : destinationRecordKey r' = k) by done.
  assert (Hlen : len l0 = len l) by by rewrite <-(len_erase l0), He, len_erase.
  assert (Hkeys : destinationRecordKey <$> l0 = destinationRecordKey <$> l).
  { transitivity (destinationRecordKey <$> (erase <$> l0)); [by rewrite <-list_fmap_compose|].
    rewrite He. by rewrite <-list_fmap_compose. }
  exists (List.filter (other_key k) l0 ++ [r']). split; [|split; [|done]].
  - destruct Ht0 as [Hs Hnd Hb Hst Hq Hl]. split; cbn.
    + apply StronglySorted_app. split; [|split; [by apply filter_sorted|repeat constructor]].
      intros x y [_ Hx]%elem_of_filterb ->%list_elem_of_singleton. unfold seq_lt. cbn.
      rewrite Forall_forall in Hnew. by apply Hnew.
    + by apply NoDup_replace.
    + apply Forall_app. split; [|repeat constructor; cbn; lia].
      rewrite Forall_forall in *. intros x [_ Hx]%elem_of_filterb. by apply Hb.
    + by rewrite Hst, keyed_replace.
    + done.
    + rewrite len_app. change (len [r']) with 1. pose proof (len_filter_le (other_key k) l0).
      destruct Hroom as [Hin|Hroom]; [|lia]. rewrite <-Hkeys, list_elem_of_fmap in Hin.
      destruct Hin as (x & Hx & Hin). assert (other_key k x = false) as Hf.
      { apply not_true_iff_false. rewrite other_key_true. intros Hne. by apply Hne. }
      pose proof (len_filter_lt (other_key k) l0 x Hin Hf). lia.
  - rewrite fmap_app. cbn. f_equal. rewrite filter_erase by done. by rewrite He.
Qed.

(** ** Refinement *)

Record refines (d : destinations) (g : log) : Prop := mkRefines {
  refines_table : ∃ l, table d l ∧ erase <$> l = current (statements g);
  refines_scoped : Forall well_scoped (statements g);
  refines_agrees : agrees (statements g);
  refines_bound : bound g = maxRecords d;
  refines_small : bound g < 2 ^ 63;
}.

Lemma refines_new : refines newDestinations (mkLog [] DefaultMaxSSNMDestinationRecords).
Proof. split; [exists []; split; [apply table_new|done]|constructor|by intros f _|done|done]. Qed.

Lemma refines_held d g k :
  refines d g →
  last (List.filter (same_key k) (statements g)) = erase <$> (d_state d !! k).
Proof.
  intros [(l & Ht & He) _ _ _ _]. rewrite (table_state _ _ Ht).
  destruct (keyed l !! k) as [held|] eqn:Hk; cbn.
  - apply keyed_lookup in Hk as [Hin Hk]; [|apply Ht]. apply held_unique; [|done].
    rewrite <-He. by apply list_elem_of_fmap_2.
  - destruct (last _) as [h|] eqn:Hl; [|done]. exfalso.
    apply held_in_current in Hl as [Hin Hh]. rewrite <-He in Hin.
    apply list_elem_of_fmap in Hin as (x & -> & Hx).
    assert (keyed l !! k = Some x) as Hx' by (apply keyed_lookup; [apply Ht|done]). congruence.
Qed.

Lemma refines_size d g : refines d g → Z.of_nat (size (d_state d)) = len (current (statements g)).
Proof.
  intros [(l & Ht & He) _ _ _ _]. rewrite (table_state _ _ Ht), keyed_size, <-He, len_erase by apply Ht.
  done.
Qed.

Lemma refines_limit d g : refines d g → recordLimitLocked d = log_limit g.
Proof. intros [_ _ _ Hb _]. unfold log_limit. by rewrite Hb. Qed.

Lemma log_limit_small d g : refines d g → log_limit g < 2 ^ 63.
Proof. intros [_ _ _ _ Hs]. unfold log_limit. destruct (0 <? bound g); [done|]. by cbn. Qed.

(** Appending what the table installs. *)
Lemma install_refines d g r :
  refines d g → well_scoped r → extends (erase r) (statements g) →
  (∃ h, h ∈ current (statements g) ∧ destinationRecordKey h = destinationRecordKey r) ∨
  len (current (statements g)) + 1 < 2 ^ 63 →
  refines (install r d) (mkLog (statements g ++ [erase r]) (bound g)).
Proof.
  intros [(l & Ht & He) Hs Ha Hb Hsm] Hr Hx Hroom.
  destruct (install_table d l r Ht) as (l' & Ht' & He' & Hm).
  { rewrite <-He, len_erase in Hroom. destruct Hroom as [(h & Hh & Hk)|]; [left|by right].
    apply list_elem_of_fmap in Hh as (x & -> & Hin). apply list_elem_of_fmap. by exists x. }
  split; cbn [statements bound].
  - exists l'. split; [done|]. by rewrite current_snoc, He', He.
  - apply Forall_app. split; [done|]. by constructor.
  - by apply agrees_snoc.
  - by rewrite Hb, Hm.
  - done.
Qed.

Lemma store_refines d g r :
  refines d g → well_scoped r →
  (storeLocked r d).1 = (log_store (erase r) g).1 ∧
  refines (storeLocked r d).2 (log_store (erase r) g).2.
Proof.
  intros Hd Hr. unfold storeLocked, log_store. rewrite key_erase, (refines_held d g _ Hd).
  destruct (d_state d !! destinationRecordKey r) as [held|] eqn:Hk; cbn [fmap option_fmap option_map].
  - pose proof (refines_held d g (destinationRecordKey r) Hd) as Hl. rewrite Hk in Hl. cbn in Hl.
    split; [done|]. cbn [snd]. rewrite <-erase_restate. apply install_refines; [done|done| |].
    + intros h dimension Hh Hh' Hc.
      rewrite (held_unique (destinationRecordKey r) _ h Hh Hh') in Hl. injection Hl as ->. by apply carries_restate.
    + left. exists (erase held). by apply held_in_current in Hl.
  - rewrite (refines_limit d g Hd), (refines_size d g Hd).
    destruct (log_limit g <=? _) eqn:Hlim; [done|]. split; [done|]. cbn [snd].
    pose proof (log_limit_small d g Hd). apply install_refines; [done|done| |right; lia].
    intros h dimension Hh Hh' _. exfalso.
    pose proof (refines_held d g (destinationRecordKey r) Hd) as Hl.
    rewrite Hk, (held_unique (destinationRecordKey r) _ h Hh Hh') in Hl. done.
Qed.

Lemma all_refines records : ∀ d g,
  refines d g → Forall well_scoped records →
  (storeAll records d).1 = (log_all (erase <$> records) g).1 ∧
  refines (storeAll records d).2 (log_all (erase <$> records) g).2.
Proof.
  induction records as [|r records IH]; intros d g Hd Hr; [done|]. cbn [fmap list_fmap storeAll log_all].
  inversion_clear Hr as [|? ? Hr1 Hrs]. destruct (store_refines d g r Hd Hr1) as [Hb Hd'].
  destruct (storeLocked r d) as [b d1], (log_store (erase r) g) as [b' g1]. cbn in Hb, Hd'. subst b'.
  destruct (IH d1 g1 Hd' Hrs) as [Hn Hd2].
  destruct (storeAll records d1) as [n d2], (log_all (erase <$> records) g1) as [n' g2].
  cbn in *. by subst n'.
Qed.

Lemma erase_records congestion scope ranges :
  erase <$> records_of congestion scope ranges = records_of congestion scope ranges.
Proof.
  unfold records_of. destruct scope as [rcs|]; [destruct (len rcs =? 0); [done|]|];
    rewrite <-list_fmap_compose; done.
Qed.

Lemma report_writes congestion scope ranges d :
  report congestion scope ranges d = writeRecords (records_of congestion scope ranges) d.
Proof.
  unfold report, records_of. destruct scope as [rcs|], congestion; try done;
    unfold setScopedCongestionRangesWithinBudget, setScopedRangesWithinBudget;
    by destruct (len rcs =? 0).
Qed.

Lemma perform_refines o d g :
  refines d g → operation_ok o →
  (perform o d).1 = (log_perform o g).1 ∧ refines (perform o d).2 (log_perform o g).2.
Proof.
  intros Hd Ho. destruct o as [congestion scope ranges| | |limit]; cbn [perform log_perform].
  - rewrite report_writes. unfold writeRecords.
    destruct (all_refines (records_of congestion scope ranges) d g Hd) as [Hn Hd'].
    { by eapply well_scoped_records. }
    rewrite erase_records in Hn, Hd'. destruct (storeAll _ d), (log_all _ g). cbn in *. by subst.
  - split; [done|]. cbn [snd]. unfold pause.
    pose proof Hd as [(l & Ht & He) Hs _ _ _]. rewrite (chronicle_table d l Ht).
    change (λ r, negb (ns_Availability (dr_State (rangeValue r)) =? DestinationUnavailable))
      with is_reachable.
    rewrite <-He, <-filter_erase, <-list_fmap_compose by done.
    change (unavailableRecord ∘ erase) with (erase ∘ unavailableRecord). rewrite list_fmap_compose.
    apply all_refines; [done|]. apply Forall_fmap, Forall_forall.
    intros r [_ Hin]%elem_of_filterb. change (well_scoped (erase r)).
    rewrite Forall_forall in Hs. apply Hs, current_subset. rewrite <-He. by apply list_elem_of_fmap_2.
  - unfold forget. cbn. rewrite (refines_size d g Hd). split; [done|].
    destruct Hd as [(l & Ht & He) Hs Ha Hb Hsm]. split; cbn; [|constructor|by intros f _|done|done].
    exists []. split; [|done]. destruct Ht. split; try done; constructor.
  - split; [done|]. cbn [snd]. unfold setRecordLimit. destruct (limit <=? 0); [done|].
    destruct Hd as [(l & Ht & He) Hs Ha Hb Hsm]. split; cbn; try done.
    exists l. split; [|done]. by destruct Ht.
Qed.

(** ** Answers *)

(** One dimension of [lookupStep]. *)
Definition pick {A} (dimension : Z) (f : DestinationNetworkState → A) (acc : A * Z)
    (r : destinationRecord) : A * Z :=
  if carries (dimensions r) dimension && (acc.2 <? sequence r)
  then (f (dr_State (rangeValue r)), sequence r) else acc.

Lemma lookupStep_pick l r :
  let availability := pick destinationAvailabilityDimension ns_Availability
                        (ns_Availability (l_state l), availabilitySeq l) r in
  let congestion := pick destinationCongestionDimension ns_Congestion
                      (ns_Congestion (l_state l), congestionSeq l) r in
  lookupStep l r = mkLookup (mkNetworkState availability.1 congestion.1)
                     availability.2 congestion.2 true.
Proof.
  destruct l as [[a c] s s' kn]. unfold lookupStep, pick. cbn.
  destruct (carries (dimensions r) destinationAvailabilityDimension && (s <? sequence r));
    destruct (carries (dimensions r) destinationCongestionDimension && (s' <? sequence r)); done.
Qed.

Lemma lookup_folds rs l :
  let availability := foldl (pick destinationAvailabilityDimension ns_Availability)
                        (ns_Availability (l_state l), availabilitySeq l) rs in
  let congestion := foldl (pick destinationCongestionDimension ns_Congestion)
                      (ns_Congestion (l_state l), congestionSeq l) rs in
  foldl lookupStep l rs = mkLookup (mkNetworkState availability.1 congestion.1)
    availability.2 congestion.2 (known l || bool_decide (rs ≠ [])).
Proof.
  revert l. induction rs as [|r rs IH]; intros l; cbn [foldl].
  - destruct l as [[a c] s s' kn]. cbn. by rewrite orb_false_r.
  - rewrite IH, lookupStep_pick. cbn zeta. cbn [l_state availabilitySeq congestionSeq known].
    cbn [ns_Availability ns_Congestion]. rewrite <-!surjective_pairing. f_equal.
    cbn. by rewrite orb_true_r.
Qed.

Lemma pick_swap {A} dimension (f : DestinationNetworkState → A) acc r r' :
  sequence r ≠ sequence r' →
  pick dimension f (pick dimension f acc r) r' = pick dimension f (pick dimension f acc r') r.
Proof.
  intros Hne. unfold pick. destruct acc as [a s].
  destruct (carries (dimensions r) dimension), (carries (dimensions r') dimension); cbn; try done;
    repeat (case_match; cbn in *); try done; lia.
Qed.

Lemma foldl_pick_permutation {A} dimension (f : DestinationNetworkState → A) acc l l' :
  NoDup (sequence <$> l) → l ≡ₚ l' → foldl (pick dimension f) acc l = foldl (pick dimension f) acc l'.
Proof.
  intros Hnd Hp. revert acc Hnd. induction Hp as [|r l l' _ IH|r r' l|l l' l'' Hp IH _ IH']; intros acc Hnd.
  - done.
  - cbn in Hnd |- *. apply NoDup_cons in Hnd as [_ Hnd]. by apply IH.
  - cbn in Hnd |- *. apply NoDup_cons in Hnd as [Hne _]. rewrite pick_swap; [done|].
    intros E. apply Hne. rewrite E. by constructor.
  - rewrite IH by done. apply IH'. by rewrite <-Hp.
Qed.

Lemma sorted_NoDup l : StronglySorted seq_lt l → NoDup (sequence <$> l).
Proof.
  induction 1 as [|r l _ IH Hr]; [constructor|]. cbn. apply NoDup_cons. split; [|done].
  intros (x & Hx & Hin)%list_elem_of_fmap. rewrite Forall_forall in Hr. specialize (Hr x Hin).
  unfold seq_lt in Hr. lia.
Qed.

(** On records in order, the last that carries the dimension is picked. *)
Lemma foldl_pick_sorted {A} dimension (f : DestinationNetworkState → A) a l :
  StronglySorted seq_lt l → Forall (λ r, 0 < sequence r) l →
  let picked := last (List.filter (λ r, carries (dimensions r) dimension) l) in
  foldl (pick dimension f) (a, 0) l =
    (default a ((λ r, f (dr_State (rangeValue r))) <$> picked), default 0 (sequence <$> picked)).
Proof.
  induction l as [|r l IH] using rev_ind; intros Hs Hp; [done|]. cbn zeta.
  apply StronglySorted_app in Hs as (Hlt & Hs & _). apply Forall_app in Hp as [Hp Hr].
  inversion_clear Hr as [|? ? Hr0 _]. rewrite foldl_app, IH, filterb_snoc by done. cbn [foldl].
  unfold pick. cbn [fst snd]. destruct (carries (dimensions r) dimension) eqn:Hc; cbn [andb].
  - rewrite last_snoc. cbn. rewrite (proj2 (Z.ltb_lt _ _)); [done|].
    destruct (last (List.filter _ l)) as [x|] eqn:Hl; cbn; [|exact Hr0].
    apply last_Some_elem_of in Hl. apply elem_of_filterb in Hl as [_ Hx].
    apply Hlt; [done|by constructor].
  - by rewrite app_nil_r.
Qed.

Lemma filter_filterb {A} (f g : A → bool) l :
  List.filter f (List.filter g l) = List.filter (λ x, g x && f x) l.
Proof.
  induction l as [|x l IH]; [done|]. cbn. destruct (g x); cbn; [|done]. by rewrite IH.
Qed.

Lemma filter_perm {A} (f : A → bool) l l' : l ≡ₚ l' → List.filter f l ≡ₚ List.filter f l'.
Proof.
  induction 1 as [|x l l' _ IH|x y l|l l' l'' _ IH _ IH']; cbn.
  - done.
  - destruct (f x); by rewrite IH.
  - destruct (f x), (f y); try done. apply perm_swap.
  - by rewrite IH.
Qed.

Lemma existsb_filter {A} (f : A → bool) l : existsb f l = bool_decide (List.filter f l ≠ []).
Proof.
  induction l as [|x l IH]; [done|]. cbn. destruct (f x); [done|exact IH].
Qed.

(** A lookup does not depend on the order in which it meets the records, and
    answers as the log of the records in the order of their numbers. *)
Lemma lookupRecords_sorted l l' scope pc mask :
  StronglySorted seq_lt l → Forall (λ r, 0 < sequence r) l → l' ≡ₚ l →
  lookupRecords l' scope pc mask = log_lookup scope pc mask l.
Proof.
  intros Hs Hp Hperm. unfold lookupRecords, log_lookup, last_word. rewrite lookup_folds. cbn zeta.
  cbn [l_state known availabilitySeq congestionSeq zeroNetworkState ns_Availability ns_Congestion].
  set (g := concerns scope pc mask).
  assert (Hfs : StronglySorted seq_lt (List.filter g l)) by by apply filter_sorted.
  assert (Hfp : Forall (λ r, 0 < sequence r) (List.filter g l)).
  { rewrite Forall_forall in *. intros r [_ Hr]%elem_of_filterb. by apply Hp. }
  pose proof (filter_perm g _ _ Hperm) as Hfperm. symmetry in Hfperm.
  pose proof (sorted_NoDup _ Hfs) as Hnd.
  rewrite <-!(foldl_pick_permutation _ _ _ _ _ Hnd Hfperm), !foldl_pick_sorted by done.
  cbn [fst snd]. rewrite !filter_filterb, existsb_filter. fold g. f_equal; [f_equal|].
  - by rewrite <-option_fmap_compose.
  - by rewrite <-option_fmap_compose.
  - cbn. apply bool_decide_ext. apply not_iff_compat. split; intros E.
    + rewrite E in Hfperm. by apply Permutation_nil_r in Hfperm.
    + rewrite E in Hfperm. by apply Permutation_nil_l in Hfperm.
Qed.

Lemma erase_lookup scope pc mask l :
  log_lookup scope pc mask (erase <$> l) = log_lookup scope pc mask l.
Proof.
  unfold log_lookup, last_word. rewrite !existsb_filter, <-!filter_erase by done.
  assert (Hl : ∀ k, (λ r, dr_State (rangeValue r)) <$> last (erase <$> k) =
                    (λ r, dr_State (rangeValue r)) <$> last k).
  { intros k. rewrite fmap_last. by rewrite <-option_fmap_compose. }
  rewrite !Hl. f_equal. apply bool_decide_ext. by destruct (List.filter _ l).
Qed.

Lemma refines_lookup d g scope pc mask :
  refines d g → lookupRange scope pc mask d = log_lookup scope pc mask (statements g).
Proof.
  intros [(l & Ht & He) Hs Ha _ _]. unfold lookupRange.
  rewrite (agrees_lookup _ scope pc mask Ha), <-He, erase_lookup, (table_state _ _ Ht).
  apply lookupRecords_sorted; [apply Ht| |by apply keyed_perm, Ht].
  eapply Forall_impl; [apply (table_numbers _ _ Ht)|]. cbn. lia.
Qed.

Lemma performs_refine ops : ∀ d g,
  refines d g → Forall operation_ok ops →
  (performs ops d).1 = (log_performs ops g).1 ∧ refines (performs ops d).2 (log_performs ops g).2.
Proof.
  induction ops as [|o ops IH]; intros d g Hd Ho; [done|]. inversion_clear Ho as [|? ? Ho1 Hos].
  cbn [performs log_performs]. destruct (perform_refines o d g Hd Ho1) as [Ha Hd1].
  destruct (perform o d) as [a d1], (log_perform o g) as [a' g1]. cbn in Ha, Hd1. subst a'.
  destruct (IH d1 g1 Hd1 Hos) as [Hl Hd2].
  destruct (performs ops d1) as [l d2], (log_performs ops g1) as [l' g2]. cbn in *. by subst.
Qed.

(** The table refines the log: every operation answers alike, and what the table
    answers of any destination, in any scope, is the last in the log of it, in
    each dimension, whatever the order in which a lookup meets the records and
    however often the sequence numbers have been renumbered. *)
Lemma table_refines_restated ops :
  Forall operation_ok ops →
  let '(answers, d) := performs ops newDestinations in
  let '(answers', g) := log_performs ops (mkLog [] DefaultMaxSSNMDestinationRecords) in
  answers = answers' ∧
  ∀ scope pc mask records, records ≡ₚ (map_to_list (d_state d)).*2 →
    lookupRecords records scope pc mask = log_lookup scope pc mask (statements g).
Proof.
  intros Ho. destruct (performs_refine ops _ _ refines_new Ho) as [Ha Hd].
  destruct (performs ops newDestinations) as [a d], (log_performs ops _) as [a' g]. cbn in Ha, Hd.
  split; [done|]. intros scope pc mask records Hp.
  destruct Hd as [(l & Ht & He) Hs Hag _ _].
  rewrite (agrees_lookup _ scope pc mask Hag), <-He, erase_lookup.
  apply lookupRecords_sorted; [apply Ht| |].
  - eapply Forall_impl; [apply (table_numbers _ _ Ht)|]. cbn. lia.
  - rewrite Hp, (table_state _ _ Ht). apply keyed_perm, Ht.
Qed.

(** ** What a report changes *)

Definition reachable (d : destinations) : Prop :=
  ∃ ops, Forall operation_ok ops ∧ d = (performs ops newDestinations).2.

(** A table that implements some log. *)
Definition told (d : destinations) : Prop := ∃ g, refines d g.

Lemma reachable_refines d : reachable d → told d.
Proof.
  intros (ops & Ho & ->). exists (log_performs ops (mkLog [] DefaultMaxSSNMDestinationRecords)).2.
  apply performs_refine; [apply refines_new|done].
Qed.

Lemma log_lookup_snoc scope pc mask l r :
  log_lookup scope pc mask (l ++ [r]) =
  let before := log_lookup scope pc mask l in
  if concerns scope pc mask r then
    (mkNetworkState
       (if carries (dimensions r) destinationAvailabilityDimension
        then ns_Availability (dr_State (rangeValue r)) else ns_Availability before.1)
       (if carries (dimensions r) destinationCongestionDimension
        then ns_Congestion (dr_State (rangeValue r)) else ns_Congestion before.1), true)
  else before.
Proof.
  unfold log_lookup, last_word. rewrite existsb_snoc, !filterb_snoc.
  destruct (concerns scope pc mask r); cbn [andb];
    [|by rewrite !app_nil_r, orb_false_r].
  rewrite orb_true_r. cbn [fst ns_Availability ns_Congestion].
  do 2 f_equal; [destruct (carries _ destinationAvailabilityDimension)|
                 destruct (carries _ destinationCongestionDimension)];
    rewrite ?last_snoc, ?app_nil_r; done.
Qed.

Lemma told_new limit : limit < 2 ^ 63 → told (setRecordLimit limit newDestinations).
Proof. intros. eexists. by apply (perform_refines (OLimit limit) _ _ refines_new). Qed.

Lemma told_forget d : told d → told (forget d).2.
Proof.
  intros [g Hg]. destruct (perform_refines OForget d g Hg I) as [_ Hr].
  cbn in Hr. unfold forget. cbn. by eexists.
Qed.

Lemma told_store r d : told d → well_scoped r → told (storeLocked r d).2.
Proof. intros [g Hg] Hr. eexists. by apply store_refines. Qed.

(** What the table answers after one record has been stored. *)
Lemma stored_lookup d r scope pc mask :
  told d → well_scoped r → (storeLocked r d).1 = true →
  let said := match d_state d !! destinationRecordKey r with
              | Some held => restate r held | None => r end in
  let before := lookupRange scope pc mask d in
  lookupRange scope pc mask (storeLocked r d).2 =
  if concerns scope pc mask r then
    (mkNetworkState
       (if carries (dimensions said) destinationAvailabilityDimension
        then ns_Availability (dr_State (rangeValue said)) else ns_Availability before.1)
       (if carries (dimensions said) destinationCongestionDimension
        then ns_Congestion (dr_State (rangeValue said)) else ns_Congestion before.1), true)
  else before.
Proof.
  intros [g Hg] Hr Hb. destruct (store_refines d g r Hg Hr) as [Hb' Hg'].
  rewrite Hb in Hb'. rewrite (refines_lookup _ _ _ _ _ Hg'), (refines_lookup _ _ _ _ _ Hg).
  assert (Hs : statements (log_store (erase r) g).2 = statements g ++
    [erase match d_state d !! destinationRecordKey r with Some held => restate r held | None => r end]).
  { unfold log_store in Hb' |- *. rewrite key_erase, (refines_held d g _ Hg) in Hb' |- *.
    destruct (d_state d !! destinationRecordKey r); [done|]. cbn in Hb' |- *.
    by destruct (log_limit g <=? _). }
  rewrite Hs, log_lookup_snoc. by destruct (d_state d !! destinationRecordKey r).
Qed.

(** A report that the table accepts is what it answers from then on of every
    destination the report concerns, in the dimension of the report; of other
    destinations it answers as before; and the other dimension changes only where
    the same range had been reported in it. *)
Theorem report_takes_effect d congestion scope range r :
  reachable d → operation_ok (OReport congestion scope [range]) →
  records_of congestion scope [range] = [r] → (storeLocked r d).1 = true →
  let d' := (report congestion scope [range] d).2 in
  let held := d_state d !! destinationRecordKey r in
  ∀ query pc mask,
    let '(before, known) := lookupRange query pc mask d in
    let '(after, known') := lookupRange query pc mask d' in
    if concerns query pc mask r then
      known' = true ∧
      (if congestion then ns_Congestion after = ns_Congestion (dr_State range)
       else ns_Availability after = ns_Availability (dr_State range)) ∧
      (¬ (∃ h, held = Some h ∧
            carries (dimensions h) (if congestion then destinationAvailabilityDimension
                                    else destinationCongestionDimension) = true) →
       if congestion then ns_Availability after = ns_Availability before
       else ns_Congestion after = ns_Congestion before)
    else (after, known') = (before, known).
Proof.
  intros Hd Ho Hr Hb d' held query pc mask.
  assert (Hscoped : well_scoped r).
  { pose proof (well_scoped_records _ congestion scope [range] eq_refl Ho) as Hs. rewrite Hr in Hs.
    by inversion Hs. }
  assert (Hd' : d' = (storeLocked r d).2).
  { unfold d'. rewrite report_writes, Hr. unfold writeRecords. cbn. by destruct (storeLocked r d). }
  pose proof (stored_lookup d r query pc mask (reachable_refines d Hd) Hscoped Hb) as Hl. rewrite <-Hd' in Hl.
  fold held in Hl. destruct (lookupRange query pc mask d) as [before kn].
  rewrite Hl. destruct (concerns query pc mask r); [|done]. split; [done|].
  assert (dimensions r = (if congestion then destinationCongestionDimension
                                 else destinationAvailabilityDimension) ∧
                 dr_State (rangeValue r) = dr_State range) as [Hdim Hst].
  { unfold records_of in Hr. destruct scope as [rcs|].
    - destruct (len rcs =? 0); [done|]. injection Hr as <-. done.
    - injection Hr as <-. done. }
  destruct congestion, held as [h|] eqn:Hh; cbn -[carries]; rewrite ?carries_lor, Hdim, ?Hst;
    (split; [done|]); intros Hn; [| done| |done];
    (match goal with |- context [carries (dimensions h) ?x] =>
       destruct (carries (dimensions h) x) eqn:Hc end;
     [by destruct Hn; exists h|done]).
Qed.

(** ** Isolation *)

(** A record that says nothing of availability has its zero value there; so do the
    congestion reports of the program. *)
Definition silent (r : destinationRecord) : Prop :=
  carries (dimensions r) destinationAvailabilityDimension = false →
  ns_Availability (dr_State (rangeValue r)) = DestinationAvailable.

Definition says_one_thing (o : operation) : Prop :=
  match o with
  | OReport true _ ranges => Forall (λ r, ns_Availability (dr_State r) = DestinationAvailable) ranges
  | _ => True
  end.

Lemma silent_restate r held : silent r → silent held → silent (restate r held).
Proof.
  unfold silent. cbn -[carries]. rewrite carries_lor. intros Hr Hh [H1 H2]%orb_false_iff.
  rewrite H1. by apply Hh.
Qed.

Lemma silent_unavailable r : silent (unavailableRecord r).
Proof. unfold silent. cbn -[carries]. by rewrite carries_lor, orb_true_r. Qed.

Lemma log_store_silent r g :
  silent r → Forall silent (statements g) → Forall silent (statements (log_store r g).2).
Proof.
  intros Hr Hg. unfold log_store. destruct (last _) as [h|] eqn:Hl.
  - apply Forall_app. split; [done|]. constructor; [|done]. apply silent_restate; [done|].
    apply held_in_current in Hl as [Hh _]. rewrite Forall_forall in Hg. by apply Hg, current_subset.
  - destruct (log_limit g <=? _); [done|]. apply Forall_app. split; [done|]. by constructor.
Qed.

Lemma log_all_silent records : ∀ g,
  Forall silent records → Forall silent (statements g) →
  Forall silent (statements (log_all records g).2).
Proof.
  induction records as [|r records IH]; intros g Hr Hg; [done|]. inversion_clear Hr as [|? ? H1 Hrs].
  cbn. pose proof (log_store_silent r g H1 Hg) as Hg1. destruct (log_store r g) as [b g1].
  specialize (IH g1 Hrs Hg1). by destruct (log_all records g1).
Qed.

Lemma log_performs_silent ops : ∀ g,
  Forall says_one_thing ops → Forall silent (statements g) →
  Forall silent (statements (log_performs ops g).2).
Proof.
  induction ops as [|o ops IH]; intros g Ho Hg; [done|]. inversion_clear Ho as [|? ? H1 Hos].
  cbn. assert (Hg1 : Forall silent (statements (log_perform o g).2)).
  { destruct o as [congestion scope ranges| | |limit]; cbn.
    - pose proof (log_all_silent (records_of congestion scope ranges) g) as Hall.
      destruct (log_all _ g). apply Hall; [|done]. unfold records_of.
      destruct scope as [rcs|]; [destruct (len rcs =? 0); [constructor|]|];
        apply Forall_fmap, Forall_forall; intros r Hin; destruct congestion; try done;
        intros _; cbn in H1; rewrite Forall_forall in H1; by apply (H1 r).
    - apply log_all_silent; [|done]. apply Forall_fmap, Forall_forall. intros r _.
      apply silent_unavailable.
    - constructor.
    - by destruct (limit <=? 0). }
  destruct (log_perform o g) as [a g1]. specialize (IH g1 Hos Hg1). by destruct (log_performs ops g1).
Qed.

(** What is said of ranges already in the log is always appended. *)
Lemma log_all_held records : ∀ g,
  Forall (λ r, ∃ h, h ∈ current (statements g) ∧ destinationRecordKey h = destinationRecordKey r) records →
  ∃ said, statements (log_all records g).2 = statements g ++ said ∧
    Forall2 (λ r s, ∃ h, s = restate r h) records said.
Proof.
  induction records as [|r records IH]; intros g Hr; [exists []; by rewrite app_nil_r|].
  inversion_clear Hr as [|? ? (h & Hh & Hk) Hrs]. cbn [log_all]. unfold log_store.
  rewrite (held_unique _ _ h Hh Hk).
  destruct (IH (mkLog (statements g ++ [restate r h]) (bound g))) as (said & Hs & Hsaid).
  { eapply Forall_impl; [exact Hrs|]. intros r' (h' & Hh' & Hk'). cbn [statements].
    rewrite current_snoc.
    destruct (decide (destinationRecordKey h' = destinationRecordKey r)) as [E|E].
    - exists (restate r h). split; [apply elem_of_app; right; by constructor|].
      rewrite key_restate. congruence.
    - exists h'. split; [|done]. apply elem_of_app. left. apply elem_of_filterb.
      split; [|done]. by apply other_key_true. }
  exists (restate r h :: said). split; [|constructor; [by exists h|done]].
  destruct (log_all records _). cbn in *. by rewrite Hs, <-app_assoc.
Qed.

Lemma last_word_app dimension scope pc mask l l' :
  last_word dimension scope pc mask (l ++ l') =
  match last_word dimension scope pc mask l' with
  | Some s => Some s
  | None => last_word dimension scope pc mask l
  end.
Proof.
  unfold last_word. rewrite List.filter_app, last_app.
  by destruct (last (List.filter _ l')).
Qed.

Lemma last_word_Some dimension scope pc mask l s :
  last_word dimension scope pc mask l = Some s →
  ∃ r, r ∈ l ∧ concerns scope pc mask r = true ∧ dr_State (rangeValue r) = s.
Proof.
  unfold last_word. destruct (last _) as [r|] eqn:Hl; [|done]. intros [= <-].
  apply last_Some_elem_of in Hl. apply elem_of_filterb in Hl as [[Hc _]%andb_true_iff Hin]. eauto.
Qed.

Lemma last_word_None dimension scope pc mask l r :
  last_word dimension scope pc mask l = None → r ∈ l → concerns scope pc mask r = true →
  carries (dimensions r) dimension = false.
Proof.
  unfold last_word. destruct (last _) as [x|] eqn:Hl; [done|]. intros _ Hin Hc.
  apply last_None in Hl. pose proof (filterb_nil _ _ Hl r Hin) as Hf. cbn in Hf.
  by rewrite Hc in Hf.
Qed.

Lemma Forall2_said scope pc mask records said :
  Forall2 (λ r s, ∃ h, s = restate r h) (unavailableRecord <$> records) said →
  (∀ s, s ∈ said → ns_Availability (dr_State (rangeValue s)) = DestinationUnavailable) ∧
  (∀ r, r ∈ records → concerns scope pc mask r = true →
     ∃ s, s ∈ said ∧ concerns scope pc mask s = true ∧
          carries (dimensions s) destinationAvailabilityDimension = true) ∧
  (∀ s, s ∈ said → concerns scope pc mask s = true →
     ∃ r, r ∈ records ∧ concerns scope pc mask r = true).
Proof.
  revert said. induction records as [|r records IH]; intros said Hs; cbn in Hs.
  - inversion Hs. split; [|split]; by intros ? ?%elem_of_nil.
  - inversion Hs as [|? ? ? said' (h & ->) Hs']; subst. destruct (IH said' Hs') as (H1 & H2 & H3).
    assert (Hcar : carries (dimensions (unavailableRecord r)) destinationAvailabilityDimension = true).
    { cbn -[carries]. by rewrite carries_lor, orb_true_r. }
    split; [|split].
    + intros s [->|Hin]%elem_of_cons; [|by apply H1]. cbn -[carries].
      change (Z.lor (dimensions r) destinationAvailabilityDimension) with
        (dimensions (unavailableRecord r)). by rewrite Hcar.
    + intros x [->|Hin]%elem_of_cons Hc.
      * exists (restate (unavailableRecord r) h). split; [by constructor|]. split; [exact Hc|].
        change (carries (Z.lor (dimensions (unavailableRecord r)) (dimensions h))
                  destinationAvailabilityDimension = true). by rewrite carries_lor, Hcar.
      * destruct (H2 x Hin Hc) as (s & Hs1 & ?). exists s. split; [by constructor|done].
    + intros s [->|Hin]%elem_of_cons Hc; [exists r; split; [by constructor|exact Hc]|].
      destruct (H3 s Hin Hc) as (x & Hx & ?). exists x. split; [by constructor|done].
Qed.

(** C24: Isolation is complete: after [pause] the same destinations are known as before,
    and every one of them, in every scope and by whatever ranges, is unavailable. *)
Theorem isolation_is_complete ops query pc mask :
  Forall operation_ok ops → Forall says_one_thing ops →
  let d := (performs ops newDestinations).2 in
  (lookupRange query pc mask (pause d)).2 = (lookupRange query pc mask d).2 ∧
  ((lookupRange query pc mask d).2 = true →
   ns_Availability (lookupRange query pc mask (pause d)).1 = DestinationUnavailable).
Proof.
  intros Ho Hq d. set (g := (log_performs ops (mkLog [] DefaultMaxSSNMDestinationRecords)).2).
  assert (Hd : refines d g) by (apply performs_refine; [apply refines_new|done]).
  assert (Hsil : Forall silent (statements g)) by by apply log_performs_silent.
  destruct (perform_refines OPause d g Hd I) as [_ Hp]. cbn [perform log_perform snd] in Hp.
  rewrite (refines_lookup _ _ _ _ _ Hp), (refines_lookup _ _ _ _ _ Hd).
  destruct (log_all_held (unavailableRecord <$> List.filter is_reachable (current (statements g))) g)
    as (said & Hs & Hsaid).
  { apply Forall_fmap, Forall_forall. intros r [_ Hin]%elem_of_filterb. by exists r. }
  rewrite Hs. destruct (Forall2_said query pc mask _ _ Hsaid) as (H1 & H2 & H3).
  unfold log_lookup. cbn [fst snd]. rewrite existsb_app. split.
  - apply eq_true_iff_eq. rewrite orb_true_iff. split; [|by left]. intros [?|He]; [done|].
    apply existsb_exists in He as (s & Hin%list_elem_of_In & Hc).
    destruct (H3 s Hin Hc) as (r & [_ Hr]%elem_of_filterb & Hcr). apply existsb_exists. exists r.
    split; [by apply list_elem_of_In, current_subset|done].
  - intros Hk. cbn [ns_Availability]. rewrite last_word_app.
    destruct (last_word destinationAvailabilityDimension query pc mask said) as [s|] eqn:Hl.
    { apply last_word_Some in Hl as (r & Hin & _ & <-). cbn. by apply H1. }
    assert (Hun : ∀ r, r ∈ current (statements g) → concerns query pc mask r = true →
      ns_Availability (dr_State (rangeValue r)) = DestinationUnavailable).
    { intros r Hr Hc. destruct (is_reachable r) eqn:E.
      - destruct (H2 r) as (s & Hin & Hcs & Hcar); [by apply elem_of_filterb|done|].
        by rewrite (last_word_None _ _ _ _ _ _ Hl Hin Hcs) in Hcar.
      - apply negb_false_iff, Z.eqb_eq in E. done. }
    pose proof (agrees_lookup _ query pc mask (refines_agrees _ _ Hd)) as Ha.
    apply (f_equal (λ p, ns_Availability p.1)) in Ha as Hav. cbn in Hav. cbn. rewrite Hav.
    apply (f_equal snd) in Ha. cbn in Ha. rewrite Hk in Ha. symmetry in Ha.
    apply existsb_exists in Ha as (r & Hin%list_elem_of_In & Hc).
    destruct (last_word destinationAvailabilityDimension query pc mask (current (statements g)))
      as [s|] eqn:Hw; cbn.
    + apply last_word_Some in Hw as (x & Hx & Hcx & <-). by apply Hun.
    + exfalso. pose proof (last_word_None _ _ _ _ _ _ Hw Hin Hc) as Hcar.
      rewrite Forall_forall in Hsil. specialize (Hsil r (current_subset _ _ Hin) Hcar).
      rewrite (Hun r Hin Hc) in Hsil. done.
Qed.

Module Concrete.
(** Reports about the point code 5 and about the 256 point codes from 0 on. *)
Definition one (s : DestinationNetworkState) : destinationRange := mkRange 7 true 0 false 5 0 s.
Definition many (s : DestinationNetworkState) : destinationRange := mkRange 7 true 0 false 0 8 s.
Definition status (availability : Z) : DestinationNetworkState := mkNetworkState availability noCongestion.
Definition level (l : Z) : DestinationNetworkState :=
  mkNetworkState DestinationAvailable (congestionStateFor l true).
Definition query : destinationKey := mkDestinationKey 7 true 9 true [] 5 0.
Definition answer (ops : list operation) : DestinationNetworkState * bool :=
  lookup_ query (performs ops newDestinations).2.

Definition history : list operation :=
  [OReport false None [one (status DestinationUnavailable)];
   OReport false (Some [9; 8; 9]) [many (status DestinationAvailable)];
   OReport true (Some [8; 9]) [many (level 2)]; OPause; OLimit 2;
   OReport false None [mkRange 7 true 0 false 6 0 (status DestinationRestricted)]].

Lemma history_ok : Forall operation_ok history.
Proof. repeat constructor; unfold is_u32; cbn; try lia; done. Qed.

Definition before : destinations := (performs history newDestinations).2.

Lemma before_reachable : reachable before.
Proof. exists history. split; [exact history_ok|done]. Qed.

Definition written : destinationRecord :=
  plainRecord destinationAvailabilityDimension (one (status DestinationAvailable)).

Lemma report_takes_effect_witness :
  (storeLocked written before).1 = true ∧
  ∀ q pc mask,
    let '(b, known) := lookupRange q pc mask before in
    let '(a, known') := lookupRange q pc mask (report false None [one (status DestinationAvailable)] before).2 in
    if concerns q pc mask written then
      known' = true ∧ ns_Availability a = DestinationAvailable ∧
      (¬ (∃ h, d_state before !! destinationRecordKey written = Some h ∧
            carries (dimensions h) destinationCongestionDimension = true) →
       ns_Congestion a = ns_Congestion b)
    else (a, known') = (b, known).
Proof.
  split; [vm_compute; reflexivity|].
  apply (report_takes_effect before false None (one (status DestinationAvailable)) written);
    [exact before_reachable|exact I|reflexivity|vm_compute; reflexivity].
Defined.

Lemma isolation_is_complete_witness :
  (lookupRange query 5 0 before).2 = true ∧
  (lookupRange query 5 0 (pause before)).2 = (lookupRange query 5 0 before).2 ∧
  ((lookupRange query 5 0 before).2 = true →
   ns_Availability (lookupRange query 5 0 (pause before)).1 = DestinationUnavailable).
Proof.
  split; [vm_compute; reflexivity|].
  apply (isolation_is_complete history query 5 0); [exact history_ok|repeat constructor].
Defined.
End Concrete.

(** C25: The two dimensions are not independent.  A destination is reported
    unavailable, then available with the range around it, then congested: the
    report of congestion says again that it is unavailable.  And a destination
    whose congestion has been reported over is congested again after an isolation
    that concerns availability alone. *)
Theorem stale_statements_resurface :
  (let told := [OReport false None [Concrete.one (Concrete.status DestinationUnavailable)];
                OReport false None [Concrete.many (Concrete.status DestinationAvailable)]] in
   ns_Availability (Concrete.answer told).1 = DestinationAvailable ∧
   ns_Availability (Concrete.answer (told ++ [OReport true None [Concrete.one (Concrete.level 1)]])).1 =
     DestinationUnavailable) ∧
  (let told := [OReport true None [Concrete.one (Concrete.level 2)];
                OReport false None [Concrete.many (Concrete.status DestinationUnavailable)];
                OReport true None [Concrete.many (Concrete.level 0)]] in
   Congested (ns_Congestion (Concrete.answer told).1) = false ∧
   Congested (ns_Congestion (Concrete.answer (told ++ [OPause])).1) = true).
Proof. repeat split; vm_compute; reflexivity. Qed.
