(* ===== verification/DestinationsLog.v ===== *)
(** * The destination table answers from what was reported

    The specification of Destinations.v keeps the statements as they were made:
    a report says one thing of one range in one dimension, [pause] says
    "unavailable" of every range last said to be anything else, and nothing is
    derived from an earlier statement.  A question is answered, in each dimension,
    from the range that was mentioned last, in whichever dimension, among those
    that concern it and of which anything was ever said in that dimension; the
    answer is the last that was said of that range in that dimension.

    The log of DestinationsTheory.v is the layer between: there a report restates
    what was last said of the same range in the other dimension. *)

From coqutil Require Import Datatypes.RecordSettersUsingExistingGetters.
From S2P Require Import Prelude Ssnm Destinations DestinationsTheory.
#[local] Open Scope Z_scope.

(** ** Statements as they were made *)

Section answers.
Context {T : Type} (dimension : Z) (proj : DestinationNetworkState → T).

(** What was last said of a range in this dimension. *)
Definition said (k : destinationKey) (l : list destinationRecord) : option T :=
  (λ r, proj (dr_State (rangeValue r))) <$>
    last (List.filter (λ r, same_key k r && carries (dimensions r) dimension) l).

Definition spoken (k : destinationKey) (l : list destinationRecord) : bool :=
  bool_decide (is_Some (said k l)).

(** The range mentioned last, among those that concern the question and of which
    this dimension has a statement, decides. *)
Definition answered (scope : destinationKey) (pointCode mask : Z) (l : list destinationRecord) : option T :=
  last (List.filter (λ r, concerns scope pointCode mask r && spoken (destinationRecordKey r) l) l)
    ≫= λ r, said (destinationRecordKey r) l.
End answers.

Definition availability_said := said destinationAvailabilityDimension ns_Availability.
Definition answered_availability := answered destinationAvailabilityDimension ns_Availability.
Definition answered_congestion := answered destinationCongestionDimension ns_Congestion.

Definition heard_lookup (scope : destinationKey) (pointCode mask : Z) (l : list destinationRecord)
    : DestinationNetworkState * bool :=
  (mkNetworkState (default DestinationAvailable (answered_availability scope pointCode mask l))
     (default noCongestion (answered_congestion scope pointCode mask l)),
   existsb (concerns scope pointCode mask) l).

(** A statement of a new range is refused when as many ranges are known as may be. *)
Definition hear_one (r : destinationRecord) (g : log) : bool * log :=
  if existsb (same_key (destinationRecordKey r)) (statements g) || negb (log_limit g <=? len (current (statements g)))
  then (true, mkLog (statements g ++ [r]) (bound g)) else (false, g).

Fixpoint hear_all (records : list destinationRecord) (g : log) : Z * log :=
  match records with
  | [] => (0, g)
  | r :: records =>
      let '(retained, g) := hear_one r g in
      let '(refused, g) := hear_all records g in
      ((if retained : bool then refused else refused + 1), g)
  end.

(** The statement that the range of [r] is unavailable. *)
Definition unavailable_statement (r : destinationRecord) : destinationRecord :=
  r <| rangeValue ::= λ v, v <| dr_State := mkNetworkState DestinationUnavailable noCongestion |> |>
    <| dimensions := destinationAvailabilityDimension |>.

Definition usable (l : list destinationRecord) (r : destinationRecord) : bool :=
  negb (default DestinationAvailable (availability_said (destinationRecordKey r) l) =? DestinationUnavailable).

Definition hear (o : operation) (g : log) : option Z * log :=
  match o with
  | OReport congestion scope ranges =>
      let '(refused, g) := hear_all (records_of congestion scope ranges) g in
      (recordLimitErrorLocked refused, g)
  | OPause =>
      let l := statements g in
      (None, mkLog (l ++ (unavailable_statement <$> List.filter (usable l) (current l))) (bound g))
  | OForget => (Some (len (current (statements g))), mkLog [] (bound g))
  | OLimit limit => (None, if limit <=? 0 then g else mkLog (statements g) limit)
  end.

Fixpoint hears (ops : list operation) (g : log) : list (option Z) * log :=
  match ops with
  | [] => ([], g)
  | o :: ops => let '(a, g) := hear o g in let '(l, g) := hears ops g in (a :: l, g)
  end.

(** ** The restated log *)

Definition held (k : destinationKey) (l : list destinationRecord) : option destinationRecord :=
  last (List.filter (same_key k) l).

Definition restated_one (l : list destinationRecord) (r : destinationRecord) : destinationRecord :=
  match held (destinationRecordKey r) l with Some h => restate r h | None => r end.

(** The statements, each restating the one before about the same range. *)
Definition restated (l : list destinationRecord) : list destinationRecord :=
  foldl (λ acc r, acc ++ [restated_one acc r]) [] l.

Lemma restated_snoc l r : restated (l ++ [r]) = restated l ++ [restated_one (restated l) r].
Proof. unfold restated. by rewrite foldl_app. Qed.

(** The same range, whatever is said of it. *)
Definition blank (r : destinationRecord) : destinationRecord :=
  r <| rangeValue ::= λ v, v <| dr_State := zeroNetworkState |> |> <| dimensions := 0 |>.
Definition alike (r s : destinationRecord) : Prop := blank r = blank s.

Lemma alike_restated l r : alike r (restated_one l r).
Proof. unfold restated_one. by destruct (held _ l). Qed.

Lemma alike_key r s : alike r s → destinationRecordKey r = destinationRecordKey s.
Proof.
  intros H. change (destinationRecordKey (blank r) = destinationRecordKey (blank s)). by rewrite H.
Qed.
Lemma alike_concerns scope pc mask r s : alike r s → concerns scope pc mask r = concerns scope pc mask s.
Proof.
  intros H. change (concerns scope pc mask (blank r) = concerns scope pc mask (blank s)). by rewrite H.
Qed.

Lemma restated_alike l : Forall2 alike l (restated l).
Proof.
  induction l as [|r l IH] using rev_ind; [constructor|]. rewrite restated_snoc.
  apply Forall2_app; [done|]. constructor; [apply alike_restated|constructor].
Qed.

Lemma alike_existsb (f : destinationRecord → bool) l l' :
  (∀ r s, alike r s → f r = f s) → Forall2 alike l l' → existsb f l = existsb f l'.
Proof. intros Hf. induction 1 as [|r s l l' H _ IH]; [done|]. cbn. by rewrite (Hf _ _ H), IH. Qed.

Lemma alike_same_key k r s : alike r s → same_key k r = same_key k s.
Proof. intros H%alike_key. unfold same_key. by rewrite H. Qed.

Lemma alike_current l l' : Forall2 alike l l' → Forall2 alike (current l) (current l').
Proof.
  induction 1 as [|r s l l' H Hl IH]; [constructor|]. cbn [current].
  rewrite <-(alike_key _ _ H), <-(alike_existsb _ l l' (alike_same_key _) Hl).
  destruct (existsb _ l); [done|by constructor].
Qed.

Lemma held_snoc k l r :
  held k (l ++ [r]) = if same_key k r then Some r else held k l.
Proof. unfold held. rewrite filterb_snoc. destruct (same_key k r); [apply last_snoc|by rewrite app_nil_r]. Qed.

Lemma held_existsb k l : existsb (same_key k) l = bool_decide (is_Some (held k l)).
Proof.
  induction l as [|r l IH] using rev_ind; [done|]. rewrite existsb_snoc, held_snoc, IH.
  destruct (same_key k r); [apply orb_true_r|apply orb_false_r].
Qed.

Lemma held_restated_existsb k l : existsb (same_key k) l = bool_decide (is_Some (held k (restated l))).
Proof. rewrite <-held_existsb. apply alike_existsb, restated_alike. apply alike_same_key. Qed.

(** ** What a restated statement carries *)

Section restating.
Context {T : Type} (dimension : Z) (proj : DestinationNetworkState → T).
Context (Hproj : ∀ r h, proj (dr_State (rangeValue (restate r h))) =
  if carries (dimensions r) dimension then proj (dr_State (rangeValue r)) else proj (dr_State (rangeValue h))).
#[local] Abbreviation said := (said dimension proj).
#[local] Abbreviation spoken := (spoken dimension proj).
#[local] Abbreviation answered := (answered dimension proj).

Lemma said_snoc k l r :
  said k (l ++ [r]) =
  if same_key k r && carries (dimensions r) dimension then Some (proj (dr_State (rangeValue r))) else said k l.
Proof.
  unfold DestinationsLog.said. rewrite filterb_snoc. destruct (_ && _); [by rewrite last_snoc|by rewrite app_nil_r].
Qed.

(** What the last restated statement of a range carries of this dimension. *)
Definition carried (h : destinationRecord) : option T :=
  if carries (dimensions h) dimension then Some (proj (dr_State (rangeValue h))) else None.

Lemma carried_restated l r :
  (∀ k, said k l = held k (restated l) ≫= carried) →
  carried (restated_one (restated l) r) = said (destinationRecordKey r) (l ++ [r]).
Proof.
  intros IH. rewrite said_snoc. unfold same_key. rewrite bool_decide_eq_true_2 by done. cbn [andb].
  rewrite IH. unfold restated_one, carried. destruct (held _ _) as [h|]; cbn [mbind option_bind].
  - rewrite Hproj. change (dimensions (restate r h)) with (Z.lor (dimensions r) (dimensions h)).
    rewrite carries_lor. by destruct (carries (dimensions r) dimension).
  - by destruct (carries (dimensions r) dimension).
Qed.

Lemma said_held l k : said k l = held k (restated l) ≫= carried.
Proof.
  revert k. induction l as [|r l IH] using rev_ind; intros k; [done|].
  rewrite restated_snoc, held_snoc, <-(alike_same_key k r) by apply alike_restated.
  destruct (same_key k r) eqn:Hk.
  - cbn [mbind option_bind]. rewrite (carried_restated _ _ IH). by apply same_key_true in Hk as ->.
  - rewrite said_snoc, Hk. apply IH.
Qed.

Lemma answered_snoc scope pc mask l r :
  Forall well_scoped l → well_scoped r →
  answered scope pc mask (l ++ [r]) =
  if concerns scope pc mask r && spoken (destinationRecordKey r) (l ++ [r])
  then said (destinationRecordKey r) (l ++ [r]) else answered scope pc mask l.
Proof.
  intros Hl Hr. unfold DestinationsLog.answered. rewrite filterb_snoc.
  destruct (concerns scope pc mask r && spoken (destinationRecordKey r) (l ++ [r])) eqn:Hlast;
    [by rewrite last_snoc|]. rewrite app_nil_r.
  assert (Hsame : ∀ x, x ∈ l → concerns scope pc mask x = true →
    said (destinationRecordKey x) (l ++ [r]) = said (destinationRecordKey x) l).
  { intros x Hx Hc. rewrite said_snoc.
    destruct (same_key (destinationRecordKey x) r && carries (dimensions r) dimension) eqn:E; [|done].
    apply andb_true_iff in E as [Hk Hd]. exfalso.
    assert (spoken (destinationRecordKey r) (l ++ [r]) = true) as Hsp.
    { apply bool_decide_eq_true. rewrite said_snoc. unfold same_key.
      rewrite bool_decide_eq_true_2, Hd by done. by eexists. }
    rewrite Hsp, andb_true_r in Hlast. apply same_key_true in Hk.
    rewrite Forall_forall in Hl. by rewrite (concerns_key scope pc mask r x Hr (Hl x Hx) Hk), Hc in Hlast. }
  assert (Hf : List.filter (λ x, concerns scope pc mask x && spoken (destinationRecordKey x) (l ++ [r])) l =
               List.filter (λ x, concerns scope pc mask x && spoken (destinationRecordKey x) l) l).
  { apply filter_ext_in. intros x Hx%list_elem_of_In.
    destruct (concerns scope pc mask x) eqn:Hc; [|done]. cbn [andb]. unfold DestinationsLog.spoken.
    by rewrite (Hsame x Hx Hc). }
  rewrite Hf. destruct (last _) as [x|] eqn:Hx; [|done]. cbn [mbind option_bind].
  apply last_Some_elem_of, elem_of_filterb in Hx as [[Hc _]%andb_true_iff Hin]. by apply Hsame.
Qed.

(** The last word of the restated log is the answer. *)
Lemma answered_restated scope pc mask l :
  Forall well_scoped l →
  (λ r, proj (dr_State (rangeValue r))) <$>
    last (List.filter (λ r, concerns scope pc mask r && carries (dimensions r) dimension) (restated l)) =
  answered scope pc mask l.
Proof.
  induction l as [|r l IH] using rev_ind; [done|]. intros [Hl Hr]%Forall_app.
  inversion_clear Hr as [|? ? Hr1 _]. rewrite answered_snoc by done.
  rewrite restated_snoc, filterb_snoc. rewrite <-(alike_concerns _ _ _ r) by apply alike_restated.
  pose proof (carried_restated l r (said_held l)) as Hcar.
  unfold DestinationsLog.spoken. rewrite <-Hcar. unfold carried in *.
  destruct (carries (dimensions (restated_one _ r)) dimension).
  - rewrite (bool_decide_eq_true_2 (is_Some (Some _))) by by eexists.
    destruct (concerns scope pc mask r); cbn [andb]; [by rewrite last_snoc|]. rewrite app_nil_r. by apply IH.
  - rewrite (bool_decide_eq_false_2 (is_Some None)) by by intros [? [=]].
    rewrite !andb_false_r, app_nil_r. by apply IH.
Qed.
End restating.

Lemma heard_lookup_restated scope pc mask l :
  Forall well_scoped l → log_lookup scope pc mask (restated l) = heard_lookup scope pc mask l.
Proof.
  intros Hl. unfold log_lookup, heard_lookup, last_word.
  rewrite <-!option_fmap_compose.
  unfold answered_availability, answered_congestion.
  rewrite <-(answered_restated destinationAvailabilityDimension ns_Availability (λ _ _, eq_refl) _ _ _ _ Hl).
  rewrite <-(answered_restated destinationCongestionDimension ns_Congestion (λ _ _, eq_refl) _ _ _ _ Hl).
  f_equal. symmetry. apply alike_existsb, restated_alike. apply alike_concerns.
Qed.

(** ** The log of DestinationsTheory.v is the restated one *)

Record follows (h g : log) : Prop := mk_follows {
  fo_statements : statements g = restated (statements h);
  fo_bound : bound g = bound h;
  fo_scoped : Forall well_scoped (statements h);
  fo_silent : Forall silent (statements g);
}.

Lemma follows_new limit : follows (mkLog [] limit) (mkLog [] limit).
Proof. split; try done; constructor. Qed.

Lemma follows_len h g : follows h g → len (current (statements h)) = len (current (statements g)).
Proof.
  intros H. rewrite (fo_statements _ _ H). unfold len. f_equal.
  apply (Forall2_length alike), alike_current, restated_alike.
Qed.

Lemma follows_store h g r :
  follows h g → well_scoped r → silent r →
  (log_store r g).1 = (hear_one r h).1 ∧ follows (hear_one r h).2 (log_store r g).2.
Proof.
  intros H Hr Hs. pose proof (log_store_silent r g Hs (fo_silent _ _ H)) as Hsil.
  assert (Hlim : log_limit g = log_limit h) by (unfold log_limit; by rewrite (fo_bound _ _ H)).
  unfold log_store, hear_one in *. rewrite (follows_len _ _ H), <-Hlim, held_restated_existsb.
  rewrite <-(fo_statements _ _ H). change (last (List.filter (same_key (destinationRecordKey r)) (statements g)))
    with (held (destinationRecordKey r) (statements g)) in *.
  assert (Hnew : ∀ s, s = restated_one (statements g) r → Forall silent (statements g ++ [s]) →
    follows (mkLog (statements h ++ [r]) (bound h)) (mkLog (statements g ++ [s]) (bound g))).
  { intros s -> Hf. split; cbn; [|apply H| |done].
    - by rewrite restated_snoc, (fo_statements _ _ H).
    - apply Forall_app. split; [apply H|by constructor]. }
  destruct (held (destinationRecordKey r) (statements g)) as [x|] eqn:Hx; cbn [is_Some].
  - rewrite bool_decide_eq_true_2 by by eexists. split; [done|]. apply Hnew; [|done].
    unfold restated_one. by rewrite Hx.
  - rewrite bool_decide_eq_false_2 by by intros [? [=]]. cbn [orb].
    destruct (log_limit g <=? _); [done|]. split; [done|]. apply Hnew; [|done].
    unfold restated_one. by rewrite Hx.
Qed.

Lemma follows_all records : ∀ h g,
  follows h g → Forall well_scoped records → Forall silent records →
  (log_all records g).1 = (hear_all records h).1 ∧ follows (hear_all records h).2 (log_all records g).2.
Proof.
  induction records as [|r records IH]; intros h g H Hw Hs; [done|].
  inversion_clear Hw as [|? ? Hw1 Hws]. inversion_clear Hs as [|? ? Hs1 Hss]. cbn [log_all hear_all].
  destruct (follows_store h g r H Hw1 Hs1) as [Hb H1].
  destruct (log_store r g) as [b g1], (hear_one r h) as [b' h1]. cbn in Hb, H1. subst b'.
  destruct (IH h1 g1 H1 Hws Hss) as [Hn H2].
  destruct (log_all records g1) as [n g2], (hear_all records h1) as [n' h2]. cbn in *. by subst.
Qed.

(** *** Isolation *)

Lemma usable_reachable h g r s :
  follows h g → alike r s → s ∈ current (statements g) → is_reachable s = usable (statements h) r.
Proof.
  intros H Ha Hin. unfold is_reachable, usable, availability_said.
  rewrite (said_held _ _ (λ _ _, eq_refl)), <-(fo_statements _ _ H), (alike_key _ _ Ha).
  unfold held. rewrite (held_unique _ _ s Hin eq_refl). cbn [mbind option_bind]. unfold carried.
  destruct (carries _ _) eqn:Hc; [done|]. cbn [default].
  assert (silent s) as Hs.
  { pose proof (fo_silent _ _ H) as Hf. rewrite Forall_forall in Hf. by apply Hf, current_subset. }
  by rewrite (Hs Hc).
Qed.

Lemma restate_unavailable r s :
  alike r s → restate (unavailableRecord s) s = restate (unavailable_statement r) s.
Proof.
  destruct r as [[] ? ? ? ?], s as [[] ? ? dims ?]. unfold alike, blank. cbn. intros [=]. subst.
  cbv -[carries Z.lor destinationAvailabilityDimension destinationCongestionDimension DestinationUnavailable].
  change (carries destinationAvailabilityDimension destinationAvailabilityDimension) with true.
  change (carries destinationAvailabilityDimension destinationCongestionDimension) with false.
  rewrite carries_lor, orb_true_r. f_equal; [by destruct (carries _ _)|].
  by rewrite (Z.lor_comm dims), <-Z.lor_assoc, Z.lor_diag.
Qed.

Lemma follows_pause rs ss : ∀ h g,
  follows h g → Forall2 alike rs ss → NoDup (destinationRecordKey <$> ss) →
  Forall (λ s, held (destinationRecordKey s) (statements g) = Some s) ss →
  Forall well_scoped rs →
  follows (mkLog (statements h ++ (unavailable_statement <$> rs)) (bound h))
    (log_all (unavailableRecord <$> ss) g).2.
Proof.
  revert ss. induction rs as [|r rs IH]; intros ss h g H Hrs; inversion Hrs as [|? s ? ss' Ha Hrs']; subst.
  { intros _ _ _. cbn. rewrite app_nil_r. by destruct h. }
  intros [Hk Hnd]%NoDup_cons [Hs Hss]%Forall_cons [Hw Hws]%Forall_cons.
  destruct (follows_store h g (unavailable_statement r) H Hw) as [Hb H1]; [done|].
  assert (E : log_store (unavailableRecord s) g = log_store (unavailable_statement r) g).
  { unfold log_store. change (destinationRecordKey (unavailableRecord s)) with (destinationRecordKey s).
    change (destinationRecordKey (unavailable_statement r)) with (destinationRecordKey r).
    rewrite (alike_key _ _ Ha). unfold held in Hs. rewrite Hs. by rewrite (restate_unavailable _ _ Ha). }
  assert (Hkey : destinationRecordKey (unavailable_statement r) = destinationRecordKey s)
    by exact (alike_key _ _ Ha).
  assert (Hh : hear_one (unavailable_statement r) h =
    (true, mkLog (statements h ++ [unavailable_statement r]) (bound h))).
  { unfold hear_one. rewrite held_restated_existsb, <-(fo_statements _ _ H), Hkey, Hs.
    by rewrite bool_decide_eq_true_2 by by eexists. }
  assert (Hg : statements (log_store (unavailable_statement r) g).2 =
    statements g ++ [restate (unavailable_statement r) s]).
  { unfold log_store. rewrite Hkey. unfold held in Hs. by rewrite Hs. }
  rewrite Hh in H1. cbn [fmap list_fmap log_all]. rewrite E.
  destruct (log_store (unavailable_statement r) g) as [b g1]. cbn [fst snd] in *.
  specialize (IH ss' _ g1 H1 Hrs' Hnd). cbn [statements bound] in IH.
  rewrite <-(assoc_L (++)) in IH. destruct (log_all (unavailableRecord <$> ss') g1) as [n g2]. apply IH.
  - rewrite Forall_forall in Hss |- *. intros x Hx. rewrite Hg, held_snoc.
    assert (same_key (destinationRecordKey x) (restate (unavailable_statement r) s) = false) as ->;
      [|by apply Hss].
    apply bool_decide_eq_false. intros Hxs. apply Hk, list_elem_of_fmap. exists x.
    split; [|done]. by rewrite <-Hkey, <-Hxs.
  - done.
Qed.

Lemma pause_selects h g :
  follows h g →
  Forall2 alike (List.filter (usable (statements h)) (current (statements h)))
    (List.filter is_reachable (current (statements g))).
Proof.
  intros H. pose proof (alike_current _ _ (restated_alike (statements h))) as Hc.
  rewrite <-(fo_statements _ _ H) in Hc.
  assert (Hall : ∀ l l', Forall2 alike l l' → (∀ s, s ∈ l' → s ∈ current (statements g)) →
    Forall2 alike (List.filter (usable (statements h)) l) (List.filter is_reachable l')); [|by apply Hall].
  induction 1 as [|r s l l' Ha Hl IH]; intros Hin; [constructor|]. cbn [List.filter].
  rewrite <-(usable_reachable h g r s H Ha) by (apply Hin; constructor).
  assert (Hl' : ∀ x, x ∈ l' → x ∈ current (statements g)) by (intros x Hx; apply Hin; by constructor).
  destruct (is_reachable s); [constructor|]; auto.
Qed.

Lemma records_silent congestion scope ranges :
  says_one_thing (OReport congestion scope ranges) → Forall silent (records_of congestion scope ranges).
Proof.
  intros H. unfold records_of.
  destruct scope as [rcs|]; [destruct (len rcs =? 0); [constructor|]|];
    apply Forall_fmap, Forall_forall; intros r Hin; destruct congestion; try done;
    intros _; cbn in H; rewrite Forall_forall in H; by apply (H r).
Qed.

Lemma follows_perform o h g :
  follows h g → operation_ok o → says_one_thing o →
  (log_perform o g).1 = (hear o h).1 ∧ follows (hear o h).2 (log_perform o g).2.
Proof.
  intros H Ho Hq. destruct o as [congestion scope ranges| | |limit]; cbn [log_perform hear].
  - destruct (follows_all (records_of congestion scope ranges) h g H) as [Hn H1];
      [by eapply well_scoped_records|by apply records_silent|].
    destruct (log_all _ g) as [n g1], (hear_all _ h) as [n' h1]. cbn in *. by subst.
  - split; [done|]. cbn [snd]. apply follows_pause; [done|by apply pause_selects|..].
    + eapply filter_NoDup_keys, NoDup_current.
    + apply Forall_forall. intros s [_ Hs]%elem_of_filterb. by apply held_unique.
    + apply Forall_forall. intros r [_ Hr]%elem_of_filterb. pose proof (fo_scoped _ _ H) as Hw.
      rewrite Forall_forall in Hw. by apply Hw, current_subset.
  - split; [cbn; by rewrite (follows_len _ _ H)|]. cbn. rewrite (fo_bound _ _ H). apply follows_new.
  - split; [done|]. cbn. destruct (limit <=? 0); [done|]. split; try apply H. done.
Qed.

Lemma follows_performs ops : ∀ h g,
  follows h g → Forall operation_ok ops → Forall says_one_thing ops →
  (log_performs ops g).1 = (hears ops h).1 ∧ follows (hears ops h).2 (log_performs ops g).2.
Proof.
  induction ops as [|o ops IH]; intros h g H Ho Hq; [done|].
  inversion_clear Ho as [|? ? Ho1 Hos]. inversion_clear Hq as [|? ? Hq1 Hqs]. cbn [log_performs hears].
  destruct (follows_perform o h g H Ho1 Hq1) as [Ha H1].
  destruct (log_perform o g) as [a g1], (hear o h) as [a' h1]. cbn in Ha, H1. subst a'.
  destruct (IH h1 g1 H1 Hos Hqs) as [Hl H2].
  destruct (log_performs ops g1) as [l g2], (hears ops h1) as [l' h2]. cbn in *. by subst.
Qed.

(** C12: The table answers from what was reported, where a congestion report says
    nothing of availability: every operation answers alike, and what the table
    answers of any destination, in any scope, is in each dimension the last
    statement made in that dimension about one range, the range that was mentioned
    last, in either dimension, among those that concern the question and have ever
    had a statement in that dimension.  The order in which a lookup meets the
    records and the renumbering of their sequence numbers make no difference.  The
    answer is not always the last statement made in its dimension: a statement in
    the other dimension brings the last one about its range back. *)
Theorem table_refines_log ops :
  Forall operation_ok ops → Forall says_one_thing ops →
  let '(answers, d) := performs ops newDestinations in
  let '(answers', g) := hears ops (mkLog [] DefaultMaxSSNMDestinationRecords) in
  answers = answers' ∧
  ∀ scope pc mask records, records ≡ₚ (map_to_list (d_state d)).*2 →
    lookupRecords records scope pc mask = heard_lookup scope pc mask (statements g).
Proof.
  intros Ho Hq. pose proof (table_refines_restated ops Ho) as Ht.
  destruct (follows_performs ops _ _ (follows_new DefaultMaxSSNMDestinationRecords) Ho Hq) as [Ha Hf].
  destruct (performs ops newDestinations) as [a d], (log_performs ops _) as [a' g], (hears ops _) as [a'' h].
  cbn in Ha, Hf. subst a''. destruct Ht as [-> Hl]. split; [done|]. intros scope pc mask records Hp.
  rewrite (Hl scope pc mask records Hp), (fo_statements _ _ Hf). apply heard_lookup_restated, Hf.
Qed.

Module Concrete.
Import DestinationsTheory.Concrete.

(** A point code and the range around it are reported, then the node is isolated. *)
Lemma history_says : Forall says_one_thing history.
Proof. repeat constructor. Qed.

Lemma table_refines_log_witness :
  Forall operation_ok history ∧
  heard_lookup query 5 0 (statements (hears history (mkLog [] DefaultMaxSSNMDestinationRecords)).2) =
    (mkNetworkState DestinationUnavailable (congestionStateFor 2 true), true) ∧
  let '(answers, d) := performs history newDestinations in
  let '(answers', g) := hears history (mkLog [] DefaultMaxSSNMDestinationRecords) in
  answers = answers' ∧
  ∀ scope pc mask records, records ≡ₚ (map_to_list (d_state d)).*2 →
    lookupRecords records scope pc mask = heard_lookup scope pc mask (statements g).
Proof.
  split; [exact history_ok|]. split; [vm_compute; reflexivity|].
  apply (table_refines_log history); [exact history_ok|exact history_says].
Defined.
End Concrete.
