(* ===== verification/Mtp3Restart.v ===== *)
(** * MTP3 restart (mtp3restart.go)

    The restarts a Signalling Gateway Process has in progress: the epochs of its
    registry, the destinations each one isolates, the final states staged in it,
    its completion destination by destination, and what all this makes of an
    audit.  The publication of a statement to the peers is an operation of the
    target, as in the code, and so are the preparation of a range and the test
    for a closed owner; SsnmEndpoint.v supplies those of an Endpoint.

    [procedureMu] is held for writing by [beginMTP3Restart] and [Complete], for
    reading by the others, which take [mu] besides: each is one step. *)

From stdpp Require Import sorting.
From coqutil Require Import Datatypes.RecordSettersUsingExistingGetters.
From S2P Require Import Prelude Params ParamsFacts ParamValues Inventory Ssnm Destinations.
From S2P Require Import MsgSsnm Message Tack.
#[local] Open Scope Z_scope.

(** ** Data *)

Record AffectedDestination : Set := mkAffected {
  ad_NetworkAppearance : Z;
  ad_NetworkAppearanceSet : bool;
  ad_RoutingContext : Z;
  ad_RoutingContextSet : bool;
  ad_PointCode : Z;
  ad_Mask : Z;
}.

(** The range handed to [prepare] for a destination and a state. *)
Definition rangeOf (d : AffectedDestination) (s : DestinationNetworkState) : destinationRange :=
  mkRange (ad_NetworkAppearance d) (ad_NetworkAppearanceSet d) (ad_RoutingContext d)
    (ad_RoutingContextSet d) (ad_PointCode d) (ad_Mask d) s.

Definition affectedDestinationOf (r : destinationRange) : AffectedDestination :=
  mkAffected (dr_NetworkAppearance r) (dr_NetworkAppearanceSet r) (dr_RoutingContext r)
    (dr_RoutingContextSet r) (dr_PointCode r) (dr_Mask r).

Record stagedDestination : Set := mkStaged {
  sd_range : destinationRange;
  sd_dimensions : Z;
}.

Record mtp3RestartEpoch : Set := mkEpoch {
  affected : list destinationRange;
  updates : list stagedDestination;
  completed : list destinationRange;
  attempted : bool;
}.

(** A nil map holds no epoch, like an empty one. *)
Record mtp3RestartRegistry : Set := mkRegistry {
  generation : Z;
  active : gmap Z mtp3RestartEpoch;
}.

Definition newRestartRegistry : mtp3RestartRegistry := mkRegistry 0 ∅.

(** The outcome of a fan-out: identities of Associations, with the cause for
    each that failed. *)
Record SSNMDeliveryError : Type := mkDelivery {
  Successful : list nat;
  Failed : list (nat * asp_error);
}.

Inductive restart_error : Type :=
| ErrEmptyMTP3Restart
| ErrMTP3RestartInProgress
| ErrMTP3RestartScope
| ErrStaleMTP3Restart
| ErrOwnerClosed
| ErrRecordLimit (refused : Z)
| ErrPrepare (e : m3ua_error)
| ErrDelivery (outcome : SSNMDeliveryError).

(** [mergeSSNMDeliveryOutcome]; a fan-out that addressed nobody has no outcome. *)
Definition appendUniqueAssociationIDs (into more : list nat) : list nat :=
  foldl (λ into c, if bool_decide (c ∈ into) then into else into ++ [c]) into more.

Definition mergeSSNMDeliveryOutcome (into : SSNMDeliveryError) (outcome : option SSNMDeliveryError)
    : SSNMDeliveryError :=
  match outcome with
  | None => into
  | Some o => mkDelivery (appendUniqueAssociationIDs (Successful into) (Successful o))
                (Failed into ++ Failed o)
  end.

Definition ssnmDeliveryResult (outcome : option SSNMDeliveryError) : list restart_error :=
  match outcome with
  | Some o => if len (Failed o) =? 0 then [] else [ErrDelivery o]
  | None => []
  end.

(** ** Ranges *)

Definition sameAppearance (a b : destinationRange) : bool :=
  (dr_NetworkAppearance a =? dr_NetworkAppearance b) &&
  Bool.eqb (dr_NetworkAppearanceSet a) (dr_NetworkAppearanceSet b).

Definition destinationRangeContains (outer inner : destinationRange) : bool :=
  if negb (sameAppearance outer inner) then false
  else if dr_RoutingContextSet outer &&
          (negb (dr_RoutingContextSet inner) || negb (dr_RoutingContext outer =? dr_RoutingContext inner))
       then false
  else destinationRangeCovers outer (dr_PointCode inner) (dr_Mask inner).

Definition destinationRangesOverlap (first second : destinationRange) : bool :=
  if negb (sameAppearance first second) then false
  else if dr_RoutingContextSet first && dr_RoutingContextSet second &&
          negb (dr_RoutingContext first =? dr_RoutingContext second) then false
  else destinationRangeCovers first (dr_PointCode second) (dr_Mask second) ||
       destinationRangeCovers second (dr_PointCode first) (dr_Mask first).

Definition restartEpochCovers (epoch : mtp3RestartEpoch) (r : destinationRange) : bool :=
  existsb (λ a, destinationRangeContains a r) (affected epoch).

Definition restartEpochIsolates (epoch : mtp3RestartEpoch) (r : destinationRange) : bool :=
  restartEpochCovers epoch r && negb (existsb (λ c, destinationRangeContains c r) (completed epoch)).

(** Whether an epoch makes an audit of [query] answer unavailable. *)
Definition epochForcesUnavailable (query : destinationRange) (epoch : mtp3RestartEpoch) : bool :=
  existsb (λ a, destinationRangesOverlap a query) (affected epoch) &&
  negb (existsb (λ c, destinationRangeContains c query) (completed epoch)).

Definition restartForcesUnavailable (registry : mtp3RestartRegistry) (scope : destinationKey)
    (pointCode mask : Z) : bool :=
  let query := mkRange (dk_networkAppearance scope) (dk_networkAppearanceSet scope)
                 (dk_routingContext scope) (dk_routingContextSet scope) pointCode mask
                 zeroNetworkState in
  existsb (λ e, epochForcesUnavailable query e.2) (map_to_list (active registry)).

(** ** Retaining the isolation *)

Definition unavailable : DestinationNetworkState := mkNetworkState DestinationUnavailable noCongestion.

Definition missingKeys (ranges : list destinationRange) (d : destinations) : gset destinationKey :=
  list_to_set (filter (λ k, d_state d !! k = None) (destinationRangeKey <$> ranges)).

Fixpoint retainAll (ranges : list destinationRange) (replace : bool) (d : destinations)
    : option restart_error * destinations :=
  match ranges with
  | [] => (None, d)
  | r :: ranges =>
      if bool_decide (is_Some (d_state d !! destinationRangeKey r)) && negb replace
      then retainAll ranges replace d
      else
        let '(retained, d) :=
          storeLocked (plainRecord destinationAvailabilityDimension (r <| dr_State := unavailable |>)) d in
        if retained : bool then retainAll ranges replace d else (Some (ErrRecordLimit 1), d)
  end.

Definition retainMTP3RestartIsolation (ranges : list destinationRange) (replace : bool)
    (d : destinations) : option restart_error * destinations :=
  let refused := Z.of_nat (size (d_state d)) + Z.of_nat (size (missingKeys ranges d)) -
                 recordLimitLocked d in
  if 0 <? refused then (Some (ErrRecordLimit refused), d) else retainAll ranges replace d.

(** ** Staging *)

(** What a new statement leaves unsaid stays as staged before. *)
Definition restage (staged previous : stagedDestination) : stagedDestination :=
  mkStaged
    ((sd_range staged) <| dr_State ::= λ s,
       mkNetworkState
         (if carries (sd_dimensions staged) destinationAvailabilityDimension then ns_Availability s
          else ns_Availability (dr_State (sd_range previous)))
         (if carries (sd_dimensions staged) destinationCongestionDimension then ns_Congestion s
          else ns_Congestion (dr_State (sd_range previous))) |>)
    (Z.lor (sd_dimensions staged) (sd_dimensions previous)).

Definition appendRestartUpdate (ups : list stagedDestination) (staged : stagedDestination)
    : list stagedDestination :=
  match list_find (λ u, destinationRangeKey (sd_range u) = destinationRangeKey (sd_range staged)) ups with
  | None => ups ++ [staged]
  | Some (i, previous) => delete i ups ++ [restage staged previous]
  end.

Definition setEpoch (gen : Z) (epoch : mtp3RestartEpoch) (registry : mtp3RestartRegistry)
    : mtp3RestartRegistry := registry <| active ::= insert gen epoch |>.

(** Staging in an epoch that isolates the range. *)
Definition stageIn (gen : Z) (epoch : mtp3RestartEpoch) (staged : stagedDestination)
    (registry : mtp3RestartRegistry) (d : destinations)
    : option restart_error * mtp3RestartRegistry * destinations :=
  let '(err, d) := retainMTP3RestartIsolation [sd_range staged] false d in
  match err with
  | Some e => (Some e, registry, d)
  | None => (None, setEpoch gen (epoch <| updates := appendRestartUpdate (updates epoch) staged |>) registry, d)
  end.

Definition stageMTP3RestartRange (gen : Z) (staged : stagedDestination)
    (registry : mtp3RestartRegistry) (d : destinations)
    : option restart_error * mtp3RestartRegistry * destinations :=
  match active registry !! gen with
  | None => (Some ErrStaleMTP3Restart, registry, d)
  | Some epoch =>
      if negb (restartEpochCovers epoch (sd_range staged)) then (Some ErrMTP3RestartScope, registry, d)
      else stageIn gen epoch staged registry d
  end.

(** The loop over the epochs, in the order in which a map lists them; the
    outcome says whether one took the statement, or with what error. *)
Definition stageAnyIn (epochs : list (Z * mtp3RestartEpoch)) (staged : stagedDestination)
    (registry : mtp3RestartRegistry) (d : destinations)
    : (restart_error + bool) * mtp3RestartRegistry * destinations :=
  match list_find (λ e, restartEpochIsolates e.2 (sd_range staged) = true) epochs with
  | None => (inr false, registry, d)
  | Some (_, (gen, epoch)) =>
      let '(err, registry, d) := stageIn gen epoch staged registry d in
      (match err with Some e => inl e | None => inr true end, registry, d)
  end.

Definition stageAnyMTP3RestartRangeLocked (staged : stagedDestination)
    (registry : mtp3RestartRegistry) (d : destinations)
    : (restart_error + bool) * mtp3RestartRegistry * destinations :=
  stageAnyIn (map_to_list (active registry)) staged registry d.

(** ** The procedure *)

(** The handle of a restart. *)
Record MTP3Restart : Set := mkHandle { h_generation : Z; h_completed : bool }.

(** The target of a restart.  [W] is the world its publications act on. *)
Record mtp3RestartTarget (W : Type) : Type := mkTarget {
  t_closed : bool;
  t_prepare : destinationRange → m3ua_error + destinationRange;
  t_publish : list stagedDestination → bool → W → option SSNMDeliveryError * W;
}.
Arguments mkTarget {_} _ _ _.
Arguments t_closed {_} _.
Arguments t_prepare {_} _ _.
Arguments t_publish {_} _ _ _ _.

Definition applyStagedDestination (staged : stagedDestination) (d : destinations)
    : option restart_error * destinations :=
  let '(retained, d) := storeLocked (plainRecord (sd_dimensions staged) (sd_range staged)) d in
  ((if retained : bool then None else Some (ErrRecordLimit 1)), d).

(** What the loop of a completion gathers. *)
Record completion : Type := mkCompletion {
  outstanding : list stagedDestination;
  done_ : list destinationRange;
  failure : SSNMDeliveryError;
  retentionFailure : list restart_error;
}.

Section procedure.
Context {W : Type} (target : mtp3RestartTarget W).

Fixpoint prepareAll (ranges : list destinationRange) (ds : list AffectedDestination)
    : restart_error + list destinationRange :=
  match ds with
  | [] => inr ranges
  | d :: ds =>
      match t_prepare target (rangeOf d unavailable) with
      | inl e => inl (ErrPrepare e)
      | inr r =>
          if existsb (λ p, destinationRangesOverlap p r) ranges then inl ErrMTP3RestartInProgress
          else prepareAll (ranges ++ [r]) ds
      end
  end.

Definition overlapsActive (registry : mtp3RestartRegistry) (ranges : list destinationRange) : bool :=
  existsb (λ e, existsb (λ a, existsb (destinationRangesOverlap a) ranges) (affected e.2))
    (map_to_list (active registry)).

Definition nextGeneration (registry : mtp3RestartRegistry) : Z :=
  let g := u64 (generation registry + 1) in if g =? 0 then 1 else g.

(** The handle, if there is one, with the errors of the isolation's fan-out. *)
Definition beginMTP3Restart (ds : list AffectedDestination) (registry : mtp3RestartRegistry)
    (d : destinations) (w : W)
    : (restart_error + MTP3Restart * list restart_error) * mtp3RestartRegistry * destinations * W :=
  if len ds =? 0 then (inl ErrEmptyMTP3Restart, registry, d, w)
  else
    match prepareAll [] ds with
    | inl e => (inl e, registry, d, w)
    | inr ranges =>
        if t_closed target then (inl ErrOwnerClosed, registry, d, w)
        else if overlapsActive registry ranges then (inl ErrMTP3RestartInProgress, registry, d, w)
        else
          let '(err, d) := retainMTP3RestartIsolation ranges true d in
          match err with
          | Some e => (inl e, registry, d, w)
          | None =>
              let gen := nextGeneration registry in
              let registry := mkRegistry gen (<[gen := mkEpoch ranges [] [] false]> (active registry)) in
              let '(outcome, w) :=
                t_publish target ((λ r, mkStaged r destinationAvailabilityDimension) <$> ranges) false w in
              (inr (mkHandle gen false, ssnmDeliveryResult outcome), registry, d, w)
          end
    end.

Definition Update (h : MTP3Restart) (destination : AffectedDestination) (s : DestinationNetworkState)
    (registry : mtp3RestartRegistry) (d : destinations)
    : option restart_error * mtp3RestartRegistry * destinations :=
  if h_completed h then (Some ErrStaleMTP3Restart, registry, d)
  else
    match t_prepare target (rangeOf destination s) with
    | inl e => (Some (ErrPrepare e), registry, d)
    | inr r =>
        let dims := if reported (ns_Congestion s)
                    then Z.lor destinationAvailabilityDimension destinationCongestionDimension
                    else destinationAvailabilityDimension in
        stageMTP3RestartRange (h_generation h) (mkStaged r dims) registry d
    end.

(** One destination of a completion. *)
Definition completeOne (staged : stagedDestination) (acc : completion) (d : destinations) (w : W)
    : completion * destinations * W :=
  let '(err, d) := retainMTP3RestartIsolation [sd_range staged] false d in
  match err with
  | Some e => (acc <| retentionFailure ::= λ l, l ++ [e] |> <| outstanding ::= λ l, l ++ [staged] |>, d, w)
  | None =>
      let '(outcome, w) := t_publish target [staged] true w in
      let acc := acc <| failure ::= λ f, mergeSSNMDeliveryOutcome f outcome |> in
      if bool_decide (ssnmDeliveryResult outcome ≠ [])
      then (acc <| outstanding ::= λ l, l ++ [staged] |>, d, w)
      else
        let '(err, d) := applyStagedDestination staged d in
        match err with
        | Some e => (acc <| retentionFailure ::= λ l, l ++ [e] |> <| outstanding ::= λ l, l ++ [staged] |>, d, w)
        | None => (acc <| done_ ::= λ l, l ++ [sd_range staged] |>, d, w)
        end
  end.

Fixpoint completeLoop (ups : list stagedDestination) (acc : completion) (d : destinations) (w : W)
    : completion * destinations * W :=
  match ups with
  | [] => (acc, d, w)
  | staged :: ups => let '(acc, d, w) := completeOne staged acc d w in completeLoop ups acc d w
  end.

(** [completeMTP3Restart]; no error is the empty list.  [procedureMu] keeps the
    epoch in place until the end. *)
Definition completeMTP3Restart (gen : Z) (registry : mtp3RestartRegistry) (d : destinations) (w : W)
    : list restart_error * mtp3RestartRegistry * destinations * W :=
  match active registry !! gen with
  | None => ([ErrStaleMTP3Restart], registry, d, w)
  | Some epoch =>
      let '(acc, d, w) := completeLoop (updates epoch) (mkCompletion [] [] (mkDelivery [] []) []) d w in
      if 0 <? len (outstanding acc) then
        (if bool_decide (retentionFailure acc = []) then [ErrDelivery (failure acc)]
         else retentionFailure acc ++ ssnmDeliveryResult (Some (failure acc)),
         setEpoch gen (mkEpoch (affected epoch) (outstanding acc) (completed epoch ++ done_ acc) true) registry,
         d, w)
      else ([], registry <| active ::= delete gen |>, d, w)
  end.

Definition Complete (h : MTP3Restart) (registry : mtp3RestartRegistry) (d : destinations) (w : W)
    : list restart_error * MTP3Restart * mtp3RestartRegistry * destinations * W :=
  if h_completed h then ([], h, registry, d, w)
  else
    let '(errs, registry, d, w) := completeMTP3Restart (h_generation h) registry d w in
    (errs, (if bool_decide (errs = []) then h <| h_completed := true |> else h), registry, d, w).

End procedure.

Definition Outstanding (h : MTP3Restart) (registry : mtp3RestartRegistry) : list AffectedDestination :=
  match active registry !! h_generation h with
  | Some epoch => if attempted epoch then (λ s, affectedDestinationOf (sd_range s)) <$> updates epoch else []
  | None => []
  end.

Definition Completed (h : MTP3Restart) (registry : mtp3RestartRegistry) : list AffectedDestination :=
  match active registry !! h_generation h with
  | Some epoch => affectedDestinationOf <$> completed epoch
  | None => []
  end.

Definition invalidateMTP3RestartRegistry (registry : mtp3RestartRegistry) : mtp3RestartRegistry :=
  registry <| active := ∅ |>.

(** ** The messages of a statement *)

(** One statement on the wire: what it says of congestion, then of
    availability. *)
Definition destinationStateSSNMs (r : destinationRange) (contexts : list Z) (dims : Z) : list M3UA :=
  let networkAppearance := if dr_NetworkAppearanceSet r then Some (NewNetworkAppearance (dr_NetworkAppearance r))
                           else None in
  let routingContext := if 0 <? len contexts then Some (NewRoutingContext contexts) else None in
  let affectedPointCode := Some (NewAffectedPointCodeWithMask (dr_Mask r) (dr_PointCode r)) in
  let congestion := ns_Congestion (dr_State r) in
  let ind := if LevelSet congestion then Some (NewCongestionIndications (Level congestion)) else None in
  let availability := ns_Availability (dr_State r) in
  (if carries dims destinationCongestionDimension
   then [Typed KSignallingCongestion
           (SignallingCongestion.NewSignallingCongestion networkAppearance routingContext affectedPointCode
              None ind None)]
   else []) ++
  (if negb (carries dims destinationAvailabilityDimension) then []
   else if availability =? DestinationUnavailable then
     [Typed KDestinationUnavailable
        (DestinationUnavailable.NewDestinationUnavailable networkAppearance routingContext affectedPointCode None)]
   else if availability =? DestinationRestricted then
     [Typed KDestinationRestricted
        (DestinationRestricted.NewDestinationRestricted networkAppearance routingContext affectedPointCode None)]
   else
     [Typed KDestinationAvailable
        (DestinationAvailable.NewDestinationAvailable networkAppearance routingContext affectedPointCode None)]).

(** What [writeMTP3RestartStatusBeforeAck] has the Association write for the
    Routing Contexts it is about to acknowledge: the isolation of every restart
    in progress, oldest first. *)
Definition restartStatusBeforeAck (registry : mtp3RestartRegistry) (served : list Z) : list M3UA :=
  if len served =? 0 then []
  else
    let generations := merge_sort Z.le (map_to_list (active registry)).*1 in
    let ranges := generations ≫= λ g, from_option affected [] (active registry !! g) in
    ranges ≫= λ r,
      if dr_RoutingContextSet r then
        if bool_decide (dr_RoutingContext r ∈ served)
        then destinationStateSSNMs r [dr_RoutingContext r] destinationAvailabilityDimension
        else []
      else destinationStateSSNMs r served destinationAvailabilityDimension.
