(* ===== verification/SsnmEndpoint.v ===== *)
(** * The SS7 network as an SGP states it (ssnm_operations.go, mtp3restart.go)

    What the application of a Signalling Gateway Process says of SS7
    destinations: the validation and resolution of the scope it names, the
    messages, the Application Server Processes they go to (as.go), the record in
    the destination table from which audits are answered, and the restart that
    holds statements back.

    The registry of Application Servers and the Associations are read only here;
    they are the environment, with the outcome of every write.  The deliveries
    of one fan-out run concurrently and each Association's batch has one outcome.
    Every operation runs to its end as one step: it holds [procedureMu] and the
    mutex of the table where they matter. *)

From stdpp Require Import sorting.
From coqutil Require Import Datatypes.RecordSettersUsingExistingGetters.
From S2P Require Import Prelude Params ParamsFacts ParamValues Inventory RoutingKey AppServer.
From S2P Require Import Ssnm Destinations MsgSsnm Message Tack Association Mtp3Restart.
#[local] Open Scope Z_scope.

(** ** The registry, as far as statements read it (as.go) *)

Record serving : Type := mkServing {
  sv_closed : bool;
  sv_as : gmap ASKey applicationServer;
  sv_associations : gmap nat association;
}.

Definition registry_keys (s : serving) : list ASKey :=
  if sv_closed s then [] else sort_by compareASKey (map_to_list (sv_as s)).*1.

Definition asKeyMatchesDestinationScope (key : ASKey) (scope : destinationKey) : bool :=
  if negb (Bool.eqb (Inventory.NetworkAppearanceSet key) (dk_networkAppearanceSet scope)) ||
     negb (Inventory.NetworkAppearance key =? dk_networkAppearance scope) then false
  else if dk_routingContextSet scope
  then Inventory.RoutingContextSet key && (Inventory.RoutingContext key =? dk_routingContext scope)
  else true.

Record activeSSNMTarget : Set := mkSSNMTarget {
  tg_association : nat;
  tg_routingContexts : list Z;
  tg_contextless : bool;
}.

Definition addContext (key : ASKey) (t : activeSSNMTarget) : activeSSNMTarget :=
  if Inventory.RoutingContextSet key then
    if bool_decide (Inventory.RoutingContext key ∈ tg_routingContexts t) then t
    else t <| tg_routingContexts ::= λ l, l ++ [Inventory.RoutingContext key] |>
  else t <| tg_contextless := true |>.

Fixpoint addTarget (key : ASKey) (association : nat) (targets : list activeSSNMTarget)
    : list activeSSNMTarget :=
  match targets with
  | [] => [addContext key (mkSSNMTarget association [] false)]
  | t :: targets =>
      if decide (tg_association t = association) then addContext key t :: targets
      else t :: addTarget key association targets
  end.

Definition isActiveFor (s : serving) (key : ASKey) (association : nat) : bool :=
  from_option (activeForASKey key) false (sv_associations s !! association).

(** The body of the loop over the Application Servers. *)
Definition addServer (s : serving) (targets : list activeSSNMTarget)
    (scoped : ASKey * applicationServer) : list activeSSNMTarget :=
  foldl (λ targets c, addTarget scoped.1 c targets) targets
    (List.filter (isActiveFor s scoped.1) (activeASPs scoped.2)).

Definition compareTargets (a b : activeSSNMTarget) : Z :=
  compareZ (Z.of_nat (tg_association a)) (Z.of_nat (tg_association b)).

Definition activeSSNMTargets (s : serving) (scope : destinationKey) : list activeSSNMTarget :=
  if sv_closed s then []
  else
    let servers := List.filter (λ e, asKeyMatchesDestinationScope e.1 scope) (map_to_list (sv_as s)) in
    sort_by compareTargets
      (foldl (addServer s) [] (sort_by (λ a b, compareASKey a.1 b.1) servers)).

Definition ssnmTargetRoutingContextScopes (t : activeSSNMTarget) : list (list Z) :=
  (if tg_contextless t then [[]] else []) ++
  (if 0 <? len (tg_routingContexts t) then [tg_routingContexts t] else []).

(** ** Scopes *)

(** Fixing the Network Appearance every candidate agrees on. *)
Fixpoint agreedAppearance (resolved : option (Z * bool)) (keys : list ASKey)
    : m3ua_error + Z * bool :=
  match keys with
  | [] => inr (default (0, false) resolved)
  | key :: keys =>
      match resolved with
      | None => agreedAppearance (Some (Inventory.NetworkAppearance key, Inventory.NetworkAppearanceSet key)) keys
      | Some (value, set) =>
          if negb (Bool.eqb set (Inventory.NetworkAppearanceSet key)) ||
             negb (value =? Inventory.NetworkAppearance key)
          then inl (ErrInvalidNetworkAppearance None)
          else agreedAppearance resolved keys
      end
  end.

Definition resolveEndpointSSNMNetworkAppearance (s : serving) (scope : WireScope)
    : m3ua_error + Z * bool :=
  if Ssnm.NetworkAppearanceSet scope then inr (Ssnm.NetworkAppearance scope, true)
  else
    agreedAppearance None (List.filter (λ key,
      negb (Ssnm.RoutingContextSet scope &&
            (negb (Inventory.RoutingContextSet key) ||
             bool_decide (Inventory.RoutingContext key ∉ Ssnm.RoutingContexts scope)))) (registry_keys s)).

(** [None] is acceptance. *)
Definition scopeResult {A} (r : m3ua_error + A) : option m3ua_error :=
  match r with inl e => Some e | inr _ => None end.

Definition named (appearance : Z) (key : ASKey) : bool :=
  Inventory.NetworkAppearanceSet key && (Inventory.NetworkAppearance key =? appearance).

(** The loop over the Routing Contexts of the scope. *)
Fixpoint checkContexts (scope : WireScope) (configured : list ASKey) (contexts : list Z)
    : option m3ua_error :=
  match contexts with
  | [] => None
  | rc :: contexts =>
      let candidates := List.filter (λ key, Inventory.RoutingContextSet key &&
                                            (Inventory.RoutingContext key =? rc)) configured in
      if len candidates =? 0 then Some (Inventory.ErrInvalidRoutingContext rc)
      else if Ssnm.NetworkAppearanceSet scope then
        if existsb (named (Ssnm.NetworkAppearance scope)) candidates
        then checkContexts scope configured contexts else Some (ErrInvalidNetworkAppearance None)
      else if negb (len candidates =? 1) then Some (ErrInvalidNetworkAppearance None)
      else checkContexts scope configured contexts
  end.

Definition validateEndpointSSNMScope (s : serving) (scope : WireScope) : option m3ua_error :=
  let configured := registry_keys s in
  if len configured =? 0 then None
  else if negb (Ssnm.RoutingContextSet scope) then
    if Ssnm.NetworkAppearanceSet scope then
      if existsb (named (Ssnm.NetworkAppearance scope)) configured then None
      else Some (ErrInvalidNetworkAppearance None)
    else scopeResult (resolveEndpointSSNMNetworkAppearance s scope)
  else
    match checkContexts scope configured (Ssnm.RoutingContexts scope) with
    | Some e => Some e
    | None => scopeResult (resolveEndpointSSNMNetworkAppearance s scope)
    end.

Definition prepareLocalDestinationRange (s : serving) (r : destinationRange)
    : m3ua_error + destinationRange :=
  if negb (validDestinationNetworkState (dr_State r)) then inl Inventory.ErrInvalidParameterValue
  else
    let scope := Ssnm.mkScope (dr_NetworkAppearance r) (dr_NetworkAppearanceSet r)
                   (if dr_RoutingContextSet r then [dr_RoutingContext r] else []) (dr_RoutingContextSet r) in
    match validateEndpointSSNMScope s scope with
    | Some e => inl e
    | None =>
        if dr_NetworkAppearanceSet r then inr (normalizeDestinationRange r)
        else
          match resolveEndpointSSNMNetworkAppearance s scope with
          | inl e => inl e
          | inr (value, set) =>
              inr (normalizeDestinationRange
                     (r <| dr_NetworkAppearance := value |> <| dr_NetworkAppearanceSet := set |>))
          end
    end.

(** ** The parameters of a message *)

Inductive call_error : Type :=
| CallEndpointClosed
| CallMissingAffectedPointCode
| CallInvalid (e : m3ua_error)
| CallRestart (e : restart_error).

Record ssnmParameters : Set := mkSSNMParameters {
  sp_networkAppearance : option Param;
  sp_routingContext : option Param;
  sp_affectedPointCode : option Param;
  sp_info : option Param;
}.

Fixpoint sortedDuplicate (l : list Z) : bool :=
  match l with
  | x :: ((y :: _) as l') => (y =? x) || sortedDuplicate l'
  | _ => false
  end.

Definition buildWireScope (scope : WireScope) : call_error + option Param * option Param :=
  let networkAppearance := if Ssnm.NetworkAppearanceSet scope
                           then Some (NewNetworkAppearance (Ssnm.NetworkAppearance scope)) else None in
  if negb (Ssnm.RoutingContextSet scope) then inr (networkAppearance, None)
  else if len (Ssnm.RoutingContexts scope) =? 0 then inl (CallInvalid Inventory.ErrMissingRoutingContext)
  else
    let contexts := merge_sort Z.le (Ssnm.RoutingContexts scope) in
    if sortedDuplicate contexts then inl (CallInvalid Inventory.ErrInvalidParameterValue)
    else inr (networkAppearance, Some (NewRoutingContext contexts)).

Definition buildAffectedPointCodes (ds : list PointCodeRange) : call_error + Param :=
  if len ds =? 0 then inl CallMissingAffectedPointCode
  else if existsb (λ d, (0x00ffffff <? PointCode d) || (24 <? Mask d)) ds
  then inl (CallInvalid Inventory.ErrInvalidParameterValue)
  else inr (NewAffectedPointCode ((λ d, Z.lor (u32 (Z.shiftl (Mask d) 24)) (PointCode d)) <$> ds)).

Definition buildSSNMInfoString (info : bytes) : call_error + option Param :=
  if (255 <? len info) || negb (utf8_Valid info) then inl (CallInvalid Inventory.ErrInvalidParameterValue)
  else if len info =? 0 then inr None else inr (Some (NewInfoString info)).

Definition buildSSNMParameters (scope : WireScope) (ds : list PointCodeRange) (info : bytes)
    : call_error + ssnmParameters :=
  match buildWireScope scope with
  | inl e => inl e
  | inr (networkAppearance, routingContext) =>
      match buildAffectedPointCodes ds with
      | inl e => inl e
      | inr affectedPointCode =>
          match buildSSNMInfoString info with
          | inl e => inl e
          | inr info => inr (mkSSNMParameters networkAppearance routingContext (Some affectedPointCode) info)
          end
      end
  end.

Definition prepareEndpointSSNM (s : serving) (scope : WireScope) (ds : list PointCodeRange)
    (info : bytes) : call_error + ssnmParameters :=
  match buildSSNMParameters scope ds info with
  | inl e => inl e
  | inr ps => match validateEndpointSSNMScope s scope with
              | Some e => inl (CallInvalid e)
              | None => inr ps
              end
  end.

Record SignallingCongestionRequest : Set := mkCongestionRequest {
  cr_Scope : WireScope;
  cr_Destinations : list PointCodeRange;
  cr_CongestionLevel : Z;
  cr_CongestionLevelSet : bool;
  cr_ConcernedDestination : Z;
  cr_ConcernedDestinationSet : bool;
  cr_Info : bytes;
}.

Definition buildSignallingCongestionParameters (r : SignallingCongestionRequest)
    (allowConcernedDestination : bool) : call_error + option Param * option Param :=
  if cr_ConcernedDestinationSet r &&
     (negb allowConcernedDestination || (0x00ffffff <? cr_ConcernedDestination r))
  then inl (CallInvalid Inventory.ErrInvalidParameterValue)
  else if cr_CongestionLevelSet r && (3 <? cr_CongestionLevel r)
  then inl (CallInvalid Inventory.ErrInvalidParameterValue)
  else inr (if cr_ConcernedDestinationSet r then Some (NewConcernedDestination (cr_ConcernedDestination r)) else None,
            if cr_CongestionLevelSet r then Some (NewCongestionIndications (cr_CongestionLevel r)) else None).

(** ** Fan-outs *)

(** What reached the peers: each batch with its outcome. *)
Record delivery : Type := mkBatch {
  b_association : nat;
  b_messages : list M3UA;
  b_outcome : option asp_error;
}.

(** [fanouts] counts the fan-outs, so that the environment can answer each. *)
Record wire : Type := mkWire { fanouts : nat; written : list delivery }.

(** The registry each fan-out finds, and the outcome of its batches. *)
Record network : Type := mkNetwork {
  n_closed : bool;
  n_serving : serving;
  n_fanout : nat → serving;
  n_answer : nat → nat → option asp_error;
}.

Record sgp : Type := mkSGP {
  g_registry : mtp3RestartRegistry;
  g_table : destinations;
  g_wire : wire;
}.

Definition newSGP (destinationRecords : Z) : sgp :=
  mkSGP newRestartRegistry (setRecordLimit destinationRecords newDestinations) (mkWire 0 []).

Definition outcomeOf (ds : list delivery) : SSNMDeliveryError :=
  mkDelivery (b_association <$> List.filter (λ d, bool_decide (b_outcome d = None)) ds)
    (omap (λ d, (λ e, (b_association d, e)) <$> b_outcome d) ds).

(** Writing the batches of one fan-out. *)
Definition deliver (net : network) (batches : list (nat * list M3UA)) (w : wire)
    : SSNMDeliveryError * wire :=
  let ds := (λ b, mkBatch b.1 b.2 (n_answer net (fanouts w) b.1)) <$> batches in
  (outcomeOf ds, mkWire (S (fanouts w)) (written w ++ ds)).

Fixpoint appendBatch (association : nat) (ms : list M3UA) (batches : list (nat * list M3UA))
    : list (nat * list M3UA) :=
  match batches with
  | [] => [(association, ms)]
  | (a, l) :: batches =>
      if decide (a = association) then (a, l ++ ms) :: batches
      else (a, l) :: appendBatch association ms batches
  end.

(** The dimensions a completion publishes. *)
Definition publishedDimensions (completion : bool) (entry : stagedDestination) : Z :=
  if completion && (ns_Availability (dr_State (sd_range entry)) =? DestinationUnavailable)
  then Z.ldiff (sd_dimensions entry) destinationAvailabilityDimension
  else sd_dimensions entry.

Definition stagedScope (r : destinationRange) : destinationKey :=
  mkDestinationKey (dr_NetworkAppearance r) (dr_NetworkAppearanceSet r)
    (if dr_RoutingContextSet r then dr_RoutingContext r else 0) (dr_RoutingContextSet r) [] 0 0.

Definition addStaged (s : serving) (completion : bool) (batches : list (nat * list M3UA))
    (entry : stagedDestination) : list (nat * list M3UA) :=
  let dims := publishedDimensions completion entry in
  if dims =? 0 then batches
  else
    foldl (λ batches t,
      appendBatch (tg_association t)
        (ssnmTargetRoutingContextScopes t ≫= λ contexts, destinationStateSSNMs (sd_range entry) contexts dims)
        batches)
      batches (activeSSNMTargets s (stagedScope (sd_range entry))).

Definition publishDestinationRanges (net : network) (staged : list stagedDestination)
    (completion : bool) (w : wire) : option SSNMDeliveryError * wire :=
  let batches := foldl (addStaged (n_fanout net (fanouts w)) completion) [] staged in
  if len batches =? 0 then (None, w)
  else let '(o, w) := deliver net batches w in (Some o, w).

(** The loop over the Routing Contexts of [endpointActiveSSNMTargets]. *)
Fixpoint combineTarget (t : activeSSNMTarget) (targets : list activeSSNMTarget) : list activeSSNMTarget :=
  match targets with
  | [] => [t]
  | c :: targets =>
      if decide (tg_association c = tg_association t)
      then mkSSNMTarget (tg_association c) (appendRoutingContexts (tg_routingContexts c) (tg_routingContexts t))
             (tg_contextless c || tg_contextless t) :: targets
      else c :: combineTarget t targets
  end.

Definition endpointActiveSSNMTargets (s : serving) (scope : WireScope) : list activeSSNMTarget :=
  match resolveEndpointSSNMNetworkAppearance s scope with
  | inl _ => []
  | inr (value, set) =>
      if negb (Ssnm.RoutingContextSet scope)
      then activeSSNMTargets s (mkDestinationKey value set 0 false [] 0 0)
      else
        sort_by compareTargets
          (foldl (λ targets rc, foldl (λ targets t, combineTarget t targets) targets
                    (activeSSNMTargets s (mkDestinationKey value set rc true [] 0 0)))
             [] (Ssnm.RoutingContexts scope))
  end.

Definition routingContextParam (contexts : list Z) : option Param :=
  if 0 <? len contexts then Some (NewRoutingContext contexts) else None.

Definition fanoutEndpointSSNM (net : network) (scope : WireScope) (build : option Param → M3UA)
    (w : wire) : SSNMDeliveryError * wire :=
  let targets := endpointActiveSSNMTargets (n_fanout net (fanouts w)) scope in
  if len targets =? 0 then (mkDelivery [] [], w)
  else
    deliver net
      (List.filter (λ b, 0 <? len b.2)
         ((λ t, (tg_association t,
                 (λ contexts, build (routingContextParam contexts)) <$> ssnmTargetRoutingContextScopes t))
            <$> targets)) w.

(** ** Statements *)

Record endpointSSNMGroup : Set := mkGroup {
  g_routingContexts : list Z;
  g_destinations : list PointCodeRange;
}.

Fixpoint appendEndpointSSNMGroup (groups : list endpointSSNMGroup) (group : endpointSSNMGroup)
    (scoped : bool) : list endpointSSNMGroup :=
  match groups with
  | [] => [group]
  | g :: groups =>
      if scoped && bool_decide (g_destinations g = g_destinations group)
      then g <| g_routingContexts ::= λ l, l ++ g_routingContexts group |> :: groups
      else g :: appendEndpointSSNMGroup groups group scoped
  end.

(** The loop over the destinations, in one Routing Context: those still
    publishable and their ranges. *)
Fixpoint stageEach (rangeAt : PointCodeRange → destinationRange) (dims : Z) (ds kept : list PointCodeRange)
    (records : list destinationRange) (g : sgp)
    : (restart_error + list PointCodeRange * list destinationRange) * sgp :=
  match ds with
  | [] => (inr (kept, records), g)
  | destination :: ds =>
      let r := normalizeDestinationRange (rangeAt destination) in
      let '(staged, registry, d) := stageAnyMTP3RestartRangeLocked (mkStaged r dims) (g_registry g) (g_table g) in
      let g := g <| g_registry := registry |> <| g_table := d |> in
      match staged with
      | inl e => (inl e, g)
      | inr true => stageEach rangeAt dims ds kept records g
      | inr false => stageEach rangeAt dims ds (kept ++ [destination]) (records ++ [r]) g
      end
  end.

Section statement.
Context (storage : Z * bool) (scoped : bool) (ds : list PointCodeRange)
  (s : DestinationNetworkState) (dims : Z).

Definition statedRange (rc : Z) (destination : PointCodeRange) : destinationRange :=
  mkRange storage.1 storage.2 rc scoped (PointCode destination) (Mask destination) s.

Fixpoint stageContexts (contexts : list Z) (groups : list endpointSSNMGroup)
    (records : list destinationRange) (g : sgp)
    : (restart_error + list endpointSSNMGroup * list destinationRange) * sgp :=
  match contexts with
  | [] => (inr (groups, records), g)
  | rc :: contexts =>
      let '(r, g) := stageEach (statedRange rc) dims ds [] records g in
      match r with
      | inl e => (inl e, g)
      | inr (kept, records) =>
          stageContexts contexts
            (appendEndpointSSNMGroup groups (mkGroup (if scoped then [rc] else []) kept) scoped) records g
      end
  end.

(** The records of what is publishable. *)
Definition statedRecord (r : destinationRange) : destinationRecord := mkRecord r [] [] dims 0.

Definition stageOrGroupEndpointSSNM (contexts : list Z) (g : sgp)
    : (restart_error + list endpointSSNMGroup) * sgp :=
  let '(r, g) := stageContexts contexts [] [] g in
  match r with
  | inl e => (inl e, g)
  | inr (groups, records) =>
      let '(refused, d) := storeAll (statedRecord <$> records) (g_table g) in
      (match recordLimitErrorLocked refused with
       | Some n => inl (ErrRecordLimit n)
       | None => inr groups
       end, g <| g_table := d |>)
  end.
End statement.

Definition isScoped (scope : WireScope) : bool :=
  Ssnm.RoutingContextSet scope && (0 <? len (Ssnm.RoutingContexts scope)).

(** Publishing the groups, each with its own fan-out. *)
Fixpoint publishGroups (net : network) (scope : WireScope) (build : option Param → option Param → M3UA)
    (groups : list endpointSSNMGroup) (failure : SSNMDeliveryError) (w : wire)
    : (call_error + SSNMDeliveryError) * wire :=
  match groups with
  | [] => (inr failure, w)
  | group :: groups =>
      if len (g_destinations group) =? 0 then publishGroups net scope build groups failure w
      else
        match buildAffectedPointCodes (g_destinations group) with
        | inl e => (inl e, w)
        | inr affectedPointCode =>
            let groupScope :=
              if 0 <? len (g_routingContexts group)
              then Ssnm.mkScope (Ssnm.NetworkAppearance scope) (Ssnm.NetworkAppearanceSet scope)
                     (g_routingContexts group) true
              else scope in
            let '(o, w) := fanoutEndpointSSNM net groupScope
                             (λ routingContext, build routingContext (Some affectedPointCode)) w in
            publishGroups net scope build groups (mergeSSNMDeliveryOutcome failure (Some o)) w
        end
  end.

Definition publishEndpointDestinationState (net : network) (scope : WireScope)
    (ds : list PointCodeRange) (s : DestinationNetworkState) (dims : Z)
    (build : option Param → option Param → M3UA) (g : sgp) : list call_error * sgp :=
  match (if Ssnm.NetworkAppearanceSet scope then inr (Ssnm.NetworkAppearance scope, true)
         else resolveEndpointSSNMNetworkAppearance (n_serving net) scope) with
  | inl e => ([CallInvalid e], g)
  | inr storage =>
      let contexts := if isScoped scope then Ssnm.RoutingContexts scope else [0] in
      let '(r, g) := stageOrGroupEndpointSSNM storage (isScoped scope) ds s dims contexts g in
      match r with
      | inl e => ([CallRestart e], g)
      | inr groups =>
          let '(o, w) := publishGroups net scope build groups (mkDelivery [] []) (g_wire g) in
          (match o with
           | inl e => [e]
           | inr failure => CallRestart <$> ssnmDeliveryResult (Some failure)
           end, g <| g_wire := w |>)
      end
  end.

(** ** Calls of the application; no error is the empty list *)

Definition availabilityMessage (ps : ssnmParameters) (availability : Z)
    (routingContext affectedPointCode : option Param) : M3UA :=
  if availability =? DestinationUnavailable then
    Typed KDestinationUnavailable (DestinationUnavailable.NewDestinationUnavailable
      (sp_networkAppearance ps) routingContext affectedPointCode (sp_info ps))
  else if availability =? DestinationRestricted then
    Typed KDestinationRestricted (DestinationRestricted.NewDestinationRestricted
      (sp_networkAppearance ps) routingContext affectedPointCode (sp_info ps))
  else
    Typed KDestinationAvailable (DestinationAvailable.NewDestinationAvailable
      (sp_networkAppearance ps) routingContext affectedPointCode (sp_info ps)).

Record DestinationAvailabilityRequest : Set := mkAvailabilityRequest {
  ar_Scope : WireScope;
  ar_Destinations : list PointCodeRange;
  ar_Availability : Z;
  ar_Info : bytes;
}.

Definition ReportDestinationAvailability (net : network) (r : DestinationAvailabilityRequest) (g : sgp)
    : list call_error * sgp :=
  if n_closed net then ([CallEndpointClosed], g)
  else if negb (validDestinationAvailability (ar_Availability r))
  then ([CallInvalid Inventory.ErrInvalidParameterValue], g)
  else
    match prepareEndpointSSNM (n_serving net) (ar_Scope r) (ar_Destinations r) (ar_Info r) with
    | inl e => ([e], g)
    | inr ps =>
        publishEndpointDestinationState net (ar_Scope r) (ar_Destinations r)
          (mkNetworkState (ar_Availability r) noCongestion) destinationAvailabilityDimension
          (availabilityMessage ps (ar_Availability r)) g
    end.

Definition EndpointSignallingCongestion (net : network) (r : SignallingCongestionRequest) (g : sgp)
    : list call_error * sgp :=
  if n_closed net then ([CallEndpointClosed], g)
  else
    match prepareEndpointSSNM (n_serving net) (cr_Scope r) (cr_Destinations r) (cr_Info r) with
    | inl e => ([e], g)
    | inr ps =>
        match buildSignallingCongestionParameters r false with
        | inl e => ([e], g)
        | inr (_, congestion) =>
            publishEndpointDestinationState net (cr_Scope r) (cr_Destinations r)
              (mkNetworkState DestinationAvailable
                 (congestionStateFor (cr_CongestionLevel r) (cr_CongestionLevelSet r)))
              destinationCongestionDimension
              (λ routingContext affectedPointCode,
                 Typed KSignallingCongestion (SignallingCongestion.NewSignallingCongestion
                   (sp_networkAppearance ps) routingContext affectedPointCode None congestion (sp_info ps))) g
        end
    end.

(** The user part values a DUPU may name: SCCP, TUP, ISUP, the Broadband and
    Satellite ISUP, AAL type 2 Signalling, BICC and Gateway Control Protocol. *)
Definition validMTP3User (user : Z) : bool := bool_decide (user ∈ [3; 4; 5; 9; 10; 12; 13; 14]).

Record DestinationUserPartUnavailableRequest : Set := mkUserPartRequest {
  ur_Scope : WireScope;
  ur_Destination : PointCodeRange;
  ur_User : Z;
  ur_Cause : Z;
  ur_Info : bytes;
}.

Definition EndpointDestinationUserPartUnavailable (net : network)
    (r : DestinationUserPartUnavailableRequest) (g : sgp) : list call_error * sgp :=
  if n_closed net then ([CallEndpointClosed], g)
  else if negb (Mask (ur_Destination r) =? 0) || negb (validMTP3User (ur_User r)) || (2 <? ur_Cause r)
  then ([CallInvalid Inventory.ErrInvalidParameterValue], g)
  else
    match prepareEndpointSSNM (n_serving net) (ur_Scope r) [ur_Destination r] (ur_Info r) with
    | inl e => ([e], g)
    | inr ps =>
        let '(o, w) := fanoutEndpointSSNM net (ur_Scope r) (λ routingContext,
            Typed KDestinationUserPartUnavailable (DestinationUserPartUnavailable.NewDestinationUserPartUnavailable
              (sp_networkAppearance ps) routingContext (sp_affectedPointCode ps)
              (Some (NewUserCause (ur_User r) (ur_Cause r))) (sp_info ps))) (g_wire g) in
        (CallRestart <$> ssnmDeliveryResult (Some o), g <| g_wire := w |>)
    end.

(** The target of the restarts of the Endpoint. *)
Definition endpointTarget (net : network) : mtp3RestartTarget wire :=
  mkTarget (n_closed net) (prepareLocalDestinationRange (n_serving net)) (publishDestinationRanges net).

Definition BeginMTP3Restart (net : network) (ds : list AffectedDestination) (g : sgp)
    : (call_error + MTP3Restart * list restart_error) * sgp :=
  if n_closed net then (inl CallEndpointClosed, g)
  else
    let '(r, registry, d, w) := beginMTP3Restart (endpointTarget net) ds (g_registry g) (g_table g) (g_wire g) in
    (match r with inl e => inl (CallRestart e) | inr h => inr h end, mkSGP registry d w).

Definition UpdateMTP3Restart (net : network) (h : MTP3Restart) (destination : AffectedDestination)
    (s : DestinationNetworkState) (g : sgp) : option restart_error * sgp :=
  let '(err, registry, d) := Update (endpointTarget net) h destination s (g_registry g) (g_table g) in
  (err, g <| g_registry := registry |> <| g_table := d |>).

Definition CompleteMTP3Restart (net : network) (h : MTP3Restart) (g : sgp)
    : list restart_error * MTP3Restart * sgp :=
  let '(errs, h, registry, d, w) := Complete (endpointTarget net) h (g_registry g) (g_table g) (g_wire g) in
  (errs, h, mkSGP registry d w).

(** [ForgetDestinations], on an Association of the SGP. *)
Definition ForgetDestinations (g : sgp) : Z * sgp :=
  let '(n, d) := forget (g_table g) in (n, g <| g_table := d |>).

(** The end of the Endpoint. *)
Definition closeRestarts (g : sgp) : sgp := g <| g_registry ::= invalidateMTP3RestartRegistry |>.

(** ** Audits *)

(** What an audit answers of a destination (the function [auditState] of
    [handleDestinationStateAudit]). *)
Definition auditState (scope : destinationKey) (pointCode mask : Z) (g : sgp) : DestinationNetworkState :=
  if restartForcesUnavailable (g_registry g) scope pointCode mask then unavailable
  else
    let '(retained, known) := lookupRange scope pointCode mask (g_table g) in
    if known : bool then retained else unavailable.
