(* ===== verification/RestartTheory.v ===== *)
(** * Restarts and the statements of an SGP: theorems

    Invariants of the registry of restarts under any sequence of calls, and what
    follows: the isolation of a destination ends only when its recovery has
    reached everybody it concerns or the restart is complete, a completion
    settles each destination on its own, and a statement is split exactly into
    what a restart holds back and what is published. *)

From stdpp Require Import sorting.
From coqutil Require Import Datatypes.RecordSettersUsingExistingGetters.
From S2P Require Import Prelude Params Inventory RoutingKey AppServer Ssnm Destinations DestinationsTheory.
From S2P Require Import Message Tack Association Mtp3Restart SsnmEndpoint.
#[local] Open Scope Z_scope.

(** ** Ranges as sets of point codes *)

#[local] Abbreviation width := effectiveDestinationMask.

Lemma width_bounds m : 0 ≤ m → 0 ≤ width m ≤ 24.
Proof. unfold effectiveDestinationMask. destruct (24 <? m) eqn:E; lia. Qed.

Lemma prefix_testbit pc m i : 0 ≤ m → 0 ≤ i →
  Z.testbit (destinationRangePrefix pc m) i = (width m <=? i) && (i <? 24) && Z.testbit pc i.
Proof.
  intros Hm Hi. pose proof (width_bounds m Hm) as Hw. unfold destinationRangePrefix.
  change 0xffffff with (Z.ones 24). destruct (width m =? 24) eqn:E; to_prop.
  { rewrite Z.bits_0. destruct (width m <=? i) eqn:?, (i <? 24) eqn:?; cbn; try done; lia. }
  rewrite !Z.land_spec, Z.testbit_ones_nonneg by lia. unfold u32.
  destruct (decide (i < 32)).
  - rewrite Z.mod_pow2_bits_low, Z.shiftl_spec by lia.
    destruct (width m <=? i) eqn:E1; to_prop.
    + rewrite Z.testbit_ones_nonneg by lia. destruct (i <? 24) eqn:E2; to_prop; cbn [andb].
      * assert ((i - width m <? 24) = true) as -> by lia. by rewrite !andb_true_r.
      * by rewrite andb_false_r.
    + rewrite (Z.testbit_neg_r _ (i - width m)) by lia. by rewrite andb_false_r.
  - rewrite Z.mod_pow2_bits_high by lia. assert ((i <? 24) = false) as -> by lia.
    by rewrite !andb_false_r.
Qed.

(** Two point codes have one prefix when they agree above the mask. *)
Lemma prefix_eq a b m : 0 ≤ m →
  destinationRangePrefix a m = destinationRangePrefix b m ↔
  ∀ i, width m ≤ i < 24 → Z.testbit a i = Z.testbit b i.
Proof.
  intros Hm. pose proof (width_bounds m Hm). split.
  - intros E i Hi. apply (f_equal (λ z, Z.testbit z i)) in E.
    rewrite !prefix_testbit in E by lia.
    by assert ((width m <=? i) = true) as Hx by lia; assert ((i <? 24) = true) as Hy by lia;
      rewrite Hx, Hy in E.
  - intros E. apply Z.bits_inj'. intros i Hi. rewrite !prefix_testbit by done.
    destruct (width m <=? i) eqn:?, (i <? 24) eqn:?; to_prop; try done. cbn. apply E. lia.
Qed.

Lemma covers_spec r pc m : 0 ≤ dr_Mask r →
  destinationRangeCovers r pc m = true ↔
  width m ≤ width (dr_Mask r) ∧
  ∀ i, width (dr_Mask r) ≤ i < 24 → Z.testbit (dr_PointCode r) i = Z.testbit pc i.
Proof.
  intros Hm. unfold destinationRangeCovers. rewrite <-prefix_eq by done.
  destruct (_ <? _) eqn:E; to_prop; [|rewrite Z.eqb_eq]; intuition lia.
Qed.

#[local] Abbreviation contains := destinationRangeContains.
#[local] Abbreviation overlap := destinationRangesOverlap.

Lemma sameAppearance_spec a b :
  sameAppearance a b = true ↔ dr_NetworkAppearance a = dr_NetworkAppearance b ∧
                              dr_NetworkAppearanceSet a = dr_NetworkAppearanceSet b.
Proof. unfold sameAppearance. by rewrite andb_true_iff, Z.eqb_eq, eqb_true_iff. Qed.

(** The traffic scopes of two ranges: the one within the other, or in common. *)
Definition scopeWithin (inner outer : destinationRange) : Prop :=
  sameAppearance outer inner = true ∧
  (dr_RoutingContextSet outer = true →
   dr_RoutingContextSet inner = true ∧ dr_RoutingContext outer = dr_RoutingContext inner).

Definition scopeCommon (a b : destinationRange) : Prop :=
  sameAppearance a b = true ∧
  (dr_RoutingContextSet a = true → dr_RoutingContextSet b = true →
   dr_RoutingContext a = dr_RoutingContext b).

Lemma contains_spec a b :
  contains a b = true ↔ scopeWithin b a ∧ destinationRangeCovers a (dr_PointCode b) (dr_Mask b) = true.
Proof.
  unfold destinationRangeContains, scopeWithin. destruct (sameAppearance a b); cbn; [|naive_solver].
  destruct (dr_RoutingContextSet a), (dr_RoutingContextSet b); cbn; try naive_solver.
  destruct (dr_RoutingContext a =? dr_RoutingContext b) eqn:E; to_prop; cbn; naive_solver.
Qed.

Lemma overlap_spec a b :
  overlap a b = true ↔ scopeCommon a b ∧
    (destinationRangeCovers a (dr_PointCode b) (dr_Mask b) = true ∨
     destinationRangeCovers b (dr_PointCode a) (dr_Mask a) = true).
Proof.
  unfold destinationRangesOverlap, scopeCommon. destruct (sameAppearance a b); cbn; [|naive_solver].
  rewrite <-orb_true_iff.
  destruct (dr_RoutingContextSet a), (dr_RoutingContextSet b); cbn; try naive_solver.
  destruct (dr_RoutingContext a =? dr_RoutingContext b) eqn:E; to_prop; cbn; naive_solver.
Qed.

(** Ranges that have a point code in common are nested. *)
Lemma covers_nested a b pc m : 0 ≤ dr_Mask a → 0 ≤ dr_Mask b →
  destinationRangeCovers a pc m = true → destinationRangeCovers b pc m = true →
  destinationRangeCovers a (dr_PointCode b) (dr_Mask b) = true ∨
  destinationRangeCovers b (dr_PointCode a) (dr_Mask a) = true.
Proof.
  intros Ha Hb [_ Ea]%covers_spec [_ Eb]%covers_spec; [|done..].
  destruct (decide (width (dr_Mask b) ≤ width (dr_Mask a))); [left|right];
    (apply covers_spec; [done|]); (split; [lia|]); intros i Hi; rewrite Ea, Eb by lia; done.
Qed.

Lemma covers_trans a b pc m : 0 ≤ dr_Mask a → 0 ≤ dr_Mask b →
  destinationRangeCovers a (dr_PointCode b) (dr_Mask b) = true →
  destinationRangeCovers b pc m = true → destinationRangeCovers a pc m = true.
Proof.
  intros Ha Hb [? Ea]%covers_spec [? Eb]%covers_spec; [|done..]. apply covers_spec; [done|].
  split; [lia|]. intros i Hi. rewrite Ea, Eb by lia. done.
Qed.

(** A range that lies in one of two ranges and meets the other makes them meet. *)
Lemma contains_overlap a b r : 0 ≤ dr_Mask a → 0 ≤ dr_Mask b → 0 ≤ dr_Mask r →
  contains a r = true → overlap b r = true → overlap a b = true.
Proof.
  intros Ha Hb Hr [[Hsa Hra] Hca]%contains_spec [[Hsb Hrb] Hcb]%overlap_spec. apply overlap_spec.
  apply sameAppearance_spec in Hsa as [? ?], Hsb as [? ?]. split.
  - split; [apply sameAppearance_spec; split; congruence|].
    intros Ha' Hb'. destruct (Hra Ha') as [Hr' ->]. symmetry. by apply Hrb.
  - destruct Hcb as [Hcb|Hcb].
    + by eapply covers_nested.
    + left. by eapply (covers_trans a r).
Qed.

Lemma overlap_sym a b : overlap a b = overlap b a.
Proof.
  apply eq_true_iff_eq. rewrite !overlap_spec. unfold scopeCommon.
  rewrite !sameAppearance_spec. naive_solver.
Qed.

Lemma contains_is_overlap a r : contains a r = true → overlap a r = true.
Proof.
  intros [[? Hr] ?]%contains_spec. apply overlap_spec. split; [|by left]. split; [done|].
  intros Ha _. by apply Hr.
Qed.

(** ** The table under the SGP's writes *)

Definition within (d : destinations) : Prop := Z.of_nat (size (d_state d)) ≤ recordLimitLocked d.

Lemma log_store_bound r g : bound (log_store r g).2 = bound g.
Proof. unfold log_store. destruct (last _); [done|]. by destruct (_ <=? _). Qed.

Lemma log_store_limit r g : log_limit (log_store r g).2 = log_limit g.
Proof. unfold log_limit. by rewrite log_store_bound. Qed.

Lemma log_store_statements r g : ∃ l, statements (log_store r g).2 = statements g ++ l.
Proof.
  unfold log_store. destruct (last _); [by eexists|]. destruct (_ <=? _); [|by eexists].
  exists []. by rewrite app_nil_r.
Qed.

Lemma store_within r d : told d → well_scoped r → within d → within (storeLocked r d).2.
Proof.
  intros [g Hg] Hr Hw. destruct (store_refines d g r Hg Hr) as [_ Hg']. unfold within in *.
  rewrite (refines_size _ _ Hg'), (refines_limit _ _ Hg'), log_store_limit.
  rewrite (refines_size _ _ Hg), (refines_limit _ _ Hg) in Hw.
  unfold log_store. destruct (last _) as [h|] eqn:Hl.
  - apply held_in_current in Hl as [Hin Hk]. cbn [statements snd]. rewrite current_snoc, len_app.
    rewrite len_cons, len_nil. rewrite key_restate.
    pose proof (len_filter_lt (other_key (destinationRecordKey (erase r))) _ h Hin) as Hlt.
    enough (len (List.filter (other_key (destinationRecordKey (erase r))) (current (statements g))) <
            len (current (statements g))) by lia.
    apply Hlt. unfold other_key. by apply negb_false_iff, same_key_true.
  - destruct (_ <=? _) eqn:E; [done|]. cbn [statements snd]. rewrite current_snoc, len_app.
    rewrite len_cons, len_nil. to_prop.
    pose proof (len_filter_le (other_key (destinationRecordKey (erase r))) (current (statements g))). lia.
Qed.

(** Keys stay in the table. *)
Definition keeps (d d' : destinations) : Prop := ∀ k, is_Some (d_state d !! k) → is_Some (d_state d' !! k).

Lemma held_last d g k : refines d g → is_Some (d_state d !! k) ↔ is_Some (last (List.filter (same_key k) (statements g))).
Proof. intros Hg. rewrite (refines_held d g k Hg), fmap_is_Some. done. Qed.

Lemma store_keeps r d : told d → well_scoped r → keeps d (storeLocked r d).2.
Proof.
  intros [g Hg] Hr k. destruct (store_refines d g r Hg Hr) as [_ Hg'].
  rewrite (held_last _ _ _ Hg), (held_last _ _ _ Hg').
  destruct (log_store_statements (erase r) g) as [l ->]. rewrite List.filter_app, last_app.
  intros [x ->]. destruct (last _); by eexists.
Qed.

Lemma store_held r d : is_Some (d_state d !! destinationRecordKey r) → (storeLocked r d).1 = true.
Proof. unfold storeLocked. by intros [held ->]. Qed.

(** What the rest of the development needs of a table of the SGP. *)
Definition table_ok (d : destinations) : Prop := told d ∧ within d.

Lemma store_ok r d : table_ok d → well_scoped r → table_ok (storeLocked r d).2.
Proof. intros [Ht Hw] Hr. split; [by apply told_store|by apply store_within]. Qed.

Lemma storeAll_ok records d : table_ok d → Forall well_scoped records → table_ok (storeAll records d).2.
Proof.
  revert d. induction records as [|r records IH]; intros d Hd Hr; [done|].
  inversion_clear Hr as [|? ? Hr1 Hrs]. cbn [storeAll]. pose proof (store_ok r d Hd Hr1) as Hd1.
  destruct (storeLocked r d) as [b d1]. cbn [snd] in Hd1. specialize (IH d1 Hd1 Hrs).
  by destruct (storeAll records d1).
Qed.

Lemma table_ok_new limit : limit < 2 ^ 63 → table_ok (setRecordLimit limit newDestinations).
Proof.
  intros Hl. split; [by apply told_new|]. unfold within, setRecordLimit, recordLimitLocked.
  destruct (limit <=? 0) eqn:?; cbn; rewrite map_size_empty; [done|]. to_prop.
  destruct (0 <? limit) eqn:?; lia.
Qed.

Lemma table_ok_forget d : table_ok d → table_ok (forget d).2.
Proof.
  intros [Ht Hw]. split; [by apply told_forget|]. unfold within, forget in *. cbn in *.
  change (Z.of_nat 0 ≤ recordLimitLocked (d <| d_state := ∅ |>)).
  change (recordLimitLocked (d <| d_state := ∅ |>)) with (recordLimitLocked d). lia.
Qed.

(** ** Retaining the isolation *)

Definition canonical (r : destinationRange) : Prop := normalizeDestinationRange r = r ∧ 0 ≤ dr_Mask r.

Lemma normalize_canonical r : 0 ≤ dr_Mask r → canonical (normalizeDestinationRange r).
Proof.
  intros Hm. split; [|done]. unfold normalizeDestinationRange. cbn.
  destruct (dr_NetworkAppearanceSet r), (dr_RoutingContextSet r); cbn; f_equal;
    by rewrite <-Z.land_assoc.
Qed.

Lemma canonical_state r s : canonical r → canonical (r <| dr_State := s |>).
Proof.
  intros [Hn Hm]. split; [|done]. apply (f_equal (λ v, v <| dr_State := s |>)) in Hn. exact Hn.
Qed.

Lemma key_plain dims r : canonical r → destinationRecordKey (plainRecord dims r) = destinationRangeKey r.
Proof.
  intros [Hn _]. unfold plainRecord, destinationRecordKey, destinationRangeKey. cbn [rangeValue routingContextScope].
  rewrite Hn. reflexivity.
Qed.

Lemma key_state r s : destinationRangeKey (r <| dr_State := s |>) = destinationRangeKey r.
Proof. done. Qed.

Lemma retainAll_ok ranges replace : ∀ d,
  table_ok d → table_ok (retainAll ranges replace d).2 ∧ keeps d (retainAll ranges replace d).2.
Proof.
  induction ranges as [|r ranges IH]; intros d Hd; [split; [done|by intros k ?]|]. cbn [retainAll].
  destruct (bool_decide _ && negb replace); [by apply IH|].
  pose proof (store_ok _ d Hd (well_scoped_plain destinationAvailabilityDimension (r <| dr_State := unavailable |>))) as Hd1.
  pose proof (store_keeps (plainRecord destinationAvailabilityDimension (r <| dr_State := unavailable |>)) d
    (proj1 Hd) (well_scoped_plain _ _)) as Hk.
  destruct (storeLocked _ d) as [[] d1]; cbn [snd] in *; [|split; [done|done]].
  destruct (IH d1 Hd1) as [? Hk']. split; [done|]. intros k ?. by apply Hk', Hk.
Qed.

Lemma retain_ok ranges replace d :
  table_ok d → table_ok (retainMTP3RestartIsolation ranges replace d).2 ∧
               keeps d (retainMTP3RestartIsolation ranges replace d).2.
Proof.
  intros Hd. unfold retainMTP3RestartIsolation. destruct (0 <? _); [split; [done|by intros k ?]|]. by apply retainAll_ok.
Qed.

(** A range that is in the table needs nothing. *)
Lemma retain_held r d :
  table_ok d → is_Some (d_state d !! destinationRangeKey r) →
  retainMTP3RestartIsolation [r] false d = (None, d).
Proof.
  intros [_ Hw] Hk. unfold retainMTP3RestartIsolation, missingKeys. cbn [fmap list_fmap].
  rewrite filter_cons_False by (destruct Hk as [? ->]; done).
  rewrite filter_nil. cbn [list_to_set]. unfold within in Hw. change (size (∅ : gset destinationKey)) with 0%nat.
  destruct (0 <? _) eqn:E; to_prop; [lia|].
  cbn [retainAll]. by rewrite bool_decide_true.
Qed.

Lemma retain_single r d :
  canonical r → (retainMTP3RestartIsolation [r] false d).1 = None →
  is_Some (d_state (retainMTP3RestartIsolation [r] false d).2 !! destinationRangeKey r).
Proof.
  intros Hr. unfold retainMTP3RestartIsolation. destruct (0 <? _); [done|]. cbn [retainAll negb].
  rewrite andb_true_r. case_bool_decide as Hk; [done|]. apply eq_None_not_Some in Hk.
  destruct (storeLocked _ d) as [[] d1] eqn:Hst; [|done]. intros _. cbn [fst snd] in *.
  unfold storeLocked in Hst. rewrite key_plain, key_state, Hk in Hst by by apply canonical_state.
  destruct (_ <=? _); [done|]. injection Hst as <-. unfold install.
  set (key := destinationRangeKey r).
  assert (destinationRecordKey (plainRecord destinationAvailabilityDimension (r <| dr_State := unavailable |>)) = key)
    as <- by (apply key_plain; by apply canonical_state).
  cbn -[plainRecord destinationRecordKey advance]. rewrite lookup_insert_eq. done.
Qed.

(** ** The invariant of the registry *)

(** Statements are canonical, and lie within what the restart affects. *)
Record epoch_ok (e : mtp3RestartEpoch) : Prop := mkEpochOk {
  eo_affected : Forall canonical (affected e);
  eo_updates : Forall (λ u, canonical (sd_range u) ∧ restartEpochCovers e (sd_range u) = true) (updates e);
  eo_keys : NoDup ((λ u, destinationRangeKey (sd_range u)) <$> updates e);
  eo_completed : Forall (λ c, canonical c ∧ restartEpochCovers e c = true) (completed e);
}.

(** Position [i] of the epoch numbered [gen]. *)
Definition affected_at (R : mtp3RestartRegistry) (gen : Z) (i : nat) : option destinationRange :=
  active R !! gen ≫= λ e, affected e !! i.

Record registry_ok (R : mtp3RestartRegistry) : Prop := mkRegistryOk {
  ro_generation : 0 ≤ generation R;
  ro_generations : ∀ gen, is_Some (active R !! gen) → 0 < gen ≤ generation R;
  ro_epochs : ∀ gen e, active R !! gen = Some e → epoch_ok e;
  ro_disjoint : ∀ gen gen' i j a b,
    affected_at R gen i = Some a → affected_at R gen' j = Some b → (gen, i) ≠ (gen', j) →
    overlap a b = false;
}.

Lemma registry_ok_new : registry_ok newRestartRegistry.
Proof.
  split; [done|..]; intros *; cbn; rewrite ?lookup_empty; [by intros []|done|].
  unfold affected_at. cbn. by rewrite lookup_empty.
Qed.

(** Replacing an epoch by one that affects the same. *)
Lemma setEpoch_ok R gen e e' :
  registry_ok R → active R !! gen = Some e → affected e' = affected e → epoch_ok e' →
  registry_ok (setEpoch gen e' R).
Proof.
  intros [H0 Hg He Hd] Hl Ha He'.
  assert (Hat : ∀ g i, affected_at (setEpoch gen e' R) g i = affected_at R g i).
  { intros g i. unfold affected_at. cbn. destruct (decide (g = gen)) as [->|].
    - by rewrite lookup_insert_eq, Hl; cbn; rewrite Ha.
    - by rewrite lookup_insert_ne. }
  split; [done|..].
  - intros g. cbn. destruct (decide (g = gen)) as [->|].
    + intros _. apply Hg. by eexists.
    + rewrite lookup_insert_ne by done. apply Hg.
  - intros g x. cbn. destruct (decide (g = gen)) as [->|].
    + rewrite lookup_insert_eq. by intros [= <-].
    + rewrite lookup_insert_ne by done. apply He.
  - intros g g' i j a b. rewrite !Hat. apply Hd.
Qed.

Lemma deleteEpoch_ok R gen : registry_ok R → registry_ok (R <| active ::= delete gen |>).
Proof.
  intros [H0 Hg He Hd].
  assert (Hat : ∀ g i a, affected_at (R <| active ::= delete gen |>) g i = Some a → affected_at R g i = Some a).
  { intros g i a. unfold affected_at. cbn. destruct (decide (g = gen)) as [->|].
    - by rewrite lookup_delete_eq.
    - by rewrite lookup_delete_ne. }
  split; [done|..]; cbn.
  - intros g [x [_ Hx]%lookup_delete_Some]. apply Hg. by eexists.
  - intros g x [_ Hx]%lookup_delete_Some. by eapply He.
  - intros g g' i j a b Ha Hb. apply Hd; by apply Hat.
Qed.

Lemma invalidate_ok R : registry_ok R → registry_ok (invalidateMTP3RestartRegistry R).
Proof.
  intros [H0 _ _ _]. split; [done|..]; intros *; cbn; rewrite ?lookup_empty; [by intros []|done|].
  unfold affected_at. cbn. by rewrite lookup_empty.
Qed.

(** *** Staging *)

Lemma restage_key u v : destinationRangeKey (sd_range (restage u v)) = destinationRangeKey (sd_range u).
Proof. done. Qed.

Lemma restage_canonical u v : canonical (sd_range u) → canonical (sd_range (restage u v)).
Proof. intros Hc. unfold restage. cbn. by apply (canonical_state _ _ Hc). Qed.

Lemma covers_restage e u v : restartEpochCovers e (sd_range (restage u v)) = restartEpochCovers e (sd_range u).
Proof. done. Qed.

(** The staged list after a statement: the last entry is the statement, with the
    dimensions it leaves unsaid as they were, and no other entry has its key. *)
Lemma appendRestartUpdate_spec ups u :
  NoDup ((λ u, destinationRangeKey (sd_range u)) <$> ups) →
  ∃ others said,
    appendRestartUpdate ups u = others ++ [said] ∧ others `sublist_of` ups ∧
    destinationRangeKey (sd_range said) = destinationRangeKey (sd_range u) ∧
    (said = u ∨ ∃ v, v ∈ ups ∧ said = restage u v) ∧
    NoDup ((λ u, destinationRangeKey (sd_range u)) <$> appendRestartUpdate ups u).
Proof.
  intros Hn. unfold appendRestartUpdate.
  destruct (list_find _ ups) as [[i v]|] eqn:Hf.
  - apply list_find_Some in Hf as (Hi & Hv & _).
    exists (delete i ups), (restage u v). split; [done|]. split; [apply sublist_delete|].
    split; [done|]. split; [right; exists v; split; [by eapply list_elem_of_lookup_2|done]|].
    rewrite fmap_app. cbn [fmap list_fmap]. rewrite restage_key.
    assert (Hp : (λ u, destinationRangeKey (sd_range u)) <$> ups ≡ₚ
      destinationRangeKey (sd_range v) :: ((λ u, destinationRangeKey (sd_range u)) <$> delete i ups)).
    { by rewrite (delete_Permutation ups i v Hi) at 1. }
    rewrite Hp in Hn. rewrite <-Hv. apply NoDup_app.
    apply NoDup_cons in Hn as [Hni Hn]. split; [done|]. split; [|apply NoDup_singleton].
    intros k Hk ->%list_elem_of_singleton. done.
  - apply list_find_None in Hf. exists ups, u. do 3 (split; [done|]). split; [by left|].
    rewrite fmap_app. apply NoDup_app. split; [done|]. split; [|apply NoDup_singleton].
    intros k (x & -> & Hx)%list_elem_of_fmap Hk%list_elem_of_singleton.
    rewrite Forall_forall in Hf. by apply (Hf x Hx).
Qed.

Lemma stage_epoch_ok e u :
  epoch_ok e → canonical (sd_range u) → restartEpochCovers e (sd_range u) = true →
  epoch_ok (e <| updates := appendRestartUpdate (updates e) u |>).
Proof.
  intros [Ha Hu Hk Hc] Hcu Hcov.
  destruct (appendRestartUpdate_spec (updates e) u Hk) as (others & said & Heq & Hsub & _ & Hsaid & Hnd).
  split; [done| |exact Hnd|done]. cbn [updates]. cbn. rewrite Heq. apply Forall_app. split.
  - rewrite Forall_forall in Hu |- *. intros x Hx. apply Hu. by eapply elem_of_sublist.
  - apply Forall_singleton. destruct Hsaid as [->|(v & _ & ->)]; [done|].
    split; [by apply restage_canonical|exact Hcov].
Qed.

Lemma stageIn_ok gen e u R d :
  registry_ok R → table_ok d → active R !! gen = Some e → canonical (sd_range u) →
  restartEpochCovers e (sd_range u) = true →
  let '(err, R', d') := stageIn gen e u R d in registry_ok R' ∧ table_ok d'.
Proof.
  intros HR Hd He Hc Hcov. unfold stageIn.
  pose proof (retain_ok [sd_range u] false d Hd) as [Hd' _].
  destruct (retainMTP3RestartIsolation _ _ d) as [[err|] d']; cbn [snd] in Hd'; [done|].
  split; [|done]. apply (setEpoch_ok _ _ e); [done..|].
  apply stage_epoch_ok; [by eapply ro_epochs|done|done].
Qed.

Lemma stageMTP3RestartRange_ok gen u R d :
  registry_ok R → table_ok d → canonical (sd_range u) →
  let '(err, R', d') := stageMTP3RestartRange gen u R d in registry_ok R' ∧ table_ok d'.
Proof.
  intros HR Hd Hc. unfold stageMTP3RestartRange. destruct (active R !! gen) as [e|] eqn:He; [|done].
  destruct (restartEpochCovers e (sd_range u)) eqn:Hcov; [|done]. by apply stageIn_ok.
Qed.

(** An epoch that isolates a range is the only one. *)
Lemma isolating_unique R gen gen' e e' r :
  registry_ok R → 0 ≤ dr_Mask r → active R !! gen = Some e → active R !! gen' = Some e' →
  restartEpochCovers e r = true → restartEpochCovers e' r = true → gen = gen'.
Proof.
  intros HR Hr He He' Hc Hc'. destruct (decide (gen = gen')) as [|Hne]; [done|exfalso].
  unfold restartEpochCovers in Hc, Hc'.
  apply existsb_exists in Hc as (a & Ha%list_elem_of_In & Hca), Hc' as (b & Hb%list_elem_of_In & Hcb).
  destruct (list_elem_of_lookup_1 _ _ Ha) as [i Hi], (list_elem_of_lookup_1 _ _ Hb) as [j Hj].
  pose proof (ro_epochs R HR _ _ He) as [Hae _ _ _]. pose proof (ro_epochs R HR _ _ He') as [Hbe _ _ _].
  rewrite Forall_forall in Hae, Hbe. destruct (Hae a Ha) as [_ Hma], (Hbe b Hb) as [_ Hmb].
  assert (overlap a b = false) as Hno.
  { apply (ro_disjoint R HR gen gen' i j); unfold affected_at; rewrite ?He, ?He'; [done..|congruence]. }
  rewrite (contains_overlap a b r) in Hno; [done..|by apply contains_is_overlap].
Qed.

Lemma isolates_covers e r : restartEpochIsolates e r = true → restartEpochCovers e r = true.
Proof. unfold restartEpochIsolates. by intros [? _]%andb_true_iff. Qed.

(** The order in which the epochs are visited does not matter. *)
Lemma stageAnyIn_order R epochs u d :
  registry_ok R → 0 ≤ dr_Mask (sd_range u) → epochs ≡ₚ map_to_list (active R) →
  stageAnyIn epochs u R d = stageAnyMTP3RestartRangeLocked u R d.
Proof.
  intros HR Hm Hp. unfold stageAnyMTP3RestartRangeLocked, stageAnyIn.
  set (P := λ e : Z * mtp3RestartEpoch, restartEpochIsolates e.2 (sd_range u) = true).
  assert (Hsame : ∀ x y, x ∈ epochs → y ∈ epochs → P x → P y → x = y).
  { intros [g e] [g' e'] Hx Hy Hpx%isolates_covers Hpy%isolates_covers. rewrite Hp in Hx, Hy.
    apply elem_of_map_to_list in Hx, Hy.
    assert (g = g') as <- by by eapply isolating_unique. congruence. }
  destruct (list_find P epochs) as [[i x]|] eqn:Hf, (list_find P (map_to_list (active R))) as [[j y]|] eqn:Hg.
  - apply list_find_Some in Hf as (Hi%list_elem_of_lookup_2 & Hx & _).
    apply list_find_Some in Hg as (Hj%list_elem_of_lookup_2 & Hy & _).
    rewrite <-Hp in Hj. by rewrite (Hsame x y Hi Hj Hx Hy).
  - apply list_find_Some in Hf as (Hi%list_elem_of_lookup_2 & Hx & _). rewrite Hp in Hi.
    apply list_find_None in Hg. rewrite Forall_forall in Hg. by destruct (Hg x Hi).
  - apply list_find_Some in Hg as (Hj%list_elem_of_lookup_2 & Hy & _). rewrite <-Hp in Hj.
    apply list_find_None in Hf. rewrite Forall_forall in Hf. by destruct (Hf y Hj).
  - done.
Qed.

Lemma stageAny_ok u R d :
  registry_ok R → table_ok d → canonical (sd_range u) →
  let '(err, R', d') := stageAnyMTP3RestartRangeLocked u R d in registry_ok R' ∧ table_ok d'.
Proof.
  intros HR Hd Hc. unfold stageAnyMTP3RestartRangeLocked, stageAnyIn.
  destruct (list_find _ _) as [[i [gen e]]|] eqn:Hf; [|done].
  apply list_find_Some in Hf as (Hi%list_elem_of_lookup_2%elem_of_map_to_list & Hx%isolates_covers & _).
  pose proof (stageIn_ok gen e u R d HR Hd Hi Hc Hx). by destruct (stageIn gen e u R d) as [[? ?] ?].
Qed.

(** *** Completion *)

(** The elements of [l] whose verdict is [b]. *)
Fixpoint sieve {A} (b : bool) (verdicts : list bool) (l : list A) : list A :=
  match verdicts, l with
  | v :: verdicts, x :: l => if Bool.eqb v b then x :: sieve b verdicts l else sieve b verdicts l
  | _, _ => []
  end.

Lemma sieve_sublist {A} b vs (l : list A) : sieve b vs l `sublist_of` l.
Proof.
  revert l. induction vs as [|v vs IH]; intros [|x l]; cbn; [constructor|apply sublist_nil_l|constructor|].
  destruct (Bool.eqb v b); by constructor.
Qed.

Lemma sieve_elem {A} b vs (l : list A) x : x ∈ sieve b vs l ↔ ∃ i, vs !! i = Some b ∧ l !! i = Some x.
Proof.
  revert l. induction vs as [|v vs IH]; intros [|y l]; cbn.
  1-3: split; [by intros ?%elem_of_nil|intros (i & Hi & Hl); by destruct i].
  assert (Hcons : (∃ i, (v :: vs) !! i = Some b ∧ (y :: l) !! i = Some x) ↔
    (v = b ∧ y = x) ∨ ∃ i, vs !! i = Some b ∧ l !! i = Some x).
  { split.
    - intros ([|i] & Hi & Hl); cbn in *; [left; by simplify_eq|right; by exists i].
    - intros [[-> ->]|(i & Hi & Hl)]; [by exists 0%nat|by exists (S i)]. }
  rewrite Hcons. destruct (Bool.eqb v b) eqn:E.
  - apply eqb_prop in E as ->. rewrite elem_of_cons, IH. naive_solver.
  - rewrite IH. apply eqb_false_iff in E. naive_solver.
Qed.

Lemma applyStaged_ok u d : table_ok d → table_ok (applyStagedDestination u d).2 ∧ keeps d (applyStagedDestination u d).2.
Proof.
  intros Hd. unfold applyStagedDestination.
  pose proof (store_ok _ d Hd (well_scoped_plain (sd_dimensions u) (sd_range u))).
  pose proof (store_keeps (plainRecord (sd_dimensions u) (sd_range u)) d (proj1 Hd) (well_scoped_plain _ _)).
  by destruct (storeLocked _ d).
Qed.

Section completion.
Context {W : Type} (target : mtp3RestartTarget W).

Lemma completeOne_split u acc d w :
  table_ok d →
  let '(acc', d', _) := completeOne target u acc d w in
  ∃ verdict : bool,
    outstanding acc' = outstanding acc ++ (if verdict then [] else [u]) ∧
    done_ acc' = done_ acc ++ (if verdict then [sd_range u] else []) ∧
    table_ok d' ∧ keeps d d' ∧
    (verdict = true → ∃ w, ssnmDeliveryResult (t_publish target [u] true w).1 = []).
Proof.
  intros Hd. unfold completeOne. pose proof (retain_ok [sd_range u] false d Hd) as [Hd1 Hk1].
  destruct (retainMTP3RestartIsolation [sd_range u] false d) as [[e|] d1]; cbn [snd] in Hd1, Hk1.
  { exists false. cbn. rewrite app_nil_r. by destruct Hd1. }
  destruct (t_publish target [u] true w) as [o w1] eqn:Hpu. case_bool_decide as Hr.
  { exists false. cbn. rewrite app_nil_r. by destruct Hd1. }
  pose proof (applyStaged_ok u d1 Hd1) as [Hd2 Hk2].
  assert (Hk : ∀ d2, keeps d1 d2 → keeps d d2) by (intros d2 H2 k ?; by apply H2, Hk1).
  destruct (applyStagedDestination u d1) as [[e|] d2]; cbn [snd] in Hd2, Hk2.
  - exists false. cbn. rewrite app_nil_r. destruct Hd2. specialize (Hk d2 Hk2). done.
  - exists true. cbn. rewrite app_nil_r. destruct Hd2. specialize (Hk d2 Hk2).
    repeat split; try done. intros _. exists w. rewrite Hpu. cbn.
    destruct (ssnmDeliveryResult o); [done|by destruct Hr].
Qed.

(** What every completion does, whatever the outcomes: a destination ends up
    among those done, and then a publication of it failed for nobody, or stays
    among those outstanding. *)
Lemma completeLoop_split ups : ∀ acc d w,
  table_ok d →
  let '(acc', d', _) := completeLoop target ups acc d w in
  ∃ verdicts, length verdicts = length ups ∧
    outstanding acc' = outstanding acc ++ sieve false verdicts ups ∧
    done_ acc' = done_ acc ++ (sd_range <$> sieve true verdicts ups) ∧
    table_ok d' ∧ keeps d d' ∧
    ∀ u, u ∈ sieve true verdicts ups →
      ∃ w, ssnmDeliveryResult (t_publish target [u] true w).1 = [].
Proof.
  induction ups as [|u ups IH]; intros acc d w Hd.
  { cbn. exists []. cbn. rewrite !app_nil_r. repeat split; try apply Hd; [by intros k ?|].
    by intros u ?%elem_of_nil. }
  cbn [completeLoop]. pose proof (completeOne_split u acc d w Hd) as H1.
  destruct (completeOne target u acc d w) as [[acc1 d1] w1].
  destruct H1 as (v & Ho1 & Hdn1 & Hd1 & Hk1 & Hp1). specialize (IH acc1 d1 w1 Hd1).
  destruct (completeLoop target ups acc1 d1 w1) as [[acc' d'] w'].
  destruct IH as (vs & Hlen & Ho & Hdn & Hd' & Hk' & Hp). exists (v :: vs).
  rewrite Ho, Hdn, Ho1, Hdn1, <-!app_assoc. cbn [length sieve].
  split; [by rewrite Hlen|]. split; [by destruct v|]. split; [by destruct v|].
  split; [done|]. split; [intros k ?; by apply Hk', Hk1|].
  intros x. destruct v; cbn; [|apply Hp].
  intros [->|Hx]%elem_of_cons; [by apply Hp1|by apply Hp].
Qed.
End completion.

Section procedure.
Context {W : Type} (target : mtp3RestartTarget W).

(** What the code relies on: a prepared range is canonical. *)
Definition prepare_ok : Prop :=
  ∀ r r', t_prepare target r = inr r' → 0 ≤ dr_Mask r → canonical r'.

Lemma complete_ok gen R d w :
  registry_ok R → table_ok d →
  let '(_, R', d', _) := completeMTP3Restart target gen R d w in registry_ok R' ∧ table_ok d'.
Proof.
  intros HR Hd. unfold completeMTP3Restart. destruct (active R !! gen) as [e|] eqn:He; [|done].
  pose proof (completeLoop_split target (updates e) (mkCompletion [] [] (mkDelivery [] []) []) d w Hd) as Hs.
  destruct (completeLoop _ _ _ d w) as [[acc d'] w'].
  destruct Hs as (vs & Hlen & Ho & Hdn & Hd' & Hk & Hp). cbn [outstanding done_] in Ho, Hdn.
  destruct (0 <? len (outstanding acc)); [|split; [by apply deleteEpoch_ok|done]].
  split; [|done]. apply (setEpoch_ok _ _ e); [done..|].
  destruct (ro_epochs R HR _ _ He) as [Ha Hu Hk' Hc].
  split; cbn; [done| | |].
  - rewrite Ho. rewrite Forall_forall in Hu |- *. intros x Hx. apply Hu.
    eapply elem_of_sublist; [exact Hx|apply sieve_sublist].
  - rewrite Ho. eapply sublist_NoDup; [exact Hk'|]. apply (fmap_sublist _), sieve_sublist.
  - apply Forall_app. split; [done|]. rewrite Hdn. apply Forall_fmap, Forall_forall. intros x Hx.
    rewrite Forall_forall in Hu. apply (Hu x). eapply elem_of_sublist; [exact Hx|apply sieve_sublist].
Qed.

Definition apart (ranges : list destinationRange) : Prop :=
  ∀ i j a b, ranges !! i = Some a → ranges !! j = Some b → i ≠ j → overlap a b = false.

Lemma prepareAll_spec ds : ∀ prior rs,
  prepare_ok → Forall (λ d, 0 ≤ ad_Mask d) ds → Forall canonical prior → apart prior →
  prepareAll target prior ds = inr rs → Forall canonical rs ∧ apart rs.
Proof.
  induction ds as [|d ds IH]; intros prior rs Hok Hm Hp Hap; cbn [prepareAll].
  { by intros [= <-]. }
  inversion_clear Hm as [|? ? Hd Hds]. destruct (t_prepare target _) as [err|r] eqn:Hr; [done|].
  assert (canonical r) as Hc by by apply (Hok _ _ Hr).
  destruct (existsb _ prior) eqn:Hex; [done|]. apply IH; [done|done|by apply Forall_app_2; [|constructor]|].
  assert (Hno : ∀ p, p ∈ prior → overlap p r = false).
  { intros p Hin. apply not_true_iff_false. intros Ho. apply not_true_iff_false in Hex. apply Hex.
    apply existsb_exists. exists p. split; [by apply list_elem_of_In|done]. }
  intros i j a b [Hi|[? Hi]]%lookup_app_Some [Hj|[? Hj]]%lookup_app_Some Hne.
  - by apply (Hap i j).
  - apply list_lookup_singleton_Some in Hj as [_ <-]. by apply Hno, (list_elem_of_lookup_2 _ i).
  - apply list_lookup_singleton_Some in Hi as [_ <-]. rewrite overlap_sym.
    by apply Hno, (list_elem_of_lookup_2 _ j).
  - apply list_lookup_singleton_Some in Hi as [? <-], Hj as [? <-]. lia.
Qed.

(** Adding an epoch for ranges that meet no active one. *)
Lemma addEpoch_ok R gen ranges :
  registry_ok R → gen = generation R + 1 → Forall canonical ranges → apart ranges →
  overlapsActive R ranges = false →
  registry_ok (mkRegistry gen (<[gen := mkEpoch ranges [] [] false]> (active R))).
Proof.
  intros [H0 Hg He Hd] -> Hc Hap Hov. set (gen := generation R + 1).
  assert (Hfar : ∀ g e a b, active R !! g = Some e → a ∈ affected e → b ∈ ranges → overlap a b = false).
  { intros g e a b Hge Ha Hb. apply not_true_iff_false. intros Ho. apply not_true_iff_false in Hov. apply Hov.
    unfold overlapsActive. apply existsb_exists. exists (g, e).
    split; [by apply list_elem_of_In, elem_of_map_to_list|].
    apply existsb_exists. exists a. split; [by apply list_elem_of_In|].
    apply existsb_exists. exists b. split; [by apply list_elem_of_In|done]. }
  assert (Hat : ∀ g i a, affected_at (mkRegistry gen (<[gen := mkEpoch ranges [] [] false]> (active R))) g i = Some a →
    (g = gen ∧ ranges !! i = Some a) ∨ affected_at R g i = Some a).
  { intros g i a. unfold affected_at. cbn. destruct (decide (g = gen)) as [->|].
    - rewrite lookup_insert_eq. by left.
    - rewrite lookup_insert_ne by done. by right. }
  assert (Hin : ∀ g i a, affected_at R g i = Some a → ∃ e, active R !! g = Some e ∧ a ∈ affected e).
  { intros g i a (e & Hge & Hi)%bind_Some. exists e. split; [done|]. by eapply list_elem_of_lookup_2. }
  split; cbn.
  - lia.
  - intros g. destruct (decide (g = gen)) as [->|]; [lia|]. rewrite lookup_insert_ne by done.
    intros Hs%Hg. lia.
  - intros g e. destruct (decide (g = gen)) as [->|].
    + rewrite lookup_insert_eq. intros [= <-]. split; cbn; [done|constructor..].
    + rewrite lookup_insert_ne by done. apply He.
  - intros g g' i j a b Ha Hb Hne.
    destruct (Hat _ _ _ Ha) as [[-> Ha']|Ha'], (Hat _ _ _ Hb) as [[-> Hb']|Hb'].
    + apply (Hap i j); [done|done|congruence].
    + destruct (Hin _ _ _ Hb') as (e & He' & Hin'). rewrite overlap_sym.
      eapply Hfar; [done|done|by eapply list_elem_of_lookup_2].
    + destruct (Hin _ _ _ Ha') as (e & He' & Hin'). eapply Hfar; [done|done|by eapply list_elem_of_lookup_2].
    + by apply (Hd g g' i j).
Qed.

Lemma nextGeneration_small R :
  0 ≤ generation R < 2 ^ 64 - 1 → nextGeneration R = generation R + 1.
Proof.
  intros H. unfold nextGeneration, u64. rewrite Z.mod_small by lia.
  destruct (_ =? _) eqn:E; to_prop; lia.
Qed.

Lemma begin_ok ds R d w :
  prepare_ok → Forall (λ d, 0 ≤ ad_Mask d) ds → registry_ok R → table_ok d →
  generation R < 2 ^ 64 - 1 →
  let '(_, R', d', _) := beginMTP3Restart target ds R d w in registry_ok R' ∧ table_ok d'.
Proof.
  intros Hok Hm HR Hd Hg. unfold beginMTP3Restart. destruct (len ds =? 0); [done|].
  destruct (prepareAll target [] ds) as [err|ranges] eqn:Hp; [done|].
  destruct (t_closed target); [done|]. destruct (overlapsActive R ranges) eqn:Hov; [done|].
  destruct (prepareAll_spec ds [] ranges Hok Hm) as [Hc Hap]; [constructor|by intros ?|done|].
  pose proof (retain_ok ranges true d Hd) as [Hd' _].
  destruct (retainMTP3RestartIsolation ranges true d) as [[err|] d']; cbn [snd] in Hd'; [done|].
  destruct (t_publish target _ false w) as [o w']. split; [|done].
  apply addEpoch_ok; [done|apply nextGeneration_small; split; [apply HR|done]|done..].
Qed.

Lemma update_ok h dest s R d :
  prepare_ok → 0 ≤ ad_Mask dest → registry_ok R → table_ok d →
  let '(_, R', d') := Update target h dest s R d in registry_ok R' ∧ table_ok d'.
Proof.
  intros Hok Hm HR Hd. unfold Update. destruct (h_completed h); [done|].
  destruct (t_prepare target _) as [err|r] eqn:Hr; [done|].
  apply stageMTP3RestartRange_ok; [done|done|]. by apply (Hok _ _ Hr).
Qed.

End procedure.

(** ** The calls of an SGP's application, in any order *)

Inductive call : Set :=
| CAvailability (r : DestinationAvailabilityRequest)
| CCongestion (r : SignallingCongestionRequest)
| CUserPart (r : DestinationUserPartUnavailableRequest)
| CBegin (ds : list AffectedDestination)
| CUpdate (h : nat) (destination : AffectedDestination) (s : DestinationNetworkState)
| CComplete (h : nat)
| CForget
| CClose.

Definition isComplete (c : call) : bool := match c with CComplete _ => true | _ => false end.
Definition isClose (c : call) : bool := match c with CClose => true | _ => false end.

(** The handles are in the order in which the restarts began. *)
Record node : Type := mkNode { n_sgp : sgp; handles : list MTP3Restart }.

Definition newNode (destinationRecords : Z) : node := mkNode (newSGP destinationRecords) [].

Definition step (net : network) (c : call) (n : node) : node :=
  let g := n_sgp n in
  match c with
  | CAvailability r => mkNode (ReportDestinationAvailability net r g).2 (handles n)
  | CCongestion r => mkNode (EndpointSignallingCongestion net r g).2 (handles n)
  | CUserPart r => mkNode (EndpointDestinationUserPartUnavailable net r g).2 (handles n)
  | CBegin ds =>
      let '(r, g) := BeginMTP3Restart net ds g in
      mkNode g (match r with inl _ => handles n | inr (h, _) => handles n ++ [h] end)
  | CUpdate i destination s =>
      match handles n !! i with
      | Some h => mkNode (UpdateMTP3Restart net h destination s g).2 (handles n)
      | None => n
      end
  | CComplete i =>
      match handles n !! i with
      | Some h => let '(_, h, g) := CompleteMTP3Restart net h g in mkNode g (<[i := h]> (handles n))
      | None => n
      end
  | CForget => mkNode (ForgetDestinations g).2 (handles n)
  | CClose => mkNode (closeRestarts g) (handles n)
  end.

(** Masks are octets, so never negative. *)
Definition call_ok (c : call) : Prop :=
  match c with
  | CAvailability r => Forall (λ d, 0 ≤ Mask d) (ar_Destinations r)
  | CCongestion r => Forall (λ d, 0 ≤ Mask d) (cr_Destinations r)
  | CUserPart r => 0 ≤ Mask (ur_Destination r)
  | CBegin ds => Forall (λ d, 0 ≤ ad_Mask d) ds
  | CUpdate _ destination _ => 0 ≤ ad_Mask destination
  | CComplete _ | CForget | CClose => True
  end.

(** Fewer than 2^64 - 1 restarts have begun: the generations have not wrapped. *)
Inductive reachable : node → Prop :=
| reachable_new limit : limit < 2 ^ 63 → reachable (newNode limit)
| reachable_step net c n :
    reachable n → call_ok c → generation (g_registry (n_sgp n)) < 2 ^ 64 - 1 → reachable (step net c n).

Record node_ok (g : sgp) : Prop := mkNodeOk {
  no_registry : registry_ok (g_registry g);
  no_table : table_ok (g_table g);
}.

Lemma endpoint_prepare_ok net : prepare_ok (endpointTarget net).
Proof.
  intros r r'. cbn [t_prepare endpointTarget]. unfold prepareLocalDestinationRange. intros Hp Hm.
  destruct (negb _); [done|]. destruct (validateEndpointSSNMScope _ _); [done|].
  destruct (dr_NetworkAppearanceSet r); [injection Hp as <-; by apply normalize_canonical|].
  destruct (resolveEndpointSSNMNetworkAppearance _ _) as [|[v s]]; [done|].
  injection Hp as <-. by apply normalize_canonical.
Qed.

Lemma stageEach_ok rangeAt dims ds : ∀ kept records g,
  node_ok g → (∀ d, d ∈ ds → 0 ≤ dr_Mask (rangeAt d)) → node_ok (stageEach rangeAt dims ds kept records g).2.
Proof.
  induction ds as [|d ds IH]; intros kept records g [HR Hd] Hm; [done|]. cbn [stageEach].
  pose proof (stageAny_ok (mkStaged (normalizeDestinationRange (rangeAt d)) dims) (g_registry g) (g_table g) HR Hd)
    as Hs. cbn [sd_range] in Hs. specialize (Hs (normalize_canonical _ (Hm d ltac:(by left)))).
  destruct (stageAnyMTP3RestartRangeLocked _ _ _) as [[st R'] d']. destruct Hs as [HR' Hd'].
  assert (∀ x, x ∈ ds → 0 ≤ dr_Mask (rangeAt x)) by (intros x Hx; apply Hm; by right).
  destruct st as [e|[]]; [by split|apply IH; [by split|done]..].
Qed.

Lemma stageContexts_ok storage scoped ds s dims contexts : ∀ groups records g,
  node_ok g → Forall (λ d, 0 ≤ Mask d) ds →
  node_ok (stageContexts storage scoped ds s dims contexts groups records g).2.
Proof.
  induction contexts as [|rc contexts IH]; intros groups records g Hg Hm; [done|]. cbn [stageContexts].
  pose proof (stageEach_ok (statedRange storage scoped s rc) dims ds [] records g Hg) as Hs.
  destruct (stageEach _ _ _ _ _ _) as [r g']. cbn [snd] in Hs.
  assert (node_ok g') as Hg' by (apply Hs; intros d Hd; rewrite Forall_forall in Hm; by apply Hm).
  destruct r as [e|[kept records']]; [done|]. by apply IH.
Qed.

Lemma stageOrGroup_ok storage scoped ds s dims contexts g :
  node_ok g → Forall (λ d, 0 ≤ Mask d) ds →
  node_ok (stageOrGroupEndpointSSNM storage scoped ds s dims contexts g).2.
Proof.
  intros Hg Hm. unfold stageOrGroupEndpointSSNM.
  pose proof (stageContexts_ok storage scoped ds s dims contexts [] [] g Hg Hm) as Hs.
  destruct (stageContexts _ _ _ _ _ _ _ _ _) as [r g']. cbn [snd] in Hs.
  destruct r as [e|[groups records]]; [done|]. destruct Hs as [HR Hd].
  pose proof (storeAll_ok (statedRecord dims <$> records) (g_table g') Hd) as Ha.
  destruct (storeAll _ _) as [refused d]. cbn [snd] in *. split; cbn; [done|].
  apply Ha, Forall_fmap, Forall_forall. by intros.
Qed.

Lemma publishState_ok net scope ds s dims build g :
  node_ok g → Forall (λ d, 0 ≤ Mask d) ds →
  node_ok (publishEndpointDestinationState net scope ds s dims build g).2.
Proof.
  intros Hg Hm. unfold publishEndpointDestinationState. destruct (if Ssnm.NetworkAppearanceSet scope then _ else _) as [e|st]; [done|].
  pose proof (stageOrGroup_ok st (isScoped scope) ds s dims (if isScoped scope then Ssnm.RoutingContexts scope else [0]) g Hg Hm) as Hs.
  destruct (stageOrGroupEndpointSSNM _ _ _ _ _ _ _) as [[e|groups] g']; [done|]. cbn [snd] in Hs.
  destruct (publishGroups _ _ _ _ _ _) as [o w]. by destruct Hs.
Qed.

Lemma call_keeps_ok net c n :
  call_ok c → generation (g_registry (n_sgp n)) < 2 ^ 64 - 1 → node_ok (n_sgp n) → node_ok (n_sgp (step net c n)).
Proof.
  intros Hc Hgen Hg. pose proof Hg as [HR Hd]. destruct c as [r|r|r|ds|i dest s|i| |]; cbn [step].
  - unfold ReportDestinationAvailability. destruct (n_closed net); [done|].
    destruct (negb (validDestinationAvailability _)); [done|].
    destruct (prepareEndpointSSNM _ _ _ _); [done|]. by apply publishState_ok.
  - unfold EndpointSignallingCongestion. destruct (n_closed net); [done|].
    destruct (prepareEndpointSSNM _ _ _ _); [done|].
    destruct (buildSignallingCongestionParameters _ _) as [|[]]; [done|]. by apply publishState_ok.
  - unfold EndpointDestinationUserPartUnavailable. destruct (n_closed net); [done|].
    destruct (_ || _); [done|]. destruct (prepareEndpointSSNM _ _ _ _); [done|].
    destruct (fanoutEndpointSSNM _ _ _ _). by split.
  - unfold BeginMTP3Restart. destruct (n_closed net); [done|].
    pose proof (begin_ok (endpointTarget net) ds _ _ (g_wire (n_sgp n)) (endpoint_prepare_ok net) Hc HR Hd Hgen) as Hb.
    destruct (beginMTP3Restart _ _ _ _ _) as [[[r R'] d'] w'], Hb. by split.
  - destruct (handles n !! i) as [h|]; [|done]. unfold UpdateMTP3Restart.
    pose proof (update_ok (endpointTarget net) h dest s _ _ (endpoint_prepare_ok net) Hc HR Hd) as Hb.
    destruct (Update _ _ _ _ _ _) as [[err R'] d'], Hb. by split.
  - destruct (handles n !! i) as [h|]; [|done]. unfold CompleteMTP3Restart, Complete.
    destruct (h_completed h); [by split|].
    pose proof (complete_ok (endpointTarget net) (h_generation h) _ _ (g_wire (n_sgp n)) HR Hd) as Hb.
    destruct (completeMTP3Restart _ _ _ _ _) as [[[errs R'] d'] w'], Hb. by split.
  - split; [done|]. unfold ForgetDestinations. apply table_ok_forget in Hd.
    by destruct (forget (g_table (n_sgp n))).
  - split; [by apply invalidate_ok|done].
Qed.

Lemma reachable_node_ok n : reachable n → node_ok (n_sgp n).
Proof.
  induction 1 as [limit Hl|net c n _ IH Hc Hgen]; [|by apply call_keeps_ok].
  split; [apply registry_ok_new|by apply table_ok_new].
Qed.

(** C15: Restarts never meet: the ranges they affect are disjoint, within one restart
    and between restarts, whatever calls were made; what is staged lies in the
    restart it is staged in, once per range; and so the order in which a map of
    the restarts is visited never decides where a statement is staged. *)
Theorem restarts_are_disjoint n :
  reachable n →
  let R := g_registry (n_sgp n) in
  (∀ gen gen' i j a b,
     affected_at R gen i = Some a → affected_at R gen' j = Some b → (gen, i) ≠ (gen', j) →
     destinationRangesOverlap a b = false) ∧
  (∀ gen e, active R !! gen = Some e →
     NoDup ((λ u, destinationRangeKey (sd_range u)) <$> updates e) ∧
     ∀ u, u ∈ updates e → restartEpochCovers e (sd_range u) = true) ∧
  ∀ epochs staged d, 0 ≤ dr_Mask (sd_range staged) → epochs ≡ₚ map_to_list (active R) →
    stageAnyIn epochs staged R d = stageAnyMTP3RestartRangeLocked staged R d.
Proof.
  intros [HR _]%reachable_node_ok. cbn zeta. split; [apply (ro_disjoint _ HR)|]. split.
  - intros gen e He. destruct (ro_epochs _ HR gen e He) as [_ Hu Hk _]. split; [done|].
    intros u Hin. rewrite Forall_forall in Hu. by apply Hu.
  - intros epochs staged d Hm Hp. by apply stageAnyIn_order.
Qed.

(** ** When an isolation ends *)

(** The range a question is about. *)
Definition queryRange (scope : destinationKey) (pointCode mask : Z) : destinationRange :=
  mkRange (dk_networkAppearance scope) (dk_networkAppearanceSet scope) (dk_routingContext scope)
    (dk_routingContextSet scope) pointCode mask zeroNetworkState.

Definition forces (R : mtp3RestartRegistry) (gen : Z) (q : destinationRange) : Prop :=
  ∃ e, active R !! gen = Some e ∧ epochForcesUnavailable q e = true.

Lemma forced_spec R scope pc mask :
  restartForcesUnavailable R scope pc mask = true ↔ ∃ gen, forces R gen (queryRange scope pc mask).
Proof.
  unfold restartForcesUnavailable, forces. rewrite existsb_exists. split.
  - intros ([gen e] & Hin%list_elem_of_In%elem_of_map_to_list & Hf). by exists gen, e.
  - intros (gen & e & He & Hf). exists (gen, e).
    split; [by apply list_elem_of_In, elem_of_map_to_list|done].
Qed.

(** Restarts in progress stay as they are, apart from what is staged. *)
Definition isolation_kept (R R' : mtp3RestartRegistry) : Prop :=
  ∀ gen e, active R !! gen = Some e →
    ∃ e', active R' !! gen = Some e' ∧ affected e' = affected e ∧ completed e' = completed e.

#[export] Instance isolation_kept_preorder : PreOrder isolation_kept.
Proof.
  split; [intros R gen e He; by exists e|].
  intros R1 R2 R3 H1 H2 gen e He. destruct (H1 gen e He) as (e2 & He2 & Ha & Hc).
  destruct (H2 gen e2 He2) as (e3 & ? & ? & ?). exists e3. split; [done|]. split; congruence.
Qed.

Lemma kept_forces R R' gen q : isolation_kept R R' → forces R gen q → forces R' gen q.
Proof.
  intros Hk (e & He & Hf). destruct (Hk gen e He) as (e' & He' & Ha & Hc). exists e'. split; [done|].
  unfold epochForcesUnavailable in *. by rewrite Ha, Hc.
Qed.

Lemma stageIn_kept gen e u R d :
  active R !! gen = Some e → isolation_kept R (stageIn gen e u R d).1.2.
Proof.
  intros He. unfold stageIn. destruct (retainMTP3RestartIsolation _ _ d) as [[err|] d']; [done|].
  intros g x Hx. cbn. destruct (decide (g = gen)) as [->|].
  - rewrite lookup_insert_eq. eexists. split; [done|]. by simplify_eq.
  - rewrite lookup_insert_ne by done. by exists x.
Qed.

Lemma stageAny_kept u R d : isolation_kept R (stageAnyMTP3RestartRangeLocked u R d).1.2.
Proof.
  unfold stageAnyMTP3RestartRangeLocked, stageAnyIn. destruct (list_find _ _) as [[i [gen e]]|] eqn:Hf; [|done].
  apply list_find_Some in Hf as (Hi%list_elem_of_lookup_2%elem_of_map_to_list & _).
  pose proof (stageIn_kept gen e u R d Hi). by destruct (stageIn gen e u R d) as [[? ?] ?].
Qed.

Lemma stageEach_kept rangeAt dims ds : ∀ kept records g,
  isolation_kept (g_registry g) (g_registry (stageEach rangeAt dims ds kept records g).2).
Proof.
  induction ds as [|d ds IH]; intros kept records g; [done|]. cbn [stageEach].
  pose proof (stageAny_kept (mkStaged (normalizeDestinationRange (rangeAt d)) dims) (g_registry g) (g_table g)) as Hk.
  destruct (stageAnyMTP3RestartRangeLocked _ _ _) as [[st R'] d']. cbn [fst snd] in Hk.
  destruct st as [e|[]]; [done|etrans; [exact Hk|]; apply (IH _ _ (mkSGP R' d' (g_wire g)))..].
Qed.

Lemma stageContexts_kept storage scoped ds s dims contexts : ∀ groups records g,
  isolation_kept (g_registry g)
    (g_registry (stageContexts storage scoped ds s dims contexts groups records g).2).
Proof.
  induction contexts as [|rc contexts IH]; intros groups records g; [done|]. cbn [stageContexts].
  pose proof (stageEach_kept (statedRange storage scoped s rc) dims ds [] records g) as Hk.
  destruct (stageEach _ _ _ _ _ _) as [r g']. cbn [snd] in Hk.
  destruct r as [e|[kept records']]; [done|]. etrans; [exact Hk|apply IH].
Qed.

Lemma publishState_kept net scope ds s dims build g :
  isolation_kept (g_registry g)
    (g_registry (publishEndpointDestinationState net scope ds s dims build g).2).
Proof.
  unfold publishEndpointDestinationState. destruct (if Ssnm.NetworkAppearanceSet scope then _ else _) as [e|st]; [done|].
  unfold stageOrGroupEndpointSSNM.
  pose proof (stageContexts_kept st (isScoped scope) ds s dims
    (if isScoped scope then Ssnm.RoutingContexts scope else [0]) [] [] g) as Hk.
  destruct (stageContexts _ _ _ _ _ _ _ _ _) as [r g']. cbn [snd] in Hk.
  destruct r as [e|[groups records]]; [done|].
  destruct (storeAll _ _) as [refused d]. destruct (recordLimitErrorLocked refused); [done|].
  by destruct (publishGroups _ _ _ _ _ _) as [o w].
Qed.

Lemma begin_kept {W} (target : mtp3RestartTarget W) ds R d w :
  registry_ok R → generation R < 2 ^ 64 - 1 →
  isolation_kept R (beginMTP3Restart target ds R d w).1.1.2.
Proof.
  intros HR Hg. unfold beginMTP3Restart. destruct (len ds =? 0); [done|].
  destruct (prepareAll target [] ds) as [err|ranges]; [done|].
  destruct (t_closed target), (overlapsActive R ranges); try done.
  destruct (retainMTP3RestartIsolation ranges true d) as [[err|] d']; [done|].
  destruct (t_publish target _ false w) as [o w']. cbn. intros gen e He.
  rewrite nextGeneration_small by (split; [apply HR|done]). cbn.
  rewrite lookup_insert_ne; [by exists e|].
  assert (0 < gen ≤ generation R) by (apply (ro_generations R HR); by eexists). lia.
Qed.

(** The effect of a completion on the isolation of a range. *)
Lemma complete_forces {W} (target : mtp3RestartTarget W) gen R d w gen' q :
  table_ok d → forces R gen' q →
  let R' := (completeMTP3Restart target gen R d w).1.1.2 in
  forces R' gen' q ∨
  gen = gen' ∧ ∃ e, active R !! gen = Some e ∧
    ((∃ u w, u ∈ updates e ∧ contains (sd_range u) q = true ∧
             ssnmDeliveryResult (t_publish target [u] true w).1 = []) ∨
     active R' !! gen = None ∧
     ∀ u, u ∈ updates e → ∃ w, ssnmDeliveryResult (t_publish target [u] true w).1 = []).
Proof.
  intros Hd (e & He & Hf). unfold completeMTP3Restart.
  destruct (active R !! gen) as [e0|] eqn:He0; [|by left; exists e].
  pose proof (completeLoop_split target (updates e0) (mkCompletion [] [] (mkDelivery [] []) []) d w Hd) as Hs.
  destruct (completeLoop _ _ _ d w) as [[acc d'] w'].
  destruct Hs as (vs & Hlen & Ho & Hdn & _ & _ & Hp). cbn [outstanding done_ app] in Ho, Hdn.
  destruct (decide (gen = gen')) as [->|Hne].
  2:{ left. exists e. split; [|done].
      destruct (0 <? len (outstanding acc)); cbn; by rewrite ?lookup_insert_ne, ?lookup_delete_ne. }
  assert (e0 = e) as -> by congruence. destruct (0 <? len (outstanding acc)) eqn:Hl; cbn.
  - destruct (existsb (λ c, contains c q) (done_ acc)) eqn:Hdone.
    + right. split; [done|]. exists e. split; [done|]. left.
      apply existsb_exists in Hdone as (r & Hin%list_elem_of_In & Hc). rewrite Hdn in Hin.
      apply list_elem_of_fmap in Hin as (u & -> & Hu). destruct (Hp u Hu) as [w0 Hw].
      exists u, w0. split; [|done]. eapply elem_of_sublist; [exact Hu|apply sieve_sublist].
    + left. eexists. split; [apply lookup_insert_eq|]. unfold epochForcesUnavailable in *. cbn.
      by rewrite existsb_app, Hdone, orb_false_r.
  - right. split; [done|]. exists e. split; [done|]. right. split; [apply lookup_delete_eq|].
    intros u Hu. apply Hp. to_prop. assert (outstanding acc = []) as Hnil by (apply len_0_nil; pose proof (len_nonneg (outstanding acc)); lia).
    rewrite Ho in Hnil. apply sieve_elem. destruct (list_elem_of_lookup_1 _ _ Hu) as [i Hi].
    destruct (vs !! i) as [[]|] eqn:Hv.
    + by exists i.
    + assert (u ∈ sieve false vs (updates e)) as Hin by (apply sieve_elem; by exists i).
      rewrite Hnil in Hin. by apply elem_of_nil in Hin.
    + apply lookup_lt_Some in Hi. apply lookup_ge_None in Hv. lia.
Qed.

(** The calls that end no isolation. *)
Lemma step_kept net c n :
  node_ok (n_sgp n) → generation (g_registry (n_sgp n)) < 2 ^ 64 - 1 →
  isComplete c = false → isClose c = false →
  isolation_kept (g_registry (n_sgp n)) (g_registry (n_sgp (step net c n))).
Proof.
  intros [HR Hd] Hgen Hnc Hne. destruct c as [r|r|r|ds|i dest s|i| |]; cbn [step n_sgp].
  - unfold ReportDestinationAvailability. destruct (n_closed net); [done|].
    destruct (negb (validDestinationAvailability _)); [done|].
    destruct (prepareEndpointSSNM _ _ _ _); [done|]. apply publishState_kept.
  - unfold EndpointSignallingCongestion. destruct (n_closed net); [done|].
    destruct (prepareEndpointSSNM _ _ _ _); [done|].
    destruct (buildSignallingCongestionParameters _ _) as [|[]]; [done|]. apply publishState_kept.
  - unfold EndpointDestinationUserPartUnavailable. destruct (n_closed net); [done|].
    destruct (_ || _); [done|]. destruct (prepareEndpointSSNM _ _ _ _); [done|].
    by destruct (fanoutEndpointSSNM _ _ _ _).
  - unfold BeginMTP3Restart. destruct (n_closed net); [done|].
    pose proof (begin_kept (endpointTarget net) ds _ (g_table (n_sgp n)) (g_wire (n_sgp n)) HR Hgen) as Hk.
    by destruct (beginMTP3Restart _ _ _ _ _) as [[[r R'] d'] w'].
  - destruct (handles n !! i) as [h|]; [|done]. unfold UpdateMTP3Restart, Update.
    destruct (h_completed h); [done|]. destruct (t_prepare _ _) as [err|r]; [done|].
    unfold stageMTP3RestartRange. destruct (active _ !! _) as [e|] eqn:He; [|done].
    destruct (negb _); [done|].
    match goal with |- context [stageIn ?g ?e ?u ?R ?d] => pose proof (stageIn_kept g e u R d He) as Hk;
      by destruct (stageIn g e u R d) as [[? ?] ?] end.
  - done.
  - unfold ForgetDestinations. by destruct (forget _).
  - done.
Qed.

(** C13: While a restart isolates a destination, an audit of it answers unavailable,
    without congestion; and the isolation ends only with the registry, or by a
    completion of this restart in which the recovery of a range around the
    destination failed for nobody it was sent to, or in which that is so of all
    that was staged and the restart is over. *)
Theorem isolation_ends_by_completion net c n gen scope pc mask :
  reachable n → call_ok c → generation (g_registry (n_sgp n)) < 2 ^ 64 - 1 →
  let q := queryRange scope pc mask in
  forces (g_registry (n_sgp n)) gen q →
  let n' := step net c n in
  let delivered u w := ssnmDeliveryResult (publishDestinationRanges net [u] true w).1 = [] in
  auditState scope pc mask (n_sgp n) = mkNetworkState DestinationUnavailable noCongestion ∧
  (forces (g_registry (n_sgp n')) gen q ∨ c = CClose ∨
   ∃ i h e, c = CComplete i ∧ handles n !! i = Some h ∧ h_generation h = gen ∧
     active (g_registry (n_sgp n)) !! gen = Some e ∧
     ((∃ u w, u ∈ updates e ∧ destinationRangeContains (sd_range u) q = true ∧ delivered u w) ∨
      active (g_registry (n_sgp n')) !! gen = None ∧ ∀ u, u ∈ updates e → ∃ w, delivered u w)).
Proof.
  intros Hn Hc Hgen q Hf n' delivered. split.
  { unfold auditState. rewrite (proj2 (forced_spec _ _ _ _)); [done|by exists gen]. }
  pose proof (reachable_node_ok n Hn) as Hok. unfold n'.
  destruct (isClose c) eqn:Hne; [right; left; by destruct c|].
  destruct (isComplete c) eqn:Hnc.
  2:{ left. eapply kept_forces; [|exact Hf]. by apply step_kept. }
  destruct c as [| | | | |i| |]; try done.
  cbn [step]. destruct (handles n !! i) as [h|] eqn:Hh; [|by left]. unfold CompleteMTP3Restart, Complete.
  destruct (h_completed h); [by left|].
  pose proof (complete_forces (endpointTarget net) (h_generation h) _ _ (g_wire (n_sgp n)) gen q
    (no_table _ Hok) Hf) as Hk.
  destruct (completeMTP3Restart _ _ _ _ _) as [[[errs R'] d'] w']. cbn in Hk |- *.
  destruct Hk as [Hk|(<- & e & He & Hk)]; [by left|]. right. right. by exists i, h, e.
Qed.

(** ** What a completion publishes and records *)

Lemma scopeMatches_plain dims r scope pc mask :
  canonical r →
  destinationRecordScopeMatches (plainRecord dims r) scope = true ↔ scopeWithin (queryRange scope pc mask) r.
Proof.
  intros [Hn _]. unfold destinationRecordScopeMatches, plainRecord. cbn [routingContexts rangeValue].
  rewrite Hn. change (len [] =? 0) with true. cbn [negb].
  unfold destinationScopeMatches, scopeWithin. rewrite sameAppearance_spec. cbn.
  destruct (dr_NetworkAppearance r =? dk_networkAppearance scope) eqn:E1; cbn; to_prop; [|naive_solver].
  destruct (Bool.eqb (dr_NetworkAppearanceSet r) (dk_networkAppearanceSet scope)) eqn:E2; cbn.
  2:{ apply eqb_false_iff in E2. naive_solver. }
  apply eqb_prop in E2. destruct (dr_RoutingContextSet r); cbn; [|naive_solver].
  rewrite andb_true_iff, Z.eqb_eq. naive_solver.
Qed.

(** A record concerns what lies in its range. *)
Lemma concerns_contains dims r scope pc mask :
  canonical r → concerns scope pc mask (plainRecord dims r) = contains r (queryRange scope pc mask).
Proof.
  intros Hc. apply eq_true_iff_eq. rewrite contains_spec. unfold concerns.
  rewrite andb_true_iff, (scopeMatches_plain dims r scope pc mask Hc).
  unfold plainRecord. cbn [rangeValue]. by rewrite (proj1 Hc).
Qed.

Lemma contains_trans a b c :
  0 ≤ dr_Mask a → 0 ≤ dr_Mask b → contains a b = true → contains b c = true → contains a c = true.
Proof.
  intros Ha Hb [[Hs1 Hr1] Hc1]%contains_spec [[Hs2 Hr2] Hc2]%contains_spec. apply contains_spec.
  split; [split|by eapply (covers_trans a b)].
  - apply sameAppearance_spec in Hs1 as [? ?], Hs2 as [? ?]. apply sameAppearance_spec. split; congruence.
  - intros H. destruct (Hr1 H) as [Hb' ->]. by apply Hr2.
Qed.

(** Recording the destinations of a completion. *)
Definition applyAll (us : list stagedDestination) (d : destinations) : destinations :=
  foldl (λ d u, (applyStagedDestination u d).2) d us.

Definition key_held (d : destinations) (u : stagedDestination) : Prop :=
  canonical (sd_range u) ∧ is_Some (d_state d !! destinationRangeKey (sd_range u)).

Lemma apply_held u d : table_ok d → key_held d u → (applyStagedDestination u d).1 = None.
Proof.
  intros Hd [Hc Hk]. unfold applyStagedDestination.
  pose proof (store_held (plainRecord (sd_dimensions u) (sd_range u)) d) as Hs.
  rewrite key_plain in Hs by done. specialize (Hs Hk). by destruct (storeLocked _ d) as [[] ?].
Qed.

(** What the table answers once a held destination has been recorded. *)
Lemma apply_one_lookup u d scope pc mask :
  table_ok d → key_held d u →
  let before := lookupRange scope pc mask d in
  let after := lookupRange scope pc mask (applyStagedDestination u d).2 in
  if contains (sd_range u) (queryRange scope pc mask) then
    after.2 = true ∧
    (carries (sd_dimensions u) destinationAvailabilityDimension = true →
     ns_Availability after.1 = ns_Availability (dr_State (sd_range u))) ∧
    (carries (sd_dimensions u) destinationCongestionDimension = true →
     ns_Congestion after.1 = ns_Congestion (dr_State (sd_range u)))
  else after = before.
Proof.
  intros Hd [Hc Hk]. set (r := plainRecord (sd_dimensions u) (sd_range u)).
  assert (Hkey : destinationRecordKey r = destinationRangeKey (sd_range u)) by by apply key_plain.
  assert (Hs : (storeLocked r d).1 = true) by (apply store_held; by rewrite Hkey).
  pose proof (stored_lookup d r scope pc mask (proj1 Hd) (well_scoped_plain _ _) Hs) as Hl.
  rewrite Hkey, (concerns_contains _ _ _ _ _ Hc : concerns scope pc mask r = _) in Hl.
  destruct Hk as [held Hh]. rewrite Hh in Hl. cbn zeta in *.
  assert ((applyStagedDestination u d).2 = (storeLocked r d).2) as ->.
  { unfold applyStagedDestination. fold r. by destruct (storeLocked r d). }
  rewrite Hl. destruct (contains (sd_range u) _); [|done].
  assert (Hst : dr_State (rangeValue r) = dr_State (sd_range u)) by done.
  split; [done|]. cbn [fst snd ns_Availability ns_Congestion].
  change (dimensions (restate r held)) with (Z.lor (sd_dimensions u) (dimensions held)).
  rewrite !carries_lor. split; intros Hcar; rewrite Hcar; cbn [orb]; unfold restate; cbn -[carries];
    by rewrite Hcar.
Qed.

Lemma applyAll_lookup us : ∀ d scope pc mask k u,
  table_ok d → Forall (key_held d) us → us !! k = Some u →
  contains (sd_range u) (queryRange scope pc mask) = true →
  (∀ j u', (k < j)%nat → us !! j = Some u' → contains (sd_range u') (queryRange scope pc mask) = false) →
  let after := lookupRange scope pc mask (applyAll us d) in
  after.2 = true ∧
  (carries (sd_dimensions u) destinationAvailabilityDimension = true →
   ns_Availability after.1 = ns_Availability (dr_State (sd_range u))) ∧
  (carries (sd_dimensions u) destinationCongestionDimension = true →
   ns_Congestion after.1 = ns_Congestion (dr_State (sd_range u))).
Proof.
  assert (Hquiet : ∀ us d scope pc mask, table_ok d → Forall (key_held d) us →
    (∀ j u', us !! j = Some u' → contains (sd_range u') (queryRange scope pc mask) = false) →
    lookupRange scope pc mask (applyAll us d) = lookupRange scope pc mask d).
  { clear us. induction us as [|u us IH]; intros d scope pc mask Hd Hh Hn; [done|].
    inversion_clear Hh as [|? ? Hu Hus]. cbn [applyAll foldl].
    destruct (applyStaged_ok u d Hd) as [Hd1 Hk1].
    rewrite (IH (applyStagedDestination u d).2); [|done| |by intros j u' Hj; apply (Hn (S j))].
    - pose proof (apply_one_lookup u d scope pc mask Hd Hu) as H1. by rewrite (Hn 0%nat u eq_refl) in H1.
    - eapply Forall_impl; [exact Hus|]. intros x [? ?]. split; [done|by apply Hk1]. }
  induction us as [|x us IH]; intros d scope pc mask k u Hd Hh Hk Hc Hn; [done|].
  inversion_clear Hh as [|? ? Hx Hus]. cbn [applyAll foldl].
  destruct (applyStaged_ok x d Hd) as [Hd1 Hk1].
  assert (Hus' : Forall (key_held (applyStagedDestination x d).2) us).
  { eapply Forall_impl; [exact Hus|]. intros y [? ?]. split; [done|by apply Hk1]. }
  destruct k as [|k]; cbn in Hk.
  - injection Hk as ->. cbn zeta. pose proof (apply_one_lookup u d scope pc mask Hd Hx) as H1.
    rewrite Hc in H1. cbn zeta in H1.
    change (foldl (λ d u, (applyStagedDestination u d).2) (applyStagedDestination u d).2 us)
      with (applyAll us (applyStagedDestination u d).2).
    rewrite Hquiet; [done|done|done|]. intros j u' Hj. apply (Hn (S j)); [lia|done].
  - apply (IH (applyStagedDestination x d).2 scope pc mask k u); [done..|].
    intros j u' Hlt Hj. apply (Hn (S j)); [lia|done].
Qed.

(** The publications of a completion when nothing is refused: each destination
    once, in the order of staging. *)
Fixpoint publications {W} (target : mtp3RestartTarget W) (ups : list stagedDestination) (w : W)
    : list (option SSNMDeliveryError) * W :=
  match ups with
  | [] => ([], w)
  | u :: ups =>
      let '(o, w) := t_publish target [u] true w in
      let '(os, w) := publications target ups w in (o :: os, w)
  end.

(** Whether a publication failed for nobody. *)
Definition delivered (o : option SSNMDeliveryError) : bool := bool_decide (ssnmDeliveryResult o = []).

Lemma completeLoop_held {W} (target : mtp3RestartTarget W) ups : ∀ acc d w,
  table_ok d → Forall (key_held d) ups →
  let '(os, w') := publications target ups w in
  let vs := delivered <$> os in
  completeLoop target ups acc d w =
    (mkCompletion (outstanding acc ++ sieve false vs ups) (done_ acc ++ (sd_range <$> sieve true vs ups))
       (foldl mergeSSNMDeliveryOutcome (failure acc) os) (retentionFailure acc),
     applyAll (sieve true vs ups) d, w').
Proof.
  induction ups as [|u ups IH]; intros acc d w Hd Hh.
  { cbn. rewrite !app_nil_r. by destruct acc. }
  inversion_clear Hh as [|? ? Hu Hus]. cbn [publications completeLoop]. unfold completeOne.
  rewrite retain_held by (done || apply Hu).
  destruct (t_publish target [u] true w) as [o w1].
  pose proof (applyStaged_ok u d Hd) as [Hd2 Hk2]. pose proof (apply_held u d Hd Hu) as Hnone.
  destruct (publications target ups w1) as [os w'] eqn:Hp. cbn [fmap list_fmap sieve foldl].
  unfold delivered at 1 4 7. case_bool_decide as Hr.
  - rewrite bool_decide_false by done. cbn [Bool.eqb].
    specialize (IH (acc <| failure ::= λ f, mergeSSNMDeliveryOutcome f o |> <| outstanding ::= λ l, l ++ [u] |>) d w1 Hd Hus).
    rewrite Hp in IH. cbn zeta in IH. rewrite IH. cbn. by rewrite <-app_assoc.
  - rewrite bool_decide_true by (by destruct (ssnmDeliveryResult o); [|destruct Hr]). cbn [Bool.eqb].
    destruct (applyStagedDestination u d) as [err d2] eqn:Ha. cbn [fst snd] in *. subst err.
    assert (Hus' : Forall (key_held d2) ups).
    { eapply Forall_impl; [exact Hus|]. intros x [? ?]. split; [done|by apply Hk2]. }
    specialize (IH (acc <| failure ::= λ f, mergeSSNMDeliveryOutcome f o |> <| done_ ::= λ l, l ++ [sd_range u] |>) d2 w1 Hd2 Hus').
    rewrite Hp in IH. cbn zeta in IH. rewrite IH. cbn. rewrite <-app_assoc, Ha. done.
Qed.

(** A range within an epoch is forced by no other. *)
Lemma not_forced_elsewhere R gen gen' e r q :
  registry_ok R → active R !! gen = Some e → canonical r → 0 ≤ dr_Mask q →
  restartEpochCovers e r = true → contains r q = true → gen ≠ gen' → ¬ forces R gen' q.
Proof.
  intros HR He [_ Hm] Hq Hcov Hrq Hne (e' & He' & Hf).
  unfold epochForcesUnavailable in Hf. apply andb_true_iff in Hf as [Hf _].
  apply existsb_exists in Hf as (b & Hb%list_elem_of_In & Hov).
  unfold restartEpochCovers in Hcov. apply existsb_exists in Hcov as (a & Ha%list_elem_of_In & Hca).
  destruct (list_elem_of_lookup_1 _ _ Ha) as [i Hi], (list_elem_of_lookup_1 _ _ Hb) as [j Hj].
  pose proof (ro_epochs R HR _ _ He) as [Hae _ _ _]. pose proof (ro_epochs R HR _ _ He') as [Hbe _ _ _].
  rewrite Forall_forall in Hae, Hbe. destruct (Hae a Ha) as [_ Hma], (Hbe b Hb) as [_ Hmb].
  assert (overlap a b = false) as Hno.
  { apply (ro_disjoint R HR gen gen' i j); unfold affected_at; rewrite ?He, ?He'; [done..|congruence]. }
  rewrite (contains_overlap a b q) in Hno; [done..| |done]. by apply (contains_trans a r).
Qed.

Lemma published_registry {W} (target : mtp3RestartTarget W) gen e R d w :
  active R !! gen = Some e → table_ok d → Forall (key_held d) (updates e) →
  let '(os, w') := publications target (updates e) w in
  let vs := delivered <$> os in
  completeMTP3Restart target gen R d w =
    ((if bool_decide (sieve false vs (updates e) = []) then []
      else [ErrDelivery (foldl mergeSSNMDeliveryOutcome (mkDelivery [] []) os)]),
     (if bool_decide (sieve false vs (updates e) = []) then R <| active ::= delete gen |>
      else setEpoch gen (mkEpoch (affected e) (sieve false vs (updates e))
                           (completed e ++ (sd_range <$> sieve true vs (updates e))) true) R),
     applyAll (sieve true vs (updates e)) d, w').
Proof.
  intros He Hd Hh. unfold completeMTP3Restart. rewrite He.
  pose proof (completeLoop_held target (updates e) (mkCompletion [] [] (mkDelivery [] []) []) d w Hd Hh) as Hl.
  destruct (publications target (updates e) w) as [os w']. cbn zeta in *. rewrite Hl.
  cbn [outstanding done_ failure retentionFailure app].
  destruct (sieve false (delivered <$> os) (updates e)) as [|x l] eqn:Hs.
  - change (0 <? len (@nil stagedDestination)) with false. by rewrite !bool_decide_true.
  - rewrite len_cons. assert ((0 <? 1 + len l) = true) as -> by (pose proof (len_nonneg l); lia).
    by rewrite (bool_decide_false (x :: l = [])), bool_decide_true.
Qed.

(** C14: A completion settles each staged destination on its own.  It publishes each
    once, in the order of staging.  Those whose publication failed for somebody
    stay staged, in order, and the call names the failures; when there are none
    the restart is over.  A destination whose publication failed for nobody is
    answered, at once, with the state that was staged, in the dimensions that
    were staged, unless a later one of the same completion concerns it too. *)
Theorem completion_settles_each_destination net n i h e :
  reachable n → handles n !! i = Some h → h_completed h = false →
  active (g_registry (n_sgp n)) !! h_generation h = Some e →
  Forall (λ u, is_Some (d_state (g_table (n_sgp n)) !! destinationRangeKey (sd_range u))) (updates e) →
  let '(errs, h', g') := CompleteMTP3Restart net h (n_sgp n) in
  let '(outcomes, w') := publications (endpointTarget net) (updates e) (g_wire (n_sgp n)) in
  let verdicts := delivered <$> outcomes in
  let failed := sieve false verdicts (updates e) in
  g_wire g' = w' ∧
  (if bool_decide (failed = []) then
     errs = [] ∧ h_completed h' = true ∧ active (g_registry g') !! h_generation h = None
   else
     errs = [ErrDelivery (foldl mergeSSNMDeliveryOutcome (mkDelivery [] []) outcomes)] ∧ h' = h ∧
     active (g_registry g') !! h_generation h =
       Some (mkEpoch (affected e) failed
               (completed e ++ (sd_range <$> sieve true verdicts (updates e))) true)) ∧
  ∀ k u scope pc mask,
    let concerned v := destinationRangeContains (sd_range v) (queryRange scope pc mask) in
    sieve true verdicts (updates e) !! k = Some u → concerned u = true → 0 ≤ mask →
    (∀ j v, (k < j)%nat → sieve true verdicts (updates e) !! j = Some v → concerned v = false) →
    (carries (sd_dimensions u) destinationAvailabilityDimension = true →
     ns_Availability (auditState scope pc mask g') = ns_Availability (dr_State (sd_range u))) ∧
    (carries (sd_dimensions u) destinationCongestionDimension = true →
     ns_Congestion (auditState scope pc mask g') = ns_Congestion (dr_State (sd_range u))).
Proof.
  intros [HR Hd]%reachable_node_ok _ Hh He Hheld. pose proof (ro_epochs _ HR _ _ He) as [_ Hu _ _].
  assert (Hkeys : Forall (key_held (g_table (n_sgp n))) (updates e)).
  { rewrite Forall_forall in Hu, Hheld |- *. intros u Hin. split; [by apply Hu|by apply Hheld]. }
  unfold CompleteMTP3Restart, Complete. rewrite Hh.
  pose proof (published_registry (endpointTarget net) (h_generation h) e (g_registry (n_sgp n))
    (g_table (n_sgp n)) (g_wire (n_sgp n)) He Hd Hkeys) as Hc.
  destruct (publications _ _ _) as [os w']. cbn zeta in Hc. rewrite Hc. clear Hc.
  set (vs := delivered <$> os). set (failed := sieve false vs (updates e)).
  cbn [g_wire g_registry]. split; [done|]. split.
  { destruct (bool_decide (failed = [])); cbn; [by rewrite lookup_delete_eq|by rewrite lookup_insert_eq]. }
  intros k u scope pc mask Hk Hcon Hm Hlast.
  assert (Hin : u ∈ updates e).
  { eapply elem_of_sublist; [by eapply list_elem_of_lookup_2|apply sieve_sublist]. }
  rewrite Forall_forall in Hu. destruct (Hu u Hin) as [Hcu Hcov].
  pose proof (applyAll_lookup (sieve true vs (updates e)) (g_table (n_sgp n)) scope pc mask k u Hd) as Hl.
  destruct Hl as (Hkn & Hav & Hcg); [|done..|].
  { apply Forall_forall. intros x Hx. rewrite Forall_forall in Hkeys. apply Hkeys.
    eapply elem_of_sublist; [exact Hx|apply sieve_sublist]. }
  unfold auditState. cbn [g_registry g_table].
  replace (restartForcesUnavailable _ scope pc mask) with false; [by destruct (lookupRange _ _ _ _) as [s []]|].
  symmetry. apply not_true_iff_false. rewrite forced_spec. intros (gen & Hf).
  assert (Hother : gen ≠ h_generation h → False).
  { intros Hne. apply (not_forced_elsewhere _ (h_generation h) gen e (sd_range u)
      (queryRange scope pc mask) HR He Hcu Hm Hcov Hcon);
      [congruence|]. destruct Hf as (e' & He' & Hf). exists e'. split; [|done].
    destruct (bool_decide (failed = [])); cbn in He'; by rewrite ?lookup_delete_ne, ?lookup_insert_ne in He'. }
  destruct (decide (gen = h_generation h)) as [->|]; [|by apply Hother].
  destruct Hf as (e' & He' & Hf). destruct (bool_decide (failed = [])); cbn in He'.
  { by rewrite lookup_delete_eq in He'. }
  rewrite lookup_insert_eq in He'. injection He' as <-. unfold epochForcesUnavailable in Hf.
  apply andb_true_iff in Hf as [_ Hf]. apply negb_true_iff, not_true_iff_false in Hf. apply Hf.
  cbn [completed]. rewrite existsb_app. apply orb_true_iff. right. apply existsb_exists. exists (sd_range u).
  split; [|done]. apply list_elem_of_In, list_elem_of_fmap. exists u.
  split; [done|by eapply list_elem_of_lookup_2].
Qed.

(** ** Concrete runs *)

Module Concrete.
(** One Application Server, of Routing Context 9 and no Network Appearance, and
    one Association that is active in it. *)
Definition server9 : ASKey := Inventory.mkASKey 0 false 9 true.
Definition sgpConfig : AssociationConfig :=
  mkAssociationConfig RoleSGP None None [mkASConfig server9 0] None true false 3.
Definition servedBy1 : serving :=
  mkServing false
    {[ server9 := (newApplicationServer server9 (mkActivationPolicy 0 false) 0)
                    <| AppServer.state := ASActive |> <| AppServer.active := [1%nat] |> ]}
    {[ 1%nat := newAssociation sgpConfig ]}.

(** The network in which the fan-outs in [bad] fail. *)
Definition net (bad : list nat) : network :=
  mkNetwork false servedBy1 (λ _, servedBy1)
    (λ k _, if bool_decide (k ∈ bad) then Some ErrWrite else None).

Definition dest (pc mask : Z) : AffectedDestination := mkAffected 0 false 9 true pc mask.
Definition scope9 : destinationKey := mkDestinationKey 0 false 9 true [] 0 0.
Definition is_now (availability : Z) : DestinationNetworkState := mkNetworkState availability noCongestion.

Definition runs (cs : list (network * call)) (n : node) : node := foldl (λ n c, step c.1 c.2 n) n cs.

(** The point codes 0 to 255 restart; 5 and 16 to 31 have recovered. *)
Definition begun : list (network * call) :=
  [(net [], CBegin [dest 0 8]);
   (net [], CUpdate 0 (dest 5 0) (is_now DestinationRestricted));
   (net [], CUpdate 0 (dest 16 4) (is_now DestinationAvailable));
   (net [], CUpdate 0 (dest 5 0) (is_now DestinationAvailable))].

Definition restarting : node := runs begun (newNode 0).

Fixpoint unwrapped (cs : list (network * call)) (n : node) : bool :=
  match cs with
  | [] => true
  | c :: cs => (generation (g_registry (n_sgp n)) <? 2 ^ 64 - 1) && unwrapped cs (step c.1 c.2 n)
  end.

Lemma runs_reachable cs n :
  reachable n → Forall (λ c, call_ok c.2) cs → unwrapped cs n = true → reachable (runs cs n).
Proof.
  revert n. induction cs as [|c cs IH]; intros n Hn Hc Hu; [done|].
  inversion_clear Hc as [|? ? Hc1 Hcs]. cbn [unwrapped] in Hu. to_prop. cbn [runs foldl].
  apply IH; [by constructor|done|done].
Qed.

Lemma restarting_reachable : reachable restarting.
Proof.
  apply runs_reachable; [by constructor| |vm_compute; reflexivity].
  repeat constructor; cbn; lia.
Qed.

Lemma restarts_are_disjoint_witness :
  let R := g_registry (n_sgp restarting) in
  (∀ gen gen' i j a b,
     affected_at R gen i = Some a → affected_at R gen' j = Some b → (gen, i) ≠ (gen', j) →
     destinationRangesOverlap a b = false) ∧
  (∀ gen e, active R !! gen = Some e →
     NoDup ((λ u, destinationRangeKey (sd_range u)) <$> updates e) ∧
     ∀ u, u ∈ updates e → restartEpochCovers e (sd_range u) = true) ∧
  ∀ epochs staged d, 0 ≤ dr_Mask (sd_range staged) → epochs ≡ₚ map_to_list (active R) →
    stageAnyIn epochs staged R d = stageAnyMTP3RestartRangeLocked staged R d.
Proof. exact (restarts_are_disjoint restarting restarting_reachable). Defined.

Lemma isolation_ends_by_completion_witness :
  let q := queryRange scope9 5 0 in
  let n' := step (net [2%nat]) (CComplete 0) restarting in
  let reached u w := ssnmDeliveryResult (publishDestinationRanges (net [2%nat]) [u] true w).1 = [] in
  forces (g_registry (n_sgp restarting)) 1 q ∧
  auditState scope9 5 0 (n_sgp restarting) = mkNetworkState DestinationUnavailable noCongestion ∧
  (forces (g_registry (n_sgp n')) 1 q ∨ CComplete 0 = CClose ∨
   ∃ i h e, CComplete 0 = CComplete i ∧ handles restarting !! i = Some h ∧ h_generation h = 1 ∧
     active (g_registry (n_sgp restarting)) !! 1 = Some e ∧
     ((∃ u w, u ∈ updates e ∧ destinationRangeContains (sd_range u) q = true ∧ reached u w) ∨
      active (g_registry (n_sgp n')) !! 1 = None ∧ ∀ u, u ∈ updates e → ∃ w, reached u w)).
Proof.
  assert (forces (g_registry (n_sgp restarting)) 1 (queryRange scope9 5 0)) as Hf.
  { eexists. split; [vm_compute; reflexivity|vm_compute; reflexivity]. }
  split; [exact Hf|].
  apply (isolation_ends_by_completion (net [2%nat]) (CComplete 0) restarting 1 scope9 5 0);
    [exact restarting_reachable|exact I|vm_compute; reflexivity|exact Hf].
Defined.

(** The second publication of the completion, that of 5, fails. *)
Definition handle1 : MTP3Restart := mkHandle 1 false.
Definition epoch1 : mtp3RestartEpoch := default (mkEpoch [] [] [] false) (active (g_registry (n_sgp restarting)) !! 1).

Lemma completion_settles_each_destination_witness :
  sd_range <$> updates epoch1 =
    [mkRange 0 false 9 true 16 4 (is_now DestinationAvailable);
     mkRange 0 false 9 true 5 0 (is_now DestinationAvailable)] ∧
  let '(errs, h', g') := CompleteMTP3Restart (net [2%nat]) handle1 (n_sgp restarting) in
  let '(outcomes, w') := publications (endpointTarget (net [2%nat])) (updates epoch1) (g_wire (n_sgp restarting)) in
  let verdicts := delivered <$> outcomes in
  let failed := sieve false verdicts (updates epoch1) in
  g_wire g' = w' ∧
  (if bool_decide (failed = []) then
     errs = [] ∧ h_completed h' = true ∧ active (g_registry g') !! 1 = None
   else
     errs = [ErrDelivery (foldl mergeSSNMDeliveryOutcome (mkDelivery [] []) outcomes)] ∧ h' = handle1 ∧
     active (g_registry g') !! 1 =
       Some (mkEpoch (affected epoch1) failed
               (completed epoch1 ++ (sd_range <$> sieve true verdicts (updates epoch1))) true)) ∧
  ∀ k u scope pc mask,
    let concerned v := destinationRangeContains (sd_range v) (queryRange scope pc mask) in
    sieve true verdicts (updates epoch1) !! k = Some u → concerned u = true → 0 ≤ mask →
    (∀ j v, (k < j)%nat → sieve true verdicts (updates epoch1) !! j = Some v → concerned v = false) →
    (carries (sd_dimensions u) destinationAvailabilityDimension = true →
     ns_Availability (auditState scope pc mask g') = ns_Availability (dr_State (sd_range u))) ∧
    (carries (sd_dimensions u) destinationCongestionDimension = true →
     ns_Congestion (auditState scope pc mask g') = ns_Congestion (dr_State (sd_range u))).
Proof.
  split; [vm_compute; reflexivity|].
  apply (completion_settles_each_destination (net [2%nat]) restarting 0 handle1 epoch1);
    [exact restarting_reachable|vm_compute; reflexivity|reflexivity|vm_compute; reflexivity|].
  repeat constructor; vm_compute; eexists; reflexivity.
Defined.
End Concrete.

(** C26: A statement about more than a restart isolates is not held back.  While 0 to
    255 restart in Routing Context 9, the SGP may state that 0 to 511 are
    available there: the DAVA goes out at once, the audit of 5 keeps answering
    unavailable, and once the restart completes, with nothing staged, 5 counts as
    available although its recovery was never stated. *)
Theorem wider_statement_breaks_isolation :
  let wide := CAvailability (mkAvailabilityRequest (Ssnm.mkScope 0 false [9] true)
                [RoutingKey.mkRange 0 9] DestinationAvailable []) in
  let n1 := Concrete.runs [(Concrete.net [], CBegin [Concrete.dest 0 8])] (newNode 0) in
  let n2 := step (Concrete.net []) wide n1 in
  let n3 := step (Concrete.net []) (CComplete 0) n2 in
  (b_messages <$> drop (length (written (g_wire (n_sgp n1)))) (written (g_wire (n_sgp n2)))) =
    [[Typed KDestinationAvailable (MsgSsnm.DestinationAvailable.NewDestinationAvailable None
        (Some (ParamValues.NewRoutingContext [9])) (Some (ParamValues.NewAffectedPointCodeWithMask 9 0)) None)]] ∧
  ns_Availability (auditState Concrete.scope9 5 0 (n_sgp n2)) = DestinationUnavailable ∧
  ns_Availability (auditState Concrete.scope9 5 0 (n_sgp n3)) = DestinationAvailable.
Proof. cbn zeta. repeat split; vm_compute; reflexivity. Qed.
