(* ===== verification/StatementTheory.v ===== *)
(** * What an SGP sends and what it answers

    A statement of the SGP's application that names Routing Contexts is retained
    before it is sent, so that a later audit answers what was sent; and nothing that
    a restart isolates in them is sent. *)

From stdpp Require Import sorting.
From coqutil Require Import Datatypes.RecordSettersUsingExistingGetters.
From S2P Require Import Prelude Params ParamValues Inventory RoutingKey AppServer Ssnm Destinations DestinationsTheory.
From S2P Require Import Message Tack Association Mtp3Restart SsnmEndpoint RestartTheory.
#[local] Open Scope Z_scope.

(** A restart in progress holds a statement on the range back. *)
Definition isolated (R : mtp3RestartRegistry) (r : destinationRange) : Prop :=
  ∃ gen e, active R !! gen = Some e ∧ restartEpochIsolates e r = true.

Lemma kept_isolated R R' r : isolation_kept R R' → isolated R r → isolated R' r.
Proof.
  intros Hk (gen & e & He & Hi). destruct (Hk gen e He) as (e' & He' & Ha & Hc). exists gen, e'.
  split; [done|]. unfold restartEpochIsolates, restartEpochCovers in *. by rewrite Ha, Hc.
Qed.

Lemma stageAny_free u R d : (stageAnyMTP3RestartRangeLocked u R d).1.1 = inr false → ¬ isolated R (sd_range u).
Proof.
  unfold stageAnyMTP3RestartRangeLocked, stageAnyIn. destruct (list_find _ _) as [[i [gen e]]|] eqn:Hf.
  - unfold stageIn. by destruct (retainMTP3RestartIsolation _ _ d) as [[err|] d'].
  - intros _ (gen & e & He & Hi). apply list_find_None in Hf. rewrite Forall_forall in Hf.
    by apply (Hf (gen, e)), Hi; apply elem_of_map_to_list.
Qed.

(** ** Splitting a statement *)

(** What the loops gather: destinations that are not isolated, and their ranges. *)
Section split.
Context (storage : Z * bool) (scoped : bool) (s : DestinationNetworkState) (dims : Z)
  (R : mtp3RestartRegistry).

Definition stated (rc : Z) (d : PointCodeRange) : destinationRange :=
  normalizeDestinationRange (statedRange storage scoped s rc d).

Definition free (rc : Z) (d : PointCodeRange) : Prop := ¬ isolated R (stated rc d).

Lemma stageEach_split rc ds : ∀ kept records g,
  isolation_kept R (g_registry g) → (∀ d, d ∈ kept → free rc d) →
  match (stageEach (statedRange storage scoped s rc) dims ds kept records g).1 with
  | inl _ => True
  | inr (kept', records') =>
      (∀ d, d ∈ kept' → free rc d) ∧
      (∀ r, r ∈ records → r ∈ records') ∧
      (∀ r, r ∈ records' → r ∈ records ∨ ∃ d, d ∈ ds ∧ r = stated rc d) ∧
      (∀ d, d ∈ kept' → d ∈ kept ∨ stated rc d ∈ records' ∧ d ∈ ds)
  end.
Proof.
  induction ds as [|d ds IH]; intros kept records g Hk Hf; cbn [stageEach].
  { cbn. repeat split; try done; intros x ?; by left. }
  fold (stated rc d).
  pose proof (stageAny_kept (mkStaged (stated rc d) dims) (g_registry g) (g_table g)) as Hkept.
  pose proof (stageAny_free (mkStaged (stated rc d) dims) (g_registry g) (g_table g)) as Hfree.
  destruct (stageAnyMTP3RestartRangeLocked _ _ _) as [[st R'] d']. cbn [fst snd sd_range] in Hkept, Hfree.
  assert (Hk' : isolation_kept R R') by (etrans; [exact Hk|exact Hkept]).
  destruct st as [e|[]]; cbn [fst]; [done| |].
  - specialize (IH kept records (g <| g_registry := R' |> <| g_table := d' |>) Hk' Hf).
    destruct (stageEach _ _ _ _ _ _) as [[?|[k' r']] ?]; [done|]. cbn [fst] in *.
    destruct IH as (H1 & H2 & H3 & H4). repeat split; try done.
    + intros r Hr. destruct (H3 r Hr) as [?|(x & ? & ?)]; [by left|right; exists x; split; [by right|done]].
    + intros x Hx. destruct (H4 x Hx) as [?|[? ?]]; [by left|right; split; [done|by right]].
  - assert (Hd : free rc d) by (intros Hi; by apply Hfree, (kept_isolated R)).
    specialize (IH (kept ++ [d]) (records ++ [stated rc d]) (g <| g_registry := R' |> <| g_table := d' |>) Hk').
    destruct (stageEach _ _ _ _ _ _) as [[?|[k' r']] ?]; [done|]. cbn [fst] in *.
    destruct IH as (H1 & H2 & H3 & H4).
    { intros x [?| ->%list_elem_of_singleton]%elem_of_app; [by apply Hf|done]. }
    repeat split; try done.
    + intros r Hr. apply H2, elem_of_app. by left.
    + intros r Hr. destruct (H3 r Hr) as [[?| ->%list_elem_of_singleton]%elem_of_app|(x & ? & ?)];
        [by left|right; exists d; split; [by left|done]|right; exists x; split; [by right|done]].
    + intros x Hx. destruct (H4 x Hx) as [[?| ->%list_elem_of_singleton]%elem_of_app|[? ?]];
        [by left| |right; split; [done|by right]].
      right. split; [|by left]. apply H2, elem_of_app. right. by apply list_elem_of_singleton.
Qed.

(** A group has contexts, and every destination of it may be sent in each of
    them and has a record there. *)
Definition group_ok (all : list Z) (ds : list PointCodeRange) (records : list destinationRange)
    (group : endpointSSNMGroup) : Prop :=
  g_routingContexts group ≠ [] ∧
  ∀ rc d, rc ∈ g_routingContexts group → d ∈ g_destinations group →
    rc ∈ all ∧ d ∈ ds ∧ free rc d ∧ stated rc d ∈ records.

Lemma append_group_ok all ds records groups group :
  Forall (group_ok all ds records) groups → group_ok all ds records group →
  Forall (group_ok all ds records) (appendEndpointSSNMGroup groups group scoped).
Proof.
  intros Hg Hx. induction Hg as [|g groups Hg1 Hgs IH]; cbn; [by constructor|].
  destruct (scoped && bool_decide _) eqn:E; [|by constructor].
  apply andb_true_iff in E as [_ E]. apply bool_decide_eq_true in E. constructor; [|done].
  split; [cbn; destruct Hg1 as [Hg1 _]; by destruct (g_routingContexts g)|].
  intros rc d Hrc Hd. cbn in Hrc, Hd. apply elem_of_app in Hrc as [Hrc|Hrc]; [by apply Hg1|].
  apply Hx; [done|]. by rewrite <-E.
Qed.

Lemma group_ok_mono all ds records records' group :
  (∀ r, r ∈ records → r ∈ records') → group_ok all ds records group → group_ok all ds records' group.
Proof.
  intros Hr [Hne Hg]. split; [done|]. intros rc d Hrc Hd.
  destruct (Hg rc d Hrc Hd) as (? & ? & ? & ?). by repeat split; try apply Hr.
Qed.

Lemma stageContexts_split all ds contexts : ∀ groups records g,
  scoped = true → isolation_kept R (g_registry g) → Forall (group_ok all ds records) groups →
  (∀ rc, rc ∈ contexts → rc ∈ all) →
  match (stageContexts storage scoped ds s dims contexts groups records g).1 with
  | inl _ => True
  | inr (groups', records') =>
      Forall (group_ok all ds records') groups' ∧
      ∀ r, r ∈ records' → r ∈ records ∨ ∃ rc d, rc ∈ contexts ∧ d ∈ ds ∧ r = stated rc d
  end.
Proof.
  induction contexts as [|rc contexts IH]; intros groups records g Hs Hk Hg Hall; cbn [stageContexts].
  { cbn. split; [done|]. intros r ?. by left. }
  pose proof (stageEach_split rc ds [] records g Hk) as Hsplit.
  pose proof (stageEach_kept (statedRange storage scoped s rc) dims ds [] records g) as Hkept.
  destruct (stageEach _ _ _ _ _ _) as [[e|[kept records1]] g1]; [done|]. cbn [fst snd] in *.
  destruct Hsplit as (H1 & H2 & H3 & H4); [by intros d ?%elem_of_nil|].
  specialize (IH (appendEndpointSSNMGroup groups (mkGroup (if scoped then [rc] else []) kept) scoped) records1 g1 Hs).
  destruct (stageContexts _ _ _ _ _ _ _ _ _) as [[e|[groups' records']] g2]; [done|]. cbn [fst] in *.
  destruct IH as [Hg' Hr'].
  - by etrans.
  - apply append_group_ok.
    + eapply Forall_impl; [exact Hg|]. intros group. by apply group_ok_mono.
    + rewrite Hs. split; [done|]. intros rc' d ->%list_elem_of_singleton Hd. cbn in Hd.
      destruct (H4 d Hd) as [?%elem_of_nil|[? ?]]; [done|]. repeat split; [apply Hall; by left|done|by apply H1|done].
  - intros x Hx. apply Hall. by right.
  - split; [done|]. intros r Hr. destruct (Hr' r Hr) as [Hr1|(rc' & d & ? & ? & ?)].
    + destruct (H3 r Hr1) as [?|(d & ? & ?)]; [by left|]. right. exists rc, d. split; [by left|done].
    + right. exists rc', d. split; [by right|done].
Qed.
End split.

(** ** Retaining *)

Lemma storeAll_refused records d : 0 ≤ (storeAll records d).1.
Proof.
  revert d. induction records as [|r records IH]; intros d; [done|]. cbn [storeAll].
  destruct (storeLocked r d) as [b d1]. specialize (IH d1). destruct (storeAll records d1) as [n d2].
  cbn in *. destruct b; lia.
Qed.

(** Records that all state one availability, none of them refused. *)
Lemma storeAll_states records a scope pc mask : ∀ d,
  table_ok d →
  Forall (λ r, well_scoped r ∧ ns_Availability (dr_State (rangeValue r)) = a ∧
               carries (dimensions r) destinationAvailabilityDimension = true) records →
  (storeAll records d).1 = 0 →
  let answer d := let '(s, known) := lookupRange scope pc mask d in known = true ∧ ns_Availability s = a in
  answer d ∨ (∃ r, r ∈ records ∧ concerns scope pc mask r = true) → answer (storeAll records d).2.
Proof.
  cbn zeta. induction records as [|r records IH]; intros d Hd Hr Hn Ha.
  { destruct Ha as [Ha|(r & ?%elem_of_nil & _)]; [exact Ha|done]. }
  inversion_clear Hr as [|? ? (Hw & Hav & Hc) Hrs]. cbn [storeAll] in Hn |- *.
  pose proof (store_ok r d Hd Hw) as Hd1. pose proof (stored_lookup d r scope pc mask (proj1 Hd) Hw) as Hl.
  pose proof (storeAll_refused records (storeLocked r d).2) as Hnn.
  destruct (storeLocked r d) as [b d1]. cbn [fst snd] in *. specialize (IH d1 Hd1 Hrs).
  destruct (storeAll records d1) as [n d2]. cbn [fst snd] in *.
  assert (b = true ∧ n = 0) as [-> ->] by (destruct b; split; [done|lia|lia|lia]).
  apply IH; [done|]. specialize (Hl eq_refl). rewrite Hl.
  destruct (concerns scope pc mask r) eqn:Hcon.
  - left. split; [done|]. cbn [fst ns_Availability].
    destruct (d_state d !! destinationRecordKey r) as [held|]; [|by rewrite Hc].
    change (dimensions (restate r held)) with (Z.lor (dimensions r) (dimensions held)).
    rewrite carries_lor, Hc. cbn [orb]. unfold restate. cbn -[carries]. by rewrite Hc.
  - destruct Ha as [Ha|(y & Hy & Hyc)]; [by left|]. right. exists y. split; [|done].
    apply elem_of_cons in Hy as [->|Hy]; [congruence|done].
Qed.

Lemma stated_plain dims r : canonical r → statedRecord dims r = plainRecord dims r.
Proof. intros [Hn _]. unfold statedRecord, plainRecord. by rewrite Hn. Qed.

(** A statement concerns its own destination. *)
Lemma stated_contains storage s rc d :
  0 ≤ Mask d →
  let r := stated storage true s rc d in
  destinationRangeContains r (queryRange (mkDestinationKey (dr_NetworkAppearance r) storage.2 rc true [] 0 0)
                (PointCode d) (Mask d)) = true.
Proof.
  intros Hm. apply contains_spec. split.
  - split; [|done]. apply sameAppearance_spec. by split.
  - apply covers_spec; [done|]. split; [done|]. intros i Hi. cbn in *.
    pose proof (width_bounds _ Hm). change 16777215 with (Z.ones 24).
    rewrite Z.land_spec, Z.testbit_ones_nonneg by lia.
    assert ((i <? 24) = true) as -> by lia. apply andb_true_r.
Qed.

(** ** Targets *)

Lemma elem_of_appendNew `{EqDecision A} (l : list A) : ∀ combined x,
  x ∈ appendNew combined l ↔ x ∈ combined ∨ x ∈ l.
Proof.
  induction l as [|y l IH]; intros combined x; cbn; [rewrite elem_of_nil; naive_solver|].
  rewrite IH, elem_of_cons. case_bool_decide; rewrite ?elem_of_app, ?list_elem_of_singleton; naive_solver.
Qed.

(** Every Routing Context of every target satisfies [P]. *)
Definition contexts_in (P : Z → Prop) (targets : list activeSSNMTarget) : Prop :=
  Forall (λ t, Forall P (tg_routingContexts t)) targets.

Lemma addContext_in P key t :
  (Inventory.RoutingContextSet key = true → P (Inventory.RoutingContext key)) →
  Forall P (tg_routingContexts t) → Forall P (tg_routingContexts (addContext key t)).
Proof.
  intros Hk Ht. unfold addContext. destruct (Inventory.RoutingContextSet key); [|done].
  destruct (bool_decide _); [done|]. cbn. apply Forall_app. split; [done|]. constructor; [by apply Hk|done].
Qed.

Lemma addTarget_in P key association targets :
  (Inventory.RoutingContextSet key = true → P (Inventory.RoutingContext key)) →
  contexts_in P targets → contexts_in P (addTarget key association targets).
Proof.
  intros Hk Ht. induction Ht as [|t targets Ht1 Hts IH]; cbn.
  - constructor; [|constructor]. by apply addContext_in; [|constructor].
  - destruct (decide _); constructor; [by apply addContext_in|done..].
Qed.

Lemma foldl_in {A B} (f : A → B → A) (I : A → Prop) (Q : B → Prop) l : ∀ a,
  (∀ a b, I a → Q b → I (f a b)) → I a → Forall Q l → I (foldl f a l).
Proof.
  induction l as [|b l IH]; intros a Hf Ha Hl; [done|]. inversion_clear Hl. cbn. apply IH; [done| |done]. by apply Hf.
Qed.

Lemma activeSSNMTargets_in s scope :
  dk_routingContextSet scope = true → contexts_in (λ rc, rc = dk_routingContext scope) (activeSSNMTargets s scope).
Proof.
  intros Hs. unfold activeSSNMTargets. destruct (sv_closed s); [constructor|].
  unfold contexts_in, sort_by. rewrite merge_sort_Permutation.
  apply (foldl_in _ (contexts_in (λ rc, rc = dk_routingContext scope))
           (λ e, asKeyMatchesDestinationScope e.1 scope = true)).
  - intros targets [key server] Ht Hm. unfold addServer. cbn [fst snd] in *.
    apply (foldl_in _ (contexts_in (λ rc, rc = dk_routingContext scope)) (λ _, True));
      [|done|by apply Forall_true].
    intros ts c Hts _. apply addTarget_in; [|done]. intros Hk.
    unfold asKeyMatchesDestinationScope in Hm. destruct (_ || _); [done|]. rewrite Hs, Hk in Hm. cbn in Hm. by to_prop.
  - constructor.
  - rewrite merge_sort_Permutation. apply Forall_forall. intros e He. by apply elem_of_filterb in He as [? _].
Qed.

Lemma combineTarget_in P t targets :
  Forall P (tg_routingContexts t) → contexts_in P targets → contexts_in P (combineTarget t targets).
Proof.
  intros Hp Ht. induction Ht as [|c targets Hc Hts IH]; cbn; [by constructor|].
  destruct (decide _); constructor; try done. cbn. unfold appendRoutingContexts.
  apply Forall_forall. intros x Hx. rewrite !elem_of_appendNew in Hx. rewrite Forall_forall in Hp, Hc.
  destruct Hx as [[?%elem_of_nil|?]|?]; [done|by apply Hc|by apply Hp].
Qed.

Lemma endpointTargets_in s scope :
  Ssnm.RoutingContextSet scope = true →
  contexts_in (λ rc, rc ∈ Ssnm.RoutingContexts scope) (endpointActiveSSNMTargets s scope).
Proof.
  intros Hs. unfold endpointActiveSSNMTargets. destruct (resolveEndpointSSNMNetworkAppearance s scope) as [|[v set]]; [constructor|].
  rewrite Hs. cbn [negb]. unfold contexts_in, sort_by. rewrite merge_sort_Permutation.
  apply (foldl_in _ (contexts_in (λ rc, rc ∈ Ssnm.RoutingContexts scope)) (λ rc, rc ∈ Ssnm.RoutingContexts scope));
    [|constructor|by apply Forall_forall].
  intros targets rc Ht Hrc.
  apply (foldl_in _ (contexts_in (λ rc, rc ∈ Ssnm.RoutingContexts scope)) (λ t, Forall (λ x, x = rc) (tg_routingContexts t)));
    [|done|].
  - intros ts t Hts Hx. apply combineTarget_in; [|done]. eapply Forall_impl; [exact Hx|]. by intros x ->.
  - apply (activeSSNMTargets_in s (mkDestinationKey v set rc true [] 0 0) eq_refl).
Qed.

(** ** What is sent *)

(** Every message sent between two states of the wire satisfies [P]. *)
Definition sends (w w' : wire) (P : M3UA → Prop) : Prop :=
  ∃ sent, written w' = written w ++ sent ∧ ∀ b m, b ∈ sent → m ∈ b_messages b → P m.

Lemma sends_nothing w w' P : written w' = written w → sends w w' P.
Proof. intros E. exists []. rewrite E, app_nil_r. split; [done|]. by intros b m ?%elem_of_nil. Qed.

Lemma sends_impl w w' (P Q : M3UA → Prop) : sends w w' P → (∀ m, P m → Q m) → sends w w' Q.
Proof. intros (sent & Hw & Hs) Hpq. exists sent. split; [done|]. intros b m Hb Hm. by eapply Hpq, Hs. Qed.

Lemma sends_trans w1 w2 w3 P : sends w1 w2 P → sends w2 w3 P → sends w1 w3 P.
Proof.
  intros (s1 & Hw1 & H1) (s2 & Hw2 & H2). exists (s1 ++ s2). split; [by rewrite Hw2, Hw1, app_assoc|].
  intros b m [Hb|Hb]%elem_of_app; [by apply H1|by apply H2].
Qed.

Lemma fanout_sends net scope build w :
  sends w (fanoutEndpointSSNM net scope build w).2 (λ m,
    ∃ contexts, m = build (routingContextParam contexts) ∧
      (Ssnm.RoutingContextSet scope = true → Forall (λ rc, rc ∈ Ssnm.RoutingContexts scope) contexts)).
Proof.
  unfold fanoutEndpointSSNM. destruct (len _ =? 0); [by apply sends_nothing|].
  unfold deliver. cbn [snd written]. eexists. split; [done|]. intros b m Hb Hm.
  apply list_elem_of_fmap in Hb as ([a ms] & -> & Hb). cbn [b_messages] in Hm.
  apply elem_of_filterb in Hb as [_ Hb]. apply list_elem_of_fmap in Hb as (t & [= -> ->] & Ht).
  apply list_elem_of_fmap in Hm as (contexts & -> & Hc). exists contexts. split; [done|]. intros Hs.
  pose proof (endpointTargets_in (n_fanout net (fanouts w)) scope Hs) as Hin.
  unfold contexts_in in Hin. rewrite Forall_forall in Hin. specialize (Hin t Ht).
  unfold ssnmTargetRoutingContextScopes in Hc. apply elem_of_app in Hc as [Hc|Hc].
  - destruct (tg_contextless t); [|by apply elem_of_nil in Hc]. by apply list_elem_of_singleton in Hc as ->.
  - destruct (0 <? _); [|by apply elem_of_nil in Hc]. by apply list_elem_of_singleton in Hc as ->.
Qed.

Lemma publishGroups_sends net scope build groups : ∀ failure w,
  sends w (publishGroups net scope build groups failure w).2 (λ m,
    ∃ group apc contexts,
      group ∈ groups ∧ buildAffectedPointCodes (g_destinations group) = inr apc ∧
      m = build (routingContextParam contexts) (Some apc) ∧
      (g_routingContexts group ≠ [] → Forall (λ rc, rc ∈ g_routingContexts group) contexts)).
Proof.
  induction groups as [|group groups IH]; intros failure w; cbn [publishGroups]; [by apply sends_nothing|].
  assert (Hlater : ∀ failure w, sends w (publishGroups net scope build groups failure w).2 (λ m,
    ∃ g apc contexts, g ∈ group :: groups ∧ buildAffectedPointCodes (g_destinations g) = inr apc ∧
      m = build (routingContextParam contexts) (Some apc) ∧
      (g_routingContexts g ≠ [] → Forall (λ rc, rc ∈ g_routingContexts g) contexts))).
  { intros f x. eapply sends_impl; [apply IH|]. intros m (g & apc & contexts & Hg & ?).
    exists g, apc, contexts. split; [by right|done]. }
  destruct (len (g_destinations group) =? 0); [apply Hlater|].
  destruct (buildAffectedPointCodes (g_destinations group)) as [e|apc] eqn:Hapc; [by apply sends_nothing|].
  match goal with |- context [fanoutEndpointSSNM net ?sc ?b w] => pose proof (fanout_sends net sc b w) as Hf;
    destruct (fanoutEndpointSSNM net sc b w) as [o w1] end. cbn [snd] in Hf.
  eapply sends_trans; [|apply Hlater]. eapply sends_impl; [exact Hf|].
  intros m (contexts & -> & Hc). exists group, apc, contexts.
  split; [by left|]. split; [done|]. split; [done|]. intros Hne.
  assert ((0 <? len (g_routingContexts group)) = true) as Hl.
  { destruct (g_routingContexts group) as [|x l]; [done|]. rewrite len_cons. pose proof (len_nonneg l). lia. }
  rewrite Hl in Hc. by apply Hc.
Qed.

Lemma stageEach_wire rangeAt dims ds : ∀ kept records g,
  g_wire (stageEach rangeAt dims ds kept records g).2 = g_wire g.
Proof.
  induction ds as [|d ds IH]; intros kept records g; [done|]. cbn [stageEach].
  destruct (stageAnyMTP3RestartRangeLocked _ _ _) as [[[e|[]] R'] d']; [done|by rewrite IH..].
Qed.

Lemma stageContexts_wire storage scoped ds s dims contexts : ∀ groups records g,
  g_wire (stageContexts storage scoped ds s dims contexts groups records g).2 = g_wire g.
Proof.
  induction contexts as [|rc contexts IH]; intros groups records g; [done|]. cbn [stageContexts].
  pose proof (stageEach_wire (statedRange storage scoped s rc) dims ds [] records g) as Hw.
  destruct (stageEach _ _ _ _ _ _) as [[e|[kept records1]] g1]; [done|]. by rewrite IH.
Qed.

(** The appearance under which a statement is recorded. *)
Definition storageOf (net : network) (scope : WireScope) : m3ua_error + Z * bool :=
  if Ssnm.NetworkAppearanceSet scope then inr (Ssnm.NetworkAppearance scope, true)
  else resolveEndpointSSNMNetworkAppearance (n_serving net) scope.

(** No restart of [R] isolates the destination in the Routing Context, and an
    audit of it answers [a] in the state [g'], unless a restart that isolates a
    part of it forces another answer. *)
Definition retained_there (net : network) (scope : WireScope) (a : Z) (R : mtp3RestartRegistry)
    (g' : sgp) (rc : Z) (d : PointCodeRange) : Prop :=
  ∃ storage, storageOf net scope = inr storage ∧
    let range := stated storage true (mkNetworkState a noCongestion) rc d in
    let query := mkDestinationKey (dr_NetworkAppearance range) storage.2 rc true [] 0 0 in
    ¬ isolated R range ∧
    (restartForcesUnavailable (g_registry g') query (PointCode d) (Mask d) = true ∨
     ns_Availability (auditState query (PointCode d) (Mask d) g') = a).

(** What the lookups make of a group. *)
Lemma group_retained net scope a storage ds records contexts group R g1 w refused d rc dd :
  let s := mkNetworkState a noCongestion in
  storageOf net scope = inr storage →
  group_ok storage true s R contexts ds records group → node_ok g1 → Forall (λ d, 0 ≤ Mask d) ds →
  (∀ r, r ∈ records → ∃ rc d, d ∈ ds ∧ r = stated storage true s rc d) →
  storeAll (statedRecord destinationAvailabilityDimension <$> records) (g_table g1) = (refused, d) →
  refused = 0 → rc ∈ g_routingContexts group → dd ∈ g_destinations group →
  rc ∈ contexts ∧ dd ∈ ds ∧
  retained_there net scope a R (g1 <| g_table := d |> <| g_wire := w |>) rc dd.
Proof.
  intros s Hst Hgroup Hg1 Hm Hrecords Hall Hz Hrc Hdd.
  destruct (proj2 Hgroup rc dd Hrc Hdd) as (Hin & Hds & Hfree & Hrec). split; [done|]. split; [done|].
  exists storage. split; [done|]. cbn zeta. split; [exact Hfree|].
  rewrite Forall_forall in Hm. set (q := mkDestinationKey _ storage.2 rc true [] 0 0).
  unfold auditState. cbn [g_registry g_table].
  destruct (restartForcesUnavailable _ q _ _) eqn:Hforced; [by left|right].
  pose proof (storeAll_states (statedRecord destinationAvailabilityDimension <$> records) a q
    (PointCode dd) (Mask dd) (g_table g1) (no_table _ Hg1)) as Hstates. rewrite Hall in Hstates.
  cbn [fst snd] in Hstates.
  change (g_table (g1 <| g_table := d |> <| g_wire := w |>)) with d.
  destruct (lookupRange q (PointCode dd) (Mask dd) d) as [x known].
  enough (known = true ∧ ns_Availability x = a) as [-> Hx] by exact Hx. apply Hstates; [|done|].
  - apply Forall_fmap, Forall_forall. intros r Hr. by destruct (Hrecords r Hr) as (? & ? & _ & ->).
  - right. exists (statedRecord destinationAvailabilityDimension (stated storage true s rc dd)).
    split; [by apply list_elem_of_fmap_2|].
    assert (canonical (stated storage true s rc dd)) as Hc by by apply normalize_canonical, Hm.
    rewrite stated_plain, concerns_contains by done. by apply stated_contains, Hm.
Qed.

Lemma publish_retains net scope ds a build g :
  node_ok g → Forall (λ d, 0 ≤ Mask d) ds → isScoped scope = true →
  let g' := (publishEndpointDestinationState net scope ds (mkNetworkState a noCongestion)
               destinationAvailabilityDimension build g).2 in
  sends (g_wire g) (g_wire g') (λ m, ∃ apc contexts ds',
    m = build (routingContextParam contexts) (Some apc) ∧ buildAffectedPointCodes ds' = inr apc ∧
    ∀ rc d, rc ∈ contexts → d ∈ ds' →
      rc ∈ Ssnm.RoutingContexts scope ∧ d ∈ ds ∧ retained_there net scope a (g_registry g) g' rc d).
Proof.
  intros Hg Hm Hs. cbn zeta. unfold publishEndpointDestinationState. fold (storageOf net scope).
  destruct (storageOf net scope) as [e|storage] eqn:Hst; [by apply sends_nothing|].
  rewrite Hs. unfold stageOrGroupEndpointSSNM.
  set (s := mkNetworkState a noCongestion). set (contexts := Ssnm.RoutingContexts scope).
  pose proof (stageContexts_split storage true s destinationAvailabilityDimension (g_registry g) contexts ds contexts
    [] [] g eq_refl (reflexivity _) (Forall_nil_2 _) (λ _ H, H)) as Hsplit.
  pose proof (stageContexts_ok storage true ds s destinationAvailabilityDimension contexts [] [] g Hg Hm) as Hg1.
  pose proof (stageContexts_wire storage true ds s destinationAvailabilityDimension contexts [] [] g) as Hw1.
  destruct (stageContexts _ _ _ _ _ _ _ _ _) as [[e|[groups records]] g1]; cbn [fst snd] in *.
  { apply sends_nothing. by rewrite Hw1. }
  destruct Hsplit as [Hgroups Hrecords].
  destruct (storeAll _ (g_table g1)) as [refused d] eqn:Hall.
  unfold recordLimitErrorLocked. destruct (refused =? 0) eqn:Hz; to_prop.
  2:{ apply sends_nothing. cbn. by rewrite Hw1. }
  pose proof (publishGroups_sends net scope build groups (mkDelivery [] []) (g_wire g1)) as Hpub.
  cbn [g_wire]. destruct (publishGroups _ _ _ _ _ _) as [o w]. cbn [snd] in *. rewrite Hw1 in Hpub.
  eapply sends_impl; [exact Hpub|].
  intros m (group & apc & ctxs & Hgr & Hapc & -> & Hctx). exists apc, ctxs, (g_destinations group).
  split; [done|]. split; [done|]. intros rc dd Hrc Hdd.
  rewrite Forall_forall in Hgroups. specialize (Hgroups group Hgr).
  eapply group_retained; [done|exact Hgroups|done|done| |exact Hall|done| |done].
  - intros r Hr. destruct (Hrecords r Hr) as [?%elem_of_nil|(rc' & d' & _ & ? & ?)]; [done|by exists rc', d'].
  - specialize (Hctx (proj1 Hgroups)). rewrite Forall_forall in Hctx. by apply Hctx.
Qed.

(** C19: What an SGP's statement on availability that names Routing Contexts sends,
    it has retained first. Each message goes out in contexts of the statement and
    names destinations of the statement; no restart in progress isolates any of them
    there; and an audit of any of them there now answers the availability that was
    sent, unless a restart that isolates a part of the destination forces the
    answer. A statement that names no Routing Context is not meant: it may be sent
    for a destination that a restart isolates in some Routing Context. *)
Theorem statement_is_retained_before_it_is_sent net n r :
  reachable n → call_ok (CAvailability r) → isScoped (ar_Scope r) = true →
  let g := n_sgp n in
  let g' := (ReportDestinationAvailability net r g).2 in
  sends (g_wire g) (g_wire g') (λ m, ∃ ps apc contexts ds,
    m = availabilityMessage ps (ar_Availability r) (routingContextParam contexts) (Some apc) ∧
    buildAffectedPointCodes ds = inr apc ∧
    ∀ rc d, rc ∈ contexts → d ∈ ds →
      rc ∈ Ssnm.RoutingContexts (ar_Scope r) ∧ d ∈ ar_Destinations r ∧
      retained_there net (ar_Scope r) (ar_Availability r) (g_registry g) g' rc d).
Proof.
  intros Hn Hok Hs. cbn zeta. pose proof (reachable_node_ok n Hn) as Hg. unfold ReportDestinationAvailability.
  destruct (n_closed net); [by apply sends_nothing|].
  destruct (negb (validDestinationAvailability _)); [by apply sends_nothing|].
  destruct (prepareEndpointSSNM _ _ _ _) as [e|ps]; [by apply sends_nothing|].
  eapply sends_impl; [by apply publish_retains|].
  intros m (apc & contexts & ds & -> & Hapc & Hall). by exists ps, apc, contexts, ds.
Qed.

Module Concrete.
(** Half of the point codes 0 to 255 restart; 5 and 200 are stated available in
    the Routing Context 9. *)
Definition half : node :=
  RestartTheory.Concrete.runs [(RestartTheory.Concrete.net [], CBegin [RestartTheory.Concrete.dest 0 7])] (newNode 0).

Lemma half_reachable : reachable half.
Proof.
  apply RestartTheory.Concrete.runs_reachable; [by constructor| |vm_compute; reflexivity].
  repeat constructor; cbn; lia.
Qed.

Definition request : DestinationAvailabilityRequest :=
  mkAvailabilityRequest (Ssnm.mkScope 0 false [9] true) [RoutingKey.mkRange 5 0; RoutingKey.mkRange 200 0]
    DestinationAvailable [].

Lemma statement_is_retained_before_it_is_sent_witness :
  let net := RestartTheory.Concrete.net [] in
  let g' := (ReportDestinationAvailability net request (n_sgp half)).2 in
  length (written (g_wire g')) = 2%nat ∧
  sends (g_wire (n_sgp half)) (g_wire g') (λ m, ∃ ps apc contexts ds,
    m = availabilityMessage ps DestinationAvailable (routingContextParam contexts) (Some apc) ∧
    buildAffectedPointCodes ds = inr apc ∧
    ∀ rc d, rc ∈ contexts → d ∈ ds →
      rc ∈ [9] ∧ d ∈ ar_Destinations request ∧
      retained_there net (ar_Scope request) DestinationAvailable (g_registry (n_sgp half)) g' rc d).
Proof.
  split; [vm_compute; reflexivity|].
  apply (statement_is_retained_before_it_is_sent (RestartTheory.Concrete.net []) half request);
    [exact half_reachable|repeat constructor; cbn; lia|reflexivity].
Defined.
End Concrete.
