(* ===== verification/SsnmProcedures.v ===== *)
(** * SSNM procedures of an Association (ssnm.go, ssnm_binding.go, ssnm_operations.go)

    What an Association does with the SSNM messages of its peer, and the SSNM
    messages an ASP sends: the partitions of the store that a scope names, the
    bindings of the Association to them, the entitlement of the peer, the
    destination table, the store and the answers to an audit.

    The control state of the Association, its configuration and the restarts of
    its Endpoint are read only here.  A handler is a function of the [side] it
    changes, with an error that ends it.  The routes of an ASP
    ([aspRoutes.apply]), the Application Servers of the node and the outcome of each
    write are the environment; the locks that order writes are not modelled, what
    they admit is.  Every
    Endpoint has a store; the Concerned Destination and the User/Cause that a
    report carries to subscribers are not part of [SSNMReport] (Ssnm.v). *)

From stdpp Require Import sorting.
From coqutil Require Import Datatypes.RecordSettersUsingExistingGetters.
From S2P Require Import Prelude Params ParamsFacts ParamValues Header Inventory RoutingKey AppServer.
From S2P Require Import Ssnm Destinations MsgSsnm Message Tack Association AspProcedures AspMachine.
From S2P Require Import Mtp3Restart SsnmEndpoint.
#[local] Open Scope Z_scope.

(** ** Data *)

Inductive ssnm_fault : Type :=
| FaultProtocol (e : asp_error)
| FaultInvalidNetworkAppearance (value : option Z)
| FaultMissingAffectedPointCode
| FaultMissingUserCause
| FaultStore (e : ssnm_error)
| FaultRecordLimit (refused : Z)
| FaultRoutes
| FaultCall (e : call_error)
| FaultEnded
| FaultNotEstablished
| FaultRoutingContextNotActive
| FaultNoActiveASP
| FaultMessage (e : msg_error)
| FaultPanic.

(** Who the Association is to the store: its number, the Signalling Gateway of
    its [PeerSGP], the Application Servers its Endpoint provisions for that SGP
    (the inner [None] when it provisions none), those bound dynamically. *)
Record ssnmIdentity : Type := mkIdentity {
  si_ID : Z;
  si_peerSGP : option string;
  si_inventory : option (option (gmap ASKey string));
  si_canonicalRemoteAS : gmap Z string;
  si_maxSSNMDestinationRecords : Z;
}.

Record destinationStatus : Set := mkStatus {
  st_PointCode : Z;
  st_Mask : Z;
  st_scope : WireScope;
}.

Inductive aspRouteUpdate : Set :=
| aspRouteAvailabilityUpdate (availability : Z)
| aspRouteCongestionUpdate (congestion : CongestionState).

(** An Application Server as the barrier of a write sees it: [asps[c]] is the
    state of this Association in it. *)
Record serverView : Set := mkServerView {
  view_closed : bool;
  view_state : ASState;
  view_asps : option State;
}.

(** The answers of the routes, the Application Servers ([as.lookup]), and the
    outcome of the [n]th message handed to the transport. *)
Record ssnmEnvironment : Type := mkSsnmEnvironment {
  se_routes : list destinationStatus → aspRouteUpdate → bool;
  se_lookup : ASKey → option serverView;
  se_write : nat → bool;
}.

Record ssnmBindingScope : Set := mkBindingScope { bs_partition : SSNMPartition; bs_pending : bool }.

#[export] Instance ssnmBindingScope_eq_dec : EqDecision ssnmBindingScope.
Proof. solve_decision. Defined.

(** What the procedures change. *)
Record side : Type := mkSide {
  s_store : ssnmState;
  s_table : destinations;
  s_written : list (M3UA * bool);
}.

(** ** A monad of errors *)

Definition P (A : Type) : Type := side → (ssnm_fault + A) * side.

#[export] Instance P_ret : MRet P := λ A a s, (inr a, s).
#[export] Instance P_bind : MBind P := λ A B f m s,
  match m s with (inl e, s) => (inl e, s) | (inr a, s) => f a s end.

Definition throw {A} (e : ssnm_fault) : P A := λ s, (inl e, s).
Definition guard_ (b : bool) (e : ssnm_fault) : P () := if b then mret () else throw e.
Definition check (err : option ssnm_fault) : P () :=
  match err with Some e => throw e | None => mret () end.

(** The value of an accessor; zero where the code's is. *)
Definition valueOf (r : result error Z) : Z := match r with Ok n => n | _ => 0 end.
Definition wordsOf (r : result error (list Z)) : list Z := match r with Ok l => l | _ => [] end.

Section association.
Context `{Quoting} (env : ssnmEnvironment) (i : ssnmIdentity) (c : association)
  (restarts : mtp3RestartRegistry).

(** ** Scopes (ssnm_binding.go, ssnm.go, transfer.go) *)

Definition ssnmWireScope (networkAppearance routingContext : option Param) : WireScope :=
  Ssnm.mkScope (from_option (λ p, valueOf (get_NetworkAppearance p)) 0 networkAppearance)
    (bool_decide (is_Some networkAppearance))
    (Tack.RoutingContexts routingContext) (bool_decide (is_Some routingContext)).

Definition outboundNetworkAppearance : Z * bool :=
  asConfigNetworkAppearance (applicationServerInventory false c).

Definition appearanceOf (p : option Param) : option Z :=
  match p with
  | Some p => if (Tag p =? Params.NetworkAppearance) && (len (Data p) =? 4)
              then Some (valueOf (get_NetworkAppearance p)) else None
  | None => None
  end.

(** [c.destinationKey(networkAppearance, 0)]. *)
Definition destinationAppearance (networkAppearance : option Param) : Z * bool :=
  match appearanceOf networkAppearance with
  | Some value => (value, true)
  | None => outboundNetworkAppearance
  end.

(** [None] when the message and the configuration name none. *)
Definition destinationRoutingContexts (routingContext : option Param) : option (list Z) :=
  match routingContext with
  | Some _ => Some (Tack.RoutingContexts routingContext)
  | None =>
      match configuredRoutingContexts c with
      | [rc] => Some [rc]
      | _ => None
      end
  end.

Definition scopedKey (scope : WireScope) (appearance : Z * bool) (rc : Z) : ASKey :=
  if Ssnm.NetworkAppearanceSet scope then mkASKey appearance.1 appearance.2 rc true
  else default (staticASKeyForRoutingContext rc false c) (dynamicASKey rc false c).

Definition ssnmASKeys (scope : WireScope) : list ASKey :=
  let appearance := if Ssnm.NetworkAppearanceSet scope then (Ssnm.NetworkAppearance scope, true)
                    else outboundNetworkAppearance in
  let contexts := if Ssnm.RoutingContextSet scope then Ssnm.RoutingContexts scope
                  else default [] (destinationRoutingContexts None) in
  if len contexts =? 0 then [mkASKey appearance.1 appearance.2 0 false]
  else uniqueASKeys (scopedKey scope appearance <$> contexts).

Definition canonicalRemoteASFor (key : ASKey) : option string :=
  match si_peerSGP i, si_inventory i with
  | Some _, Some sgp =>
      match (if Inventory.RoutingContextSet key
             then si_canonicalRemoteAS i !! Inventory.RoutingContext key else None) with
      | Some bound => Some bound
      | None => sgp ≫= λ asByStaticKey, asByStaticKey !! key
      end
  | _, _ => None
  end.

Definition ssnmPartitionFor (key : ASKey) : SSNMPartition :=
  match canonicalRemoteASFor key with
  | Some remote => mkPartition SSNMCanonicalPartition (default EmptyString (si_peerSGP i)) remote 0
  | None => mkPartition SSNMStandalonePartition EmptyString EmptyString (si_ID i)
  end.

Definition ssnmPartitionsForScope (scope : WireScope) : list SSNMPartition :=
  sortSSNMPartitions (appendNew [] (ssnmPartitionFor <$> ssnmASKeys scope)).

(** ** Bindings (ssnm_binding.go) *)

Definition pendingContexts : gset Z :=
  if bool_decide (role (a_cfg c) = RoleASP) then pendingTAckRoutingContexts requestAspActive (a_tack c)
  else ∅.

(** How a Routing Context admits the Association: not at all, or as pending or
    not. *)
Definition admission (rc : Z) : option bool :=
  let activeState := bool_decide (State_ c = StateASPActive) in
  if bool_decide (role (a_cfg c) = RoleASP) then
    if activeState && routingContextAcked rc c && negb (routingContextOverridden rc c) then Some false
    else if bool_decide (rc ∈ pendingContexts) then Some true else None
  else if activeState && activeForRoutingContext rc c then Some false else None.

Fixpoint addBindingScope (p : SSNMPartition) (pending : bool) (scopes : list ssnmBindingScope)
    : list ssnmBindingScope :=
  match scopes with
  | [] => [mkBindingScope p pending]
  | b :: scopes =>
      if bool_decide (bs_partition b = p)
      then (if pending then b else mkBindingScope p false) :: scopes
      else b :: addBindingScope p pending scopes
  end.

Definition bindingStep (scopes : list ssnmBindingScope) (rc : Z) : list ssnmBindingScope :=
  match admission rc with
  | None => scopes
  | Some pending =>
      addBindingScope
        (ssnmPartitionFor (asKeyForConfigRoutingContext (Some (ApplicationServers (a_cfg c))) rc))
        pending scopes
  end.

Definition binding_scope_le (a b : ssnmBindingScope) : Prop :=
  partition_le (bs_partition a) (bs_partition b).
#[local] Instance binding_scope_le_dec : RelDecision binding_scope_le :=
  λ a b, decide (partition_le (bs_partition a) (bs_partition b)).

Definition ssnmBindingScopes : list ssnmBindingScope :=
  match configuredRoutingContexts c with
  | [] =>
      if bool_decide (State_ c = StateASPActive)
      then [mkBindingScope (ssnmPartitionFor (contextlessASKeyForConfig (Some (ApplicationServers (a_cfg c)))))
              (negb (contextlessASAcked c))]
      else []
  | contexts => merge_sort binding_scope_le (foldl bindingStep [] contexts)
  end.

Definition ssnmPendingPartitions : gset SSNMPartition :=
  list_to_set (bs_partition <$> List.filter bs_pending ssnmBindingScopes).

Definition partitionsBoundTo (association : Z) (s : ssnmState) : list SSNMPartition :=
  sortSSNMPartitions
    (filter (λ e, is_Some (bindings e.2 !! association)) (map_to_list (partitions s))).*1.

Definition syncSSNMBindings (s : ssnmState) : ssnmState :=
  let scopes := ssnmBindingScopes in
  let s := foldl (λ s b, (bind (bs_partition b) (si_ID i) (bs_pending b) s).2) s scopes in
  foldl (λ s p, retire p (si_ID i) s) s
    (filter (λ p, p ∉ bs_partition <$> scopes) (partitionsBoundTo (si_ID i) s)).

Definition retireSSNMBindings (s : ssnmState) : ssnmState := retireAssociation (si_ID i) s.

(** ** Reports (ssnm_binding.go) *)

Definition with_Partition (p : SSNMPartition) (r : SSNMReport) : SSNMReport :=
  Ssnm.mkReport (r_Kind r) (r_Source r) (r_Scope r) p (r_Association r) (r_Epoch r) (r_Revision r)
    (r_Destinations r) (r_CongestionLevel r) (r_CongestionLevelSet r) (r_PeerReported r).

Definition first_error (err : option ssnm_error) (next : option ssnm_error) : option ssnm_error :=
  match err with Some e => Some e | None => next end.

Definition publishOne (report : SSNMReport) (acc : option ssnm_error * ssnmState) (p : SSNMPartition)
    : option ssnm_error * ssnmState :=
  let '(err, s) := acc in
  match bind p (si_ID i) (bool_decide (p ∈ ssnmPendingPartitions)) s with
  | (Some e, s) => (first_error err (Some e), s)
  | (None, s) => let '(e, s) := apply (with_Partition p report) s in (first_error err e, s)
  end.

(** [report] carries the number of this Association. *)
Definition publishSSNMReport (report : SSNMReport) (s : ssnmState) : option ssnm_error * ssnmState :=
  foldl (publishOne report) (None, s) (ssnmPartitionsForScope (r_Scope report)).

(** Publishing in the monad; no error is [None]. *)
Definition publish (report : SSNMReport) : P (option ssnm_fault) := λ s,
  let '(err, store) := publishSSNMReport report (s_store s) in
  (inr (FaultStore <$> err), s <| s_store := store |>).

Definition ssnmDestinationsFrom (pointCodes masks : list Z) : list PointCodeRange :=
  zip_with RoutingKey.mkRange pointCodes masks.

Definition newReport (kind source : Z) (scope : WireScope) (ds : list PointCodeRange)
    (level : Z) (levelSet peerReported : bool) : SSNMReport :=
  Ssnm.mkReport kind source scope (mkPartition 0 EmptyString EmptyString 0) (si_ID i) 0 0 ds level levelSet
    peerReported.

Definition SSNMPeerReport : Z := 1.
Definition SSNMLocalReport : Z := 2.

(** ** The checks of a handler (ssnm.go, transfer.go, association.go) *)

Definition refuseOversizedSSNM (scope : WireScope) (count limit : Z) : P (list Z * list Z) := λ s,
  let '(err, store) := oversized (ssnmPartitionsForScope scope) count limit (si_ID i) (s_store s) in
  (inl (FaultStore (default ErrSSNMOversizedReport err)), s <| s_store := store |>).

Definition ssnmAffectedPointCodes (apc : option Param) (scope : WireScope) : P (list Z * list Z) := λ s,
  match apc with
  | None => throw FaultMissingAffectedPointCode s
  | Some p =>
      let count := AffectedPointCodeCount apc in
      let limit := MaxAffectedPointCodes (limits (s_store s)) in
      if count =? 0 then throw FaultMissingAffectedPointCode s
      else if limit <? count then refuseOversizedSSNM scope count limit s
      else
        let pcs := wordsOf (get_AffectedPointCodes p) in
        let masks := wordsOf (get_AffectedPointCodeMasks p) in
        if len pcs =? 0 then throw FaultMissingAffectedPointCode s
        else if negb (len masks =? len pcs) then throw (FaultProtocol ErrInvalidParameterValue) s
        else (inr (pcs, masks), s)
  end.

(** The appearance of a Routing Context, and whether it takes every one. *)
Definition contextAppearance (local : bool) (rc : Z) : Z * bool * bool :=
  match dynamicASKey rc local c with
  | Some key => (Inventory.NetworkAppearance key, Inventory.NetworkAppearanceSet key,
                 negb (Inventory.NetworkAppearanceSet key))
  | None => let key := staticASKeyForRoutingContext rc local c in
            (Inventory.NetworkAppearance key, Inventory.NetworkAppearanceSet key, false)
  end.

Definition sameContextAppearance (a b : Z * bool * bool) : bool :=
  Bool.eqb a.2 b.2 && Bool.eqb a.1.2 b.1.2 && (negb a.1.2 || (a.1.1 =? b.1.1)).

Definition resolveNetworkAppearanceValue (routingContext : option Param) (local : bool)
    : ssnm_fault + Z * bool * bool :=
  let contexts := match routingContext with
                  | Some _ => Tack.RoutingContexts routingContext
                  | None => if local && isIPSPDoubleExchange c then configuredLocalRoutingContexts c
                            else configuredRoutingContexts c
                  end in
  match contextAppearance local <$> contexts with
  | [] =>
      let key := Association.contextlessASKey local c in
      inr (if Inventory.NetworkAppearanceSet key then (Inventory.NetworkAppearance key, true, false)
           else (0, false, false))
  | a :: rest =>
      if negb (forallb (sameContextAppearance a) rest) then inl (FaultInvalidNetworkAppearance None)
      else if a.2 then inr (0, false, true)
      else if negb a.1.2 then inr (0, false, false)
      else inr (a.1.1, true, false)
  end.

Definition validateNetworkAppearanceValue (peer : option Param) (value : Z) (set all : bool)
    : option ssnm_fault :=
  match peer with
  | None => None
  | Some p =>
      if negb (Tag p =? Params.NetworkAppearance)
      then Some (FaultProtocol (NewParameterFaultErrorFor [] (ParamsError ErrInvalidType)))
      else if negb (len (Data p) =? 4)
      then Some (FaultProtocol (NewParameterFaultErrorFor [] (ParamsError ErrInvalidLength)))
      else if bool_decide (role (a_cfg c) = RoleASP) then None
      else if all then None
      else if negb set || negb (value =? valueOf (get_NetworkAppearance p))
      then Some (FaultInvalidNetworkAppearance (Some (valueOf (get_NetworkAppearance p))))
      else None
  end.

Definition validateSSNMNetworkAppearance (peer routingContext : option Param) : option ssnm_fault :=
  match resolveNetworkAppearanceValue routingContext false with
  | inl e => Some e
  | inr (value, set, all) => validateNetworkAppearanceValue peer value set all
  end.

Definition ssnmAllowed : bool := bool_decide (State_ c = StateASPActive).

Definition ssnmAllowedDuringActivation : bool :=
  if bool_decide (State_ c = StateASPActive) then true
  else bool_decide (role (a_cfg c) = RoleASP) && bool_decide (State_ c = StateASPInactive) &&
       bool_decide (pendingTAckRoutingContexts requestAspActive (a_tack c) ≠ ∅).

Definition validateSSNMRoutingContext (routingContext : option Param) : option ssnm_fault :=
  match validateRoutingContextAgainst routingContext (configuredRoutingContexts c) with
  | Some e => Some (FaultProtocol e)
  | None =>
      match routingContext with
      | Some _ => None
      | None => if 1 <? len (configuredRoutingContexts c)
                then Some (FaultProtocol ErrMissingRoutingContext) else None
      end
  end.

Definition peerRoutingContextOverridden (rc : Z) : bool :=
  negb (isIPSPDoubleExchange c) && routingContextOverridden rc c.

(** Whether the peer may speak of a Routing Context. *)
Definition contextAllowed (duringActivation : bool) (rc : Z) : bool :=
  match role (a_cfg c) with
  | RoleSGP => activeForRoutingContext rc c
  | RoleIPSP => bool_decide (State_ c = StateASPActive) && activeForRoutingContext rc c &&
                negb (peerRoutingContextOverridden rc)
  | RoleASP =>
      (duringActivation && bool_decide (rc ∈ pendingTAckRoutingContexts requestAspActive (a_tack c))) ||
      (bool_decide (State_ c = StateASPActive) && routingContextAcked rc c &&
       negb (routingContextOverridden rc c))
  end.

Definition ssnmRoutingContextsAllowed (routingContext : option Param) (duringActivation : bool) : bool :=
  forallb (contextAllowed duringActivation)
    (match routingContext with
     | Some _ => Tack.RoutingContexts routingContext
     | None => configuredRoutingContexts c
     end).

(** [false] is the silent discard of an ASP. *)
Definition validateSSNMScope (m : M3UA) (routingContext : option Param) (duringActivation : bool)
    : ssnm_fault + bool :=
  match validateSSNMRoutingContext routingContext with
  | Some e => inl e
  | None =>
      if ssnmRoutingContextsAllowed routingContext duringActivation then inr true
      else if bool_decide (role (a_cfg c) = RoleASP) then inr false
      else inl (FaultProtocol (UnexpectedMessageError m))
  end.

Definition scopeAllowed (m : M3UA) (routingContext : option Param) (duringActivation : bool) : P bool :=
  λ s, match validateSSNMScope m routingContext duringActivation with
       | inl e => throw e s
       | inr b => (inr b, s)
       end.

(** ** Applying a message (ssnm.go) *)

Definition destinationRecordLimit : Z :=
  if 0 <? si_maxSSNMDestinationRecords i then si_maxSSNMDestinationRecords i
  else DefaultMaxSSNMDestinationRecords.

Definition reportSSNM (report : WireScope → list PointCodeRange → SSNMReport)
    (networkAppearance routingContext apc : option Param) : P () :=
  let scope := ssnmWireScope networkAppearance routingContext in
  '(pcs, masks) ← ssnmAffectedPointCodes apc scope;
  err ← publish (report scope (ssnmDestinationsFrom pcs masks));
  check err.

(** The appearance the records go under. *)
Definition recordAppearance (networkAppearance : option Param) (scope : WireScope) : Z * bool :=
  match networkAppearance, ssnmASKeys scope with
  | None, key :: _ => (Inventory.NetworkAppearance key, Inventory.NetworkAppearanceSet key)
  | _, _ => destinationAppearance networkAppearance
  end.

Definition appliedRange (appearance : Z * bool) (state : DestinationNetworkState) (d : PointCodeRange)
    : destinationRange :=
  Destinations.mkRange appearance.1 appearance.2 0 false (PointCode d) (Mask d) state.

Definition applyRoutes (scope : WireScope) (ds : list PointCodeRange) (update : aspRouteUpdate) : P () :=
  guard_ (se_routes env ((λ d, mkStatus (PointCode d) (Mask d) scope) <$> ds) update) FaultRoutes.

(** The record of a report in the table; no error is [None]. *)
Definition recordRanges (congestionUpdate : bool) (contexts : option (list Z))
    (updates : list destinationRange) : P (option ssnm_fault) := λ s,
  let d := setRecordLimit destinationRecordLimit (s_table s) in
  let '(refused, d) :=
    match congestionUpdate, contexts with
    | true, Some rcs => setScopedCongestionRangesWithinBudget rcs updates d
    | true, None => setCongestionRangesWithinBudget updates d
    | false, Some rcs => setScopedRangesWithinBudget rcs updates d
    | false, None => setRangesWithinBudget updates d
    end in
  (inr (FaultRecordLimit <$> refused), s <| s_table := d |>).

(** A report on destinations ([PeerReported] is false and the kind is not that
    of a DUPU: those go to [reportSSNM]). *)
Definition applySSNM (report : WireScope → list PointCodeRange → SSNMReport)
    (networkAppearance routingContext apc : option Param) (state : DestinationNetworkState)
    (dims : Z) (update : aspRouteUpdate) : P () :=
  let scope := ssnmWireScope networkAppearance routingContext in
  '(pcs, masks) ← ssnmAffectedPointCodes apc scope;
  let ds := ssnmDestinationsFrom pcs masks in
  let updates := appliedRange (recordAppearance networkAppearance scope) state <$> ds in
  _ ← applyRoutes scope ds update;
  retained ← recordRanges (carries dims destinationCongestionDimension)
               (destinationRoutingContexts routingContext) updates;
  err ← publish (report scope ds);
  check (match retained with Some e => Some e | None => err end).

(** ** Handlers (ssnm.go) *)

Definition unexpected {A} (m : M3UA) : P A := throw (FaultProtocol (UnexpectedMessageError m)).

(** What the handlers of DUNA, DAVA and DRST share. *)
Definition handleAvailability (m : M3UA) (networkAppearance routingContext apc : option Param)
    (kind availability : Z) : P () :=
  if negb (bool_decide (role (a_cfg c) = RoleASP)) then unexpected m
  else if negb ssnmAllowedDuringActivation then unexpected m
  else
    _ ← check (validateSSNMNetworkAppearance networkAppearance routingContext);
    allowed ← scopeAllowed m routingContext true;
    if negb allowed then mret ()
    else applySSNM (λ scope ds, newReport kind SSNMPeerReport scope ds 0 false false)
           networkAppearance routingContext apc (mkNetworkState availability noCongestion)
           destinationAvailabilityDimension (aspRouteAvailabilityUpdate availability).

Definition handleDestinationUnavailable (d : DestinationUnavailable.DestinationUnavailable) : P () :=
  handleAvailability (Typed KDestinationUnavailable d) (DestinationUnavailable.NetworkAppearance d)
    (DestinationUnavailable.RoutingContext d) (DestinationUnavailable.AffectedPointCode d)
    SSNMDestinationUnavailableReport DestinationUnavailable.

Definition handleDestinationAvailable (d : DestinationAvailable.DestinationAvailable) : P () :=
  handleAvailability (Typed KDestinationAvailable d) (DestinationAvailable.NetworkAppearance d)
    (DestinationAvailable.RoutingContext d) (DestinationAvailable.AffectedPointCode d)
    SSNMDestinationAvailableReport DestinationAvailable.

Definition handleDestinationRestricted (d : DestinationRestricted.DestinationRestricted) : P () :=
  handleAvailability (Typed KDestinationRestricted d) (DestinationRestricted.NetworkAppearance d)
    (DestinationRestricted.RoutingContext d) (DestinationRestricted.AffectedPointCode d)
    SSNMDestinationRestrictedReport DestinationRestricted.

(** The level of a SCON, whether it has one, and whether it reports
    congestion; [None] for a level the protocol does not define. *)
Definition congestionOf (indications : option Param) : option CongestionState :=
  match indications with
  | None => Some (mkCongestionState true 0 false)
  | Some p =>
      let level := valueOf (CongestionLevel p) in
      if 3 <? level then None else Some (mkCongestionState (negb (level =? 0)) level true)
  end.

Definition handleSignallingCongestion (s : SignallingCongestion.SignallingCongestion) : P () :=
  let m := Typed KSignallingCongestion s in
  let networkAppearance := SignallingCongestion.NetworkAppearance s in
  let routingContext := SignallingCongestion.RoutingContext s in
  let isASP := bool_decide (role (a_cfg c) = RoleASP) in
  _ ← check (validateSSNMNetworkAppearance networkAppearance routingContext);
  if negb (if isASP then ssnmAllowedDuringActivation else ssnmAllowed) then unexpected m
  else
    allowed ← scopeAllowed m routingContext isASP;
    if negb allowed then mret ()
    else if negb (bool_decide (role (a_cfg c) = RoleSGP)) &&
            bool_decide (is_Some (SignallingCongestion.ConcernedDestination s))
    then throw (FaultProtocol ErrInvalidParameterValue)
    else
      match congestionOf (SignallingCongestion.CongestionIndications s) with
      | None => throw (FaultProtocol ErrInvalidParameterValue)
      | Some congestion =>
          let report peerReported scope ds :=
            newReport SSNMSignallingCongestionReport SSNMPeerReport scope ds (Level congestion)
              (LevelSet congestion) peerReported in
          if bool_decide (role (a_cfg c) = RoleSGP)
          then reportSSNM (report true) networkAppearance routingContext
                 (SignallingCongestion.AffectedPointCode s)
          else applySSNM (report false) networkAppearance routingContext
                 (SignallingCongestion.AffectedPointCode s)
                 (mkNetworkState DestinationAvailable congestion) destinationCongestionDimension
                 (aspRouteCongestionUpdate congestion)
      end.

Definition handleDestinationUserPartUnavailable
    (d : DestinationUserPartUnavailable.DestinationUserPartUnavailable) : P () :=
  let m := Typed KDestinationUserPartUnavailable d in
  let networkAppearance := DestinationUserPartUnavailable.NetworkAppearance d in
  let routingContext := DestinationUserPartUnavailable.RoutingContext d in
  if negb (bool_decide (role (a_cfg c) = RoleASP)) then unexpected m
  else if negb ssnmAllowed then unexpected m
  else
    _ ← check (validateSSNMNetworkAppearance networkAppearance routingContext);
    match DestinationUserPartUnavailable.AffectedPointCode d with
    | None => throw FaultMissingAffectedPointCode
    | Some apc =>
        _ ← guard_ (bool_decide (is_Some (DestinationUserPartUnavailable.UserCause d))) FaultMissingUserCause;
        allowed ← scopeAllowed m routingContext false;
        if negb allowed then mret ()
        else
          _ ← guard_ (negb (1 <? len (wordsOf (get_AffectedPointCodes apc))))
                (FaultProtocol ErrInvalidParameterValue);
          _ ← guard_ (forallb (λ mask, mask =? 0) (wordsOf (get_AffectedPointCodeMasks apc)))
                (FaultProtocol ErrInvalidParameterValue);
          reportSSNM (λ scope ds, newReport SSNMDestinationUserPartUnavailableReport SSNMPeerReport scope
                        ds 0 false false) networkAppearance routingContext (Some apc)
    end.

(** *** Audits *)

Record destinationAuditGroup : Set := mkAuditGroup {
  ag_state : DestinationNetworkState;
  ag_routingContexts : list Z;
}.

Fixpoint appendDestinationAuditGroup (groups : list destinationAuditGroup)
    (state : DestinationNetworkState) (rc : Z) : list destinationAuditGroup :=
  match groups with
  | [] => [mkAuditGroup state [rc]]
  | g :: groups =>
      if bool_decide (ag_state g = state) then mkAuditGroup state (ag_routingContexts g ++ [rc]) :: groups
      else g :: appendDestinationAuditGroup groups state rc
  end.

(** *** The barrier of a write (association.go) *)

(** The Routing Context and the Network Appearance of an SSNM message. *)
Definition ssnmRoutingContext (m : M3UA) : option (option Param) :=
  match m with
  | Typed KDestinationUnavailable d => Some (DestinationUnavailable.RoutingContext d)
  | Typed KDestinationAvailable d => Some (DestinationAvailable.RoutingContext d)
  | Typed KDestinationStateAudit d => Some (DestinationStateAudit.RoutingContext d)
  | Typed KSignallingCongestion d => Some (SignallingCongestion.RoutingContext d)
  | Typed KDestinationUserPartUnavailable d => Some (DestinationUserPartUnavailable.RoutingContext d)
  | Typed KDestinationRestricted d => Some (DestinationRestricted.RoutingContext d)
  | _ => None
  end.

Definition ssnmNetworkAppearance (m : M3UA) : option Param :=
  match m with
  | Typed KDestinationUnavailable d => DestinationUnavailable.NetworkAppearance d
  | Typed KDestinationAvailable d => DestinationAvailable.NetworkAppearance d
  | Typed KDestinationStateAudit d => DestinationStateAudit.NetworkAppearance d
  | Typed KSignallingCongestion d => SignallingCongestion.NetworkAppearance d
  | Typed KDestinationUserPartUnavailable d => DestinationUserPartUnavailable.NetworkAppearance d
  | Typed KDestinationRestricted d => DestinationRestricted.NetworkAppearance d
  | _ => None
  end.

Definition validateOutboundNetworkAppearanceAgainst (networkAppearance : option Param) (configured : Z)
    (set all : bool) : option ssnm_fault :=
  match networkAppearance with
  | None => None
  | Some p =>
      if negb (Tag p =? Params.NetworkAppearance) || negb (len (Data p) =? 4)
      then Some (FaultInvalidNetworkAppearance None)
      else if all then None
      else if negb set || negb (configured =? valueOf (get_NetworkAppearance p))
      then Some (FaultInvalidNetworkAppearance (Some (valueOf (get_NetworkAppearance p))))
      else None
  end.

Definition validateOutboundSSNMRoutingContext (routingContext : option Param) : option ssnm_fault :=
  let configured := if isIPSPDoubleExchange c then configuredLocalRoutingContexts c
                    else configuredRoutingContexts c in
  match validateRoutingContextAgainst routingContext configured with
  | Some e => Some (FaultProtocol e)
  | None => if bool_decide (routingContext = None) && (1 <? len configured)
            then Some (FaultProtocol ErrMissingRoutingContext) else None
  end.

Definition staticRoutingContextConfigured (rc : Z) : bool :=
  if bool_decide (role (a_cfg c) = RoleSGP) && authorizationResolved (a_member c)
  then bool_decide (rc ∈ authorizedRCs (a_member c))
  else asConfigCarriesRoutingContext (applicationServerInventory false c) rc.

Definition routingContextConfigured (rc : Z) : bool :=
  staticRoutingContextConfigured rc || bool_decide (is_Some (dynamicPeerASKeys (a_member c) !! rc)).

(** The error of [routingContextFor]. *)
Definition routingContextFor (rc : Z) : option ssnm_fault :=
  if negb (routingContextConfigured rc) then Some (FaultProtocol (NewInvalidRoutingContextError [rc]))
  else if negb (outboundRoutingContextActive rc c) then Some FaultRoutingContextNotActive
  else None.

(** The first error of a list of checks. *)
Fixpoint first_fault (checks : list (option ssnm_fault)) : option ssnm_fault :=
  match checks with
  | [] => None
  | Some e :: _ => Some e
  | None :: checks => first_fault checks
  end.

Definition serverRefusal (key : ASKey) (server : serverView) : option ssnm_fault :=
  if view_closed server then Some (FaultProtocol ErrAssociationClosed)
  else if negb (bool_decide (view_asps server = Some StateASPActive)) || negb (activeForASKey key c)
  then Some FaultRoutingContextNotActive
  else if negb (bool_decide (view_state server = ASActive)) then Some FaultNoActiveASP
  else None.

Definition lockOutboundApplicationServers (rcs : list Z) : option ssnm_fault :=
  if bool_decide (role (a_cfg c) = RoleASP) || negb (hasAS (a_cfg c)) then None
  else
    let ordered := sort_by compareASKey
      (if len rcs =? 0 then configuredASKeys c else asKeysForRoutingContexts rcs c) in
    first_fault
      (((λ key, match se_lookup env key with
                | Some _ => None | None => Some FaultRoutingContextNotActive end) <$> ordered) ++
       ((λ key, se_lookup env key ≫= serverRefusal key) <$> ordered)).

Definition lockResolvedOutboundDataScope (routingContext : option Param) : option ssnm_fault :=
  let contexts := Tack.RoutingContexts routingContext in
  let active := bool_decide (State_ c = StateASPActive) in
  if bool_decide (role (a_cfg c) = RoleASP) then None
  else
    match lockOutboundApplicationServers contexts with
    | Some e => Some (if active then e else FaultNotEstablished)
    | None =>
        if bool_decide (role (a_cfg c) = RoleSGP) && bool_decide (is_Some routingContext) then None
        else if negb active then Some FaultNotEstablished
        else if bool_decide (role (a_cfg c) = RoleIPSP) && bool_decide (is_Some routingContext) &&
                negb (forallb (λ rc, outboundRoutingContextActive rc c) contexts)
        then Some FaultRoutingContextNotActive
        else None
    end.

Definition lockResolvedOutboundIPSPSSNMScope (routingContext : option Param) : option ssnm_fault :=
  if negb (bool_decide (localIPSPStateValue c = StateASPActive)) then Some FaultNotEstablished
  else if forallb (λ rc, routingContextAcked rc c && negb (routingContextOverridden rc c))
            (Tack.RoutingContexts routingContext)
  then None else Some FaultRoutingContextNotActive.

(** The rest of [lockOutboundSSNMScope], for the Routing Contexts found. *)
Definition lockOutboundContexts (contexts : list Z) : option ssnm_fault :=
  let double := isIPSPDoubleExchange c in
  let isSGP := bool_decide (role (a_cfg c) = RoleSGP) in
  let isIPSP := bool_decide (role (a_cfg c) = RoleIPSP) in
  if len contexts =? 0 then
    if negb (bool_decide ((if double then localIPSPStateValue c else State_ c) = StateASPActive))
    then Some FaultNotEstablished
    else if isSGP && (0 <? len (asConfigRoutingContexts (ApplicationServers (a_cfg c))))
    then Some (FaultProtocol ErrNoConfiguredAS)
    else if isSGP then lockResolvedOutboundDataScope None
    else if isIPSP then
      if double then lockResolvedOutboundIPSPSSNMScope None else lockResolvedOutboundDataScope None
    else None
  else if double then lockResolvedOutboundIPSPSSNMScope (Some (NewRoutingContext contexts))
  else first_fault
         ((routingContextFor <$> contexts) ++
          [if isIPSP then lockResolvedOutboundDataScope (Some (NewRoutingContext contexts))
           else lockOutboundApplicationServers contexts]).

Definition lockOutboundSSNMScope (decoded : M3UA) : option ssnm_fault :=
  let isCongestion := match decoded with Typed KSignallingCongestion _ => true | _ => false end in
  if bool_decide (role (a_cfg c) = RoleIPSP) && negb isCongestion then Some (FaultProtocol ErrUnsupportedRole)
  else
    match ssnmRoutingContext decoded with
    | None => None
    | Some routingContext =>
        match resolveNetworkAppearanceValue routingContext (isIPSPDoubleExchange c) with
        | inl e => Some e
        | inr (value, set, all) =>
            first_fault
              [validateOutboundNetworkAppearanceAgainst (ssnmNetworkAppearance decoded) value set all;
               validateOutboundSSNMRoutingContext routingContext;
               lockOutboundContexts (match routingContext with
                                     | Some _ => Tack.RoutingContexts routingContext
                                     | None => configuredLocalRoutingContexts c
                                     end)]
        end
    end.

(** [writeSignal] of an SSNM message: what its octets say passes the barrier. *)
Definition writeSignal (m : M3UA) : P () := λ s,
  match MarshalBinary m with
  | Ok (_, raw) =>
      match Parse raw with
      | Ok decoded =>
          match lockOutboundSSNMScope decoded with
          | Some e => throw e s
          | None =>
              let ok := se_write env (length (s_written s)) in
              ((if ok then inr () else inl (FaultProtocol ErrWrite)), s <| s_written ::= λ l, l ++ [(m, ok)] |>)
          end
      | Err e => throw (FaultMessage e) s
      | _ => throw FaultPanic s
      end
  | Err e => throw (FaultMessage e) s
  | _ => throw FaultPanic s
  end.

Definition auditReplies (networkAppearance routingContext : option Param) (d : PointCodeRange)
    (state : DestinationNetworkState) : list M3UA :=
  let apc := Some (NewAffectedPointCodeWithMask (Mask d) (PointCode d)) in
  let availability := ns_Availability state in
  let congestion := ns_Congestion state in
  (if Congested congestion && negb (availability =? DestinationUnavailable)
   then [Typed KSignallingCongestion (SignallingCongestion.NewSignallingCongestion
           (Copy networkAppearance) routingContext apc None
           (if LevelSet congestion then Some (NewCongestionIndications (Level congestion)) else None) None)]
   else []) ++
  [if availability =? DestinationUnavailable
   then Typed KDestinationUnavailable (DestinationUnavailable.NewDestinationUnavailable
          (Copy networkAppearance) routingContext apc None)
   else if availability =? DestinationRestricted
   then Typed KDestinationRestricted (DestinationRestricted.NewDestinationRestricted
          (Copy networkAppearance) routingContext apc None)
   else Typed KDestinationAvailable (DestinationAvailable.NewDestinationAvailable
          (Copy networkAppearance) routingContext apc None)].

Fixpoint writeReplies (ms : list M3UA) : P () :=
  match ms with
  | [] => mret ()
  | m :: ms => _ ← writeSignal m; writeReplies ms
  end.

Definition writeDestinationAuditReply (networkAppearance : option Param) (routingContextPresent : bool)
    (d : PointCodeRange) (group : destinationAuditGroup) : P () :=
  writeReplies (auditReplies networkAppearance
    (if routingContextPresent then Some (NewRoutingContext (ag_routingContexts group)) else None)
    d (ag_state group)).

Definition auditScope (appearance : Z * bool) (rc : option Z) : destinationKey :=
  mkDestinationKey appearance.1 appearance.2 (default 0 rc) (bool_decide (is_Some rc)) [] 0 0.

(** What the audit answers is [SsnmEndpoint.auditState], on the Endpoint's table. *)
Definition auditAnswer (scope : destinationKey) (d : PointCodeRange) (table : destinations)
    : DestinationNetworkState :=
  auditState scope (PointCode d) (Mask d) (mkSGP restarts table (mkWire 0 [])).

Definition auditGroups (appearance : Z * bool) (contexts : option (list Z)) (d : PointCodeRange)
    (table : destinations) : list destinationAuditGroup :=
  match contexts with
  | Some rcs =>
      foldl (λ groups rc,
        appendDestinationAuditGroup groups (auditAnswer (auditScope appearance (Some rc)) d table) rc) [] rcs
  | None => [mkAuditGroup (auditAnswer (auditScope appearance None) d table) []]
  end.

Fixpoint forEach {A} (l : list A) (f : A → P ()) : P () :=
  match l with
  | [] => mret ()
  | x :: l => _ ← f x; forEach l f
  end.

Definition answerDestination (networkAppearance routingContext : option Param) (d : PointCodeRange)
    : P () := λ s,
  forEach (auditGroups (destinationAppearance networkAppearance)
             (destinationRoutingContexts routingContext) d (s_table s))
    (writeDestinationAuditReply networkAppearance (bool_decide (is_Some routingContext)) d) s.

Definition handleDestinationStateAudit (d : DestinationStateAudit.DestinationStateAudit) : P () :=
  let m := Typed KDestinationStateAudit d in
  let networkAppearance := DestinationStateAudit.NetworkAppearance d in
  let routingContext := DestinationStateAudit.RoutingContext d in
  if negb (bool_decide (role (a_cfg c) = RoleSGP)) then unexpected m
  else
    _ ← check (validateSSNMNetworkAppearance networkAppearance routingContext);
    if negb ssnmAllowed then unexpected m
    else
      allowed ← scopeAllowed m routingContext false;
      if negb allowed then mret ()
      else
        let scope := ssnmWireScope networkAppearance routingContext in
        '(pcs, masks) ← ssnmAffectedPointCodes (DestinationStateAudit.AffectedPointCode d) scope;
        let ds := ssnmDestinationsFrom pcs masks in
        err ← publish (newReport SSNMDestinationStateAuditReport SSNMPeerReport scope ds 0 false false);
        _ ← check err;
        forEach ds (answerDestination networkAppearance routingContext).

(** The part of the dispatcher that concerns SSNM. *)
Definition handleSSNM (m : M3UA) : P () :=
  match m with
  | Typed KDestinationUnavailable d => handleDestinationUnavailable d
  | Typed KDestinationAvailable d => handleDestinationAvailable d
  | Typed KDestinationRestricted d => handleDestinationRestricted d
  | Typed KSignallingCongestion s => handleSignallingCongestion s
  | Typed KDestinationUserPartUnavailable d => handleDestinationUserPartUnavailable d
  | Typed KDestinationStateAudit d => handleDestinationStateAudit d
  | _ => mret ()
  end.

(** ** Requests of an ASP (ssnm_operations.go) *)

Definition configuredLocalASKeysForStatus : list ASKey :=
  if negb (isIPSPDoubleExchange c) then configuredASKeys c
  else if negb (hasLocalIPSPTrafficDirection c) then []
  else
    let contexts := asConfigRoutingContexts (applicationServerInventory true c) in
    uniqueASKeys
      ((if len contexts =? 0 then [Association.contextlessASKey true c]
        else (λ rc, staticASKeyForRoutingContext rc true c) <$> contexts) ++
       (map_to_list (dynamicLocalASKeys (a_member c))).*2).

(** The loop over the Routing Contexts of [outboundSSNMASKeys]. *)
Fixpoint outboundKeys (scope : WireScope) (configured : list ASKey) (contexts : list Z)
    : ssnm_fault + list ASKey :=
  match contexts with
  | [] => inr []
  | rc :: contexts =>
      let candidates := List.filter (λ key, Inventory.RoutingContextSet key &&
                                            (Inventory.RoutingContext key =? rc)) configured in
      let found :=
        if len candidates =? 0 then inl (FaultProtocol (NewInvalidRoutingContextError [rc]))
        else if Ssnm.NetworkAppearanceSet scope then
          match find (named (Ssnm.NetworkAppearance scope)) candidates with
          | Some key => inr key
          | None => inl (FaultInvalidNetworkAppearance None)
          end
        else match candidates with
             | [key] => inr key
             | _ => inl (FaultInvalidNetworkAppearance None)
             end in
      match found, outboundKeys scope configured contexts with
      | inl e, _ => inl e
      | _, inl e => inl e
      | inr key, inr keys => inr (key :: keys)
      end
  end.

Definition outboundSSNMASKeys (scope : WireScope) (configured : list ASKey) : ssnm_fault + list ASKey :=
  if negb (Ssnm.RoutingContextSet scope) then
    match configured with
    | [key] =>
        if Ssnm.NetworkAppearanceSet scope && negb (named (Ssnm.NetworkAppearance scope) key)
        then inl (FaultInvalidNetworkAppearance None) else inr [key]
    | _ => inl (FaultProtocol ErrMissingRoutingContext)
    end
  else outboundKeys scope configured (Ssnm.RoutingContexts scope).

Definition validateOutboundASPSSNMScope (scope : WireScope) (routingContext : option Param)
    : option ssnm_fault :=
  match validateSSNMRoutingContext routingContext with
  | Some e => Some e
  | None =>
      let configured := configuredLocalASKeysForStatus in
      if len configured =? 0 then Some (FaultProtocol ErrNoConfiguredAS)
      else
        match outboundSSNMASKeys scope configured with
        | inl e => Some e
        | inr requested =>
            if forallb (λ key, activeForASKey key c) requested then None
            else Some (FaultProtocol ErrInvalidState)
        end
  end.

Definition prepareASPSSNM (scope : WireScope) (ds : list PointCodeRange) (info : bytes)
    : P ssnmParameters := λ s,
  if negb (bool_decide (role (a_cfg c) = RoleASP)) then throw (FaultProtocol ErrUnsupportedRole) s
  else if ended (a_core c) then throw FaultEnded s
  else if negb (bool_decide (State_ c = StateASPActive)) then throw (FaultProtocol ErrInvalidState) s
  else
    match buildSSNMParameters scope ds info with
    | inl e => throw (FaultCall e) s
    | inr ps =>
        match validateOutboundASPSSNMScope scope (sp_routingContext ps) with
        | Some e => throw e s
        | None => (inr ps, s)
        end
    end.

Record DestinationStateAuditRequest : Set := mkAuditRequest {
  qr_Scope : WireScope;
  qr_Destinations : list PointCodeRange;
  qr_Info : bytes;
}.

Definition requestDestinationStateAudit (r : DestinationStateAuditRequest) : P () :=
  ps ← prepareASPSSNM (qr_Scope r) (qr_Destinations r) (qr_Info r);
  _ ← writeSignal (Typed KDestinationStateAudit (DestinationStateAudit.NewDestinationStateAudit
        (sp_networkAppearance ps) (sp_routingContext ps) (sp_affectedPointCode ps) (sp_info ps)));
  _ ← publish (newReport SSNMDestinationStateAuditReport SSNMLocalReport (qr_Scope r) (qr_Destinations r)
        0 false false);
  mret ().

Definition requestSignallingCongestion (r : SignallingCongestionRequest) : P () :=
  ps ← prepareASPSSNM (cr_Scope r) (cr_Destinations r) (cr_Info r);
  '(concernedDestination, congestion) ←
    (λ s, (match buildSignallingCongestionParameters r true with
           | inl e => inl (FaultCall e)
           | inr p => inr p
           end, s));
  _ ← writeSignal (Typed KSignallingCongestion (SignallingCongestion.NewSignallingCongestion
        (sp_networkAppearance ps) (sp_routingContext ps) (sp_affectedPointCode ps)
        concernedDestination congestion (sp_info ps)));
  _ ← publish (newReport SSNMSignallingCongestionReport SSNMLocalReport (cr_Scope r) (cr_Destinations r)
        (cr_CongestionLevel r) (cr_CongestionLevelSet r) true);
  mret ().

Definition pauseDestinations (s : side) : side :=
  if bool_decide (role (a_cfg c) = RoleSGP) then s else s <| s_table ::= pause |>.

End association.

(** Application Servers bound to a Routing Context by a registration. *)
Definition noteCanonicalRemoteAS (rc : Z) (remote : string) (i : ssnmIdentity) : ssnmIdentity :=
  if bool_decide (remote = EmptyString) then i
  else mkIdentity (si_ID i) (si_peerSGP i) (si_inventory i) (<[rc := remote]> (si_canonicalRemoteAS i))
         (si_maxSSNMDestinationRecords i).

Definition forgetCanonicalRemoteAS (rc : Z) (i : ssnmIdentity) : ssnmIdentity :=
  mkIdentity (si_ID i) (si_peerSGP i) (si_inventory i) (delete rc (si_canonicalRemoteAS i))
    (si_maxSSNMDestinationRecords i).
