(* ===== verification/SsnmProcedureTheory.v ===== *)
(** * What received SSNM messages may change (SsnmProcedures.v)

    The destination table and the store change only by the word of a peer that
    may speak of the Routing Contexts concerned; what the peers of an SGP say
    never becomes the SGP's knowledge; and the bindings of an Association to the
    partitions of the store follow its entitlement, as far as there is room. *)

From stdpp Require Import sorting.
From coqutil Require Import Datatypes.RecordSettersUsingExistingGetters.
From S2P Require Import Prelude Params ParamsFacts ParamValues Header Inventory RoutingKey AppServer.
From S2P Require Import Ssnm SsnmInvariant SsnmTheory Destinations DestinationsTheory MsgSsnm Message.
From S2P Require Import Tack Association AspProcedures AspMachine AspStates MsgAspsm MsgAsptm.
From S2P Require Import Mtp3Restart SsnmEndpoint SsnmProcedures.
#[local] Open Scope Z_scope.

(** ** Knowledge of the store *)

(** What a partition holds. *)
Definition knows (s : ssnmState) (p : SSNMPartition)
    : gmap ssnmDestinationKey SSNMAvailability * gmap ssnmDestinationKey SSNMCongestion :=
  match partitions s !! p with Some st => (availability st, congestion st) | None => (∅, ∅) end.

(** No partition holds more than before. *)
Definition no_growth (s s' : ssnmState) : Prop :=
  ∀ p, (knows s' p).1 ⊆ (knows s p).1 ∧ (knows s' p).2 ⊆ (knows s p).2.

#[export] Instance no_growth_preorder : PreOrder no_growth.
Proof.
  split; [by intros s p|]. intros s s' s'' H H' p. destruct (H p), (H' p). split; by etrans.
Qed.

(** [no_growth] looks at the partitions only. *)
Lemma no_growth_partitions s s' : partitions s' = partitions s → no_growth s s'.
Proof. intros Hp p. unfold knows. by rewrite Hp. Qed.

Lemma no_growth_set st s s' :
  partitions s' = <[partition st := st]> (partitions s) →
  availability st ⊆ (knows s (partition st)).1 → congestion st ⊆ (knows s (partition st)).2 →
  no_growth s s'.
Proof.
  intros Hp Ha Hc p. unfold knows at 1 3. rewrite Hp.
  destruct (decide (partition st = p)) as [<-|Hne]; [by rewrite lookup_insert_eq|].
  rewrite lookup_insert_ne by done. by unfold knows.
Qed.

Section growth.
Context `{Quoting}.

Lemma no_growth_bindExisting st a pending s :
  availability st ⊆ (knows s (partition st)).1 → congestion st ⊆ (knows s (partition st)).2 →
  no_growth s (bindExisting st a pending s).
Proof.
  intros Ha Hc. unfold bindExisting. case_bool_decide; [done|].
  by eapply (no_growth_set (mkPartitionState (partition st) (epoch st) _ _ _ _)).
Qed.

Lemma no_growth_bind p a pending s : store_ok s → no_growth s (bind p a pending s).2.
Proof.
  intros [Ha _ _ _]. unfold bind. destruct (Kind p =? 0); [done|]. destruct (closed s); [done|].
  destruct (partitions s !! p) as [st|] eqn:Hp.
  - apply no_growth_bindExisting; unfold knows; rewrite (ac_key _ Ha _ _ Hp), Hp; done.
  - cbv zeta. destruct (_ <=? _); [by apply no_growth_partitions|].
    destruct (_ <? _); [by apply no_growth_partitions|].
    destruct (createPartition p s) as [st s1] eqn:Hc. injection Hc as <- <-. cbn [snd].
    etrans; [|apply no_growth_bindExisting; apply map_empty_subseteq].
    eapply no_growth_set; [done| |]; apply map_empty_subseteq.
Qed.

(** A report that is delivered and retained by nobody. *)
Lemma no_growth_apply report s :
  retainsAvailability report = false → retainsCongestion report = false →
  no_growth s (apply report s).2.
Proof.
  intros H1 H2. unfold apply. destruct (Kind _ =? 0); [done|]. destruct (closed s); [done|].
  destruct (partitions s !! _) as [st|]; [|by apply no_growth_partitions].
  cbv zeta. change (retainsAvailability (with_Epoch (epoch st) report)) with (retainsAvailability report).
  change (retainsCongestion (with_Epoch (epoch st) report)) with (retainsCongestion report).
  rewrite H1, H2. by apply no_growth_partitions.
Qed.

Lemma no_growth_invalidate p reason s : no_growth s (invalidateLocked p reason s).
Proof.
  unfold invalidateLocked. destruct (partitions s !! p) as [st|]; [|done]. destruct (_ =? 0); [done|].
  eapply (no_growth_set (mkPartitionState (partition st) (epoch st) (bindings st) ∅ ∅ _));
    [done| |]; apply map_empty_subseteq.
Qed.

Lemma no_growth_foldl {A} (f : ssnmState → A → ssnmState) l s :
  (∀ s x, no_growth s (f s x)) → no_growth s (foldl f s l).
Proof. intros Hf. revert s. induction l as [|x l IH]; intros s; [done|]. cbn. by trans (f s x). Qed.

Lemma no_growth_oversized ps count lim a s : no_growth s (oversized ps count lim a s).2.
Proof.
  unfold oversized. cbn [snd]. etrans; [|apply no_growth_foldl; intros; apply no_growth_invalidate].
  by apply no_growth_partitions.
Qed.
End growth.

(** ** What a handler may change *)

(** The table and the knowledge of the store change only where [φ], messages are
    written only where [ψ]. *)
Definition effect (φ ψ : Prop) (s s' : side) : Prop :=
  store_ok (s_store s) →
  store_ok (s_store s') ∧ (s_table s' = s_table s ∧ no_growth (s_store s) (s_store s') ∨ φ) ∧
  (s_written s' = s_written s ∨ ψ).

#[export] Instance effect_preorder φ ψ : PreOrder (effect φ ψ).
Proof.
  split; [intros s Hs; split; [done|]; split; by left|]. intros s s' s'' H H' Hs. destruct (H Hs) as (Hs' & H1 & H2).
  destruct (H' Hs') as (Hs'' & H1' & H2'). split; [done|]. split.
  - destruct H1 as [[Ht Hg]|]; [|by right]. destruct H1' as [[Ht' Hg']|]; [|by right]. left.
    split; [congruence|by etrans].
  - destruct H2; [|by right]. destruct H2'; [left; congruence|by right].
Qed.

Definition ensures {A} (R : side → side → Prop) (m : P A) : Prop := ∀ s, R s (m s).2.

Section ensures.
Context (R : side → side → Prop) `{!PreOrder R}.

Lemma ensures_ret {A} (a : A) : ensures R (mret a : P A).
Proof. by intros s. Qed.

Lemma ensures_throw {A} e : ensures R (throw e : P A).
Proof. by intros s. Qed.

Lemma ensures_bind {A B} (m : P A) (f : A → P B) :
  ensures R m → (∀ a s s', m s = (inr a, s') → ensures R (f a)) → ensures R (m ≫= f).
Proof.
  intros Hm Hf s. unfold mbind, P_bind. specialize (Hm s). destruct (m s) as [[e|a] s'] eqn:E; [done|].
  etrans; [exact Hm|]. by apply (Hf a s s').
Qed.

Lemma ensures_unexpected {A} m : ensures R (unexpected m : P A).
Proof. by intros s. Qed.

Lemma ensures_check err : ensures R (check err).
Proof. intros s. by destruct err. Qed.

Lemma ensures_guard b e : ensures R (guard_ b e).
Proof. intros s. by destruct b. Qed.

Lemma ensures_forEach {A} (l : list A) f : (∀ x, ensures R (f x)) → ensures R (forEach l f).
Proof.
  intros Hf. induction l as [|x l IH]; [by intros s|]. cbn. apply ensures_bind; [by apply Hf|done].
Qed.

Lemma ensures_if {A} (b : bool) (m m' : P A) :
  (b = true → ensures R m) → (b = false → ensures R m') → ensures R (if b then m else m').
Proof. destruct b; auto. Qed.
End ensures.

Create HintDb effects.
#[export] Hint Extern 1 (PreOrder _) => apply effect_preorder : effects.
#[export] Hint Resolve ensures_ret ensures_throw ensures_unexpected ensures_check ensures_guard : effects.

Section handlers.
Context `{Quoting} (env : ssnmEnvironment) (i : ssnmIdentity) (c : association)
  (restarts : mtp3RestartRegistry) (φ ψ : Prop).

(** A report that no partition retains. *)
Definition passing (report : SSNMReport) : Prop :=
  retainsAvailability report = false ∧ retainsCongestion report = false.

Lemma publishOne_effect report acc p :
  passing report ∨ φ → store_ok acc.2 →
  store_ok (publishOne i c report acc p).2 ∧ (no_growth acc.2 (publishOne i c report acc p).2 ∨ φ).
Proof.
  intros Hr Hs. destruct acc as [err s]. cbn in Hs |- *.
  pose proof (ok_bind p (si_ID i) (bool_decide (p ∈ ssnmPendingPartitions i c)) s Hs) as Hb.
  pose proof (no_growth_bind p (si_ID i) (bool_decide (p ∈ ssnmPendingPartitions i c)) s Hs) as Hg.
  destruct (bind _ _ _ s) as [[e|] s1]; cbn in Hb, Hg |- *; [by auto|].
  pose proof (ok_apply (with_Partition p report) s1 Hb) as Ha.
  assert (no_growth s1 (apply (with_Partition p report) s1).2 ∨ φ) as Hg1.
  { destruct Hr as [[H1 H2]|]; [|by right]. left. by apply no_growth_apply. }
  destruct (apply _ s1) as [e s2]. cbn in *. split; [done|]. destruct Hg1; [|by right]. left. by etrans.
Qed.

Lemma publish_effect report : passing report ∨ φ → ensures (effect φ ψ) (publish i c report).
Proof.
  intros Hr s Hs. unfold publish, publishSSNMReport.
  assert (∀ ps acc, store_ok acc.2 → store_ok (foldl (publishOne i c report) acc ps).2 ∧
            (no_growth acc.2 (foldl (publishOne i c report) acc ps).2 ∨ φ)) as Hf.
  { induction ps as [|p ps IH]; intros acc Ha; [by split; [|left]|]. cbn.
    destruct (publishOne_effect report acc p Hr Ha) as [H1 H2]. destruct (IH _ H1) as [H3 H4].
    split; [done|]. destruct H2; [|by right]. destruct H4; [|by right]. left. by etrans. }
  destruct (Hf (ssnmPartitionsForScope i c (r_Scope report)) (None, s_store s) Hs) as [H1 H2].
  destruct (foldl _ _ _) as [err store]. cbn in *. split; [done|]. split; [|by left].
  destruct H2; [by left|by right].
Qed.

Lemma points_effect apc scope : ensures (effect φ ψ) (ssnmAffectedPointCodes i c apc scope).
Proof.
  intros s. unfold ssnmAffectedPointCodes. destruct apc as [p|]; [|done]. cbv zeta.
  destruct (_ =? 0); [done|]. destruct (_ <? _).
  - intros Hs. unfold refuseOversizedSSNM.
    match goal with |- context [oversized ?ps ?n ?l ?a ?s] =>
      pose proof (no_growth_oversized ps n l a s) as Hg; pose proof (ok_oversized ps n l a s Hs) as Ho;
      destruct (oversized ps n l a s) end.
    cbn in *. auto.
  - destruct (_ =? 0); [done|]. by destruct (negb _).
Qed.

Lemma reportSSNM_effect report networkAppearance routingContext apc :
  (∀ scope ds, passing (report scope ds)) ∨ φ →
  ensures (effect φ ψ) (reportSSNM i c report networkAppearance routingContext apc).
Proof.
  intros Hr. unfold reportSSNM. apply ensures_bind; [apply _|apply points_effect|].
  intros [pcs masks] _ _ _. apply ensures_bind; [apply _| |auto with effects].
  apply publish_effect. destruct Hr; auto.
Qed.

Lemma applySSNM_effect report networkAppearance routingContext apc state dims update :
  φ → ensures (effect φ ψ) (applySSNM env i c report networkAppearance routingContext apc state dims update).
Proof.
  intros Hφ. unfold applySSNM. apply ensures_bind; [apply _|apply points_effect|].
  intros [pcs masks] _ _ _. apply ensures_bind; [apply _|apply ensures_guard, _|]. intros _ _ _ _.
  apply ensures_bind; [apply _| |].
  - intros s Hs. unfold recordRanges. cbv zeta. destruct (match carries _ _ with true => _ | false => _ end).
    cbn. auto.
  - intros. apply ensures_bind; [apply _|apply publish_effect; by right|auto with effects].
Qed.

Lemma writeSignal_effect m : ψ → ensures (effect φ ψ) (writeSignal env c m).
Proof.
  intros Hψ s. unfold writeSignal. destruct (MarshalBinary m) as [[m' raw]| | |]; [|done..].
  destruct (Parse raw) as [decoded| | |]; [|done..]. destruct (lockOutboundSSNMScope _ _ _); [done|].
  intros Hs. cbn. split; [done|]. split; [by left|by right].
Qed.

Lemma writeReplies_effect ms : ψ → ensures (effect φ ψ) (writeReplies env c ms).
Proof.
  intros Hψ. induction ms as [|m ms IH]; [by intros s|]. cbn.
  apply ensures_bind; [apply _|by apply writeSignal_effect|done].
Qed.

Lemma scopeAllowed_effect m routingContext d : ensures (effect φ ψ) (scopeAllowed c m routingContext d).
Proof. intros s. unfold scopeAllowed. by destruct (validateSSNMScope _ _ _ _). Qed.

(** The effect of the rest of a handler, once the scope has been accepted. *)
Lemma after_scope {A} m routingContext d (f : bool → P A) :
  (∀ b, validateSSNMScope c m routingContext d = inr b → ensures (effect φ ψ) (f b)) →
  ensures (effect φ ψ) (scopeAllowed c m routingContext d ≫= f).
Proof.
  intros Hf. apply ensures_bind; [apply _|apply scopeAllowed_effect|]. intros b s s' Hb. apply Hf.
  unfold scopeAllowed in Hb. destruct (validateSSNMScope _ _ _ _); unfold throw in Hb; congruence.
Qed.
End handlers.

Lemma scope_accepted c m routingContext d :
  validateSSNMScope c m routingContext d = inr true →
  ssnmRoutingContextsAllowed c routingContext d = true.
Proof.
  unfold validateSSNMScope. destruct (validateSSNMRoutingContext c routingContext); [done|].
  destruct (ssnmRoutingContextsAllowed _ _ _); [done|]. by case_bool_decide.
Qed.

(** ** Entitlement *)

(** The Routing Contexts a message concerns. *)
Definition concerned (c : association) (routingContext : option Param) : list Z :=
  match routingContext with
  | Some _ => Tack.RoutingContexts routingContext
  | None => configuredRoutingContexts c
  end.

Definition activeFor (c : association) (rc : Z) : Prop :=
  match role (a_cfg c) with
  | RoleASP => State_ c = StateASPActive ∧ routingContextAcked rc c = true ∧
               routingContextOverridden rc c = false
  | RoleIPSP => State_ c = StateASPActive ∧ activeForRoutingContext rc c = true ∧
                peerRoutingContextOverridden c rc = false
  | RoleSGP => State_ c = StateASPActive ∧ activeForRoutingContext rc c = true
  end.

(** The peer may tell this Association of destinations in the Routing Context:
    the Association is active there and no other has taken it over, or it is an
    ASP that waits for its ASP Active Ack. *)
Definition entitled (c : association) (rc : Z) : Prop :=
  activeFor c rc ∨
  role (a_cfg c) = RoleASP ∧ rc ∈ pendingTAckRoutingContexts requestAspActive (a_tack c).

Lemma allowed_entitled c d rc :
  State_ c = StateASPActive ∨ role (a_cfg c) ≠ RoleSGP → contextAllowed c d rc = true → entitled c rc.
Proof.
  intros Hst. unfold contextAllowed, entitled, activeFor. destruct (role (a_cfg c)) eqn:Hr.
  - intros [[_ Hp]%andb_true_iff|[[Ha Hk]%andb_true_iff Ho]%andb_true_iff]%orb_true_iff.
    + right. split; [done|]. by apply bool_decide_eq_true in Hp.
    + left. apply bool_decide_eq_true in Ha. by apply negb_true_iff in Ho.
  - intros Ha. left. by destruct Hst.
  - intros [[Ha Hk]%andb_true_iff Ho]%andb_true_iff. left. apply bool_decide_eq_true in Ha.
    by apply negb_true_iff in Ho.
Qed.

Lemma allowed_concerned c d routingContext :
  State_ c = StateASPActive ∨ role (a_cfg c) ≠ RoleSGP →
  ssnmRoutingContextsAllowed c routingContext d = true →
  ∀ rc, rc ∈ concerned c routingContext → entitled c rc.
Proof.
  intros Hst Ha rc Hrc. unfold ssnmRoutingContextsAllowed in Ha. rewrite forallb_forall in Ha.
  apply (allowed_entitled c d); [done|]. by apply Ha, list_elem_of_In.
Qed.

(** An Association that is up for traffic, or about to be. *)
Definition listening (c : association) : Prop :=
  State_ c = StateASPActive ∨
  role (a_cfg c) = RoleASP ∧ State_ c = StateASPInactive ∧
  pendingTAckRoutingContexts requestAspActive (a_tack c) ≠ ∅.

Lemma allowed_listening c : ssnmAllowedDuringActivation c = true → listening c.
Proof.
  unfold ssnmAllowedDuringActivation, listening. case_bool_decide; [by left|].
  intros [[? ?]%andb_true_iff ?]%andb_true_iff. right.
  by repeat match goal with H : bool_decide _ = true |- _ => apply bool_decide_eq_true in H end.
Qed.

Definition routingContextOf (m : M3UA) : option Param :=
  match m with
  | Typed KDestinationUnavailable d => DestinationUnavailable.RoutingContext d
  | Typed KDestinationAvailable d => DestinationAvailable.RoutingContext d
  | Typed KDestinationRestricted d => DestinationRestricted.RoutingContext d
  | Typed KSignallingCongestion d => SignallingCongestion.RoutingContext d
  | Typed KDestinationUserPartUnavailable d => DestinationUserPartUnavailable.RoutingContext d
  | Typed KDestinationStateAudit d => DestinationStateAudit.RoutingContext d
  | _ => None
  end.

(** ** Received messages *)

Section received.
Context `{Quoting} (env : ssnmEnvironment) (i : ssnmIdentity) (c : association)
  (restarts : mtp3RestartRegistry).

(** The word of a peer that counts as knowledge. *)
Definition teaches (m : M3UA) : Prop :=
  role (a_cfg c) ≠ RoleSGP ∧ listening c ∧
  ∀ rc, rc ∈ concerned c (routingContextOf m) → entitled c rc.

(** An audit that is answered. *)
Definition asks (m : M3UA) : Prop :=
  role (a_cfg c) = RoleSGP ∧ (∃ d, m = Typed KDestinationStateAudit d) ∧
  ∀ rc, rc ∈ concerned c (routingContextOf m) → activeFor c rc.

Lemma handleAvailability_effect m networkAppearance routingContext apc kind availability :
  routingContext = routingContextOf m →
  ensures (effect (teaches m) (asks m))
    (handleAvailability env i c m networkAppearance routingContext apc kind availability).
Proof.
  intros ->. unfold handleAvailability. case_bool_decide as Hr; cbn [negb]; [|auto with effects].
  destruct (ssnmAllowedDuringActivation c) eqn:Hl; cbn [negb]; [|auto with effects].
  apply ensures_bind; [auto with effects..|]. intros _ _ _ _. apply after_scope. intros [] Hb; cbn [negb];
    [|auto with effects].
  apply applySSNM_effect. split; [congruence|]. split; [by apply allowed_listening|].
  eapply allowed_concerned; [right; congruence|by eapply scope_accepted].
Qed.

Lemma handleSignallingCongestion_effect s :
  let m := Typed KSignallingCongestion s in
  ensures (effect (teaches m) (asks m)) (handleSignallingCongestion env i c s).
Proof.
  intros m. unfold handleSignallingCongestion. apply ensures_bind; [auto with effects..|]. intros _ _ _ _.
  match goal with |- context [negb ?b] => destruct b eqn:Hl; cbn [negb]; [|auto with effects] end.
  apply after_scope. intros [] Hb; cbn [negb]; [|auto with effects]. destruct (_ && _); [auto with effects|].
  destruct (congestionOf _) as [congestion|]; [|auto with effects]. cbv zeta.
  destruct (bool_decide (role (a_cfg c) = RoleSGP)) eqn:Hr; [apply bool_decide_eq_true in Hr|apply bool_decide_eq_false in Hr].
  - apply reportSSNM_effect. left. by intros.
  - apply applySSNM_effect. split; [done|]. split.
    { destruct (bool_decide (role (a_cfg c) = RoleASP)); [by apply allowed_listening|left].
      by apply bool_decide_eq_true in Hl. }
    eapply allowed_concerned; [by right|by eapply scope_accepted].
Qed.

Lemma handleUserPart_effect d :
  let m := Typed KDestinationUserPartUnavailable d in
  ensures (effect (teaches m) (asks m)) (handleDestinationUserPartUnavailable i c d).
Proof.
  intros m. unfold handleDestinationUserPartUnavailable. destruct (negb _); [auto with effects|].
  destruct (negb _); [auto with effects|]. apply ensures_bind; [auto with effects..|]. intros _ _ _ _.
  destruct (DestinationUserPartUnavailable.AffectedPointCode d); [|auto with effects].
  apply ensures_bind; [auto with effects..|]. intros _ _ _ _. apply after_scope.
  intros [] _; cbn [negb]; [|auto with effects].
  do 2 (apply ensures_bind; [auto with effects..|]; intros _ _ _ _).
  apply reportSSNM_effect. left. by intros.
Qed.

Lemma handleDestinationStateAudit_effect d :
  let m := Typed KDestinationStateAudit d in
  ensures (effect (teaches m) (asks m)) (handleDestinationStateAudit env i c restarts d).
Proof.
  intros m. unfold handleDestinationStateAudit. case_bool_decide as Hr; cbn [negb]; [|auto with effects].
  apply ensures_bind; [auto with effects..|]. intros _ _ _ _. unfold ssnmAllowed.
  case_bool_decide as Hst; cbn [negb]; [|auto with effects]. apply after_scope.
  intros [] Hb; cbn [negb]; [|auto with effects].
  assert (Hasks : asks m).
  { split; [done|]. split; [by exists d|]. intros rc Hrc.
    pose proof (allowed_concerned c false _ (or_introl Hst) (scope_accepted _ _ _ _ Hb) rc Hrc) as [?|[? _]]; [done|].
    congruence. }
  apply ensures_bind; [auto with effects|apply points_effect|]. intros [pcs masks] _ _ _.
  apply ensures_bind; [auto with effects| |].
  { apply publish_effect. by left. }
  intros. apply ensures_bind; [auto with effects..|]. intros _ _ _ _. apply ensures_forEach; [auto with effects|].
  intros dest s1. unfold answerDestination.
  revert s1. refine (λ s1, ensures_forEach (effect (teaches m) (asks m)) _ _ _ s1).
  intros group. by apply writeReplies_effect.
Qed.

(** C17: What a peer says of SS7 destinations becomes knowledge, in the destination
    table or in the store, only where the peer is entitled to say it. The
    Association is an ASP or an IPSP that is ASP-ACTIVE, or an ASP that is
    ASP-INACTIVE and waits for an ASP Active Ack; and in every Routing Context the
    message concerns it is active, and no other has taken the Routing Context over
    from the ASP or the IPSP, or it is an ASP that waits there for its ASP Active
    Ack. And nothing is written to the peer but by an SGP, in answer to an audit of
    Routing Contexts in which the peer is active. *)
Theorem received_ssnm_needs_entitlement config m s :
  Ssnm.reachable config (s_store s) →
  let s' := (handleSSNM env i c restarts m s).2 in
  (s_table s' = s_table s ∧ no_growth (s_store s) (s_store s') ∨ teaches m) ∧
  (s_written s' = s_written s ∨ asks m).
Proof.
  intros Hs%reachable_ok. cbn zeta.
  enough (ensures (effect (teaches m) (asks m)) (handleSSNM env i c restarts m)) as He by by apply (He s Hs).
  destruct m as [g|k d]; [by intros s0|]. destruct k; cbn [handleSSNM]; auto with effects.
  - by apply handleAvailability_effect.
  - by apply handleAvailability_effect.
  - by apply handleDestinationStateAudit_effect.
  - by apply handleSignallingCongestion_effect.
  - by apply handleUserPart_effect.
  - by apply handleAvailability_effect.
Qed.
End received.

(** ** Bindings *)

(** The partition with a binding of [a]. *)
Definition rebound (a : Z) (pending : bool) (st : ssnmPartitionState) : ssnmPartitionState :=
  mkPartitionState (partition st) (epoch st) (<[a := pending]> (bindings st)) (availability st)
    (congestion st) (pbytes st).

Definition newPartition (p : SSNMPartition) (e a : Z) (pending : bool) : ssnmPartitionState :=
  mkPartitionState p e {[a := pending]} ∅ ∅ ssnmPartitionBaseBytes.

Section bindings.
Context `{Quoting}.

Lemma bindExisting_lookup st a pending s q :
  partitions s !! partition st = Some st →
  partitions (bindExisting st a pending s) !! q =
  if decide (partition st = q) then Some (rebound a pending st) else partitions s !! q.
Proof.
  intros Hst. unfold bindExisting. case_bool_decide as Hb.
  - case_decide as Hq; [|done]. subst q. rewrite Hst. f_equal. unfold rebound. rewrite insert_id by done.
    by destruct st.
  - cbn. case_decide as Hq; [by subst q; rewrite lookup_insert_eq|by rewrite lookup_insert_ne].
Qed.

(** What [bind] makes of an open store. *)
Lemma bind_lookup p a pending s :
  store_ok s → closed s = false → Kind p ≠ 0 →
  let s' := (bind p a pending s).2 in
  closed s' = false ∧ (∀ q, q ≠ p → partitions s' !! q = partitions s !! q) ∧
  match partitions s !! p with
  | Some st => partitions s' !! p = Some (rebound a pending st)
  | None => partitions s' !! p = None ∨ ∃ e, partitions s' !! p = Some (newPartition p e a pending)
  end.
Proof.
  intros Hok Hcl Hk. cbn zeta. unfold bind. rewrite (proj2 (Z.eqb_neq _ _) Hk), Hcl.
  destruct (partitions s !! p) as [st|] eqn:Hp; cbv zeta.
  - pose proof (ac_key _ (ok_accounted _ Hok) _ _ Hp) as Hpk. subst p. cbn [snd]. split; [|split].
    + unfold bindExisting. by case_bool_decide.
    + intros q Hq. rewrite bindExisting_lookup by done. by rewrite decide_False.
    + rewrite bindExisting_lookup by done. by rewrite decide_True.
  - destruct (_ <=? _); [by split; [|split; [|left]]|]. destruct (_ <? _); [by split; [|split; [|left]]|].
    destruct (createPartition p s) as [st s1] eqn:Hc. injection Hc as <- <-. cbn [snd].
    split; [by unfold bindExisting; case_bool_decide|]. split.
    + intros q Hq. rewrite bindExisting_lookup by (cbn; by rewrite lookup_insert_eq).
      cbn. rewrite decide_False by done. by rewrite lookup_insert_ne.
    + right. exists (epochs s + 1). rewrite bindExisting_lookup by (cbn; by rewrite lookup_insert_eq).
      cbn. by rewrite decide_True.
Qed.

Definition bindAll (a : Z) (scopes : list ssnmBindingScope) (s : ssnmState) : ssnmState :=
  foldl (λ s b, (bind (bs_partition b) a (bs_pending b) s).2) s scopes.

Lemma bindAll_lookup a scopes s p :
  store_ok s → closed s = false → Forall (λ b, Kind (bs_partition b) ≠ 0) scopes →
  NoDup (bs_partition <$> scopes) →
  let s' := bindAll a scopes s in
  store_ok s' ∧ (p ∉ bs_partition <$> scopes → partitions s' !! p = partitions s !! p) ∧
  ∀ pending, mkBindingScope p pending ∈ scopes →
    match partitions s !! p with
    | Some st => partitions s' !! p = Some (rebound a pending st)
    | None => partitions s' !! p = None ∨ ∃ e, partitions s' !! p = Some (newPartition p e a pending)
    end.
Proof.
  revert s. induction scopes as [|b scopes IH]; intros s Hok Hcl Hk Hnd.
  { split; [done|]. split; [done|]. intros pending Hin. by apply elem_of_nil in Hin. }
  inversion_clear Hk as [|? ? Hb Hks]. rewrite fmap_cons in Hnd. apply NoDup_cons in Hnd as [Hnb Hnd].
  destruct (bind_lookup (bs_partition b) a (bs_pending b) s Hok Hcl Hb) as (Hcl1 & Hother & Hthis).
  destruct (IH _ (ok_bind _ a (bs_pending b) s Hok) Hcl1 Hks Hnd) as (Hok' & Hout & Hin).
  split; [done|]. split.
  - rewrite fmap_cons, not_elem_of_cons. intros [Hne Hp]. etrans; [by apply Hout|]. by apply Hother.
  - intros pending [<-|Hp]%elem_of_cons.
    + specialize (Hout Hnb). unfold bindAll in *. cbn in *. by rewrite Hout.
    + assert (p ≠ bs_partition b) as Hne.
      { intros ->. apply Hnb, list_elem_of_fmap. by exists (mkBindingScope (bs_partition b) pending). }
      specialize (Hin pending Hp). by rewrite (Hother p Hne) in Hin.
Qed.

(** No room for another partition. *)
Definition full (s : ssnmState) : Prop :=
  MaxPartitions (limits s) ≤ Z.of_nat (size (partitions s)) ∨
  MaxBytes (limits s) < sbytes s + ssnmPartitionBaseBytes.

(** Partitions have been added, each for its base price. *)
Record grown (s s' : ssnmState) : Prop := mk_grown {
  gr_limits : limits s' = limits s;
  gr_partitions : dom (partitions s) ⊆ dom (partitions s');
  gr_bytes : sbytes s' = sbytes s +
    ssnmPartitionBaseBytes * (Z.of_nat (size (partitions s')) - Z.of_nat (size (partitions s)));
}.

#[export] Instance grown_preorder : PreOrder grown.
Proof.
  split; [intros s; split; [done..|lia]|]. intros s1 s2 s3 [? ? ?] [? ? ?].
  split; [congruence|set_solver|]. lia.
Qed.

Lemma grown_size s s' : grown s s' → (size (partitions s) ≤ size (partitions s'))%nat.
Proof. intros [_ Hd _]. rewrite <-!size_dom. by apply subseteq_size. Qed.

Lemma full_grown s s' : grown s s' → full s → full s'.
Proof.
  intros Hg. pose proof (grown_size _ _ Hg) as Hs. destruct Hg as [Hl _ Hb]. unfold full. rewrite Hl, Hb.
  unfold ssnmPartitionBaseBytes in *. lia.
Qed.

(** Rebinding keeps the partitions there are. *)
Lemma bindExisting_grown st a pending s :
  partitions s !! partition st = Some st → grown s (bindExisting st a pending s).
Proof.
  intros Hst. unfold bindExisting. case_bool_decide; [done|].
  assert (Hd : ∀ x, dom (partitions s) = dom (<[partition st := x]> (partitions s))).
  { intros x. apply elem_of_dom_2 in Hst. rewrite dom_insert_L. set_solver. }
  split; cbn; [done|by rewrite <-Hd|]. rewrite <-!size_dom, <-Hd. lia.
Qed.

Lemma bind_room p a pending s :
  store_ok s → closed s = false → Kind p ≠ 0 →
  grown s (bind p a pending s).2 ∧
  (partitions (bind p a pending s).2 !! p = None → full (bind p a pending s).2).
Proof.
  intros Hok Hcl Hk. destruct (bind_lookup p a pending s Hok Hcl Hk) as (_ & _ & Hp).
  cbn zeta in Hp. unfold bind in *. rewrite (proj2 (Z.eqb_neq _ _) Hk), Hcl in *.
  destruct (partitions s !! p) as [st|] eqn:Hst; cbv zeta in *.
  - pose proof (ac_key _ (ok_accounted _ Hok) _ _ Hst) as Hpk. subst p. cbn [snd] in *.
    split; [by apply bindExisting_grown|]. by rewrite Hp.
  - destruct (MaxPartitions _ <=? _) eqn:H1; [|destruct (MaxBytes _ <? _) eqn:H2].
    + split; [by split; [..|cbn; lia]|]. intros _. left. cbn. lia.
    + split; [by split; [..|cbn; lia]|]. intros _. right. cbn. lia.
    + destruct (createPartition p s) as [st s1] eqn:Hc. injection Hc as <- <-. cbn [snd] in *.
      match goal with |- grown s (bindExisting ?st _ _ ?s1) ∧ _ => set (s2 := s1) in *; set (st2 := st) in * end.
      assert (Hin : partitions s2 !! partition st2 = Some st2) by (cbn; by rewrite lookup_insert_eq).
      split.
      * etrans; [|by apply bindExisting_grown]. split; [done|cbn; rewrite dom_insert_L; set_solver|].
        cbn. rewrite map_size_insert_None by done. lia.
      * rewrite bindExisting_lookup by done. by rewrite decide_True.
Qed.

Lemma bindAll_room a scopes s :
  store_ok s → closed s = false → Forall (λ b, Kind (bs_partition b) ≠ 0) scopes →
  grown s (bindAll a scopes s) ∧
  ∀ b, b ∈ scopes → partitions (bindAll a scopes s) !! bs_partition b = None → full (bindAll a scopes s).
Proof.
  revert s. induction scopes as [|b scopes IH]; intros s Hok Hcl Hk.
  { split; [done|]. intros b Hb. by apply elem_of_nil in Hb. }
  inversion_clear Hk as [|? ? Hb Hks].
  destruct (bind_room (bs_partition b) a (bs_pending b) s Hok Hcl Hb) as [H1 Hf1].
  destruct (bind_lookup (bs_partition b) a (bs_pending b) s Hok Hcl Hb) as (Hcl1 & _ & _).
  destruct (IH _ (ok_bind _ a (bs_pending b) s Hok) Hcl1 Hks) as [H2 Hf2].
  change (bindAll a (b :: scopes) s) with (bindAll a scopes (bind (bs_partition b) a (bs_pending b) s).2).
  split; [by etrans|]. intros b' [->|Hb']%elem_of_cons Hnone; [|by eapply Hf2].
  eapply full_grown; [exact H2|]. apply Hf1. apply not_elem_of_dom in Hnone. apply not_elem_of_dom.
  pose proof (gr_partitions _ _ H2). set_solver.
Qed.
End bindings.

(** *** The scopes an Association binds *)

Section scopes.
Context (i : ssnmIdentity) (c : association).

Lemma addBindingScope_partitions p pending scopes :
  bs_partition <$> addBindingScope p pending scopes =
  appendNew (bs_partition <$> scopes) [p].
Proof.
  cbn. induction scopes as [|b scopes IH]; [done|]. cbn [addBindingScope].
  destruct (bool_decide (bs_partition b = p)) eqn:Hb; [apply bool_decide_eq_true in Hb|apply bool_decide_eq_false in Hb].
  - subst p. rewrite bool_decide_eq_true_2 by left. by destruct pending.
  - rewrite fmap_cons, IH, fmap_cons. destruct (decide (p ∈ bs_partition <$> scopes)).
    + rewrite !bool_decide_eq_true_2; [done|by right|done].
    + rewrite !bool_decide_eq_false_2; [done| |done]. by rewrite not_elem_of_cons.
Qed.

Lemma addBindingScope_elem p pending scopes b :
  NoDup (bs_partition <$> scopes) →
  b ∈ addBindingScope p pending scopes ↔
  (bs_partition b ≠ p ∧ b ∈ scopes) ∨
  (bs_partition b = p ∧ bs_pending b = pending && bool_decide (mkBindingScope p false ∉ scopes)).
Proof.
  induction scopes as [|x scopes IH]; intros Hnd; cbn [addBindingScope].
  - rewrite bool_decide_eq_true_2 by apply not_elem_of_nil.
    rewrite andb_true_r, list_elem_of_singleton, elem_of_nil. destruct b as [q d]. cbn. naive_solver.
  - rewrite fmap_cons in Hnd. apply NoDup_cons in Hnd as [Hx Hnd]. specialize (IH Hnd).
    destruct (bool_decide (bs_partition x = p)) eqn:Hp; [apply bool_decide_eq_true in Hp|apply bool_decide_eq_false in Hp].
    + subst p. assert (Hno : ∀ d, mkBindingScope (bs_partition x) d ∉ scopes).
      { intros d Hd. apply Hx, list_elem_of_fmap. by exists (mkBindingScope (bs_partition x) d). }
      rewrite !elem_of_cons. destruct b as [q d], x as [qx dx]. cbn in *.
      rewrite (bool_decide_ext _ (dx = true)).
      2:{ rewrite not_elem_of_cons. split; [intros [Hne _]; destruct dx; [done|by destruct Hne]|].
          intros ->. split; [congruence|apply Hno]. }
      assert (mkBindingScope q d ∈ scopes → q ≠ qx) as Hq by by intros Hd ->; apply (Hno d).
      destruct pending, dx; cbn; naive_solver.
    + rewrite elem_of_cons, IH, elem_of_cons. destruct b as [q d], x as [qx dx]. cbn in *.
      assert (bool_decide (mkBindingScope p false ∉ mkBindingScope qx dx :: scopes) =
              bool_decide (mkBindingScope p false ∉ scopes)) as ->.
      { apply bool_decide_ext. rewrite not_elem_of_cons. naive_solver. }
      naive_solver.
Qed.

Definition contextPartition (rc : Z) : SSNMPartition :=
  ssnmPartitionFor i (asKeyForConfigRoutingContext (Some (ApplicationServers (a_cfg c))) rc).

(** The Association carries traffic of the Routing Context: an ASP what its peer has
    acknowledged and no other ASP has taken over. *)
Definition carrying (rc : Z) : bool :=
  bool_decide (State_ c = StateASPActive) &&
  match role (a_cfg c) with
  | RoleASP => routingContextAcked rc c && negb (routingContextOverridden rc c)
  | _ => activeForRoutingContext rc c
  end.

(** An ASP waits for its ASP Active Ack of the Routing Context. *)
Definition awaiting (rc : Z) : bool :=
  bool_decide (role (a_cfg c) = RoleASP) &&
  bool_decide (rc ∈ pendingTAckRoutingContexts requestAspActive (a_tack c)).

Definition some_context (φ : Z → bool) (contexts : list Z) (p : SSNMPartition) : bool :=
  existsb (λ rc, bool_decide (contextPartition rc = p) && φ rc) contexts.

(** The binding the Association is entitled to: active when it carries traffic of
    one Routing Context of the partition, pending when it only waits to. *)
Definition bound_as (p : SSNMPartition) : option bool :=
  match configuredRoutingContexts c with
  | [] =>
      if bool_decide (State_ c = StateASPActive) &&
         bool_decide (ssnmPartitionFor i (contextlessASKeyForConfig (Some (ApplicationServers (a_cfg c)))) = p)
      then Some (negb (contextlessASAcked c)) else None
  | contexts =>
      if some_context carrying contexts p then Some false
      else if some_context awaiting contexts p then Some true else None
  end.

(** Some Routing Context admits the Association to the partition, pending or
    not. *)
Definition admitted_as (contexts : list Z) (p : SSNMPartition) (pending : bool) : bool :=
  some_context (λ rc, bool_decide (admission c rc = Some pending)) contexts p.

Lemma admission_carrying rc : admission c rc =
  if carrying rc then Some false else if awaiting rc then Some true else None.
Proof.
  unfold admission, carrying, awaiting, pendingContexts. destruct (role (a_cfg c)) eqn:Hr.
  all: repeat (rewrite bool_decide_eq_true_2 by done) || rewrite (bool_decide_eq_false_2 (_ = RoleASP)) by done.
  all: cbn [andb]; destruct (bool_decide (State_ c = StateASPActive)); cbn [andb]; try done.
  all: by rewrite ?andb_assoc.
Qed.

Lemma admitted_carrying contexts p :
  (if admitted_as contexts p false then Some false
   else if admitted_as contexts p true then Some true else None) =
  (if some_context carrying contexts p then Some false
   else if some_context awaiting contexts p then Some true else None).
Proof.
  assert (Hf : admitted_as contexts p false = some_context carrying contexts p).
  { unfold admitted_as, some_context. induction contexts as [|rc l IH]; [done|]. cbn. rewrite IH. f_equal. f_equal.
    rewrite admission_carrying. by destruct (carrying rc), (awaiting rc). }
  rewrite Hf. destruct (some_context carrying contexts p) eqn:Hc; [done|].
  assert (admitted_as contexts p true = some_context awaiting contexts p) as ->; [|done]. clear Hf.
  unfold admitted_as, some_context in *. induction contexts as [|rc l IH]; [done|]. cbn in *.
  apply orb_false_iff in Hc as [Hrc Hl]. rewrite (IH Hl). f_equal. rewrite admission_carrying.
  destruct (bool_decide (contextPartition rc = p)); [|done]. cbn in *. rewrite Hrc.
  by destruct (awaiting rc).
Qed.

Lemma admitted_as_snoc contexts rc p pending :
  admitted_as (contexts ++ [rc]) p pending =
  admitted_as contexts p pending ||
  (bool_decide (contextPartition rc = p) && bool_decide (admission c rc = Some pending)).
Proof. unfold admitted_as, some_context. rewrite existsb_app. cbn. by rewrite orb_false_r. Qed.

Lemma bool_decide_ext' (Q : Prop) `{Decision Q} (b : bool) : (Q ↔ b = true) → bool_decide Q = b.
Proof. intros HQ. case_bool_decide; destruct b; naive_solver. Qed.

Lemma bindingSteps contexts :
  let scopes := foldl (bindingStep i c) [] contexts in
  NoDup (bs_partition <$> scopes) ∧
  ∀ p d, mkBindingScope p d ∈ scopes ↔
    (if admitted_as contexts p false then Some false
     else if admitted_as contexts p true then Some true else None) = Some d.
Proof.
  induction contexts as [|rc contexts [Hnd Hin]] using rev_ind.
  { split; [constructor|]. intros p d. cbn. by rewrite elem_of_nil. }
  cbn zeta in *. rewrite foldl_app. cbn [foldl]. set (scopes := foldl (bindingStep i c) [] contexts) in *.
  unfold bindingStep. fold (contextPartition rc). destruct (admission c rc) as [pending|] eqn:Ha.
  - split.
    { rewrite addBindingScope_partitions. cbn. case_bool_decide; [done|].
      apply NoDup_app. split; [done|]. split; [|apply NoDup_singleton].
      intros x Hx ->%list_elem_of_singleton. done. }
    intros p d. rewrite addBindingScope_elem, !admitted_as_snoc, Ha, Hin by done. cbn [bs_partition bs_pending].
    assert (bool_decide (mkBindingScope (contextPartition rc) false ∉ scopes) =
            negb (admitted_as contexts (contextPartition rc) false)) as Hf.
    { rewrite bool_decide_not. f_equal. apply bool_decide_ext'. rewrite Hin.
      by destruct (admitted_as contexts (contextPartition rc) false), (admitted_as contexts (contextPartition rc) true). }
    destruct (decide (contextPartition rc = p)) as [<-|Hp].
    + rewrite Hf, (bool_decide_eq_true_2 (contextPartition rc = contextPartition rc)) by done.
      destruct (admitted_as contexts (contextPartition rc) false), (admitted_as contexts (contextPartition rc) true);
        destruct pending, d; cbn; naive_solver.
    + rewrite (bool_decide_eq_false_2 (contextPartition rc = p)) by done. cbn. rewrite !orb_false_r. naive_solver.
  - split; [done|]. intros p d. rewrite Hin, !admitted_as_snoc, Ha, !andb_false_r, !orb_false_r. done.
Qed.

Lemma scopes_are_bound p d : mkBindingScope p d ∈ ssnmBindingScopes i c ↔ bound_as p = Some d.
Proof.
  unfold ssnmBindingScopes, bound_as. destruct (configuredRoutingContexts c) as [|rc l] eqn:Hc.
  - case_bool_decide; cbn; [|by rewrite elem_of_nil]. rewrite list_elem_of_singleton.
    case_bool_decide; naive_solver.
  - rewrite merge_sort_Permutation, <-admitted_carrying. apply bindingSteps.
Qed.

Lemma scopes_once : NoDup (bs_partition <$> ssnmBindingScopes i c).
Proof.
  unfold ssnmBindingScopes. destruct (configuredRoutingContexts c) as [|rc l] eqn:Hc.
  - case_bool_decide; [apply NoDup_singleton|constructor].
  - rewrite merge_sort_Permutation. apply bindingSteps.
Qed.

Lemma partition_kind key : Kind (ssnmPartitionFor i key) ≠ 0.
Proof. unfold ssnmPartitionFor. by destruct (canonicalRemoteASFor i key). Qed.

Lemma scope_kinds : Forall (λ b, Kind (bs_partition b) ≠ 0) (ssnmBindingScopes i c).
Proof.
  apply Forall_forall. intros [p d] Hb%scopes_are_bound. cbn. unfold bound_as in Hb.
  destruct (configuredRoutingContexts c) as [|rc l].
  - destruct (_ && _) eqn:E; [|done]. apply andb_true_iff in E as [_ <-%bool_decide_eq_true].
    apply partition_kind.
  - assert (∃ φ, some_context φ (rc :: l) p = true) as [φ Hd].
    { destruct (some_context carrying _ p) eqn:E; [by eexists|].
      destruct (some_context awaiting _ p) eqn:E'; [by eexists|done]. }
    unfold some_context in Hd. apply existsb_exists in Hd as (x & _ & [<-%bool_decide_eq_true _]%andb_true_iff).
    apply partition_kind.
Qed.
End scopes.

(** *** Reconciliation *)

Definition binding (s : ssnmState) (p : SSNMPartition) (a : Z) : option bool :=
  partitions s !! p ≫= λ st, bindings st !! a.

Lemma elem_of_partitionsBoundTo a s p : p ∈ partitionsBoundTo a s ↔ is_Some (binding s p a).
Proof.
  unfold partitionsBoundTo, sortSSNMPartitions, binding. rewrite merge_sort_Permutation, list_elem_of_fmap. split.
  - intros ([q st] & -> & [Hb Hin]%list_elem_of_filter). apply elem_of_map_to_list in Hin. cbn. by rewrite Hin.
  - destruct (partitions s !! p) as [st|] eqn:Hp; cbn; [|by intros []]. intros Hb. exists (p, st).
    split; [done|]. apply list_elem_of_filter. split; [done|]. by apply elem_of_map_to_list.
Qed.

Lemma binding_without a st : (without a st ≫= λ st, bindings st !! a) = None.
Proof. unfold without. case_decide; [done|]. cbn. apply lookup_delete_eq. Qed.

Lemma without_others a st b :
  b ≠ a → (without a st ≫= λ st, bindings st !! b) = bindings st !! b.
Proof.
  intros Hb. unfold without. case_decide as Hd.
  - cbn. rewrite <-(lookup_delete_ne (bindings st) a b) by done. by rewrite Hd.
  - cbn. by rewrite lookup_delete_ne.
Qed.

(** The partitions of the store before a reconciliation and those it has added leave
    no room for another one. *)
Definition no_room (s s' : ssnmState) : Prop :=
  let added := Z.of_nat (size (dom (partitions s') ∖ dom (partitions s))) in
  MaxPartitions (limits s) ≤ Z.of_nat (size (partitions s)) + added ∨
  MaxBytes (limits s) < sbytes s + ssnmPartitionBaseBytes * (added + 1).

(** A store that grew by what another one has more than it. *)
Lemma full_no_room `{Quoting} s s1 s' :
  grown s s1 → dom (partitions s') ∖ dom (partitions s) = dom (partitions s1) ∖ dom (partitions s) →
  full s1 → no_room s s'.
Proof.
  intros [Hl Hd Hb] Hdom. unfold full, no_room. rewrite Hdom, Hl, Hb. cbn zeta.
  assert (size (partitions s1) = size (partitions s) + size (dom (partitions s1) ∖ dom (partitions s)))%nat as ->;
    [|unfold ssnmPartitionBaseBytes; lia].
  rewrite <-!size_dom, size_difference by done. apply subseteq_size in Hd. lia.
Qed.

Section sync.
Context `{Quoting} (i : ssnmIdentity) (c : association) (s : ssnmState).
Context (Hok : store_ok s) (Hcl : closed s = false).

(** The store once the scopes are bound, and the partitions that go after that. *)
Definition rebounds : ssnmState := bindAll (si_ID i) (ssnmBindingScopes i c) s.
Definition leaving : list SSNMPartition :=
  filter (λ p, p ∉ bs_partition <$> ssnmBindingScopes i c) (partitionsBoundTo (si_ID i) rebounds).

Lemma rebounds_lookup p :
  store_ok rebounds ∧
  (p ∉ bs_partition <$> ssnmBindingScopes i c → partitions rebounds !! p = partitions s !! p) ∧
  ∀ pending, mkBindingScope p pending ∈ ssnmBindingScopes i c →
    match partitions s !! p with
    | Some st => partitions rebounds !! p = Some (rebound (si_ID i) pending st)
    | None => partitions rebounds !! p = None ∨
              ∃ e, partitions rebounds !! p = Some (newPartition p e (si_ID i) pending)
    end.
Proof. apply (bindAll_lookup (si_ID i) _ s p Hok Hcl (scope_kinds i c) (scopes_once i c)). Qed.

Lemma sync_lookup p :
  partitions (syncSSNMBindings i c s) !! p =
  if decide (p ∈ leaving) then partitions rebounds !! p ≫= without (si_ID i) else partitions rebounds !! p.
Proof. apply (retire_foldl_lookup (si_ID i) leaving), (rebounds_lookup p). Qed.

Lemma elem_of_leaving p :
  p ∈ leaving ↔ (p ∉ (bs_partition <$> ssnmBindingScopes i c)) ∧ is_Some (binding rebounds p (si_ID i)).
Proof. unfold leaving. by rewrite list_elem_of_filter, elem_of_partitionsBoundTo. Qed.

(** A partition the store did not have stays. *)
Lemma sync_fresh p :
  partitions s !! p = None → partitions (syncSSNMBindings i c s) !! p = partitions rebounds !! p.
Proof.
  intros Hp. rewrite sync_lookup. case_decide as Hg; [|done].
  apply elem_of_leaving in Hg as [Hn [b Hb]]. destruct (rebounds_lookup p) as (_ & Hout & _).
  unfold binding in Hb. by rewrite (Hout Hn), Hp in Hb.
Qed.

Lemma sync_room p d :
  bound_as i c p = Some d → partitions s !! p = None → partitions (syncSSNMBindings i c s) !! p = None →
  no_room s (syncSSNMBindings i c s).
Proof.
  intros Hd%scopes_are_bound Hs Hs'. rewrite sync_fresh in Hs' by done.
  destruct (bindAll_room (si_ID i) (ssnmBindingScopes i c) s Hok Hcl (scope_kinds i c)) as [Hg Hf].
  apply (full_no_room _ rebounds); [done| |by apply (Hf (mkBindingScope p d))].
  apply set_eq. intros q. rewrite !elem_of_difference, !elem_of_dom.
  split; intros [Hq Hn]; (split; [|done]); apply eq_None_not_Some in Hn; [rewrite <-sync_fresh|rewrite sync_fresh]; done.
Qed.
End sync.

(** C23: After a reconciliation an open store binds the Association exactly as it is
    entitled to: active in a partition when it carries traffic of one of its Routing
    Contexts there, pending when it only waits for the ASP Active Ack of such, and
    nowhere else; one without Routing Contexts is bound while it is ASP-ACTIVE,
    pending until its contextless Application Server is acknowledged. Only a
    partition the store did not have may be missing, and only when the partitions
    there were and those the reconciliation added reach the limit on their number,
    or leave no octets for one more. The bindings of other Associations stay, and so
    does what a partition holds; a partition goes only with its last binding. *)
Theorem bindings_follow_entitlement `{Quoting} config i c s :
  Ssnm.reachable config s → closed s = false →
  let s' := syncSSNMBindings i c s in
  ∀ p,
    (binding s' p (si_ID i) = bound_as i c p ∨
     bound_as i c p ≠ None ∧ partitions s !! p = None ∧ partitions s' !! p = None ∧ no_room s s') ∧
    (∀ a, a ≠ si_ID i → binding s' p a = binding s p a) ∧
    (knows s' p = knows s p ∨
     partitions s' !! p = None ∧ bound_as i c p = None ∧ ∀ a, a ≠ si_ID i → binding s p a = None).
Proof.
  intros Hok%reachable_ok Hcl. cbn zeta. intros p.
  destruct (rebounds_lookup i c s Hok Hcl p) as (_ & Hout & Hin).
  pose proof (sync_room i c s Hok Hcl p) as Hroom. pose proof (sync_lookup i c s Hok Hcl p) as Hp.
  set (s' := syncSSNMBindings i c s) in *. clearbody s'.
  pose proof (elem_of_leaving i c s p) as Hgone.
  unfold binding at 1 2, knows at 1. rewrite Hp in *. clear Hp.
  destruct (bound_as i c p) as [d|] eqn:Hd.
  - assert (Hb : mkBindingScope p d ∈ ssnmBindingScopes i c) by by apply scopes_are_bound.
    assert (Hps : p ∈ bs_partition <$> ssnmBindingScopes i c)
      by (apply list_elem_of_fmap; by exists (mkBindingScope p d)).
    rewrite decide_False in * by (rewrite Hgone; tauto). specialize (Hin d Hb). specialize (Hroom d eq_refl). unfold binding, knows in *.
    destruct (partitions s !! p) as [st|]; [rewrite Hin; cbn|destruct Hin as [Hn|[e ->]]; [rewrite Hn in *|]; cbn].
    + rewrite lookup_insert_eq. split; [by left|]. split; [|by left]. intros a Ha. by rewrite lookup_insert_ne.
    + split; [right; auto|]. by split; [|left].
    + rewrite lookup_singleton_eq. split; [by left|]. split; [|by left]. intros a Ha.
      by rewrite lookup_singleton_ne.
  - assert (Hps : p ∉ bs_partition <$> ssnmBindingScopes i c).
    { rewrite list_elem_of_fmap. intros ([q d] & -> & Hq%scopes_are_bound). cbn in Hd. congruence. }
    specialize (Hout Hps). unfold binding, knows in *. rewrite Hout in *. clear Hin Hroom.
    case_decide as Hg.
    + apply Hgone in Hg as [_ Hg]. destruct (partitions s !! p) as [st|]; cbn in *; [|by destruct Hg].
      split; [left; apply binding_without|]. split; [intros a Ha; by apply without_others|].
      unfold without. case_decide as He; cbn; [|by left]. right. split; [done|]. split; [done|].
      intros a Ha. rewrite <-(lookup_delete_ne (bindings st) (si_ID i) a) by done. by rewrite He.
    + split; [left|by split; [|left]]. destruct (partitions s !! p) as [st|]; [|done]. cbn in *.
      destruct (bindings st !! si_ID i) eqn:E; [|done]. destruct Hg. by apply Hgone.
Qed.

(** ** Written messages *)

(** The Routing Contexts an SSNM message speaks of, as its receiver reads it. *)
Definition spoken (c : association) (decoded : M3UA) : list Z :=
  match ssnmRoutingContext decoded with
  | Some (Some p) => Tack.RoutingContexts (Some p)
  | Some None => configuredLocalRoutingContexts c
  | None => []
  end.

(** A message whose octets speak only of Routing Contexts in which the Association
    carries traffic towards its peer. *)
Definition spoken_for (c : association) (w : M3UA * bool) : Prop :=
  ∃ m raw decoded, MarshalBinary w.1 = Ok (m, raw) ∧ Parse raw = Ok decoded ∧
    ∀ rc, rc ∈ spoken c decoded → routingContextConfigured c rc = true ∧ outboundRoutingContextActive rc c = true.

(** New messages are such, and are written by an ASP or an SGP that is active. *)
Definition speaking (c : association) (s s' : side) : Prop :=
  ∃ new, s_written s' = s_written s ++ new ∧
    Forall (λ w, (role (a_cfg c) ≠ RoleIPSP ∧ State_ c = StateASPActive) ∧ spoken_for c w) new.

#[export] Instance speaking_preorder c : PreOrder (speaking c).
Proof.
  split; [intros s; exists []; by rewrite app_nil_r|]. intros s s' s'' (l & H1 & Hl) (l' & H2 & Hl').
  exists (l ++ l'). split; [by rewrite H2, H1, (assoc_L (++))|]. by apply Forall_app.
Qed.

Lemma speaking_same c s s' : s_written s' = s_written s → speaking c s s'.
Proof. intros H. exists []. by rewrite app_nil_r. Qed.

Lemma first_fault_None checks : first_fault checks = None → Forall (λ o, o = None) checks.
Proof. induction checks as [|[e|] checks IH]; cbn; [done|done|]. constructor; auto. Qed.

Create HintDb speaking.
#[export] Hint Extern 1 (PreOrder _) => apply speaking_preorder : speaking.
#[export] Hint Resolve ensures_ret ensures_throw ensures_unexpected ensures_check ensures_guard : speaking.

Section written.
Context `{Quoting} (env : ssnmEnvironment) (i : ssnmIdentity) (c : association)
  (restarts : mtp3RestartRegistry).

Lemma barrier decoded :
  role (a_cfg c) ≠ RoleIPSP → lockOutboundSSNMScope env c decoded = None →
  ∀ rc, rc ∈ spoken c decoded → routingContextConfigured c rc = true ∧ outboundRoutingContextActive rc c = true.
Proof.
  intros Hr. unfold lockOutboundSSNMScope, spoken. destruct (_ && _); [done|].
  destruct (ssnmRoutingContext decoded) as [routingContext|]; [|by intros _ rc ?%elem_of_nil].
  destruct (resolveNetworkAppearanceValue _ _ _) as [e|[[value set] all]]; [done|].
  intros Hf%first_fault_None rc Hrc. inversion_clear Hf as [|? ? _ Hf']. inversion_clear Hf' as [|? ? _ Hf''].
  inversion_clear Hf'' as [|? ? Hc _]. unfold lockOutboundContexts in Hc.
  assert (isIPSPDoubleExchange c = false) as Hd by (unfold isIPSPDoubleExchange; by destruct (role (a_cfg c))).
  set (contexts := match routingContext with Some _ => _ | None => _ end) in Hc.
  assert (Hin : rc ∈ contexts) by by destruct routingContext.
  destruct (len contexts =? 0) eqn:Hl.
  { destruct contexts; [by apply elem_of_nil in Hin|]. rewrite len_cons in Hl. pose proof (len_nonneg contexts). lia. }
  rewrite Hd in Hc. apply first_fault_None, Forall_app in Hc as [Hall _].
  rewrite Forall_fmap, Forall_forall in Hall. specialize (Hall rc Hin). cbn in Hall. unfold routingContextFor in Hall.
  destruct (routingContextConfigured c rc); [|done]. by destruct (outboundRoutingContextActive rc c).
Qed.

Lemma writeSignal_speaking m :
  role (a_cfg c) ≠ RoleIPSP → State_ c = StateASPActive → ensures (speaking c) (writeSignal env c m).
Proof.
  intros Hr Hst s. unfold writeSignal. destruct (MarshalBinary m) as [[m' raw]| | |] eqn:Hm; [|done..].
  destruct (Parse raw) as [decoded| | |] eqn:Hp; [|done..].
  destruct (lockOutboundSSNMScope _ _ _) eqn:Hb; [done|].
  exists [(m, se_write env (length (s_written s)))]. split; [done|]. constructor; [|done]. split; [done|].
  exists m', raw, decoded. split; [done|]. split; [done|]. by apply barrier.
Qed.

Lemma writeReplies_speaking ms :
  role (a_cfg c) ≠ RoleIPSP → State_ c = StateASPActive → ensures (speaking c) (writeReplies env c ms).
Proof.
  intros Hr Hst. induction ms as [|m ms IH]; [by intros s|]. cbn.
  apply ensures_bind; [apply _|by apply writeSignal_speaking|done].
Qed.

Lemma publish_speaking report : ensures (speaking c) (publish i c report).
Proof. intros s. unfold publish. destruct (publishSSNMReport _ _ _ _). by apply speaking_same. Qed.

Lemma points_speaking apc scope : ensures (speaking c) (ssnmAffectedPointCodes i c apc scope).
Proof.
  intros s. unfold ssnmAffectedPointCodes. destruct apc; [|done]. cbv zeta. destruct (_ =? 0); [done|].
  destruct (_ <? _); [unfold refuseOversizedSSNM; destruct (oversized _ _ _ _ _); by apply speaking_same|].
  destruct (_ =? 0); [done|]. by destruct (negb _).
Qed.

Lemma scopeAllowed_speaking m routingContext d : ensures (speaking c) (scopeAllowed c m routingContext d).
Proof. intros s. unfold scopeAllowed. by destruct (validateSSNMScope _ _ _ _). Qed.

Lemma recordRanges_speaking congestion contexts updates :
  ensures (speaking c) (recordRanges i congestion contexts updates).
Proof.
  intros s. unfold recordRanges. cbv zeta.
  match goal with |- context [match ?x with pair _ _ => _ end] => destruct x end. by apply speaking_same.
Qed.

#[local] Hint Resolve publish_speaking points_speaking scopeAllowed_speaking recordRanges_speaking : speaking.

Lemma reportSSNM_speaking report networkAppearance routingContext apc :
  ensures (speaking c) (reportSSNM i c report networkAppearance routingContext apc).
Proof.
  unfold reportSSNM. apply ensures_bind; [auto with speaking..|]. intros [pcs masks] _ _ _.
  apply ensures_bind; auto with speaking.
Qed.

Lemma applySSNM_speaking report networkAppearance routingContext apc state dims update :
  ensures (speaking c) (applySSNM env i c report networkAppearance routingContext apc state dims update).
Proof.
  unfold applySSNM, applyRoutes. apply ensures_bind; [auto with speaking..|]. intros [pcs masks] _ _ _.
  repeat (apply ensures_bind; [auto with speaking..|]; intros); auto with speaking.
Qed.

#[local] Hint Resolve reportSSNM_speaking applySSNM_speaking : speaking.

(** A handler that answers nothing. *)
Ltac speak :=
  repeat match goal with
  | |- ensures _ (if ?b then _ else _) => destruct b
  | |- ensures _ (match ?x with Some _ => _ | None => _ end) => destruct x
  | |- ensures _ (_ ≫= _) => apply ensures_bind; [auto with speaking..|intros ? _ _ _]
  end; auto with speaking.

Lemma handleDestinationStateAudit_speaking d :
  ensures (speaking c) (handleDestinationStateAudit env i c restarts d).
Proof.
  unfold handleDestinationStateAudit, ssnmAllowed. case_bool_decide as Hr; cbn [negb]; [|auto with speaking].
  apply ensures_bind; [auto with speaking..|intros _ _ _ _].
  case_bool_decide as Hst; cbn [negb]; [|auto with speaking].
  apply ensures_bind; [auto with speaking..|intros allowed _ _ _]. destruct (negb allowed); [auto with speaking|].
  cbv zeta. apply ensures_bind; [auto with speaking..|intros [pcs masks] _ _ _].
  do 2 (apply ensures_bind; [auto with speaking..|intros ? _ _ _]).
  apply ensures_forEach; [auto with speaking|]. intros dest s. unfold answerDestination.
  revert s. refine (λ s, ensures_forEach (speaking c) _ _ _ s).
  intros group. apply writeReplies_speaking; [by rewrite Hr|done].
Qed.

Lemma handleSSNM_speaking m : ensures (speaking c) (handleSSNM env i c restarts m).
Proof.
  destruct m as [g|k d]; [by intros s|].
  destruct k; cbn [handleSSNM]; auto with speaking;
    (apply handleDestinationStateAudit_speaking ||
     (unfold handleDestinationUnavailable, handleDestinationAvailable, handleDestinationRestricted,
        handleAvailability, handleSignallingCongestion, handleDestinationUserPartUnavailable; cbv zeta; speak)).
Qed.

(** Messages of an ASP's requests. *)
Lemma request_speaking (m : ssnmParameters → P ()) scope ds info :
  (∀ ps, role (a_cfg c) ≠ RoleIPSP → State_ c = StateASPActive → ensures (speaking c) (m ps)) →
  ensures (speaking c) (prepareASPSSNM c scope ds info ≫= m).
Proof.
  intros Hm s. unfold mbind, P_bind, prepareASPSSNM. case_bool_decide as Hr; cbn [negb]; [|done].
  destruct (ended _); [done|]. case_bool_decide as Hst; cbn [negb]; [|done].
  destruct (buildSSNMParameters _ _ _) as [e|ps]; [done|]. destruct (validateOutboundASPSSNMScope _ _ _); [done|].
  apply (Hm ps); [by rewrite Hr|done].
Qed.

(** C18: The SSNM messages that an Association writes while it handles one it has
    received, or that an ASP writes for a request of its user, are written by an ASP
    or an SGP that is ASP-ACTIVE, and what the octets say, as the receiver reads
    them, concerns only Routing Contexts that the Association is configured for and
    carries traffic of: at an ASP, those its peer has acknowledged and no other ASP
    has taken over. The statements an SGP Endpoint sends, and those a restart in
    progress sends before an ASP Active Ack, are written elsewhere and not meant
    here. *)
Theorem written_ssnm_needs_activity :
  (∀ m, ensures (speaking c) (handleSSNM env i c restarts m)) ∧
  (∀ r, ensures (speaking c) (requestDestinationStateAudit env i c r)) ∧
  (∀ r, ensures (speaking c) (requestSignallingCongestion env i c r)).
Proof.
  split; [exact handleSSNM_speaking|]. split; intros r; apply request_speaking; intros ps Hr Hst.
  - apply ensures_bind; [auto with speaking|by apply writeSignal_speaking|intros _ _ _ _].
    apply ensures_bind; auto with speaking.
  - apply ensures_bind; [auto with speaking| |intros [concerned' congestion'] _ _ _].
    { intros s. by destruct (buildSignallingCongestionParameters r true). }
    apply ensures_bind; [auto with speaking|by apply writeSignal_speaking|intros _ _ _ _].
    apply ensures_bind; auto with speaking.
Qed.
End written.

Module Concrete.
Import AspStates.Concrete.
#[local] Instance plain : Quoting := λ s, s.

(** An ASP of the Routing Contexts 1 and 2 whose peer has acknowledged [rcs]. *)
Definition client : AssociationConfig :=
  mkAssociationConfig RoleASP None None
    [mkASConfig (mkASKey 0 false 1 true) 2; mkASConfig (mkASKey 0 false 2 true) 2] None false false 0.
Definition acknowledged (rcs : list Z) : list event :=
  [EOpen; receive (Typed KAspUpAck (AspUpAck.NewAspUpAck None None)); ETake; EApply;
   receive (Typed KAspActiveAck (AspActiveAck.NewAspActiveAck None (Some (NewRoutingContext rcs)) None));
   ETake; EApply].
Definition asp (rcs : list Z) : association :=
  default (newAssociation client) (run_timely granting (acknowledged rcs) (newAssociation client)).

(** Everything works, and every Application Server is active. *)
Definition working : ssnmEnvironment :=
  mkSsnmEnvironment (λ _ _, true) (λ _, Some (mkServerView false ASActive (Some StateASPActive))) (λ _, true).
Definition seven : ssnmIdentity := mkIdentity 7 None None ∅ 0.
Definition fresh : side := mkSide SsnmTheory.Concrete.start newDestinations [].

Definition about (rcs : list Z) (pc : Z) : M3UA :=
  Typed KDestinationUnavailable (DestinationUnavailable.NewDestinationUnavailable
    (Some (NewNetworkAppearance 3)) (Some (NewRoutingContext rcs)) (Some (NewAffectedPointCode [pc])) None).

Lemma start_reachable : Ssnm.reachable None SsnmTheory.Concrete.start.
Proof. exact (reach_new None _ SsnmTheory.Concrete.start_new). Defined.

Lemma received_ssnm_needs_entitlement_witness :
  let s' := (handleSSNM working seven (asp [1]) newRestartRegistry (about [1] 9) fresh).2 in
  size (d_state (s_table s')) = 1%nat ∧
  (s_table s' = s_table fresh ∧ no_growth (s_store fresh) (s_store s') ∨ teaches (asp [1]) (about [1] 9)) ∧
  (s_written s' = s_written fresh ∨ asks (asp [1]) (about [1] 9)).
Proof.
  split; [vm_compute; reflexivity|].
  apply (received_ssnm_needs_entitlement working seven (asp [1]) newRestartRegistry None (about [1] 9) fresh).
  exact start_reachable.
Defined.

(** The Association 7 is bound to a partition of a Signalling Gateway; it is
    entitled to the partition of its own. *)
Definition bound : ssnmState := SsnmTheory.Concrete.bound.

Lemma bindings_follow_entitlement_witness :
  binding bound SsnmTheory.Concrete.sg 7 = Some false ∧
  let s' := syncSSNMBindings seven (asp [1]) bound in
  binding s' SsnmTheory.Concrete.sg 7 = None ∧
  binding s' (mkPartition SSNMStandalonePartition EmptyString EmptyString 7) 7 = Some false ∧
  ∀ p,
    (binding s' p 7 = bound_as seven (asp [1]) p ∨
     bound_as seven (asp [1]) p ≠ None ∧ partitions bound !! p = None ∧ partitions s' !! p = None ∧
     no_room bound s') ∧
    (∀ a, a ≠ 7 → binding s' p a = binding bound p a) ∧
    (knows s' p = knows bound p ∨
     partitions s' !! p = None ∧ bound_as seven (asp [1]) p = None ∧ ∀ a, a ≠ 7 → binding bound p a = None).
Proof.
  split; [vm_compute; reflexivity|]. split; [vm_compute; reflexivity|]. split; [vm_compute; reflexivity|].
  apply (bindings_follow_entitlement None seven (asp [1]) bound);
    [exact SsnmTheory.Concrete.bound_reachable|vm_compute; reflexivity].
Defined.

End Concrete.
