(* ===== verification/AuditTheory.v ===== *)
(** * Audits (SsnmProcedures.v)

    What an ASP learns from the answers of an SGP to its audit, and the audit an
    ASP sends where it is not active. *)

From stdpp Require Import sorting.
From coqutil Require Import Datatypes.RecordSettersUsingExistingGetters.
From S2P Require Import Prelude Params ParamsFacts ParamValues Nested Header Inventory RoutingKey AppServer.
From S2P Require Import Ssnm SsnmInvariant SsnmTheory Destinations DestinationsTheory MsgSsnm Message.
From S2P Require Import Tack Association AspProcedures AspMachine Mtp3Restart SsnmEndpoint.
From S2P Require Import AspStates SsnmProcedures SsnmProcedureTheory.
#[local] Open Scope Z_scope.

(** ** Sorted scopes *)

Lemma elem_of_compactSorted l x : x ∈ compactSorted l ↔ x ∈ l.
Proof.
  split; [apply compactSorted_elem|]. induction l as [|a l IH]; [done|]. destruct l as [|b l]; [done|].
  cbn [compactSorted]. destruct (a =? b) eqn:E; to_prop.
  - subst b. intros [->|?]%elem_of_cons; apply IH; [by left|done].
  - intros [->|?]%elem_of_cons; [by left|right; by apply IH].
Qed.

Lemma compactSorted_sorted l : StronglySorted Z.le l → StronglySorted Z.le (compactSorted l).
Proof.
  induction l as [|a l IH]; [done|]. destruct l as [|b l]; [done|]. intros Hs.
  inversion_clear Hs as [|? ? Hl Ha]. cbn [compactSorted]. destruct (a =? b); [by apply IH|].
  constructor; [by apply IH|]. apply Forall_forall. intros x Hx.
  rewrite Forall_forall in Ha. apply Ha. by apply (elem_of_compactSorted (b :: l)).
Qed.

(** The binary search of a sorted scope finds what is there. *)
Lemma search_sorted x l :
  StronglySorted Z.le l →
  match list_find (λ y, x ≤ y) l with Some (_, y) => y =? x | None => false end = bool_decide (x ∈ l).
Proof.
  induction 1 as [|a l Hl IH Ha]; [by rewrite bool_decide_eq_false_2 by apply not_elem_of_nil|].
  cbn [list_find]. rewrite Forall_forall in Ha. destruct (decide (x ≤ a)) as [Hx|Hx].
  - destruct (a =? x) eqn:E; to_prop; symmetry.
    + subst a. apply bool_decide_eq_true_2. by left.
    + apply bool_decide_eq_false_2. intros [?|Hin]%elem_of_cons; [lia|]. specialize (Ha x Hin). lia.
  - transitivity (bool_decide (x ∈ l)).
    + rewrite <-IH. by destruct (list_find _ l) as [[k y]|].
    + apply bool_decide_ext. rewrite elem_of_cons. split; [tauto|]. intros [->|?]; [lia|done].
Qed.

(** ** Records of a report in Routing Contexts *)

(** The destination covers all that the question is about. *)
Definition coversPoint (d : PointCodeRange) (pointCode mask : Z) : bool :=
  destinationRangeCovers
    (Destinations.mkRange 0 false 0 false (Z.land (PointCode d) 0x00ffffff) (Mask d) zeroNetworkState)
    pointCode mask.

Lemma concerns_scoped dimension rcs v state d rc pc mask :
  rcs ≠ [] →
  concerns (auditScope (v, true) (Some rc)) pc mask
    (scopedRecord dimension rcs (appliedRange (v, true) state d)) =
  bool_decide (rc ∈ rcs) && coversPoint d pc mask.
Proof.
  intros Hne. unfold concerns, scopedRecord, canonicalRoutingContextScope. cbn [rangeValue routingContexts].
  change (destinationRangeCovers (_ <| dr_RoutingContextSet := true |>) pc mask) with (coversPoint d pc mask).
  f_equal. unfold destinationRecordScopeMatches. cbn [routingContexts].
  assert (Hs : StronglySorted Z.le (merge_sort Z.le rcs)) by apply (StronglySorted_merge_sort Z.le).
  apply compactSorted_sorted in Hs. pose proof (search_sorted rc _ Hs) as Hsearch.
  assert (bool_decide (rc ∈ compactSorted (merge_sort Z.le rcs)) = bool_decide (rc ∈ rcs)) as Hrc.
  { apply bool_decide_ext. by rewrite elem_of_compactSorted, merge_sort_Permutation. }
  rewrite Hrc in Hsearch. destruct (compactSorted _) as [|x l] eqn:E.
  - destruct rcs as [|y rcs]; [done|].
    pose proof (proj2 (elem_of_compactSorted (merge_sort Z.le (y :: rcs)) y)) as Hy. rewrite E in Hy.
    destruct (not_elem_of_nil y). apply Hy. rewrite merge_sort_Permutation. by left.
  - rewrite len_cons. replace (1 + len l =? 0) with false by (pose proof (len_nonneg l); lia).
    cbn -[list_find]. rewrite Z.eqb_refl. cbn -[list_find]. exact Hsearch.
Qed.

(** ** Parameters *)

Lemma appearanceOf_copy p : appearanceOf (set_length (Copy p)) = appearanceOf p.
Proof.
  destruct p as [[t l d]|]; [|done].
  change (set_length (Copy (Some (mkParam t l d)))) with (Some (SetLength (mkParam t l d))).
  unfold appearanceOf. rewrite Tag_SetLength, Data_SetLength. cbn [Tag Data].
  unfold get_NetworkAppearance, uint32_accessor, decodeUint32ValData.
  by rewrite Tag_SetLength, Data_SetLength.
Qed.

Lemma RoutingContexts_new rcs :
  Forall is_u32 rcs → Tack.RoutingContexts (set_length (Some (NewRoutingContext rcs))) = rcs.
Proof.
  intros Hrcs. pose proof (words_accessor_new Params.RoutingContext rcs Hrcs) as Hw.
  change (set_length (Some (NewRoutingContext rcs))) with (Some (SetLength (NewRoutingContext rcs))).
  unfold Tack.RoutingContexts, get_RoutingContexts.
  unfold words_accessor, newMultiUint32ValParam, decodeMultiUint32ValData in Hw.
  unfold NewRoutingContext, newMultiUint32ValParam, decodeMultiUint32ValData.
  rewrite !Tag_SetLength, !Data_SetLength in *. cbn [Tag Data] in *. rewrite Z.eqb_refl in *.
  cbn [negb] in Hw. by rewrite Hw.
Qed.

Lemma points_new d :
  is_u8 (Mask d) →
  let p := SetLength (NewAffectedPointCodeWithMask (Mask d) (PointCode d)) in
  wordsOf (get_AffectedPointCodes p) = [PointCode d mod 2 ^ 24] ∧
  wordsOf (get_AffectedPointCodeMasks p) = [Mask d].
Proof.
  intros Hm. cbn zeta.
  pose proof (words_accessor_new Params.AffectedPointCode [pointCodeWord (Mask d) (PointCode d)]) as Hw.
  rewrite Forall_singleton in Hw. specialize (Hw (is_u32_pointCodeWord _ _ Hm)).
  assert (words_accessor Params.AffectedPointCode (SetLength (NewAffectedPointCodeWithMask (Mask d) (PointCode d))) =
          Ok [pointCodeWord (Mask d) (PointCode d)]) as Hs.
  { rewrite <-Hw. unfold words_accessor, NewAffectedPointCodeWithMask, decodeMultiUint32ValData.
    by rewrite Tag_SetLength, Data_SetLength. }
  unfold get_AffectedPointCodes, get_AffectedPointCodeMasks. rewrite Hs. cbn [mbind result_bind map wordsOf].
  by rewrite pointCodeMask_word.
Qed.

(** ** Successful runs *)

Lemma bind_inr {A B} (m : P A) (f : A → P B) s b s'' :
  (m ≫= f) s = (inr b, s'') → ∃ a s', m s = (inr a, s') ∧ f a s' = (inr b, s'').
Proof.
  unfold mbind, P_bind. destruct (m s) as [[e|a] s'] eqn:E; [done|]. intros Hf. by exists a, s'.
Qed.

Lemma check_inr err s a s' : check err s = (inr a, s') → err = None ∧ s' = s.
Proof. destruct err; cbn; [done|]. by intros [= _ <-]. Qed.

Lemma guard_inr b e s a s' : guard_ b e s = (inr a, s') → b = true ∧ s' = s.
Proof. destruct b; cbn; [by intros [= _ <-]|done]. Qed.

Lemma forEach_inr {A} (l : list A) (f : A → P ()) x s s' :
  forEach (x :: l) f s = (inr (), s') → ∃ s1, f x s = (inr (), s1) ∧ forEach l f s1 = (inr (), s').
Proof. intros ([] & s1 & Hx & Hl)%bind_inr. by exists s1. Qed.

Lemma forEach_app {A} (l l' : list A) (f : A → P ()) s s' :
  forEach (l ++ l') f s = (inr (), s') → ∃ s1, forEach l f s = (inr (), s1) ∧ forEach l' f s1 = (inr (), s').
Proof.
  revert s. induction l as [|x l IH]; intros s; cbn [app]; [by exists s|].
  intros (s1 & Hx & (s2 & Hl & Hl')%IH)%forEach_inr. exists s2. split; [|done].
  cbn. unfold mbind, P_bind. by rewrite Hx.
Qed.

(** The words of a parameter are 32 bits wide. *)
Lemma decode_words_u32 n k b ws : decode_words n k b = Ok ws → Forall is_u32 ws.
Proof.
  revert k ws. induction n as [|n IH]; intros k ws; cbn [decode_words]; [by intros [= <-]|].
  destruct (slice _ _ _) as [w| | |]; [|done..]. cbn [mbind result_bind].
  destruct (Uint32 w) as [u| | |] eqn:Hu; [|done..]. cbn [mbind result_bind].
  destruct (decode_words n _ b) as [us| | |] eqn:Hus; [|done..]. intros [= <-].
  constructor; [by eapply Uint32_range|by eapply IH].
Qed.

Lemma RoutingContexts_u32 p : Forall is_u32 (Tack.RoutingContexts p).
Proof.
  unfold Tack.RoutingContexts, get_RoutingContexts. destruct p as [p|]; [|done].
  destruct (Tag p =? _); [|done]. unfold decodeMultiUint32ValData. destruct (_ =? 0); [|done].
  destruct (decode_words _ _ _) eqn:E; [|done..]. by eapply decode_words_u32.
Qed.

(** The destinations of a message fit their word. *)
Definition point_ok (d : PointCodeRange) : Prop := is_u8 (Mask d) ∧ 0 ≤ PointCode d < 2 ^ 24.

Lemma ssnmDestinations_ok p :
  Forall point_ok (ssnmDestinationsFrom (wordsOf (get_AffectedPointCodes p))
                     (wordsOf (get_AffectedPointCodeMasks p))).
Proof.
  unfold get_AffectedPointCodes, get_AffectedPointCodeMasks, ssnmDestinationsFrom.
  destruct (words_accessor _ p) as [ws| | |]; [|constructor..]. cbn [mbind result_bind wordsOf].
  induction ws as [|w ws IH]; cbn; constructor; [|exact IH]. unfold point_ok. cbn. split.
  - unfold is_u8, u8. apply Z.mod_pos_bound. lia.
  - change 0x00FFFFFF with (Z.ones 24). rewrite Z.land_ones by done. by apply Z.mod_pos_bound.
Qed.

(** ** What an ASP records *)

(** The scope of a message is that of its parameters. *)
Record scoped (networkAppearance routingContext : option Param) (v : Z) (rcs : list Z) : Prop := mkScoped {
  scoped_appearance : appearanceOf networkAppearance = Some v;
  scoped_contexts : Tack.RoutingContexts routingContext = rcs;
  scoped_some : rcs ≠ [];
}.

Definition reportRecord (v : Z) (rcs : list Z) (dimension : Z) (state : DestinationNetworkState)
    (d : PointCodeRange) : destinationRecord :=
  scopedRecord dimension rcs (appliedRange (v, true) state d).

Lemma storeAll_single r d : storeAll [r] d = ((if (storeLocked r d).1 then 0 else 1), (storeLocked r d).2).
Proof. cbn. by destruct (storeLocked r d) as [[] d']. Qed.

Section applied.
Context `{Quoting} (env : ssnmEnvironment) (i : ssnmIdentity) (c : association).

Lemma publish_inr report s err s' : publish i c report s = (inr err, s') → s_table s' = s_table s.
Proof. unfold publish. destruct (publishSSNMReport _ _ _ _). by intros [= _ <-]. Qed.

Lemma points_inr apc scope s pcs masks s' :
  ssnmAffectedPointCodes i c apc scope s = (inr (pcs, masks), s') →
  s' = s ∧ ∃ p, apc = Some p ∧ pcs = wordsOf (get_AffectedPointCodes p) ∧
    masks = wordsOf (get_AffectedPointCodeMasks p).
Proof.
  unfold ssnmAffectedPointCodes. destruct apc as [p|]; [|done]. cbv zeta.
  destruct (_ =? 0); [done|]. destruct (_ <? _); [unfold refuseOversizedSSNM; by destruct (oversized _ _ _ _ _)|].
  destruct (_ =? 0); [done|]. destruct (negb _); [done|]. intros [= <- <- <-]. split; [done|]. by exists p.
Qed.

Lemma recordRanges_one dimension rcs r s s' :
  rcs ≠ [] →
  dimension = destinationAvailabilityDimension ∨ dimension = destinationCongestionDimension →
  recordRanges i (carries dimension destinationCongestionDimension) (Some rcs) [r] s = (inr None, s') →
  storeLocked (scopedRecord dimension rcs r) (setRecordLimit (destinationRecordLimit i) (s_table s)) =
    (true, s_table s').
Proof.
  intros Hne Hdim Hr. unfold recordRanges, setScopedCongestionRangesWithinBudget, setScopedRangesWithinBudget in Hr.
  assert ((len rcs =? 0) = false) as Hlen.
  { destruct rcs; [done|]. rewrite len_cons. apply Z.eqb_neq. pose proof (len_nonneg rcs). lia. }
  rewrite Hlen in Hr. cbv zeta in Hr.
  change (scopedRecord ?d rcs <$> [r]) with [scopedRecord d rcs r] in Hr.
  unfold writeRecords in Hr. rewrite !storeAll_single in Hr.
  destruct Hdim as [-> | ->];
    [change (carries _ _) with false in Hr|change (carries _ _) with true in Hr];
    cbn beta iota in Hr; destruct (storeLocked _ _) as [[] t]; cbn in Hr; (done || by injection Hr as <-).
Qed.

(** A report of one destination that is applied without an error is a record of
    the table. *)
Lemma applySSNM_recorded report networkAppearance routingContext p v rcs state dimension update s s' d :
  scoped networkAppearance routingContext v rcs →
  wordsOf (get_AffectedPointCodes p) = [PointCode d] → wordsOf (get_AffectedPointCodeMasks p) = [Mask d] →
  dimension = destinationAvailabilityDimension ∨ dimension = destinationCongestionDimension →
  applySSNM env i c report networkAppearance routingContext (Some p) state dimension update s = (inr (), s') →
  storeLocked (reportRecord v rcs dimension state d) (setRecordLimit (destinationRecordLimit i) (s_table s)) =
    (true, s_table s').
Proof.
  intros [Hna Hrc Hne] Hpc Hmask Hdim Happ. unfold applySSNM in Happ.
  apply bind_inr in Happ as ([pcs masks] & s1 & Hp & Happ).
  apply points_inr in Hp as (-> & p' & [= <-] & -> & ->). rewrite Hpc, Hmask in Happ.
  apply bind_inr in Happ as ([] & s2 & [_ ->]%guard_inr & Happ).
  apply bind_inr in Happ as (retained & s3 & Hr & Happ).
  apply bind_inr in Happ as (err & s4 & Ht%publish_inr & Happ).
  apply check_inr in Happ as [Hret ->]. rewrite Ht. destruct retained as [e|]; [done|]. clear Ht Hret.
  assert (recordAppearance c networkAppearance (ssnmWireScope networkAppearance routingContext) = (v, true)) as Ha.
  { unfold recordAppearance, destinationAppearance. destruct networkAppearance; [by rewrite Hna|done]. }
  assert (destinationRoutingContexts c routingContext = Some rcs) as Hd.
  { unfold destinationRoutingContexts. destruct routingContext; [by f_equal|].
    destruct Hne. by rewrite <-Hrc. }
  rewrite Ha, Hd in Hr. destruct d as [pc mask]. by apply (recordRanges_one dimension rcs) in Hr.
Qed.
End applied.

(** ** What a record teaches *)

Lemma told_limit n t : n < 2 ^ 63 → told t → told (setRecordLimit n t).
Proof. intros Hn [g Hg]. eexists. by apply (perform_refines (OLimit n) _ _ Hg). Qed.

Lemma lookup_limit n t scope pc mask :
  lookupRange scope pc mask (setRecordLimit n t) = lookupRange scope pc mask t.
Proof. unfold setRecordLimit. by destruct (n <=? 0). Qed.

Lemma state_limit n t : d_state (setRecordLimit n t) = d_state t.
Proof. unfold setRecordLimit. by destruct (n <=? 0). Qed.

Lemma told_stored r t t' : told t → well_scoped r → storeLocked r t = (true, t') → told t'.
Proof. intros Ht Hr Hs. pose proof (told_store r t Ht Hr) as Ht'. by rewrite Hs in Ht'. Qed.

Lemma stored_lookup_key r t t' :
  storeLocked r t = (true, t') →
  ∃ h, d_state t' !! destinationRecordKey r = Some h ∧
    dimensions h = match d_state t !! destinationRecordKey r with
                   | Some held => Z.lor (dimensions r) (dimensions held) | None => dimensions r end ∧
    (carries (dimensions r) destinationCongestionDimension = true →
     ns_Congestion (dr_State (rangeValue h)) = ns_Congestion (dr_State (rangeValue r))).
Proof.
  unfold storeLocked. destruct (d_state t !! destinationRecordKey r) as [held|].
  - intros [= <-]. unfold install. cbn [d_state].
    change (destinationRecordKey (restate r held)) with (destinationRecordKey r).
    cbn -[carries restate]. rewrite lookup_insert_eq. eexists. split; [done|]. split; [done|].
    intros Hc. cbn -[carries]. by rewrite Hc.
  - destruct (_ <=? _); [done|]. intros [= <-]. unfold install. cbn -[carries].
    rewrite lookup_insert_eq. eexists. split; [done|]. by split.
Qed.

Section teach.
Context (n v : Z) (rcs : list Z) (d : PointCodeRange).
Context (Hn : n < 2 ^ 63) (Hrcs : Forall is_u32 rcs) (Hne : rcs ≠ []).

Definition asked (rc pc mask : Z) : bool := bool_decide (rc ∈ rcs) && coversPoint d pc mask.

(** A record of congestion. *)
Lemma congestion_taught state t t' :
  told t →
  storeLocked (reportRecord v rcs destinationCongestionDimension state d) (setRecordLimit n t) = (true, t') →
  told t' ∧
  (∃ h, d_state t' !! destinationRecordKey (reportRecord v rcs destinationCongestionDimension state d) = Some h ∧
     carries (dimensions h) destinationCongestionDimension = true ∧
     ns_Congestion (dr_State (rangeValue h)) = ns_Congestion state) ∧
  ∀ rc pc mask, asked rc pc mask = false →
    lookupRange (auditScope (v, true) (Some rc)) pc mask t' =
    lookupRange (auditScope (v, true) (Some rc)) pc mask t.
Proof.
  intros Ht Hs. pose proof (told_limit n t Hn Ht) as Hl.
  assert (Hw : well_scoped (reportRecord v rcs destinationCongestionDimension state d))
    by by apply well_scoped_scoped.
  split; [|split].
  - by apply (told_stored _ _ _ Hl Hw Hs).
  - destruct (stored_lookup_key _ _ _ Hs) as (h & Hh & Hd & Hc). exists h. split; [done|]. split; [|by apply Hc].
    rewrite Hd.
    destruct (d_state (setRecordLimit n t) !! _) as [held|]; [|done]. by rewrite carries_lor.
  - intros rc pc mask Ha. pose proof (stored_lookup _ _ (auditScope (v, true) (Some rc)) pc mask Hl Hw (f_equal fst Hs)) as Hk.
    rewrite Hs in Hk. cbn [snd] in Hk. unfold reportRecord in Hk.
    rewrite concerns_scoped in Hk by done. unfold asked in Ha. rewrite Ha in Hk. by rewrite Hk, lookup_limit.
Qed.

(** A record of availability; the congestion is what had been said of the same
    range. *)
Lemma availability_taught state t t' :
  told t →
  storeLocked (reportRecord v rcs destinationAvailabilityDimension state d) (setRecordLimit n t) = (true, t') →
  told t' ∧
  ∀ rc pc mask,
    let after := lookupRange (auditScope (v, true) (Some rc)) pc mask t' in
    if asked rc pc mask then
      after.2 = true ∧ ns_Availability after.1 = ns_Availability state ∧
      ∀ h, d_state t !! destinationRecordKey (reportRecord v rcs destinationAvailabilityDimension state d) = Some h →
        carries (dimensions h) destinationCongestionDimension = true →
        ns_Congestion after.1 = ns_Congestion (dr_State (rangeValue h))
    else after = lookupRange (auditScope (v, true) (Some rc)) pc mask t.
Proof.
  intros Ht Hs. pose proof (told_limit n t Hn Ht) as Hl.
  assert (Hw : well_scoped (reportRecord v rcs destinationAvailabilityDimension state d))
    by by apply well_scoped_scoped.
  split; [by apply (told_stored _ _ _ Hl Hw Hs)|]. intros rc pc mask.
  pose proof (stored_lookup _ _ (auditScope (v, true) (Some rc)) pc mask Hl Hw (f_equal fst Hs)) as Hk.
  rewrite Hs in Hk. cbn [snd] in Hk. unfold reportRecord in Hk at 1. rewrite state_limit, lookup_limit in Hk.
  rewrite concerns_scoped in Hk by done. cbn zeta. rewrite Hk. fold (asked rc pc mask).
  destruct (asked rc pc mask); [|done]. split; [done|]. cbn [fst].
  set (r := reportRecord _ _ _ _ _). fold r.
  assert (Hcar : carries (dimensions r) destinationAvailabilityDimension = true) by done.
  destruct (d_state t !! destinationRecordKey r) as [h|] eqn:Hh; [|split; [done|by intros ? [=]]].
  split.
  - cbn [ns_Availability]. cbn -[carries]. by rewrite carries_lor.
  - intros h' [= <-] Hc. cbn [ns_Congestion]. rewrite carries_restate by done. done.
Qed.
End teach.

(** ** What an ASP makes of an answer *)

(** A congestion that a SCON can carry. *)
Definition sayable (cg : CongestionState) : bool :=
  if LevelSet cg
  then (0 <=? Level cg) && (Level cg <=? 3) && Bool.eqb (Congested cg) (negb (Level cg =? 0))
  else Congested cg && (Level cg =? 0).

Definition indicationsOf (cg : CongestionState) : option Param :=
  if LevelSet cg then Some (NewCongestionIndications (Level cg)) else None.

Lemma congestionOf_said cg : sayable cg = true → congestionOf (set_length (indicationsOf cg)) = Some cg.
Proof.
  destruct cg as [cg l []]; unfold sayable, indicationsOf; cbn [LevelSet Level Congested].
  - intros [[H0 H3]%andb_true_iff ->%eqb_prop]%andb_true_iff. to_prop.
    assert (l = 0 ∨ l = 1 ∨ l = 2 ∨ l = 3) as [-> | [-> | [-> | ->]]] by lia; by vm_compute.
  - intros [-> ->%Z.eqb_eq]%andb_true_iff. done.
Qed.

Section answer.
Context `{Quoting} (env : ssnmEnvironment) (i : ssnmIdentity) (c : association)
  (restarts : mtp3RestartRegistry).
Context (Hrole : role (a_cfg c) = RoleASP).

Lemma entitled_allowed routingContext m rcs :
  Tack.RoutingContexts routingContext = rcs → rcs ≠ [] → (∀ rc, rc ∈ rcs → entitled c rc) →
  ∀ s a s', scopeAllowed c m routingContext true s = (inr a, s') → a = true ∧ s' = s.
Proof.
  intros Hrc Hne Hent s a s'. unfold scopeAllowed, validateSSNMScope.
  destruct (validateSSNMRoutingContext c routingContext); [done|].
  assert (ssnmRoutingContextsAllowed c routingContext true = true) as ->; [|by intros [= <- <-]].
  unfold ssnmRoutingContextsAllowed. destruct routingContext; [|by destruct Hne].
  rewrite Hrc. apply forallb_forall. intros rc Hin%list_elem_of_In. unfold contextAllowed. rewrite Hrole.
  destruct (Hent rc Hin) as [Ha|[_ Hp]].
  - unfold activeFor in Ha. rewrite Hrole in Ha. destruct Ha as (H1 & H2 & H3).
    rewrite H2, H3, (bool_decide_eq_true_2 _ H1). apply orb_true_r.
  - by rewrite (bool_decide_eq_true_2 _ Hp).
Qed.

Section message.
Context (networkAppearance routingContext : option Param) (p : Param) (v : Z) (rcs : list Z) (d : PointCodeRange).
Context (Hscoped : scoped networkAppearance routingContext v rcs) (Hent : ∀ rc, rc ∈ rcs → entitled c rc).
Context (Hpc : wordsOf (get_AffectedPointCodes p) = [PointCode d])
        (Hmask : wordsOf (get_AffectedPointCodeMasks p) = [Mask d]).

Lemma handleAvailability_recorded m kind a s s' :
  handleAvailability env i c m networkAppearance routingContext (Some p) kind a s = (inr (), s') →
  storeLocked (reportRecord v rcs destinationAvailabilityDimension (mkNetworkState a noCongestion) d)
    (setRecordLimit (destinationRecordLimit i) (s_table s)) = (true, s_table s').
Proof.
  unfold handleAvailability. rewrite bool_decide_eq_true_2 by done. cbn [negb].
  destruct (ssnmAllowedDuringActivation c); [|done]. cbn [negb]. intros Hh.
  apply bind_inr in Hh as ([] & s1 & [_ ->]%check_inr & Hh).
  apply bind_inr in Hh as (allowed & s2 & Ha & Hh). destruct Hscoped.
  apply (entitled_allowed _ _ rcs) in Ha as [-> ->]; [|done..]. cbn [negb] in Hh.
  by eapply applySSNM_recorded in Hh; [exact Hh|done..|by left].
Qed.

Lemma handleSignallingCongestion_recorded sc s s' :
  SignallingCongestion.NetworkAppearance sc = networkAppearance →
  SignallingCongestion.RoutingContext sc = routingContext →
  SignallingCongestion.AffectedPointCode sc = Some p →
  handleSignallingCongestion env i c sc s = (inr (), s') →
  ∃ cg, congestionOf (SignallingCongestion.CongestionIndications sc) = Some cg ∧
    storeLocked (reportRecord v rcs destinationCongestionDimension (mkNetworkState DestinationAvailable cg) d)
      (setRecordLimit (destinationRecordLimit i) (s_table s)) = (true, s_table s').
Proof.
  unfold handleSignallingCongestion. intros -> -> ->. rewrite Hrole.
  change (bool_decide (RoleASP = RoleASP)) with true. change (bool_decide (RoleASP = RoleSGP)) with false.
  cbn [negb andb]. intros Hh. apply bind_inr in Hh as ([] & s1 & [_ ->]%check_inr & Hh).
  destruct (ssnmAllowedDuringActivation c); [|done]. cbn [negb] in Hh.
  apply bind_inr in Hh as (allowed & s2 & Ha & Hh). destruct Hscoped.
  apply (entitled_allowed _ _ rcs) in Ha as [-> ->]; [|done..]. cbn [negb] in Hh.
  destruct (bool_decide _); [done|]. destruct (congestionOf _) as [cg|]; [|done]. exists cg. split; [done|].
  by eapply applySSNM_recorded in Hh; [exact Hh|done..|by right].
Qed.
End message.

(** What the ASP answers of a destination agrees with the answer of the SGP: in
    the availability, and in the congestion where the answer reports one. *)
Definition learned (answer : DestinationNetworkState) (l : DestinationNetworkState * bool) : Prop :=
  l.2 = true ∧
  (validDestinationAvailability (ns_Availability answer) = true →
   ns_Availability l.1 = ns_Availability answer) ∧
  (sayable (ns_Congestion answer) = true → Congested (ns_Congestion answer) = true →
   ns_Availability answer ≠ DestinationUnavailable → ns_Congestion l.1 = ns_Congestion answer).

Definition said (st : DestinationNetworkState) : Z :=
  if ns_Availability st =? DestinationUnavailable then DestinationUnavailable
  else if ns_Availability st =? DestinationRestricted then DestinationRestricted else DestinationAvailable.

Lemma said_valid st : validDestinationAvailability (ns_Availability st) = true → said st = ns_Availability st.
Proof.
  unfold validDestinationAvailability, said, DestinationAvailable, DestinationUnavailable, DestinationRestricted.
  intros [H1 H2]%andb_true_iff. to_prop. destruct (ns_Availability st =? _) eqn:E; to_prop; [done|].
  destruct (ns_Availability st =? _) eqn:E'; to_prop; [done|]. lia.
Qed.

Section block.
Context (networkAppearance : option Param) (v : Z) (rcs : list Z) (d : PointCodeRange).
Context (Hna : appearanceOf networkAppearance = Some v) (Hrcs : Forall is_u32 rcs) (Hne : rcs ≠ [])
  (Hent : ∀ rc, rc ∈ rcs → entitled c rc) (Hd : point_ok d)
  (Hlimit : destinationRecordLimit i < 2 ^ 63).

Lemma scoped_new :
  scoped (set_length (Copy networkAppearance)) (set_length (Some (NewRoutingContext rcs))) v rcs.
Proof. split; [by rewrite appearanceOf_copy|by apply RoutingContexts_new|done]. Qed.

Lemma points_said :
  let p := SetLength (NewAffectedPointCodeWithMask (Mask d) (PointCode d)) in
  wordsOf (get_AffectedPointCodes p) = [PointCode d] ∧ wordsOf (get_AffectedPointCodeMasks p) = [Mask d].
Proof. destruct Hd as [Hm Hp]. destruct (points_new d Hm) as [H1 H2]. by rewrite Z.mod_small in H1. Qed.

Definition congestionReply (cg : CongestionState) : M3UA :=
  Typed KSignallingCongestion (SignallingCongestion.NewSignallingCongestion (Copy networkAppearance)
    (Some (NewRoutingContext rcs)) (Some (NewAffectedPointCodeWithMask (Mask d) (PointCode d))) None
    (indicationsOf cg) None).

Definition availabilityReply (st : DestinationNetworkState) : list M3UA :=
  auditReplies networkAppearance (Some (NewRoutingContext rcs)) d
    (mkNetworkState (ns_Availability st) noCongestion).

Lemma replies_split st :
  auditReplies networkAppearance (Some (NewRoutingContext rcs)) d st =
  (if Congested (ns_Congestion st) && negb (ns_Availability st =? DestinationUnavailable)
   then [congestionReply (ns_Congestion st)] else []) ++ availabilityReply st.
Proof. done. Qed.

Lemma availability_reply st s s' :
  forEach (availabilityReply st) (handleSSNM env i c restarts) s = (inr (), s') →
  storeLocked (reportRecord v rcs destinationAvailabilityDimension (mkNetworkState (said st) noCongestion) d)
    (setRecordLimit (destinationRecordLimit i) (s_table s)) = (true, s_table s').
Proof.
  unfold availabilityReply, auditReplies, said. cbn [ns_Availability ns_Congestion noCongestion Congested andb app].
  destruct points_said as [Hpc Hmask]. pose proof scoped_new as Hs.
  destruct (_ =? DestinationUnavailable); [|destruct (_ =? DestinationRestricted)];
    (intros (s1 & Hh & [= <-])%forEach_inr; cbn [handleSSNM] in Hh;
     unfold handleDestinationUnavailable, handleDestinationRestricted, handleDestinationAvailable in Hh;
     by eapply handleAvailability_recorded in Hh).
Qed.

Lemma replies_taught st s s' :
  told (s_table s) →
  forEach (auditReplies networkAppearance (Some (NewRoutingContext rcs)) d st)
    (handleSSNM env i c restarts) s = (inr (), s') →
  told (s_table s') ∧
  ∀ rc pc mask,
    let after := lookupRange (auditScope (v, true) (Some rc)) pc mask (s_table s') in
    if asked rcs d rc pc mask then learned st after
    else after = lookupRange (auditScope (v, true) (Some rc)) pc mask (s_table s).
Proof.
  rewrite replies_split. intros Ht (s1 & Hsc & Ha%availability_reply)%forEach_app. destruct (_ && _) eqn:Hcg.
  - apply forEach_inr in Hsc as (s2 & Hh & [= <-]). destruct points_said as [Hpc Hmask]. pose proof scoped_new as Hs.
    eapply handleSignallingCongestion_recorded in Hh as (cg & Hsaid & Hst); [|done..].
    apply (congestion_taught _ v rcs d Hlimit Hrcs Hne _ _ _ Ht) in Hst as (Ht1 & (h & Hh & Hcar & Hc) & Hsame).
    apply (availability_taught _ v rcs d Hlimit Hrcs Hne _ _ _ Ht1) in Ha as [Ht' Hafter].
    split; [done|]. intros rc pc mask. specialize (Hafter rc pc mask). cbn zeta in Hafter |- *.
    destruct (asked _ _ _ _ _) eqn:Hq; [|by rewrite Hafter; apply Hsame].
    destruct Hafter as (Hk & Hav & Hcong). split; [done|]. split; [intros Hv; by rewrite Hav; apply said_valid|].
    intros Hsay _ _. rewrite (Hcong h Hh Hcar), Hc. apply congestionOf_said in Hsay.
    change (congestionOf (set_length (indicationsOf (ns_Congestion st))) = Some cg) in Hsaid.
    rewrite Hsay in Hsaid. by injection Hsaid as <-.
  - injection Hsc as <-. apply (availability_taught _ v rcs d Hlimit Hrcs Hne _ _ _ Ht) in Ha as [Ht' Hafter].
    split; [done|]. intros rc pc mask. specialize (Hafter rc pc mask). cbn zeta in Hafter |- *.
    destruct (asked _ _ _ _ _); [|done]. destruct Hafter as (Hk & Hav & _). split; [done|].
    split; [intros Hv; by rewrite Hav; apply said_valid|]. intros _ Hyes Hne'. rewrite Hyes in Hcg.
    apply negb_false_iff, Z.eqb_eq in Hcg. done.
Qed.
End block.

(** ** Groups of Routing Contexts *)

Definition grouped (f : Z → DestinationNetworkState) (g : destinationAuditGroup) : Prop :=
  ag_routingContexts g ≠ [] ∧ ∀ rc, rc ∈ ag_routingContexts g → ag_state g = f rc.

Definition mentioned (groups : list destinationAuditGroup) (rc : Z) : Prop :=
  ∃ g, g ∈ groups ∧ rc ∈ ag_routingContexts g.

Lemma mentioned_cons g groups rc : mentioned (g :: groups) rc ↔ rc ∈ ag_routingContexts g ∨ mentioned groups rc.
Proof.
  split.
  - intros (h & [->|Hh]%elem_of_cons & Hrc); [by left|right; by exists h].
  - intros [Hrc|(h & Hh & Hrc)]; [by exists g; split; [left|]|exists h; by split; [right|]].
Qed.

Lemma grouped_append f groups rc :
  Forall (grouped f) groups → Forall (grouped f) (appendDestinationAuditGroup groups (f rc) rc).
Proof.
  induction 1 as [|g groups [Hne Hg] Hgs IH]; cbn.
  - constructor; [|done]. split; [done|]. by intros x ->%list_elem_of_singleton.
  - case_bool_decide as Hst; [|by constructor]. constructor; [|done]. split; cbn; [by destruct (ag_routingContexts g)|].
    intros x [Hx| ->%list_elem_of_singleton]%elem_of_app; [|done]. by rewrite <-Hst, (Hg x Hx).
Qed.

Lemma mentioned_append groups st rc x :
  mentioned (appendDestinationAuditGroup groups st rc) x ↔ mentioned groups x ∨ x = rc.
Proof.
  induction groups as [|g groups IH]; cbn.
  - rewrite mentioned_cons. cbn. rewrite list_elem_of_singleton.
    assert (¬ mentioned [] x) by (intros (? & ?%elem_of_nil & ?); done). tauto.
  - case_bool_decide as Hst; rewrite !mentioned_cons; cbn; [|tauto].
    rewrite elem_of_app, list_elem_of_singleton. tauto.
Qed.

Lemma auditGroups_spec f rcs :
  let groups := foldl (λ groups rc, appendDestinationAuditGroup groups (f rc) rc) [] rcs in
  Forall (grouped f) groups ∧ ∀ x, mentioned groups x ↔ x ∈ rcs.
Proof.
  enough (∀ groups, Forall (grouped f) groups →
    Forall (grouped f) (foldl (λ groups rc, appendDestinationAuditGroup groups (f rc) rc) groups rcs) ∧
    ∀ x, mentioned (foldl (λ groups rc, appendDestinationAuditGroup groups (f rc) rc) groups rcs) x ↔
         mentioned groups x ∨ x ∈ rcs) as Hall.
  { cbn zeta. destruct (Hall [] (Forall_nil_2 _)) as [H1 H2]. split; [done|]. intros x. rewrite H2.
    assert (¬ mentioned [] x) by (intros (? & ?%elem_of_nil & ?); done). tauto. }
  induction rcs as [|rc rcs IH]; intros groups Hg; cbn.
  - split; [done|]. intros x. pose proof (not_elem_of_nil x). tauto.
  - destruct (IH (appendDestinationAuditGroup groups (f rc) rc) (grouped_append _ _ _ Hg)) as [H1 H2].
    split; [done|]. intros x. rewrite H2, mentioned_append, elem_of_cons. tauto.
Qed.

(** ** The answers to an audit *)

(** What an SGP writes of one destination, and to a whole audit. *)
Definition destinationAnswers (restarts : mtp3RestartRegistry) (networkAppearance routingContext : option Param)
    (v : Z) (table : destinations) (d : PointCodeRange) : list M3UA :=
  flat_map (λ g, auditReplies networkAppearance (Some (NewRoutingContext (ag_routingContexts g))) d (ag_state g))
    (auditGroups restarts (v, true) (Some (Tack.RoutingContexts routingContext)) d table).

Section taught.
Context (networkAppearance routingContext : option Param) (v : Z) (theirs : mtp3RestartRegistry)
  (table : destinations).
Context (Hna : appearanceOf networkAppearance = Some v)
  (Hent : ∀ rc, rc ∈ Tack.RoutingContexts routingContext → entitled c rc)
  (Hlimit : destinationRecordLimit i < 2 ^ 63).

Definition learns (d : PointCodeRange) (rc : Z) :
    DestinationNetworkState * bool → Prop :=
  learned (auditAnswer theirs (auditScope (v, true) (Some rc)) d table).

Lemma groups_taught f d groups : ∀ s s',
  point_ok d → Forall (grouped f) groups →
  (∀ rc, mentioned groups rc → entitled c rc ∧ is_u32 rc) → told (s_table s) →
  forEach (flat_map (λ g, auditReplies networkAppearance (Some (NewRoutingContext (ag_routingContexts g)))
                            d (ag_state g)) groups) (handleSSNM env i c restarts) s = (inr (), s') →
  told (s_table s') ∧
  ∀ rc pc mask,
    let look s := lookupRange (auditScope (v, true) (Some rc)) pc mask (s_table s) in
    (coversPoint d pc mask = false → look s' = look s) ∧
    (coversPoint d pc mask = true → mentioned groups rc ∨ learned (f rc) (look s) → learned (f rc) (look s')).
Proof.
  induction groups as [|g groups IH]; intros s s' Hd Hg Hm Ht; cbn [flat_map].
  - intros [= <-]. split; [done|]. intros rc pc mask. split; [done|]. intros _ [(? & ?%elem_of_nil & ?)|]; done.
  - inversion_clear Hg as [|? ? [Hne Hst] Hgs]. intros (s1 & H1 & H2)%forEach_app.
    apply (replies_taught networkAppearance v (ag_routingContexts g) d Hna) in H1 as [Ht1 Hblock]; [|try done..].
    2:{ apply Forall_forall. intros rc Hrc. apply (Hm rc). rewrite mentioned_cons. by left. }
    2:{ intros rc Hrc. apply (Hm rc). rewrite mentioned_cons. by left. }
    apply IH in H2 as [Ht2 Hrest]; [|done..|intros rc Hrc; apply Hm; rewrite mentioned_cons; by right|done].
    split; [done|]. intros rc pc mask. specialize (Hblock rc pc mask). specialize (Hrest rc pc mask).
    cbn zeta in *. destruct Hrest as [Hout Hin]. unfold asked in Hblock. split; intros Hc; rewrite Hc in *.
    + rewrite andb_false_r in Hblock. rewrite Hout by done. done.
    + rewrite andb_true_r in Hblock. intros Hor. apply Hin; [done|].
      case_bool_decide as Hrc; [right; by rewrite <-(Hst rc Hrc)|]. rewrite Hblock.
      rewrite mentioned_cons in Hor. tauto.
Qed.

Lemma destinations_taught ds : ∀ s s',
  Forall point_ok ds → told (s_table s) →
  forEach (flat_map (destinationAnswers theirs networkAppearance routingContext v table) ds)
    (handleSSNM env i c restarts) s = (inr (), s') →
  told (s_table s') ∧
  ∀ rc pc mask, rc ∈ Tack.RoutingContexts routingContext →
    let look s := lookupRange (auditScope (v, true) (Some rc)) pc mask (s_table s) in
    match last (List.filter (λ d, coversPoint d pc mask) ds) with
    | Some d => learns d rc (look s')
    | None => look s' = look s
    end.
Proof.
  induction ds as [|d ds IH]; intros s s' Hds Ht; cbn [flat_map]; [by intros [= <-]|].
  inversion_clear Hds as [|? ? Hd Hrest]. intros (s1 & H1 & H2)%forEach_app.
  pose proof (auditGroups_spec (λ rc, auditAnswer theirs (auditScope (v, true) (Some rc)) d table)
                (Tack.RoutingContexts routingContext)) as [Hg Hm]. cbn zeta in Hg, Hm.
  destruct (λ Hmg, groups_taught _ d _ s s1 Hd Hg Hmg Ht H1) as [Ht1 Hblock].
  { intros rc Hrc. apply Hm in Hrc. split; [by apply Hent|].
    pose proof (RoutingContexts_u32 routingContext) as Hu. rewrite Forall_forall in Hu. by apply Hu. }
  destruct (IH _ _ Hrest Ht1 H2) as [Ht2 Hafter]. split; [done|]. intros rc pc mask Hrc.
  specialize (Hafter rc pc mask Hrc). specialize (Hblock rc pc mask). cbn zeta in *. destruct Hblock as [Hout Hin].
  cbn [List.filter]. destruct (coversPoint d pc mask) eqn:Hc.
  - rewrite last_cons. destruct (last _) as [d'|]; [done|]. cbn. rewrite Hafter. apply Hin; [done|].
    left. by apply Hm.
  - destruct (last _) as [d'|]; [done|]. by rewrite Hafter, Hout.
Qed.
End taught.
End answer.

(** ** What an SGP writes *)

Section asked_SGP.
Context `{Quoting} (env : ssnmEnvironment) (i : ssnmIdentity) (c : association)
  (restarts : mtp3RestartRegistry).

(** A run of writes: nothing else changes. *)
Definition wrote (ms : list M3UA) (s s' : side) : Prop :=
  s_table s' = s_table s ∧ s_written s' = s_written s ++ ((λ m, (m, true)) <$> ms).

Lemma wrote_app ms ms' s s1 s' : wrote ms s s1 → wrote ms' s1 s' → wrote (ms ++ ms') s s'.
Proof. intros [H1 H2] [H3 H4]. split; [congruence|]. by rewrite H4, H2, fmap_app, (assoc_L (++)). Qed.

Lemma writeReplies_wrote ms : ∀ s s', writeReplies env c ms s = (inr (), s') → wrote ms s s'.
Proof.
  induction ms as [|m ms IH]; intros s s'; cbn [writeReplies].
  - intros [= <-]. split; [done|]. by rewrite app_nil_r.
  - intros ([] & s1 & Hw & Hms)%bind_inr. apply (wrote_app [m] ms s s1); [|by apply IH].
    unfold writeSignal in Hw. destruct (MarshalBinary m) as [[m' raw]| | |]; [|done..].
    destruct (Parse raw) as [decoded| | |]; [|done..]. destruct (lockOutboundSSNMScope _ _ _); [done|].
    destruct (se_write env _); [|done]. by injection Hw as <-.
Qed.

Lemma forEach_wrote {A} (f : A → P ()) (said : A → list M3UA) (l : list A) (t : destinations) : ∀ s s',
  (∀ x s s', s_table s = t → f x s = (inr (), s') → wrote (said x) s s') → s_table s = t →
  forEach l f s = (inr (), s') → wrote (flat_map said l) s s'.
Proof.
  induction l as [|x l IH]; intros s s' Hf Ht; cbn [flat_map].
  - intros [= <-]. split; [done|]. by rewrite app_nil_r.
  - intros (s1 & Hx & Hl)%forEach_inr. apply Hf in Hx; [|done]. apply (wrote_app _ _ s s1); [done|].
    apply IH; [done| |done]. destruct Hx. congruence.
Qed.

Lemma answerDestination_wrote networkAppearance p v d s s' :
  appearanceOf networkAppearance = Some v →
  answerDestination env c restarts networkAppearance (Some p) d s = (inr (), s') →
  wrote (destinationAnswers restarts networkAppearance (Some p) v (s_table s) d) s s'.
Proof.
  intros Hna. unfold answerDestination, destinationAppearance, destinationRoutingContexts, destinationAnswers.
  rewrite Hna. intros Hw. eapply forEach_wrote in Hw; [exact Hw| |done].
  intros g s1 s2 _. apply writeReplies_wrote.
Qed.

(** A successful audit is answered destination by destination. *)
Lemma audit_wrote audit rc p v s s' :
  appearanceOf (DestinationStateAudit.NetworkAppearance audit) = Some v →
  DestinationStateAudit.RoutingContext audit = Some rc →
  DestinationStateAudit.AffectedPointCode audit = Some p →
  handleDestinationStateAudit env i c restarts audit s = (inr (), s') →
  wrote (flat_map (destinationAnswers restarts (DestinationStateAudit.NetworkAppearance audit) (Some rc) v (s_table s))
           (ssnmDestinationsFrom (wordsOf (get_AffectedPointCodes p)) (wordsOf (get_AffectedPointCodeMasks p)))) s s'.
Proof.
  intros Hna Hrc Hp. unfold handleDestinationStateAudit. rewrite Hrc, Hp. case_bool_decide as Hr; [|done].
  cbn [negb]. intros ([] & s1 & [_ ->]%check_inr & Hh)%bind_inr.
  destruct (ssnmAllowed c); [|done]. cbn [negb] in Hh.
  apply bind_inr in Hh as (allowed & s2 & Ha & Hh).
  assert (allowed = true ∧ s2 = s) as [-> ->].
  { unfold scopeAllowed, validateSSNMScope in Ha. destruct (validateSSNMRoutingContext _ _); [done|].
    destruct (ssnmRoutingContextsAllowed _ _ _); [by injection Ha as <- <-|].
    by rewrite bool_decide_eq_false_2 in Ha by (by rewrite Hr). }
  cbn [negb] in Hh. apply bind_inr in Hh as ([pcs masks] & s3 & Hpts & Hh).
  apply points_inr in Hpts as (-> & ? & [= <-] & -> & ->).
  apply bind_inr in Hh as (err & s4 & Hpub & Hh). apply bind_inr in Hh as ([] & s5 & [_ ->]%check_inr & Hh).
  assert (s_table s4 = s_table s ∧ s_written s4 = s_written s) as [Ht Hw].
  { revert Hpub. unfold publish. destruct (publishSSNMReport _ _ _ _). by intros [= _ <-]. }
  eapply forEach_wrote in Hh; [|intros d s6 s7 Ht6 Hd; eapply answerDestination_wrote in Hd;
    [rewrite Ht6 in Hd; exact Hd|exact Hna]|exact Ht].
  destruct Hh as [Ht' Hw']. split; [congruence|]. by rewrite Hw', Hw.
Qed.
End asked_SGP.

(** C16: An audit teaches the ASP what the SGP knows. An SGP answers without an
    error the audit of an ASP that names a Network Appearance and Routing Contexts,
    and the ASP, entitled to each of these Routing Contexts, takes in the answers
    without an error: then for every Routing Context and every question that a
    destination of the audit covers, the ASP answers with the availability the SGP
    answers for the last such destination, and with its congestion where that answer
    is congested, can be expressed in a message and is not unavailable. Where the
    answer has no congestion nothing is said of it: what the ASP held before may
    stay. *)
Theorem audit_teaches_availability `{Quoting} envG iG cG restarts env i c restarts' audit v routingContext p
    g g' answers s s' :
  appearanceOf (DestinationStateAudit.NetworkAppearance audit) = Some v →
  DestinationStateAudit.RoutingContext audit = Some routingContext →
  DestinationStateAudit.AffectedPointCode audit = Some p →
  handleDestinationStateAudit envG iG cG restarts audit g = (inr (), g') →
  s_written g' = s_written g ++ answers →
  role (a_cfg c) = RoleASP →
  (∀ rc, rc ∈ Tack.RoutingContexts (Some routingContext) → entitled c rc) →
  si_maxSSNMDestinationRecords i < 2 ^ 63 → DestinationsTheory.reachable (s_table s) →
  forEach answers.*1 (handleSSNM env i c restarts') s = (inr (), s') →
  ∀ rc d pc mask, rc ∈ Tack.RoutingContexts (Some routingContext) →
    last (List.filter (λ d, coversPoint d pc mask)
            (ssnmDestinationsFrom (wordsOf (get_AffectedPointCodes p)) (wordsOf (get_AffectedPointCodeMasks p)))) = Some d →
    let answer := auditAnswer restarts (auditScope (v, true) (Some rc)) d (s_table g) in
    let '(state, known) := lookupRange (auditScope (v, true) (Some rc)) pc mask (s_table s') in
    known = true ∧
    (validDestinationAvailability (ns_Availability answer) = true → ns_Availability state = ns_Availability answer) ∧
    (sayable (ns_Congestion answer) = true → Congested (ns_Congestion answer) = true →
     ns_Availability answer ≠ DestinationUnavailable → ns_Congestion state = ns_Congestion answer).
Proof.
  intros Hna Hrc Hp Haudit Hans Hrole Hent Hmax Htold Hs rc d pc mask Hin Hlast.
  eapply audit_wrote in Haudit as [_ Hw]; [|done..]. rewrite Hans in Hw. apply app_inv_head in Hw. subst answers.
  rewrite <-list_fmap_compose in Hs. cbn [fst] in Hs. rewrite list_fmap_id in Hs.
  assert (Hlimit : destinationRecordLimit i < 2 ^ 63).
  { unfold destinationRecordLimit. destruct (0 <? _); [done|]. unfold DefaultMaxSSNMDestinationRecords. lia. }
  apply (destinations_taught env i c restarts' Hrole _ (Some routingContext) v restarts (s_table g) Hna Hent Hlimit)
    in Hs as [_ Hs]; [|apply ssnmDestinations_ok|by apply reachable_refines].
  specialize (Hs rc pc mask Hin). cbn zeta in Hs. rewrite Hlast in Hs. cbn zeta.
  destruct (lookupRange _ _ _ (s_table s')). exact Hs.
Qed.

Module Concrete.
Import AspStates.Concrete SsnmProcedureTheory.Concrete.
#[local] Instance plain : Quoting := λ s, s.

(** An SGP that is active in the Routing Contexts 1 and 2 and knows the
    destination 9 as congested in the one and as restricted in the other. *)
Definition gatewayConfig : AssociationConfig :=
  mkAssociationConfig RoleSGP None None
    [mkASConfig (mkASKey 3 true 1 true) 2; mkASConfig (mkASKey 3 true 2 true) 2] None true false 5.
Definition gateway : association :=
  default (newAssociation gatewayConfig) (run_timely granting to_active (newAssociation gatewayConfig)).
Definition told_of (rc : Z) (congestion : bool) (s : DestinationNetworkState) : operation :=
  OReport congestion (Some [rc]) [Destinations.mkRange 3 true 0 false 9 0 s].
Definition knowledge : destinations :=
  (performs [told_of 1 true (mkNetworkState DestinationAvailable (congestionStateFor 2 true));
             told_of 1 false zeroNetworkState;
             told_of 2 false (mkNetworkState DestinationRestricted noCongestion)] newDestinations).2.
Definition theirs : side := mkSide SsnmTheory.Concrete.start knowledge [].

Definition audit : DestinationStateAudit.DestinationStateAudit :=
  DestinationStateAudit.NewDestinationStateAudit (Some (NewNetworkAppearance 3))
    (Some (NewRoutingContext [1; 2])) (Some (NewAffectedPointCode [9; 5])) None.
Definition audited : side := (handleDestinationStateAudit working seven gateway newRestartRegistry audit theirs).2.
Definition learner : association := asp [1; 2].
Definition learnt : side := (forEach (s_written audited).*1 (handleSSNM working seven learner newRestartRegistry) fresh).2.
Definition nine : PointCodeRange := RoutingKey.mkRange 9 0.

Lemma audit_teaches_availability_witness :
  (s_written audited).*2 = [true; true; true; true] ∧
  auditAnswer newRestartRegistry (auditScope (3, true) (Some 1)) nine knowledge =
    mkNetworkState DestinationAvailable (congestionStateFor 2 true) ∧
  let answer := auditAnswer newRestartRegistry (auditScope (3, true) (Some 1)) nine knowledge in
  let '(state, known) := lookupRange (auditScope (3, true) (Some 1)) 9 0 (s_table learnt) in
  known = true ∧
  (validDestinationAvailability (ns_Availability answer) = true → ns_Availability state = ns_Availability answer) ∧
  (sayable (ns_Congestion answer) = true → Congested (ns_Congestion answer) = true →
   ns_Availability answer ≠ DestinationUnavailable → ns_Congestion state = ns_Congestion answer).
Proof.
  split; [vm_compute; reflexivity|]. split; [vm_compute; reflexivity|].
  refine (audit_teaches_availability working seven gateway newRestartRegistry working seven learner
    newRestartRegistry audit 3 (Params.SetLength (NewRoutingContext [1; 2]))
    (Params.SetLength (NewAffectedPointCode [9; 5])) theirs audited (s_written audited) fresh learnt
    _ _ _ _ _ _ _ _ _ _ 1 nine 9 0 _ _).
  - vm_compute. reflexivity.
  - reflexivity.
  - reflexivity.
  - vm_compute. reflexivity.
  - vm_compute. reflexivity.
  - vm_compute. reflexivity.
  - intros rc Hrc. left.
    assert (activeFor learner 1 ∧ activeFor learner 2) as [H1 H2] by (split; vm_compute; auto).
    change (Tack.RoutingContexts (Some (Params.SetLength (NewRoutingContext [1; 2])))) with [1; 2] in Hrc.
    apply elem_of_cons in Hrc as [-> | ->%list_elem_of_singleton]; [exact H1|exact H2].
  - vm_compute. reflexivity.
  - exists []. split; [constructor|reflexivity].
  - vm_compute. reflexivity.
  - apply (bool_decide_unpack _). vm_compute. exact I.
  - vm_compute. reflexivity.
Defined.
End Concrete.
